(* ===== verification/_CoqProject ===== *)
-Q . S2P
Prelude.v
Convert.v
BitVector.v
Hash.v
Merkle.v
MerkleProofs.v
MerkleGen.v
Wire.v
RangeList.v
RangeTree.v
Text.v
Signer.v
BlockLog.v
HotStuff.v
HotStuffProofs.v
Store.v
Iterators.v
MemDB.v
Batch.v
DiskDB.v
DiskProofs.v
Receipt.v
UrdTypes.v
BlockProofs.v
CrossShard.v
ShardInfo.v
Network.v
Bank.v
BankProofs.v
BankTheorems.v
Importer.v
NodeConfig.v
NodeStart.v
BlockWire.v
BlockPart.v
PyrTypes.v
PyrParts.v
PyrVotes.v
PyrVoteProofs.v
PyrHeight.v
PyrHeightProofs.v
PyrBank.v
PyrBankProofs.v
PyrMoney.v
PyrCommit.v
BlockData.v
UrdDemo.v
CList.v
Mempool.v
PyrNode.v
PyrConsensus.v
PyrConsensusProofs.v
PyrConsensusTheorems.v
PyrAgreement.v
PyrDemo.v
PyrShardDemo.v
Consensus.v
ConsensusProofs.v
ConsensusDemo.v
Latency.v
PyrLatency.v
ImporterDemo.v
PyrImporter.v
PyrImporterDemo.v
