(* ===== verification/Prelude.v ===== *)
(** * Urd: a verification library for the Urd sharding prototype

    The repository holds two sharded blockchains that share their libraries.
    Urd ([source/urd]) is a leader-based HotStuff variant whose shards agree on
    cross-shard transactions through commit intentions and certificates.
    Pyramid ([source/pyramid]), which it is compared with, runs Tendermint in
    every shard: B shards propose cross-shard blocks, the related I shards
    accept or refuse them in blocks of their own, and the B shard commits or
    aborts them.  A node of either system receives messages (proposals, block
    parts, votes, cross-shard messages) under one lock; a proposer reaps its
    mempool, builds a block, splits its bytes into parts with Merkle proofs and
    collects signed votes; a validator rebuilds the block from its parts, checks
    it, votes, and has the bank application execute decided blocks.

    ** Files and the code they model (paths under [source/])

    Shared libraries:
    - [Prelude]: outcomes (return or panic), machine integers, Go slices,
      little-endian bytes, string order, weights of votes; the tactics and hints
      of the library.
    - [Convert] ([utils/convert.go], [compare-bytes.go], [flag.go],
      [dep-graph.go], [libs/math], [libs/db/util.go]); [BitVector]
      ([utils/bit-vector.go]); [RangeList] ([utils/RangeList.go]); [RangeTree]
      ([utils/RangeTree.go]).
    - [Hash], [Merkle], [MerkleProofs], [MerkleGen] ([crypto/hash],
      [crypto/merkle]): SHA-256 as FIPS 180-4 discharges the hash interface
      [HashFn]; the trees and proofs are generic in it.
    - [Signer] ([utils/signer/bls.go], [utils/must_proto_bytes.go]): the classes
      [ProtoCodec] and [BLS] state what is used of the protobuf runtime and of
      the BLS library.  [Wire] ([utils/time.go], the messages of
      [merkle/proof.go]).
    - [Store], [Iterators] ([utils/store/store.go], [libs/db]): the interfaces
      [KVStore] and [IterStore] of a database and the prefixed store on top of
      them; [MemDB] ([libs/db/memdb.go], [memdb_iterator.go]) discharges both;
      [Batch] ([libs/db/memdb_batch.go], the batches of [store.go]).  [DiskDB]
      ([goleveldb*.go], [tm-rocksdb.go], [rocksdb_*.go], the registry of
      [db.go]) and [DiskProofs]: the wrappers of LevelDB and RocksDB discharge
      them too; the libraries below are the classes [DiskOps] and [DiskLaws].
    - [Text] ([libs/math/fraction.go], [parseStartTime] of [main/start.go]):
      numbers and fractions as text.  [BlockLog] ([logger/blocklogger]): the
      event log, its reader and its statistics; JSON and the text template are
      the class [EventCodec].  [Latency], [PyrLatency]
      ([abci/minibank/main/main.go] of the two systems): the latency reports.
    - [CList] ([libs/clist]), [Mempool] ([urd/mempool], [pyramid/mempool]).
    - [Network] ([utils/p2p]): envelopes, the sender and the receiver; sockets
      and JSON are the classes [Net] and [JsonCodec].
    - [NodeConfig] ([urd/main/config.go], [json-file.go]): the generated
      addresses, keys, table of shards, configurations and transactions, and
      the files they are written to; [NodeStart]
      ([urd/main/start.go]) and [PyrNode] ([pyramid/main]): what a starting node
      builds from them.

    Urd:
    - [HotStuff], [HotStuffProofs] ([core/hotstuff]): votes, the vote collector
      and the view state.
    - [Receipt], [UrdTypes], [BlockProofs], [CrossShard], [BlockWire]
      ([urd/types]): receipts, transaction lists, commit intentions and
      certificates, cross-shard messages and blocks.
    - [BlockPart] ([urd/types/block-part.go], [constypes/proposal.go]),
      [BlockData] ([urd/consensus/block_datas.go]), [ShardInfo]
      ([urd/shardinfo], [utils/p2p/peer.go]), [Consensus], [ConsensusProofs]
      ([urd/consensus/state.go], [state_transition.go], [reactor.go]).
    - [Bank], [BankProofs], [BankTheorems] ([urd/abci/minibank]); [Importer],
      [ImporterDemo] ([urd/abci/minibank/importer.go]): the workload.
    - [UrdDemo], [ConsensusDemo]: concrete codecs, blocks and nodes on which the
      theorems with hypotheses are run.

    Pyramid:
    - [PyrTypes] ([pyramid/types/tx.go], [block.go], [abci-resp.go]), [PyrParts]
      ([block-part.go]; a simulation by [BlockPart] carries its theorems over).
    - [PyrVotes], [PyrVoteProofs] ([pyramid/consensus/constypes]): votes, vote
      sets, messages between shards.
    - [PyrHeight], [PyrHeightProofs] ([pyramid/shardinfo],
      [consensus/height_datas.go], [round-step.go]): the data of a height.
    - [PyrBank], [PyrBankProofs], [PyrMoney], [PyrCommit]
      ([pyramid/abci/minibank]): the bank, its databases and locks;
      [PyrImporter], [PyrImporterDemo] ([importer.go]): its workload.
    - [PyrConsensus], [PyrConsensusProofs], [PyrConsensusTheorems]
      ([pyramid/consensus/main.go], [pyramid/definition]): the state machine;
      the application is the class [ABCIConn], which the bank discharges in
      [PyrDemo].  [PyrAgreement]: the nodes of a shard together.
    - [PyrDemo], [PyrShardDemo]: concrete codecs, a system of two shards and a
      shard of four validators on which the theorems with hypotheses are run.

    ** What the theorems show

    - Banks: a transfer of Urd refines an abstract plan, conserves the money of
      clean transfers and never panics; a Pyramid block refines its transfers
      run in order on a ledger, which conserves money; accepting and then
      committing or aborting a cross-shard block writes and unlocks exactly what
      it locked, unless another block is aborted in between.
    - Votes: the totals, bitmaps and votes of Urd's collector and of Pyramid's
      vote sets agree in every reachable state (Urd's collector keeps its votes
      when the proposal is set anew, each vote being for the proposal it was
      added under); when a vote is counted; that a
      majority is unique; that aggregated votes and certificates verify, those
      of an aborting majority as long as no vote has an odd code; Urd's quorum
      rule in exact arithmetic and the least weight two quorums share.
    - Merkle trees: the recursive and the iterative hash compute the RFC 6962
      tree hash, generated proofs verify, verified proofs are sound.
    - Blocks: what a block hash commits to (a difference is a collision of the
      hash function, exhibited among the inputs hashed) and what it does not;
      Urd's cross-shard proofs are sound at their honest position and forgeable
      otherwise; a validated block is complete; a block survives the wire,
      with the hash its proposer has cached.
    - Dissemination: parts in any order, before or after their proposal, with
      duplicates or forgeries, yield the proposer's block or nothing.
    - Urd consensus: the invariant of the node over all messages and turns, what
      a validator votes, exactly when its handler terminates, that a leader's
      handler always does, and a deadlock of small shards.
    - Pyramid consensus: the invariant of the node over all messages, that it
      votes once per step of a height, that a precommit follows a majority of
      prevotes, that conflicting majorities convict more than a third of the
      shard and do not exist if two thirds run this code; and the messages that
      break the protocol: early reports, reports to a B shard, foreign answers,
      a second proposal.
    - Containers: the concurrent list refines a list and loses no wake-up, the
      mempools refine lists, range lists and range trees refine sets of keys and
      are interchangeable, the prefixed store isolates its name spaces, the
      in-memory database refines a map and its iterators visit the domain in
      order, below the prefixed store too; so do the databases on disk, as
      long as their libraries report no failure.
    - Network: what is sent over a connection reaches the reactor of its channel
      once and in order; a closed or dead connection is never given up.
    - Workload: generated transfers are valid and name the shards of their
      accounts, generation returns whenever the accounts keep coming, and the
      importers put every transaction into the mempool it is meant for.
    - Nodes: a generated network gives every node an address of its own and its
      place in the table of shards, where the signatures of its key verify; a
      key range that cannot be read stops the generation with a panic; a
      started node knows exactly the nodes it must, and a Pyramid shard serves
      exactly the keys of its own range and of the shards related to it.
    - Logs and text: a log is read back as written, the periods computed from
      it are the heights with transactions, the latency reports count the
      transactions of exactly these heights, and printed fractions and start
      times are read back.

    ** Conventions, bounds and fuel

    A Go function is a function into [outcome]: [Ret] its results, errors being
    ordinary results, or [Panic] (index out of range, nil dereference, explicit
    panic, send on a closed channel).  Integers are [Z] with wrap-around
    written out where they can overflow ([int64], [int32], [uint32]).  Pointers
    that may be nil are options.  Where a program iterates over a map the
    iteration order is a parameter and the theorem holds for every order.
    Loops that are not structural run on fuel that their theorems prove to be
    enough (the bisection of range lists runs on the list's length, the Merkle
    recursion on the number of items, the traversal of the concurrent list on
    the size of its heap); the recursions of [handle_state_transition] and
    [handleStateTransition], which need not end, return [None] when their fuel
    runs out.  For Urd the theorems say for exactly which states every fuel is
    too little; for Pyramid the invariant holds for every fuel with which the
    node answers.  The generators of transactions draw until an account is new:
    they return [None] when their fuel runs out, and return a result for every
    source that keeps yielding enough accounts within it.

    ** Not modelled

    Sockets, files, JSON and the text templates are parameters.  Left out are
    reading configuration files and the failures of writing them, the command line, waiting and
    starting goroutines ([main]), opening, closing, compacting and printing
    databases, floating-point rates and quotients, printing and bandwidth statistics, the lock aliases of
    [libs/sync], and generated protobuf code, whose messages are records and
    whose codecs are parameters. *)

From stdpp Require Import base list gmap strings numbers.
From Stdlib Require Import ZArith Lia.

#[global] Open Scope Z_scope.

(** ** Outcomes of Go code

    A Go function either returns or panics.  Errors are ordinary return
    values, so they are part of the returned type [A]. *)
Inductive outcome (A : Type) : Type :=
| Ret (a : A)
| Panic.
Arguments Ret {A} _.
Arguments Panic {A}.

#[export] Instance outcome_ret : MRet outcome := fun A a => Ret a.
#[export] Instance outcome_bind : MBind outcome :=
  fun A B f m => match m with Ret a => f a | Panic => Panic end.
#[export] Instance outcome_fmap : FMap outcome :=
  fun A B f m => match m with Ret a => Ret (f a) | Panic => Panic end.

Lemma outcome_bind_Ret {A B} (f : A → outcome B) (m : outcome A) (b : B) :
  m ≫= f = Ret b ↔ ∃ a, m = Ret a ∧ f a = Ret b.
Proof. destruct m; split; [by eexists | by intros (?&[= ->]&?) | done | by intros (?&?&?)]. Qed.

(** A loop that threads a value through every element of a slice and stops
    at the first panic. *)
Fixpoint foldM {A B} (f : B → A → outcome B) (l : list A) (b : B) : outcome B :=
  match l with
  | [] => Ret b
  | x :: l' => match f b x with Ret b' => foldM f l' b' | Panic => Panic end
  end.

Lemma foldM_app {A B} (f : B → A → outcome B) l1 l2 b :
  foldM f (l1 ++ l2) b = foldM f l1 b ≫= foldM f l2.
Proof. revert b; induction l1 as [|x l1 IH]; intros b; simpl; [done|]. by destruct (f b x). Qed.

Lemma foldM_total {A B} (f : B → A → outcome B) (g : B → A → B) l b :
  (∀ b x, f b x = Ret (g b x)) → foldM f l b = Ret (foldl g b l).
Proof. intros Hf; revert b; induction l as [|x l IH]; intros b; simpl; [done|]. by rewrite Hf. Qed.

(** Following a pointer that may be nil. *)
Definition deref {A} (p : option A) : outcome A :=
  match p with Some a => Ret a | None => Panic end.

(** Run a fallible step on every element, in order. *)
Fixpoint mapM_out {A B} (f : A → outcome B) (l : list A) : outcome (list B) :=
  match l with
  | [] => Ret []
  | x :: l' => y ← f x; ys ← mapM_out f l'; Ret (y :: ys)
  end.

Lemma mapM_out_Ret {A B} (f : A → outcome B) l ys :
  mapM_out f l = Ret ys ↔ Forall2 (λ x y, f x = Ret y) l ys.
Proof.
  revert ys; induction l as [|x l IH]; intros ys; simpl.
  - split; [by intros [= <-]|]. by inversion 1.
  - split.
    + intros (y & E & (ys' & E' & [= <-])%outcome_bind_Ret)%outcome_bind_Ret.
      constructor; [done|by apply IH].
    + inversion 1 as [|? y ? ys' E E']; subst. rewrite E. cbn [mbind outcome_bind].
      apply IH in E'. by rewrite E'.
Qed.

Lemma mapM_out_total {A B} (f : A → outcome B) (g : A → B) l :
  (∀ x, x ∈ l → f x = Ret (g x)) → mapM_out f l = Ret (map g l).
Proof.
  induction l as [|x l IH]; intros Hf; [done|]. simpl.
  rewrite Hf by (by left). cbn [mbind outcome_bind]. by rewrite IH by (intros; apply Hf; by right).
Qed.

(** ** Fixed-width integers

    Integers are [Z]; conversions and arithmetic of a fixed width wrap
    around explicitly. *)
Definition wrapU (w z : Z) : Z := z mod 2 ^ w.
Definition wrapS (w z : Z) : Z := (z + 2 ^ (w - 1)) mod 2 ^ w - 2 ^ (w - 1).

Abbreviation uint8 := (wrapU 8).
Abbreviation uint32 := (wrapU 32).
Abbreviation uint64 := (wrapU 64).
Abbreviation int8 := (wrapS 8).
Abbreviation int32 := (wrapS 32).
Abbreviation int64 := (wrapS 64).

Lemma wrapU_range w z : 0 ≤ w → 0 ≤ wrapU w z < 2 ^ w.
Proof. intros. unfold wrapU. apply Z.mod_pos_bound. lia. Qed.

Lemma wrapU_small w z : 0 ≤ z < 2 ^ w → wrapU w z = z.
Proof. intros. unfold wrapU. by apply Z.mod_small. Qed.

Lemma wrapU_idemp w z : 0 ≤ w → wrapU w (wrapU w z) = wrapU w z.
Proof. intros. unfold wrapU. apply Z.mod_mod. lia. Qed.

Lemma wrapS_small w z : 0 < w → - 2 ^ (w - 1) ≤ z < 2 ^ (w - 1) → wrapS w z = z.
Proof.
  intros Hw Hz. unfold wrapS.
  assert (2 ^ w = 2 * 2 ^ (w - 1)) as E.
  { rewrite <- Z.pow_succ_r by lia. f_equal. lia. }
  rewrite Z.mod_small by lia. lia.
Qed.

Lemma wrapS_range w z : 0 < w → - 2 ^ (w - 1) ≤ wrapS w z < 2 ^ (w - 1).
Proof.
  intros Hw. unfold wrapS.
  assert (2 ^ w = 2 * 2 ^ (w - 1)) as E.
  { rewrite <- Z.pow_succ_r by lia. f_equal. lia. }
  pose proof (Z.mod_pos_bound (z + 2 ^ (w - 1)) (2 ^ w)). lia.
Qed.

Lemma wrapS_wrapU w z : 0 < w → wrapS w (wrapU w z) = wrapS w z.
Proof. intros. unfold wrapS, wrapU. by rewrite Zplus_mod_idemp_l. Qed.

Lemma wrapS_add_l w z k : wrapS w (wrapS w z + k) = wrapS w (z + k).
Proof.
  unfold wrapS. f_equal. replace (_ - _ + k + 2 ^ (w - 1)) with ((z + 2 ^ (w - 1)) mod 2 ^ w + k) by lia.
  rewrite Zplus_mod_idemp_l. f_equal. lia.
Qed.

(** ** Slices

    A [byte] is a [Z] in [0, 256).  [bytes] forgets the difference between
    a nil and an empty slice; [slice] keeps it where the code tests for nil. *)
Abbreviation bytes := (list Z).
Abbreviation slice := (option (list Z)).

Definition is_byte (z : Z) : Prop := 0 ≤ z < 256.
Definition wf_bytes (l : bytes) : Prop := Forall is_byte l.

Lemma wf_lookup l i e : wf_bytes l → l !! i = Some e → is_byte e.
Proof. intros H1 H2. exact (Forall_lookup_1 is_byte l i e H1 H2). Qed.

(** The content of a possibly nil slice. *)
Definition sbytes (s : slice) : bytes := default [] s.

(** [bytes.Equal]: a nil slice equals an empty one. *)
Definition bytes_Equal (a b : bytes) : bool := bool_decide (a = b).

Lemma bytes_Equal_true a b : bytes_Equal a b = true ↔ a = b.
Proof. unfold bytes_Equal. apply bool_decide_eq_true. Qed.
Lemma bytes_Equal_false a b : bytes_Equal a b = false ↔ a ≠ b.
Proof. unfold bytes_Equal. apply bool_decide_eq_false. Qed.
Lemma bytes_Equal_refl a : bytes_Equal a a = true.
Proof. by apply bytes_Equal_true. Qed.

(** [len(l)] as an [int]. *)
Definition zlen {A} (l : list A) : Z := Z.of_nat (length l).

(** [l[i]] with an [int] index: out of range is a run-time panic. *)
Definition idx {A} (l : list A) (i : Z) : outcome A :=
  if i <? 0 then Panic
  else match l !! Z.to_nat i with Some x => Ret x | None => Panic end.

(** [l[i] = x]: out of range is a run-time panic. *)
Definition upd {A} (l : list A) (i : Z) (x : A) : outcome (list A) :=
  if (i <? 0) || (zlen l <=? i) then Panic else Ret (<[Z.to_nat i := x]> l).

(** [l[:i]] and [l[i:]] within the capacity the code relies on. *)
Definition slice_to {A} (l : list A) (i : Z) : outcome (list A) :=
  if (i <? 0) || (zlen l <? i) then Panic else Ret (take (Z.to_nat i) l).
Definition slice_from {A} (l : list A) (i : Z) : outcome (list A) :=
  if (i <? 0) || (zlen l <? i) then Panic else Ret (drop (Z.to_nat i) l).

Lemma zlen_nonneg {A} (l : list A) : 0 ≤ zlen l.
Proof. unfold zlen. lia. Qed.
Lemma zlen_app {A} (l k : list A) : zlen (l ++ k) = zlen l + zlen k.
Proof. unfold zlen. rewrite length_app. lia. Qed.
Lemma zlen_cons {A} (x : A) l : zlen (x :: l) = 1 + zlen l.
Proof. unfold zlen. simpl length. lia. Qed.
Lemma zlen_nil_inv {A} (l : list A) : zlen l = 0 → l = [].
Proof. unfold zlen. destruct l; simpl; [done|lia]. Qed.
Lemma zlen_insert {A} (l : list A) i x : zlen (<[i:=x]> l) = zlen l.
Proof. unfold zlen. by rewrite length_insert. Qed.

Lemma idx_Ret {A} (l : list A) i x :
  idx l i = Ret x ↔ 0 ≤ i ∧ l !! Z.to_nat i = Some x.
Proof.
  unfold idx. destruct (Z.ltb_spec i 0); [split; [done|lia]|].
  destruct (l !! Z.to_nat i); split; [by intros [= <-] | by intros [_ [= <-]] | done | by intros [_ ?]].
Qed.

Lemma idx_in_range {A} (l : list A) i :
  0 ≤ i < zlen l → ∃ x, idx l i = Ret x ∧ l !! Z.to_nat i = Some x.
Proof.
  unfold zlen. intros Hi. destruct (lookup_lt_is_Some_2 l (Z.to_nat i)) as [x Hx]; [lia|].
  exists x. split; [|done]. apply idx_Ret. split; [lia|done].
Qed.

Lemma upd_in_range {A} (l : list A) i x :
  0 ≤ i < zlen l → upd l i x = Ret (<[Z.to_nat i := x]> l).
Proof.
  intros Hi. unfold upd.
  destruct (Z.ltb_spec i 0); [lia|]. destruct (Z.leb_spec (zlen l) i); [lia|]. done.
Qed.

Lemma upd_Ret {A} (l : list A) i x l' :
  upd l i x = Ret l' → 0 ≤ i < zlen l ∧ l' = <[Z.to_nat i := x]> l.
Proof.
  unfold upd. destruct (Z.ltb_spec i 0); [done|]. destruct (Z.leb_spec (zlen l) i); [done|].
  simpl. intros [= <-]. split; [lia|done].
Qed.

Lemma idx_app_mid {A} (l r : list A) x : idx (l ++ x :: r) (zlen l) = Ret x.
Proof.
  apply idx_Ret. split; [apply zlen_nonneg|]. unfold zlen. rewrite Nat2Z.id.
  by rewrite lookup_app_r, Nat.sub_diag by lia.
Qed.

Lemma upd_app_mid {A} (l r : list A) x y : upd (l ++ x :: r) (zlen l) y = Ret (l ++ y :: r).
Proof.
  rewrite upd_in_range.
  - unfold zlen. by rewrite Nat2Z.id, <- (Nat.add_0_r (length l)), insert_app_r.
  - pose proof (zlen_nonneg l). pose proof (zlen_nonneg r). rewrite zlen_app, zlen_cons. lia.
Qed.

Lemma slice_to_in_range {A} (l : list A) i :
  0 ≤ i ≤ zlen l → slice_to l i = Ret (take (Z.to_nat i) l).
Proof.
  intros. unfold slice_to.
  destruct (Z.ltb_spec i 0); [lia|]. destruct (Z.ltb_spec (zlen l) i); [lia|]. done.
Qed.

Lemma slice_from_in_range {A} (l : list A) i :
  0 ≤ i ≤ zlen l → slice_from l i = Ret (drop (Z.to_nat i) l).
Proof.
  intros. unfold slice_from.
  destruct (Z.ltb_spec i 0); [lia|]. destruct (Z.ltb_spec (zlen l) i); [lia|]. done.
Qed.

(** The sum of a list of integers. *)
Definition zsum (l : list Z) : Z := foldr Z.add 0 l.

Lemma zsum_nonneg l : Forall (λ w, 0 ≤ w) l → 0 ≤ zsum l.
Proof. induction 1; simpl; lia. Qed.

Lemma zsum_app l k : zsum (l ++ k) = zsum l + zsum k.
Proof. induction l as [|x l IH]; simpl; [done|]. rewrite IH. lia. Qed.

(** ** Little-endian encodings ([encoding/binary], [LittleEndian]) *)
Fixpoint le_encode (n : nat) (z : Z) : bytes :=
  match n with
  | O => []
  | S n' => (z mod 256) :: le_encode n' (z / 256)
  end.

Fixpoint le_decode (l : bytes) : Z :=
  match l with
  | [] => 0
  | b :: l' => b + 256 * le_decode l'
  end.

Lemma length_le_encode n z : length (le_encode n z) = n.
Proof. revert z; induction n; intros; simpl; auto. Qed.

Lemma le_encode_wf n z : wf_bytes (le_encode n z).
Proof.
  revert z; induction n as [|n IH]; intros z; simpl; [constructor|].
  constructor; [unfold is_byte; apply Z.mod_pos_bound; lia|apply IH].
Qed.

Lemma le_decode_encode n z : le_decode (le_encode n z) = z mod 256 ^ Z.of_nat n.
Proof.
  revert z; induction n as [|n IH]; intros z; [by rewrite Z.mod_1_r|].
  simpl le_encode; simpl le_decode. rewrite IH, Nat2Z.inj_succ, Z.pow_succ_r by lia.
  rewrite Z.rem_mul_r by lia. lia.
Qed.

Lemma le_encode_decode l : wf_bytes l → le_encode (length l) (le_decode l) = l.
Proof.
  induction 1 as [|b l Hb Hl IH]; [done|]. simpl. unfold is_byte in Hb.
  replace ((b + 256 * le_decode l) mod 256) with b.
  2:{ rewrite (Z.mul_comm 256), Z.mod_add, Z.mod_small; lia. }
  replace ((b + 256 * le_decode l) / 256) with (le_decode l); [by rewrite IH|].
  rewrite (Z.mul_comm 256), Z.div_add, Z.div_small; lia.
Qed.

Lemma le_decode_range l : wf_bytes l → 0 ≤ le_decode l < 256 ^ zlen l.
Proof.
  induction 1 as [|b l Hb Hl IH]; [done|]. unfold is_byte in Hb.
  rewrite zlen_cons, Z.pow_add_r by (try apply zlen_nonneg; lia). simpl. lia.
Qed.

Arguments le_encode : simpl never.
Arguments le_decode : simpl never.
Arguments wrapU : simpl never.
Arguments wrapS : simpl never.

(** ** Strings

    A Go string is a sequence of bytes, compared byte by byte; it is
    modelled by [string]. *)
Definition str_ltb (s t : string) : bool :=
  match String.compare s t with Lt => true | _ => false end.
Definition str_leb (s t : string) : bool := negb (str_ltb t s).

Definition str_lt (s t : string) : Prop := str_ltb s t = true.
Definition str_le (s t : string) : Prop := str_ltb t s = false.

Lemma ascii_compare_N a b : Ascii.compare a b = N.compare (Ascii.N_of_ascii a) (Ascii.N_of_ascii b).
Proof. done. Qed.

Lemma str_compare_refl s : String.compare s s = Eq.
Proof. induction s as [|a s IH]; simpl; [done|]. by rewrite ascii_compare_N, N.compare_refl. Qed.

Lemma str_compare_trans s t u :
  String.compare s t = Lt → String.compare t u = Lt → String.compare s u = Lt.
Proof.
  revert t u; induction s as [|a s IH]; intros [|b t] [|c u]; simpl; try done.
  rewrite !ascii_compare_N.
  destruct (N.compare_spec (Ascii.N_of_ascii a) (Ascii.N_of_ascii b)) as [Hab|Hab|Hab]; try done;
  destruct (N.compare_spec (Ascii.N_of_ascii b) (Ascii.N_of_ascii c)) as [Hbc|Hbc|Hbc]; try done;
  intros H1 H2;
  destruct (N.compare_spec (Ascii.N_of_ascii a) (Ascii.N_of_ascii c)); try done; try lia.
  by apply (IH t).
Qed.

(** The order a sorted container relies on: strict, total, decidable. *)
Class KeyOrder (K : Type) := {
  key_ltb : K → K → bool;
  key_ltb_irrefl : ∀ k, key_ltb k k = false;
  key_ltb_trans : ∀ a b c, key_ltb a b = true → key_ltb b c = true → key_ltb a c = true;
  key_ltb_total : ∀ a b, key_ltb a b = false → key_ltb b a = false → a = b
}.

Lemma str_ltb_irrefl k : str_ltb k k = false.
Proof. unfold str_ltb. by rewrite str_compare_refl. Qed.

Lemma str_ltb_trans a b c : str_ltb a b = true → str_ltb b c = true → str_ltb a c = true.
Proof.
  unfold str_ltb. destruct (String.compare a b) eqn:E1; try done.
  destruct (String.compare b c) eqn:E2; try done.
  by rewrite (str_compare_trans _ _ _ E1 E2).
Qed.

Lemma str_ltb_total a b : str_ltb a b = false → str_ltb b a = false → a = b.
Proof.
  unfold str_ltb. rewrite (String.compare_antisym b a).
  destruct (String.compare a b) eqn:E; simpl; try done.
  intros _ _. by apply String.compare_eq_iff.
Qed.

Lemma str_lt_trans s t u : str_lt s t → str_lt t u → str_lt s u.
Proof. apply str_ltb_trans. Qed.
Lemma str_lt_le s t : str_lt s t → str_le s t.
Proof.
  unfold str_lt, str_le. intros H. destruct (str_ltb t s) eqn:E; [|done].
  pose proof (str_ltb_trans _ _ _ H E) as Hs. by rewrite str_ltb_irrefl in Hs.
Qed.
Lemma str_le_refl s : str_le s s.
Proof. apply str_ltb_irrefl. Qed.
Lemma str_le_lt_or s t : str_le s t → str_lt s t ∨ s = t.
Proof.
  unfold str_lt, str_le. intros H. destruct (str_ltb s t) eqn:E; [by left|right].
  by apply str_ltb_total.
Qed.
Lemma str_le_lt_trans s t u : str_le s t → str_lt t u → str_lt s u.
Proof. intros [?| ->]%str_le_lt_or; [by apply str_lt_trans|done]. Qed.
Lemma str_lt_le_trans s t u : str_lt s t → str_le t u → str_lt s u.
Proof. intros ? [?| ->]%str_le_lt_or; [by eapply str_lt_trans|done]. Qed.
Lemma str_le_trans s t u : str_le s t → str_le t u → str_le s u.
Proof. intros [?| ->]%str_le_lt_or ?; [by eapply str_lt_le, str_lt_le_trans|done]. Qed.
Lemma str_lt_irrefl s : ¬ str_lt s s.
Proof. unfold str_lt. by rewrite str_ltb_irrefl. Qed.
Lemma str_lt_or_le s t : {str_lt s t} + {str_le t s}.
Proof. unfold str_lt, str_le. destruct (str_ltb s t); [by left|by right]. Defined.
Lemma str_leb_le s t : str_leb s t = true ↔ str_le s t.
Proof. unfold str_leb, str_le. by destruct (str_ltb t s). Qed.
Lemma str_leb_lt s t : str_leb s t = false ↔ str_lt t s.
Proof. unfold str_leb, str_lt. by destruct (str_ltb t s). Qed.

#[export] Instance str_le_dec : RelDecision str_le.
Proof. intros s t. unfold str_le. apply _. Defined.

#[export] Instance string_KeyOrder : KeyOrder string := {|
  key_ltb := str_ltb;
  key_ltb_irrefl := str_ltb_irrefl;
  key_ltb_trans := str_ltb_trans;
  key_ltb_total := str_ltb_total
|}.

(** [[]byte(s)]. *)
Definition str_bytes (s : string) : bytes :=
  map (λ a, Z.of_N (Ascii.N_of_ascii a)) (String.list_ascii_of_string s).

Lemma str_bytes_inj s t : str_bytes s = str_bytes t → s = t.
Proof.
  unfold str_bytes. intros E. rewrite <- (String.string_of_list_ascii_of_string s), <- (String.string_of_list_ascii_of_string t).
  f_equal. revert E. generalize (String.list_ascii_of_string s) (String.list_ascii_of_string t).
  induction l as [|a l IH]; intros [|b l']; try done. simpl. intros [= Ea El].
  f_equal; [|by apply IH]. apply N2Z.inj in Ea.
  by rewrite <- (Ascii.ascii_N_embedding a), <- (Ascii.ascii_N_embedding b), Ea.
Qed.

(** ** Weighted votes *)

(** The weight of the votes that satisfy [p]. *)
Fixpoint weight {V} (p : V → bool) (votes : list (option V)) (per : list Z) : Z :=
  match votes, per with
  | o :: votes', w :: per' =>
      (if match o with Some v => p v | None => false end then w else 0) + weight p votes' per'
  | _, _ => 0
  end.

Lemma weight_bounds {V} (p : V → bool) votes : ∀ per, Forall (λ w, 0 ≤ w) per →
  0 ≤ weight p votes per ∧ weight p votes per + weight (λ v, negb (p v)) votes per ≤ zsum per
  ∧ 0 ≤ weight (λ v, negb (p v)) votes per.
Proof.
  induction votes as [|o votes IH]; intros [|w per] Hper; simpl; try (pose proof (zsum_nonneg _ Hper); simpl in *; lia).
  apply Forall_cons_1 in Hper as [Hw Hper]. specialize (IH per Hper).
  destruct o as [v|]; [destruct (p v)|]; simpl; lia.
Qed.

Lemma weight_insert {V} (p : V → bool) votes v w : ∀ per i, votes !! i = Some None → per !! i = Some w →
  weight p (<[i:=Some v]> votes) per = weight p votes per + (if p v then w else 0).
Proof.
  induction votes as [|o votes IH]; intros [|w' per] [|i] Hv Hp; try done; simplify_eq/=; [lia|].
  rewrite (IH per i) by done. lia.
Qed.

Lemma weight_mono {V} (p q : V → bool) votes : (∀ v, p v = true → q v = true) →
  ∀ per, Forall (λ w, 0 ≤ w) per → weight p votes per ≤ weight q votes per.
Proof.
  intros Hpq. induction votes as [|o votes IH]; intros [|w per] Hper; simpl; try done.
  apply Forall_cons_1 in Hper as [Hw Hper]. specialize (IH per Hper).
  destruct o as [v|]; [|lia]. destruct (p v) eqn:Ep; [rewrite (Hpq v Ep); lia|destruct (q v); lia].
Qed.

Lemma weight_pos {V} (p : V → bool) votes : ∀ per, 0 < weight p votes per →
  ∃ i v, votes !! i = Some (Some v) ∧ p v = true.
Proof.
  induction votes as [|o votes IH]; intros [|w per] Hp; simpl in Hp; try lia.
  destruct o as [v|]; [destruct (p v) eqn:Ev; [by exists 0%nat, v|]|];
    (destruct (IH per) as (i & v' & Hi & Hv); [lia|by exists (S i), v']).
Qed.

Lemma weight_replicate {V} (p : V → bool) n : ∀ per, weight p (replicate n None) per = 0.
Proof. induction n as [|n IH]; intros [|w per]; simpl; [done..|]. by rewrite IH. Qed.

(** ** Automation

    [go_cases] splits on the boolean tests and matches of a translated
    function body; [urd] collects the equations it uses. *)
Create HintDb urd.
Create Rewrite HintDb urd.
#[export] Hint Resolve zlen_nonneg bytes_Equal_refl le_encode_wf : urd.
#[export] Hint Rewrite @zlen_app @zlen_cons @zlen_insert length_le_encode : urd.

Ltac bool_to_prop :=
  repeat match goal with
  | H : bytes_Equal _ _ = true |- _ => apply bytes_Equal_true in H
  | H : bytes_Equal _ _ = false |- _ => apply bytes_Equal_false in H
  | H : bool_decide _ = true |- _ => apply bool_decide_eq_true in H
  | H : bool_decide _ = false |- _ => apply bool_decide_eq_false in H
  | H : (_ <? _) = true |- _ => apply Z.ltb_lt in H
  | H : (_ <? _) = false |- _ => apply Z.ltb_ge in H
  | H : (_ <=? _) = true |- _ => apply Z.leb_le in H
  | H : (_ <=? _) = false |- _ => apply Z.leb_gt in H
  | H : (_ =? _) = true |- _ => apply Z.eqb_eq in H
  | H : (_ =? _) = false |- _ => apply Z.eqb_neq in H
  | H : _ && _ = true |- _ => apply andb_true_iff in H; destruct H
  | H : _ || _ = false |- _ => apply orb_false_iff in H; destruct H
  | H : negb _ = true |- _ => apply negb_true_iff in H
  | H : negb _ = false |- _ => apply negb_false_iff in H
  end.

(** Invert [m ≫= f = Ret _]. *)
Ltac bind_inv H :=
  let x := fresh "x" in let Hx := fresh "Hx" in
  apply outcome_bind_Ret in H as (x & Hx & H).

Ltac go_cases :=
  repeat (case_match; simplify_eq/=; try done).

(** Case analysis on every integer comparison of the goal. *)
Ltac zcases :=
  repeat match goal with
  | |- context [?a <? ?b] => destruct (Z.ltb_spec a b)
  | |- context [?a <=? ?b] => destruct (Z.leb_spec a b)
  | |- context [?a =? ?b] => destruct (Z.eqb_spec a b)
  end.
