(* ===== verification/Convert.v ===== *)
(** * Conversions and small utilities

    Models [source/utils/convert.go], [source/utils/compare-bytes.go],
    [source/utils/flag.go], [source/utils/dep-graph.go],
    [source/libs/math/math.go], [source/libs/math/safemath.go] and the byte
    helpers of [source/libs/db/util.go]. *)

From stdpp Require Import base list gmap strings numbers.
From Stdlib Require Import ZArith Lia.
From S2P Require Import Prelude.

(** ** utils/convert.go *)

(** The dynamic types [IntToBytes] dispatches on; [NInt] is Go's [int],
    which the type switch does not list. *)
Inductive num :=
| NInt8 (v : Z) | NUint8 (v : Z)
| NInt16 (v : Z) | NUint16 (v : Z)
| NInt32 (v : Z) | NUint32 (v : Z)
| NInt64 (v : Z) | NUint64 (v : Z)
| NInt (v : Z).

Definition IntToBytes (n : num) : slice :=
  match n with
  | NInt8 v => Some [uint8 v]
  | NUint8 v => Some [v]
  | NInt16 v => Some (le_encode 2 (wrapU 16 v))
  | NUint16 v => Some (le_encode 2 v)
  | NInt32 v => Some (le_encode 4 (uint32 v))
  | NUint32 v => Some (le_encode 4 v)
  | NInt64 v => Some (le_encode 8 (uint64 v))
  | NUint64 v => Some (le_encode 8 v)
  | NInt v => None
  end.

(** [binary.LittleEndian.UintN] reads the first [n] bytes and panics when
    there are fewer. *)
Definition le_uint (n : nat) (data : bytes) : outcome Z :=
  if (length data <? n)%nat then Panic else Ret (le_decode (take n data)).

(** [BytesToInt]: the second argument only selects the type. *)
Definition BytesToInt (data : bytes) (dataType : num) : outcome (option num) :=
  match dataType with
  | NInt8 _ => b ← idx data 0; Ret (Some (NInt8 (int8 b)))
  | NUint8 _ => b ← idx data 0; Ret (Some (NUint8 b))
  | NInt16 _ => u ← le_uint 2 data; Ret (Some (NInt16 (wrapS 16 u)))
  | NUint16 _ => u ← le_uint 2 data; Ret (Some (NUint16 u))
  | NInt32 _ => u ← le_uint 4 data; Ret (Some (NInt32 (int32 u)))
  | NUint32 _ => u ← le_uint 4 data; Ret (Some (NUint32 u))
  | NInt64 _ => u ← le_uint 8 data; Ret (Some (NInt64 (int64 u)))
  | NUint64 _ => u ← le_uint 8 data; Ret (Some (NUint64 u))
  | NInt _ => Ret None
  end.

Definition BytesToUint32 (data : bytes) : outcome Z := le_uint 4 data.
Definition Uint32ToBytes (n : Z) : bytes := le_encode 4 n.

(** A [num] holds a value of its own type. *)
Definition num_wf (n : num) : Prop :=
  match n with
  | NInt8 v => - 2 ^ 7 ≤ v < 2 ^ 7 | NUint8 v => 0 ≤ v < 2 ^ 8
  | NInt16 v => - 2 ^ 15 ≤ v < 2 ^ 15 | NUint16 v => 0 ≤ v < 2 ^ 16
  | NInt32 v => - 2 ^ 31 ≤ v < 2 ^ 31 | NUint32 v => 0 ≤ v < 2 ^ 32
  | NInt64 v => - 2 ^ 63 ≤ v < 2 ^ 63 | NUint64 v => 0 ≤ v < 2 ^ 64
  | NInt v => - 2 ^ 63 ≤ v < 2 ^ 63
  end.

Definition is_supported (n : num) : bool :=
  match n with NInt _ => false | _ => true end.

(** ** utils/compare-bytes.go *)

(** The loop of [SplitByteArray]; [None] when the fuel runs out (the Go loop
    does not advance when [size] is 0). *)
Fixpoint SplitByteArray_loop (fuel : nat) (data : bytes) (size i : Z)
    (result : list bytes) : outcome (option (list bytes)) :=
  if i <? zlen data then
    match fuel with
    | O => Ret None
    | S fuel' =>
        let e := if zlen data <? i + size then zlen data else i + size in
        hi ← slice_to data e;
        chunk ← slice_from hi i;
        SplitByteArray_loop fuel' data size (i + size) (result ++ [chunk])
    end
  else Ret (Some result).

(** At most one iteration per byte when [size] is positive. *)
Definition SplitByteArray (data : bytes) (size : Z) : outcome (option (list bytes)) :=
  SplitByteArray_loop (length data) data size 0 [].

(** ** utils/flag.go *)

Fixpoint StrIn (s : string) (strs : list string) : bool :=
  match strs with
  | [] => false
  | str :: rest => if bool_decide (s = str) then true else StrIn s rest
  end.

(** The index loop of [StrEqual]; the lengths are equal when it runs. *)
Fixpoint StrEqual_loop (str1 str2 : list string) : bool :=
  match str1, str2 with
  | a :: s1, b :: s2 => if bool_decide (a ≠ b) then false else StrEqual_loop s1 s2
  | _, _ => true
  end.
Definition StrEqual (str1 str2 : list string) : bool :=
  if bool_decide (length str1 ≠ length str2) then false else StrEqual_loop str1 str2.

(** Vote codes of [flag.go]. *)
Definition CodeTypeNil : Z := 0.
Definition CodeTypeOK : Z := 1.
Definition CodeTypeReject : Z := 2.

(** ** utils/dep-graph.go *)
Record DependencyGraph := { dpMap : gmap string Z }.
Definition NewDependencyGraph : DependencyGraph := {| dpMap := ∅ |}.
Definition AddWrite (dg : DependencyGraph) (w : string) (index : Z) : DependencyGraph :=
  {| dpMap := <[w := index]> (dpMap dg) |}.
Definition AddRead (dg : DependencyGraph) (r : string) : Z * bool :=
  match dpMap dg !! r with Some index => (index, true) | None => (0, false) end.

(** ** libs/math *)
Definition MaxInt64_ (a b : Z) : Z := if b <? a then a else b.
Definition MaxInt (a b : Z) : Z := if b <? a then a else b.
Definition MinInt64_ (a b : Z) : Z := if a <? b then a else b.
Definition MinInt (a b : Z) : Z := if a <? b then a else b.

Definition MaxInt32 : Z := 2 ^ 31 - 1.
Definition MinInt32 : Z := - 2 ^ 31.

Definition SafeAddInt32 (a b : Z) : outcome Z :=
  if (0 <? b) && (int32 (MaxInt32 - b) <? a) then Panic
  else if (b <? 0) && (a <? int32 (MinInt32 - b)) then Panic
  else Ret (int32 (a + b)).

Definition SafeSubInt32 (a b : Z) : outcome Z :=
  if (0 <? b) && (a <? int32 (MinInt32 + b)) then Panic
  else if (b <? 0) && (int32 (MaxInt32 + b) <? a) then Panic
  else Ret (int32 (a - b)).

Definition SafeConvertInt32 (a : Z) : outcome Z :=
  if MaxInt32 <? a then Panic
  else if a <? MinInt32 then Panic
  else Ret (int32 a).

Inductive safemath_error := ErrOverflowUint8 | ErrOverflowInt8.

Definition SafeConvertUint8 (a : Z) : Z * option safemath_error :=
  if 255 <? a then (0, Some ErrOverflowUint8)
  else if a <? 0 then (0, Some ErrOverflowUint8)
  else (uint8 a, None).

Definition SafeConvertInt8 (a : Z) : Z * option safemath_error :=
  if 127 <? a then (0, Some ErrOverflowInt8)
  else if a <? -128 then (0, Some ErrOverflowInt8)
  else (int8 a, None).

(** ** libs/db/util.go *)

(** [cpIncr]: the loop from the last byte, on the reversed slice. *)
Fixpoint cpIncr_loop (rev_bz : bytes) : option bytes :=
  match rev_bz with
  | [] => None
  | b :: rest =>
      if b <? 255 then Some (uint8 (b + 1) :: rest)
      else match cpIncr_loop rest with Some r => Some (0 :: r) | None => None end
  end.
Definition cpIncr (bz : bytes) : outcome slice :=
  if bool_decide (bz = []) then Panic
  else Ret (match cpIncr_loop (reverse bz) with Some r => Some (reverse r) | None => None end).

(** [bytes.Compare]: lexicographic on unsigned bytes. *)
Fixpoint bytes_Compare (a b : bytes) : comparison :=
  match a, b with
  | [], [] => Eq
  | [], _ => Lt
  | _, [] => Gt
  | x :: a', y :: b' => match x ?= y with Eq => bytes_Compare a' b' | c => c end
  end.

Definition IsKeyInDomain (key start : bytes) (end_ : slice) : bool :=
  match bytes_Compare key start with
  | Lt => false
  | _ => match end_ with
         | None => true
         | Some e => match bytes_Compare e key with Gt => true | _ => false end
         end
  end.

(** The number a byte slice denotes in big-endian order. *)
Definition be_value (bz : bytes) : Z := le_decode (reverse bz).

(** * Properties *)
Arguments le_uint : simpl never.

Lemma Uint32ToBytes_length n : length (Uint32ToBytes n) = 4%nat.
Proof. apply length_le_encode. Qed.
#[export] Hint Rewrite Uint32ToBytes_length : urd.

Lemma le_uint_encode n z : le_uint n (le_encode n z) = Ret (z mod 256 ^ Z.of_nat n).
Proof.
  unfold le_uint. rewrite length_le_encode, Nat.ltb_irrefl.
  rewrite take_ge by (rewrite length_le_encode; lia). by rewrite le_decode_encode.
Qed.

Lemma BytesToUint32_app n rest : 0 ≤ n < 2 ^ 32 →
  BytesToUint32 (Uint32ToBytes n ++ rest) = Ret n.
Proof.
  intros. unfold BytesToUint32, le_uint.
  rewrite length_app, Uint32ToBytes_length.
  destruct (Nat.ltb_spec (4 + length rest) 4); [lia|].
  rewrite (take_app_length' (Uint32ToBytes n) rest 4) by (by rewrite Uint32ToBytes_length).
  unfold Uint32ToBytes. rewrite le_decode_encode, Z.mod_small; [done|]. simpl. lia.
Qed.

Lemma BytesToUint32_Uint32ToBytes n : 0 ≤ n < 2 ^ 32 →
  BytesToUint32 (Uint32ToBytes n) = Ret n.
Proof. intros. rewrite <- (app_nil_r (Uint32ToBytes n)). by apply BytesToUint32_app. Qed.

Lemma wrapS_of_wrapU w v : 0 < w → - 2 ^ (w - 1) ≤ v < 2 ^ (w - 1) →
  wrapS w (wrapU w v) = v.
Proof. intros. rewrite wrapS_wrapU by lia. by apply wrapS_small. Qed.

Lemma le_uint_num n w v : 256 ^ Z.of_nat n = 2 ^ w → 0 ≤ v < 2 ^ w →
  le_uint n (le_encode n v) = Ret v.
Proof. intros E Hv. rewrite le_uint_encode, E. f_equal. by apply Z.mod_small. Qed.

(** Every integer type [IntToBytes] lists is decoded back by [BytesToInt];
    Go's plain [int] is not listed and is encoded as a nil slice. *)
Theorem IntToBytes_roundtrip (n : num) (Hwf : num_wf n) :
  match IntToBytes n with
  | Some bz => is_supported n = true ∧ wf_bytes bz ∧ BytesToInt bz n = Ret (Some n)
  | None => is_supported n = false
  end.
Proof.
  destruct n; cbn [IntToBytes is_supported BytesToInt num_wf] in *; try done;
    (split; [done|split; [auto with urd|]]).
  - constructor; [unfold is_byte; apply (wrapU_range 8); lia|constructor].
  - change (idx [uint8 v] 0) with (Ret (uint8 v)). cbn. by rewrite wrapS_of_wrapU by lia.
  - constructor; [unfold is_byte; lia|constructor].
  - done.
  - rewrite (le_uint_num 2 16) by (first [done | apply wrapU_range; lia]). cbn.
    by rewrite wrapS_of_wrapU by lia.
  - by rewrite (le_uint_num 2 16).
  - rewrite (le_uint_num 4 32) by (first [done | apply wrapU_range; lia]). cbn.
    by rewrite wrapS_of_wrapU by lia.
  - by rewrite (le_uint_num 4 32).
  - rewrite (le_uint_num 8 64) by (first [done | apply wrapU_range; lia]). cbn.
    by rewrite wrapS_of_wrapU by lia.
  - by rewrite (le_uint_num 8 64).
Qed.

(** *** SplitByteArray *)

Lemma slice_mid {A} (l : list A) (i e : Z) : 0 ≤ i ≤ e → e ≤ zlen l →
  (hi ← slice_to l e; slice_from hi i) = Ret (drop (Z.to_nat i) (take (Z.to_nat e) l)).
Proof.
  intros Hi He. rewrite slice_to_in_range by lia. simpl.
  apply slice_from_in_range. unfold zlen in *. rewrite length_take. lia.
Qed.

Lemma drop_split_chunk {A} (l : list A) (i e : nat) : (i ≤ e)%nat →
  drop i (take e l) ++ drop e l = drop i l.
Proof.
  intros. rewrite <- (take_drop e l) at 3.
  destruct (decide (e ≤ length l)%nat).
  - rewrite drop_app_le; [done|]. rewrite length_take. lia.
  - rewrite (drop_ge l e) by lia. by rewrite !app_nil_r.
Qed.

(** What the loop still has to produce from position [i]. *)
Definition chunks_ok (size : Z) (cs : list bytes) : Prop :=
  Forall (λ c, 0 < zlen c ≤ size) cs ∧
  (∀ c cs', cs = cs' ++ [c] → Forall (λ c', zlen c' = size) cs').

Lemma chunks_ok_nil size : chunks_ok size [].
Proof. split; [constructor|]. intros c [|] E; discriminate E. Qed.

Lemma SplitByteArray_loop_spec fuel data size i result :
  0 < size → 0 ≤ i → zlen data - i ≤ Z.of_nat fuel →
  ∃ cs, SplitByteArray_loop fuel data size i result = Ret (Some (result ++ cs)) ∧
    concat cs = drop (Z.to_nat i) data ∧ chunks_ok size cs.
Proof.
  revert i result; induction fuel as [|fuel IH]; intros i result Hs Hi Hf; simpl;
    destruct (Z.ltb_spec i (zlen data)) as [Hlt|Hge].
  2,4: exists []; rewrite app_nil_r; split; [done|split; [|apply chunks_ok_nil]];
    by rewrite drop_ge by (unfold zlen in *; lia).
  { simpl in Hf. lia. }
  set (e := if zlen data <? i + size then zlen data else i + size).
  assert (i < e ≤ zlen data ∧ e ≤ i + size ∧ (e = i + size ∨ e = zlen data)) as (He1 & He2 & He3).
  { unfold e. destruct (Z.ltb_spec (zlen data) (i + size)); lia. }
  pose proof (slice_mid data i e ltac:(lia) ltac:(lia)) as Hmid.
  destruct (slice_to data e) as [hi|]; simpl in *; [|done]. rewrite Hmid. simpl.
  set (chunk := drop (Z.to_nat i) (take (Z.to_nat e) data)).
  assert (zlen chunk = e - i) as Hcl.
  { unfold zlen, chunk in *. rewrite length_drop, length_take. lia. }
  destruct (IH (i + size) (result ++ [chunk])) as (cs & -> & Hcat & Hall & Hlast); [lia..|].
  exists (chunk :: cs). rewrite <- app_assoc. split; [done|split; [|split]].
  - simpl. rewrite Hcat. destruct He3 as [E|E].
    + rewrite <- E. unfold chunk. apply drop_split_chunk. lia.
    + rewrite (drop_ge data (Z.to_nat (i + size))) by (unfold zlen in *; lia).
      unfold chunk. rewrite app_nil_r, (take_ge data) by (unfold zlen in *; lia). done.
  - constructor; [lia|done].
  - intros c [|c' cs'] E; [constructor|]. injection E as <- E2.
    apply Forall_cons_2; [|exact (Hlast c cs' E2)].
    destruct He3 as [E|E]; [lia|]. subst cs.
    rewrite drop_ge in Hcat by (unfold zlen in *; lia).
    rewrite Forall_app in Hall. destruct Hall as [_ Hc].
    rewrite Forall_singleton in Hc. rewrite concat_app in Hcat.
    apply app_eq_nil in Hcat as [_ Hcat]. simpl in Hcat. rewrite app_nil_r in Hcat.
    subst c. unfold zlen in Hc. simpl in Hc. lia.
Qed.

(** Splitting with a positive part size terminates within one iteration per
    byte; the chunks are non-empty, no larger than the part size, all but
    the last are exactly the part size, and joining them gives the data
    back. *)
Theorem SplitByteArray_correct (data : bytes) (size : Z) (Hsize : 0 < size) :
  ∃ chunks, SplitByteArray data size = Ret (Some chunks) ∧
    concat chunks = data ∧ chunks_ok size chunks.
Proof.
  destruct (SplitByteArray_loop_spec (length data) data size 0 []) as (cs & E & Hc & Hok);
    [lia|lia|unfold zlen; lia|].
  exists cs. rewrite Z2Nat.inj_0, drop_0 in Hc. done.
Qed.

(** *** Membership tests *)
Lemma StrIn_spec s strs : StrIn s strs = true ↔ s ∈ strs.
Proof.
  induction strs as [|t strs IH]; simpl; [split; [done|by intros ?%elem_of_nil]|].
  rewrite elem_of_cons. case_bool_decide; rewrite <- ?IH; naive_solver.
Qed.

Lemma StrEqual_spec s t : StrEqual s t = true ↔ s = t.
Proof.
  unfold StrEqual. case_bool_decide as Hl; [split; [done|by intros ->]|].
  revert t Hl. induction s as [|a s IH]; intros [|b t] Hl; try done.
  simpl. case_bool_decide; [naive_solver|]. rewrite IH by (simpl in Hl; lia). naive_solver.
Qed.

(** *** Checked arithmetic *)
Lemma int32_small z : MinInt32 ≤ z ≤ MaxInt32 → int32 z = z.
Proof. unfold MinInt32, MaxInt32. intros. apply wrapS_small; lia. Qed.

(** [SafeAddInt32] and [SafeSubInt32] return the exact result when it is an
    int32 and panic otherwise, although their guards are themselves computed
    in int32. *)
Theorem SafeInt32_exact (a b : Z)
    (Ha : MinInt32 ≤ a ≤ MaxInt32) (Hb : MinInt32 ≤ b ≤ MaxInt32) :
  SafeAddInt32 a b = (if (MinInt32 <=? a + b) && (a + b <=? MaxInt32) then Ret (a + b) else Panic) ∧
  SafeSubInt32 a b = (if (MinInt32 <=? a - b) && (a - b <=? MaxInt32) then Ret (a - b) else Panic).
Proof.
  unfold SafeAddInt32, SafeSubInt32.
  destruct (Z.ltb_spec 0 b), (Z.ltb_spec b 0); try lia; simpl;
    try rewrite (int32_small (MaxInt32 - b)) by (unfold MinInt32, MaxInt32 in *; lia);
    try rewrite (int32_small (MinInt32 + b)) by (unfold MinInt32, MaxInt32 in *; lia);
    try rewrite (int32_small (MinInt32 - b)) by (unfold MinInt32, MaxInt32 in *; lia);
    try rewrite (int32_small (MaxInt32 + b)) by (unfold MinInt32, MaxInt32 in *; lia);
    split; zcases; simpl; unfold MinInt32, MaxInt32 in *; try lia; try done;
    f_equal; apply wrapS_small; lia.
Qed.

(** *** Byte keys *)

Lemma cpIncr_loop_spec l : wf_bytes l →
  match cpIncr_loop l with
  | Some r => length r = length l ∧ wf_bytes r ∧ le_decode r = le_decode l + 1
  | None => Forall (λ b, b = 255) l
  end.
Proof.
  induction 1 as [|b l Hb Hl IH]; [constructor|]. unfold is_byte in Hb.
  cbn [cpIncr_loop]. destruct (Z.ltb_spec b 255).
  - rewrite wrapU_small by lia. split; [done|]. split.
    + constructor; [unfold is_byte; lia|done].
    + unfold le_decode; fold le_decode. lia.
  - destruct (cpIncr_loop l) as [r|].
    + destruct IH as (IH1 & IH2 & IH3). split; [by simpl; rewrite IH1|]. split.
      * constructor; [unfold is_byte; lia|done].
      * unfold le_decode; fold le_decode. lia.
    + constructor; [lia|done].
Qed.

(** [cpIncr] gives the slice of the same length that denotes the next
    big-endian number; it returns nil exactly when every byte is 0xFF, and
    panics exactly on the empty slice. *)
Theorem cpIncr_correct (bz : bytes) (Hwf : wf_bytes bz) :
  match cpIncr bz with
  | Panic => bz = []
  | Ret None => bz ≠ [] ∧ Forall (λ b, b = 255) bz
  | Ret (Some r) => length r = length bz ∧ wf_bytes r ∧ be_value r = be_value bz + 1
  end.
Proof.
  unfold cpIncr. case_bool_decide; [done|].
  assert (wf_bytes (reverse bz)) as Hr by (by apply Forall_reverse).
  pose proof (cpIncr_loop_spec _ Hr) as Hs.
  destruct (cpIncr_loop (reverse bz)) as [r|].
  - destruct Hs as (H1 & H2 & H3). unfold be_value. rewrite reverse_involutive.
    rewrite length_reverse in *. split; [done|]. split; [by apply Forall_reverse|done].
  - split; [done|]. by apply Forall_reverse in Hs; rewrite reverse_involutive in Hs.
Qed.

(** * Witnesses *)

Lemma IntToBytes_roundtrip_witness :
  match IntToBytes (NInt32 (-5)) with
  | Some bz => bz = [251; 255; 255; 255] ∧ BytesToInt bz (NInt32 (-5)) = Ret (Some (NInt32 (-5)))
  | None => False
  end.
Proof.
  assert (num_wf (NInt32 (-5))) as H by (simpl; lia).
  pose proof (IntToBytes_roundtrip (NInt32 (-5)) H) as T. simpl in T |- *.
  split; [vm_compute; reflexivity | apply T].
Defined.

Lemma SplitByteArray_correct_witness :
  SplitByteArray [1;2;3;4;5] 2 = Ret (Some [[1;2];[3;4];[5]]) ∧
  ∃ chunks, SplitByteArray [1;2;3;4;5] 2 = Ret (Some chunks) ∧
    concat chunks = [1;2;3;4;5] ∧ chunks_ok 2 chunks.
Proof. split; [vm_compute; reflexivity | apply (SplitByteArray_correct [1;2;3;4;5] 2); lia]. Defined.

Lemma SafeInt32_exact_witness :
  SafeAddInt32 2147483647 1 = Panic ∧ SafeSubInt32 2147483647 1 = Ret 2147483646.
Proof.
  destruct (SafeInt32_exact 2147483647 1) as [E1 E2]; [unfold MinInt32, MaxInt32; lia..|].
  rewrite E1, E2. split; vm_compute; reflexivity.
Defined.

Lemma cpIncr_correct_witness :
  cpIncr [1; 255] = Ret (Some [2; 0]) ∧
  match cpIncr [1; 255] with
  | Panic => [1; 255] = []
  | Ret None => False
  | Ret (Some r) => be_value r = be_value [1; 255] + 1
  end.
Proof.
  assert (wf_bytes [1; 255]) as H by (repeat constructor; unfold is_byte; lia).
  pose proof (cpIncr_correct [1; 255] H) as T.
  split; [vm_compute; reflexivity|].
  vm_compute in T |- *. apply T.
Defined.
