(* ===== verification/BitVector.v ===== *)
(** * Bit vectors

    Models [source/utils/bit-vector.go]: the signer bitmap that travels with
    every aggregated vote.  A pointer is an [option]; a slice index out of
    range panics. *)

From stdpp Require Import base list gmap strings numbers.
From Stdlib Require Import ZArith Lia.
From S2P Require Import Prelude Convert.

Record BitVector := { Bits : Z; Elems : list Z }.

#[export] Instance BitVector_eq_dec : EqDecision BitVector.
Proof. solve_decision. Defined.

(** [(bits+7)/8] with Go's truncated division. *)
Definition elems_len (bits : Z) : Z := Z.quot (bits + 7) 8.

Definition NewBitVector (bits : Z) : option BitVector :=
  if bits <? 0 then None
  else Some {| Bits := bits; Elems := replicate (Z.to_nat (elems_len bits)) 0 |}.

Definition Byte (bV : option BitVector) : bytes :=
  match bV with
  | None => [0]
  | Some v => uint8 (int8 (8 * zlen (Elems v) - Bits v)) :: Elems v
  end.

(** The loop of [NewBitArrayFromByte] from index [i] on. *)
Fixpoint fill_elems (elems : list Z) (i : Z) (rest : bytes) : outcome (list Z) :=
  match rest with
  | [] => Ret elems
  | temp :: rest' => elems' ← upd elems i temp; fill_elems elems' (i + 1) rest'
  end.

Definition NewBitArrayFromByte (buf : bytes) : outcome (option BitVector) :=
  match buf with
  | [] => Ret (NewBitVector 0)
  | b :: rest =>
      let uselessBits := int8 b in
      let all := zlen rest * 8 - uselessBits in
      match NewBitVector all with
      | None => if zlen rest =? 0 then Ret None else Panic
      | Some bv =>
          elems ← fill_elems (Elems bv) 0 rest;
          Ret (Some {| Bits := Bits bv; Elems := elems |})
      end
  end.

Definition Size (bA : option BitVector) : Z :=
  match bA with None => 0 | Some v => Bits v end.

(** [uint8(1) << uint(i%8)]: a negative remainder becomes a huge shift. *)
Definition bit_mask (i : Z) : Z :=
  let r := Z.rem i 8 in if r <? 0 then 0 else 2 ^ r.

Definition GetIndex (bA : option BitVector) (i : Z) : outcome bool :=
  match bA with
  | None => Ret false
  | Some v =>
      if Bits v <=? i then Ret false
      else e ← idx (Elems v) (Z.quot i 8); Ret (0 <? Z.land e (bit_mask i))
  end.

Fixpoint CountNoneZero_loop (n : nat) (bA : option BitVector) (i count : Z) : outcome Z :=
  match n with
  | O => Ret count
  | S n' =>
      b ← GetIndex bA i;
      CountNoneZero_loop n' bA (i + 1) (if b : bool then count + 1 else count)
  end.
Definition CountNoneZero (bA : option BitVector) : outcome Z :=
  CountNoneZero_loop (Z.to_nat (Size bA)) bA 0 0.

Definition SetIndex (bA : option BitVector) (i : Z) (v : bool)
    : outcome (option BitVector * bool) :=
  match bA with
  | None => Ret (None, false)
  | Some bv =>
      if Bits bv <=? i then Ret (Some bv, false)
      else
        e ← idx (Elems bv) (Z.quot i 8);
        let e' := if v then Z.lor e (bit_mask i) else Z.land e (Z.lxor (bit_mask i) 255) in
        elems ← upd (Elems bv) (Z.quot i 8) e';
        Ret (Some {| Bits := Bits bv; Elems := elems |}, true)
  end.

Definition Copy (bA : option BitVector) : option BitVector :=
  match bA with None => NewBitVector 0 | Some v => Some {| Bits := Bits v; Elems := Elems v |} end.

(** [copy(c, src)] into a fresh slice of [n] zero bytes. *)
Definition copy_into (n : nat) (src : list Z) : list Z :=
  take n src ++ replicate (n - length src) 0.

Definition copyBits (bA : BitVector) (bits : Z) : BitVector :=
  {| Bits := bits; Elems := copy_into (Z.to_nat (elems_len bits)) (Elems bA) |}.

(** [for i := 0; i < n; i++ { c[i] = f(c[i], o[i]) }]. *)
Fixpoint map2_prefix (f : Z → Z → Z) (n : nat) (c o : list Z) : outcome (list Z) :=
  match n with
  | O => Ret c
  | S n' => match c, o with
            | x :: c', y :: o' => r ← map2_prefix f n' c' o'; Ret (f x y :: r)
            | _, _ => Panic
            end
  end.

Definition Or (bA o : option BitVector) : outcome (option BitVector) :=
  match bA, o with
  | None, None => Ret None
  | None, Some _ => Ret (Copy o)
  | Some _, None => Ret (Copy bA)
  | Some a, Some b =>
      let c := copyBits a (MaxInt (Bits a) (Bits b)) in
      let smaller := MinInt (zlen (Elems a)) (zlen (Elems b)) in
      elems ← map2_prefix Z.lor (Z.to_nat smaller) (Elems c) (Elems b);
      Ret (Some {| Bits := Bits c; Elems := elems |})
  end.

Definition And (bA o : option BitVector) : outcome (option BitVector) :=
  match bA, o with
  | Some a, Some b =>
      let c := copyBits a (MinInt (Bits a) (Bits b)) in
      elems ← map2_prefix Z.land (length (Elems c)) (Elems c) (Elems b);
      Ret (Some {| Bits := Bits c; Elems := elems |})
  | _, _ => Ret None
  end.

Definition Not (bA : option BitVector) : option BitVector :=
  match bA with
  | None => None
  | Some a => Some {| Bits := Bits a; Elems := map (λ e, Z.lxor e 255) (Elems a) |}
  end.

Definition Sub (bA o : option BitVector) : outcome (option BitVector) :=
  match bA, o with
  | Some a, Some b =>
      let c := copyBits a (Bits a) in
      let smaller := MinInt (zlen (Elems a)) (zlen (Elems b)) in
      elems ← map2_prefix Z.ldiff (Z.to_nat smaller) (Elems c) (Elems b);
      Ret (Some {| Bits := Bits c; Elems := elems |})
  | _, _ => Ret None
  end.

(** ** Invariant and abstraction *)

(** The representation invariant: as many bytes as the bits need. *)
Definition bv_wf (v : BitVector) : Prop :=
  0 ≤ Bits v ∧ zlen (Elems v) = elems_len (Bits v) ∧ wf_bytes (Elems v).

(** Bit [j] of the backing bytes, false beyond them. *)
Definition elem_bit (l : list Z) (j : Z) : bool :=
  Z.testbit (default 0 (l !! Z.to_nat (j / 8))) (j mod 8).

(** The abstract value: the bit at [j], false outside [0, Bits). *)
Definition bv_bit (v : BitVector) (j : Z) : bool :=
  (0 <=? j) && (j <? Bits v) && elem_bit (Elems v) j.

(** The padding bits of the last byte are zero. *)
Definition bv_clean (v : BitVector) : Prop :=
  ∀ j, Bits v ≤ j → elem_bit (Elems v) j = false.

(** ** Lemmas *)

Lemma elems_len_eq bits : 0 ≤ bits → elems_len bits = (bits + 7) / 8.
Proof. intros. unfold elems_len. apply Z.quot_div_nonneg; lia. Qed.

Lemma elems_len_bound bits : 0 ≤ bits → bits ≤ 8 * elems_len bits < bits + 8.
Proof.
  intros. rewrite elems_len_eq by lia.
  pose proof (Z.div_mod (bits + 7) 8). pose proof (Z.mod_pos_bound (bits + 7) 8). lia.
Qed.

Lemma bit_mask_pos i : 0 ≤ i → bit_mask i = 2 ^ (i mod 8).
Proof.
  intros. unfold bit_mask. rewrite Z.rem_mod_nonneg by lia.
  pose proof (Z.mod_pos_bound i 8). destruct (Z.ltb_spec (i mod 8) 0); lia.
Qed.

Lemma land_pow2 e k : 0 ≤ k → Z.land e (2 ^ k) = if Z.testbit e k then 2 ^ k else 0.
Proof.
  intros Hk. apply Z.bits_inj'. intros n Hn.
  rewrite Z.land_spec, Z.pow2_bits_eqb by lia.
  destruct (Z.eqb_spec k n) as [->|Hne].
  - destruct (Z.testbit e n); [by rewrite Z.pow2_bits_true | by rewrite Z.bits_0].
  - rewrite andb_false_r. destruct (Z.testbit e k); [|by rewrite Z.bits_0].
    by rewrite Z.pow2_bits_false by lia.
Qed.

Lemma bit_mask_test e i : 0 ≤ i → (0 <? Z.land e (bit_mask i)) = Z.testbit e (i mod 8).
Proof.
  intros. rewrite bit_mask_pos by lia. pose proof (Z.mod_pos_bound i 8).
  rewrite land_pow2 by lia. destruct (Z.testbit e (i mod 8)).
  - apply Z.ltb_lt. lia.
  - done.
Qed.

(** Reading is total on the invariant and agrees with the abstract value. *)
Lemma GetIndex_bit v i : bv_wf v → 0 ≤ i → GetIndex (Some v) i = Ret (bv_bit v i).
Proof.
  intros (Hb & Hl & _) Hi. unfold GetIndex, bv_bit.
  destruct (Z.leb_spec 0 i); [|lia].
  destruct (Z.leb_spec (Bits v) i), (Z.ltb_spec i (Bits v)); try lia; [done|].
  simpl. rewrite Z.quot_div_nonneg by lia.
  pose proof (elems_len_bound (Bits v)).
  destruct (idx_in_range (Elems v) (i / 8)) as (e & -> & He).
  { split; [apply Z.div_pos; lia|]. apply Z.div_lt_upper_bound; lia. }
  simpl. rewrite bit_mask_test by lia. unfold elem_bit. by rewrite He.
Qed.

Lemma elem_bit_insert l i e j : 0 ≤ i → 0 ≤ j → i / 8 < zlen l →
  elem_bit (<[Z.to_nat (i / 8) := e]> l) j =
    if j / 8 =? i / 8 then Z.testbit e (j mod 8) else elem_bit l j.
Proof.
  intros Hi Hj Hl. unfold elem_bit.
  pose proof (Z.div_pos i 8). pose proof (Z.div_pos j 8).
  destruct (Z.eqb_spec (j / 8) (i / 8)) as [E|E].
  - rewrite E, list_lookup_insert_eq by (unfold zlen in Hl; lia). done.
  - rewrite list_lookup_insert_ne by lia. done.
Qed.

Lemma byte_bits_high e n : is_byte e → 8 ≤ n → Z.testbit e n = false.
Proof.
  unfold is_byte. intros. destruct (decide (e = 0)) as [->|]; [by rewrite Z.bits_0|].
  apply Z.bits_above_log2; [lia|]. apply Z.lt_le_trans with 8; [|lia].
  apply Z.log2_lt_pow2; lia.
Qed.

(** A non-negative number whose bits from 8 on are zero is a byte. *)
Lemma byte_of_bits e : 0 ≤ e → (∀ n, 8 ≤ n → Z.testbit e n = false) → is_byte e.
Proof.
  intros He Hn. split; [done|].
  assert (e = e mod 2 ^ 8) as ->; [|apply Z.mod_pos_bound; lia].
  apply Z.bits_inj'. intros n ?. destruct (decide (n < 8)).
  - by rewrite Z.mod_pow2_bits_low.
  - rewrite Z.mod_pow2_bits_high by lia. apply Hn. lia.
Qed.

Lemma is_byte_lor a b : is_byte a → is_byte b → is_byte (Z.lor a b).
Proof.
  intros Ha Hb. apply byte_of_bits; [apply Z.lor_nonneg; unfold is_byte in *; lia|].
  intros. by rewrite Z.lor_spec, !byte_bits_high.
Qed.
Lemma is_byte_land a b : is_byte a → is_byte b → is_byte (Z.land a b).
Proof.
  intros Ha Hb. apply byte_of_bits; [apply Z.land_nonneg; unfold is_byte in *; lia|].
  intros. by rewrite Z.land_spec, !byte_bits_high.
Qed.
Lemma is_byte_lxor a b : is_byte a → is_byte b → is_byte (Z.lxor a b).
Proof.
  intros Ha Hb. apply byte_of_bits; [apply Z.lxor_nonneg; unfold is_byte in *; lia|].
  intros. by rewrite Z.lxor_spec, !byte_bits_high.
Qed.
Lemma is_byte_ldiff a b : is_byte a → is_byte b → is_byte (Z.ldiff a b).
Proof.
  intros Ha Hb. apply byte_of_bits; [apply Z.ldiff_nonneg; unfold is_byte in *; lia|].
  intros. by rewrite Z.ldiff_spec, !byte_bits_high.
Qed.
Lemma is_byte_255 : is_byte 255.
Proof. unfold is_byte. lia. Qed.
Lemma is_byte_mask i : 0 ≤ i → is_byte (bit_mask i).
Proof.
  intros. rewrite bit_mask_pos by lia. pose proof (Z.mod_pos_bound i 8).
  split; [lia|]. apply (Z.pow_lt_mono_r 2 (i mod 8) 8); lia.
Qed.
#[export] Hint Resolve is_byte_lor is_byte_land is_byte_lxor is_byte_ldiff is_byte_255
  is_byte_mask : urd.

Lemma bits_255 k : 0 ≤ k < 8 → Z.testbit 255 k = true.
Proof. intros. change 255 with (Z.ones 8). by apply Z.ones_spec_low. Qed.

(** The byte written by [SetIndex], read back at bit [k]. *)
Lemma set_byte_bit e i (b : bool) k : 0 ≤ i → 0 ≤ k < 8 →
  Z.testbit (if b then Z.lor e (bit_mask i) else Z.land e (Z.lxor (bit_mask i) 255)) k =
    if k =? i mod 8 then b else Z.testbit e k.
Proof.
  intros Hi Hk. rewrite bit_mask_pos by lia. pose proof (Z.mod_pos_bound i 8).
  destruct b; rewrite ?Z.lor_spec, ?Z.land_spec, ?Z.lxor_spec, ?bits_255 by lia;
    rewrite Z.pow2_bits_eqb, (Z.eqb_sym (i mod 8) k) by lia; destruct (k =? i mod 8); simpl.
  - apply orb_true_r.
  - apply orb_false_r.
  - apply andb_false_r.
  - apply andb_true_r.
Qed.

Lemma div_mod_eq_8 i j : j / 8 = i / 8 → (j mod 8 = i mod 8 ↔ j = i).
Proof.
  intros E. pose proof (Z.div_mod i 8). pose proof (Z.div_mod j 8). split; [lia|by intros ->].
Qed.

(** [SetIndex] inside the vector succeeds, keeps the invariant and the clean
    padding, and changes exactly the bit at [i]; outside it changes nothing
    and returns false. *)
Lemma SetIndex_spec v i b : bv_wf v → 0 ≤ i →
  (i < Bits v →
     ∃ v', SetIndex (Some v) i b = Ret (Some v', true) ∧ bv_wf v' ∧ Bits v' = Bits v ∧
       (∀ j, 0 ≤ j → elem_bit (Elems v') j = if j =? i then b else elem_bit (Elems v) j)) ∧
  (Bits v ≤ i → SetIndex (Some v) i b = Ret (Some v, false)).
Proof.
  intros (Hb & Hl & Hw) Hi. unfold SetIndex. split; intros Hlt.
  2:{ destruct (Z.leb_spec (Bits v) i); [done|lia]. }
  destruct (Z.leb_spec (Bits v) i); [lia|].
  rewrite Z.quot_div_nonneg by lia.
  pose proof (elems_len_bound (Bits v)).
  assert (0 ≤ i / 8 < zlen (Elems v)) as Hr.
  { split; [apply Z.div_pos; lia|]. apply Z.div_lt_upper_bound; lia. }
  destruct (idx_in_range (Elems v) (i / 8) Hr) as (e & -> & He). simpl.
  rewrite upd_in_range by done. simpl. eexists; split; [done|].
  assert (is_byte e) as Hbe by eauto using wf_lookup.
  split; [|split; [done|]].
  - split; [done|]. split; cbn [Elems Bits]; [by rewrite zlen_insert|].
    apply Forall_insert; [done|]. destruct b; auto with urd.
  - simpl. intros j Hj. rewrite elem_bit_insert by lia.
    pose proof (Z.mod_pos_bound j 8).
    destruct (Z.eqb_spec (j / 8) (i / 8)) as [E|E].
    + rewrite set_byte_bit by lia. unfold elem_bit. rewrite E, He. simpl.
      destruct (Z.eqb_spec (j mod 8) (i mod 8)) as [E2|E2], (Z.eqb_spec j i) as [E3|E3]; try done.
      * destruct E3. by apply div_mod_eq_8.
      * by subst j.
    + destruct (Z.eqb_spec j i); [by subst j|done].
Qed.

(** Writing a bit and reading the vector back: the written index holds the
    new value, every other index is unchanged, out-of-range writes are
    refused, and the representation invariant is kept. *)
Theorem SetIndex_GetIndex (v : BitVector) (i : Z) (b : bool) (Hwf : bv_wf v) (Hi : 0 ≤ i) :
  ∃ v', SetIndex (Some v) i b = Ret (Some v', i <? Bits v) ∧ bv_wf v' ∧ Bits v' = Bits v ∧
    ∀ j, 0 ≤ j →
      GetIndex (Some v') j = if (j =? i) && (i <? Bits v) then Ret b else GetIndex (Some v) j.
Proof.
  destruct (SetIndex_spec v i b Hwf Hi) as [Hin Hout].
  destruct (Z.ltb_spec i (Bits v)) as [Hlt|Hge].
  - destruct (Hin Hlt) as (v' & E & Hwf' & HB & Hbits). exists v'. split_and!; [done..|].
    intros j Hj. rewrite !GetIndex_bit by done. unfold bv_bit. rewrite HB, Hbits by done.
    destruct (Z.eqb_spec j i) as [->|]; simpl; [|done].
    destruct (Z.leb_spec 0 i), (Z.ltb_spec i (Bits v)); try lia. done.
  - exists v. rewrite (Hout Hge). split_and!; [done..|].
    intros j Hj. by rewrite andb_false_r.
Qed.

(** *** Serialization *)

Lemma fill_elems_spec done_ rest elems :
  (length rest ≤ length elems)%nat →
  fill_elems (done_ ++ elems) (zlen done_) rest =
    Ret (done_ ++ rest ++ drop (length rest) elems).
Proof.
  revert done_ elems; induction rest as [|t rest IH]; intros done_ elems Hl; simpl;
    [by rewrite drop_0|].
  destruct elems as [|x elems]; [simpl in Hl; lia|].
  rewrite upd_in_range by (rewrite zlen_app, zlen_cons; pose proof (zlen_nonneg done_);
    pose proof (zlen_nonneg elems); lia).
  replace (Z.to_nat (zlen done_)) with (length done_ + 0)%nat by (unfold zlen; lia).
  rewrite insert_app_r. simpl.
  replace (done_ ++ t :: elems) with ((done_ ++ [t]) ++ elems) by by rewrite <- app_assoc.
  replace (zlen done_ + 1) with (zlen (done_ ++ [t])) by (rewrite zlen_app; done).
  rewrite IH by (simpl in Hl; lia). by rewrite <- !app_assoc.
Qed.


Lemma fill_elems_Panic t rest elems i : 0 ≤ i ≤ zlen elems → zlen elems < i + zlen (t :: rest) →
  fill_elems elems i (t :: rest) = Panic.
Proof.
  revert t elems i; induction rest as [|t' rest IH]; intros t elems i Hi Hl.
  - simpl. unfold upd. destruct (Z.ltb_spec i 0); [lia|].
    destruct (Z.leb_spec (zlen elems) i); [done|]. rewrite zlen_cons in Hl.
    change (zlen (@nil Z)) with 0 in Hl. lia.
  - change (fill_elems elems i (t :: t' :: rest))
      with (elems' ← upd elems i t; fill_elems elems' (i + 1) (t' :: rest)).
    destruct (upd elems i t) as [elems'|] eqn:E; [|done].
    apply upd_Ret in E as [? ->]. cbn [mbind outcome_bind].
    apply IH; rewrite ?zlen_insert; [lia|]. rewrite zlen_cons in Hl. lia.
Qed.

Lemma NewBitVector_wf bits v : NewBitVector bits = Some v →
  bv_wf v ∧ Bits v = bits ∧ zlen (Elems v) = elems_len bits ∧ ∀ j, elem_bit (Elems v) j = false.
Proof.
  unfold NewBitVector. destruct (Z.ltb_spec bits 0); [done|]. intros [= <-]. simpl.
  assert (zlen (replicate (Z.to_nat (elems_len bits)) 0) = elems_len bits) as E.
  { pose proof (elems_len_bound bits). unfold zlen. rewrite length_replicate. lia. }
  split_and!; [|done|done|].
  - split; [done|]. split; [done|]. apply Forall_replicate. unfold is_byte; lia.
  - intros j. unfold elem_bit.
    destruct (replicate _ 0 !! _) as [z|] eqn:Ez; simpl; [|by rewrite Z.bits_0].
    apply lookup_replicate in Ez as [-> _]. by rewrite Z.bits_0.
Qed.

Lemma Byte_roundtrip (v : BitVector) (Hwf : bv_wf v) :
  wf_bytes (Byte (Some v)) ∧ NewBitArrayFromByte (Byte (Some v)) = Ret (Some v).
Proof.
  destruct Hwf as (Hb & Hl & Hw). pose proof (elems_len_bound (Bits v) Hb).
  unfold Byte, NewBitArrayFromByte. split.
  { constructor; [apply (wrapU_range 8); lia|done]. }
  rewrite wrapS_wrapU, (wrapS_small 8 (int8 _)), (wrapS_small 8) by
    (first [lia | apply (wrapS_range 8); lia]).
  replace (zlen (Elems v) * 8 - (8 * zlen (Elems v) - Bits v)) with (Bits v) by lia.
  destruct (NewBitVector (Bits v)) as [bv|] eqn:E.
  2:{ unfold NewBitVector in E. destruct (Z.ltb_spec (Bits v) 0); [lia|done]. }
  apply NewBitVector_wf in E as (_ & HB & HL & _).
  assert (length (Elems v) = length (Elems bv)) as EL by (unfold zlen in *; lia).
  pose proof (fill_elems_spec [] (Elems v) (Elems bv)) as F. simpl in F.
  change (zlen (@nil Z)) with 0 in F. rewrite F by lia. simpl.
  rewrite EL, drop_ge, app_nil_r, HB by lia. by destruct v.
Qed.

(** Decoding the encoding of a bitmap gives the bitmap back, byte for byte,
    and the bytes are bytes. *)
Theorem BitVector_Byte_roundtrip (v : BitVector) (Hwf : bv_wf v) :
  wf_bytes (Byte (Some v)) ∧ NewBitArrayFromByte (Byte (Some v)) = Ret (Some v).
Proof. by apply Byte_roundtrip. Qed.

(** Decoding bytes from the network crashes the process exactly when the
    first byte announces eight or more unused bits and at least one byte
    follows: nothing checks the announced padding. *)
Theorem NewBitArrayFromByte_panics (b : Z) (rest : bytes) :
  NewBitArrayFromByte (b :: rest) = Panic ↔ rest ≠ [] ∧ 8 ≤ int8 b.
Proof.
  unfold NewBitArrayFromByte. pose proof (zlen_nonneg rest).
  unfold NewBitVector. destruct (Z.ltb_spec (zlen rest * 8 - int8 b) 0).
  - destruct (Z.eqb_spec (zlen rest) 0) as [E|E].
    + split; [done|]. intros [Hne _]. by apply zlen_nil_inv in E.
    + split; [|done]. intros _. split; [by intros ->|lia].
  - cbn [Elems Bits]. set (n := Z.to_nat _).
    assert (Z.of_nat n = elems_len (zlen rest * 8 - int8 b)) as Hn.
    { pose proof (elems_len_bound (zlen rest * 8 - int8 b)). unfold n. lia. }
    pose proof (elems_len_bound (zlen rest * 8 - int8 b) ltac:(lia)) as Hlen.
    destruct (decide (zlen rest ≤ Z.of_nat n)).
    + pose proof (fill_elems_spec [] rest (replicate n 0)) as F. simpl in F.
      change (zlen (@nil Z)) with 0 in F. rewrite F by (rewrite length_replicate; unfold zlen in *; lia).
      split; [done|]. intros [Hne ?]. lia.
    + destruct rest as [|t rest]; [unfold zlen in *; simpl in *; lia|].
      rewrite fill_elems_Panic; unfold zlen in *; rewrite ?length_replicate; [|lia|lia].
      split; [|done]. intros _. split; [done|lia].
Qed.

(** *** Bitwise operations *)

Lemma map2_prefix_spec f n c o : (n ≤ length c)%nat → (n ≤ length o)%nat →
  ∃ r, map2_prefix f n c o = Ret r ∧ length r = length c ∧
    (∀ k, r !! k = if (k <? n)%nat then x ← c !! k; y ← o !! k; Some (f x y) else c !! k).
Proof.
  revert c o; induction n as [|n IH]; intros c o Hc Ho.
  { exists c. split_and!; [done|done|]. intros k. by destruct (Nat.ltb_spec k 0); [lia|]. }
  destruct c as [|x c]; [simpl in Hc; lia|]. destruct o as [|y o]; [simpl in Ho; lia|].
  destruct (IH c o) as (r & Hr & Hl & Hk); [simpl in *; lia..|].
  exists (f x y :: r). simpl. rewrite Hr. simpl. split_and!; [done|by rewrite Hl|].
  intros [|k]; simpl; [done|]. rewrite Hk.
  destruct (Nat.ltb_spec k n), (Nat.ltb_spec (S k) (S n)); try lia; done.
Qed.

Lemma elem_bit_map2 f (fb : bool → bool → bool) n c o r j :
  (∀ x y k, Z.testbit (f x y) k = fb (Z.testbit x k) (Z.testbit y k)) →
  (n ≤ length c)%nat → (n ≤ length o)%nat → 0 ≤ j →
  (∀ k, r !! k = if (k <? n)%nat then x ← c !! k; y ← o !! k; Some (f x y) else c !! k) →
  elem_bit r j = if j / 8 <? Z.of_nat n then fb (elem_bit c j) (elem_bit o j) else elem_bit c j.
Proof.
  intros Hf Hc Ho Hj Hk. unfold elem_bit. rewrite Hk. pose proof (Z.div_pos j 8).
  destruct (Z.ltb_spec (j / 8) (Z.of_nat n)), (Nat.ltb_spec (Z.to_nat (j / 8)) n); try lia; [|done].
  destruct (lookup_lt_is_Some_2 c (Z.to_nat (j / 8))) as [x ->]; [lia|].
  destruct (lookup_lt_is_Some_2 o (Z.to_nat (j / 8))) as [y ->]; [lia|].
  simpl. apply Hf.
Qed.

Lemma length_copy_into n src : length (copy_into n src) = n.
Proof. unfold copy_into. rewrite length_app, length_take, length_replicate. lia. Qed.

Lemma copy_into_wf n src : wf_bytes src → wf_bytes (copy_into n src).
Proof.
  intros. unfold copy_into. apply Forall_app. split; [by apply Forall_take|].
  apply Forall_replicate. unfold is_byte. lia.
Qed.

Lemma elem_bit_copy n src j : 0 ≤ j →
  elem_bit (copy_into n src) j = if j / 8 <? Z.of_nat n then elem_bit src j else false.
Proof.
  intros Hj. unfold elem_bit, copy_into. pose proof (Z.div_pos j 8).
  destruct (Z.ltb_spec (j / 8) (Z.of_nat n)).
  - destruct (decide (Z.to_nat (j / 8) < length src)%nat).
    + rewrite lookup_app_l by (rewrite length_take; lia). by rewrite lookup_take_lt by lia.
    + rewrite lookup_app_r, (lookup_ge_None_2 src) by (rewrite ?length_take; lia).
      rewrite lookup_replicate_2; [done|]. rewrite length_take. lia.
  - rewrite lookup_ge_None_2; [by rewrite Z.bits_0|].
    rewrite length_app, length_take, length_replicate. lia.
Qed.

Lemma elem_bit_beyond l j : 0 ≤ j → zlen l ≤ j / 8 → elem_bit l j = false.
Proof.
  intros. unfold elem_bit. rewrite lookup_ge_None_2 by (unfold zlen in *; lia). by rewrite Z.bits_0.
Qed.

Lemma map2_prefix_wf f n c o r : (∀ x y, is_byte x → is_byte y → is_byte (f x y)) →
  wf_bytes c → wf_bytes o → length r = length c →
  (∀ k, r !! k = if (k <? n)%nat then x ← c !! k; y ← o !! k; Some (f x y) else c !! k) →
  wf_bytes r.
Proof.
  intros Hf Hc Ho _ Hk. apply Forall_lookup. intros i e. rewrite Hk.
  destruct (Nat.ltb_spec i n); [|eauto using wf_lookup].
  destruct (c !! i) eqn:E1; [|done]. destruct (o !! i) eqn:E2; [|done].
  simpl. intros [= <-]. apply Hf; eauto using wf_lookup.
Qed.

Section Pointwise.
  Context (a b : BitVector) (Ha : bv_wf a) (Hb : bv_wf b).

Lemma elems_cover v j : bv_wf v → 0 ≤ j → (j < Bits v → j / 8 < zlen (Elems v)).
  Proof.
    intros (H0 & Hl & _) Hj Hlt. pose proof (elems_len_bound (Bits v) H0).
    apply Z.div_lt_upper_bound; lia.
  Qed.

Lemma elems_len_mono x y : 0 ≤ x ≤ y → elems_len x ≤ elems_len y.
  Proof. intros. rewrite !elems_len_eq by lia. apply Z.div_le_mono; lia. Qed.

  (** One shape for the three binary operations: copy [a] to [bits] bits and
      combine the first [n] bytes with those of [b]. *)
Lemma combine_spec f fb bits n :
    (∀ x y k, Z.testbit (f x y) k = fb (Z.testbit x k) (Z.testbit y k)) →
    (∀ x y, is_byte x → is_byte y → is_byte (f x y)) →
    0 ≤ bits → Z.of_nat n ≤ elems_len bits → (n ≤ length (Elems b))%nat →
    ∃ elems, map2_prefix f n (Elems (copyBits a bits)) (Elems b) = Ret elems ∧
      bv_wf {| Bits := bits; Elems := elems |} ∧
      ∀ j, 0 ≤ j → elem_bit elems j =
        let x := if j / 8 <? elems_len bits then elem_bit (Elems a) j else false in
        if j / 8 <? Z.of_nat n then fb x (elem_bit (Elems b) j) else x.
  Proof using Ha Hb.
    intros Hf Hby H0 Hn Hnb. pose proof (elems_len_bound bits H0).
    destruct (map2_prefix_spec f n (Elems (copyBits a bits)) (Elems b)) as (r & Hr & Hl & Hk);
      [unfold copyBits; cbn [Elems]; rewrite length_copy_into; lia|done|].
    exists r. split; [done|]. cbn [copyBits Elems] in *. rewrite length_copy_into in Hl.
    split.
    - split; [done|]. split; cbn [Elems Bits]; [unfold zlen; lia|].
      eapply map2_prefix_wf; [exact Hby| |apply Hb| |exact Hk].
      + apply copy_into_wf, Ha.
      + by rewrite length_copy_into.
    - intros j Hj. rewrite (elem_bit_map2 f fb n (copy_into (Z.to_nat (elems_len bits)) (Elems a)) (Elems b) r j Hf);
        [|rewrite length_copy_into; lia|done|done|exact Hk].
      rewrite elem_bit_copy by done. rewrite Z2Nat.id by lia. done.
  Qed.
End Pointwise.

Lemma MaxInt_max a b : MaxInt a b = Z.max a b.
Proof. unfold MaxInt. destruct (Z.ltb_spec b a); lia. Qed.
Lemma MinInt_min a b : MinInt a b = Z.min a b.
Proof. unfold MinInt. destruct (Z.ltb_spec a b); lia. Qed.

Lemma bv_bit_false v j : bv_wf v → bv_clean v → 0 ≤ j → bv_bit v j = elem_bit (Elems v) j.
Proof.
  intros _ Hc Hj. unfold bv_bit. destruct (Z.leb_spec 0 j); [|lia].
  destruct (Z.ltb_spec j (Bits v)); [done|]. by rewrite Hc.
Qed.

Lemma elem_bit_in_range v j : bv_wf v → 0 ≤ j → elems_len (Bits v) ≤ j / 8 →
  elem_bit (Elems v) j = false.
Proof. intros (H0 & Hl & _) Hj Hge. apply elem_bit_beyond; [done|]. by rewrite Hl. Qed.

Ltac bit_cases :=
  repeat match goal with
  | |- context [?x <? ?y] => destruct (Z.ltb_spec x y)
  | |- context [?x <=? ?y] => destruct (Z.leb_spec x y)
  end.

(** On well-formed bitmaps with clean padding [And], [Sub] and [Not] are the
    pointwise boolean operations with the sizes the comments announce. *)
Theorem BitVector_pointwise (a b : BitVector)
    (Ha : bv_wf a) (Hb : bv_wf b) (Hcb : bv_clean b) :
  (∃ c, And (Some a) (Some b) = Ret (Some c) ∧ bv_wf c ∧ Bits c = Z.min (Bits a) (Bits b) ∧
     ∀ j, 0 ≤ j → bv_bit c j = bv_bit a j && bv_bit b j) ∧
  (∃ c, Sub (Some a) (Some b) = Ret (Some c) ∧ bv_wf c ∧ Bits c = Bits a ∧
     ∀ j, 0 ≤ j → bv_bit c j = bv_bit a j && negb (bv_bit b j)) ∧
  (∃ c, Not (Some a) = Some c ∧ bv_wf c ∧ Bits c = Bits a ∧
     ∀ j, 0 ≤ j < Bits a → bv_bit c j = negb (bv_bit a j)).
Proof.
  pose proof Ha as (Ha0 & Hal & Haw). pose proof Hb as (Hb0 & Hbl & Hbw).
  pose proof (elems_len_bound (Bits a) Ha0). pose proof (elems_len_bound (Bits b) Hb0).
  split_and!.
  - unfold And. cbn [copyBits Bits Elems]. rewrite MinInt_min, length_copy_into.
    pose proof (elems_len_mono (Z.min (Bits a) (Bits b)) (Bits b)).
    pose proof (elems_len_bound (Z.min (Bits a) (Bits b))).
    destruct (combine_spec a b Ha Hb Z.land andb (Z.min (Bits a) (Bits b))
      (Z.to_nat (elems_len (Z.min (Bits a) (Bits b))))) as (r & Hr & Hwf & Hbit);
      [apply Z.land_spec|apply is_byte_land|lia|lia|unfold zlen in *; lia|].
    cbn [copyBits Elems] in Hr. rewrite Hr. eexists. split; [done|]. split; [done|].
    split; [done|]. intros j Hj. unfold bv_bit. cbn [Bits Elems]. rewrite Hbit by done.
    cbn zeta. pose proof (Z.div_mod j 8). pose proof (Z.mod_pos_bound j 8).
    bit_cases; simpl; try done; try lia; by rewrite ?andb_false_r.
  - unfold Sub. cbn [copyBits Bits Elems]. rewrite MinInt_min.
    destruct (combine_spec a b Ha Hb Z.ldiff (λ x y, x && negb y) (Bits a)
      (Z.to_nat (Z.min (zlen (Elems a)) (zlen (Elems b))))) as (r & Hr & Hwf & Hbit);
      [apply Z.ldiff_spec|apply is_byte_ldiff|lia|unfold zlen in *; lia|unfold zlen in *; lia|].
    cbn [copyBits Elems] in Hr. rewrite Hr. eexists. split; [done|]. split; [done|].
    split; [done|]. intros j Hj. rewrite (bv_bit_false b) by done.
    unfold bv_bit. cbn [Bits Elems]. rewrite Hbit by done.
    cbn zeta. rewrite Z2Nat.id by (unfold zlen; lia).
    pose proof (Z.div_mod j 8). pose proof (Z.mod_pos_bound j 8).
    bit_cases; simpl; try done; try lia.
    rewrite (elem_bit_in_range b) by (try done; lia). by rewrite andb_true_r.
  - eexists. split; [done|]. split; [|split; [done|]].
    + split; [done|]. split; cbn [Elems Bits]; [unfold zlen in *; by rewrite length_map|].
      apply Forall_map. eapply Forall_impl; [|exact Haw]. simpl. auto with urd.
    + intros j Hj. unfold bv_bit. cbn [Elems Bits].
      pose proof (elems_cover a j Ha ltac:(lia) ltac:(lia)). pose proof (Z.div_pos j 8).
      bit_cases; simpl; try lia. unfold elem_bit. rewrite list_lookup_fmap.
      destruct (lookup_lt_is_Some_2 (Elems a) (Z.to_nat (j / 8))) as [x ->]; [unfold zlen in *; lia|].
      simpl. rewrite Z.lxor_spec, bits_255 by (apply Z.mod_pos_bound; lia). apply xorb_true_r.
Qed.

(** [Or] keeps all bits of the receiver but only those bits of its argument
    that lie within the receiver's bytes. *)
Theorem BitVector_Or_bits (a b : BitVector)
    (Ha : bv_wf a) (Hb : bv_wf b) (Hca : bv_clean a) (Hcb : bv_clean b) :
  ∃ c, Or (Some a) (Some b) = Ret (Some c) ∧ bv_wf c ∧ Bits c = Z.max (Bits a) (Bits b) ∧
    ∀ j, 0 ≤ j → bv_bit c j = bv_bit a j || (bv_bit b j && (j <? 8 * elems_len (Bits a))).
Proof.
  pose proof Ha as (Ha0 & Hal & Haw). pose proof Hb as (Hb0 & Hbl & Hbw).
  pose proof (elems_len_bound (Bits a) Ha0). pose proof (elems_len_bound (Bits b) Hb0).
  pose proof (elems_len_mono (Bits a) (Z.max (Bits a) (Bits b))).
  pose proof (elems_len_bound (Z.max (Bits a) (Bits b))).
  unfold Or. cbn [copyBits Bits Elems]. rewrite MaxInt_max, MinInt_min.
  destruct (combine_spec a b Ha Hb Z.lor orb (Z.max (Bits a) (Bits b))
    (Z.to_nat (Z.min (zlen (Elems a)) (zlen (Elems b))))) as (r & Hr & Hwf & Hbit);
    [apply Z.lor_spec|apply is_byte_lor|lia|lia|unfold zlen; lia|].
  cbn [copyBits Elems] in Hr. rewrite Hr. eexists. split; [done|]. split; [done|].
  split; [done|]. intros j Hj. unfold bv_bit. cbn [Bits Elems]. rewrite Hbit by done.
  cbn zeta. rewrite Z2Nat.id by (unfold zlen; lia).
  pose proof (Z.div_mod j 8). pose proof (Z.mod_pos_bound j 8).
  pose proof (Hca j). pose proof (Hcb j).
  pose proof (elem_bit_in_range a j Ha Hj). pose proof (elem_bit_in_range b j Hb Hj).
  bit_cases; simpl; rewrite ?orb_false_r, ?andb_true_r, ?andb_false_r; try done; try lia;
    repeat match goal with H : _ → elem_bit _ _ = false |- _ => first
      [ rewrite H by lia; clear H | clear H ] end; by rewrite ?orb_false_r, ?andb_false_r.
Qed.

(** The comment on [Or] promises that the shorter operand is padded with
    zeroes.  When the argument has more bytes than the receiver its extra
    bits are dropped: the result is not symmetric. *)
Theorem BitVector_Or_drops_bits :
  let a := {| Bits := 8; Elems := [0] |} in
  let b := {| Bits := 16; Elems := [0; 1] |} in
  (c ← Or (Some a) (Some b); GetIndex c 8) = Ret false ∧
  (c ← Or (Some b) (Some a); GetIndex c 8) = Ret true ∧
  GetIndex (Some b) 8 = Ret true.
Proof. vm_compute. done. Qed.

(** *** Counting *)

(** The number of set bits among [i, i+n). *)
Definition count_bits (v : BitVector) (i : Z) (n : nat) : Z :=
  zlen (filter (λ j, bv_bit v j = true) (seqZ i (Z.of_nat n))).

Lemma count_bits_S v i n :
  count_bits v i (S n) = (if bv_bit v i then 1 else 0) + count_bits v (i + 1) n.
Proof.
  unfold count_bits. rewrite Nat2Z.inj_succ, seqZ_cons by lia.
  rewrite Z.pred_succ. unfold Z.succ. rewrite filter_cons.
  destruct (bv_bit v i) eqn:E; case_decide; try done. by rewrite zlen_cons.
Qed.

Lemma CountNoneZero_loop_spec v n i count : bv_wf v → 0 ≤ i →
  CountNoneZero_loop n (Some v) i count = Ret (count + count_bits v i n).
Proof.
  intros Hwf. revert i count; induction n as [|n IH]; intros i count Hi.
  { simpl. f_equal. unfold count_bits. simpl. rewrite seqZ_nil by lia. unfold zlen. simpl. lia. }
  cbn [CountNoneZero_loop]. rewrite GetIndex_bit by done. cbn [mbind outcome_bind].
  rewrite IH by lia. rewrite count_bits_S. f_equal. destruct (bv_bit v i); lia.
Qed.

Lemma CountNoneZero_correct v : bv_wf v →
  CountNoneZero (Some v) = Ret (count_bits v 0 (Z.to_nat (Bits v))).
Proof. intros. unfold CountNoneZero. by rewrite CountNoneZero_loop_spec. Qed.

(** * Witnesses *)

(** Decides the invariant on a concrete bitmap. *)
Ltac solve_bv_wf := split; [vm_compute; done | split; [vm_compute; done |
  repeat constructor; unfold is_byte; lia]].

Definition bv10 : BitVector := {| Bits := 10; Elems := [5; 2] |}.

Lemma bv10_wf : bv_wf bv10.
Proof. solve_bv_wf. Qed.

Lemma bv10_clean : bv_clean bv10.
Proof.
  intros j Hj. simpl in Hj. destruct (decide (16 ≤ j)).
  - apply elem_bit_beyond; [lia|]. apply Z.div_le_lower_bound; unfold zlen; simpl; lia.
  - assert (j = 10 ∨ j = 11 ∨ j = 12 ∨ j = 13 ∨ j = 14 ∨ j = 15) as Hc by lia.
    destruct Hc as [->|[->|[->|[->|[->| ->]]]]]; done.
Qed.

Lemma SetIndex_GetIndex_witness :
  (r ← SetIndex (Some bv10) 4 true; GetIndex (fst r) 4) = Ret true ∧
  ∃ v', SetIndex (Some bv10) 4 true = Ret (Some v', true) ∧ bv_wf v'.
Proof.
  split; [vm_compute; reflexivity|].
  destruct (SetIndex_GetIndex bv10 4 true bv10_wf ltac:(lia)) as (v' & E & H & _).
  exists v'. split; [exact E | exact H].
Defined.

Lemma BitVector_Byte_roundtrip_witness :
  Byte (Some bv10) = [6; 5; 2] ∧ NewBitArrayFromByte [6; 5; 2] = Ret (Some bv10).
Proof.
  split; [vm_compute; reflexivity|].
  exact (proj2 (BitVector_Byte_roundtrip bv10 bv10_wf)).
Defined.

Lemma BitVector_pointwise_witness :
  ∃ c, And (Some bv10) (Some bv10) = Ret (Some c) ∧ bv_wf c ∧ Bits c = 10.
Proof.
  destruct (BitVector_pointwise bv10 bv10 bv10_wf bv10_wf bv10_clean) as ((c & E & H & B & _) & _).
  exists c. split; [exact E | split; [exact H | exact B]].
Defined.

Lemma BitVector_Or_bits_witness :
  ∃ c, Or (Some bv10) (Some bv10) = Ret (Some c) ∧ bv_wf c ∧ bv_bit c 9 = true.
Proof.
  destruct (BitVector_Or_bits bv10 bv10 bv10_wf bv10_wf bv10_clean bv10_clean)
    as (c & E & H & _ & B).
  exists c. split; [exact E | split; [exact H |]]. rewrite B by lia. vm_compute. reflexivity.
Defined.
