(* ===== verification/Hash.v ===== *)
(** * Hashing

    Models [source/crypto/hash/hash.go], whose functions wrap the standard
    library's SHA-256.  [HashFn] is what the Merkle trees and the block
    types rely on: a function to 32-byte digests.  [sha256] is the FIPS 180-4
    function itself and discharges the interface. *)

From stdpp Require Import base list gmap strings numbers.
From Stdlib Require Import ZArith Lia.
From S2P Require Import Prelude.

Definition HashSize : Z := 32.
Definition TruncatedSize : Z := 20.

(** The promise of [crypto/hash] to its clients. *)
Class HashFn := {
  Sum : bytes → bytes;
  Sum_length : ∀ bz, zlen (Sum bz) = HashSize
}.

(** A collision of the hash function between an input of [P] and one of [Q]:
    two different inputs, both actually hashed, with the same digest. *)
Definition CollisionIn {H : HashFn} (P Q : bytes → Prop) : Prop :=
  ∃ x y, P x ∧ Q y ∧ x ≠ y ∧ Sum x = Sum y.

Lemma Sum_inj {H : HashFn} (P Q : bytes → Prop) x y :
  P x → Q y → Sum x = Sum y → x = y ∨ CollisionIn P Q.
Proof. intros ?? E. destruct (decide (x = y)); [by left|right; by exists x, y]. Qed.

Lemma CollisionIn_mono {H : HashFn} (P Q P' Q' : bytes → Prop) :
  CollisionIn P Q → (∀ x, P x → P' x) → (∀ y, Q y → Q' y) → CollisionIn P' Q'.
Proof. intros (x & y & ? & ? & ? & ?) HP HQ. exists x, y. auto. Qed.

(** [SumTruncated]: the first 20 bytes of the digest. *)
Definition SumTruncated {H : HashFn} (bz : bytes) : bytes := take (Z.to_nat TruncatedSize) (Sum bz).

(** [types.TxHash] ([source/urd/types/txs.go]). *)
Definition TxHash {H : HashFn} (tx : bytes) : bytes := Sum tx.

(** ** SHA-256 *)
Module Sha256.

Definition add32 (a b : Z) : Z := uint32 (a + b).
Definition rotr (n x : Z) : Z := Z.lor (Z.shiftr x n) (uint32 (Z.shiftl x (32 - n))).
Definition not32 (x : Z) : Z := Z.lxor x (2 ^ 32 - 1).

Definition ch (x y z : Z) : Z := Z.lxor (Z.land x y) (Z.land (not32 x) z).
Definition maj (x y z : Z) : Z := Z.lxor (Z.land x y) (Z.lxor (Z.land x z) (Z.land y z)).
Definition bsig0 (x : Z) : Z := Z.lxor (rotr 2 x) (Z.lxor (rotr 13 x) (rotr 22 x)).
Definition bsig1 (x : Z) : Z := Z.lxor (rotr 6 x) (Z.lxor (rotr 11 x) (rotr 25 x)).
Definition ssig0 (x : Z) : Z := Z.lxor (rotr 7 x) (Z.lxor (rotr 18 x) (Z.shiftr x 3)).
Definition ssig1 (x : Z) : Z := Z.lxor (rotr 17 x) (Z.lxor (rotr 19 x) (Z.shiftr x 10)).

(** The constants as FIPS 180-4 defines them: the first 32 bits of the fractional parts of the
    cube roots (round constants) and square roots (initial state) of the first primes. *)
Definition is_prime (n : Z) : bool :=
  forallb (λ d, negb (n mod d =? 0)) (seqZ 2 (n - 2)).
Definition primes : list Z := Eval vm_compute in List.filter is_prime (seqZ 2 310).

Fixpoint cbrt_bits (n : nat) (r x : Z) : Z :=
  match n with
  | O => r
  | S n' =>
      let r' := r + 2 ^ Z.of_nat n' in
      cbrt_bits n' (if r' * r' * r' <=? x then r' else r) x
  end.
Definition K : list Z :=
  Eval vm_compute in map (λ p, uint32 (cbrt_bits 36 0 (p * 2 ^ 96))) (take 64 primes).

Record regs := { ra : Z; rb : Z; rc : Z; rd : Z; re : Z; rf : Z; rg : Z; rh : Z }.

Definition sqrt_word (i : nat) : Z := uint32 (Z.sqrt (default 0 (primes !! i) * 2 ^ 64)).
Definition H0 : regs := Eval vm_compute in {|
  ra := sqrt_word 0; rb := sqrt_word 1; rc := sqrt_word 2; rd := sqrt_word 3;
  re := sqrt_word 4; rf := sqrt_word 5; rg := sqrt_word 6; rh := sqrt_word 7 |}.

(** A 32-bit word as four big-endian bytes, and back. *)
Definition word_bytes (w : Z) : bytes := reverse (le_encode 4 w).
Definition bytes_word (l : bytes) : Z := le_decode (reverse l).

(** The sixteen words of a 64-byte block. *)
Fixpoint block_words (n : nat) (blk : bytes) : list Z :=
  match n with
  | O => []
  | S n' => bytes_word (take 4 blk) :: block_words n' (drop 4 blk)
  end.

(** The message schedule, newest word first. *)
Fixpoint extend (n : nat) (rev_w : list Z) : list Z :=
  match n with
  | O => rev_w
  | S n' =>
      let w k := default 0 (rev_w !! k) in
      extend n' (add32 (add32 (ssig1 (w 1%nat)) (w 6%nat)) (add32 (ssig0 (w 14%nat)) (w 15%nat))
                 :: rev_w)
  end.
Definition schedule (blk : bytes) : list Z :=
  reverse (extend 48 (reverse (block_words 16 blk))).

Definition round (r : regs) (kw : Z * Z) : regs :=
  let t1 := add32 (add32 (rh r) (bsig1 (re r)))
                  (add32 (ch (re r) (rf r) (rg r)) (add32 (fst kw) (snd kw))) in
  let t2 := add32 (bsig0 (ra r)) (maj (ra r) (rb r) (rc r)) in
  {| ra := add32 t1 t2; rb := ra r; rc := rb r; rd := rc r;
     re := add32 (rd r) t1; rf := re r; rg := rf r; rh := rg r |}.

Definition compress (h : regs) (blk : bytes) : regs :=
  let r := foldl round h (zip K (schedule blk)) in
  {| ra := add32 (ra h) (ra r); rb := add32 (rb h) (rb r); rc := add32 (rc h) (rc r);
     rd := add32 (rd h) (rd r); re := add32 (re h) (re r); rf := add32 (rf h) (rf r);
     rg := add32 (rg h) (rg r); rh := add32 (rh h) (rh r) |}.

(** Padding to a multiple of 64 bytes with the bit length at the end. *)
Definition pad (msg : bytes) : bytes :=
  let zeros := Z.to_nat ((55 - zlen msg) mod 64) in
  msg ++ [128] ++ replicate zeros 0 ++ reverse (le_encode 8 (8 * zlen msg)).

Fixpoint blocks (n : nat) (l : bytes) : list bytes :=
  match n with
  | O => []
  | S n' => match l with [] => [] | _ => take 64 l :: blocks n' (drop 64 l) end
  end.

Definition digest (h : regs) : bytes :=
  concat (map word_bytes [ra h; rb h; rc h; rd h; re h; rf h; rg h; rh h]).

Definition sha256 (msg : bytes) : bytes :=
  let p := pad msg in digest (foldl compress H0 (blocks (length p) p)).

Lemma length_word_bytes w : length (word_bytes w) = 4%nat.
Proof. unfold word_bytes. by rewrite length_reverse, length_le_encode. Qed.

Lemma sha256_length msg : zlen (sha256 msg) = HashSize.
Proof.
  unfold sha256, digest, zlen. generalize (foldl compress H0 (blocks (length (pad msg)) (pad msg))).
  intros h. cbn [map concat]. rewrite !length_app, !length_word_bytes. done.
Qed.

(** Test vectors of FIPS 180-4: the empty message and ["abc"]. *)
Example sha256_empty : sha256 [] =
  [0xe3;0xb0;0xc4;0x42;0x98;0xfc;0x1c;0x14;0x9a;0xfb;0xf4;0xc8;0x99;0x6f;0xb9;0x24;
   0x27;0xae;0x41;0xe4;0x64;0x9b;0x93;0x4c;0xa4;0x95;0x99;0x1b;0x78;0x52;0xb8;0x55].
Proof. vm_compute. reflexivity. Qed.
Example sha256_abc : sha256 (str_bytes "abc") =
  [0xba;0x78;0x16;0xbf;0x8f;0x01;0xcf;0xea;0x41;0x41;0x40;0xde;0x5d;0xae;0x22;0x23;
   0xb0;0x03;0x61;0xa3;0x96;0x17;0x7a;0x9c;0xb4;0x10;0xff;0x61;0xf2;0x00;0x15;0xad].
Proof. vm_compute. reflexivity. Qed.

End Sha256.

(** The hash the program runs with. *)
Definition sha256_HashFn : HashFn := {|
  Sum := Sha256.sha256;
  Sum_length := Sha256.sha256_length
|}.
