(* ===== verification/Merkle.v ===== *)
(** * Merkle trees

    Models [source/crypto/merkle/hash.go], [source/crypto/merkle/tree.go] and
    [source/crypto/merkle/proof.go].  Everything is generic in the hash
    function ([HashFn]); security statements conclude with an explicit
    collision of that function. *)

From stdpp Require Import base list gmap strings numbers.
From Stdlib Require Import ZArith Lia.
From S2P Require Import Prelude Convert Hash.

(** ** tree.go: getSplitPoint *)

(** The largest power of two below [length]; [bits.Len(u) - 1] is [log2 u]. *)
Definition getSplitPoint (length : Z) : outcome Z :=
  if length <? 1 then Panic
  else let k := 2 ^ Z.log2 length in
       Ret (if k =? length then Z.shiftr k 1 else k).

(** The trail nodes live in a heap: a node's address is its position, and
    parent and sibling pointers are set after the node is created. *)
Record ProofNode := {
  nHash : bytes;
  nParent : option nat;
  nLeft : option nat;
  nRight : option nat
}.
Abbreviation heap := (list ProofNode).

Definition set_parent_right (p r : nat) (n : ProofNode) : ProofNode :=
  {| nHash := nHash n; nParent := Some p; nLeft := nLeft n; nRight := Some r |}.
Definition set_parent_left (p l : nat) (n : ProofNode) : ProofNode :=
  {| nHash := nHash n; nParent := Some p; nLeft := Some l; nRight := nRight n |}.
Definition new_node (h : bytes) : ProofNode :=
  {| nHash := h; nParent := None; nLeft := None; nRight := None |}.

Section Merkle.
Context {H : HashFn}.

(** ** hash.go *)
Definition leafPrefix : bytes := [0].
Definition innerPrefix : bytes := [1].
Definition emptyHash : bytes := Sum [].
Definition leafHash (leaf : bytes) : bytes := Sum (leafPrefix ++ leaf).
Definition innerHash (left right : bytes) : bytes := Sum (innerPrefix ++ left ++ right).

(** ** tree.go *)

(** The recursion of [HashFromByteSlices]; both halves are shorter, so the
    number of items is enough fuel (see [HashFromByteSlices_total]). *)
Fixpoint hash_slices (fuel : nat) (items : list bytes) : outcome bytes :=
  match items with
  | [] => Ret emptyHash
  | [item] => Ret (leafHash item)
  | _ =>
      match fuel with
      | O => Panic
      | S fuel' =>
          k ← getSplitPoint (zlen items);
          left ← hash_slices fuel' (take (Z.to_nat k) items);
          right ← hash_slices fuel' (drop (Z.to_nat k) items);
          Ret (innerHash left right)
      end
  end.
Definition HashFromByteSlices (items : list bytes) : outcome bytes :=
  hash_slices (length items) items.

(** The inner loop of the iterative version: one pass over [items[0:size]]
    that writes the parents in place. *)
Fixpoint iter_pass (fuel : nat) (items : list bytes) (size rp wp : Z)
    : outcome (list bytes * Z) :=
  if rp <? size then
    match fuel with
    | O => Panic
    | S fuel' =>
        if rp + 1 <? size then
          a ← idx items rp;
          b ← idx items (rp + 1);
          items' ← upd items wp (innerHash a b);
          iter_pass fuel' items' size (rp + 2) (wp + 1)
        else
          a ← idx items rp;
          items' ← upd items wp a;
          iter_pass fuel' items' size (rp + 1) (wp + 1)
    end
  else Ret (items, wp).

Fixpoint iter_levels (fuel : nat) (items : list bytes) (size : Z) : outcome bytes :=
  if size =? 0 then Ret emptyHash
  else if size =? 1 then idx items 0
  else match fuel with
       | O => Panic
       | S fuel' =>
           r ← iter_pass (Z.to_nat size) items size 0 0;
           iter_levels fuel' (fst r) (snd r)
       end.
Definition HashFromByteSlicesIterative (input : list bytes) : outcome bytes :=
  let items := map leafHash input in
  iter_levels (length items) items (zlen items).

(** ** proof.go *)
Definition MaxAunts : Z := 100.

Record MerkleProof := {
  Total : Z;
  Index : Z;
  LeafHash : slice;
  Aunts : list bytes
}.

(** The recursion of [computeHashFromAunts] on the reversed aunts: the code
    removes the last element at every call. *)
Fixpoint hash_from_aunts (index total : Z) (leaf : slice) (rev_inner : list bytes)
    : outcome slice :=
  if (total <=? index) || (index <? 0) || (total <=? 0) then Ret None
  else if total =? 1 then
    match rev_inner with _ :: _ => Ret None | [] => Ret leaf end
  else
    match rev_inner with
    | [] => Ret None
    | last :: init =>
        numLeft ← getSplitPoint total;
        if index <? numLeft then
          leftHash ← hash_from_aunts index numLeft leaf init;
          match leftHash with
          | None => Ret None
          | Some l => Ret (Some (innerHash l last))
          end
        else
          rightHash ← hash_from_aunts (index - numLeft) (total - numLeft) leaf init;
          match rightHash with
          | None => Ret None
          | Some r => Ret (Some (innerHash last r))
          end
    end.
Definition computeHashFromAunts (index total : Z) (leaf : slice) (innerHashes : list bytes)
    : outcome slice :=
  hash_from_aunts index total leaf (reverse innerHashes).

Definition ComputeRootHash (sp : MerkleProof) : outcome slice :=
  computeHashFromAunts (Index sp) (Total sp) (LeafHash sp) (Aunts sp).

Inductive proof_error :=
| ErrTotalNegative | ErrIndexNegative | ErrLeafHash | ErrRootHash
| ErrLeafSize | ErrTooManyAunts | ErrAuntSize (i : Z).

Definition Proof_Verify (sp : MerkleProof) (rootHash leaf : bytes) : outcome (option proof_error) :=
  if Total sp <? 0 then Ret (Some ErrTotalNegative)
  else if Index sp <? 0 then Ret (Some ErrIndexNegative)
  else if negb (bytes_Equal (sbytes (LeafHash sp)) (leafHash leaf)) then Ret (Some ErrLeafHash)
  else
    computedHash ← ComputeRootHash sp;
    if negb (bytes_Equal (sbytes computedHash) rootHash) then Ret (Some ErrRootHash)
    else Ret None.

Fixpoint check_aunts (i : Z) (aunts : list bytes) : option proof_error :=
  match aunts with
  | [] => None
  | a :: rest => if negb (zlen a =? HashSize) then Some (ErrAuntSize i) else check_aunts (i + 1) rest
  end.
Definition Proof_ValidateBasic (sp : MerkleProof) : option proof_error :=
  if Total sp <? 0 then Some ErrTotalNegative
  else if Index sp <? 0 then Some ErrIndexNegative
  else if negb (zlen (sbytes (LeafHash sp)) =? HashSize) then Some ErrLeafSize
  else if MaxAunts <? zlen (Aunts sp) then Some ErrTooManyAunts
  else check_aunts 0 (Aunts sp).

(** [trailsFromByteSlices]: the new heap, the trail of each item and the
    root.  [h !! p] is the dereference of a pointer the code has just
    obtained. *)
Fixpoint trails_from (fuel : nat) (items : list bytes) (hp : heap)
    : outcome (heap * list nat * nat) :=
  match items with
  | [] => Ret (hp ++ [new_node emptyHash], [], length hp)
  | [item] => Ret (hp ++ [new_node (leafHash item)], [length hp], length hp)
  | _ =>
      match fuel with
      | O => Panic
      | S fuel' =>
          k ← getSplitPoint (zlen items);
          '(hp1, lefts, leftRoot) ← trails_from fuel' (take (Z.to_nat k) items) hp;
          '(hp2, rights, rightRoot) ← trails_from fuel' (drop (Z.to_nat k) items) hp1;
          match hp2 !! leftRoot, hp2 !! rightRoot with
          | Some ln, Some rn =>
              let rootHash := innerHash (nHash ln) (nHash rn) in
              let root := length hp2 in
              let hp3 := hp2 ++ [new_node rootHash] in
              let hp4 := <[leftRoot := set_parent_right root rightRoot ln]> hp3 in
              let hp5 := <[rightRoot := set_parent_left root leftRoot rn]> hp4 in
              Ret (hp5, lefts ++ rights, root)
          | _, _ => Panic
          end
      end
  end.
Definition trailsFromByteSlices (items : list bytes) : outcome (heap * list nat * nat) :=
  trails_from (length items) items [].

(** [FlattenAunts]: follow the parent pointers. *)
Fixpoint flatten_aunts (fuel : nat) (hp : heap) (spn : option nat) : outcome (list bytes) :=
  match spn with
  | None => Ret []
  | Some p =>
      match fuel, hp !! p with
      | S fuel', Some n =>
          aunt ← match nLeft n with
                 | Some l => match hp !! l with Some ln => Ret [nHash ln] | None => Panic end
                 | None => match nRight n with
                           | Some r => match hp !! r with Some rn => Ret [nHash rn] | None => Panic end
                           | None => Ret []
                           end
                 end;
          rest ← flatten_aunts fuel' hp (nParent n);
          Ret (aunt ++ rest)
      | _, _ => Panic
      end
  end.
Definition FlattenAunts (hp : heap) (spn : nat) : outcome (list bytes) :=
  flatten_aunts (length hp) hp (Some spn).

(** The loop of [ProofsFromByteSlices] over the trails. *)
Fixpoint proofs_of_trails (hp : heap) (total i : Z) (trails : list nat) : outcome (list MerkleProof) :=
  match trails with
  | [] => Ret []
  | t :: rest =>
      match hp !! t with
      | None => Panic
      | Some n =>
          aunts ← FlattenAunts hp t;
          ps ← proofs_of_trails hp total (i + 1) rest;
          Ret ({| Total := total; Index := i; LeafHash := Some (nHash n); Aunts := aunts |} :: ps)
      end
  end.
Definition ProofsFromByteSlices (items : list bytes) : outcome (bytes * list MerkleProof) :=
  '(hp, trails, root) ← trailsFromByteSlices items;
  match hp !! root with
  | None => Panic
  | Some rootSPN =>
      proofs ← proofs_of_trails hp (zlen items) 0 trails;
      Ret (nHash rootSPN, proofs)
  end.

Definition ContentHash (proof : MerkleProof) : outcome bytes :=
  auntsHash ← HashFromByteSlices (Aunts proof);
  HashFromByteSlices
    [ sbytes (IntToBytes (NInt64 (Index proof)));
      sbytes (IntToBytes (NInt64 (Total proof)));
      sbytes (LeafHash proof);
      auntsHash ].

(** ** Specification: the Merkle tree hash of RFC 6962

    [MTH items h]: the tree over [items] has root [h]; a node splits its
    items at the largest power of two below their number. *)
Inductive MTH : list bytes → bytes → Prop :=
| MTH_empty : MTH [] (Sum [])
| MTH_leaf d : MTH [d] (Sum (0 :: d))
| MTH_node l r (e : nat) hl hr :
    zlen l = 2 ^ Z.of_nat e → 0 < zlen r ≤ zlen l →
    MTH l hl → MTH r hr →
    MTH (l ++ r) (Sum (1 :: hl ++ hr)).

(** ** Lemmas: the split point *)

Lemma getSplitPoint_spec n : 2 ≤ n →
  ∃ e : nat, getSplitPoint n = Ret (2 ^ Z.of_nat e) ∧ 2 ^ Z.of_nat e < n ≤ 2 * 2 ^ Z.of_nat e.
Proof.
  intros Hn. unfold getSplitPoint. destruct (Z.ltb_spec n 1); [lia|].
  pose proof (Z.log2_spec n ltac:(lia)) as [Hl Hu]. pose proof (Z.log2_nonneg n).
  rewrite Z.pow_succ_r in Hu by lia.
  destruct (Z.eqb_spec (2 ^ Z.log2 n) n) as [E|E].
  - assert (0 < Z.log2 n) by (apply Z.log2_pos; lia).
    exists (Z.to_nat (Z.log2 n - 1)). rewrite Z2Nat.id by lia.
    assert (2 ^ Z.log2 n = 2 * 2 ^ (Z.log2 n - 1)) as E2.
    { rewrite <- Z.pow_succ_r by lia. f_equal. lia. }
    rewrite Z.shiftr_div_pow2, Z.pow_1_r by lia. split; [|lia].
    f_equal. rewrite E2, Z.mul_comm, Z.div_mul; lia.
  - exists (Z.to_nat (Z.log2 n)). rewrite Z2Nat.id by lia. split; [done|lia].
Qed.

(** Two powers of two that both split [n] are equal. *)
Lemma split_unique (e f : nat) n :
  2 ^ Z.of_nat e < n ≤ 2 * 2 ^ Z.of_nat e → 2 ^ Z.of_nat f < n ≤ 2 * 2 ^ Z.of_nat f → e = f.
Proof.
  intros He Hf. destruct (Nat.lt_trichotomy e f) as [Hlt|[?|Hlt]]; [|done|]; exfalso.
  - assert (2 * 2 ^ Z.of_nat e ≤ 2 ^ Z.of_nat f); [|lia].
    rewrite <- Z.pow_succ_r by lia. apply Z.pow_le_mono_r; lia.
  - assert (2 * 2 ^ Z.of_nat f ≤ 2 ^ Z.of_nat e); [|lia].
    rewrite <- Z.pow_succ_r by lia. apply Z.pow_le_mono_r; lia.
Qed.

(** A list of at least two items splits as the code splits it. *)
Lemma split_items {A} (items : list A) : 2 ≤ zlen items →
  ∃ (e : nat) l r, items = l ++ r ∧ zlen l = 2 ^ Z.of_nat e ∧ 0 < zlen r ≤ zlen l ∧
    getSplitPoint (zlen items) = Ret (2 ^ Z.of_nat e) ∧
    take (Z.to_nat (2 ^ Z.of_nat e)) items = l ∧ drop (Z.to_nat (2 ^ Z.of_nat e)) items = r.
Proof.
  intros Hn. destruct (getSplitPoint_spec _ Hn) as (e & E & Hk).
  exists e, (take (Z.to_nat (2 ^ Z.of_nat e)) items), (drop (Z.to_nat (2 ^ Z.of_nat e)) items).
  unfold zlen in *. rewrite take_drop, length_take, length_drop.
  split_and!; try done; lia.
Qed.

End Merkle.
