(* ===== verification/MerkleProofs.v ===== *)
(** * Correctness of the Merkle trees

    Theorems about the definitions of [Merkle]: the recursive hash is the RFC
    6962 tree hash, the iterative version computes the same root, generated
    proofs verify, verified proofs are sound, and the root binds the items. *)

From stdpp Require Import base list gmap strings numbers.
From Stdlib Require Import ZArith Lia.
From S2P Require Import Prelude Convert Hash Merkle.

Section MerkleProofs.
Context {H : HashFn}.
Implicit Types (items : list bytes) (h : bytes).

(** ** The recursive hash *)

Lemma hash_slices_node fuel items : 2 ≤ zlen items →
  hash_slices (S fuel) items =
    (k ← getSplitPoint (zlen items);
     left ← hash_slices fuel (take (Z.to_nat k) items);
     right ← hash_slices fuel (drop (Z.to_nat k) items);
     Ret (innerHash left right)).
Proof. destruct items as [|? [|? ?]]; unfold zlen; simpl length; intros; [lia|lia|done]. Qed.

(** The split point of a concatenation with the shape of a node. *)
Lemma getSplitPoint_app {A} (l r : list A) (e : nat) :
  zlen l = 2 ^ Z.of_nat e → 0 < zlen r ≤ zlen l → getSplitPoint (zlen (l ++ r)) = Ret (zlen l).
Proof.
  intros Hl Hr. rewrite zlen_app. assert (0 < 2 ^ Z.of_nat e) by lia.
  destruct (getSplitPoint_spec (zlen l + zlen r)) as (f & -> & Hf); [lia|].
  f_equal. rewrite Hl. do 2 f_equal. apply (split_unique f e (zlen l + zlen r)); lia.
Qed.

Lemma take_zlen_app {A} (l r : list A) : take (Z.to_nat (zlen l)) (l ++ r) = l.
Proof. unfold zlen. rewrite Nat2Z.id. apply take_app_length. Qed.
Lemma drop_zlen_app {A} (l r : list A) : drop (Z.to_nat (zlen l)) (l ++ r) = r.
Proof. unfold zlen. rewrite Nat2Z.id. apply drop_app_length. Qed.

Lemma hash_slices_MTH items h : MTH items h →
  ∀ fuel, (length items ≤ fuel)%nat → hash_slices fuel items = Ret h.
Proof.
  induction 1 as [|d|l r e hl hr Hl Hr _ IHl _ IHr]; intros fuel Hf; [by destruct fuel..|].
  assert (0 < 2 ^ Z.of_nat e) by lia. rewrite length_app in Hf.
  destruct fuel as [|fuel]; [unfold zlen in *; lia|].
  rewrite hash_slices_node by (rewrite zlen_app; lia).
  rewrite (getSplitPoint_app l r e) by done. cbn [mbind outcome_bind].
  rewrite take_zlen_app, drop_zlen_app, IHl, IHr by (unfold zlen in *; lia). done.
Qed.

Lemma MTH_total items : ∃ h, MTH items h.
Proof.
  remember (length items) as n eqn:E. revert items E.
  induction n as [n IH] using lt_wf_ind; intros items ->.
  destruct (decide (2 ≤ zlen items)) as [Hn|Hn].
  - destruct (split_items items Hn) as (e & l & r & -> & Hl & Hr & _).
    assert (0 < 2 ^ Z.of_nat e) by lia.
    destruct (IH (length l)) with (items := l) as [hl Hhl]; [|done|].
    { rewrite length_app. unfold zlen in *. lia. }
    destruct (IH (length r)) with (items := r) as [hr Hhr]; [|done|].
    { rewrite length_app. unfold zlen in *. lia. }
    eexists. by apply (MTH_node l r e hl hr).
  - unfold zlen in Hn. destruct items as [|d [|]]; [eexists; constructor..|simpl in Hn; lia].
Qed.

(** C36. The recursive hash terminates within the given fuel for every input and
    computes exactly the Merkle tree hash of RFC 6962. *)
Theorem HashFromByteSlices_refines_MTH items h :
  HashFromByteSlices items = Ret h ↔ MTH items h.
Proof.
  split; [|intros; by apply hash_slices_MTH].
  intros E. destruct (MTH_total items) as [h' Hh'].
  pose proof (hash_slices_MTH _ _ Hh' (length items) ltac:(lia)) as E'.
  unfold HashFromByteSlices in E. rewrite E' in E. by injection E as <-.
Qed.

Lemma HashFromByteSlices_MTH items h : MTH items h → HashFromByteSlices items = Ret h.
Proof. intros. by apply hash_slices_MTH. Qed.

Lemma HashFromByteSlices_total items : ∃ h, HashFromByteSlices items = Ret h ∧ MTH items h.
Proof. destruct (MTH_total items) as [h Hh]. eauto using HashFromByteSlices_MTH. Qed.

Lemma MTH_det items h h' : MTH items h → MTH items h' → h = h'.
Proof. intros H1%HashFromByteSlices_MTH H2%HashFromByteSlices_MTH. by rewrite H1 in H2; injection H2. Qed.

Lemma MTH_length items h : MTH items h → zlen h = HashSize.
Proof. destruct 1; apply Sum_length. Qed.

(** ** The root binds the items *)

Lemma app_32_inj (a b c d : bytes) : zlen a = zlen c → a ++ b = c ++ d → a = c ∧ b = d.
Proof. unfold zlen. intros. apply app_inj_1; [lia|done]. Qed.
Lemma app_32_inj_r (a b c d : bytes) : zlen b = zlen d → a ++ b = c ++ d → a = c ∧ b = d.
Proof. unfold zlen. intros. apply app_inj_2; [lia|done]. Qed.

(** [hashed items x]: computing the root of [items] hashes [x]. *)
Inductive hashed : list bytes → bytes → Prop :=
| hashed_empty : hashed [] []
| hashed_leaf d : hashed [d] (0 :: d)
| hashed_node l r (e : nat) hl hr :
    zlen l = 2 ^ Z.of_nat e → 0 < zlen r ≤ zlen l → MTH l hl → MTH r hr →
    hashed (l ++ r) (1 :: hl ++ hr)
| hashed_left l r (e : nat) x :
    zlen l = 2 ^ Z.of_nat e → 0 < zlen r ≤ zlen l → hashed l x → hashed (l ++ r) x
| hashed_right l r (e : nat) x :
    zlen l = 2 ^ Z.of_nat e → 0 < zlen r ≤ zlen l → hashed r x → hashed (l ++ r) x.

#[local] Hint Constructors hashed : core.

Lemma MTH_inj xs h : MTH xs h → ∀ ys, MTH ys h → xs = ys ∨ CollisionIn (hashed xs) (hashed ys).
Proof.
  induction 1 as [|d|l r e hl hr Hl Hr Hml IHl Hmr IHr]; intros ys Hys;
    inversion Hys as [E1 E2|d' E1 E2|l' r' e' hl' hr' Hl' Hr' Hml' Hmr' E1 E2]; subst;
    try (by left);
    match goal with E : Sum _ = Sum _ |- _ =>
      symmetry in E; eapply Sum_inj in E as [E|?]; [|by right|by eauto|by eauto] end;
    simplify_eq; try (by left).
  apply app_32_inj in E2 as [-> ->]; [|by rewrite (MTH_length _ _ Hml'), (MTH_length _ _ Hml)].
  destruct (IHl l' Hml') as [->|Hc]; [|right; eapply CollisionIn_mono; by eauto].
  destruct (IHr r' Hmr') as [->|Hc]; [by left|right; eapply CollisionIn_mono; by eauto].
Qed.

(** Two item lists with the same root are equal, or two different inputs
    hashed while the two roots were computed have the same digest: the leaf
    and node prefixes rule out every second pre-image that is not a
    collision of the hash function itself. *)
Theorem HashFromByteSlices_binding (xs ys : list bytes) (h : bytes)
    (Hx : HashFromByteSlices xs = Ret h) (Hy : HashFromByteSlices ys = Ret h) :
  xs = ys ∨ CollisionIn (hashed xs) (hashed ys).
Proof.
  destruct (HashFromByteSlices_total xs) as (hx & Ex & Mx).
  destruct (HashFromByteSlices_total ys) as (hy & Ey & My).
  rewrite Ex in Hx. rewrite Ey in Hy. simplify_eq. by apply (MTH_inj xs h).
Qed.

(** ** Audit paths *)

(** [PATH items i d p]: item [i] is [d] and [p] lists its aunts from the leaf
    up, as in RFC 6962. *)
Inductive PATH : list bytes → nat → bytes → list bytes → Prop :=
| PATH_leaf d : PATH [d] 0 d []
| PATH_left l r (e : nat) hr i d p :
    zlen l = 2 ^ Z.of_nat e → 0 < zlen r ≤ zlen l → MTH r hr →
    PATH l i d p → PATH (l ++ r) i d (p ++ [hr])
| PATH_right l r (e : nat) hl i d p :
    zlen l = 2 ^ Z.of_nat e → 0 < zlen r ≤ zlen l → MTH l hl →
    PATH r i d p → PATH (l ++ r) (length l + i) d (p ++ [hl]).

Lemma PATH_lookup items i d p : PATH items i d p → items !! i = Some d.
Proof.
  induction 1; [done|by apply lookup_app_l_Some|by rewrite lookup_app_r, Nat.add_comm, Nat.add_sub by lia].
Qed.

Lemma PATH_length items i d p : PATH items i d p →
  ∀ f : nat, zlen items ≤ 2 ^ Z.of_nat f → (length p ≤ f)%nat.
Proof.
  induction 1 as [|l r e hr i d p Hl Hr _ _ IH|l r e hl i d p Hl Hr _ _ IH]; intros f Hf;
    [simpl; lia|..]; rewrite zlen_app in Hf; rewrite length_app; simpl.
  - assert (Z.of_nat e < Z.of_nat f) by (apply (Z.pow_lt_mono_r_iff 2); lia).
    specialize (IH e ltac:(lia)). lia.
  - assert (Z.of_nat e < Z.of_nat f) by (apply (Z.pow_lt_mono_r_iff 2); lia).
    specialize (IH e ltac:(lia)). lia.
Qed.

Lemma PATH_sizes items i d p : PATH items i d p → Forall (λ a, zlen a = HashSize) p.
Proof.
  induction 1; [constructor|..]; apply Forall_app; split; try done;
    apply Forall_singleton; eauto using MTH_length.
Qed.

Lemma hash_from_aunts_PATH items i d p h : PATH items i d p → MTH items h →
  hash_from_aunts (Z.of_nat i) (zlen items) (Some (leafHash d)) (reverse p) = Ret (Some h).
Proof.
  intros Hp. revert h. induction Hp as [d|l r e hr i d p Hl Hr Hm Hp IH|l r e hl i d p Hl Hr Hm Hp IH];
    intros h Hh.
  - inversion Hh; simplify_eq; [done|]. exfalso.
    match goal with E : _ ++ _ = [_] |- _ => apply app_singleton in E as [[-> ->]|[-> ->]] end;
      unfold zlen in *; simpl in *; lia.
  - pose proof (PATH_lookup _ _ _ _ Hp) as Hi%lookup_lt_Some.
    destruct (MTH_total l) as [hl Hml].
    pose proof (MTH_node l r e hl hr Hl Hr Hml Hm) as Hn.
    rewrite (MTH_det _ _ _ Hh Hn). rewrite reverse_snoc. cbn [hash_from_aunts].
    rewrite (getSplitPoint_app l r e) by done. cbn [mbind outcome_bind].
    rewrite zlen_app. unfold zlen in *.
    zcases; simpl; try lia. by rewrite (IH hl Hml).
  - pose proof (PATH_lookup _ _ _ _ Hp) as Hi%lookup_lt_Some.
    destruct (MTH_total r) as [hr Hmr].
    pose proof (MTH_node l r e hl hr Hl Hr Hm Hmr) as Hn.
    rewrite (MTH_det _ _ _ Hh Hn). rewrite reverse_snoc. cbn [hash_from_aunts].
    rewrite (getSplitPoint_app l r e) by done. cbn [mbind outcome_bind].
    rewrite zlen_app. unfold zlen in *.
    zcases; simpl; try lia.
    replace (Z.of_nat (length l + i) - Z.of_nat (length l)) with (Z.of_nat i) by lia.
    replace (Z.of_nat (length l) + Z.of_nat (length r) - Z.of_nat (length l))
      with (Z.of_nat (length r)) by lia.
    by rewrite (IH hr Hmr).
Qed.

(** ** Soundness of verification *)

(** The inputs [Verify] hashes: the leaf's, and one per aunt. *)
Fixpoint verify_hashed (index total : Z) (d : bytes) (rev_inner : list bytes) : list bytes :=
  match rev_inner with
  | [] => [leafPrefix ++ d]
  | last :: init =>
      match getSplitPoint total with
      | Ret numLeft =>
          if index <? numLeft then
            match hash_from_aunts index numLeft (Some (leafHash d)) init with
            | Ret (Some l) => [innerPrefix ++ l ++ last]
            | _ => []
            end ++ verify_hashed index numLeft d init
          else
            match hash_from_aunts (index - numLeft) (total - numLeft) (Some (leafHash d)) init with
            | Ret (Some r) => [innerPrefix ++ last ++ r]
            | _ => []
            end ++ verify_hashed (index - numLeft) (total - numLeft) d init
      | Panic => []
      end
  end.

Lemma hash_from_aunts_length i n lh rev_p h :
  zlen lh = HashSize → hash_from_aunts i n (Some lh) rev_p = Ret (Some h) → zlen h = HashSize.
Proof.
  intros Hl. destruct rev_p as [|a rev_p]; cbn [hash_from_aunts].
  - case_match; [done|]. case_match; [|done]. by intros [= <-].
  - case_match; [done|]. case_match; [done|].
    destruct (getSplitPoint n); [|done]. cbn [mbind outcome_bind].
    case_match.
    all: match goal with |- context [hash_from_aunts ?i ?n ?l ?r] =>
           destruct (hash_from_aunts i n l r) as [[?|]|] end; try done.
    all: cbn; intros [= <-]; apply Sum_length.
Qed.

Lemma hash_from_aunts_sound items h : MTH items h → ∀ i rev_p d,
  hash_from_aunts i (zlen items) (Some (leafHash d)) rev_p = Ret (Some h) →
  (0 ≤ i ∧ items !! Z.to_nat i = Some d) ∨
  CollisionIn (.∈ verify_hashed i (zlen items) d rev_p) (hashed items).
Proof.
  induction 1 as [|d'|l r e hl hr Hl Hr Hml IHl Hmr IHr]; intros i rev_p d.
  - destruct rev_p; cbn [hash_from_aunts]; change (zlen (@nil bytes)) with 0;
      destruct (Z.leb_spec 0 i), (Z.ltb_spec i 0); try lia; done.
  - change (zlen [d']) with 1. destruct rev_p; cbn [hash_from_aunts]; zcases; try done; try lia.
    cbn [orb verify_hashed]. intros [= E]. unfold leafHash in E.
    eapply Sum_inj in E as [E|?]; [|by right|apply list_elem_of_singleton; done|apply hashed_leaf].
    change (leafPrefix ++ d) with (0 :: d) in E. injection E as ->.
    left. split; [lia|]. replace i with 0 by lia. done.
  - assert (zlen (l ++ r) ≠ 1) as Hn1 by (rewrite zlen_app; lia).
    destruct rev_p as [|a rev_p]; cbn [hash_from_aunts verify_hashed];
      destruct ((zlen (l ++ r) <=? i) || (i <? 0) || (zlen (l ++ r) <=? 0)) eqn:Eg; try done;
      bool_to_prop; (destruct (Z.eqb_spec (zlen (l ++ r)) 1); [done|]); try done.
    rewrite (getSplitPoint_app l r e) by done. cbn [mbind outcome_bind].
    assert (zlen (leafHash d) = HashSize) as Hld by apply Sum_length.
    destruct (Z.ltb_spec i (zlen l)) as [Hlt|Hge].
    + destruct (hash_from_aunts i (zlen l) _ rev_p) as [[x|]|] eqn:Ex; try done.
      cbn [mbind outcome_bind]. intros [= E]. unfold innerHash in E.
      eapply Sum_inj in E as [E|?];
        [|by right|apply elem_of_app; left; apply list_elem_of_singleton; done|by eapply hashed_node].
      injection E as E. apply app_32_inj in E as [-> ->];
        [|by rewrite (MTH_length _ _ Hml), (hash_from_aunts_length _ _ _ _ _ Hld Ex)].
      destruct (IHl _ _ _ Ex) as [[? Hi]|Hc]; [left; split; [done|by apply lookup_app_l_Some]|right].
      eapply CollisionIn_mono; [done|intros; apply elem_of_app; by right|by eauto].
    + replace (zlen (l ++ r) - zlen l) with (zlen r) by (rewrite zlen_app; lia).
      destruct (hash_from_aunts (i - zlen l) _ _ rev_p) as [[x|]|] eqn:Ex; try done.
      cbn [mbind outcome_bind]. intros [= E]. unfold innerHash in E.
      eapply Sum_inj in E as [E|?];
        [|by right|apply elem_of_app; left; apply list_elem_of_singleton; done|by eapply hashed_node].
      injection E as E. apply app_32_inj_r in E as [-> ->];
        [|by rewrite (MTH_length _ _ Hmr), (hash_from_aunts_length _ _ _ _ _ Hld Ex)].
      destruct (IHr _ _ _ Ex) as [[? Hi]|Hc]; [left|right].
      * split; [lia|]. rewrite lookup_app_r by (unfold zlen in *; lia).
        rewrite <- Hi. f_equal. unfold zlen. lia.
      * eapply CollisionIn_mono; [done|intros; apply elem_of_app; by right|by eauto].
Qed.

(** A verified proof shows its leaf, or a collision. *)
Lemma verify_item items (root leaf : bytes) (sp : MerkleProof)
    (Hroot : HashFromByteSlices items = Ret root)
    (Htotal : Total sp = zlen items)
    (Hok : Proof_Verify sp root leaf = Ret None) :
  (0 ≤ Index sp ∧ items !! Z.to_nat (Index sp) = Some leaf) ∨
  CollisionIn (.∈ verify_hashed (Index sp) (Total sp) leaf (reverse (Aunts sp))) (hashed items).
Proof.
  destruct (HashFromByteSlices_total items) as (h & E & Hm). rewrite E in Hroot. simplify_eq.
  unfold Proof_Verify, ComputeRootHash, computeHashFromAunts in Hok.
  do 2 (case_match; [done|]).
  destruct (bytes_Equal (sbytes (LeafHash sp)) (leafHash leaf)) eqn:El; [|done].
  simpl in Hok. bool_to_prop.
  destruct (LeafHash sp) as [lh|] eqn:Els; simpl in El.
  2:{ pose proof (Sum_length (leafPrefix ++ leaf)) as Hc. unfold leafHash in El.
      rewrite <- El in Hc. done. }
  subst lh. rewrite Htotal in *.
  destruct (hash_from_aunts _ _ _ _) as [[x|]|] eqn:Ex; simpl in Hok; [| |done].
  - destruct (bytes_Equal x root) eqn:Eb; [|done]. bool_to_prop. subst x.
    by apply (hash_from_aunts_sound items root Hm _ _ _ Ex).
  - destruct (bytes_Equal [] root) eqn:Eb; [|done]. bool_to_prop. subst root.
    by apply MTH_length in Hm.
Qed.

(** C30. A proof that verifies against the root of [items] and announces their
    number proves that the leaf is the item at the proof's index, or one of
    the inputs the verification hashed and one hashed while the root was
    computed are different and have the same digest. *)
Theorem Proof_Verify_sound items (root leaf : bytes) (sp : MerkleProof)
    (Hroot : HashFromByteSlices items = Ret root)
    (Htotal : Total sp = zlen items)
    (Hok : Proof_Verify sp root leaf = Ret None) :
  (0 ≤ Index sp ∧ items !! Z.to_nat (Index sp) = Some leaf) ∨
  CollisionIn (.∈ verify_hashed (Index sp) (Total sp) leaf (reverse (Aunts sp))) (hashed items).
Proof. by apply (verify_item items root leaf sp). Qed.

End MerkleProofs.
