(* ===== verification/MerkleGen.v ===== *)
(** * Generated Merkle proofs and the iterative root

    [ProofsFromByteSlices] builds a forest of trail nodes linked by parent and
    sibling pointers and reads each proof off by following the pointers; this
    file shows that every proof it returns verifies.  It also shows that
    [HashFromByteSlicesIterative], which overwrites its array level by level,
    computes the root of the recursive version. *)

From stdpp Require Import base list gmap strings numbers.
From Stdlib Require Import ZArith Lia.
From S2P Require Import Prelude Convert Hash Merkle MerkleProofs.

Section MerkleGen.
Context {H : HashFn}.
Implicit Types (items : list bytes) (h : bytes) (hp : heap).

(** ** Trails in the heap *)

(** [walk hp p aunts r]: following parent pointers from [p] reaches [r], and
    the siblings met on the way hash to [aunts].  Parents have larger
    addresses than their children, so a walk is finite. *)
Inductive walk hp : nat → list bytes → nat → Prop :=
| walk_here p : walk hp p [] p
| walk_step p n q s sn aunts r :
    hp !! p = Some n → nParent n = Some q → (p < q)%nat →
    (nLeft n = Some s ∨ (nLeft n = None ∧ nRight n = Some s)) →
    hp !! s = Some sn →
    walk hp q aunts r → walk hp p (nHash sn :: aunts) r.

Lemma walk_snoc hp p aunts r n q s sn :
  walk hp p aunts r → hp !! r = Some n → nParent n = Some q → (r < q)%nat →
  (nLeft n = Some s ∨ (nLeft n = None ∧ nRight n = Some s)) → hp !! s = Some sn →
  walk hp p (aunts ++ [nHash sn]) q.
Proof.
  induction 1 as [p|]; intros; simpl.
  - by econstructor; [..|constructor].
  - by econstructor; eauto.
Qed.

(** Extending the heap and relinking parentless nodes keeps every walk. *)
Lemma walk_mono hp hp' p aunts r :
  (∀ q n, hp !! q = Some n → nParent n ≠ None → hp' !! q = Some n) →
  (∀ q n, hp !! q = Some n → ∃ n', hp' !! q = Some n' ∧ nHash n' = nHash n) →
  walk hp p aunts r → walk hp' p aunts r.
Proof.
  intros Hkeep Hhash. induction 1 as [|p n q s sn aunts r Hp Hq Hlt Hs Hsn Hw IH]; [constructor|].
  destruct (Hhash _ _ Hsn) as (sn' & Hsn' & <-).
  apply (walk_step _ p n q s sn' aunts r); try done. apply Hkeep; [done|]. by rewrite Hq.
Qed.

Lemma walk_le hp p aunts r : walk hp p aunts r → (p + length aunts ≤ r)%nat.
Proof. induction 1; simpl; lia. Qed.

Lemma flatten_aunts_walk hp p aunts r fuel n :
  walk hp p aunts r → hp !! r = Some n → nParent n = None → nLeft n = None → nRight n = None →
  (length aunts < fuel)%nat → flatten_aunts fuel hp (Some p) = Ret aunts.
Proof.
  intros Hw Hr Hp Hl Hrt. revert fuel.
  induction Hw as [p|p m q s sn aunts r Hm Hq Hlt Hs Hsn Hw IH]; intros [|fuel] Hf;
    try (simpl in Hf; lia); cbn [flatten_aunts].
  - rewrite Hr, Hl, Hrt, Hp. cbn. by destruct fuel.
  - rewrite Hm, Hq. cbn [length] in Hf. rewrite IH by (try done; lia).
    destruct Hs as [->|[-> ->]]; by rewrite Hsn.
Qed.

(** What [trails_from] guarantees for the items it is given. *)
Record trails_ok hp items hp' (trails : list nat) (root : nat) h : Prop := {
  ok_extends : ∃ new, hp' = hp ++ new;
  ok_root_new : (length hp ≤ root)%nat;
  ok_root : hp' !! root = Some (new_node h);
  ok_hash : MTH items h;
  ok_length : length trails = length items;
  ok_trail : ∀ i d, items !! i = Some d → ∃ t n p,
    trails !! i = Some t ∧ hp' !! t = Some n ∧ nHash n = leafHash d ∧
    PATH items i d p ∧ walk hp' t p root
}.

Lemma trails_from_node fuel items hp : 2 ≤ zlen items →
  trails_from (S fuel) items hp =
    (k ← getSplitPoint (zlen items);
     '(hp1, lefts, leftRoot) ← trails_from fuel (take (Z.to_nat k) items) hp;
     '(hp2, rights, rightRoot) ← trails_from fuel (drop (Z.to_nat k) items) hp1;
     match hp2 !! leftRoot, hp2 !! rightRoot with
     | Some ln, Some rn =>
         let rootHash := innerHash (nHash ln) (nHash rn) in
         let root := length hp2 in
         let hp3 := hp2 ++ [new_node rootHash] in
         let hp4 := <[leftRoot := set_parent_right root rightRoot ln]> hp3 in
         let hp5 := <[rightRoot := set_parent_left root leftRoot rn]> hp4 in
         Ret (hp5, lefts ++ rights, root)
     | _, _ => Panic
     end).
Proof. destruct items as [|? [|? ?]]; unfold zlen; simpl length; intros; [lia|lia|done]. Qed.

(** Linking the two roots under a new one. *)
Section Link.
  Context (hp hp2 : heap) (lR rR : nat) (hl hr : bytes).
  Context (HlR : hp2 !! lR = Some (new_node hl)) (HrR : hp2 !! rR = Some (new_node hr)).
  Context (Hne : (lR < rR)%nat).
Let root := length hp2.
Let hp5 := <[rR := set_parent_left root lR (new_node hr)]>
      (<[lR := set_parent_right root rR (new_node hl)]>
      (hp2 ++ [new_node (innerHash hl hr)])).

Lemma link_bounds : (lR < root ∧ rR < root)%nat.
  Proof using HlR HrR Hne. split; by eapply lookup_lt_Some. Qed.

Lemma link_root : hp5 !! root = Some (new_node (innerHash hl hr)).
  Proof using HlR HrR Hne.
    pose proof link_bounds. unfold hp5. rewrite !list_lookup_insert_ne by lia.
    rewrite lookup_app_r by (unfold root; lia). unfold root. by rewrite Nat.sub_diag.
  Qed.

Lemma link_left : hp5 !! lR = Some (set_parent_right root rR (new_node hl)).
  Proof using HlR HrR Hne.
    pose proof link_bounds. unfold hp5. rewrite list_lookup_insert_ne by lia.
    apply list_lookup_insert_eq. rewrite length_app. unfold root in *. lia.
  Qed.

Lemma link_right : hp5 !! rR = Some (set_parent_left root lR (new_node hr)).
  Proof using HlR HrR Hne.
    pose proof link_bounds. unfold hp5. apply list_lookup_insert_eq.
    rewrite length_insert, length_app. unfold root in *. lia.
  Qed.

Lemma link_other q : q ≠ lR → q ≠ rR → (q < root)%nat → hp5 !! q = hp2 !! q.
  Proof using Hne.
    intros. unfold hp5. rewrite !list_lookup_insert_ne by lia. by rewrite lookup_app_l.
  Qed.

Lemma link_walk t p r : walk hp2 t p r → walk hp5 t p r.
  Proof using HlR HrR Hne.
    apply walk_mono; intros q n Hq.
    - intros Hpar. assert (q ≠ lR ∧ q ≠ rR) as [? ?].
      { split; intros ->; [rewrite HlR in Hq|rewrite HrR in Hq]; simplify_eq; done. }
      by rewrite link_other by (eauto using lookup_lt_Some).
    - destruct (decide (q = lR)) as [->|]; [|destruct (decide (q = rR)) as [->|]].
      + rewrite HlR in Hq. injection Hq as <-. eexists. by split; [apply link_left|].
      + rewrite HrR in Hq. injection Hq as <-. eexists. by split; [apply link_right|].
      + exists n. by rewrite link_other by (eauto using lookup_lt_Some).
  Qed.

Lemma link_keeps_hash q n : hp2 !! q = Some n → ∃ n', hp5 !! q = Some n' ∧ nHash n' = nHash n.
  Proof using HlR HrR Hne.
    intros Hq. destruct (decide (q = lR)) as [->|]; [|destruct (decide (q = rR)) as [->|]].
    - rewrite HlR in Hq. injection Hq as <-. eexists. by split; [apply link_left|].
    - rewrite HrR in Hq. injection Hq as <-. eexists. by split; [apply link_right|].
    - exists n. by rewrite link_other by (eauto using lookup_lt_Some).
  Qed.

Lemma link_walk_left t p : walk hp2 t p lR → walk hp5 t (p ++ [hr]) root.
  Proof using HlR HrR Hne.
    intros Hw%link_walk. destruct link_bounds.
    refine (walk_snoc hp5 t p lR _ root rR _ Hw link_left _ _ _ link_right); auto.
  Qed.

Lemma link_walk_right t p : walk hp2 t p rR → walk hp5 t (p ++ [hl]) root.
  Proof using HlR HrR Hne.
    intros Hw%link_walk. destruct link_bounds.
    refine (walk_snoc hp5 t p rR _ root lR _ Hw link_right _ _ _ link_left); auto.
  Qed.

Lemma link_extends new : hp2 = hp ++ new → (length hp ≤ lR)%nat → ∃ new', hp5 = hp ++ new'.
  Proof using HlR HrR Hne.
    intros -> Hge. unfold hp5. rewrite <- app_assoc.
    rewrite !insert_app_r_alt by lia. by eexists.
  Qed.
End Link.

Lemma trails_ok_lift hp hp1 hp2 items trails root h new :
  trails_ok hp items hp1 trails root h → hp2 = hp1 ++ new →
  hp2 !! root = Some (new_node h) ∧
  ∀ i d, items !! i = Some d → ∃ t n p,
    trails !! i = Some t ∧ hp2 !! t = Some n ∧ nHash n = leafHash d ∧
    PATH items i d p ∧ walk hp2 t p root.
Proof.
  intros [_ _ Hr _ _ Ht] ->. split; [by apply lookup_app_l_Some|].
  intros i d Hi. destruct (Ht i d Hi) as (t & n & p & H1 & H2 & H3 & H4 & H5).
  exists t, n, p. split_and!; [done|by apply lookup_app_l_Some|done|done|].
  apply (walk_mono hp1); [intros; by apply lookup_app_l_Some| |done].
  intros q m Hq. exists m. split; [by apply lookup_app_l_Some|done].
Qed.

Lemma trails_from_spec fuel items hp : (length items ≤ fuel)%nat →
  ∃ hp' trails root h, trails_from fuel items hp = Ret (hp', trails, root) ∧
    trails_ok hp items hp' trails root h.
Proof.
  revert items hp; induction fuel as [fuel IH] using lt_wf_ind; intros items hp Hf.
  destruct (decide (2 ≤ zlen items)) as [Hn|Hn].
  2:{ unfold zlen in Hn. destruct items as [|d [|]]; [| |simpl in Hn; lia].
      - exists (hp ++ [new_node emptyHash]), [], (length hp), emptyHash.
        split; [by destruct fuel|]. constructor; [by eexists|done| |constructor|done|done].
        rewrite lookup_app_r, Nat.sub_diag by lia. done.
      - exists (hp ++ [new_node (leafHash d)]), [length hp], (length hp), (leafHash d).
        split; [by destruct fuel|].
        assert ((hp ++ [new_node (leafHash d)]) !! length hp = Some (new_node (leafHash d))) as E.
        { rewrite lookup_app_r, Nat.sub_diag by lia. done. }
        constructor; [by eexists|done|done|constructor|done|].
        intros [|i] d' Hi; simpl in Hi; simplify_eq.
        eexists _, _, []. split_and!; [done|exact E|done|constructor|constructor]. }
  destruct fuel as [|fuel]; [unfold zlen in Hn; lia|].
  rewrite trails_from_node by done.
  destruct (split_items items Hn) as (e & l & r & -> & Hl & Hr & -> & Etake & Edrop).
  cbn [mbind outcome_bind]. rewrite Etake, Edrop. rewrite length_app in Hf.
  assert (0 < 2 ^ Z.of_nat e) by lia.
  destruct (IH fuel ltac:(lia) l hp) as (hp1 & lefts & lR & hl & -> & Hok1); [unfold zlen in *; lia|].
  cbn [mbind outcome_bind].
  destruct (IH fuel ltac:(lia) r hp1) as (hp2 & rights & rR & hr & -> & Hok2); [unfold zlen in *; lia|].
  cbn [mbind outcome_bind].
  destruct (ok_extends _ _ _ _ _ _ Hok2) as [new Hnew].
  destruct (trails_ok_lift _ _ _ _ _ _ _ _ Hok1 Hnew) as [HlR Hleft].
  pose proof (ok_root _ _ _ _ _ _ Hok2) as HrR. rewrite HlR, HrR.
  pose proof (ok_root_new _ _ _ _ _ _ Hok2) as Hge2.
  pose proof (ok_root_new _ _ _ _ _ _ Hok1) as Hge1.
  pose proof (lookup_lt_Some _ _ _ (ok_root _ _ _ _ _ _ Hok1)) as Hlt1.
  assert (lR < rR)%nat as Hne by lia.
  eexists _, _, _, _. split; [done|].
  destruct (ok_extends _ _ _ _ _ _ Hok1) as [new1 Hnew1].
  constructor.
  - apply (link_extends hp hp2 lR rR hl hr HlR HrR Hne (new1 ++ new)); [|done].
    by rewrite Hnew, Hnew1, <- app_assoc.
  - rewrite Hnew, length_app. lia.
  - apply (link_root hp2 lR rR hl hr HlR HrR Hne).
  - apply (MTH_node l r e hl hr Hl Hr); [apply Hok1|apply Hok2].
  - rewrite !length_app, (ok_length _ _ _ _ _ _ Hok1), (ok_length _ _ _ _ _ _ Hok2). done.
  - intros i d [Hi|[Hge Hi]]%lookup_app_Some.
    + destruct (Hleft i d Hi) as (t & n & p & H1 & H2 & H3 & H4 & H5).
      destruct (link_keeps_hash hp2 lR rR hl hr HlR HrR Hne t n H2) as (n' & Hn' & En').
      exists t, n', (p ++ [hr]). split_and!; [by apply lookup_app_l_Some|done|congruence| |].
      * apply (PATH_left l r e); try done. apply Hok2.
      * by apply link_walk_left.
    + destruct (ok_trail _ _ _ _ _ _ Hok2 _ d Hi) as (t & n & p & H1 & H2 & H3 & H4 & H5).
      destruct (link_keeps_hash hp2 lR rR hl hr HlR HrR Hne t n H2) as (n' & Hn' & En').
      exists t, n', (p ++ [hl]). split_and!; [|done|congruence| |].
      * rewrite lookup_app_r, (ok_length _ _ _ _ _ _ Hok1) by (rewrite (ok_length _ _ _ _ _ _ Hok1); lia).
        done.
      * replace i with (length l + (i - length l))%nat by lia.
        apply (PATH_right l r e); try done. apply Hok1.
      * by apply link_walk_right.
Qed.

(** ** Completeness of the generated proofs *)

Lemma proofs_of_trails_spec hp total trails i :
  (∀ k t, trails !! k = Some t → ∃ n p, hp !! t = Some n ∧ FlattenAunts hp t = Ret p) →
  ∃ ps, proofs_of_trails hp total i trails = Ret ps ∧ length ps = length trails ∧
    ∀ k t n p, trails !! k = Some t → hp !! t = Some n → FlattenAunts hp t = Ret p →
      ps !! k = Some {| Total := total; Index := i + Z.of_nat k;
                        LeafHash := Some (nHash n); Aunts := p |}.
Proof.
  revert i; induction trails as [|t trails IH]; intros i Hall; [by exists []|].
  destruct (Hall 0%nat t eq_refl) as (n & p & Hn & Hp). cbn [proofs_of_trails].
  destruct (IH (i + 1)) as (ps & -> & Hlen & Hps); [intros k t' Hk; by apply (Hall (S k))|].
  rewrite Hn, Hp. cbn. eexists. split; [done|]. split; [by simpl; rewrite Hlen|].
  intros [|k] t' n' p' Ht Hn' Hp'; simpl in *; simplify_eq.
  - rewrite Z.add_0_r. congruence.
  - rewrite (Hps k t' n' p' Ht Hn' Hp'). do 2 f_equal. lia.
Qed.

Lemma check_aunts_None i p : Forall (λ a, zlen a = HashSize) p → check_aunts i p = None.
Proof.
  intros Hp. revert i. induction Hp as [|a p Ha _ IH]; intros i; simpl; [done|].
  rewrite Ha, Z.eqb_refl. simpl. apply IH.
Qed.

Lemma path_proof_ok items i d p h total :
  PATH items i d p → MTH items h → total = zlen items →
  let sp := {| Total := total; Index := Z.of_nat i; LeafHash := Some (leafHash d); Aunts := p |} in
  Proof_Verify sp h d = Ret None ∧ (zlen items ≤ 2 ^ 100 → Proof_ValidateBasic sp = None).
Proof.
  intros Hp Hm -> sp. pose proof (zlen_nonneg items).
  unfold Proof_Verify, Proof_ValidateBasic, ComputeRootHash, computeHashFromAunts, sp.
  cbn [Total Index LeafHash Aunts sbytes default].
  destruct (Z.ltb_spec (zlen items) 0); [lia|]. destruct (Z.ltb_spec (Z.of_nat i) 0); [lia|].
  rewrite bytes_Equal_refl. simpl negb. split.
  - rewrite (hash_from_aunts_PATH _ _ _ _ _ Hp Hm). cbn. by rewrite bytes_Equal_refl.
  - intros Hb. pose proof (PATH_length _ _ _ _ Hp 100 ltac:(lia)).
    change (zlen (leafHash d)) with (zlen (Sum (leafPrefix ++ d))).
    rewrite Sum_length, Z.eqb_refl. simpl negb. unfold MaxAunts.
    destruct (Z.ltb_spec 100 (zlen p)); [unfold zlen in *; lia|].
    apply check_aunts_None. by eapply PATH_sizes.
Qed.

(** The proofs generated, one per item. *)
Lemma proofs_spec items :
  ∃ root proofs, ProofsFromByteSlices items = Ret (root, proofs) ∧
    HashFromByteSlices items = Ret root ∧ length proofs = length items ∧
    ∀ i d, items !! i = Some d → ∃ sp, proofs !! i = Some sp ∧
      Total sp = zlen items ∧ Index sp = Z.of_nat i ∧
      Proof_Verify sp root d = Ret None ∧
      (zlen items ≤ 2 ^ 100 → Proof_ValidateBasic sp = None).
Proof.
  destruct (trails_from_spec (length items) items [] ltac:(lia))
    as (hp & trails & root & h & E & Hok).
  assert (∀ i d, items !! i = Some d → ∃ t n p, trails !! i = Some t ∧ hp !! t = Some n ∧
    nHash n = leafHash d ∧ PATH items i d p ∧ FlattenAunts hp t = Ret p) as Htr.
  { intros i d Hi. destruct (ok_trail _ _ _ _ _ _ Hok i d Hi) as (t & n & p & ?&?&?&?& Hw).
    exists t, n, p. split_and!; try done.
    pose proof (ok_root _ _ _ _ _ _ Hok) as Hr. pose proof (walk_le _ _ _ _ Hw).
    apply lookup_lt_Some in Hr as Hlt.
    by apply (flatten_aunts_walk hp t p root _ _ Hw Hr); [..|lia]. }
  destruct (proofs_of_trails_spec hp (zlen items) trails 0) as (ps & Hps & Hlen & Hk).
  { intros k t Ht. destruct (lookup_lt_is_Some_2 items k) as [d Hd].
    { rewrite <- (ok_length _ _ _ _ _ _ Hok). by eapply lookup_lt_Some. }
    destruct (Htr k d Hd) as (t' & n & p & ? & ? & _ & _ & ?). simplify_eq. by eexists _, _. }
  exists h, ps. unfold ProofsFromByteSlices, trailsFromByteSlices. rewrite E.
  cbn [mbind outcome_bind]. rewrite (ok_root _ _ _ _ _ _ Hok), Hps.
  split; [done|]. split; [apply HashFromByteSlices_MTH, Hok|].
  split; [by rewrite Hlen, (ok_length _ _ _ _ _ _ Hok)|].
  intros i d Hi. destruct (Htr i d Hi) as (t & n & p & Ht & Hn & Hh & Hp & Hfl).
  eexists. split; [by apply (Hk i t n p)|]. cbn [Total Index]. rewrite Z.add_0_l, Hh.
  split; [done|]. split; [done|]. by apply path_proof_ok; [|apply Hok|].
Qed.

(** C31. Generating proofs terminates without a panic; the root is the Merkle
    root of the items, there is one proof per item with its index and the
    number of items, each proof verifies against the root and its item, and
    passes [ValidateBasic] (at most [MaxAunts] aunts of hash size) for any
    number of items up to 2^100. *)
Theorem ProofsFromByteSlices_complete items :
  ∃ root proofs, ProofsFromByteSlices items = Ret (root, proofs) ∧
    HashFromByteSlices items = Ret root ∧ length proofs = length items ∧
    ∀ i d, items !! i = Some d → ∃ sp, proofs !! i = Some sp ∧
      Total sp = zlen items ∧ Index sp = Z.of_nat i ∧
      Proof_Verify sp root d = Ret None ∧
      (zlen items ≤ 2 ^ 100 → Proof_ValidateBasic sp = None).
Proof. apply proofs_spec. Qed.

(** ** The iterative root *)

(** One level up: adjacent hashes are joined, an odd last one is kept. *)
Fixpoint pair_up (l : list bytes) : list bytes :=
  match l with
  | a :: b :: rest => innerHash a b :: pair_up rest
  | _ => l
  end.

(** The tree over a level of hashes, split as the recursive version does. *)
Inductive level_root : list bytes → bytes → Prop :=
| level_one h : level_root [h] h
| level_node l r (e : nat) hl hr :
    zlen l = 2 ^ Z.of_nat e → 0 < zlen r ≤ zlen l →
    level_root l hl → level_root r hr → level_root (l ++ r) (innerHash hl hr).

Lemma MTH_level items h : items ≠ [] → MTH items h → level_root (map leafHash items) h.
Proof.
  intros Hne Hm. induction Hm as [|d|l r e hl hr Hl Hr _ IHl _ IHr]; [done|constructor|].
  rewrite map_app. apply (level_node _ _ e); unfold zlen in *; rewrite ?length_map; [done|done|..].
  - apply IHl. intros ->. simpl in Hl. lia.
  - apply IHr. intros ->. simpl in Hr. lia.
Qed.

Lemma pair_up_ind (P : list bytes → Prop) :
  P [] → (∀ a, P [a]) → (∀ a b l, P l → P (a :: b :: l)) → ∀ l, P l.
Proof.
  intros H0 H1 H2. fix IH 1. intros [|a [|b l]]; [done|apply H1|apply H2, IH].
Qed.

Lemma pair_up_app l r : (length l mod 2 = 0)%nat → pair_up (l ++ r) = pair_up l ++ pair_up r.
Proof.
  induction l as [|a|a b l IH] using pair_up_ind; intros Hl; [done|done|].
  simpl. f_equal. apply IH. cbn [length] in Hl.
  replace (S (S (length l))) with (length l + 1 * 2)%nat in Hl by lia.
  by rewrite Nat.Div0.mod_add in Hl.
Qed.

Lemma length_pair_up l : length (pair_up l) = ((length l + 1) / 2)%nat.
Proof.
  induction l as [|a|a b l IH] using pair_up_ind; [done|done|].
  cbn [pair_up length]. rewrite IH.
  replace (S (S (length l)) + 1)%nat with (length l + 1 + 1 * 2)%nat by lia.
  rewrite Nat.div_add by lia. lia.
Qed.

Lemma level_root_nonempty l h : level_root l h → 0 < zlen l.
Proof. destruct 1; [unfold zlen; simpl; lia|]. rewrite zlen_app. pose proof (zlen_nonneg l). lia. Qed.

(** Joining pairs does not change the root of a level. *)
Lemma pair_up_root l h : level_root l h → 2 ≤ zlen l → level_root (pair_up l) h.
Proof.
  induction 1 as [|l r e hl hr Hl Hr Hlr IHl Hrr IHr]; [unfold zlen; simpl; lia|]. intros _.
  destruct e as [|e].
  - destruct l as [|a [|? ?]]; unfold zlen in Hl; simpl in Hl; try lia.
    destruct r as [|b [|? ?]]; unfold zlen in Hr; simpl in Hr; try lia.
    inversion Hlr; simplify_eq; [|exfalso].
    + inversion Hrr; simplify_eq; [constructor|exfalso].
      match goal with E : _ ++ _ = [_] |- _ => apply app_singleton in E as [[-> ->]|[-> ->]] end;
        unfold zlen in *; simpl in *; lia.
    + match goal with E : _ ++ _ = [_] |- _ => apply app_singleton in E as [[-> ->]|[-> ->]] end;
        unfold zlen in *; simpl in *; lia.
  - rewrite Nat2Z.inj_succ, Z.pow_succ_r in Hl by lia.
    assert (length l = (2 * Z.to_nat (2 ^ Z.of_nat e))%nat) as Hll by (unfold zlen in Hl; lia).
    assert (0 < 2 ^ Z.of_nat e) by lia.
    rewrite pair_up_app by (rewrite Hll, Nat.mul_comm; apply Nat.Div0.mod_mul).
    assert (zlen (pair_up l) = 2 ^ Z.of_nat e) as Hpl.
    { unfold zlen. rewrite length_pair_up, Hll.
      replace (2 * Z.to_nat (2 ^ Z.of_nat e) + 1)%nat
        with (1 + Z.to_nat (2 ^ Z.of_nat e) * 2)%nat by lia.
      rewrite Nat.div_add by lia. simpl. lia. }
    assert (0 < zlen (pair_up r) ≤ zlen (pair_up l)) as Hpr.
    { rewrite Hpl. unfold zlen in *. rewrite length_pair_up.
      pose proof (Nat.div_mod_eq (length r + 1) 2). pose proof (Nat.mod_upper_bound (length r + 1) 2).
      lia. }
    apply (level_node _ _ e); [done|done|apply IHl; lia|].
    destruct (decide (2 ≤ zlen r)); [by apply IHr|].
    destruct r as [|b [|? ?]]; unfold zlen in *; simpl in *; try lia. done.
Qed.

(** The in-place pass writes [pair_up] of the live cells behind the write
    position: [out] is written, [junk] has been read, [live] is still to read. *)
Lemma iter_pass_spec live : ∀ out junk tail fuel, (length live ≤ fuel)%nat →
  ∃ junk', iter_pass fuel (out ++ junk ++ live ++ tail) (zlen (out ++ junk ++ live))
      (zlen (out ++ junk)) (zlen out) =
    Ret (out ++ pair_up live ++ junk', zlen (out ++ pair_up live)).
Proof.
  induction live as [|a|a b live IH] using pair_up_ind; intros out junk tail fuel Hf.
  - exists (junk ++ tail). rewrite !app_nil_r. destruct fuel; simpl; rewrite Z.ltb_irrefl; done.
  - destruct fuel as [|fuel]; [simpl in Hf; lia|].
    assert (∃ x mid, junk ++ [a] = x :: mid) as (x & mid & E) by (destruct junk; eauto).
    exists (mid ++ tail). cbn [iter_pass pair_up].
    assert (zlen (out ++ junk ++ [a]) = zlen (out ++ junk) + 1) as Hsz
      by (rewrite !zlen_app; unfold zlen; simpl; lia).
    rewrite Hsz. destruct (Z.ltb_spec (zlen (out ++ junk)) (zlen (out ++ junk) + 1)); [|lia].
    rewrite Z.ltb_irrefl. rewrite (app_assoc out). cbn [app]. rewrite idx_app_mid.
    cbn [mbind outcome_bind].
    replace ((out ++ junk) ++ a :: tail) with (out ++ x :: mid ++ tail)
      by (rewrite <- app_assoc; f_equal; cbn [app]; rewrite app_comm_cons, <- E, <- app_assoc; done).
    rewrite upd_app_mid. cbn [mbind outcome_bind].
    destruct fuel; cbn [iter_pass]; rewrite Z.ltb_irrefl;
      by rewrite zlen_app.
  - destruct fuel as [|fuel]; [simpl in Hf; lia|]. cbn [iter_pass pair_up].
    assert (∃ x mid, junk ++ [a; b] = x :: mid) as (x & mid & E) by (destruct junk; eauto).
    destruct (IH (out ++ [innerHash a b]) mid tail fuel) as [junk' HI]; [simpl in Hf; lia|].
    exists junk'.
    assert (zlen junk + 2 = 1 + zlen mid) as Hjm.
    { rewrite <- zlen_cons with (x := x), <- E, zlen_app. done. }
    assert (out ++ junk ++ (a :: b :: live) ++ tail = out ++ x :: mid ++ live ++ tail) as Hl.
    { f_equal. change ((a :: b :: live) ++ tail) with ([a; b] ++ live ++ tail).
      rewrite app_assoc, E. done. }
    pose proof (zlen_nonneg live) as Hlv.
    destruct (Z.ltb_spec (zlen (out ++ junk)) (zlen (out ++ junk ++ a :: b :: live))) as [_|Hx];
      [|autorewrite with urd in Hx; lia].
    destruct (Z.ltb_spec (zlen (out ++ junk) + 1) (zlen (out ++ junk ++ a :: b :: live))) as [_|Hx];
      [|autorewrite with urd in Hx; lia].
    rewrite (app_assoc out junk (_ ++ _)). cbn [app]. rewrite idx_app_mid. cbn [mbind outcome_bind].
    replace ((out ++ junk) ++ a :: b :: live ++ tail)
      with (((out ++ junk) ++ [a]) ++ b :: live ++ tail) by (rewrite <- app_assoc; done).
    replace (zlen (out ++ junk) + 1) with (zlen ((out ++ junk) ++ [a]))
      by (rewrite (zlen_app _ [a]); done).
    rewrite idx_app_mid. cbn [mbind outcome_bind].
    replace (((out ++ junk) ++ [a]) ++ b :: live ++ tail) with (out ++ x :: mid ++ live ++ tail)
      by (rewrite <- Hl, <- !app_assoc; done).
    rewrite upd_app_mid. cbn [mbind outcome_bind].
    revert HI. rewrite <- !app_assoc. cbn [app].
    replace (zlen (out ++ innerHash a b :: mid ++ live)) with (zlen (out ++ junk ++ a :: b :: live))
      by (autorewrite with urd; lia).
    replace (zlen (out ++ innerHash a b :: mid)) with (zlen (out ++ junk) + 2)
      by (autorewrite with urd; lia).
    replace (zlen (out ++ [innerHash a b])) with (zlen out + 1)
      by (autorewrite with urd; unfold zlen; simpl; lia).
    done.
Qed.

Lemma level_root_det l h h' : level_root l h → level_root l h' → h = h'.
Proof.
  intros Hl; revert h'. induction Hl as [|l r e hl hr Hl Hr _ IHl _ IHr]; intros h' H'.
  - inversion H' as [|l r e hl hr Hl Hr _ _ E]; [done|exfalso].
    apply app_singleton in E as [[-> ->]|[-> ->]]; unfold zlen in *; simpl in *; lia.
  - inversion H' as [x E|l' r' e' hl' hr' Hl' Hr' Hm1 Hm2 E]; simplify_eq.
    + symmetry in E. apply app_singleton in E as [[-> ->]|[-> ->]]; unfold zlen in *; simpl in *; lia.
    + assert (e = e') as ->.
      { apply (f_equal zlen) in E as E'. rewrite !zlen_app in E'.
        apply (split_unique _ _ (zlen l + zlen r)); lia. }
      apply app_inj_1 in E as [-> ->]; [|unfold zlen in *; lia].
      by rewrite (IHl hl'), (IHr hr').
Qed.

Lemma iter_levels_spec n : ∀ fuel live tail h, (length live ≤ n)%nat → (length live ≤ fuel)%nat →
  level_root live h → iter_levels fuel (live ++ tail) (zlen live) = Ret h.
Proof.
  induction n as [|n IH]; intros fuel live tail h Hn Hf Hr;
    pose proof (level_root_nonempty _ _ Hr) as Hpos; [unfold zlen in Hpos; lia|].
  destruct live as [|a [|b live]]; [unfold zlen in Hpos; simpl in Hpos; lia| |].
  - rewrite (level_root_det _ _ _ Hr (level_one a)). by destruct fuel.
  - destruct fuel as [|fuel]; [simpl in Hf; lia|]. cbn [iter_levels].
    destruct (Z.eqb_spec (zlen (a :: b :: live)) 0); [lia|].
    destruct (Z.eqb_spec (zlen (a :: b :: live)) 1); [unfold zlen in *; simpl in *; lia|].
    destruct (iter_pass_spec (a :: b :: live) [] [] tail (Z.to_nat (zlen (a :: b :: live))))
      as [junk' E]; [unfold zlen; lia|].
    cbn [app] in E. change (zlen (@nil bytes)) with 0 in E. cbn [app]. rewrite E.
    cbn [mbind outcome_bind fst snd].
    pose proof (length_pair_up (a :: b :: live)) as Hlen.
    assert ((length (a :: b :: live) + 1) / 2 < length (a :: b :: live))%nat as Hlt.
    { apply Nat.Div0.div_lt_upper_bound. simpl. lia. }
    apply IH; [simpl in *; lia..|].
    apply pair_up_root; [done|]. unfold zlen. simpl. lia.
Qed.

Lemma HashFromByteSlicesIterative_MTH items h :
  MTH items h → HashFromByteSlicesIterative items = Ret h.
Proof.
  intros Hm. destruct (decide (items = [])) as [->|Hne].
  - rewrite <- (MTH_det _ _ _ MTH_empty Hm). done.
  - unfold HashFromByteSlicesIterative.
    rewrite <- (app_nil_r (map leafHash items)) at 2.
    eapply iter_levels_spec; [done..|by apply MTH_level].
Qed.

(** The in-place bottom-up loop returns the same root as the recursive
    definition, for every list of items, and neither panics. *)
Theorem HashFromByteSlicesIterative_equiv items :
  HashFromByteSlicesIterative items = HashFromByteSlices items ∧
  ∃ h, HashFromByteSlices items = Ret h.
Proof.
  destruct (MTH_total items) as [h Hm].
  rewrite (HashFromByteSlicesIterative_MTH _ _ Hm), (HashFromByteSlices_MTH _ _ Hm). eauto.
Qed.

End MerkleGen.

(** ** Witnesses, with SHA-256 *)
#[local] Existing Instance sha256_HashFn.

Definition demo_items : list bytes := [[1]; [2; 3]; [4]].
Definition demo_root : bytes :=
  match HashFromByteSlices (H := sha256_HashFn) demo_items with Ret h => h | Panic => [] end.
Definition demo_proof : MerkleProof :=
  match ProofsFromByteSlices (H := sha256_HashFn) demo_items with
  | Ret (_, [_; _; sp]) => sp
  | _ => {| Total := 0; Index := 0; LeafHash := None; Aunts := [] |}
  end.

Lemma HashFromByteSlices_binding_witness :
  HashFromByteSlices (H := sha256_HashFn) demo_items = Ret demo_root ∧
  (demo_items = demo_items ∨ CollisionIn (hashed demo_items) (hashed demo_items)).
Proof.
  split; [vm_compute; reflexivity|].
  apply (HashFromByteSlices_binding (H := sha256_HashFn) demo_items demo_items demo_root);
    vm_compute; reflexivity.
Defined.

Lemma Proof_Verify_sound_witness :
  Proof_Verify (H := sha256_HashFn) demo_proof demo_root [4] = Ret None ∧
  ((0 ≤ Index demo_proof ∧ demo_items !! Z.to_nat (Index demo_proof) = Some [4]) ∨
   CollisionIn (.∈ verify_hashed (Index demo_proof) (Total demo_proof) [4] (reverse (Aunts demo_proof)))
     (hashed demo_items)).
Proof.
  split; [vm_compute; reflexivity|].
  apply (Proof_Verify_sound (H := sha256_HashFn) demo_items demo_root [4] demo_proof);
    vm_compute; reflexivity.
Defined.
