(* ===== verification/Wire.v ===== *)
(** * Times, Merkle proof messages and injective encodings

    Models [source/utils/time.go] and the messages of
    [source/crypto/merkle/proof.go]; the injectivity facts from which both block
    formats bind their content. *)

From stdpp Require Import base list gmap strings numbers.
From Stdlib Require Import ZArith Lia.
From S2P Require Import Prelude Convert BitVector Hash Merkle MerkleProofs MerkleGen.

(** A [time.Time] by its instant: Unix seconds and nanoseconds within the
    second.  The protobuf timestamp holds the same two numbers. *)
Record GoTime := { unix : Z; nsec : Z }.
Record PTimestamp := { Seconds : Z; Nanos : Z }.

Record PProof := { pTotal : Z; pIndex : Z; pLeafHash : bytes; pAunts : list bytes }.

(** ** Time *)
Definition ThirdPartyProtoTime (t : GoTime) : PTimestamp :=
  {| Seconds := int64 (unix t); Nanos := int32 (nsec t) |}.
(** [time.Unix] carries nanoseconds outside a second into the seconds; the
    location of a time does not change its instant.  A nil timestamp reads as
    zero. *)
Definition ThirdPartyUnmarshalTime (pt : option PTimestamp) : GoTime :=
  let s := match pt with Some p => Seconds p | None => 0 end in
  let n := match pt with Some p => Nanos p | None => 0 end in
  {| unix := s + n / 10 ^ 9; nsec := n mod 10 ^ 9 |}.

(** ** Merkle proof messages *)
Definition Proof_ToProto (p : MerkleProof) : PProof :=
  {| pTotal := Total p; pIndex := Index p; pLeafHash := sbytes (LeafHash p); pAunts := Aunts p |}.
(** An absent byte string is unmarshalled as nil. *)
Definition NewProofFromProto (p : PProof) : MerkleProof :=
  {| Total := pTotal p; Index := pIndex p;
     LeafHash := match pLeafHash p with [] => None | h => Some h end; Aunts := pAunts p |}.

(** ** Injective encodings *)

Lemma wrapS_inj w a b : 0 < w → - 2 ^ (w - 1) ≤ a < 2 ^ (w - 1) → - 2 ^ (w - 1) ≤ b < 2 ^ (w - 1) →
  wrapU w a = wrapU w b → a = b.
Proof.
  intros Hw Ha Hb E.
  by rewrite <- (wrapS_small w a), <- (wrapS_small w b), <- (wrapS_wrapU w a), <- (wrapS_wrapU w b), E.
Qed.

Lemma le_encode_inj n a b : 0 ≤ a < 256 ^ Z.of_nat n → 0 ≤ b < 256 ^ Z.of_nat n →
  le_encode n a = le_encode n b → a = b.
Proof.
  intros Ha Hb E. apply (f_equal le_decode) in E.
  by rewrite !le_decode_encode, !Z.mod_small in E.
Qed.

Lemma time_roundtrip t : - 2 ^ 63 ≤ unix t < 2 ^ 63 → 0 ≤ nsec t < 10 ^ 9 →
  ThirdPartyUnmarshalTime (Some (ThirdPartyProtoTime t)) = t.
Proof.
  intros Hu Hn. unfold ThirdPartyUnmarshalTime, ThirdPartyProtoTime. cbn [Seconds Nanos].
  rewrite !wrapS_small by lia. rewrite Z.div_small, Z.mod_small by lia.
  destruct t; simpl. f_equal; lia.
Qed.

Section Roots.
Context {H : HashFn}.

Lemma root_inj xs ys h :
  HashFromByteSlices xs = Ret h → HashFromByteSlices ys = Ret h →
  xs = ys ∨ CollisionIn (hashed xs) (hashed ys).
Proof.
  intros E1 E2. destruct (HashFromByteSlices_total xs) as (h1 & F1 & M1).
  destruct (HashFromByteSlices_total ys) as (h2 & F2 & M2).
  rewrite F1 in E1. rewrite F2 in E2. injection E1 as ->. injection E2 as ->.
  by apply (MTH_inj xs h).
Qed.

Lemma root_size items h : HashFromByteSlices items = Ret h → zlen h = HashSize.
Proof. destruct (HashFromByteSlices_total items) as (h' & -> & M). intros [= <-]. by apply MTH_length in M. Qed.

End Roots.
