(* ===== verification/RangeList.v ===== *)
(** * Range lists

    Models [source/utils/RangeList.go]: a set of half-open key ranges kept as
    the sorted list of their bounds, searched by bisection.  The list at even
    positions starts a range, at odd positions ends it. *)

From stdpp Require Import base list gmap strings numbers sorting.
From Stdlib Require Import ZArith Lia.
From S2P Require Import Prelude.

(** [lists] keeps the difference between nil and empty: [StartKey] and
    [EndKey] test for nil. *)
Record RangeList := { lists : option (list string) }.

Definition keys (r : RangeList) : list string := default [] (lists r).

Definition NewRangeList : RangeList := {| lists := None |}.

Definition redPlace (plc : Z) : bool := Z.rem plc 2 =? 0.
Definition nilRagne (r : RangeList) : bool := zlen (keys r) =? 0.
Definition get (r : RangeList) (plc : Z) : outcome string := idx (keys r) plc.
Definition stepThere (r : RangeList) (s : string) (plc : Z) : outcome bool :=
  if 0 <=? plc then x ← idx (keys r) plc; Ret (bool_decide (x = s)) else Ret false.

Definition goodPlace (r : RangeList) (s : string) (plc : Z) : outcome bool :=
  a ← (if plc =? -1 then Ret true else x ← idx (keys r) plc; Ret (str_leb x s));
  if negb a then Ret false
  else if plc =? zlen (keys r) - 1 then Ret true
  else y ← idx (keys r) (plc + 1); Ret (str_ltb s y).

(** The loop of [find]; Go's integer division truncates towards zero. *)
Fixpoint find_loop (fuel : nat) (r : RangeList) (s : string) (start end_ : Z) : outcome Z :=
  let plc := Z.quot (start + end_) 2 in
  good ← goodPlace r s plc;
  if good : bool then Ret plc
  else match fuel with
       | O => Panic
       | S fuel' =>
           x ← get r plc;
           if str_ltb s x then find_loop fuel' r s start (plc - 1)
           else find_loop fuel' r s (plc + 1) end_
       end.
Definition find (r : RangeList) (s : string) : outcome Z :=
  find_loop (S (length (keys r))) r s (-1) (zlen (keys r) - 1).

Definition leftRange (r : RangeList) (plc : Z) : outcome (list string) :=
  if plc =? -1 then Ret [] else slice_to (keys r) plc.
Definition rightRange (r : RangeList) (plc : Z) : outcome (list string) :=
  if plc =? zlen (keys r) - 1 then Ret [] else slice_from (keys r) (plc + 1).

Definition Search (r : RangeList) (p : string) : outcome bool :=
  plc ← find r p; Ret (redPlace plc).

Definition StartKey (r : RangeList) : outcome string :=
  match lists r with None => Ret EmptyString | Some l => idx l 0 end.
Definition EndKey (r : RangeList) : outcome string :=
  match lists r with None => Ret EmptyString | Some l => idx l (zlen l - 1) end.

(** [Range]: the list cut into pairs ([len/2] of them, a last odd key is
    dropped). *)
Fixpoint pairs (l : list string) : list (string * string) :=
  match l with
  | a :: b :: l' => (a, b) :: pairs l'
  | _ => []
  end.
Definition Range (r : RangeList) : list (string * string) := pairs (keys r).

(** The new bounds on the two sides of an added range. *)
Definition add_left (r : RangeList) (rangeLow : string) (pl : Z)
    : outcome (list string * string) :=
  if redPlace pl then
    plList ← leftRange r pl; x ← get r pl; Ret (plList, x)
  else
    there ← stepThere r rangeLow pl;
    if there : bool then
      plList ← leftRange r (pl - 1); x ← get r (pl - 1); Ret (plList, x)
    else
      plList ← leftRange r (pl + 1); Ret (plList, rangeLow).

Definition add_right (r : RangeList) (rangeHigh : string) (pr : Z)
    : outcome (list string * string) :=
  if redPlace pr then
    prList ← rightRange r (pr + 1); x ← get r (pr + 1); Ret (prList, x)
  else
    there ← stepThere r rangeHigh pr;
    if there : bool then
      prList ← rightRange r pr; x ← get r pr; Ret (prList, x)
    else
      prList ← rightRange r pr; Ret (prList, rangeHigh).

Definition AddRange (r : RangeList) (rangeLow rangeHigh : string) : outcome RangeList :=
  if str_leb rangeHigh rangeLow then Ret r
  else if nilRagne r then Ret {| lists := Some [rangeLow; rangeHigh] |}
  else
    pl ← find r rangeLow;
    pr ← find r rangeHigh;
    if (pr =? pl) && redPlace pl then Ret r
    else
      L ← add_left r rangeLow pl;
      R ← add_right r rangeHigh pr;
      Ret {| lists := Some (fst L ++ [snd L; snd R] ++ fst R) |}.

Definition del_left (r : RangeList) (rangeLow : string) (pl : Z)
    : outcome (list string * list string) :=
  if redPlace pl then
    there ← stepThere r rangeLow pl;
    if there : bool then plList ← leftRange r pl; Ret (plList, [])
    else plList ← leftRange r (pl + 1); Ret (plList, [rangeLow])
  else plList ← leftRange r (pl + 1); Ret (plList, []).

Definition del_right (r : RangeList) (rangeHigh : string) (pr : Z)
    : outcome (list string * list string) :=
  if redPlace pr then
    there ← stepThere r rangeHigh pr;
    if there : bool then prList ← rightRange r (pr - 1); Ret (prList, [])
    else prList ← rightRange r pr; Ret (prList, [rangeHigh])
  else prList ← rightRange r pr; Ret (prList, []).

Definition DeleteRange (r : RangeList) (rangeLow rangeHigh : string) : outcome RangeList :=
  if str_leb rangeHigh rangeLow then Ret r
  else if nilRagne r then Ret r
  else
    pl ← find r rangeLow;
    pr ← find r rangeHigh;
    if (pr =? pl) && negb (redPlace pl) then Ret r
    else
      L ← del_left r rangeLow pl;
      R ← del_right r rangeHigh pr;
      Ret {| lists := Some (fst L ++ (snd L ++ snd R) ++ fst R) |}.

(** [Add]: the ranges of the other store, in order ([Range] yields pairs). *)
Definition add_pairs (r : RangeList) (ps : list (string * string)) : outcome RangeList :=
  foldM (λ r rg, AddRange r (fst rg) (snd rg)) ps r.
Definition Add (r other : RangeList) : outcome RangeList := add_pairs r (Range other).

(** [strings.Split(s, sep)] for a separator of one byte, and
    [strings.Join(labels, ",")]. *)
Definition comma : Ascii.ascii := Ascii.ascii_of_nat 44.

Fixpoint split_on (sep : Ascii.ascii) (s : string) : list string :=
  match s with
  | EmptyString => [EmptyString]
  | String c s' =>
      if Ascii.eqb c sep then EmptyString :: split_on sep s'
      else match split_on sep s' with
           | [] => [String c EmptyString]
           | w :: ws => String c w :: ws
           end
  end.
Abbreviation split_comma := (split_on comma).
Fixpoint join_comma (l : list string) : string :=
  match l with
  | [] => EmptyString
  | [w] => w
  | w :: ws => String.append w (String comma (join_comma ws))
  end.

(** [String] and [NewRangeListFromString]; [None] is the nil pointer. *)
Definition RangeList_String (r : RangeList) : string :=
  join_comma (concat (map (λ rg, [fst rg; snd rg]) (Range r))).
Definition NewRangeListFromString (s : string) : outcome (option RangeList) :=
  let labels := split_comma s in
  if Z.rem (zlen labels) 2 =? 1 then Ret None
  else r ← add_pairs NewRangeList (pairs labels); Ret (Some r).

(** ** Invariant and meaning *)

(** The bounds increase strictly and come in pairs. *)
Definition inc (l : list string) : Prop := StronglySorted str_lt l.
Definition rl_wf (r : RangeList) : Prop := inc (keys r) ∧ Z.even (zlen (keys r)) = true.

(** The set a range list stands for. *)
Definition in_range (p lo hi : string) : bool := str_leb lo p && str_ltb p hi.
Definition member (r : RangeList) (p : string) : bool :=
  existsb (λ rg, in_range p (fst rg) (snd rg)) (Range r).

(** The number of bounds that are at most [p]. *)
Fixpoint rank (l : list string) (p : string) : Z :=
  match l with
  | [] => 0
  | k :: l' => (if str_leb k p then 1 else 0) + rank l' p
  end.

Lemma rank_app l1 l2 p : rank (l1 ++ l2) p = rank l1 p + rank l2 p.
Proof. induction l1 as [|k l1 IH]; simpl; [done|]. rewrite IH. lia. Qed.

Lemma rank_all l p : Forall (λ k, str_le k p) l → rank l p = zlen l.
Proof.
  induction 1 as [|k l Hk _ IH]; [done|]. apply str_leb_le in Hk.
  simpl. rewrite Hk, IH, zlen_cons. done.
Qed.

Lemma rank_none l p : Forall (λ k, str_lt p k) l → rank l p = 0.
Proof.
  induction 1 as [|k l Hk _ IH]; [done|]. apply str_leb_lt in Hk. simpl. by rewrite Hk, IH.
Qed.

(** A sorted list splits at a key: at most it, above it. *)
Lemma inc_split l s : inc l → ∃ l1 l2, l = l1 ++ l2 ∧
  Forall (λ k, str_le k s) l1 ∧ Forall (λ k, str_lt s k) l2.
Proof.
  induction 1 as [|k l Hl IH Hk]; [by exists [], []|].
  destruct (str_lt_or_le s k) as [Hlt|Hle].
  - exists [], (k :: l). split; [done|]. split; [done|]. constructor; [done|].
    eapply Forall_impl; [exact Hk|]. intros x Hx. by eapply str_lt_trans.
  - destruct IH as (l1 & l2 & -> & H1 & H2). exists (k :: l1), l2.
    split; [done|]. split; [by constructor|done].
Qed.

Lemma rank_split l1 l2 s :
  Forall (λ k, str_le k s) l1 → Forall (λ k, str_lt s k) l2 → rank (l1 ++ l2) s = zlen l1.
Proof. intros. rewrite rank_app, rank_all, rank_none by done. lia. Qed.

(** ** The bisection *)

Lemma goodPlace_spec r s l1 l2 plc :
  keys r = l1 ++ l2 → Forall (λ k, str_le k s) l1 → Forall (λ k, str_lt s k) l2 →
  -1 ≤ plc ≤ zlen (keys r) - 1 → goodPlace r s plc = Ret (plc =? zlen l1 - 1).
Proof.
  intros E H1 H2 Hp. unfold goodPlace. rewrite E, zlen_app in *.
  pose proof (zlen_nonneg l1). pose proof (zlen_nonneg l2).
  assert (∀ i, 0 ≤ i < zlen l1 → ∃ k, idx (l1 ++ l2) i = Ret k ∧ str_le k s) as Hlo.
  { intros i Hi. destruct (idx_in_range (l1 ++ l2) i) as (k & Ek & Lk); [rewrite zlen_app; lia|].
    exists k. split; [done|]. unfold zlen in Hi. rewrite lookup_app_l in Lk by lia.
    exact (Forall_lookup_1 (λ k, str_le k s) _ _ _ H1 Lk). }
  assert (∀ i, zlen l1 ≤ i < zlen l1 + zlen l2 → ∃ k, idx (l1 ++ l2) i = Ret k ∧ str_lt s k) as Hhi.
  { intros i Hi. destruct (idx_in_range (l1 ++ l2) i) as (k & Ek & Lk); [rewrite zlen_app; lia|].
    exists k. split; [done|]. unfold zlen in Hi. rewrite lookup_app_r in Lk by lia.
    exact (Forall_lookup_1 (λ k, str_lt s k) _ _ _ H2 Lk). }
  destruct (Z.lt_ge_cases plc (zlen l1)) as [Hlt|Hge].
  - assert ((if plc =? -1 then Ret true else x ← idx (l1 ++ l2) plc; Ret (str_leb x s)) = Ret true) as ->.
    { destruct (Z.eqb_spec plc (-1)); [done|].
      destruct (Hlo plc) as (k & -> & Hk); [lia|]. cbn. f_equal. by apply str_leb_le. }
    cbn [mbind outcome_bind negb]. destruct (Z.eqb_spec plc (zlen l1 + zlen l2 - 1)).
    { f_equal. symmetry. apply Z.eqb_eq. lia. }
    destruct (Z.eqb_spec plc (zlen l1 - 1)).
    + destruct (Hhi (plc + 1)) as (k & -> & Hk); [lia|]. cbn. by f_equal.
    + destruct (Hlo (plc + 1)) as (k & -> & Hk); [lia|]. cbn. by f_equal.
  - destruct (Z.eqb_spec plc (-1)); [lia|].
    destruct (Hhi plc) as (k & -> & Hk); [lia|]. cbn. apply str_leb_lt in Hk. rewrite Hk. cbn.
    f_equal. symmetry. apply Z.eqb_neq. lia.
Qed.

(** Division by two that truncates towards zero. *)
Lemma quot2_bounds n :
  n - 1 ≤ 2 * Z.quot n 2 ≤ n + 1 ∧ (n < 0 → n ≤ 2 * Z.quot n 2) ∧ (0 ≤ n → 2 * Z.quot n 2 ≤ n).
Proof.
  Z.to_euclidean_division_equations; lia.
Qed.

Lemma find_loop_spec r s l1 l2 fuel start end_ :
  keys r = l1 ++ l2 → Forall (λ k, str_le k s) l1 → Forall (λ k, str_lt s k) l2 →
  -1 ≤ start ≤ zlen l1 - 1 → zlen l1 - 1 ≤ end_ ≤ zlen (keys r) - 1 →
  (Z.to_nat (end_ - start) ≤ fuel)%nat →
  find_loop fuel r s start end_ = Ret (zlen l1 - 1).
Proof.
  intros E H1 H2. revert start end_.
  induction fuel as [|fuel IH]; intros start end_ Hs He Hf; cbn [find_loop];
    set (plc := Z.quot (start + end_) 2);
    assert (start ≤ plc ≤ end_ ∧ (plc = -1 → end_ = -1)) as [Hp Hm]
      by (unfold plc; pose proof (quot2_bounds (start + end_)); lia);
    rewrite (goodPlace_spec r s l1 l2) by (done || lia); cbn [mbind outcome_bind];
    destruct (Z.eqb_spec plc (zlen l1 - 1)) as [->|Hne]; try done; [lia|].
  destruct (idx_in_range (keys r) plc) as (k & Ek & Lk); [lia|].
  unfold get. rewrite Ek. cbn [mbind outcome_bind]. rewrite E in Lk.
  destruct (Z.lt_ge_cases plc (zlen l1)) as [Hlt|Hge]; unfold zlen in *.
  - rewrite lookup_app_l in Lk by lia. pose proof (Forall_lookup_1 _ _ _ _ H1 Lk) as Hk.
    simpl in Hk. rewrite Hk. apply IH; lia.
  - rewrite lookup_app_r in Lk by lia. pose proof (Forall_lookup_1 _ _ _ _ H2 Lk) as Hk.
    simpl in Hk. rewrite Hk. apply IH; lia.
Qed.

(** [find] terminates and returns the last position whose bound is at most
    the key ([-1] if there is none). *)
Lemma find_spec r s l1 l2 :
  keys r = l1 ++ l2 → Forall (λ k, str_le k s) l1 → Forall (λ k, str_lt s k) l2 →
  find r s = Ret (zlen l1 - 1).
Proof.
  intros E H1 H2. pose proof (zlen_nonneg l1). pose proof (zlen_nonneg l2).
  apply find_loop_spec with l2; try done; [lia| |]; rewrite E; unfold zlen in *; rewrite length_app; lia.
Qed.

Lemma redPlace_odd n : 0 ≤ n → redPlace (n - 1) = Z.odd n.
Proof.
  intros Hn. unfold redPlace. pose proof (Zmod_odd n) as Hm.
  destruct (Z.eq_dec n 0) as [->|]; [done|].
  rewrite Z.rem_mod_nonneg by lia.
  destruct (Z.odd n); [apply Z.eqb_eq|apply Z.eqb_neq];
    pose proof (Z.div_mod n 2); pose proof (Z.div_mod (n - 1) 2);
    pose proof (Z.mod_pos_bound (n - 1) 2); lia.
Qed.

Lemma Search_rank r p : inc (keys r) → Search r p = Ret (Z.odd (rank (keys r) p)).
Proof.
  intros Hi. destruct (inc_split _ p Hi) as (l1 & l2 & E & H1 & H2).
  unfold Search. rewrite (find_spec r p l1 l2 E H1 H2), E, rank_split by done.
  cbn. by rewrite redPlace_odd by apply zlen_nonneg.
Qed.

Lemma inc_cons_inv k l : inc (k :: l) → inc l ∧ Forall (str_lt k) l.
Proof. by inversion 1. Qed.

Lemma member_rank n l p : (length l ≤ n)%nat → inc l → Z.even (zlen l) = true →
  existsb (λ rg, in_range p (fst rg) (snd rg)) (pairs l) = Z.odd (rank l p).
Proof.
  revert l; induction n as [|n IH]; intros [|a [|b l]] Hn Hi Hl; try done; simpl in Hn; try lia.
  apply inc_cons_inv in Hi as [Hi Ha]. apply inc_cons_inv in Hi as [Hi Hb].
  assert (Z.even (zlen l) = true) as Hl'.
  { rewrite !zlen_cons, Z.add_assoc, Z.even_add in Hl. by destruct (Z.even (zlen l)). }
  cbn [pairs existsb fst snd rank]. rewrite IH by (done || lia). unfold in_range.
  apply Forall_cons_1 in Ha as [Hab Ha].
  destruct (str_leb a p) eqn:Eap; cbn [andb].
  - destruct (str_ltb p b) eqn:Epb; cbn [orb].
    + assert (str_leb b p = false) as -> by (by apply str_leb_lt).
      rewrite rank_none; [done|]. eapply Forall_impl; [exact Hb|].
      intros x Hx. by eapply str_lt_trans.
    + assert (str_leb b p = true) as -> by (by apply str_leb_le).
      rewrite Z.add_assoc, Z.odd_add. simpl. by destruct (Z.odd _).
  - apply str_leb_lt in Eap. assert (str_leb b p = false) as ->.
    { apply str_leb_lt. by eapply str_lt_trans. }
    done.
Qed.

Lemma Search_member_lemma r p : rl_wf r → Search r p = Ret (member r p).
Proof.
  intros [Hi He]. rewrite Search_rank by done. f_equal. symmetry.
  by eapply member_rank.
Qed.

(** ** Adding and deleting a range

    Both operations rebuild the list as [L ++ R], where [L] holds the bounds
    up to [low] and [R] those from [high] on.  [b] is the answer for the keys
    between. *)
Record left_ok (b : bool) (l : list string) (low : string) (L : list string) : Prop := {
  lo_inc : inc L;
  lo_le : Forall (λ k, str_le k low) L;
  lo_odd : Z.odd (zlen L) = b;
  lo_rank : ∀ p, str_lt p low → Z.odd (rank L p) = Z.odd (rank l p)
}.
Record right_ok (b : bool) (l : list string) (high : string) (R : list string) : Prop := {
  ro_inc : inc R;
  ro_ge : Forall (str_le high) R;
  ro_odd : xorb b (Z.odd (zlen R)) = Z.odd (zlen l);
  ro_rank : ∀ p, str_le high p → xorb b (Z.odd (rank R p)) = Z.odd (rank l p)
}.

Lemma glue b l low high L R :
  Z.even (zlen l) = true → str_lt low high → left_ok b l low L → right_ok b l high R →
  inc (L ++ R) ∧ Z.even (zlen (L ++ R)) = true ∧
  ∀ p, Z.odd (rank (L ++ R) p) = if in_range p low high then b else Z.odd (rank l p).
Proof.
  intros He Hlh [Li Ll Lo Lr] [Ri Rg Ro Rr]. split.
  { apply StronglySorted_app_2; [|done|done]. intros x y Hx Hy.
    rewrite Forall_forall in Ll, Rg. apply Ll in Hx. apply Rg in Hy.
    eapply str_le_lt_trans; [done|]. by eapply str_lt_le_trans. }
  split.
  { rewrite <- Z.negb_odd in He |- *. rewrite zlen_app, Z.odd_add, Lo, Ro. done. }
  intros p. rewrite rank_app, Z.odd_add. unfold in_range.
  destruct (str_leb low p) eqn:E1; cbn [andb].
  - apply str_leb_le in E1. rewrite (rank_all L).
    2:{ eapply Forall_impl; [exact Ll|]. intros x Hx. exact (str_le_trans _ _ _ Hx E1). }
    rewrite Lo. destruct (str_ltb p high) eqn:E2; [|by apply Rr].
    rewrite (rank_none R); [by destruct b|].
    eapply Forall_impl; [exact Rg|]. intros x Hx. by eapply str_lt_le_trans.
  - apply str_leb_lt in E1. rewrite (rank_none R), Lr by (done ||
      (eapply Forall_impl; [exact Rg|]; intros x Hx; eapply str_lt_trans; [done|];
       by eapply str_lt_le_trans)).
    by rewrite xorb_false_r.
Qed.

Lemma rank_below l p s : Forall (λ k, str_lt s k) l → str_lt p s → rank l p = 0.
Proof.
  intros Hl Hp. apply rank_none. eapply Forall_impl; [exact Hl|]. intros x Hx. by eapply str_lt_trans.
Qed.

Lemma split_strict l s :
  inc l → Forall (λ k, str_le k s) l → last l ≠ Some s → Forall (λ k, str_lt k s) l.
Proof.
  destruct l as [|x l _] using rev_ind; [done|]. intros Hi H1 Hl.
  rewrite last_snoc in Hl. apply Forall_app in H1 as [_ Hx]. apply Forall_cons_1 in Hx as [Hx _].
  apply str_le_lt_or in Hx as [Hx|Hx]; [|congruence].
  apply Forall_app. split; [|by apply Forall_singleton].
  apply Forall_forall. intros y Hy. eapply str_lt_trans; [|exact Hx].
  eapply StronglySorted_app_1_elem_of; [exact Hi|exact Hy|by apply list_elem_of_singleton].
Qed.

Section Split.
  Context (l1 l2 : list string) (s : string).
  Hypothesis (Hinc : inc (l1 ++ l2)).
  Hypothesis (H1 : Forall (λ k, str_le k s) l1).
  Hypothesis (H2 : Forall (λ k, str_lt s k) l2).

Lemma left_ok_base : left_ok (Z.odd (zlen l1)) (l1 ++ l2) s l1.
  Proof using Hinc H1 H2.
    split; [by eapply StronglySorted_app_1_l|done|done|].
    intros p Hp. rewrite rank_app, (rank_below l2 p s) by done. by rewrite Z.add_0_r.
  Qed.

Lemma left_ok_drop l1' : l1 = l1' ++ [s] → left_ok (negb (Z.odd (zlen l1))) (l1 ++ l2) s l1'.
  Proof using Hinc H1 H2.
    intros El. destruct left_ok_base as [Li Ll _ Lr]. subst l1.
    apply StronglySorted_app_1_l in Li. apply Forall_app in Ll as [Ll _].
    split; [done|done| |].
    - rewrite zlen_app, Z.odd_add. by destruct (Z.odd _).
    - intros p Hp. rewrite <- Lr, rank_app by done. simpl. apply str_leb_lt in Hp.
      by rewrite Hp, Z.add_0_r.
  Qed.

Lemma left_ok_snoc :
    last l1 ≠ Some s → left_ok (negb (Z.odd (zlen l1))) (l1 ++ l2) s (l1 ++ [s]).
  Proof using Hinc H1 H2.
    intros Hl. destruct left_ok_base as [Li Ll _ Lr]. apply split_strict in Hl; [|done|done]. split.
    - apply StronglySorted_app_2; [|done|by repeat constructor].
      intros x y Hx ->%list_elem_of_singleton. rewrite Forall_forall in Hl. by apply Hl.
    - apply Forall_app. split; [done|]. apply Forall_singleton, str_le_refl.
    - rewrite zlen_app, Z.odd_add. by destruct (Z.odd _).
    - intros p Hp. rewrite rank_app, <- Lr by done. simpl. apply str_leb_lt in Hp.
      by rewrite Hp, Z.add_0_r.
  Qed.

Lemma rank_above p : str_le s p → rank l1 p = zlen l1.
  Proof using H1.
    intros Hp. apply rank_all. eapply Forall_impl; [exact H1|]. intros x Hx. exact (str_le_trans _ _ _ Hx Hp).
  Qed.

Lemma right_ok_base : right_ok (Z.odd (zlen l1)) (l1 ++ l2) s l2.
  Proof using Hinc H1 H2.
    split; [by eapply StronglySorted_app_1_r| | |].
    - eapply Forall_impl; [exact H2|]. intros x. apply str_lt_le.
    - by rewrite zlen_app, Z.odd_add.
    - intros p Hp. by rewrite rank_app, Z.odd_add, rank_above.
  Qed.

Lemma right_ok_cons : right_ok (negb (Z.odd (zlen l1))) (l1 ++ l2) s (s :: l2).
  Proof using Hinc H1 H2.
    destruct right_ok_base as [Ri Rg Ro Rr]. split.
    - by constructor.
    - constructor; [apply str_le_refl|done].
    - rewrite zlen_cons, Z.odd_add, <- Ro. by destruct (Z.odd _), (Z.odd _).
    - intros p Hp. rewrite <- Rr by done. simpl. apply str_leb_le in Hp. rewrite Hp, Z.odd_add.
      change (Z.odd 1) with true. by destruct (Z.odd (zlen l1)), (Z.odd (rank l2 p)).
  Qed.
End Split.

(** *** Slicing at a split *)

Lemma leftRange_app r l1 l2 : keys r = l1 ++ l2 → leftRange r (zlen l1) = Ret l1.
Proof.
  intros E. pose proof (zlen_nonneg l1). pose proof (zlen_nonneg l2). unfold leftRange.
  destruct (Z.eqb_spec (zlen l1) (-1)); [lia|].
  rewrite E, slice_to_in_range by (rewrite zlen_app; lia). unfold zlen. by rewrite Nat2Z.id, take_app_length.
Qed.

Lemma rightRange_app r l1 l2 : keys r = l1 ++ l2 → rightRange r (zlen l1 - 1) = Ret l2.
Proof.
  intros E. pose proof (zlen_nonneg l1). pose proof (zlen_nonneg l2). unfold rightRange.
  rewrite E, zlen_app. destruct (Z.eqb_spec (zlen l1 - 1) (zlen l1 + zlen l2 - 1)).
  - by rewrite (zlen_nil_inv l2) by lia.
  - rewrite slice_from_in_range by (rewrite zlen_app; lia).
    replace (zlen l1 - 1 + 1) with (zlen l1) by lia. unfold zlen. by rewrite Nat2Z.id, drop_app_length.
Qed.

Lemma get_app r l1 x l2 : keys r = l1 ++ x :: l2 → get r (zlen l1) = Ret x.
Proof. intros E. unfold get. rewrite E. apply idx_app_mid. Qed.

Lemma zlen_snoc {A} (l : list A) x : zlen (l ++ [x]) - 1 = zlen l.
Proof. rewrite zlen_app. unfold zlen. simpl. lia. Qed.

Lemma stepThere_app r s l1 l2 :
  keys r = l1 ++ l2 → stepThere r s (zlen l1 - 1) = Ret (bool_decide (last l1 = Some s)).
Proof.
  intros E. unfold stepThere. rewrite E. destruct l1 as [|x l1 _] using rev_ind; [done|].
  rewrite zlen_snoc, last_snoc, <- app_assoc. cbn [app].
  destruct (Z.leb_spec 0 (zlen l1)); [|pose proof (zlen_nonneg l1); lia].
  rewrite idx_app_mid. cbn. f_equal. apply bool_decide_ext. split; [by intros ->|by intros [= ->]].
Qed.

(** *** The four side computations *)

Section Sides.
  Context (r : RangeList) (l1 l2 : list string) (s : string).
  Hypothesis (E : keys r = l1 ++ l2).
  Hypothesis (Hwf : rl_wf r).
  Hypothesis (H1 : Forall (λ k, str_le k s) l1).
  Hypothesis (H2 : Forall (λ k, str_lt s k) l2).

#[local] Lemma Hinc : inc (l1 ++ l2).
  Proof using E Hwf. rewrite <- E. apply Hwf. Qed.

#[local] Lemma red : redPlace (zlen l1 - 1) = Z.odd (zlen l1).
  Proof using Type. apply redPlace_odd, zlen_nonneg. Qed.

Lemma add_left_spec :
    ∃ L x, add_left r s (zlen l1 - 1) = Ret (L, x) ∧ left_ok true (keys r) s (L ++ [x]).
  Proof using E Hwf H1 H2.
    pose proof Hinc as Hi.
    unfold add_left. rewrite red, E. destruct (Z.odd (zlen l1)) eqn:Eo.
    - pose proof (left_ok_base _ _ _ Hi H1 H2) as Hok. rewrite Eo in Hok.
      destruct l1 as [|x l _] using rev_ind; [done|].
      rewrite zlen_snoc, (leftRange_app r l ([x] ++ l2)) by (by rewrite E, <- app_assoc).
      cbn [mbind outcome_bind]. rewrite (get_app r l x l2) by (by rewrite E, <- app_assoc).
      by exists l, x.
    - rewrite (stepThere_app r s l1 l2) by done. cbn [mbind outcome_bind]. case_bool_decide as Hl.
      + apply last_Some in Hl as [l' ->].
        pose proof (left_ok_drop _ _ _ Hi H1 H2 l' eq_refl) as Hok. rewrite Eo in Hok.
        destruct l' as [|x l _] using rev_ind; [done|].
        rewrite !zlen_snoc, (leftRange_app r l ([x] ++ [s] ++ l2)) by (by rewrite E, <- !app_assoc).
        cbn [mbind outcome_bind].
        rewrite (get_app r l x ([s] ++ l2)) by (by rewrite E, <- !app_assoc). by exists l, x.
      + replace (zlen l1 - 1 + 1) with (zlen l1) by lia. rewrite (leftRange_app r l1 l2) by done.
        pose proof (left_ok_snoc _ _ _ Hi H1 H2 Hl) as Hok. rewrite Eo in Hok. by exists l1, s.
  Qed.

Lemma add_right_spec :
    ∃ R y, add_right r s (zlen l1 - 1) = Ret (R, y) ∧ right_ok true (keys r) s (y :: R).
  Proof using E Hwf H1 H2.
    pose proof Hinc as Hi.
    unfold add_right. rewrite red, E. destruct (Z.odd (zlen l1)) eqn:Eo.
    - pose proof (right_ok_base _ _ _ Hi H1 H2) as Hok. rewrite Eo in Hok.
      destruct l2 as [|y l]; [exfalso|].
      { destruct Hwf as [_ He]. rewrite E, app_nil_r, <- Z.negb_odd, Eo in He. done. }
      replace (zlen l1 - 1 + 1) with (zlen (l1 ++ [y]) - 1) by (rewrite zlen_snoc; lia).
      rewrite (rightRange_app r (l1 ++ [y]) l) by (by rewrite E, <- app_assoc).
      cbn [mbind outcome_bind]. rewrite zlen_snoc, (get_app r l1 y l) by done. by exists l, y.
    - pose proof (right_ok_cons _ _ _ Hi H1 H2) as Hok. rewrite Eo in Hok.
      rewrite (stepThere_app r s l1 l2), (rightRange_app r l1 l2) by done.
      cbn [mbind outcome_bind]. case_bool_decide as Hl; [|by exists l2, s].
      apply last_Some in Hl as [l' ->].
      rewrite zlen_snoc, (get_app r l' s l2) by (by rewrite E, <- app_assoc). by exists l2, s.
  Qed.

Lemma del_left_spec :
    ∃ L m, del_left r s (zlen l1 - 1) = Ret (L, m) ∧ left_ok false (keys r) s (L ++ m).
  Proof using E Hwf H1 H2.
    pose proof Hinc as Hi.
    unfold del_left. rewrite red, E. replace (zlen l1 - 1 + 1) with (zlen l1) by lia.
    rewrite (leftRange_app r l1 l2) by done. destruct (Z.odd (zlen l1)) eqn:Eo.
    - rewrite (stepThere_app r s l1 l2) by done. cbn [mbind outcome_bind]. case_bool_decide as Hl.
      + apply last_Some in Hl as [l' ->].
        pose proof (left_ok_drop _ _ _ Hi H1 H2 l' eq_refl) as Hok. rewrite Eo in Hok.
        rewrite zlen_snoc, (leftRange_app r l' ([s] ++ l2)) by (by rewrite E, <- app_assoc).
        exists l', []. by rewrite app_nil_r.
      + pose proof (left_ok_snoc _ _ _ Hi H1 H2 Hl) as Hok. rewrite Eo in Hok. by exists l1, [s].
    - pose proof (left_ok_base _ _ _ Hi H1 H2) as Hok. rewrite Eo in Hok.
      exists l1, []. by rewrite app_nil_r.
  Qed.

Lemma del_right_spec :
    ∃ R m, del_right r s (zlen l1 - 1) = Ret (R, m) ∧ right_ok false (keys r) s (m ++ R).
  Proof using E Hwf H1 H2.
    pose proof Hinc as Hi.
    unfold del_right. rewrite red, (rightRange_app r l1 l2) by done.
    rewrite E. destruct (Z.odd (zlen l1)) eqn:Eo.
    - pose proof (right_ok_cons _ _ _ Hi H1 H2) as Hok. rewrite Eo in Hok.
      rewrite (stepThere_app r s l1 l2) by done.
      cbn [mbind outcome_bind]. case_bool_decide as Hl; [|by exists l2, [s]].
      apply last_Some in Hl as [l' ->].
      rewrite zlen_snoc, (rightRange_app r l' ([s] ++ l2)) by (by rewrite E, <- app_assoc).
      by exists (s :: l2), [].
    - pose proof (right_ok_base _ _ _ Hi H1 H2) as Hok. rewrite Eo in Hok. by exists l2, [].
  Qed.
End Sides.

Lemma member_odd r p : rl_wf r → member r p = Z.odd (rank (keys r) p).
Proof. intros [Hi He]. by eapply member_rank. Qed.

(** Keys with the same place are between the same bounds. *)
Lemma same_place_rank l1 l2 k1 k2 low high p :
  l1 ++ l2 = k1 ++ k2 → zlen l1 = zlen k1 →
  Forall (λ k, str_le k low) l1 → Forall (λ k, str_lt high k) k2 →
  in_range p low high = true → rank (l1 ++ l2) p = zlen l1.
Proof.
  intros E Hz H1 H2 Hp. apply app_inj_1 in E as [<- <-]; [|unfold zlen in Hz; lia].
  unfold in_range in Hp. bool_to_prop. apply rank_split.
  - eapply Forall_impl; [exact H1|]. intros x Hx. eapply str_le_trans; [exact Hx|].
    by apply str_leb_le.
  - eapply Forall_impl; [exact H2|]. intros x Hx. by eapply str_lt_trans.
Qed.

Lemma nilRagne_keys r : nilRagne r = true → keys r = [].
Proof. intros H%Z.eqb_eq. by apply zlen_nil_inv. Qed.

(** [AddRange] keeps the invariant and adds exactly the keys of the range. *)
Lemma AddRange_spec r low high : rl_wf r → ∃ r', AddRange r low high = Ret r' ∧ rl_wf r' ∧
  ∀ p, member r' p = member r p || in_range p low high.
Proof.
  intros Hwf. unfold AddRange. destruct (str_leb high low) eqn:Elh.
  { apply str_leb_le in Elh. exists r. split_and!; try done. intros p. unfold in_range.
    destruct (str_leb low p) eqn:E1; [|by rewrite orb_false_r]. apply str_leb_le in E1.
    rewrite (str_le_trans _ _ _ Elh E1 : str_ltb p high = false). by rewrite orb_false_r. }
  apply str_leb_lt in Elh. destruct (nilRagne r) eqn:En.
  { apply nilRagne_keys in En. eexists. split; [done|]. split.
    - split; [|done]. by repeat constructor.
    - intros p. unfold member, Range. rewrite En. simpl. by rewrite orb_false_r. }
  destruct (inc_split _ low (proj1 Hwf)) as (l1 & l2 & El & Hl1 & Hl2).
  destruct (inc_split _ high (proj1 Hwf)) as (k1 & k2 & Ek & Hk1 & Hk2).
  rewrite (find_spec r low l1 l2), (find_spec r high k1 k2) by done. cbn [mbind outcome_bind].
  rewrite redPlace_odd by apply zlen_nonneg.
  destruct (_ && _) eqn:Eb.
  { bool_to_prop. exists r. split_and!; try done. intros p.
    destruct (in_range p low high) eqn:Ep; [|by rewrite orb_false_r].
    rewrite member_odd, El by done.
    rewrite (same_place_rank l1 l2 k1 k2 low high p); try done; [|congruence|lia].
    by destruct (Z.odd (zlen l1)). }
  destruct (add_left_spec r l1 l2 low El Hwf Hl1 Hl2) as (L & x & -> & HL).
  destruct (add_right_spec r k1 k2 high Ek Hwf Hk1 Hk2) as (R & y & -> & HR).
  cbn [mbind outcome_bind fst snd]. eexists. split; [done|].
  destruct (glue true (keys r) low high _ _ (proj2 Hwf) Elh HL HR) as (Hi & He & Hr).
  rewrite <- app_assoc in Hi, He. split; [done|].
  intros p. rewrite !member_odd by done. specialize (Hr p). rewrite <- app_assoc in Hr.
  etrans; [exact Hr|].
  destruct (in_range p low high); by rewrite ?orb_true_r, ?orb_false_r.
Qed.

Lemma DeleteRange_spec r low high : rl_wf r → ∃ r', DeleteRange r low high = Ret r' ∧ rl_wf r' ∧
  ∀ p, member r' p = member r p && negb (in_range p low high).
Proof.
  intros Hwf. unfold DeleteRange. destruct (str_leb high low) eqn:Elh.
  { apply str_leb_le in Elh. exists r. split_and!; try done. intros p. unfold in_range.
    destruct (str_leb low p) eqn:E1; [|by rewrite andb_true_r]. apply str_leb_le in E1.
    rewrite (str_le_trans _ _ _ Elh E1 : str_ltb p high = false). by rewrite andb_true_r. }
  apply str_leb_lt in Elh. destruct (nilRagne r) eqn:En.
  { apply nilRagne_keys in En. exists r. split_and!; try done.
    intros p. unfold member, Range. by rewrite En. }
  destruct (inc_split _ low (proj1 Hwf)) as (l1 & l2 & El & Hl1 & Hl2).
  destruct (inc_split _ high (proj1 Hwf)) as (k1 & k2 & Ek & Hk1 & Hk2).
  rewrite (find_spec r low l1 l2), (find_spec r high k1 k2) by done. cbn [mbind outcome_bind].
  rewrite redPlace_odd by apply zlen_nonneg.
  destruct (_ && _) eqn:Eb.
  { bool_to_prop. exists r. split_and!; try done. intros p.
    destruct (in_range p low high) eqn:Ep; [|by rewrite andb_true_r].
    rewrite member_odd, El by done.
    rewrite (same_place_rank l1 l2 k1 k2 low high p); try done; [|congruence|lia].
    by destruct (Z.odd (zlen l1)). }
  destruct (del_left_spec r l1 l2 low El Hwf Hl1 Hl2) as (L & x & -> & HL).
  destruct (del_right_spec r k1 k2 high Ek Hwf Hk1 Hk2) as (R & y & -> & HR).
  cbn [mbind outcome_bind fst snd]. eexists. split; [done|].
  destruct (glue false (keys r) low high _ _ (proj2 Hwf) Elh HL HR) as (Hi & He & Hr).
  replace ((L ++ x) ++ y ++ R) with (L ++ (x ++ y) ++ R) in * by (by rewrite <- !app_assoc).
  split; [done|]. intros p. rewrite !member_odd by done. specialize (Hr p).
  etrans; [exact Hr|].
  destruct (in_range p low high); by rewrite ?andb_true_r, ?andb_false_r.
Qed.

(** C37. Bisection terminates and answers membership, for every well-formed range
    list and key; adding a range keeps the list well formed and the set
    becomes the union with the range; deleting one keeps it well formed and
    the set becomes the difference. *)
Theorem RangeList_refines_set (r : RangeList) (low high : string) (Hwf : rl_wf r) :
  (∀ p, Search r p = Ret (member r p)) ∧
  (∃ r', AddRange r low high = Ret r' ∧ rl_wf r' ∧
     ∀ p, Search r' p = Ret (member r p || in_range p low high)) ∧
  (∃ r', DeleteRange r low high = Ret r' ∧ rl_wf r' ∧
     ∀ p, Search r' p = Ret (member r p && negb (in_range p low high))).
Proof.
  split; [intros p; by apply Search_member_lemma|]. split.
  - destruct (AddRange_spec r low high Hwf) as (r' & E & Hr' & Hm). exists r'.
    split; [done|]. split; [done|]. intros p. by rewrite Search_member_lemma, Hm.
  - destruct (DeleteRange_spec r low high Hwf) as (r' & E & Hr' & Hm). exists r'.
    split; [done|]. split; [done|]. intros p. by rewrite Search_member_lemma, Hm.
Qed.

Definition demo_ranges : RangeList := {| lists := Some ["b"; "d"; "f"; "k"] |}.

Lemma demo_ranges_wf : rl_wf demo_ranges.
Proof. split; [|done]. by repeat constructor. Qed.

Lemma RangeList_refines_set_witness :
  AddRange demo_ranges "c" "f" = Ret {| lists := Some ["b"; "k"] |} ∧
  (∀ p, Search demo_ranges p = Ret (member demo_ranges p)).
Proof.
  split; [vm_compute; reflexivity|].
  exact (proj1 (RangeList_refines_set demo_ranges "c" "f" demo_ranges_wf)).
Defined.

(** ** Union of range lists *)

Lemma add_pairs_spec ps : ∀ r, rl_wf r → ∃ r', add_pairs r ps = Ret r' ∧ rl_wf r' ∧
  ∀ p, member r' p = member r p || existsb (λ rg, in_range p (fst rg) (snd rg)) ps.
Proof.
  induction ps as [|[lo hi] ps IH]; intros r Hwf.
  - exists r. split_and!; try done. intros p. by rewrite orb_false_r.
  - destruct (AddRange_spec r lo hi Hwf) as (r1 & E1 & Hwf1 & Hm1).
    destruct (IH r1 Hwf1) as (r' & E' & Hwf' & Hm'). exists r'.
    unfold add_pairs in *. cbn [foldM fst snd]. rewrite E1. split_and!; try done.
    intros p. rewrite Hm', Hm1. cbn [existsb fst snd]. by rewrite orb_assoc.
Qed.

(** Adding ranges never leaves an empty list behind: the start key can be read. *)
Lemma AddRange_nonempty r low high r' : AddRange r low high = Ret r' → lists r ≠ Some [] → lists r' ≠ Some [].
Proof.
  unfold AddRange. destruct (str_leb high low); [by intros [= <-]|]. destruct (nilRagne r); [by intros [= <-]|].
  intros (pl & _ & (pr & _ & E)%outcome_bind_Ret)%outcome_bind_Ret Hr. destruct (_ && _); [by injection E as <-|].
  apply outcome_bind_Ret in E as (L & _ & (R & _ & [= <-])%outcome_bind_Ret). cbn. by destruct (fst L).
Qed.
Lemma add_pairs_nonempty ps : ∀ r r', add_pairs r ps = Ret r' → lists r ≠ Some [] → lists r' ≠ Some [].
Proof.
  unfold add_pairs. induction ps as [|rg ps IH]; intros r r'; cbn [foldM]; [by intros [= <-]|].
  destruct (AddRange r (fst rg) (snd rg)) as [r1|] eqn:E; [|done]. intros Hf Hr. eapply IH; [exact Hf|]. by eapply AddRange_nonempty.
Qed.
(** A text with an even number of labels is a range list with a start key; any
    other text is the nil pointer. *)
Definition readable (s : string) : bool := Z.even (zlen (split_comma s)).
Lemma NewRangeListFromString_readable s :
  if readable s then ∃ r k, NewRangeListFromString s = Ret (Some r) ∧ rl_wf r ∧ StartKey r = Ret k
  else NewRangeListFromString s = Ret None.
Proof.
  unfold readable, NewRangeListFromString. rewrite Z.rem_mod_nonneg by (lia || apply zlen_nonneg).
  rewrite Zmod_odd, <- Z.negb_even. destruct (Z.even _); cbn [negb Z.eqb]; [|done].
  destruct (add_pairs_spec (pairs (split_comma s)) NewRangeList) as (r & E & Hwf & _); [split; [constructor|done]|].
  rewrite E. cbn [mbind outcome_bind]. apply add_pairs_nonempty in E; [|done]. exists r.
  unfold StartKey. destruct (lists r) as [[|k l]|] eqn:El; [done| |].
  - exists k. by split_and!.
  - exists EmptyString. by split_and!.
Qed.

(** [Add] computes the union of two stores, of any content. *)
Theorem RangeList_Add_union (r other : RangeList) (Hwf : rl_wf r) :
  ∃ r', Add r other = Ret r' ∧ rl_wf r' ∧
    ∀ p, Search r' p = Ret (member r p || member other p).
Proof.
  destruct (add_pairs_spec (Range other) r Hwf) as (r' & E & Hwf' & Hm).
  exists r'. split; [done|]. split; [done|]. intros p. by rewrite Search_member_lemma, Hm.
Qed.

Lemma RangeList_Add_union_witness : ∃ r', Add NewRangeList demo_ranges = Ret r' ∧ rl_wf r' ∧
  ∀ p, Search r' p = Ret (member NewRangeList p || member demo_ranges p).
Proof. apply RangeList_Add_union. split; [constructor|reflexivity]. Defined.

(** ** Text round trip *)

Fixpoint comma_free (s : string) : bool :=
  match s with
  | EmptyString => true
  | String c s' => negb (Ascii.eqb c comma) && comma_free s'
  end.

Lemma split_comma_free w : comma_free w = true → split_comma w = [w].
Proof.
  induction w as [|c w IH]; simpl; [done|]. intros [Hc Hw]%andb_true_iff.
  apply negb_true_iff in Hc. by rewrite Hc, IH.
Qed.

Lemma split_comma_app w s : comma_free w = true →
  split_comma (String.append w (String comma s)) = w :: split_comma s.
Proof.
  induction w as [|c w IH]; simpl; [done|].
  intros [Hc Hw]%andb_true_iff. apply negb_true_iff in Hc. by rewrite Hc, IH.
Qed.

Lemma split_join l : l ≠ [] → Forall (λ w, comma_free w = true) l → split_comma (join_comma l) = l.
Proof.
  intros Hne. induction 1 as [|w l Hw Hl IH]; [done|].
  destruct l as [|w' l]; [by apply split_comma_free|].
  change (join_comma (w :: w' :: l)) with (String.append w (String comma (join_comma (w' :: l)))).
  by rewrite split_comma_app, IH.
Qed.

Lemma concat_pairs n l : (length l ≤ n)%nat → Z.even (zlen l) = true →
  concat (map (λ rg, [fst rg; snd rg]) (pairs l)) = l.
Proof.
  revert l; induction n as [|n IH]; intros [|a [|b l]] Hn Hl; try done; simpl in Hn; try lia.
  cbn [pairs map concat fst snd app]. rewrite IH; [done|lia|].
  rewrite !zlen_cons, Z.add_assoc, Z.even_add in Hl. by destruct (Z.even (zlen l)).
Qed.

(** Adding a range above all bounds appends it. *)
Lemma AddRange_append l a b :
  inc (l ++ [a; b]) → Z.even (zlen l) = true →
  AddRange {| lists := Some l |} a b = Ret {| lists := Some (l ++ [a; b]) |}.
Proof.
  intros Hi He. apply StronglySorted_app in Hi as (Hx & Hil & Hab).
  assert (str_lt a b) as Hlt by (inversion Hab as [|??? Hf]; by inversion Hf).
  assert (∀ s, s ∈ [a; b] → Forall (λ k, str_lt k s) l) as Hbelow.
  { intros s Hs. apply Forall_forall. intros k Hk. by apply Hx. }
  unfold AddRange. rewrite (proj2 (str_leb_lt b a) Hlt).
  destruct (nilRagne _) eqn:En; [by apply nilRagne_keys in En; cbn in En; subst l|].
  set (r := {| lists := Some l |}). assert (keys r = l ++ []) as E by by rewrite app_nil_r.
  assert (∀ s, s ∈ [a; b] → find r s = Ret (zlen l - 1)) as Hfind.
  { intros s Hs. apply (find_spec r s l []); [done| |constructor].
    eapply Forall_impl; [apply Hbelow, Hs|]. intros ?. apply str_lt_le. }
  rewrite !Hfind by set_solver.
  cbn [mbind outcome_bind]. unfold add_left, add_right.
  rewrite redPlace_odd, <- Z.negb_even, He, andb_false_r by apply zlen_nonneg.
  cbn [negb]. rewrite !(stepThere_app r _ l []) by done. cbn [mbind outcome_bind].
  assert (∀ s, s ∈ [a; b] → bool_decide (last l = Some s) = false) as Hlast.
  { intros s Hs. apply bool_decide_eq_false. intros [l' ->]%last_Some.
    apply (str_lt_irrefl s), Hx; [|done]. apply elem_of_app. right. by apply list_elem_of_singleton. }
  rewrite !Hlast by set_solver. replace (zlen l - 1 + 1) with (zlen l) by lia.
  rewrite (leftRange_app r l []), (rightRange_app r l []) by done. done.
Qed.

Lemma add_pairs_sorted n l : ∀ l0, (length l ≤ n)%nat → inc (l0 ++ l) →
  Z.even (zlen l0) = true → Z.even (zlen l) = true →
  add_pairs {| lists := Some l0 |} (pairs l) = Ret {| lists := Some (l0 ++ l) |}.
Proof.
  revert l; induction n as [|n IH]; intros [|a [|b l]] l0 Hn Hi H0 Hl; try done; simpl in Hn; try lia;
    [by rewrite app_nil_r..|].
  unfold add_pairs in *. cbn [pairs foldM fst snd].
  change (a :: b :: l) with ([a; b] ++ l) in Hi. rewrite app_assoc in Hi.
  rewrite AddRange_append; [|by eapply StronglySorted_app_1_l|done].
  rewrite !zlen_cons, Z.add_assoc, Z.even_add in Hl.
  rewrite IH; [by rewrite <- app_assoc|lia|done| |by destruct (Z.even (zlen l))].
  rewrite zlen_app, Z.even_add, H0. done.
Qed.

(** A non-empty well-formed range list whose bounds hold no comma is read back
    from its text. *)
Theorem RangeList_String_roundtrip (r : RangeList)
    (Hwf : rl_wf r) (Hne : keys r ≠ [])
    (Hfree : Forall (λ w, comma_free w = true) (keys r)) :
  NewRangeListFromString (RangeList_String r) = Ret (Some {| lists := Some (keys r) |}).
Proof.
  destruct Hwf as [Hi He]. unfold NewRangeListFromString, RangeList_String, Range.
  rewrite (concat_pairs (length (keys r))), split_join by done.
  rewrite Z.rem_mod_nonneg by (lia || apply zlen_nonneg).
  rewrite Zmod_odd, <- Z.negb_even, He. cbn [negb Z.eqb].
  destruct (keys r) as [|a [|b l]] eqn:Ek; [done|done|].
  unfold add_pairs. cbn [pairs foldM fst snd]. unfold NewRangeList at 1, AddRange at 1.
  apply inc_cons_inv in Hi as Hi'. destruct Hi' as [_ Hab]. apply Forall_cons_1 in Hab as [Hab _].
  rewrite (proj2 (str_leb_lt b a) Hab). cbn [nilRagne keys lists default].
  change (nilRagne {| lists := None |}) with true. cbn iota.
  pose proof (add_pairs_sorted (length l) l [a; b] (le_n _) Hi eq_refl) as Hp.
  unfold add_pairs in Hp. rewrite Hp; [done|].
  rewrite !zlen_cons, Z.add_assoc, Z.even_add in He. by destruct (Z.even (zlen l)).
Qed.

Lemma RangeList_String_roundtrip_witness :
  NewRangeListFromString (RangeList_String demo_ranges) = Ret (Some demo_ranges).
Proof.
  apply (RangeList_String_roundtrip demo_ranges demo_ranges_wf); [discriminate|].
  repeat constructor.
Defined.

(** Deleting every range leaves an empty slice that is not nil, on which
    [StartKey] and [EndKey] index out of range; on the nil slice of a new
    list they return the empty string. *)
Theorem RangeList_StartKey_after_delete :
  StartKey NewRangeList = Ret EmptyString ∧ EndKey NewRangeList = Ret EmptyString ∧
  ∃ r, DeleteRange demo_ranges "a" "z" = Ret r ∧ StartKey r = Panic ∧ EndKey r = Panic.
Proof. split; [done|]. split; [done|]. eexists. by vm_compute. Qed.
