(* ===== verification/RangeTree.v ===== *)
(** * Range trees

    Models [source/utils/RangeTree.go]: a set of half-open key ranges kept as
    a binary tree.  A leaf stands for the whole interval of its position; the
    left child of a node ends at its [Ukey], the right child starts at its
    [Ukey], and what lies between the two is not in the set.  Nodes are owned
    by one parent, so the tree is a value. *)

From stdpp Require Import base list gmap strings numbers.
From Stdlib Require Import ZArith Lia Orders OrdersTac.
From S2P Require Import Prelude RangeList.

(** ** Nodes *)

(** A node without left child is a leaf. *)
Inductive RangeTreeNode :=
| Leaf (ukey : string) (d : Z)
| Node (ukey : string) (LeftChild RightChild : RangeTreeNode) (d : Z).

Definition Ukey (t : RangeTreeNode) : string := match t with Leaf u _ | Node u _ _ _ => u end.
Definition depth (t : RangeTreeNode) : Z := match t with Leaf _ d | Node _ _ _ d => d end.
Definition set_Ukey (t : RangeTreeNode) (u : string) : RangeTreeNode :=
  match t with Leaf _ d => Leaf u d | Node _ l r d => Node u l r d end.
Definition IsLeaf (t : RangeTreeNode) : bool := match t with Leaf _ _ => true | Node _ _ _ _ => false end.
Definition NewRangeTreeLeaf (ukey : string) : RangeTreeNode := Leaf ukey 0.

Definition strInRange (s u v : string) : bool := str_leb u s && str_leb s v.
Definition strInRangeRightOpen (s u v : string) : bool := str_leb u s && str_ltb s v.

Fixpoint Node_Search (t : RangeTreeNode) (p low high : string) : bool :=
  match t with
  | Leaf _ _ => strInRangeRightOpen p low high
  | Node _ l r _ =>
      if str_ltb p (Ukey l) then Node_Search l p low (Ukey l)
      else if str_leb (Ukey r) p then Node_Search r p (Ukey r) high
      else false
  end.
Fixpoint Node_Range (t : RangeTreeNode) (outputList : list (string * string)) (start end_ : string)
    : list (string * string) :=
  match t with
  | Leaf _ _ => outputList ++ [(start, end_)]
  | Node _ l r _ =>
      let outputList := Node_Range l outputList start (Ukey l) in
      Node_Range r outputList (Ukey r) end_
  end.

(** The deferred function of [AddRange]: two leaves that meet become one. *)
Definition fix_node (u : string) (l r : RangeTreeNode) : RangeTreeNode :=
  if IsLeaf l && IsLeaf r && bool_decide (Ukey l = Ukey r) then Leaf u 0
  else Node u l r (if depth r <? depth l then depth l + 1 else depth r + 1).

(** [AddRange] neither reads nor writes the key of its own node, so that a key
    the code sets before a call is set on the result of the call. *)
Fixpoint Node_AddRange (t : RangeTreeNode) (low rangeLow rangeHigh high : string) : outcome RangeTreeNode :=
  match t with
  | Leaf _ _ => Ret t
  | Node u l r d =>
      '(l, r) ← (
        if strInRange rangeLow low (Ukey l) && strInRange rangeHigh (Ukey r) high then
          l ← Node_AddRange l low rangeLow (Ukey l) (Ukey l);
          r ← Node_AddRange r (Ukey r) (Ukey r) rangeHigh high;
          Ret (if depth l <? depth r then (set_Ukey l (Ukey r), r) else (l, set_Ukey r (Ukey l)))
        else if strInRange rangeLow low (Ukey l) && strInRange rangeHigh low (Ukey l) then
          l ← Node_AddRange l low rangeLow rangeHigh (Ukey l);
          Ret (l, r)
        else if strInRange rangeLow (Ukey r) high && strInRange rangeHigh (Ukey r) high then
          r ← Node_AddRange r (Ukey r) rangeLow rangeHigh high;
          Ret (l, r)
        else if strInRange rangeLow (Ukey l) (Ukey r) && strInRange rangeHigh (Ukey r) high then
          r ← Node_AddRange r rangeLow rangeLow rangeHigh high;
          Ret (l, set_Ukey r rangeLow)
        else if strInRange rangeLow low (Ukey l) && strInRange rangeHigh (Ukey l) (Ukey r) then
          l ← Node_AddRange l low rangeLow rangeHigh rangeHigh;
          Ret (set_Ukey l rangeHigh, r)
        else if strInRange rangeLow (Ukey l) (Ukey r) && strInRange rangeHigh (Ukey l) (Ukey r) then
          Ret (if depth l <? depth r
               then (Node rangeHigh l (NewRangeTreeLeaf rangeLow) (depth l + 1), r)
               else (l, Node rangeLow (NewRangeTreeLeaf rangeHigh) r (depth r + 1)))
        else Panic);
      Ret (fix_node u l r)
  end.

(** The end of [DeleteRange] on a node, once its children are done: [None] is
    the nil node. *)
Definition join_deleted (u : string) (low high : string) (l r : option RangeTreeNode)
    (leftRange rightRange : string) : outcome (option RangeTreeNode * string * string) :=
  match l, r with
  | None, None => Ret (None, leftRange, rightRange)
  | _, _ =>
      '(u, IsLeft) ← (if bool_decide (u = high) then Ret (rightRange, true)
                      else if bool_decide (u = low) then Ret (leftRange, false)
                      else Panic);
      match l, r with
      | Some l, Some r =>
          Ret (Some (Node u l r (if depth r <? depth l then depth l + 1 else depth r + 1)), leftRange, rightRange)
      | Some l, None =>
          if IsLeft : bool then Ret (Some l, leftRange, Ukey l)
          else Ret (Some (set_Ukey l leftRange), leftRange, Ukey l)
      | None, Some r =>
          if IsLeft : bool then Ret (Some (set_Ukey r rightRange), Ukey r, rightRange)
          else Ret (Some r, Ukey r, rightRange)
      | None, None => Panic
      end
  end.

(** The result is the node, if something is left of it, and its new bounds. *)
Fixpoint Node_DeleteRange (t : RangeTreeNode) (low rangeLow rangeHigh high : string)
    : outcome (option RangeTreeNode * string * string) :=
  if bool_decide (rangeLow = low) && bool_decide (rangeHigh = high) then Ret (None, low, high)
  else if bool_decide (rangeLow = rangeHigh) then Ret (Some t, low, high)
  else match t with
  | Leaf u d =>
      if bool_decide (rangeHigh = high) then
        Ret (Some (if bool_decide (u = high) then Leaf rangeLow d else t), low, rangeLow)
      else if bool_decide (rangeLow = low) then
        Ret (Some (if bool_decide (u = low) then Leaf rangeHigh d else t), rangeHigh, high)
      else Ret (Some (Node u (NewRangeTreeLeaf rangeLow) (NewRangeTreeLeaf rangeHigh) (d + 1)), low, high)
  | Node u l r d =>
      '(l, leftRange, r, rightRange) ← (
        if strInRange rangeLow low (Ukey l) && strInRange rangeHigh (Ukey r) high then
          '(l, leftRange, _) ← Node_DeleteRange l low rangeLow (Ukey l) (Ukey l);
          '(r, _, rightRange) ← Node_DeleteRange r (Ukey r) (Ukey r) rangeHigh high;
          Ret (l, leftRange, r, rightRange)
        else if strInRange rangeLow low (Ukey l) && strInRange rangeHigh low (Ukey l) then
          '(l, leftRange, _) ← Node_DeleteRange l low rangeLow rangeHigh (Ukey l);
          Ret (l, leftRange, Some r, high)
        else if strInRange rangeLow (Ukey r) high && strInRange rangeHigh (Ukey r) high then
          '(r, _, rightRange) ← Node_DeleteRange r (Ukey r) rangeLow rangeHigh high;
          Ret (Some l, low, r, rightRange)
        else if strInRange rangeLow (Ukey l) (Ukey r) && strInRange rangeHigh (Ukey r) high then
          '(r, _, rightRange) ← Node_DeleteRange r (Ukey r) (Ukey r) rangeHigh high;
          Ret (Some l, low, r, rightRange)
        else if strInRange rangeLow low (Ukey l) && strInRange rangeHigh (Ukey l) (Ukey r) then
          '(l, leftRange, _) ← Node_DeleteRange l low rangeLow (Ukey l) (Ukey l);
          Ret (l, leftRange, Some r, high)
        else Ret (Some l, low, Some r, high));
      join_deleted u low high l r leftRange rightRange
  end.

(** ** Trees *)

Record RangeTree := { start : string; end_ : string; root : option RangeTreeNode }.

Definition NewRangeTree : RangeTree := {| start := EmptyString; end_ := EmptyString; root := None |}.
Definition RT_StartKey (t : RangeTree) : string := start t.
Definition RT_EndKey (t : RangeTree) : string := end_ t.
Definition RT_Search (t : RangeTree) (p : string) : bool :=
  match root t with None => false | Some n => Node_Search n p (start t) (end_ t) end.
Definition RT_Range (t : RangeTree) : list (string * string) :=
  match root t with None => [] | Some n => Node_Range n [] (start t) (end_ t) end.

(** The error is always nil. *)
Definition RT_AddRange (t : RangeTree) (rangeLow rangeHigh : string) : outcome RangeTree :=
  if str_ltb rangeHigh rangeLow then Ret t
  else match root t with
  | None => Ret {| start := rangeLow; end_ := rangeHigh; root := Some (NewRangeTreeLeaf rangeHigh) |}
  | Some n =>
      if str_ltb rangeHigh (start t) then
        let rightNode := set_Ukey n (start t) in
        Ret {| start := rangeLow; end_ := end_ t;
               root := Some (Node (end_ t) (NewRangeTreeLeaf rangeHigh) rightNode (depth rightNode + 1)) |}
      else if str_ltb (end_ t) rangeLow then
        Ret {| start := start t; end_ := rangeHigh;
               root := Some (Node rangeHigh n (NewRangeTreeLeaf rangeLow) (depth n + 1)) |}
      else
        let '(e, n) := if str_ltb (end_ t) rangeHigh then (rangeHigh, set_Ukey n rangeHigh) else (end_ t, n) in
        let s := if str_ltb rangeLow (start t) then rangeLow else start t in
        n ← Node_AddRange n s rangeLow rangeHigh e;
        Ret {| start := s; end_ := e; root := Some n |}
  end.

Definition RT_DeleteRange (t : RangeTree) (rangeLow rangeHigh : string) : outcome RangeTree :=
  if str_ltb rangeHigh rangeLow then Ret t
  else match root t with
  | None => Ret t
  | Some n =>
      if str_ltb rangeHigh (start t) || str_ltb (end_ t) rangeLow then Ret t
      else
        let rangeLow := if str_ltb rangeLow (start t) then start t else rangeLow in
        let rangeHigh := if str_ltb (end_ t) rangeHigh then end_ t else rangeHigh in
        '(n, s, e) ← Node_DeleteRange n (start t) rangeLow rangeHigh (end_ t);
        Ret {| start := s; end_ := e; root := n |}
  end.

Definition RT_add_pairs (t : RangeTree) (ps : list (string * string)) : outcome RangeTree :=
  foldM (λ t pair, RT_AddRange t (fst pair) (snd pair)) ps t.
Definition RT_Add (t other : RangeTree) : outcome RangeTree := RT_add_pairs t (RT_Range other).

(** [subString[1:len(subString)-1]] of a string of two characters or more. *)
Definition plus : Ascii.ascii := Ascii.ascii_of_nat 43.
Definition inner_string (s : string) : outcome string :=
  let n := String.length s in
  if (n <? 2)%nat then Panic else Ret (String.substring 1 (n - 2) s).
Definition deserialize (s : string) : outcome (list (list string)) :=
  mapM_out (λ sub, i ← inner_string sub; Ret (split_on comma i)) (split_on plus s).
Definition NewRangeTreeFromString (s : string) : outcome RangeTree :=
  ps ← deserialize s;
  foldM (λ t pair, a ← idx pair 0; b ← idx pair 1; RT_AddRange t a b) ps NewRangeTree.

(** ** The order of keys *)

(** An instance of the library's decision procedure for total orders. *)
Module StrOrder <: TotalOrder.
Definition t := string.
Definition eq := @Logic.eq string.
Definition lt := str_lt.
Definition le := str_le.
Lemma eq_equiv : Equivalence eq.
Proof. exact eq_equivalence. Qed.
Lemma lt_strorder : StrictOrder lt.
Proof. split; [intros s; apply str_lt_irrefl|intros s t' u; apply str_lt_trans]. Qed.
Lemma lt_compat : Proper (eq ==> eq ==> iff) lt.
Proof. by intros ? ? -> ? ? ->. Qed.
Lemma le_lteq x y : le x y ↔ lt x y ∨ eq x y.
Proof. split; [apply str_le_lt_or|intros [?| ->]; [by apply str_lt_le|apply str_le_refl]]. Qed.
Lemma lt_total x y : lt x y ∨ eq x y ∨ lt y x.
Proof.
  destruct (str_lt_or_le x y) as [|Hle]; [by left|]. apply str_le_lt_or in Hle as [|]; [by right; right|by right; left].
Qed.
End StrOrder.
Module StrTac := MakeOrderTac StrOrder StrOrder.

(** Turns the key comparisons of the context into propositions. *)
Ltac key_props :=
  unfold strInRange, strInRangeRightOpen, in_range in *;
  repeat match goal with
  | H : _ && _ = true |- _ => apply andb_true_iff in H as []
  | H : _ || _ = false |- _ => apply orb_false_iff in H as []
  | H : str_leb _ _ = true |- _ => apply str_leb_le in H
  | H : str_leb _ _ = false |- _ => apply str_leb_lt in H
  | H : str_ltb ?a ?b = true |- _ => change (str_lt a b) in H
  | H : str_ltb ?a ?b = false |- _ => change (str_le b a) in H
  | H : bool_decide _ = true |- _ => apply bool_decide_eq_true in H
  | H : bool_decide _ = false |- _ => apply bool_decide_eq_false in H
  end.
Ltac key_order :=
  key_props; subst; exfalso;
  repeat match goal with
  | H : str_lt ?a ?b |- _ => change (StrOrder.lt a b) in H
  | H : str_le ?a ?b |- _ => change (StrOrder.le a b) in H
  | H : ?a ≠ ?b |- _ => change (¬ StrOrder.eq a b) in H
  end;
  StrTac.order.
(** Decides an equation of boolean comparisons by cases. *)
Ltac key_cases :=
  unfold strInRange, strInRangeRightOpen, in_range in *;
  repeat match goal with
  | |- context [str_leb ?a ?b] => let E := fresh "E" in destruct (str_leb a b) eqn:E
  | |- context [str_ltb ?a ?b] => let E := fresh "E" in destruct (str_ltb a b) eqn:E
  end; cbn [andb orb negb]; try solve [intros; discriminate || reflexivity | intros; key_order].

(** ** Invariant

    The bounds of a tree's ranges increase from left to right. *)
Fixpoint node_wf (t : RangeTreeNode) (low high : string) : Prop :=
  match t with
  | Leaf _ _ => str_le low high
  | Node _ l r _ => node_wf l low (Ukey l) ∧ str_le (Ukey l) (Ukey r) ∧ node_wf r (Ukey r) high
  end.

Lemma node_wf_le t : ∀ low high, node_wf t low high → str_le low high.
Proof.
  induction t as [u d|u l IHl r IHr d]; intros low high; [done|].
  intros (Hl%IHl & Hm & Hr%IHr). eapply str_le_trans; [done|]. by eapply str_le_trans.
Qed.
Lemma node_wf_key t u low high : node_wf (set_Ukey t u) low high ↔ node_wf t low high.
Proof. by destruct t. Qed.
Lemma search_key t u p low high : Node_Search (set_Ukey t u) p low high = Node_Search t p low high.
Proof. by destruct t. Qed.
Lemma Ukey_key t u : Ukey (set_Ukey t u) = u.
Proof. by destruct t. Qed.

Lemma search_outside t p : ∀ low high, node_wf t low high → in_range p low high = false →
  Node_Search t p low high = false.
Proof.
  induction t as [u d|u l IHl r IHr d]; intros low high; [done|]. intros (Hl & Hm & Hr) Hp.
  pose proof (node_wf_le _ _ _ Hl). pose proof (node_wf_le _ _ _ Hr). cbn [Node_Search].
  destruct (str_ltb p (Ukey l)) eqn:E1; [apply IHl; [done|]|].
  - revert Hp. key_cases.
  - destruct (str_leb (Ukey r) p) eqn:E2; [|done]. apply IHr; [done|]. revert Hp. key_cases.
Qed.

(** A node holds what its children hold. *)
Lemma search_node u l r d p low high : node_wf (Node u l r d) low high →
  Node_Search (Node u l r d) p low high = Node_Search l p low (Ukey l) || Node_Search r p (Ukey r) high.
Proof.
  intros (Hl & Hm & Hr). pose proof (node_wf_le _ _ _ Hl). pose proof (node_wf_le _ _ _ Hr). cbn [Node_Search].
  destruct (str_ltb p (Ukey l)) eqn:E1.
  - rewrite (search_outside r p) by (done || key_cases). by rewrite orb_false_r.
  - rewrite (search_outside l p) by (done || key_cases). destruct (str_leb (Ukey r) p) eqn:E2; [done|].
    by rewrite (search_outside r p) by (done || key_cases).
Qed.

(** Moving an outer bound of a tree extends its first or last range. *)
Lemma widen_low t p : ∀ low high low', node_wf t low high → str_le low' low →
  node_wf t low' high ∧ Node_Search t p low' high = in_range p low' low || Node_Search t p low high.
Proof.
  induction t as [u d|u l IHl r IHr d]; intros low high low' Hwf Hle.
  { cbn in *. split; [by eapply str_le_trans|]. key_cases. }
  destruct (Hwf) as (Hl & Hm & Hr). destruct (IHl low (Ukey l) low') as [Hl' E]; [done|done|].
  assert (node_wf (Node u l r d) low' high) by (by split_and!). split; [done|].
  rewrite !search_node, E by done. by rewrite orb_assoc.
Qed.
Lemma widen_high t p : ∀ low high high', node_wf t low high → str_le high high' →
  node_wf t low high' ∧ Node_Search t p low high' = Node_Search t p low high || in_range p high high'.
Proof.
  induction t as [u d|u l IHl r IHr d]; intros low high high' Hwf Hle.
  { cbn in *. split; [by eapply str_le_trans|]. key_cases. }
  destruct (Hwf) as (Hl & Hm & Hr). destruct (IHr (Ukey r) high high') as [Hr' E]; [done|done|].
  assert (node_wf (Node u l r d) low high') by (by split_and!). split; [done|].
  rewrite !search_node, E by done. by rewrite orb_assoc.
Qed.

Lemma fix_node_spec u l r low high : node_wf (Node u l r 0) low high →
  Ukey (fix_node u l r) = u ∧ node_wf (fix_node u l r) low high ∧
  ∀ p, Node_Search (fix_node u l r) p low high = Node_Search l p low (Ukey l) || Node_Search r p (Ukey r) high.
Proof.
  intros Hwf. unfold fix_node. destruct (IsLeaf l && IsLeaf r && bool_decide (Ukey l = Ukey r)) eqn:E.
  - destruct l as [ul dl|], r as [ur dr|]; try done. cbn in E. key_props. subst ur.
    destruct Hwf as (Hl & _ & Hr). cbn in Hl, Hr. split; [done|]. split; [by eapply str_le_trans|].
    intros p. cbn. key_cases.
  - split; [done|]. split; [done|]. intros p. by apply search_node.
Qed.

(** ** Adding a range *)

(** What a call of [AddRange] gives. *)
Definition added (t t' : RangeTreeNode) (low rangeLow rangeHigh high : string) : Prop :=
  Ukey t' = Ukey t ∧ node_wf t' low high ∧
  ∀ p, Node_Search t' p low high = Node_Search t p low high || in_range p rangeLow rangeHigh.

(** New children that cover the old ones and the range. *)
Lemma added_children u l r d l' r' low rangeLow rangeHigh high :
  node_wf (Node u l r d) low high → node_wf (Node u l' r' 0) low high →
  (∀ p, Node_Search l' p low (Ukey l') || Node_Search r' p (Ukey r') high =
        Node_Search l p low (Ukey l) || Node_Search r p (Ukey r) high || in_range p rangeLow rangeHigh) →
  added (Node u l r d) (fix_node u l' r') low rangeLow rangeHigh high.
Proof.
  intros Hwf Hwf' Hs. destruct (fix_node_spec u l' r' low high Hwf') as (Hu & Hn & E).
  split_and!; [done|done|]. intros p. by rewrite E, search_node, Hs.
Qed.

(** Splits the search results of a boolean equation. *)
Ltac search_cases :=
  intros;
  repeat match goal with |- context [Node_Search ?t ?p ?a ?b] => destruct (Node_Search t p a b) end;
  cbn [orb andb negb]; key_cases.

(** When the first five cases of the code do not apply, the range lies between
    the two children. *)
Lemma last_case low rl rh high a b :
  str_le low rl → str_le rl rh → str_le rh high → str_le a b → str_le low a → str_le b high →
  strInRange rl low a && strInRange rh b high = false → strInRange rl low a && strInRange rh low a = false →
  strInRange rl b high && strInRange rh b high = false → strInRange rl a b && strInRange rh b high = false →
  strInRange rl low a && strInRange rh a b = false → str_le a rl ∧ str_le rh b.
Proof.
  intros H1 H2 H3 H4 H5 H6. unfold strInRange.
  assert (str_leb low rl = true) as -> by (by apply str_leb_le).
  assert (str_leb rh high = true) as -> by (by apply str_leb_le).
  assert (str_leb low rh = true) as -> by (apply str_leb_le; by apply str_le_trans with rl).
  assert (str_leb rl high = true) as -> by (apply str_leb_le; by apply str_le_trans with rh).
  cbn [andb]. rewrite !andb_true_r. unfold str_le. destruct (str_ltb rl a) eqn:E1, (str_ltb b rh) eqn:E2; key_cases; by split.
Qed.

Lemma Node_AddRange_spec t : ∀ low rangeLow rangeHigh high, node_wf t low high →
  str_le low rangeLow → str_le rangeLow rangeHigh → str_le rangeHigh high →
  ∃ t', Node_AddRange t low rangeLow rangeHigh high = Ret t' ∧ added t t' low rangeLow rangeHigh high.
Proof.
  induction t as [u d|u l IHl r IHr d]; intros low rl rh high Hwf H1 H2 H3.
  { exists (Leaf u d). split; [done|]. split_and!; [done|done|]. intros p. cbn. key_cases. }
  destruct (Hwf) as (Hl & Hm & Hr). pose proof (node_wf_le _ _ _ Hl). pose proof (node_wf_le _ _ _ Hr).
  cbn [Node_AddRange].
  destruct (strInRange rl low (Ukey l) && strInRange rh (Ukey r) high) eqn:C1.
  { key_props. destruct (IHl low rl (Ukey l) (Ukey l)) as (l' & -> & Ul & Wl & Sl); [done|done|done|apply str_le_refl|].
    destruct (IHr (Ukey r) (Ukey r) rh high) as (r' & -> & Ur & Wr & Sr); [done|apply str_le_refl|done|done|].
    cbn [mbind outcome_bind]. destruct (depth l' <? depth r'); eexists; (split; [reflexivity|]);
      apply added_children; try done; cbn [node_wf]; rewrite ?Ukey_key, ?node_wf_key, ?Ul, ?Ur.
    - split_and!; [by apply widen_high with (p := low) (high := Ukey l)|apply str_le_refl|done].
    - intros p. rewrite search_key. destruct (widen_high l' p low (Ukey l) (Ukey r)) as [_ ->]; [done|done|].
      rewrite Sl, Sr. search_cases.
    - split_and!; [done|apply str_le_refl|by apply widen_low with (p := low) (low := Ukey r)].
    - intros p. rewrite search_key. destruct (widen_low r' p (Ukey r) high (Ukey l)) as [_ ->]; [done|done|].
      rewrite Sl, Sr. search_cases. }
  destruct (strInRange rl low (Ukey l) && strInRange rh low (Ukey l)) eqn:C2.
  { key_props. destruct (IHl low rl rh (Ukey l)) as (l' & -> & Ul & Wl & Sl); [done..|].
    eexists; (split; [reflexivity|]). apply added_children; try done; cbn [node_wf]; rewrite ?Ul; [done|].
    intros p. rewrite Sl. search_cases. }
  destruct (strInRange rl (Ukey r) high && strInRange rh (Ukey r) high) eqn:C3.
  { key_props. destruct (IHr (Ukey r) rl rh high) as (r' & -> & Ur & Wr & Sr); [done..|].
    eexists; (split; [reflexivity|]). apply added_children; try done; cbn [node_wf]; rewrite ?Ur; [done|].
    intros p. rewrite Sr. search_cases. }
  destruct (strInRange rl (Ukey l) (Ukey r) && strInRange rh (Ukey r) high) eqn:C4.
  { key_props. destruct (IHr rl rl rh high) as (r' & -> & Ur & Wr & Sr);
      [by apply widen_low with (p := low) (low := Ukey r)|apply str_le_refl|done|done|].
    eexists; (split; [reflexivity|]). apply added_children; try done; cbn [node_wf]; rewrite ?Ukey_key, ?node_wf_key; [done|].
    intros p. rewrite search_key, Sr. destruct (widen_low r p (Ukey r) high rl) as [_ ->]; [done|done|]. search_cases. }
  destruct (strInRange rl low (Ukey l) && strInRange rh (Ukey l) (Ukey r)) eqn:C5.
  { key_props. destruct (IHl low rl rh rh) as (l' & -> & Ul & Wl & Sl);
      [by apply widen_high with (p := low) (high := Ukey l)|done|done|apply str_le_refl|].
    eexists; (split; [reflexivity|]). apply added_children; try done; cbn [node_wf]; rewrite ?Ukey_key, ?node_wf_key; [done|].
    intros p. rewrite search_key, Sl. destruct (widen_high l p low (Ukey l) rh) as [_ ->]; [done|done|]. search_cases. }
  assert (str_le (Ukey l) rl ∧ str_le rh (Ukey r)) as [C6 C7].
  { by apply (last_case low rl rh high). }
  destruct (strInRange rl (Ukey l) (Ukey r) && strInRange rh (Ukey l) (Ukey r)) eqn:C8.
  2:{ revert C8. key_cases. }
  destruct (depth l <? depth r); (eexists; split; [reflexivity|]); apply added_children; try done;
    cbn [node_wf Ukey NewRangeTreeLeaf]; try (by split_and!); intros p.
  - rewrite search_node by (by split_and!). cbn. search_cases.
  - rewrite search_node by (by split_and!). cbn. search_cases.
Qed.

(** ** Deleting a range *)

Lemma search_inside t p low high : node_wf t low high → Node_Search t p low high = true → in_range p low high = true.
Proof. intros Hwf E. destruct (in_range p low high) eqn:Ei; [done|]. by rewrite search_outside in E. Qed.

(** What a call of [DeleteRange] gives: the rest of the node with its new
    bounds, the key of the node following the bound it was. *)
Definition deleted (t : RangeTreeNode) (o : option RangeTreeNode) (low rangeLow rangeHigh high lo hi : string) : Prop :=
  match o with
  | None => ∀ p, Node_Search t p low high && negb (in_range p rangeLow rangeHigh) = false
  | Some t' =>
      node_wf t' lo hi ∧ str_le low lo ∧ str_le hi high ∧
      (Ukey t = high → Ukey t' = hi) ∧ (Ukey t = low → Ukey t' = lo) ∧
      ∀ p, Node_Search t' p lo hi = Node_Search t p low high && negb (in_range p rangeLow rangeHigh)
  end.

Lemma deleted_none t x low high : node_wf t low high → deleted t (Some t) low x x high low high.
Proof.
  intros Hwf. split_and!; [done|apply str_le_refl|apply str_le_refl|done|done|]. intros p. search_cases.
Qed.

(** The rest of a node from the rests of its children. *)
Lemma join_deleted_spec u l r d low rl rh high l' r' a1 b1 a2 b2 lo1 hi1 lo2 hi2 :
  node_wf (Node u l r d) low high → str_lt low high → u = high ∨ u = low →
  deleted l l' low a1 b1 (Ukey l) lo1 hi1 → deleted r r' (Ukey r) a2 b2 high lo2 hi2 →
  (∀ p, (Node_Search l p low (Ukey l) || Node_Search r p (Ukey r) high) && negb (in_range p rl rh) =
        Node_Search l p low (Ukey l) && negb (in_range p a1 b1) ||
        Node_Search r p (Ukey r) high && negb (in_range p a2 b2)) →
  ∃ o lo hi, join_deleted u low high l' r' lo1 hi2 = Ret (o, lo, hi) ∧
    deleted (Node u l r d) o low rl rh high lo hi.
Proof.
  intros Hwf Hlt Hu D1 D2 Hs. destruct (Hwf) as (Hl & Hm & Hr).
  pose proof (node_wf_le _ _ _ Hl). pose proof (node_wf_le _ _ _ Hr).
  assert (Hs' : ∀ p, Node_Search (Node u l r d) p low high && negb (in_range p rl rh) =
    Node_Search l p low (Ukey l) && negb (in_range p a1 b1) ||
    Node_Search r p (Ukey r) high && negb (in_range p a2 b2)) by (intros p; by rewrite search_node).
  clear Hs. unfold join_deleted.
  assert ((if bool_decide (u = high) then Ret (hi2, true)
           else if bool_decide (u = low) then Ret (lo1, false) else Panic)
          = Ret (if bool_decide (u = high) then (hi2, true) else (lo1, false))) as ->.
  { destruct Hu as [-> | ->]; [by rewrite bool_decide_true|]. case_bool_decide; [done|]. by rewrite bool_decide_true. }
  assert (u = low → u ≠ high) as Hne by (intros ->; intros ->; by apply (str_lt_irrefl high)).
  destruct l' as [l'|], r' as [r'|]; cbn [deleted] in D1, D2; cbn [mbind outcome_bind].
  - destruct D1 as (W1 & L1 & G1 & K1 & _ & S1), D2 as (W2 & L2 & G2 & _ & K2 & S2).
    specialize (K1 eq_refl). specialize (K2 eq_refl). rewrite <- K1 in *. rewrite <- K2 in *.
    assert (∀ v e, node_wf (Node v l' r' e) lo1 hi2) as Hw.
    { intros; split_and!; [done| |done]. eapply str_le_trans; [done|]. by eapply str_le_trans. }
    case_bool_decide as Eu; (eexists _, _, _; split; [reflexivity|]); (split_and!; [apply Hw|done|done| | |]); cbn [Ukey]; try done;
      try (intros; exfalso; by eapply Hne); intros p; rewrite search_node by apply Hw; by rewrite Hs', S1, S2.
  - destruct D1 as (W1 & L1 & G1 & K1 & _ & S1). specialize (K1 eq_refl). rewrite <- K1 in *.
    assert (str_le (Ukey l') high) by (eapply str_le_trans; [done|]; by eapply str_le_trans).
    case_bool_decide as Eu; (eexists _, _, _; split; [reflexivity|]);
      (split_and!; [by rewrite ?node_wf_key|done|done| | |]); rewrite ?Ukey_key; cbn [Ukey]; try done;
      try (intros; exfalso; by eapply Hne);
      intros p; rewrite ?search_key, Hs', S1, D2; by rewrite orb_false_r.
  - destruct D2 as (W2 & L2 & G2 & _ & K2 & S2). specialize (K2 eq_refl). rewrite <- K2 in *.
    assert (str_le low (Ukey r')) by (eapply str_le_trans; [done|]; by eapply str_le_trans).
    case_bool_decide as Eu; (eexists _, _, _; split; [reflexivity|]);
      (split_and!; [by rewrite ?node_wf_key|done|done| | |]); rewrite ?Ukey_key; cbn [Ukey]; try done;
      try (intros; exfalso; by eapply Hne);
      intros p; rewrite ?search_key, Hs', S2, D1; done.
  - eexists _, _, _; split; [reflexivity|]. intros p. by rewrite Hs', D1, D2.
Qed.

(** Deleting [rangeLow, rangeHigh) from a leaf. *)
Lemma Leaf_DeleteRange_spec u d low rl rh high : u = high ∨ u = low →
  str_le low rl → str_le rl rh → str_le rh high →
  ∃ o lo hi, Node_DeleteRange (Leaf u d) low rl rh high = Ret (o, lo, hi) ∧
    deleted (Leaf u d) o low rl rh high lo hi.
Proof.
  intros Hu H1 H2 H3. cbn [Node_DeleteRange].
  destruct (bool_decide (rl = low) && bool_decide (rh = high)) eqn:C0; key_props; [|rewrite andb_false_iff, !bool_decide_eq_false in C0].
  { eexists _, _, _; split; [reflexivity|]. intros p. cbn. subst. key_cases. }
  case_bool_decide; [eexists _, _, _; split; [reflexivity|]; subst rh; apply deleted_none; cbn; by eapply str_le_trans|].
  case_bool_decide as E2.
  { subst rh. assert (rl ≠ low) by (destruct C0; [done|congruence]).
    eexists _, _, _; split; [reflexivity|]. case_bool_decide as E3; (split_and!; cbn; [done|apply str_le_refl|done|..]);
      try done; try (intros; subst; key_order); intros; try (subst; done); key_cases. }
  case_bool_decide as E4.
  { subst rl. eexists _, _, _; split; [reflexivity|]. case_bool_decide as E3; (split_and!; cbn; [done|done|apply str_le_refl|..]);
      try done; try (intros; subst; key_order); intros; try (subst; done); key_cases. }
  eexists _, _, _; split; [reflexivity|]. split_and!; cbn; try done; try apply str_le_refl. intros p. key_cases.
Qed.

Lemma Node_DeleteRange_spec t : ∀ low rl rh high, node_wf t low high → Ukey t = high ∨ Ukey t = low →
  str_le low rl → str_le rl rh → str_le rh high →
  ∃ o lo hi, Node_DeleteRange t low rl rh high = Ret (o, lo, hi) ∧ deleted t o low rl rh high lo hi.
Proof.
  induction t as [u d|u l IHl r IHr d]; intros low rl rh high Hwf Hu H1 H2 H3.
  { by apply Leaf_DeleteRange_spec. }
  destruct (Hwf) as (Hl & Hm & Hr). pose proof (node_wf_le _ _ _ Hl). pose proof (node_wf_le _ _ _ Hr).
  assert (Il : ∀ a b, str_le low a → str_le a b → str_le b (Ukey l) → ∃ o lo hi,
    Node_DeleteRange l low a b (Ukey l) = Ret (o, lo, hi) ∧ deleted l o low a b (Ukey l) lo hi)
    by (intros; apply IHl; auto).
  assert (Ir : ∀ a b, str_le (Ukey r) a → str_le a b → str_le b high → ∃ o lo hi,
    Node_DeleteRange r (Ukey r) a b high = Ret (o, lo, hi) ∧ deleted r o (Ukey r) a b high lo hi)
    by (intros; apply IHr; auto).
  clear IHl IHr. cbn [Node_DeleteRange].
  destruct (bool_decide (rl = low) && bool_decide (rh = high)) eqn:C0.
  { key_props. subst. eexists _, _, _; split; [reflexivity|]. intros p.
    destruct (Node_Search (Node u l r d) p low high) eqn:Ep; [|done]. apply search_inside in Ep; [|done].
    by rewrite Ep. }
  rewrite andb_false_iff, !bool_decide_eq_false in C0.
  case_bool_decide as Ee; [subst rh; eexists _, _, _; split; [reflexivity|]; by apply deleted_none|].
  assert (str_lt low high) as Hlt.
  { eapply str_le_lt_trans; [exact H1|]. apply str_le_lt_or in H2 as [H2| ->]; [|done]. by eapply str_lt_le_trans. }
  assert (J : ∀ l' r' a1 b1 a2 b2 lo1 hi1 lo2 hi2, deleted l l' low a1 b1 (Ukey l) lo1 hi1 →
    deleted r r' (Ukey r) a2 b2 high lo2 hi2 →
    (∀ p, in_range p low (Ukey l) = true → in_range p rl rh = in_range p a1 b1) →
    (∀ p, in_range p (Ukey r) high = true → in_range p rl rh = in_range p a2 b2) →
    ∃ o lo hi, join_deleted u low high l' r' lo1 hi2 = Ret (o, lo, hi) ∧
      deleted (Node u l r d) o low rl rh high lo hi).
  { intros l' r' a1 b1 a2 b2 lo1 hi1 lo2 hi2 D1 D2 E1 E2. apply (join_deleted_spec u l r d low rl rh high l' r' a1 b1 a2 b2 lo1 hi1 lo2 hi2); try done.
    intros p. destruct (Node_Search l p low (Ukey l)) eqn:Sl, (Node_Search r p (Ukey r) high) eqn:Sr; cbn [orb andb]; try done;
      repeat match goal with Hs : Node_Search _ _ _ _ = true |- _ => apply search_inside in Hs; [|done] end;
      rewrite <- ?E1, <- ?E2 by done; by rewrite ?orb_diag, ?orb_false_r. }
  clear Hu C0.
  assert (Dl := deleted_none l low low (Ukey l) Hl). assert (Dr := deleted_none r high (Ukey r) high Hr).
  destruct (strInRange rl low (Ukey l) && strInRange rh (Ukey r) high) eqn:C1.
  { key_props. destruct (Il rl (Ukey l)) as (l' & lo1 & hi1 & -> & D1); [done|done|apply str_le_refl|].
    destruct (Ir (Ukey r) rh) as (r' & lo2 & hi2 & -> & D2); [apply str_le_refl|done|done|].
    cbn [mbind outcome_bind]. eapply J; [done|done|..]; intros p; key_cases. }
  destruct (strInRange rl low (Ukey l) && strInRange rh low (Ukey l)) eqn:C2.
  { key_props. destruct (Il rl rh) as (l' & lo1 & hi1 & -> & D1); [done..|].
    cbn [mbind outcome_bind]. eapply J; [done|done|..]; intros p; key_cases. }
  destruct (strInRange rl (Ukey r) high && strInRange rh (Ukey r) high) eqn:C3.
  { key_props. destruct (Ir rl rh) as (r' & lo2 & hi2 & -> & D2); [done..|].
    cbn [mbind outcome_bind]. eapply J; [done|done|..]; intros p; key_cases. }
  destruct (strInRange rl (Ukey l) (Ukey r) && strInRange rh (Ukey r) high) eqn:C4.
  { key_props. destruct (Ir (Ukey r) rh) as (r' & lo2 & hi2 & -> & D2); [apply str_le_refl|done|done|].
    cbn [mbind outcome_bind]. eapply J; [done|done|..]; intros p; key_cases. }
  destruct (strInRange rl low (Ukey l) && strInRange rh (Ukey l) (Ukey r)) eqn:C5.
  { key_props. destruct (Il rl (Ukey l)) as (l' & lo1 & hi1 & -> & D1); [done|done|apply str_le_refl|].
    cbn [mbind outcome_bind]. eapply J; [done|done|..]; intros p; key_cases. }
  destruct (last_case low rl rh high (Ukey l) (Ukey r)) as [C6 C7]; [done..|].
  cbn [mbind outcome_bind]. eapply J; [done|done|..]; intros p; key_cases.
Qed.

(** ** Trees as sets of keys *)

Definition rt_wf (t : RangeTree) : Prop :=
  match root t with None => True | Some n => node_wf n (start t) (end_ t) ∧ Ukey n = end_ t end.

Lemma Node_Range_spec n p : ∀ acc low high, node_wf n low high →
  existsb (λ rg, in_range p (fst rg) (snd rg)) (Node_Range n acc low high) =
  existsb (λ rg, in_range p (fst rg) (snd rg)) acc || Node_Search n p low high.
Proof.
  induction n as [u d|u l IHl r IHr d]; intros acc low high Hwf.
  { cbn [Node_Range Node_Search]. rewrite existsb_app. cbn. by rewrite orb_false_r. }
  rewrite search_node by done. destruct Hwf as (Hl & Hm & Hr). cbn [Node_Range].
  rewrite IHr, IHl by done. by rewrite orb_assoc.
Qed.
Lemma RT_Search_spec t p : rt_wf t →
  RT_Search t p = existsb (λ rg, in_range p (fst rg) (snd rg)) (RT_Range t).
Proof.
  unfold rt_wf, RT_Search, RT_Range. destruct (root t) as [n|]; [|done]. intros [Hwf _].
  by rewrite Node_Range_spec.
Qed.

Lemma in_range_empty p lo hi : str_le hi lo → in_range p lo hi = false.
Proof. intros. key_cases. Qed.

Lemma RT_AddRange_spec t lo hi : rt_wf t → ∃ t', RT_AddRange t lo hi = Ret t' ∧ rt_wf t' ∧
  ∀ p, RT_Search t' p = RT_Search t p || in_range p lo hi.
Proof.
  intros Hwf. unfold RT_AddRange. destruct (str_ltb hi lo) eqn:Elh.
  { exists t. split_and!; [done|done|]. intros p. rewrite in_range_empty by (by apply str_lt_le). by rewrite orb_false_r. }
  change (str_le lo hi) in Elh. unfold rt_wf in Hwf. destruct (root t) as [n|] eqn:En.
  2:{ eexists. split; [reflexivity|]. split; [by split|]. intros p. unfold RT_Search. by rewrite En. }
  destruct Hwf as [Hn Hu]. pose proof (node_wf_le _ _ _ Hn) as Hse.
  destruct (str_ltb hi (start t)) eqn:E1.
  { eexists. split; [reflexivity|]. unfold rt_wf, RT_Search. cbn [root start end_]. rewrite En. split.
    - split; [|done]. split_and!; [done|rewrite Ukey_key; by apply str_lt_le|by rewrite Ukey_key, node_wf_key].
    - intros p. rewrite search_node; [|split_and!; [done|rewrite Ukey_key; by apply str_lt_le|by rewrite Ukey_key, node_wf_key]].
      rewrite Ukey_key, search_key. cbn [Node_Search NewRangeTreeLeaf Ukey]. rewrite orb_comm. done. }
  destruct (str_ltb (end_ t) lo) eqn:E2.
  { eexists. split; [reflexivity|]. unfold rt_wf, RT_Search. cbn [root start end_]. rewrite En.
    assert (∀ e, node_wf (Node hi n (NewRangeTreeLeaf lo) e) (start t) hi) as Hw.
    { intros e. split_and!; [by rewrite Hu|rewrite Hu; by apply str_lt_le|done]. }
    split; [by split|]. intros p. rewrite search_node by apply Hw. by rewrite Hu. }
  change (str_le (start t) hi) in E1. change (str_le lo (end_ t)) in E2.
  set (s := if str_ltb lo (start t) then lo else start t). set (e := if str_ltb (end_ t) hi then hi else end_ t).
  assert (∃ n', (if str_ltb (end_ t) hi then (hi, set_Ukey n hi) else (end_ t, n)) = (e, n') ∧ Ukey n' = e ∧
    (∀ a b, node_wf n' a b ↔ node_wf n a b) ∧ ∀ p a b, Node_Search n' p a b = Node_Search n p a b)
    as (n' & -> & Hu' & Hw' & Hs').
  { unfold e. destruct (str_ltb (end_ t) hi).
    - exists (set_Ukey n hi). split_and!; [done|apply Ukey_key|intros; apply node_wf_key|intros; apply search_key].
    - by exists n. }
  assert (str_le s (start t) ∧ str_le s lo ∧ str_le (end_ t) e ∧ str_le hi e) as (S1 & S2 & S3 & S4).
  { unfold s, e. destruct (str_ltb lo (start t)) eqn:?, (str_ltb (end_ t) hi) eqn:?; unfold str_le; split_and!; key_cases. }
  destruct (Node_AddRange_spec n' s lo hi e) as (n2 & -> & U2 & W2 & A2); [|done..|].
  { apply Hw'. apply widen_high with (p := lo) (high := end_ t); [|done]. by apply widen_low with (p := lo) (low := start t). }
  eexists. split; [reflexivity|]. split; [split; [done|by rewrite U2]|]. intros p. unfold RT_Search. cbn [root start end_].
  rewrite En, A2, Hs'. destruct (widen_low n p (start t) (end_ t) s Hn S1) as [Hn1 L].
  destruct (widen_high n p s (end_ t) e Hn1 S3) as [_ ->]. rewrite L. clear -E1 E2 Elh Hse.
  unfold s, e. destruct (str_ltb lo (start t)) eqn:?, (str_ltb (end_ t) hi) eqn:?; search_cases.
Qed.

Lemma RT_DeleteRange_spec t lo hi : rt_wf t → ∃ t', RT_DeleteRange t lo hi = Ret t' ∧ rt_wf t' ∧
  ∀ p, RT_Search t' p = RT_Search t p && negb (in_range p lo hi).
Proof.
  intros Hwf. unfold RT_DeleteRange. destruct (str_ltb hi lo) eqn:Elh.
  { exists t. split_and!; [done|done|]. intros p. rewrite in_range_empty by (by apply str_lt_le). by rewrite andb_true_r. }
  change (str_le lo hi) in Elh. destruct (root t) as [n|] eqn:En.
  2:{ exists t. split_and!; [done|done|]. intros p. unfold RT_Search. by rewrite En. }
  pose proof Hwf as Hwf'. unfold rt_wf in Hwf. rewrite En in Hwf. destruct Hwf as [Hn Hu].
  pose proof (node_wf_le _ _ _ Hn) as Hse.
  assert (∀ p, RT_Search t p = Node_Search n p (start t) (end_ t)) as HS by (intros; unfold RT_Search; by rewrite En).
  destruct (str_ltb hi (start t) || str_ltb (end_ t) lo) eqn:E1.
  { exists t. split_and!; [done|done|]. intros p. rewrite HS. destruct (Node_Search n p _ _) eqn:Ep; [|done].
    apply search_inside in Ep; [|done]. revert Ep E1. key_cases. }
  key_props.
  set (lo' := if str_ltb lo (start t) then start t else lo). set (hi' := if str_ltb (end_ t) hi then end_ t else hi).
  destruct (Node_DeleteRange_spec n (start t) lo' hi' (end_ t)) as (o & s & e & -> & D); [done|by left|..].
  1-3: unfold lo', hi'; destruct (str_ltb lo (start t)) eqn:?, (str_ltb (end_ t) hi) eqn:?; unfold str_le; key_cases.
  eexists. split; [reflexivity|].
  assert (∀ p, Node_Search n p (start t) (end_ t) && negb (in_range p lo' hi') =
    Node_Search n p (start t) (end_ t) && negb (in_range p lo hi)) as Hin.
  { intros p. destruct (Node_Search n p _ _) eqn:Ep; [|done]. apply search_inside in Ep; [|done].
    cbn [andb]. revert Ep. unfold lo', hi'. destruct (str_ltb lo (start t)) eqn:?, (str_ltb (end_ t) hi) eqn:?; key_cases. }
  unfold rt_wf, RT_Search at 1. cbn [root start end_]. destruct o as [n'|].
  - destruct D as (W & _ & _ & K & _ & S). split; [split; [done|by apply K]|]. intros p. by rewrite S, HS, Hin.
  - split; [done|]. intros p. by rewrite HS, <- Hin, D.
Qed.

(** A range tree is a set of keys: on a well-formed tree [Search] answers
    whether one of the ranges of [Range] contains the key; [AddRange] and
    [DeleteRange] do not panic, keep the tree well formed and add exactly the
    keys from [low] on and below [high], or remove them. *)
Theorem RangeTree_refines_set (t : RangeTree) (low high : string) (Hwf : rt_wf t) :
  (∀ p, RT_Search t p = existsb (λ rg, in_range p (fst rg) (snd rg)) (RT_Range t)) ∧
  (∃ t', RT_AddRange t low high = Ret t' ∧ rt_wf t' ∧ ∀ p, RT_Search t' p = RT_Search t p || in_range p low high) ∧
  (∃ t', RT_DeleteRange t low high = Ret t' ∧ rt_wf t' ∧
     ∀ p, RT_Search t' p = RT_Search t p && negb (in_range p low high)).
Proof.
  split; [intros; by apply RT_Search_spec|]. split; [by apply RT_AddRange_spec|by apply RT_DeleteRange_spec].
Qed.

Definition demo_tree : RangeTree :=
  {| start := "a"; end_ := "q"; root := Some (Node "q" (Leaf "c" 0) (Leaf "m" 0) 1) |}.
Lemma RangeTree_refines_set_witness : RT_Search demo_tree "d" = false ∧
  ∃ t', RT_AddRange demo_tree "b" "n" = Ret t' ∧ rt_wf t' ∧
    ∀ p, RT_Search t' p = RT_Search demo_tree p || in_range p "b" "n".
Proof. split; [reflexivity|]. apply (RangeTree_refines_set demo_tree "b" "n"). repeat split. Defined.

(** ** The two range stores agree *)

Inductive range_op := OpAdd (low high : string) | OpDelete (low high : string).
Definition tree_op (t : RangeTree) (o : range_op) : outcome RangeTree :=
  match o with OpAdd lo hi => RT_AddRange t lo hi | OpDelete lo hi => RT_DeleteRange t lo hi end.
Definition list_op (r : RangeList) (o : range_op) : outcome RangeList :=
  match o with OpAdd lo hi => AddRange r lo hi | OpDelete lo hi => DeleteRange r lo hi end.

Lemma ops_agree ops : ∀ t r, rt_wf t → rl_wf r → (∀ p, RT_Search t p = member r p) →
  ∃ t' r', foldM tree_op ops t = Ret t' ∧ foldM list_op ops r = Ret r' ∧ rt_wf t' ∧ rl_wf r' ∧
    ∀ p, RT_Search t' p = member r' p.
Proof.
  induction ops as [|o ops IH]; intros t r Ht Hr Hs; [by exists t, r|]. cbn [foldM].
  assert (∃ t1 r1, tree_op t o = Ret t1 ∧ list_op r o = Ret r1 ∧ rt_wf t1 ∧ rl_wf r1 ∧
    ∀ p, RT_Search t1 p = member r1 p) as (t1 & r1 & -> & -> & Ht1 & Hr1 & Hs1).
  { destruct o as [lo hi|lo hi]; cbn [tree_op list_op].
    - destruct (RT_AddRange_spec t lo hi Ht) as (t1 & -> & Ht1 & E1), (AddRange_spec r lo hi Hr) as (r1 & -> & Hr1 & E2).
      exists t1, r1. split_and!; try done. intros p. by rewrite E1, E2, Hs.
    - destruct (RT_DeleteRange_spec t lo hi Ht) as (t1 & -> & Ht1 & E1),
        (DeleteRange_spec r lo hi Hr) as (r1 & -> & Hr1 & E2).
      exists t1, r1. split_and!; try done. intros p. by rewrite E1, E2, Hs. }
  by apply IH.
Qed.

(** C38. Whatever ranges are added and deleted, in whatever order: neither the tree
    nor the list panics, and both answer every search alike. *)
Theorem range_stores_agree (ops : list range_op) :
  ∃ t r, foldM tree_op ops NewRangeTree = Ret t ∧ foldM list_op ops NewRangeList = Ret r ∧
    ∀ p, Search r p = Ret (RT_Search t p).
Proof.
  destruct (ops_agree ops NewRangeTree NewRangeList) as (t & r & E1 & E2 & _ & Hr & Hs); [done| |done|].
  { split; [constructor|reflexivity]. }
  exists t, r. split_and!; [done|done|]. intros p. by rewrite Search_member_lemma, Hs.
Qed.

Lemma RT_Add_union t other : rt_wf t → rt_wf other → ∃ t', RT_Add t other = Ret t' ∧ rt_wf t' ∧
  ∀ p, RT_Search t' p = RT_Search t p || RT_Search other p.
Proof.
  intros Ht Ho. unfold RT_Add.
  assert (∃ t', RT_add_pairs t (RT_Range other) = Ret t' ∧ rt_wf t' ∧
    ∀ p, RT_Search t' p = RT_Search t p || existsb (λ rg, in_range p (fst rg) (snd rg)) (RT_Range other))
    as (t' & E & W & S).
  { revert t Ht. induction (RT_Range other) as [|[lo hi] ps IH]; intros t Ht.
    - exists t. split_and!; try done. intros p. by rewrite orb_false_r.
    - unfold RT_add_pairs in *. cbn [foldM fst snd]. destruct (RT_AddRange_spec t lo hi Ht) as (t1 & -> & H1 & E1).
      destruct (IH t1 H1) as (t' & -> & H' & E'). exists t'. split_and!; try done. intros p. cbn [existsb fst snd].
      by rewrite E', E1, orb_assoc. }
  exists t'. split_and!; try done. intros p. by rewrite S, (RT_Search_spec other p Ho).
Qed.

(** The text form: ranges in brackets, joined by [+]. *)
Example from_string : ∃ t, NewRangeTreeFromString "[a,c]+[m,q]" = Ret t ∧ RT_Search t "b" = true ∧ RT_Search t "d" = false.
Proof. eexists. by vm_compute. Qed.
