(* ===== verification/Text.v ===== *)
(** * Numbers in text

    Models what the sources use of [strconv] and [strings] to read numbers,
    [source/libs/math/fraction.go], and the start time of a node
    ([parseStartTime] of [source/urd/main/start.go]; that of
    [source/pyramid/main/start.go] is the same). *)

From stdpp Require Import base list gmap strings numbers pretty.
From Stdlib Require Import ZArith Lia.
From S2P Require Import Prelude RangeList.

(** ** Decimal numbers *)

Definition digit (c : Ascii.ascii) : option Z :=
  let n := Z.of_N (Ascii.N_of_ascii c) in
  if (48 <=? n) && (n <=? 57) then Some (n - 48) else None.
Fixpoint digits (s : string) (acc : Z) : option Z :=
  match s with
  | EmptyString => Some acc
  | String c s' => match digit c with Some d => digits s' (10 * acc + d) | None => None end
  end.
Definition MaxInt64 : Z := 2 ^ 63 - 1.
Definition MaxUint64 : Z := 2 ^ 64 - 1.
(** [strconv.ParseUint(s, 10, 64)]; [None] is an error. *)
Definition ParseUint (s : string) : option Z :=
  match s with
  | EmptyString => None
  | _ => n ← digits s 0; if n <=? MaxUint64 then Some n else None
  end.
(** [strconv.Atoi]. *)
Definition Atoi (s : string) : option Z :=
  let '(neg, body) :=
    match s with
    | String c s' => if Ascii.eqb c (Ascii.ascii_of_nat 45) then (true, s') else if Ascii.eqb c (Ascii.ascii_of_nat 43) then (false, s') else (false, s)
    | EmptyString => (false, s)
    end in
  match body with
  | EmptyString => None
  | _ =>
      n ← digits body 0;
      let z := if neg : bool then - n else n in
      if (- 2 ^ 63 <=? z) && (z <=? MaxInt64) then Some z else None
  end.

Lemma digit_char n : (n < 10)%N → digit (pretty_N_char n) = Some (Z.of_N n).
Proof.
  intros Hn. assert (∀ m, (m < 10)%nat → digit (pretty_N_char (N.of_nat m)) = Some (Z.of_N (N.of_nat m))) as Hall.
  { intros m Hm. do 10 (destruct m as [|m]; [reflexivity|]). lia. }
  specialize (Hall (N.to_nat n) ltac:(lia)). by rewrite N2Nat.id in Hall.
Qed.
Lemma digits_go x : ∀ s, digits (pretty_N_go x s) 0 = digits s (Z.of_N x).
Proof.
  induction (N.lt_wf_0 x) as [x _ IH]. intros s. destruct (decide (x = 0)%N) as [->|Hx]; [by rewrite pretty_N_go_0|].
  rewrite pretty_N_go_step by lia. rewrite IH by (apply N.div_lt; lia). cbn [digits].
  rewrite digit_char by (apply N.mod_lt; lia). f_equal. rewrite N2Z.inj_div, N2Z.inj_mod. change (Z.of_N 10) with 10.
  pose proof (Z.div_mod (Z.of_N x) 10 ltac:(lia)). lia.
Qed.
Lemma digits_pretty (n : N) : digits (pretty n) 0 = Some (Z.of_N n).
Proof. unfold pretty, pretty_N. case_decide as Hn; [by subst|]. by rewrite digits_go. Qed.
(** A number in text begins with a digit. *)
Lemma pretty_go_head x : ∀ s, (0 < x)%N ∨ (∃ c s', s = String c s' ∧ is_Some (digit c)) → ∃ c s', pretty_N_go x s = String c s' ∧ is_Some (digit c).
Proof.
  induction (N.lt_wf_0 x) as [x _ IH]. intros s Hs. destruct (decide (x = 0)%N) as [->|Hx]; [rewrite pretty_N_go_0; destruct Hs; [lia|done]|].
  rewrite pretty_N_go_step by lia. apply IH; [apply N.div_lt; lia|]. right. eexists _, _. split; [done|].
  rewrite digit_char by (apply N.mod_lt; lia). by eexists.
Qed.
Lemma pretty_head (n : N) : ∃ c s', pretty n = String c s' ∧ is_Some (digit c).
Proof.
  unfold pretty, pretty_N. case_decide as Hn; [eexists _, _; split; [reflexivity|exists 0; reflexivity]|]. apply pretty_go_head. left. lia.
Qed.
Lemma digit_not_sign c : is_Some (digit c) → Ascii.eqb c (Ascii.ascii_of_nat 45) = false ∧ Ascii.eqb c (Ascii.ascii_of_nat 43) = false.
Proof. intros [d Hd]. split; (destruct (Ascii.eqb_spec c (Ascii.ascii_of_nat 45)), (Ascii.eqb_spec c (Ascii.ascii_of_nat 43)); subst; done). Qed.
Lemma ParseUint_pretty n : 0 ≤ n ≤ MaxUint64 → ParseUint (pretty n) = Some n.
Proof.
  intros Hn. assert (pretty n = pretty (Z.to_N n)) as -> by (destruct n; [done|done|lia]).
  destruct (pretty_head (Z.to_N n)) as (c & s & E & _). unfold ParseUint. rewrite E, <- E, digits_pretty. cbn [mbind option_bind].
  rewrite Z2N.id by lia. destruct (Z.leb_spec n MaxUint64); [done|lia].
Qed.
Lemma Atoi_pretty z : - 2 ^ 63 ≤ z ≤ MaxInt64 → Atoi (pretty z) = Some z.
Proof.
  intros Hz. unfold MaxInt64 in *. assert (∀ n : N, Z.of_N n ≤ 2 ^ 63 - 1 → Atoi (pretty n) = Some (Z.of_N n)) as Hpos.
  { intros n Hn. destruct (pretty_head n) as (c & s & E & Hc). unfold Atoi. rewrite E. destruct (digit_not_sign c Hc) as [-> ->].
    rewrite <- E, digits_pretty. cbn [mbind option_bind]. unfold MaxInt64.
    destruct (Z.leb_spec (- 2 ^ 63) (Z.of_N n)), (Z.leb_spec (Z.of_N n) (2 ^ 63 - 1)); try lia. done. }
  destruct z as [|p|p]; [reflexivity|apply (Hpos (Npos p)); lia|].
  change (pretty (Z.neg p)) with (String (Ascii.ascii_of_nat 45) (pretty (Npos p))). unfold Atoi. cbn [Ascii.eqb].
  destruct (pretty_head (Npos p)) as (c & s & E & _).
  change (Ascii.eqb (Ascii.ascii_of_nat 45) (Ascii.ascii_of_nat 45)) with true. cbv iota. rewrite E, <- E, digits_pretty. cbn [mbind option_bind].
  unfold MaxInt64. destruct (Z.leb_spec (- 2 ^ 63) (- Z.of_N (Npos p))), (Z.leb_spec (- Z.of_N (Npos p)) (2 ^ 63 - 1)); try lia. done.
Qed.

(** ** Separators *)

Fixpoint sep_free (sep : Ascii.ascii) (s : string) : bool :=
  match s with EmptyString => true | String c s' => negb (Ascii.eqb c sep) && sep_free sep s' end.
Lemma split_free sep w : sep_free sep w = true → split_on sep w = [w].
Proof. induction w as [|c w IH]; cbn; [done|]. intros [Hc%negb_true_iff Hw]%andb_true_iff. by rewrite Hc, IH. Qed.
Lemma split_app sep w s : sep_free sep w = true → split_on sep (String.append w (String sep s)) = w :: split_on sep s.
Proof.
  induction w as [|c w IH].
  - intros _. change (split_on sep (String sep s) = EmptyString :: split_on sep s). cbn. by rewrite Ascii.eqb_refl.
  - cbn [sep_free]. intros [Hc%negb_true_iff Hw]%andb_true_iff.
    change (String.append (String c w) (String sep s)) with (String c (String.append w (String sep s))). cbn [split_on].
    by rewrite Hc, (IH Hw).
Qed.
(** No digit and no sign is a separator. *)
Lemma pretty_sep_free sep (z : Z) : digit sep = None → Ascii.eqb (Ascii.ascii_of_nat 45) sep = false → sep_free sep (pretty z) = true.
Proof.
  intros Hsep Hminus. assert (∀ n, (n < 10)%N → Ascii.eqb (pretty_N_char n) sep = false) as Hc.
  { intros n Hn. destruct (Ascii.eqb_spec (pretty_N_char n) sep) as [<-|]; [|done]. by rewrite digit_char in Hsep. }
  assert (∀ x s, sep_free sep s = true → sep_free sep (pretty_N_go x s) = true) as Hgo.
  { intros x. induction (N.lt_wf_0 x) as [x _ IH]. intros s Hs. destruct (decide (x = 0)%N) as [->|Hx]; [by rewrite pretty_N_go_0|].
    rewrite pretty_N_go_step by lia. apply IH; [apply N.div_lt; lia|]. cbn [sep_free]. by rewrite Hc, Hs by (apply N.mod_lt; lia). }
  assert (∀ n : N, sep_free sep (pretty n) = true) as HN.
  { intros n. unfold pretty, pretty_N. case_decide as Hn; [|by apply Hgo]. change (negb (Ascii.eqb (pretty_N_char 0) sep) && true = true). by rewrite Hc by lia. }
  destruct z as [|p|p]; [apply (HN 0%N)|apply (HN (Npos p))|].
  change (pretty (Z.neg p)) with (String (Ascii.ascii_of_nat 45) (pretty (Npos p))). cbn [sep_free]. by rewrite Hminus, HN.
Qed.

(** ** Fractions *)

Record Fraction := { Numerator : Z; Denominator : Z }.
Inductive fraction_error := ErrSlash | ErrNumber | ErrZero | ErrOverflow.
Definition slash : Ascii.ascii := Ascii.ascii_of_nat 47.
Definition Fraction_String (fr : Fraction) : string :=
  String.append (pretty (Numerator fr)) (String slash (pretty (Denominator fr))).
Definition ParseFraction (f : string) : Fraction + fraction_error :=
  match split_on slash f with
  | [a; b] =>
      match ParseUint a with
      | None => inr ErrNumber
      | Some numerator =>
          match ParseUint b with
          | None => inr ErrNumber
          | Some denominator =>
              if denominator =? 0 then inr ErrZero
              else if (MaxInt64 <? numerator) || (MaxInt64 <? denominator) then inr ErrOverflow
              else inl {| Numerator := numerator; Denominator := denominator |}
          end
      end
  | _ => inr ErrSlash
  end.

Lemma digits_nonneg s : ∀ acc n, 0 ≤ acc → digits s acc = Some n → 0 ≤ n.
Proof.
  induction s as [|c s IH]; intros acc n Ha; cbn; [intros [= <-]; done|]. unfold digit.
  destruct (_ && _) eqn:Ed; [|done]. apply IH. lia.
Qed.
Lemma ParseUint_range s n : ParseUint s = Some n → 0 ≤ n ≤ MaxUint64.
Proof.
  unfold ParseUint. destruct s as [|c s]; [done|]. destruct (digits (String c s) 0) as [m|] eqn:E; cbn [mbind option_bind]; [|done].
  destruct (Z.leb_spec m MaxUint64); [|done]. intros [= <-]. apply digits_nonneg in E; lia.
Qed.

(** Printing a fraction of unsigned 64-bit numbers and parsing it gives it back
    exactly when its denominator is positive and both parts are below 2^63;
    otherwise the error says which part is wrong.  Whatever text is parsed, a
    fraction that is returned is of that kind. *)
Theorem ParseFraction_spec (fr : Fraction) (s : string)
    (Hn : 0 ≤ Numerator fr ≤ MaxUint64) (Hd : 0 ≤ Denominator fr ≤ MaxUint64) :
  ParseFraction (Fraction_String fr) =
    (if Denominator fr =? 0 then inr ErrZero
     else if (MaxInt64 <? Numerator fr) || (MaxInt64 <? Denominator fr) then inr ErrOverflow else inl fr) ∧
  ∀ fr', ParseFraction s = inl fr' → 0 ≤ Numerator fr' ≤ MaxInt64 ∧ 1 ≤ Denominator fr' ≤ MaxInt64.
Proof.
  split.
  - unfold ParseFraction, Fraction_String. rewrite split_app, split_free by (apply pretty_sep_free; reflexivity).
    rewrite !ParseUint_pretty by done. by destruct fr.
  - intros fr'. unfold ParseFraction. destruct (split_on slash s) as [|a [|b [|]]]; try done.
    destruct (ParseUint a) as [n|] eqn:Ea; [|done]. destruct (ParseUint b) as [d|] eqn:Eb; [|done].
    apply ParseUint_range in Ea, Eb. destruct (Z.eqb_spec d 0); [done|].
    destruct (Z.ltb_spec MaxInt64 n), (Z.ltb_spec MaxInt64 d); try done. intros [= <-]. cbn. lia.
Qed.
Lemma ParseFraction_spec_witness :
  ParseFraction (Fraction_String {| Numerator := 2; Denominator := 3 |}) = inl {| Numerator := 2; Denominator := 3 |} ∧
  ParseFraction "2/3" = inl {| Numerator := 2; Denominator := 3 |}.
Proof.
  destruct (ParseFraction_spec {| Numerator := 2; Denominator := 3 |} "2/3") as [E _]; [vm_compute; split; discriminate..|].
  split; [exact E|reflexivity].
Defined.

(** ** Start times *)

Definition colon : Ascii.ascii := Ascii.ascii_of_nat 58.
Inductive time_error := ErrFormat | ErrHours | ErrMinutes | ErrRange.
Definition parseStartTime (startTimeStr : string) : Z * Z + time_error :=
  match split_on colon startTimeStr with
  | [a; b] =>
      match Atoi a with
      | None => inr ErrHours
      | Some hours =>
          match Atoi b with
          | None => inr ErrMinutes
          | Some minutes =>
              if (hours <? 0) || (23 <? hours) || (minutes <? 0) || (59 <? minutes) then inr ErrRange
              else inl (hours, minutes)
          end
      end
  | _ => inr ErrFormat
  end.
(** Two numbers around a colon are read as a time of the day exactly when they
    are one. *)
Theorem parseStartTime_spec (h m : Z) (Hh : - 2 ^ 63 ≤ h ≤ MaxInt64) (Hm : - 2 ^ 63 ≤ m ≤ MaxInt64) :
  parseStartTime (String.append (pretty h) (String colon (pretty m))) =
    if bool_decide (0 ≤ h < 24 ∧ 0 ≤ m < 60) then inl (h, m) else inr ErrRange.
Proof.
  unfold parseStartTime. rewrite split_app, split_free by (apply pretty_sep_free; reflexivity). rewrite !Atoi_pretty by done.
  case_bool_decide as Hr; destruct (Z.ltb_spec h 0), (Z.ltb_spec 23 h), (Z.ltb_spec m 0), (Z.ltb_spec 59 m); cbn; try done; lia.
Qed.
