(* ===== verification/Signer.v ===== *)
(** * Protocol buffers and BLS signatures

    [MustProtoBytes] models [source/utils/must_proto_bytes.go] and its copies;
    the rest models [source/utils/signer/bls.go].  The protobuf runtime and
    the BLS library are not part of the repository: they are the classes
    [ProtoCodec] and [BLS], which state what the code relies on. *)

From stdpp Require Import base list gmap strings numbers countable.
From Stdlib Require Import ZArith Lia.
From S2P Require Import Prelude Convert BitVector.

(** ** Protocol buffers *)

(** [proto.Marshal] fails only on a string field that is not UTF-8;
    [proto.Unmarshal] reads back what [Marshal] wrote. *)
Class ProtoCodec (M : Type) := {
  marshal : M → option bytes;
  unmarshal : bytes → option M;
  unmarshal_marshal : ∀ m bz, marshal m = Some bz → unmarshal bz = Some m
}.

Definition MustProtoBytes {M} `{ProtoCodec M} (m : M) : outcome bytes :=
  match marshal m with Some bz => Ret bz | None => Panic end.

Lemma MustProtoBytes_inj {M} `{ProtoCodec M} (m m' : M) bz :
  MustProtoBytes m = Ret bz → MustProtoBytes m' = Ret bz → m = m'.
Proof.
  unfold MustProtoBytes. destruct (marshal m) eqn:E; [|done]. destruct (marshal m') eqn:E'; [|done].
  intros [= ->] [= ->]. apply unmarshal_marshal in E, E'. congruence.
Qed.

(** A concrete codec: self-delimiting byte strings, composed by structure.  It
    instantiates [ProtoCodec] where a concrete codec is needed. *)
Class Ser (A : Type) := {
  ser : A → bytes;
  deser : bytes → option (A * bytes);
  deser_ser : ∀ a rest, deser (ser a ++ rest) = Some (a, rest)
}.

Lemma deser_ser_nil {A} `{Ser A} (a : A) : deser (ser a) = Some (a, []).
Proof. rewrite <- (app_nil_r (ser a)). apply deser_ser. Qed.

Lemma Some_inj {A} (a b : A) : Some a = Some b → a = b.
Proof. by injection 1. Qed.

(** A number is its bits, ended by a 2. *)
Fixpoint pos_bits (p : positive) : bytes :=
  match p with xH => [2] | xO p => 0 :: pos_bits p | xI p => 1 :: pos_bits p end.
Fixpoint bits_pos (l : bytes) : option (positive * bytes) :=
  match l with
  | [] => None
  | b :: l' =>
      if b =? 2 then Some (xH, l')
      else '(p, rest) ← bits_pos l'; Some (if b =? 0 then (xO p, rest) else (xI p, rest))
  end.

Lemma bits_pos_bits p rest : bits_pos (pos_bits p ++ rest) = Some (p, rest).
Proof. induction p as [p IH|p IH|]; simpl; [by rewrite IH..|done]. Qed.

#[export] Instance Z_ser : Ser Z.
Proof.
  refine {| ser := λ z, pos_bits (encode z);
            deser := λ l, '(p, rest) ← bits_pos l; z ← decode p; Some (z, rest) |}.
  intros z rest. rewrite bits_pos_bits. cbn [mbind option_bind]. by rewrite decode_encode.
Defined.

#[export] Instance prod_ser {A B} `{Ser A} `{Ser B} : Ser (A * B).
Proof.
  refine {| ser := λ p, ser (fst p) ++ ser (snd p);
            deser := λ l, '(a, l1) ← deser l; '(b, l2) ← deser l1; Some ((a, b), l2) |}.
  intros [a b] rest. simpl. rewrite <- app_assoc, deser_ser. simpl. by rewrite deser_ser.
Defined.

Fixpoint deser_n {A} `{Ser A} (n : nat) (l : bytes) : option (list A * bytes) :=
  match n with
  | O => Some ([], l)
  | S n' => '(a, l1) ← deser l; '(rest, l2) ← deser_n n' l1; Some (a :: rest, l2)
  end.
#[export] Instance list_ser {A} `{Ser A} : Ser (list A).
Proof.
  refine {| ser := λ l, ser (zlen l) ++ concat (map ser l);
            deser := λ l, '(n, l1) ← (deser l : option (Z * bytes)); deser_n (Z.to_nat n) l1 |}.
  intros l rest. rewrite <- app_assoc, deser_ser. simpl. unfold zlen. rewrite Nat2Z.id.
  induction l as [|a l IH]; [done|]. simpl. rewrite <- app_assoc, deser_ser. simpl. by rewrite IH.
Defined.

Definition iso_ser {A B} `{Ser A} (f : B → A) (g : A → B) (Hgf : ∀ b, g (f b) = b) : Ser B.
Proof.
  refine {| ser := λ b, ser (f b); deser := λ l, '(a, rest) ← deser l; Some (g a, rest) |}.
  intros b rest. rewrite deser_ser. simpl. by rewrite Hgf.
Defined.

#[export] Instance bool_ser : Ser bool.
Proof. refine (iso_ser (λ b : bool, if b then 1 else 0) (λ z, z =? 1) _). by intros []. Defined.
#[export] Instance string_ser : Ser string.
Proof.
  refine (iso_ser (λ s, map (λ a, Z.of_N (Ascii.N_of_ascii a)) (String.list_ascii_of_string s))
    (λ l, String.string_of_list_ascii (map (λ z, Ascii.ascii_of_N (Z.to_N z)) l)) _).
  intros s. rewrite map_map.
  rewrite (map_ext _ id) by (intros a; rewrite N2Z.id; apply Ascii.ascii_N_embedding).
  rewrite map_id. apply String.string_of_list_ascii_of_string.
Defined.
#[export] Instance option_ser {A} `{Ser A} : Ser (option A).
Proof.
  refine (iso_ser (λ o : option A, match o with Some a => [a] | None => [] end)
    (λ l, match l with a :: _ => Some a | [] => None end) _). by intros [].
Defined.

Definition ser_codec (M : Type) `{Ser M} : ProtoCodec M.
Proof.
  refine {| marshal := λ m, Some (ser m);
            unmarshal := λ bz, match deser bz with Some (m, []) => Some m | _ => None end |}.
  intros m bz [= <-]. by rewrite deser_ser_nil.
Defined.

(** ** The BLS library *)

(** A string of ASCII characters, which is valid UTF-8. *)
Fixpoint is_ascii (s : string) : bool :=
  match s with EmptyString => true | String c s => (Ascii.N_of_ascii c <? 128)%N && is_ascii s end.

(** Keys and signatures with the operations the code calls, the group law of
    aggregation, and its documented correctness: what [SerializeToHexStr]
    writes is hexadecimal and read back, a signature verifies under its key,
    and signatures of one message that verify individually verify
    aggregated. *)
Class BLS := {
  SecretKey : Type;
  PublicKey : Type;
  BSign : Type;
  BLS12_381 : Z;
  bls_Init : Z → bool;
  sk_deserialize : string → option SecretKey;
  sk_serialize : SecretKey → string;
  pk_deserialize : string → option PublicKey;
  pk_serialize : PublicKey → string;
  sig_deserialize : string → option BSign;
  sig_serialize : BSign → string;
  sig_zero : BSign;
  sig_add : BSign → BSign → BSign;
  pk_zero : PublicKey;
  pk_add : PublicKey → PublicKey → PublicKey;
  SignByte : SecretKey → bytes → BSign;
  GetPublicKey : SecretKey → PublicKey;
  VerifyByte : BSign → PublicKey → bytes → bool;
  Init_supported : bls_Init BLS12_381 = true;
  sk_roundtrip : ∀ sk, sk_deserialize (sk_serialize sk) = Some sk;
  pk_roundtrip : ∀ pk, pk_deserialize (pk_serialize pk) = Some pk;
  sig_roundtrip : ∀ s, sig_deserialize (sig_serialize s) = Some s;
  sig_hex : ∀ s, is_ascii (sig_serialize s) = true;
  sig_zero_l : ∀ s, sig_add sig_zero s = s;
  pk_zero_l : ∀ p, pk_add pk_zero p = p;
  sign_verifies : ∀ sk m, VerifyByte (SignByte sk m) (GetPublicKey sk) m = true;
  aggregate_verifies : ∀ s1 p1 s2 p2 m,
    VerifyByte s1 p1 m = true → VerifyByte s2 p2 m = true →
    VerifyByte (sig_add s1 s2) (pk_add p1 p2) m = true
}.

Section Signer.
Context {B : BLS}.

Record Signer := { privateKey : SecretKey }.
(** A public key pointer may be nil. *)
Record Verifier := { publicKeys : list (option PublicKey) }.

Definition NewSigner (privateKeyStr : string) : option Signer :=
  match sk_deserialize privateKeyStr with
  | None => None
  | Some privateKey => Some {| privateKey := privateKey |}
  end.

Fixpoint verifier_keys (strs : list string) : option (list (option PublicKey)) :=
  match strs with
  | [] => Some []
  | s :: strs' =>
      match pk_deserialize s with
      | None => None
      | Some key => ks ← verifier_keys strs'; Some (Some key :: ks)
      end
  end.
Definition NewVerifier (publicKeysStr : list string) : option Verifier :=
  ks ← verifier_keys publicKeysStr; Some {| publicKeys := ks |}.

(** The [k]-th key pair; [SetByCSPRNG] lists the secret keys drawn.  [None] is
    the error of [bls.Init]. *)
Definition BaseCurve : Z := BLS12_381.
Definition NewBLSKeyPair (SetByCSPRNG : nat → SecretKey) (curve : Z) (k : nat) : option (string * string) :=
  if negb (bls_Init curve) then None
  else
    let p := SetByCSPRNG k in
    Some (sk_serialize p, pk_serialize (GetPublicKey p)).
(** Both strings of a pair are read back, as the two keys of one signer. *)
Lemma NewBLSKeyPair_paired SetByCSPRNG k : ∃ priv pub sk, NewBLSKeyPair SetByCSPRNG BaseCurve k = Some (priv, pub) ∧
  sk_deserialize priv = Some sk ∧ pk_deserialize pub = Some (GetPublicKey sk).
Proof.
  unfold NewBLSKeyPair, BaseCurve. rewrite Init_supported. cbn [negb]. eexists _, _, (SetByCSPRNG k).
  split_and!; [done|apply sk_roundtrip|apply pk_roundtrip].
Qed.

Definition Signer_Sign (s : Signer) (data : bytes) : string :=
  sig_serialize (SignByte (privateKey s) data).

Definition Verifier_Size (s : Verifier) : Z := zlen (publicKeys s).

(** The loop that adds the public keys marked in the bitmap, from [i] on;
    [None] is the early [return false] on a nil key. *)
Fixpoint add_keys (n : nat) (s : Verifier) (bitMap : option BitVector) (i : Z) (publicKey : PublicKey)
    : outcome (option PublicKey) :=
  match n with
  | O => Ret (Some publicKey)
  | S n' =>
      b ← GetIndex bitMap i;
      if b : bool then
        k ← idx (publicKeys s) i;
        match k with
        | None => Ret None
        | Some key => add_keys n' s bitMap (i + 1) (pk_add publicKey key)
        end
      else add_keys n' s bitMap (i + 1) publicKey
  end.

Definition VerifyAggregateSignature (s : Verifier) (aggSig : string) (msg bitMapBytes : bytes)
    : outcome bool :=
  bitMap ← NewBitArrayFromByte bitMapBytes;
  if negb (zlen (publicKeys s) =? Size bitMap) then Ret false
  else match sig_deserialize aggSig with
       | None => Ret false
       | Some sig =>
           pk ← add_keys (Z.to_nat (Size bitMap)) s bitMap 0 pk_zero;
           match pk with
           | None => Ret false
           | Some publicKey => Ret (VerifyByte sig publicKey msg)
           end
       end.

Definition Verify (s : Verifier) (aggSig : string) (msg : bytes) (index : Z) : outcome bool :=
  if zlen (publicKeys s) <=? index then Ret false
  else
    k ← idx (publicKeys s) index;
    match k with
    | None => Ret false
    | Some key =>
        match sig_deserialize aggSig with
        | None => Ret false
        | Some sig => Ret (VerifyByte sig key msg)
        end
    end.

Fixpoint aggregate_loop (aggSig : BSign) (sigs : list string) : option BSign :=
  match sigs with
  | [] => Some aggSig
  | sig :: sigs' =>
      match sig_deserialize sig with
      | None => None
      | Some subSign => aggregate_loop (sig_add aggSig subSign) sigs'
      end
  end.
Definition AggregateSignatures (sigs : list string) : option string :=
  aggSig ← aggregate_loop sig_zero sigs; Some (sig_serialize aggSig).

(** ** Lemmas *)

Lemma Verify_true s sig msg index : Verify s sig msg index = Ret true →
  0 ≤ index < zlen (publicKeys s) ∧ ∃ key σ, publicKeys s !! Z.to_nat index = Some (Some key) ∧
    sig_deserialize sig = Some σ ∧ VerifyByte σ key msg = true.
Proof.
  unfold Verify. destruct (Z.leb_spec (zlen (publicKeys s)) index); [done|].
  destruct (idx (publicKeys s) index) as [k|] eqn:Ek; [|done]. cbn [mbind outcome_bind].
  apply idx_Ret in Ek as [? Ek]. destruct k as [key|]; [|done].
  destruct (sig_deserialize sig) as [σ|] eqn:Es; [|done]. intros [= Hv].
  split; [lia|]. by exists key, σ.
Qed.

(** [Verify] panics exactly on a negative index. *)
Lemma Verify_panics s sig msg index : Verify s sig msg index = Panic ↔ index < 0.
Proof.
  unfold Verify. pose proof (zlen_nonneg (publicKeys s)).
  destruct (Z.leb_spec (zlen (publicKeys s)) index); [split; [done|lia]|].
  destruct (Z.lt_ge_cases index 0).
  - unfold idx. destruct (Z.ltb_spec index 0); [done|lia].
  - destruct (idx_in_range (publicKeys s) index) as (k & -> & _); [lia|]. cbn.
    destruct k; [|split; [done|lia]]. case_match; split; (done || lia).
Qed.

(** The signatures of the positions marked in a bitmap, in order. *)
Fixpoint marked_sigs (sigs : list (option string)) (bit : Z → bool) (i : Z) : list string :=
  match sigs with
  | [] => []
  | s :: sigs' =>
      (if bit i then match s with Some x => [x] | None => [] end else []) ++
      marked_sigs sigs' bit (i + 1)
  end.

(** Aggregating along the positions from [i] on keeps "verifies" for the
    running sums, which start at zero ([fresh]) or verify already. *)
Definition running (fresh : bool) (aggSig : BSign) (publicKey : PublicKey) (msg : bytes) : Prop :=
  if fresh then aggSig = sig_zero ∧ publicKey = pk_zero else VerifyByte aggSig publicKey msg = true.

Lemma running_add fresh aggSig publicKey msg σ key :
  running fresh aggSig publicKey msg → VerifyByte σ key msg = true →
  running false (sig_add aggSig σ) (pk_add publicKey key) msg.
Proof.
  destruct fresh; simpl; [intros [-> ->] ?; by rewrite sig_zero_l, pk_zero_l|apply aggregate_verifies].
Qed.

Lemma aggregate_keys s v msg (Hwf : bv_wf v) n : ∀ fresh sigs i aggSig publicKey,
  0 ≤ i → i + Z.of_nat n = zlen (publicKeys s) → length sigs = n →
  (∀ k, 0 ≤ k < Z.of_nat n → bv_bit v (i + k) = true →
     ∃ x, sigs !! Z.to_nat k = Some (Some x) ∧ Verify s x msg (i + k) = Ret true) →
  running fresh aggSig publicKey msg →
  ∃ σ pk, aggregate_loop aggSig (marked_sigs sigs (bv_bit v) i) = Some σ ∧
    add_keys n s (Some v) i publicKey = Ret (Some pk) ∧
    running (fresh && bool_decide (marked_sigs sigs (bv_bit v) i = [])) σ pk msg.
Proof.
  induction n as [|n IH]; intros fresh sigs i aggSig publicKey Hi Hn Hlen Hall Hst.
  - destruct sigs; [|done]. exists aggSig, publicKey. split_and!; try done.
    simpl. by rewrite andb_true_r.
  - destruct sigs as [|s0 sigs]; [done|]. cbn [marked_sigs add_keys].
    rewrite GetIndex_bit by done. cbn [mbind outcome_bind].
    assert (∀ k, 0 ≤ k < Z.of_nat n → bv_bit v (i + 1 + k) = true →
      ∃ x, sigs !! Z.to_nat k = Some (Some x) ∧ Verify s x msg (i + 1 + k) = Ret true) as Hall'.
    { intros k Hk Hbit. destruct (Hall (k + 1)) as (x & Hx & Hv); [lia|by rewrite <- Hbit; f_equal; lia|].
      exists x. replace (Z.to_nat (k + 1)) with (S (Z.to_nat k)) in Hx by lia.
      replace (i + 1 + k) with (i + (k + 1)) by lia. done. }
    destruct (bv_bit v i) eqn:Ebit; [|apply IH; [lia|lia|by injection Hlen|done|done]].
    destruct (Hall 0) as (x & Hx & Hv); [lia|by rewrite Z.add_0_r|].
    injection Hx as ->. rewrite Z.add_0_r in Hv.
    apply Verify_true in Hv as (Hr & key & σ & Hk & Hσ & Hvb).
    assert (idx (publicKeys s) i = Ret (Some key)) as -> by (by apply idx_Ret).
    cbn [mbind outcome_bind app aggregate_loop]. rewrite Hσ, andb_false_r.
    apply (IH false); [lia|lia|by injection Hlen|done|by eapply running_add].
Qed.

(** The bitmap and signatures of a set of signers of one message: if every
    marked position carries a signature that verifies alone and one position
    is marked, the aggregate of the marked signatures exists and verifies
    under the bitmap. *)
Lemma aggregate_complete (s : Verifier) (sigs : list (option string)) (v : BitVector) (msg : bytes) :
  bv_wf v → Bits v = zlen (publicKeys s) → zlen sigs = zlen (publicKeys s) →
  (∀ k, bv_bit v k = true →
     ∃ x, sigs !! Z.to_nat k = Some (Some x) ∧ Verify s x msg k = Ret true) →
  marked_sigs sigs (bv_bit v) 0 ≠ [] →
  ∃ agg, AggregateSignatures (marked_sigs sigs (bv_bit v) 0) = Some agg ∧
    VerifyAggregateSignature s agg msg (Byte (Some v)) = Ret true.
Proof.
  intros Hwf Hb Hlen Hall Hne.
  destruct (aggregate_keys s v msg Hwf (length (publicKeys s)) true sigs 0 sig_zero pk_zero)
    as (σ & pk & E1 & E2 & E3); [lia|unfold zlen; lia|unfold zlen in Hlen; lia|by intros; apply Hall|done|].
  rewrite bool_decide_false in E3 by done. simpl in E3.
  exists (sig_serialize σ). unfold AggregateSignatures. rewrite E1. split; [done|].
  unfold VerifyAggregateSignature. destruct (Byte_roundtrip v Hwf) as [_ ->]. cbn [mbind outcome_bind Size].
  rewrite Hb, Z.eqb_refl. cbn [negb]. rewrite sig_roundtrip. unfold zlen. rewrite Nat2Z.id, E2.
  cbn. by rewrite E3.
Qed.
End Signer.

(** ** A concrete signature scheme

    Additive keys, signatures and aggregation over the integers: it satisfies
    every law of [BLS] (and is of course not secure).  It instantiates the
    class where a concrete scheme is needed. *)
Module LinearBLS.

Fixpoint pos_string (p : positive) : string :=
  match p with
  | xH => EmptyString
  | xO p => String (Ascii.ascii_of_nat 48) (pos_string p)
  | xI p => String (Ascii.ascii_of_nat 49) (pos_string p)
  end.
Fixpoint string_pos (s : string) : positive :=
  match s with
  | EmptyString => xH
  | String c s => if Ascii.eqb c (Ascii.ascii_of_nat 48) then xO (string_pos s) else xI (string_pos s)
  end.
Lemma string_pos_string p : string_pos (pos_string p) = p.
Proof. induction p; simpl; congruence. Qed.

Definition ser (z : Z) : string := pos_string (encode z).
Definition deser (s : string) : option Z := decode (string_pos s).
Lemma deser_ser z : deser (ser z) = Some z.
Proof. unfold deser, ser. rewrite string_pos_string. apply decode_encode. Qed.

Lemma ser_ascii z : is_ascii (ser z) = true.
Proof. unfold ser. generalize (encode z). intros p. induction p; cbn; done. Qed.

(** A small digest of the message. *)
Definition digest (m : bytes) : Z := 1 + foldr (λ b acc, (b + 3 * acc) mod 65521) 0 m.

Definition linear_BLS : BLS.
Proof.
  refine {| SecretKey := Z; PublicKey := Z; BSign := Z;
            BLS12_381 := 5; bls_Init := λ c, c =? 5;
            sk_deserialize := deser; pk_deserialize := deser; sig_deserialize := deser;
            sk_serialize := ser; pk_serialize := ser;
            sig_serialize := ser; sig_zero := 0; sig_add := Z.add; pk_zero := 0; pk_add := Z.add;
            SignByte := λ sk m, sk * digest m; GetPublicKey := λ sk, sk;
            VerifyByte := λ s p m, s =? p * digest m |}.
  - done.
  - apply deser_ser.
  - apply deser_ser.
  - apply deser_ser.
  - apply ser_ascii.
  - done.
  - done.
  - intros. apply Z.eqb_refl.
  - intros s1 p1 s2 p2 m H1%Z.eqb_eq H2%Z.eqb_eq. apply Z.eqb_eq. lia.
Defined.

End LinearBLS.
