(* ===== verification/BlockLog.v ===== *)
(** * The block log

    Models [source/logger/blocklogger]: events of consensus, the writer of the
    log and of the brief log (one JSON line per event), the reader of the brief
    log, and what it computes: the transactions committed in a range of heights
    and the periods of heights with transactions.  JSON and the text template
    are the class [EventCodec]; a file is its content.  The floating-point
    quotients of [CalculateTPS] are left out. *)

From stdpp Require Import base list gmap strings numbers pretty.
From Stdlib Require Import ZArith Lia.
From S2P Require Import Prelude Signer Wire RangeList Text.

(** ** Events *)

Record ConsensusEvent := {
  Height : Z; Round : Z; RoundStep : string; IsRoundStart : bool; IsRoundEnd : bool; Message : string; eTime : GoTime
}.
Definition NewConsensusEvent (height round : Z) (roundStep : string) (IsStart IsEnd : bool) (Message : string) (now : GoTime)
    : ConsensusEvent :=
  {| Height := height; Round := round; RoundStep := roundStep; IsRoundStart := IsStart; IsRoundEnd := IsEnd; Message := Message; eTime := now |}.
Definition BLOCK_FINISH_HEIGHT : string := "finish".

(** A JSON text has no line break. *)
Class EventCodec := {
  event_text : ConsensusEvent → bytes;
  event_marshal : ConsensusEvent → option bytes;
  event_unmarshal : bytes → option ConsensusEvent;
  event_roundtrip : ∀ e bz, event_marshal e = Some bz → event_unmarshal bz = Some e;
  event_one_line : ∀ e bz, event_marshal e = Some bz → bz ≠ [] ∧ Forall (λ b, b ≠ 10 ∧ b ≠ 13) bz
}.

(** ** Writing *)

(** What was written to the two files, buffered bytes included; a successful
    [Write] flushes both. *)
Record BlockLoggerWriter := { briefFile : bytes; file : bytes }.

Section Log.
Context {EC : EventCodec}.

Definition Event_Write (ce : ConsensusEvent) (w : bytes) : bytes := w ++ event_text ce.
Definition WriteJson (ce : ConsensusEvent) (w : bytes) : bytes * bool :=
  match event_marshal ce with None => (w, false) | Some o => (w ++ (o ++ [10]), true) end.
Definition NewConsensusEventFromJson (s : bytes) : option ConsensusEvent := event_unmarshal s.
(** [false] is an error. *)
Definition Write (writer : BlockLoggerWriter) (event : ConsensusEvent) : BlockLoggerWriter * bool :=
  let w := if IsRoundStart event then file writer ++ [10; 10] else file writer in
  let w := Event_Write event w in
  let '(b, ok) := WriteJson event (briefFile writer) in
  ({| briefFile := b; file := w |}, ok).

(** ** Reading *)

(** The buffer of a reader. *)
Definition bufSize : nat := 4096.
Fixpoint find_newline (bz : bytes) : option nat :=
  match bz with
  | [] => None
  | b :: bz' => if b =? 10 then Some O else option_map Datatypes.S (find_newline bz')
  end.
Definition drop_cr (line : bytes) : bytes :=
  match last line with Some b => if b =? 13 then take (length line - 1) line else line | None => line end.
(** [ReadLine]: a line without its end, or a full buffer of a longer one (which
    keeps a final carriage return for the next call); [None] at the end. *)
Definition ReadLine (bz : bytes) : option (bytes * bytes) :=
  match bz with
  | [] => None
  | _ =>
      match find_newline (take bufSize bz) with
      | Some i => Some (drop_cr (take i bz), drop (i + 1) bz)
      | None =>
          if (length bz <? bufSize)%nat then Some (bz, [])
          else
            let n := match last (take bufSize bz) with Some b => if b =? 13 then (bufSize - 1)%nat else bufSize | None => bufSize end in
            Some (take n bz, drop n bz)
      end
  end.
Definition normalise (event : ConsensusEvent) : ConsensusEvent :=
  if IsRoundEnd event && IsRoundStart event then
    {| Height := Height event; Round := Round event; RoundStep := RoundStep event; IsRoundStart := false; IsRoundEnd := IsRoundEnd event;
       Message := Message event; eTime := eTime event |}
  else event.
(** Every call consumes a byte, so that the fuel of [NewReader] suffices. *)
Fixpoint read_events (fuel : nat) (bz : bytes) : outcome (list ConsensusEvent) :=
  match fuel with
  | O => Ret []
  | Datatypes.S fuel =>
      match ReadLine bz with
      | None => Ret []
      | Some (line, bz) =>
          event ← deref (NewConsensusEventFromJson line);
          events ← read_events fuel bz;
          Ret (normalise event :: events)
      end
  end.
(** The events of a brief log that could be opened. *)
Definition NewReader (content : bytes) : outcome (list ConsensusEvent) := read_events (length content) content.

(** ** What is read back *)

Definition write_events (w : BlockLoggerWriter) (es : list ConsensusEvent) : BlockLoggerWriter := foldl (λ w e, fst (Write w e)) w es.
Lemma find_newline_line l rest : Forall (λ b, b ≠ 10 ∧ b ≠ 13) l → find_newline (l ++ 10 :: rest) = Some (length l).
Proof.
  induction 1 as [|b l [Hb _] _ IH]; [done|]. cbn. destruct (Z.eqb_spec b 10); [done|]. by rewrite IH.
Qed.
Lemma ReadLine_line l rest : Forall (λ b, b ≠ 10 ∧ b ≠ 13) l → (length l < bufSize)%nat → ReadLine (l ++ 10 :: rest) = Some (l, rest).
Proof.
  intros Hl Hlen. unfold ReadLine. destruct (l ++ 10 :: rest) as [|b0 bz0] eqn:E; [by destruct l|]. rewrite <- E. clear E.
  assert (take bufSize (l ++ 10 :: rest) = l ++ 10 :: take (bufSize - length l - 1) rest) as ->.
  { rewrite take_app_ge by lia. f_equal. destruct (bufSize - length l)%nat as [|n] eqn:En; [lia|]. cbn. by rewrite Nat.sub_0_r. }
  rewrite find_newline_line by done. rewrite take_app_length. rewrite Nat.add_1_r. do 2 f_equal.
  - unfold drop_cr. destruct (last l) as [b|] eqn:El; [|done]. destruct (Z.eqb_spec b 13) as [->|]; [|done].
    rewrite Forall_forall in Hl. by destruct (Hl 13 (last_Some_elem_of _ _ El)).
  - by rewrite (cons_middle 10 l rest), (assoc_L (++)), drop_app_length' by (rewrite length_app; cbn; lia).
Qed.
(** Lines with their ends. *)
Definition framed (lines : list bytes) : bytes := concat (map (λ l, l ++ [10]) lines).
Lemma framed_cons l lines : framed (l :: lines) = l ++ 10 :: framed lines.
Proof. unfold framed. cbn [map concat]. by rewrite <- (assoc_L (++)). Qed.
Lemma read_events_lines es lines : Forall2 (λ e l, event_marshal e = Some l) es lines → Forall (λ l, (length l < bufSize)%nat) lines →
  ∀ fuel, (length (framed lines) ≤ fuel)%nat →
  read_events fuel (framed lines) = Ret (map normalise es).
Proof.
  intros Hall. induction Hall as [|e l es lines He Hall IH]; intros Hlen fuel Hf; [by destruct fuel|].
  apply Forall_cons in Hlen as [Hl Hlen]. destruct (event_one_line _ _ He) as [_ Hline]. rewrite framed_cons in *.
  rewrite length_app in Hf. cbn [length] in Hf. destruct fuel as [|fuel]; [lia|].
  cbn [read_events]. rewrite ReadLine_line by done.
  unfold NewConsensusEventFromJson. rewrite (event_roundtrip _ _ He). cbn [deref mbind outcome_bind]. rewrite IH by (done || lia). done.
Qed.
Lemma write_all_lines es : ∀ lines w, Forall2 (λ e l, event_marshal e = Some l) es lines →
  briefFile (write_events w es) = briefFile w ++ framed lines.
Proof.
  intros lines w Hall. revert w. induction Hall as [|e l es lines He Hall IH]; intros w; [by rewrite app_nil_r|].
  unfold write_events in *. cbn [foldl]. rewrite IH, framed_cons. unfold Write, WriteJson. rewrite He. cbn [fst briefFile]. by rewrite <- !(assoc_L (++)).
Qed.

(** The events written to an empty log are read back from the brief log in
    order, an event that both starts and ends a round as one that ends it, when
    their lines are shorter than the buffer of the reader. *)
Theorem log_roundtrip (es : list ConsensusEvent) (lines : list bytes)
    (Hj : Forall2 (λ e l, event_marshal e = Some l) es lines) (Hlen : Forall (λ l, (length l < bufSize)%nat) lines) :
  NewReader (briefFile (write_events {| briefFile := []; file := [] |} es)) = Ret (map normalise es).
Proof. unfold NewReader. rewrite (write_all_lines es lines) by done. cbn [briefFile app]. by eapply read_events_lines. Qed.

(** A line as long as the buffer or longer is cut; the first piece is not an
    event, so that the reader panics. *)
Theorem long_line_panics (line rest : bytes) (Hl : Forall (λ b, b ≠ 10 ∧ b ≠ 13) line) (Hlen : (bufSize ≤ length line)%nat)
    (Hcut : event_unmarshal (take bufSize line) = None) : NewReader (line ++ 10 :: rest) = Panic.
Proof.
  unfold NewReader. rewrite length_app. destruct line as [|b0 line0] eqn:E; [cbn in Hlen; unfold bufSize in Hlen; lia|]. rewrite <- E in *.
  assert (length line = Datatypes.S (length line0)) as El by (by rewrite E). rewrite El. cbn [Nat.add read_events].
  assert (ReadLine (line ++ 10 :: rest) = Some (take bufSize line, drop bufSize (line ++ 10 :: rest))) as ->.
  { unfold ReadLine. rewrite E at 1. cbn [app]. rewrite take_app_le by done.
    assert (∀ l, Forall (λ b, b ≠ 10 ∧ b ≠ 13) l → find_newline l = None) as Hn.
    { induction 1 as [|b l [Hb _] _ IH]; [done|]. cbn. destruct (Z.eqb_spec b 10); [done|]. by rewrite IH. }
    rewrite Hn by (by apply Forall_take). rewrite length_app. destruct (Nat.ltb_spec (length line + length (10 :: rest)) bufSize); [lia|].
    destruct (last (take bufSize line)) as [b|] eqn:Eb; [|by rewrite take_app_le].
    destruct (Z.eqb_spec b 13) as [->|]; [|by rewrite take_app_le].
    apply last_Some_elem_of in Eb. assert (Forall (λ b, b ≠ 10 ∧ b ≠ 13) (take bufSize line)) as Ht by (by apply Forall_take).
    rewrite Forall_forall in Ht. by destruct (Ht 13 Eb). }
  unfold NewConsensusEventFromJson. by rewrite Hcut.
Qed.
End Log.

(** ** Finished heights *)

Fixpoint str_drop (n : nat) (s : string) : string :=
  match n, s with O, _ => s | Datatypes.S n, String _ s' => str_drop n s' | _, EmptyString => EmptyString end.
Fixpoint str_take (n : nat) (s : string) : string :=
  match n, s with O, _ => EmptyString | Datatypes.S n, String c s' => String c (str_take n s') | _, EmptyString => EmptyString end.
(** [s[i:j]] *)
Definition str_slice (s : string) (i j : Z) : outcome string :=
  if (0 <=? i) && (i <=? j) && (j <=? Z.of_nat (String.length s)) then Ret (str_take (Z.to_nat (j - i)) (str_drop (Z.to_nat i) s)) else Panic.
Definition finish_fields (event : ConsensusEvent) : outcome (list string) :=
  finishDataStr ← str_slice (Message event) (Z.of_nat (String.length BLOCK_FINISH_HEIGHT) + 1) (Z.of_nat (String.length (Message event)) - 1);
  Ret (split_comma finishDataStr).
Definition is_finish (event : ConsensusEvent) : bool := IsRoundEnd event && String.prefix BLOCK_FINISH_HEIGHT (Message event).
Definition field (uStr : list string) (i : Z) : outcome Z := s ← idx uStr i; deref (Atoi s).

(** The sums of [CalculateTPS] and the two times they are divided by. *)
Record tps := { tpStart : option GoTime; tpEnd : option GoTime; tpInner : Z; tpCommit : Z; tpCount : Z }.
Definition tps_event (i j : Z) (acc : tps) (event : ConsensusEvent) : outcome tps :=
  if Height event <? 2 then Ret acc
  else
    let start := if IsRoundStart event && (Height event =? i) then Some (eTime event) else tpStart acc in
    let end_ := if IsRoundEnd event && (Height event =? j) then Some (eTime event) else tpEnd acc in
    if is_finish event && (i <=? Height event) && (Height event <=? j) then
      uStr ← finish_fields event;
      inner ← field uStr 0;
      commit ← field uStr 1;
      count ← field uStr 2;
      Ret {| tpStart := start; tpEnd := end_; tpInner := int64 (tpInner acc + inner); tpCommit := int64 (tpCommit acc + commit);
             tpCount := int64 (tpCount acc + count) |}
    else Ret {| tpStart := start; tpEnd := end_; tpInner := tpInner acc; tpCommit := tpCommit acc; tpCount := tpCount acc |}.
(** [None] is the answer for height 1 alone. *)
Definition CalculateTPS (events : list ConsensusEvent) (i j : Z) : outcome (option tps) :=
  if (i =? 1) && (j =? i) then Ret None
  else
    let i := if i =? 1 then 2 else i in
    acc ← foldM (tps_event i j) events {| tpStart := None; tpEnd := None; tpInner := 0; tpCommit := 0; tpCount := 0 |};
    Ret (Some acc).

Definition finish_total (event : ConsensusEvent) : outcome Z :=
  uStr ← finish_fields event;
  a ← field uStr 0;
  c ← field uStr 2;
  Ret (int64 (a + c)).
(** The starts and ends so far, and whether a period is open. *)
Definition period_event (acc : list Z * list Z * bool) (event : ConsensusEvent) : outcome (list Z * list Z * bool) :=
  if is_finish event then
    let '(starts, ends, stateMachine) := acc in
    total ← finish_total event;
    Ret (if stateMachine && (total =? 0) then (starts, ends ++ [int64 (Height event - 1)], false)
         else if negb stateMachine && negb (total =? 0) then (starts ++ [Height event], ends, true)
         else acc)
  else Ret acc.
Definition NoneZeroPeriods (events : list ConsensusEvent) : outcome (list Z * list Z) :=
  '(starts, ends, stateMachine) ← foldM period_event events ([], [], false);
  if stateMachine : bool then
    e ← idx events (zlen events - 1);
    Ret (starts, ends ++ [int64 (Height e - 1)])
  else Ret (starts, ends).

(** ** What the messages of consensus carry *)

(** The message of a finished height, as consensus writes it. *)
Definition finish_message (inner commit count : Z) : string :=
  String.append "finish[" (String.append (pretty inner) (String comma (String.append (pretty commit) (String comma
    (String.append (pretty count) "]"))))).
Lemma str_take_app a b : str_take (String.length a) (String.append a b) = a.
Proof. induction a as [|c a IH]; [by destruct b|]. exact (f_equal (String c) IH). Qed.
Lemma str_append_assoc a b c : String.append (String.append a b) c = String.append a (String.append b c).
Proof. induction a as [|x a IH]; [done|]. exact (f_equal (String x) IH). Qed.
Lemma str_append_length a b : String.length (String.append a b) = (String.length a + String.length b)%nat.
Proof. induction a as [|c a IH]; [done|exact (f_equal Datatypes.S IH)]. Qed.
Lemma finish_fields_message e a b c : Message e = finish_message a b c → finish_fields e = Ret [pretty a; pretty b; pretty c].
Proof.
  intros E. unfold finish_fields. rewrite E. clear E.
  set (body := String.append (pretty a) (String comma (String.append (pretty b) (String comma (pretty c))))).
  assert (finish_message a b c = String.append "finish[" (String.append body "]")) as ->.
  { unfold finish_message, body. f_equal. rewrite str_append_assoc. f_equal.
    change (String.append (String comma (String.append (pretty b) (String comma (pretty c)))) "]")
      with (String comma (String.append (String.append (pretty b) (String comma (pretty c))) "]")). f_equal. rewrite str_append_assoc. f_equal. }
  rewrite !str_append_length. change (String.length "finish[") with 7%nat. change (String.length "]") with 1%nat.
  change (Z.of_nat (String.length BLOCK_FINISH_HEIGHT) + 1) with 7. unfold str_slice.
  rewrite !str_append_length. change (String.length "finish[") with 7%nat. change (String.length "]") with 1%nat.
  rewrite !(proj2 (Z.leb_le _ _)) by lia. cbn [andb].
  cbn [mbind outcome_bind]. replace (Z.to_nat (Z.of_nat (7 + (String.length body + 1)) - 1 - 7)) with (String.length body) by lia.
  change (str_drop (Z.to_nat 7) (String.append "finish[" (String.append body "]"))) with (String.append body "]").
  rewrite str_take_app. unfold body. rewrite !split_app, split_free by (apply pretty_sep_free; reflexivity). done.
Qed.
Definition int64b (z : Z) : Prop := - 2 ^ 63 ≤ z ≤ MaxInt64.
Lemma finish_total_message e a b c : Message e = finish_message a b c → int64b a → int64b c → finish_total e = Ret (int64 (a + c)).
Proof.
  intros E Ha Hc. unfold finish_total. rewrite (finish_fields_message e a b c E). cbn [mbind outcome_bind]. unfold field.
  change (idx [pretty a; pretty b; pretty c] 0) with (Ret (pretty a)). change (idx [pretty a; pretty b; pretty c] 2) with (Ret (pretty c)).
  cbn [mbind outcome_bind]. by rewrite !Atoi_pretty.
Qed.

(** ** Periods *)

Definition pstep (acc : list Z * list Z * bool) (ht : Z * Z) : list Z * list Z * bool :=
  let '(starts, ends, stateMachine) := acc in
  if stateMachine && (snd ht =? 0) then (starts, ends ++ [fst ht - 1], false)
  else if negb stateMachine && negb (snd ht =? 0) then (starts ++ [fst ht], ends, true)
  else acc.
Lemma period_events events : ∀ totals acc, Forall2 (λ e t, finish_total e = Ret t) (List.filter is_finish events) totals →
  Forall (λ e, - 2 ^ 63 < Height e ≤ MaxInt64) (List.filter is_finish events) →
  foldM period_event events acc = Ret (foldl pstep acc (zip (map Height (List.filter is_finish events)) totals)).
Proof.
  induction events as [|e events IH]; intros totals acc Hall Hh; [by inversion Hall|]. cbn [foldM List.filter] in *.
  unfold period_event at 1. destruct (is_finish e) eqn:Ef; [|by rewrite IH with (totals := totals)].
  apply Forall_cons in Hh as [He Hh].
  inversion Hall as [|? t ? ts Ht Hts]; subst. destruct acc as [[starts ends] sm]. rewrite Ht, wrapS_small by (unfold MaxInt64 in He; lia). cbn [mbind outcome_bind map zip_with foldl].
  rewrite IH with (totals := ts) by done. done.
Qed.
(** The periods seen so far cover exactly the heights with transactions. *)
Definition covered (starts ends : list Z) (h : Z) : Prop := ∃ i s e, starts !! i = Some s ∧ ends !! i = Some e ∧ s ≤ h ≤ e.
Definition busy (h0 : Z) (totals : list Z) (h : Z) : Prop := ∃ k t, totals !! k = Some t ∧ t ≠ 0 ∧ h = h0 + Z.of_nat k.
Lemma covered_snoc starts ends s e h : length starts = length ends →
  covered (starts ++ [s]) (ends ++ [e]) h ↔ covered starts ends h ∨ s ≤ h ≤ e.
Proof.
  intros Hl. split.
  - intros (i & s' & e' & Hs & He & Hr). apply lookup_snoc_Some in Hs as [[Hi Hs]|[-> <-]]; apply lookup_snoc_Some in He as [[Hi' He]|[Hi' <-]]; try lia.
    left. by exists i, s', e'.
  - intros [(i & s' & e' & Hs & He & Hr)|Hr].
    + exists i, s', e'. split_and!; [by apply lookup_app_l_Some|by apply lookup_app_l_Some|lia..].
    + exists (length starts), s, e. split_and!; [by rewrite lookup_app_r, Nat.sub_diag|by rewrite Hl, lookup_app_r, Nat.sub_diag|lia..].
Qed.
Lemma busy_snoc h0 totals t h : busy h0 (totals ++ [t]) h ↔ busy h0 totals h ∨ (t ≠ 0 ∧ h = h0 + zlen totals).
Proof.
  split.
  - intros (k & t' & Hk & Ht & ->). apply lookup_snoc_Some in Hk as [[Hi Hk]|[-> ->]]; [left; by exists k, t'|by right].
  - intros [(k & t' & Hk & Ht & ->)|[Ht ->]]; [exists k, t'; split_and!; [by apply lookup_app_l_Some|done..]|].
    exists (length totals), t. by rewrite lookup_app_r, Nat.sub_diag.
Qed.

(** Every height of the log up to [h0 + length totals] is accounted for: closed
    periods, and the open one up to now. *)
Definition periods_ok (h0 : Z) (totals : list Z) (acc : list Z * list Z * bool) : Prop :=
  let '(starts, ends, stateMachine) := acc in
  if stateMachine : bool then
    ∃ s0 s, starts = s0 ++ [s] ∧ length s0 = length ends ∧ Forall2 Z.le s0 ends ∧ h0 ≤ s < h0 + zlen totals ∧
      ∀ h, busy h0 totals h ↔ covered s0 ends h ∨ s ≤ h < h0 + zlen totals
  else length starts = length ends ∧ Forall2 Z.le starts ends ∧ ∀ h, busy h0 totals h ↔ covered starts ends h.
Lemma busy_range h0 totals h : busy h0 totals h → h0 ≤ h < h0 + zlen totals.
Proof. intros (k & t & Hk & _ & ->). apply lookup_lt_Some in Hk. unfold zlen. lia. Qed.
Lemma periods_step h0 totals t acc : periods_ok h0 totals acc → periods_ok h0 (totals ++ [t]) (pstep acc (h0 + zlen totals, t)).
Proof.
  destruct acc as [[starts ends] [|]]; unfold periods_ok, pstep; cbn [andb negb fst snd].
  - intros (s0 & s & -> & Hl & Hle & Hs & Hb). destruct (Z.eqb_spec t 0) as [->|Ht].
    + rewrite !length_app, Hl. split; [done|]. split; [apply Forall2_app; [done|]; constructor; [lia|constructor]|]. intros h.
      rewrite busy_snoc, covered_snoc, Hb by done. split; [intros [[?|?]|[? _]]; [by left|right; lia|done]|intros [?|?]; [by left; left|left; right; lia]].
    + exists s0, s. split; [done|]. split; [done|]. split; [done|]. rewrite zlen_app. change (zlen [t]) with 1. split; [lia|]. intros h.
      rewrite busy_snoc, Hb. split; [intros [[?|?]|[_ ?]]; [by left|right; lia..]|intros [?|?]; [by left; left|]].
      destruct (decide (h = h0 + zlen totals)); [by right|left; right; lia].
  - intros (Hl & Hle & Hb). destruct (Z.eqb_spec t 0) as [->|Ht]; cbn [negb].
    + split; [done|]. split; [done|]. intros h. rewrite busy_snoc, Hb. naive_solver.
    + exists starts, (h0 + zlen totals). split; [done|]. split; [done|]. split; [done|]. rewrite zlen_app. change (zlen [t]) with 1.
      pose proof (zlen_nonneg totals). split; [lia|]. intros h. rewrite busy_snoc, Hb.
      split; [intros [?|[_ ?]]; [by left|right; lia]|intros [?|?]; [by left|right; lia]].
Qed.
Lemma periods_all h0 totals : periods_ok h0 totals (foldl pstep ([], [], false) (zip (seqZ h0 (zlen totals)) totals)).
Proof.
  induction totals as [|t totals IH] using rev_ind.
  - cbn. split; [done|]. split; [constructor|]. intros h. split; [by intros (k & t & Hk & _)|by intros (i & s & e & Hs & _)].
  - rewrite zlen_app. change (zlen [t]) with 1. rewrite seqZ_app by (pose proof (zlen_nonneg totals); lia).
    rewrite zip_with_app by (rewrite length_seqZ; unfold zlen; lia). rewrite foldl_app. cbn. by apply periods_step.
Qed.

(** The heights of a log: the finished ones are consecutive, and the last event
    is about the next height. *)
Definition log_heights (events : list ConsensusEvent) (h0 : Z) (totals : list Z) (l : ConsensusEvent) : Prop :=
  Forall2 (λ e t, finish_total e = Ret t) (List.filter is_finish events) totals ∧
  map Height (List.filter is_finish events) = seqZ h0 (zlen totals) ∧
  last events = Some l ∧ Height l = h0 + zlen totals ∧ - 2 ^ 63 < h0 ∧ Height l ≤ MaxInt64.
Lemma NoneZeroPeriods_eq events h0 totals l : log_heights events h0 totals l →
  NoneZeroPeriods events =
    Ret (let '(starts, ends, stateMachine) := foldl pstep ([], [], false) (zip (seqZ h0 (zlen totals)) totals) in
         if stateMachine : bool then (starts, ends ++ [h0 + zlen totals - 1]) else (starts, ends)).
Proof.
  intros (Htot & Hh & Hlast & Hnext & Hlow & Hhigh). unfold NoneZeroPeriods. rewrite (period_events events totals); [|done|].
  2:{ apply Forall_forall. intros e He. apply (list_elem_of_fmap_2 Height) in He.
      change (Height <$> List.filter is_finish events) with (map Height (List.filter is_finish events)) in He. rewrite Hh, elem_of_seqZ in He. lia. }
  rewrite Hh. destruct (foldl _ _ _) as [[starts ends] [|]]; cbn [mbind outcome_bind]; [|done].
  assert (idx events (zlen events - 1) = Ret l) as ->.
  { apply last_Some in Hlast as [evs ->]. rewrite zlen_app. change (zlen [l]) with 1. replace (zlen evs + 1 - 1) with (zlen evs) by lia.
    apply idx_app_mid. }
  cbn [mbind outcome_bind]. rewrite Hnext, wrapS_small by (unfold MaxInt64 in Hhigh; pose proof (zlen_nonneg totals); lia). done.
Qed.

(** The periods computed from a log whose finished heights are consecutive, and
    which goes on with the next height, are exactly the heights in which
    transactions were committed: as many starts as ends, each start not after
    its end, and a height is in a period exactly when its total is not zero. *)
Theorem NoneZeroPeriods_spec (events : list ConsensusEvent) (h0 : Z) (totals : list Z) (l : ConsensusEvent)
    (Hlog : log_heights events h0 totals l) :
  ∃ starts ends, NoneZeroPeriods events = Ret (starts, ends) ∧ length starts = length ends ∧ Forall2 Z.le starts ends ∧
    ∀ h, busy h0 totals h ↔ covered starts ends h.
Proof.
  rewrite (NoneZeroPeriods_eq events h0 totals l Hlog). pose proof (periods_all h0 totals) as Hok.
  destruct (foldl _ _ _) as [[starts ends] [|]]; unfold periods_ok in Hok.
  - destruct Hok as (s0 & s & -> & Hl & Hle & Hs & Hb). eexists _, _. split; [done|]. rewrite !length_app, Hl. split; [done|].
    split; [apply Forall2_app; [done|]; constructor; [lia|constructor]|]. intros h. rewrite covered_snoc, Hb by done.
    split; (intros [?|?]; [by left|right; lia]).
  - destruct Hok as (Hl & Hle & Hb). eauto 10.
Qed.

(** ** A log, run *)
Module LogDemo.
#[local] Instance event_ser : Ser ConsensusEvent.
Proof.
  refine (iso_ser (λ e, (Height e, Round e, RoundStep e, IsRoundStart e, IsRoundEnd e, Message e, unix (eTime e), nsec (eTime e)))
    (λ '(a, b, c, d, e, f, g, h), {| Height := a; Round := b; RoundStep := c; IsRoundStart := d; IsRoundEnd := e; Message := f;
       eTime := {| unix := g; nsec := h |} |}) _). by intros [? ? ? ? ? ? []].
Defined.
Definition on_line (bz : bytes) : bool := forallb (λ b, negb (b =? 10) && negb (b =? 13)) bz && negb (zlen bz =? 0).
#[refine] Instance demo_events : EventCodec := {|
  event_text := λ e, ser (Height e);
  event_marshal := λ e, if on_line (ser e) then Some (ser e) else None;
  event_unmarshal := λ bz, match deser bz with Some (e, []) => Some e | _ => None end
|}.
Proof.
  - intros e bz. destruct (on_line _); [|done]. intros E. assert (bz = ser e) as -> by congruence. by rewrite deser_ser_nil.
  - intros e bz. destruct (on_line (ser e)) eqn:Eo; [|done]. intros E. assert (ser e = bz) as Eb by congruence. rewrite Eb in Eo.
    unfold on_line in Eo. apply andb_true_iff in Eo as [H1 H2]. split; [by intros ->|]. apply Forall_forall. intros b Hb.
    rewrite forallb_forall in H1. specialize (H1 b ltac:(by apply list_elem_of_In)). lia.
Defined.

Definition ev (h : Z) (st en : bool) (msg : string) : ConsensusEvent := NewConsensusEvent h 0 "" st en msg {| unix := 0; nsec := 0 |}.
(** Heights 1 to 4, of which 2 and 3 have transactions. *)
Definition events : list ConsensusEvent :=
  [ev 1 true false "START"; ev 1 false true (finish_message 0 0 0); ev 2 true false "START"; ev 2 false true (finish_message 5 1 2);
   ev 3 false true (finish_message 0 4 4); ev 4 false true (finish_message 0 0 0); ev 5 true true "START"].
Definition lines : list bytes := map ser events.
Lemma log_roundtrip_witness : NewReader (briefFile (write_events {| briefFile := []; file := [] |} events)) = Ret (map normalise events).
Proof.
  apply (log_roundtrip events lines).
  - repeat (constructor; [vm_compute; reflexivity|]). constructor.
  - apply (bool_decide_unpack _). vm_compute. reflexivity.
Defined.
Lemma NoneZeroPeriods_spec_witness : NoneZeroPeriods events = Ret ([2], [3]) ∧
  ∃ starts ends, NoneZeroPeriods events = Ret (starts, ends) ∧ ∀ h, busy 1 [0; 7; 4; 0] h ↔ covered starts ends h.
Proof.
  split; [vm_compute; reflexivity|].
  destruct (NoneZeroPeriods_spec events 1 [0; 7; 4; 0] (ev 5 true true "START")) as (starts & ends & E & _ & _ & Hb).
  - split_and!; [repeat (constructor; [vm_compute; reflexivity|]); constructor|vm_compute; reflexivity|reflexivity|reflexivity|lia|vm_compute; discriminate].
  - exists starts, ends. split; [exact E|exact Hb].
Defined.
(** A log that ends with the last finished height loses that height: its period
    ends before it starts. *)
Example last_height_lost : NoneZeroPeriods [ev 1 false true (finish_message 0 0 0); ev 2 false true (finish_message 5 1 2)] = Ret ([2], [1]).
Proof. vm_compute. reflexivity. Qed.
End LogDemo.
