(* ===== verification/HotStuff.v ===== *)
(** * HotStuff vote collection

    Models [source/core/hotstuff]: the votes and aggregated votes of
    [votes.go], the vote collector of [height_datas.go] and the view and round
    state of [main.go].  Protobuf and BLS come in through the classes of
    [Signer]; [VoteWire] states how the two message types of
    [proto/core/hotstuff/votes.proto] share field numbers. *)

From stdpp Require Import base list gmap strings numbers countable.
From Stdlib Require Import ZArith Lia.
From S2P Require Import Prelude Convert BitVector Hash Merkle Signer.

(** ** Messages *)

Record Vote := {
  Code : Z;
  View : Z;
  Round : Z;
  ForHash : bytes;
  ForNecessaryData : list bytes;
  Sign : string;
  ValidatorIndex : Z
}.

Record AggregatedVote := {
  aCode : Z;
  aView : Z;
  aRound : Z;
  aForHash : bytes;
  aForNecessaryData : list bytes;
  aSign : string;
  aSignerIndexer : option BitVector
}.

(** The generated types [protovote.Vote] and [protovote.AggregatedVote]. *)
Record PVote := {
  pCode : Z; pView : Z; pRound : Z; pForHash : bytes; pForNecessaryData : list bytes;
  pSign : string; pValidatorIndex : Z
}.
Record PAggregatedVote := {
  paCode : Z; paView : Z; paRound : Z; paForHash : bytes; paForNecessaryData : list bytes;
  paSign : string; paSignerIndex : bytes
}.

#[export] Instance Vote_eq_dec : EqDecision Vote.
Proof. solve_decision. Defined.
#[export] Instance AggregatedVote_eq_dec : EqDecision AggregatedVote.
Proof. solve_decision. Defined.
#[export] Instance PVote_eq_dec : EqDecision PVote.
Proof. solve_decision. Defined.
#[export] Instance PAggregatedVote_eq_dec : EqDecision PAggregatedVote.
Proof. solve_decision. Defined.

(** Fields 1 to 5 and 7 have the same number and type in both messages; field
    6 is [int32 validator_index] in one and [bytes SignerIndex] in the other.
    An absent field reads as its default, so the bytes of an aggregated vote
    without signer index read as a vote with index 0. *)
Class VoteWire := {
  vote_codec :: ProtoCodec PVote;
  agg_codec :: ProtoCodec PAggregatedVote;
  agg_as_vote : ∀ m bz, marshal m = Some bz → paSignerIndex m = [] →
    unmarshal bz = Some {| pCode := paCode m; pView := paView m; pRound := paRound m;
      pForHash := paForHash m; pForNecessaryData := paForNecessaryData m;
      pSign := paSign m; pValidatorIndex := 0 |}
}.

Inductive vote_error :=
| ErrInvalidSign | ErrInvalidVoteCode | ErrDuplicatedVote
| ErrInvalidValidatorIndex | ErrInvalidRound | ErrInvalidView.

Definition NewVote (view round : Z) (hash : bytes) (necessary_data : list bytes) (index : Z) : Vote :=
  {| Code := CodeTypeOK; View := view; Round := round; ForHash := hash;
     ForNecessaryData := necessary_data; Sign := EmptyString; ValidatorIndex := index |}.

Definition IsOK (v : Vote) : bool := Code v =? CodeTypeOK.
Definition set_code (v : Vote) (c : Z) : Vote :=
  {| Code := c; View := View v; Round := Round v; ForHash := ForHash v;
     ForNecessaryData := ForNecessaryData v; Sign := Sign v; ValidatorIndex := ValidatorIndex v |}.
Definition SetOK (v : Vote) : Vote := set_code v CodeTypeOK.
Definition SetReject (v : Vote) : Vote := set_code v CodeTypeReject.

Definition Vote_ToProto (v : Vote) : PVote :=
  {| pCode := int32 (Code v); pView := View v; pRound := Round v; pForHash := ForHash v;
     pForNecessaryData := ForNecessaryData v; pSign := Sign v;
     pValidatorIndex := int32 (ValidatorIndex v) |}.
Definition NewVoteFromProto (p : PVote) : Vote :=
  {| Code := int8 (pCode p); View := pView p; Round := pRound p; ForHash := pForHash p;
     ForNecessaryData := pForNecessaryData p; Sign := pSign p;
     ValidatorIndex := pValidatorIndex p |}.

Definition Vote_ValidateBasic (v : Vote) : option vote_error :=
  if negb (Code v =? CodeTypeOK) && negb (Code v =? CodeTypeReject) then Some ErrInvalidVoteCode
  else if ValidatorIndex v <? 0 then Some ErrInvalidValidatorIndex
  else if Round v <? 0 then Some ErrInvalidRound
  else if View v <? 0 then Some ErrInvalidView
  else None.

Definition GetAggregated (v : Vote) (bv : option BitVector) : AggregatedVote :=
  {| aCode := Code v; aView := View v; aRound := Round v; aForHash := ForHash v;
     aForNecessaryData := ForNecessaryData v; aSign := Sign v; aSignerIndexer := bv |}.

Definition Agg_IsOK (v : AggregatedVote) : bool := aCode v =? CodeTypeOK.
Definition Agg_ToProto (v : AggregatedVote) : PAggregatedVote :=
  {| paCode := int32 (aCode v); paView := aView v; paRound := aRound v; paForHash := aForHash v;
     paForNecessaryData := aForNecessaryData v; paSign := aSign v;
     paSignerIndex := Byte (aSignerIndexer v) |}.
Definition NewAggregatedVoteFromProto (p : option PAggregatedVote) : outcome (option AggregatedVote) :=
  match p with
  | None => Ret None
  | Some p =>
      bv ← NewBitArrayFromByte (paSignerIndex p);
      Ret (Some {| aCode := int8 (paCode p); aView := paView p; aRound := paRound p;
                   aForHash := paForHash p; aForNecessaryData := paForNecessaryData p;
                   aSign := paSign p; aSignerIndexer := bv |})
  end.

Definition Agg_ValidateBasic (v : AggregatedVote) : option vote_error :=
  if negb (aCode v =? CodeTypeOK) && negb (aCode v =? CodeTypeReject) then Some ErrInvalidVoteCode
  else if Size (aSignerIndexer v) <=? 0 then Some ErrInvalidValidatorIndex
  else if aRound v <? 0 then Some ErrInvalidRound
  else if aView v <? 0 then Some ErrInvalidView
  else None.

Section Messages.
Context {W : VoteWire} {H : HashFn}.

Definition Vote_ProtoBytes (v : Vote) : outcome bytes := MustProtoBytes (Vote_ToProto v).
Definition Vote_SignBytes (v : Vote) : outcome bytes :=
  MustProtoBytes {| pCode := int32 (Code v); pView := View v; pRound := Round v;
    pForHash := ForHash v; pForNecessaryData := ForNecessaryData v;
    pSign := EmptyString; pValidatorIndex := -1 |}.
Definition NewVoteFromBytes (bz : bytes) : option Vote :=
  match unmarshal bz with None => None | Some p => Some (NewVoteFromProto p) end.
Definition Vote_Hash (v : Vote) : outcome bytes :=
  bz ← Vote_ProtoBytes v; HashFromByteSlices [bz].

Definition Agg_ProtoBytes (v : AggregatedVote) : outcome bytes := MustProtoBytes (Agg_ToProto v).
Definition Agg_SignBytes (v : AggregatedVote) : outcome bytes :=
  MustProtoBytes {| paCode := int32 (aCode v); paView := aView v; paRound := aRound v;
    paForHash := aForHash v; paForNecessaryData := aForNecessaryData v;
    paSign := EmptyString; paSignerIndex := [] |}.
Definition NewAggregatedVoteFromBytes (bz : bytes) : outcome (option AggregatedVote) :=
  match unmarshal bz with None => Ret None | Some p => NewAggregatedVoteFromProto (Some p) end.
Definition Agg_Hash (v : AggregatedVote) : outcome bytes :=
  bz ← Agg_ProtoBytes v; HashFromByteSlices [bz].

End Messages.

(** ** Vote collection *)

Section Collect.
Context {B : BLS} {W : VoteWire}.

(** A nil entry of [Votes] is [None]. *)
Record HeightDataPackage := {
  ProposalHash : bytes;
  hView : Z;
  hRound : Z;
  Votes : list (option Vote);
  VotesBitVector : option BitVector;
  VotesTotal : Z;
  RejectTotal : Z;
  VotesNeeded : Z;
  PerVote : list Z;
  ValidatorSet : Verifier;
  AggVote : option AggregatedVote
}.

Definition NewHeightDataPackage (validatorSet : Verifier) (perVote : list Z) (view round : Z)
    : HeightDataPackage :=
  {| ProposalHash := []; hView := view; hRound := round;
     Votes := replicate (length (publicKeys validatorSet)) None;
     VotesBitVector := NewBitVector (Verifier_Size validatorSet);
     VotesTotal := 0; RejectTotal := 0;
     VotesNeeded := foldl (λ acc vote, int64 (acc + vote)) 0 perVote;
     PerVote := perVote; ValidatorSet := validatorSet; AggVote := None |}.

Definition hdp_vote (hdp : HeightDataPackage) (ok rej : Z) (votes : list (option Vote))
    (bv : option BitVector) : HeightDataPackage :=
  {| ProposalHash := ProposalHash hdp; hView := hView hdp; hRound := hRound hdp; Votes := votes;
     VotesBitVector := bv; VotesTotal := ok; RejectTotal := rej; VotesNeeded := VotesNeeded hdp;
     PerVote := PerVote hdp; ValidatorSet := ValidatorSet hdp; AggVote := AggVote hdp |}.
Definition hdp_agg (hdp : HeightDataPackage) (agg : option AggregatedVote) : HeightDataPackage :=
  {| ProposalHash := ProposalHash hdp; hView := hView hdp; hRound := hRound hdp; Votes := Votes hdp;
     VotesBitVector := VotesBitVector hdp; VotesTotal := VotesTotal hdp;
     RejectTotal := RejectTotal hdp; VotesNeeded := VotesNeeded hdp;
     PerVote := PerVote hdp; ValidatorSet := ValidatorSet hdp; AggVote := agg |}.
Definition hdp_hash (hdp : HeightDataPackage) (hash : bytes) : HeightDataPackage :=
  {| ProposalHash := hash; hView := hView hdp; hRound := hRound hdp; Votes := Votes hdp;
     VotesBitVector := VotesBitVector hdp; VotesTotal := VotesTotal hdp;
     RejectTotal := RejectTotal hdp; VotesNeeded := VotesNeeded hdp;
     PerVote := PerVote hdp; ValidatorSet := ValidatorSet hdp; AggVote := AggVote hdp |}.

Definition addVote (hdp : HeightDataPackage) (vote : Vote)
    : outcome (HeightDataPackage * option vote_error) :=
  msg ← Vote_SignBytes vote;
  good ← Verify (ValidatorSet hdp) (Sign vote) msg (ValidatorIndex vote);
  if negb good then Ret (hdp, Some ErrInvalidSign)
  else if negb (hView hdp =? View vote) || negb (hRound hdp =? Round vote)
          || negb (bytes_Equal (ProposalHash hdp) (ForHash vote))
  then Ret (hdp, Some ErrInvalidVoteCode)
  else
    old ← idx (Votes hdp) (ValidatorIndex vote);
    match old with
    | None =>
        w ← idx (PerVote hdp) (ValidatorIndex vote);
        let '(ok, rej) :=
          if IsOK vote then (int64 (VotesTotal hdp + w), RejectTotal hdp)
          else (VotesTotal hdp, int64 (RejectTotal hdp + w)) in
        votes ← upd (Votes hdp) (ValidatorIndex vote) (Some vote);
        bv ← SetIndex (VotesBitVector hdp) (ValidatorIndex vote) true;
        Ret (hdp_vote hdp ok rej votes (fst bv), None)
    | Some _ => Ret (hdp, Some ErrDuplicatedVote)
    end.

(** [2*VotesNeeded/3]. *)
Definition threshold (hdp : HeightDataPackage) : Z := Z.quot (int64 (2 * VotesNeeded hdp)) 3.

Definition isQuorum (hdp : HeightDataPackage) : bool :=
  (threshold hdp <=? VotesTotal hdp) || (threshold hdp <=? RejectTotal hdp).

(** The loop of [getMaj23] over [hdp.Votes] from [index] on: the bitmap, the
    signatures and the necessary data taken along. *)
Fixpoint maj23_loop (ok : bool) (votes : list (option Vote)) (index : Z)
    (bv : option BitVector) (sigs : list string) (nd : list bytes)
    : outcome (option BitVector * list string * list bytes) :=
  match votes with
  | [] => Ret (bv, sigs, nd)
  | None :: votes' => maj23_loop ok votes' (index + 1) bv sigs nd
  | Some vote :: votes' =>
      bv' ← (if eqb (IsOK vote) ok then r ← SetIndex bv index true; Ret (fst r) else Ret bv);
      maj23_loop ok votes' (index + 1) bv' (sigs ++ [Sign vote]) (ForNecessaryData vote)
  end.

Inductive maj_error := ErrNoMaj23 | ErrAggregate.

Definition HasAggVote (hdp : HeightDataPackage) : bool :=
  match AggVote hdp with Some _ => true | None => false end.

Definition getMaj23 (hdp : HeightDataPackage)
    : outcome (HeightDataPackage * (AggregatedVote + maj_error)) :=
  match AggVote hdp with
  | Some agg => Ret (hdp, inl agg)
  | None =>
      let bv := NewBitVector (Verifier_Size (ValidatorSet hdp)) in
      let code :=
        if threshold hdp <=? VotesTotal hdp then Some CodeTypeOK
        else if threshold hdp <=? RejectTotal hdp then Some CodeTypeReject
        else None in
      match code with
      | None => Ret (hdp, inr ErrNoMaj23)
      | Some c =>
          r ← maj23_loop (c =? CodeTypeOK) (Votes hdp) 0 bv [] [];
          let '(bv', sigs, nd) := r in
          match AggregateSignatures sigs with
          | None => Ret (hdp, inr ErrAggregate)
          | Some aggSig =>
              let aggVote := {| Code := c; View := hView hdp; Round := hRound hdp;
                ForHash := ProposalHash hdp; ForNecessaryData := nd;
                Sign := aggSig; ValidatorIndex := 0 |} in
              let vote := GetAggregated aggVote bv' in
              Ret (hdp_agg hdp (Some vote), inl vote)
          end
      end
  end.

Definition validate_aggregated (hdp : HeightDataPackage) (aggVote : AggregatedVote)
    : outcome (HeightDataPackage * option vote_error) :=
  msg ← Agg_SignBytes aggVote;
  good ← VerifyAggregateSignature (ValidatorSet hdp) (aSign aggVote) msg (Byte (aSignerIndexer aggVote));
  if negb good then Ret (hdp, Some ErrInvalidSign)
  else if negb (hView hdp =? aView aggVote) || negb (hRound hdp =? aRound aggVote)
  then Ret (hdp, Some ErrInvalidVoteCode)
  else Ret (hdp_agg hdp (Some aggVote), None).

(** ** View and round state *)

Record State := {
  sView : Z;
  sRound : Z;
  signerIndex : Z;
  heightDatas : option HeightDataPackage;
  sValidatorSet : Verifier;
  sPerVotes : list Z
}.

Definition NewState (view round index : Z) (validatorSet : Verifier) (perVotes : list Z) : State :=
  {| sView := view; sRound := round; signerIndex := index; heightDatas := None;
     sValidatorSet := validatorSet; sPerVotes := perVotes |}.

Definition with_heightDatas (st : State) (hd : HeightDataPackage) : State :=
  {| sView := sView st; sRound := sRound st; signerIndex := signerIndex st;
     heightDatas := Some hd; sValidatorSet := sValidatorSet st; sPerVotes := sPerVotes st |}.

Definition SetHash (st : State) (hash : bytes) : State :=
  let hd := match heightDatas st with
            | None => NewHeightDataPackage (sValidatorSet st) (sPerVotes st) (sView st) (sRound st)
            | Some hd => hd
            end in
  with_heightDatas st (hdp_hash hd hash).

Definition UpdateValidators (st : State) (validatorSet : Verifier) (perVotes : list Z) : State :=
  {| sView := sView st; sRound := sRound st; signerIndex := signerIndex st;
     heightDatas := heightDatas st; sValidatorSet := validatorSet; sPerVotes := perVotes |}.

Definition enter (st : State) (view round : Z) : State :=
  {| sView := view; sRound := round; signerIndex := signerIndex st;
     heightDatas := Some (NewHeightDataPackage (sValidatorSet st) (sPerVotes st) view round);
     sValidatorSet := sValidatorSet st; sPerVotes := sPerVotes st |}.
Definition EnterNewRound (st : State) : State := enter st (sView st) (int32 (sRound st + 1)).
Definition EnterNewView (st : State) : State := enter st (int64 (sView st + 1)) 0.

(** Every method below dereferences [heightDatas]. *)
Definition AddVote (st : State) (vote : Vote) : outcome (State * option vote_error) :=
  match heightDatas st with
  | None => Panic
  | Some hd => r ← addVote hd vote; Ret (with_heightDatas st (fst r), snd r)
  end.
Definition IsQuorum (st : State) : outcome bool :=
  match heightDatas st with None => Panic | Some hd => Ret (isQuorum hd) end.
Definition GetMaj23 (st : State) : outcome (State * (AggregatedVote + maj_error)) :=
  match heightDatas st with
  | None => Panic
  | Some hd => r ← getMaj23 hd; Ret (with_heightDatas st (fst r), snd r)
  end.
Definition ValidateAggregated (st : State) (aggVote : AggregatedVote)
    : outcome (State * option vote_error) :=
  match heightDatas st with
  | None => Panic
  | Some hd => r ← validate_aggregated hd aggVote; Ret (with_heightDatas st (fst r), snd r)
  end.

End Collect.
