(* ===== verification/HotStuffProofs.v ===== *)
(** * HotStuff vote collection: correctness

    The collector's invariant and its preservation, the exact quorum rule, the
    aggregated vote, and where the quorum and the signed message fall short. *)

From stdpp Require Import base list gmap strings numbers countable.
From Stdlib Require Import ZArith Lia.
From S2P Require Import Prelude Convert BitVector Hash Merkle Signer HotStuff.

Lemma foldl_int64_sum l : ∀ acc, Forall (λ w, 0 ≤ w) l → 0 ≤ acc → acc + zsum l < 2 ^ 63 →
  foldl (λ acc vote, int64 (acc + vote)) acc l = acc + zsum l.
Proof.
  induction l as [|w l IH]; intros acc Hl Ha Hb; simpl in *; [lia|].
  apply Forall_cons_1 in Hl as [Hw Hl]. pose proof (zsum_nonneg l Hl).
  rewrite wrapS_small by lia. rewrite IH by (done || lia). lia.
Qed.

(** The weight of the validators whose votes in both lists satisfy [p]. *)
Fixpoint overlap (p : Vote → bool) (votes1 votes2 : list (option Vote)) (per : list Z) : Z :=
  match votes1, votes2, per with
  | o1 :: votes1', o2 :: votes2', w :: per' =>
      (match o1, o2 with Some v1, Some v2 => if p v1 && p v2 then w else 0 | _, _ => 0 end)
      + overlap p votes1' votes2' per'
  | _, _, _ => 0
  end.

Lemma overlap_bound p votes1 : ∀ votes2 per, Forall (λ w, 0 ≤ w) per →
  weight p votes1 per + weight p votes2 per ≤ zsum per + overlap p votes1 votes2 per.
Proof.
  assert (∀ votes per, Forall (λ w, 0 ≤ w) per → weight p votes per ≤ zsum per) as Hle.
  { intros votes per Hper. pose proof (weight_bounds p votes per Hper). lia. }
  induction votes1 as [|o1 votes1 IH]; intros votes2 per Hper.
  { specialize (Hle votes2 per Hper). simpl. lia. }
  destruct votes2 as [|o2 votes2].
  { specialize (Hle (o1 :: votes1) per Hper). destruct per; simpl in *; lia. }
  destruct per as [|w per]; [done|].
  apply Forall_cons_1 in Hper as [Hw Hper]. specialize (IH votes2 per Hper).
  destruct o1 as [v1|], o2 as [v2|]; simpl; try destruct (p v1); try destruct (p v2); simpl; lia.
Qed.

(** The votes present, in validator order. *)
Definition present (votes : list (option Vote)) : list Vote := omap id votes.

Section HotStuffProofs.
Context {B : BLS} {W : VoteWire}.

(** What a collected vote must be: from the validator at its position, for
    the collector's view and round, with a valid signature. *)
Definition vote_ok (hdp : HeightDataPackage) (i : nat) (v : Vote) : Prop :=
  ValidatorIndex v = Z.of_nat i ∧ View v = hView hdp ∧ Round v = hRound hdp ∧
  ∃ msg, Vote_SignBytes v = Ret msg ∧ Verify (ValidatorSet hdp) (Sign v) msg (Z.of_nat i) = Ret true.

Record hdp_inv (hdp : HeightDataPackage) : Prop := {
  inv_votes_len : length (Votes hdp) = length (publicKeys (ValidatorSet hdp));
  inv_per_len : length (PerVote hdp) = length (publicKeys (ValidatorSet hdp));
  inv_per_nonneg : Forall (λ w, 0 ≤ w) (PerVote hdp);
  inv_needed : VotesNeeded hdp = zsum (PerVote hdp);
  inv_bound : 2 * zsum (PerVote hdp) < 2 ^ 63;
  inv_total : VotesTotal hdp = weight IsOK (Votes hdp) (PerVote hdp);
  inv_reject : RejectTotal hdp = weight (λ v, negb (IsOK v)) (Votes hdp) (PerVote hdp);
  inv_bits : ∃ v, VotesBitVector hdp = Some v ∧ bv_wf v ∧
    Bits v = Verifier_Size (ValidatorSet hdp) ∧
    ∀ j, 0 ≤ j → elem_bit (Elems v) j =
      match Votes hdp !! Z.to_nat j with Some (Some _) => true | _ => false end;
  inv_vote : ∀ i v, Votes hdp !! i = Some (Some v) → vote_ok hdp i v
}.

(** All the votes held are for the collector's proposal. *)
Definition for_proposal (hdp : HeightDataPackage) : Prop :=
  ∀ i v, Votes hdp !! i = Some (Some v) → ForHash v = ProposalHash hdp.

(** A validator set and weights the collector is built for. *)
Definition config_ok (vs : Verifier) (per : list Z) : Prop :=
  length per = length (publicKeys vs) ∧ Forall (λ w, 0 ≤ w) per ∧ 2 * zsum per < 2 ^ 63.

Lemma fresh_inv vs per view round hash :
  config_ok vs per →
  hdp_inv (hdp_hash (NewHeightDataPackage vs per view round) hash) ∧
  ∀ i v, Votes (hdp_hash (NewHeightDataPackage vs per view round) hash) !! i ≠ Some (Some v).
Proof.
  intros (Hl & Hp & Hs). pose proof (zsum_nonneg per Hp).
  assert (∀ i : nat, replicate (length (publicKeys vs)) (@None Vote) !! i ≠ Some (Some (NewVote 0 0 [] [] 0)) ∧
    ∀ v, replicate (length (publicKeys vs)) (@None Vote) !! i ≠ Some (Some v)) as Hnone.
  { intros i. split; [|intros v]; by intros [? _]%lookup_replicate. }
  split; [|intros i v; apply Hnone]. constructor; simpl; try done.
  - by rewrite length_replicate.
  - rewrite foldl_int64_sum by (done || lia). lia.
  - by rewrite weight_replicate.
  - by rewrite weight_replicate.
  - unfold NewBitVector, Verifier_Size. pose proof (zlen_nonneg (publicKeys vs)).
    destruct (Z.ltb_spec (zlen (publicKeys vs)) 0); [lia|]. eexists. split; [done|].
    destruct (NewBitVector_wf (zlen (publicKeys vs))
      {| Bits := zlen (publicKeys vs); Elems := replicate (Z.to_nat (elems_len (zlen (publicKeys vs)))) 0 |})
      as (Hwf & _ & _ & Hz).
    { unfold NewBitVector. destruct (Z.ltb_spec (zlen (publicKeys vs)) 0); [lia|done]. }
    split; [done|]. split; [done|]. intros j Hj. simpl in Hz. simpl. rewrite Hz.
    destruct (replicate _ _ !! Z.to_nat j) as [[v|]|] eqn:E; [|done|done].
    by apply (proj2 (Hnone (Z.to_nat j)) v) in E.
  - intros i v Hv. by apply (proj2 (Hnone i) v) in Hv.
Qed.

(** The vote is for the collector's view, round and proposal. *)
Definition matches (hdp : HeightDataPackage) (vote : Vote) : bool :=
  (hView hdp =? View vote) && (hRound hdp =? Round vote) &&
  bytes_Equal (ProposalHash hdp) (ForHash vote).

Lemma accept_inv hdp vote msg v' :
  hdp_inv hdp → Vote_SignBytes vote = Ret msg →
  Verify (ValidatorSet hdp) (Sign vote) msg (ValidatorIndex vote) = Ret true →
  matches hdp vote = true → Votes hdp !! Z.to_nat (ValidatorIndex vote) = Some None →
  0 ≤ ValidatorIndex vote →
  bv_wf v' → Bits v' = Verifier_Size (ValidatorSet hdp) →
  (∀ bv, VotesBitVector hdp = Some bv → ∀ j, 0 ≤ j →
     elem_bit (Elems v') j = if j =? ValidatorIndex vote then true else elem_bit (Elems bv) j) →
  ∀ w, PerVote hdp !! Z.to_nat (ValidatorIndex vote) = Some w →
  hdp_inv (hdp_vote hdp
    (if IsOK vote then int64 (VotesTotal hdp + w) else VotesTotal hdp)
    (if IsOK vote then RejectTotal hdp else int64 (RejectTotal hdp + w))
    (<[Z.to_nat (ValidatorIndex vote) := Some vote]> (Votes hdp)) (Some v')).
Proof.
  intros I Hmsg Hver Hm Hnone Hidx Hwf Hbits Hset w Hw.
  set (i := Z.to_nat (ValidatorIndex vote)) in *.
  pose proof (weight_insert IsOK (Votes hdp) vote w (PerVote hdp) i Hnone Hw) as W1.
  pose proof (weight_insert (λ v, negb (IsOK v)) (Votes hdp) vote w (PerVote hdp) i Hnone Hw) as W2.
  pose proof (weight_bounds IsOK (<[i:=Some vote]> (Votes hdp)) (PerVote hdp) (inv_per_nonneg _ I)) as Wb.
  pose proof (inv_bound _ I) as Hbd.
  constructor; simpl; try apply I.
  - rewrite length_insert. apply I.
  - rewrite W1, <- (inv_total _ I) in *. destruct (IsOK vote); [|lia]. apply wrapS_small; lia.
  - rewrite W2, <- (inv_reject _ I) in *. destruct (IsOK vote); simpl in *; [lia|]. apply wrapS_small; lia.
  - exists v'. split; [done|]. split; [done|]. split; [done|]. intros j Hj.
    destruct (inv_bits _ I) as (bv & Ebv & _ & _ & Hbv). rewrite (Hset bv Ebv j Hj).
    destruct (Z.eqb_spec j (ValidatorIndex vote)) as [->|Hne].
    + rewrite list_lookup_insert_eq by (by eapply lookup_lt_Some). done.
    + rewrite list_lookup_insert_ne by (unfold i; lia). by apply Hbv.
  - intros k v Hv. apply list_lookup_insert_Some in Hv as [(<- & E & _)|[_ Hv]].
    + injection E as <-. unfold matches in Hm. bool_to_prop.
      unfold vote_ok, i. rewrite Z2Nat.id by lia. simpl. split_and!; try congruence. by exists msg.
    + destruct (inv_vote _ I k v Hv) as (?&?&?&?). by unfold vote_ok.
Qed.

(** Every outcome of [addVote] from a good state: a negative index panics, a
    bad signature, a vote for another view, round or proposal and a second
    vote of a validator are refused with the state unchanged, anything else
    is stored and counted; the invariant is kept. *)
Lemma addVote_cases hdp vote msg : hdp_inv hdp → Vote_SignBytes vote = Ret msg →
  (ValidatorIndex vote < 0 ∧ addVote hdp vote = Panic) ∨
  (0 ≤ ValidatorIndex vote ∧
   Verify (ValidatorSet hdp) (Sign vote) msg (ValidatorIndex vote) = Ret false ∧
   addVote hdp vote = Ret (hdp, Some ErrInvalidSign)) ∨
  (Verify (ValidatorSet hdp) (Sign vote) msg (ValidatorIndex vote) = Ret true ∧
   ((matches hdp vote = false ∧ addVote hdp vote = Ret (hdp, Some ErrInvalidVoteCode)) ∨
    (matches hdp vote = true ∧ ∃ old, Votes hdp !! Z.to_nat (ValidatorIndex vote) = Some (Some old) ∧
       addVote hdp vote = Ret (hdp, Some ErrDuplicatedVote)) ∨
    (matches hdp vote = true ∧ Votes hdp !! Z.to_nat (ValidatorIndex vote) = Some None ∧
       ∃ hdp', addVote hdp vote = Ret (hdp', None) ∧ hdp_inv hdp' ∧
         Votes hdp' = <[Z.to_nat (ValidatorIndex vote) := Some vote]> (Votes hdp) ∧
         (hView hdp', hRound hdp', ProposalHash hdp', ValidatorSet hdp', PerVote hdp', AggVote hdp') =
         (hView hdp, hRound hdp, ProposalHash hdp, ValidatorSet hdp, PerVote hdp, AggVote hdp)))).
Proof.
  intros I Hmsg. unfold addVote. rewrite Hmsg. cbn [mbind outcome_bind].
  destruct (Verify _ _ _ _) as [good|] eqn:Hver; cbn [mbind outcome_bind].
  2:{ left. split; [by eapply Verify_panics|done]. }
  right. destruct good; simpl negb; [right|left].
  2:{ split; [|done]. destruct (Z.lt_ge_cases (ValidatorIndex vote) 0) as [Hn|]; [|lia].
      eapply Verify_panics in Hn. rewrite Hn in Hver. done. }
  split; [done|].
  assert (negb (hView hdp =? View vote) || negb (hRound hdp =? Round vote)
          || negb (bytes_Equal (ProposalHash hdp) (ForHash vote)) = negb (matches hdp vote)) as ->.
  { unfold matches. by rewrite !negb_andb. }
  destruct (matches hdp vote) eqn:Hm; simpl negb; [|by left]. right.
  pose proof (Verify_true _ _ _ _ Hver) as (Hr & _).
  destruct (idx_in_range (Votes hdp) (ValidatorIndex vote)) as (old & -> & Lo).
  { unfold zlen in *. rewrite (inv_votes_len _ I). lia. }
  cbn [mbind outcome_bind]. destruct old as [old|]; [left|right].
  { split; [done|]. by exists old. }
  split; [done|]. split; [done|].
  destruct (idx_in_range (PerVote hdp) (ValidatorIndex vote)) as (w & -> & Lw).
  { unfold zlen in *. rewrite (inv_per_len _ I). lia. }
  destruct (inv_bits _ I) as (bv & Ebv & Hwf & Hbits & _).
  destruct (SetIndex_spec bv (ValidatorIndex vote) true Hwf ltac:(lia)) as [Hset _].
  destruct Hset as (v' & Es & Hwf' & Hb' & Hbit); [rewrite Hbits; unfold Verifier_Size; lia|].
  cbn [mbind outcome_bind]. exists (hdp_vote hdp
    (if IsOK vote then int64 (VotesTotal hdp + w) else VotesTotal hdp)
    (if IsOK vote then RejectTotal hdp else int64 (RejectTotal hdp + w))
    (<[Z.to_nat (ValidatorIndex vote) := Some vote]> (Votes hdp)) (Some v')).
  split.
  { destruct (IsOK vote); rewrite upd_in_range by (unfold zlen in *; rewrite (inv_votes_len _ I); lia);
      cbn [mbind outcome_bind]; rewrite Ebv, Es; done. }
  split; [|done]. eapply accept_inv; try done; [lia|congruence|].
  intros bv0 E0. rewrite Ebv in E0. by injection E0 as <-.
Qed.

(** ** Reachable collectors *)

Lemma hdp_agg_inv hdp agg : hdp_inv hdp → hdp_inv (hdp_agg hdp agg).
Proof. intros []. by constructor. Qed.

(** The calls that change a collector: votes, aggregation, an aggregated vote. *)
Inductive cast_step : HeightDataPackage → HeightDataPackage → Prop :=
| step_addVote h vote h' e : addVote h vote = Ret (h', e) → cast_step h h'
| step_getMaj23 h h' r : getMaj23 h = Ret (h', r) → cast_step h h'
| step_validate h agg h' e : validate_aggregated h agg = Ret (h', e) → cast_step h h'.
(** And [SetHash], which replaces the proposal and keeps the votes. *)
Inductive collector_step : HeightDataPackage → HeightDataPackage → Prop :=
| step_cast h h' : cast_step h h' → collector_step h h'
| step_SetHash h hash : collector_step h (hdp_hash h hash).

Lemma getMaj23_agg h h' r : getMaj23 h = Ret (h', r) → ∃ agg, h' = hdp_agg h agg.
Proof.
  assert (h = hdp_agg h (AggVote h)) as Eh by by destruct h.
  unfold getMaj23. destruct (AggVote h) eqn:E; [intros [= <- <-]; eauto|].
  destruct (if threshold h <=? VotesTotal h then _ else _) as [c|]; [|intros [= <- <-]; eauto].
  destruct (maj23_loop _ _ _ _ _ _) as [[[bv sigs] nd]|]; [|done]. cbn [mbind outcome_bind].
  case_match; intros [= <- <-]; eauto.
Qed.

Lemma validate_agg h agg h' e : validate_aggregated h agg = Ret (h', e) → ∃ a, h' = hdp_agg h a.
Proof.
  assert (h = hdp_agg h (AggVote h)) as Eh by by destruct h.
  unfold validate_aggregated. destruct (Agg_SignBytes agg); [|done]. cbn [mbind outcome_bind].
  destruct (VerifyAggregateSignature _ _ _ _) as [good|]; [|done]. cbn [mbind outcome_bind].
  case_match; [intros [= <- <-]; eauto|]. case_match; intros [= <- <-]; eauto.
Qed.

(** What two states of one collector have in common: the votes held stay, and
    a vote that is new is for the proposal of the time. *)
Definition extends (h h' : HeightDataPackage) : Prop :=
  PerVote h' = PerVote h ∧ ValidatorSet h' = ValidatorSet h ∧
  (∀ i v, Votes h !! i = Some (Some v) → Votes h' !! i = Some (Some v)).
Lemma cast_step_inv h h' : cast_step h h' → hdp_inv h →
  hdp_inv h' ∧ extends h h' ∧ ProposalHash h' = ProposalHash h ∧
  (∀ i v, Votes h' !! i = Some (Some v) → Votes h !! i = Some (Some v) ∨
     (addVote h v = Ret (h', None) ∧ ForHash v = ProposalHash h)).
Proof.
  intros Hstep I. destruct Hstep as [h vote h' e Ha|h h' r Hg|h agg h' e Hv].
  - destruct (Vote_SignBytes vote) as [msg|] eqn:Hm.
    2:{ unfold addVote in Ha. by rewrite Hm in Ha. }
    destruct (addVote_cases h vote msg I Hm)
      as [[_ E]|[(_ & _ & E)|(_ & [[_ E]|[(_ & o & _ & E)|(Ht & Hn & h2 & E & I2 & Hvs & Heq)]])]];
      rewrite E in Ha; simplify_eq; try (split_and!; [done|split_and!; by auto|done|by auto]).
    split_and!; [done| |done|]; [split_and!; [done..|]|].
    + intros i v Hi. rewrite Hvs, list_lookup_insert_ne; [done|]. intros <-. congruence.
    + intros i v. rewrite Hvs. intros [(<- & Ev & _)|[_ Hv]]%list_lookup_insert_Some; [right|by left].
      injection Ev as <-. split; [done|]. unfold matches in Ht. bool_to_prop. congruence.
  - apply getMaj23_agg in Hg as [a ->]. split_and!; [by apply hdp_agg_inv|split_and!; by auto|done|by auto].
  - apply validate_agg in Hv as [a ->]. split_and!; [by apply hdp_agg_inv|split_and!; by auto|done|by auto].
Qed.
Lemma hdp_hash_inv h hash : hdp_inv h → hdp_inv (hdp_hash h hash).
Proof. intros []. by constructor. Qed.
Lemma extends_refl h : extends h h.
Proof. by split_and!. Qed.
Lemma extends_trans h1 h2 h3 : extends h1 h2 → extends h2 h3 → extends h1 h3.
Proof. intros (E1 & E2 & E3) (F1 & F2 & F3). split_and!; [congruence..|auto]. Qed.

(** Without [SetHash] the votes stay votes for the proposal. *)
Lemma cast_reachable h0 h : rtc cast_step h0 h → hdp_inv h0 →
  hdp_inv h ∧ extends h0 h ∧ (for_proposal h0 → for_proposal h).
Proof.
  induction 1 as [h|h0 h1 h Hs _ IH]; intros I; [split_and!; [done|apply extends_refl|done]|].
  apply cast_step_inv in Hs as (I1 & E1 & Eh & Hnew); [|done]. destruct (IH I1) as (I2 & E2 & Hp).
  split_and!; [done|by eapply extends_trans|]. intros Hf. apply Hp. intros i v Hv. rewrite Eh. destruct (Hnew i v Hv) as [Ho|[_ ?]]; [by eapply Hf|done].
Qed.
Lemma collector_reachable h0 h : rtc collector_step h0 h → hdp_inv h0 →
  hdp_inv h ∧ extends h0 h ∧
  ∀ i v, Votes h !! i = Some (Some v) → Votes h0 !! i = Some (Some v) ∨
    ∃ h1 h2, rtc collector_step h0 h1 ∧ addVote h1 v = Ret (h2, None) ∧ ForHash v = ProposalHash h1 ∧
      rtc collector_step h2 h.
Proof.
  induction 1 as [h|h0 h1 h Hs Hr IH]; intros I; [split_and!; [done|apply extends_refl|by left]|].
  assert (hdp_inv h1 ∧ extends h0 h1 ∧
    ∀ i v, Votes h1 !! i = Some (Some v) → Votes h0 !! i = Some (Some v) ∨
      (addVote h0 v = Ret (h1, None) ∧ ForHash v = ProposalHash h0)) as (I1 & E1 & Hnew).
  { destruct Hs as [h0 h1 Hs|h0 hash].
    - apply cast_step_inv in Hs as (? & ? & _ & ?); done.
    - split_and!; [by apply hdp_hash_inv|by split_and!|by left]. }
  destruct (IH I1) as (I2 & E2 & Hv). split_and!; [done|by eapply extends_trans|]. intros i v Hi.
  destruct (Hv i v Hi) as [Hi1|(h2 & h3 & R1 & Ha & Hf & R2)].
  - destruct (Hnew i v Hi1) as [|[Ha Hf]]; [by left|]. right. exists h0, h1. split_and!; [apply rtc_refl|done..].
  - right. exists h2, h3. split_and!; [by eapply rtc_l|done..].
Qed.
Lemma cast_hash h0 h : rtc cast_step h0 h → hdp_inv h0 → ProposalHash h = ProposalHash h0.
Proof.
  induction 1 as [|h0 h1 h Hs _ IH]; intros I; [done|]. apply cast_step_inv in Hs as (I1 & _ & Eh & _); [|done]. by rewrite IH.
Qed.
Lemma cast_collector h h' : rtc cast_step h h' → rtc collector_step h h'.
Proof. induction 1 as [|h1 h2 h3 Hs _ IH]; [apply rtc_refl|]. eapply rtc_l; [by apply step_cast|done]. Qed.

(** Casting a list of votes is a sequence of steps. *)
Lemma foldM_reachable votes : ∀ h0 h,
  foldM (λ h v, fst <$> addVote h v) votes h0 = Ret h → rtc cast_step h0 h.
Proof.
  induction votes as [|v votes IH]; intros h0 h; cbn [foldM]; [intros [= <-]; apply rtc_refl|].
  destruct (addVote h0 v) as [[h1 e]|] eqn:E; [|done]. cbn. intros Hf.
  eapply rtc_l; [by eapply step_addVote|by apply IH].
Qed.

(** ** The quorum rule *)

Lemma isQuorum_iff hdp : hdp_inv hdp →
  isQuorum hdp = true ↔
    2 * zsum (PerVote hdp) ≤ 3 * weight IsOK (Votes hdp) (PerVote hdp) + 2 ∨
    2 * zsum (PerVote hdp) ≤ 3 * weight (λ v, negb (IsOK v)) (Votes hdp) (PerVote hdp) + 2.
Proof.
  intros I. pose proof (inv_bound _ I) as Hb. pose proof (zsum_nonneg _ (inv_per_nonneg _ I)).
  unfold isQuorum, threshold. rewrite (inv_needed _ I), wrapS_small by lia.
  rewrite <- (inv_total _ I), <- (inv_reject _ I), orb_true_iff, !Z.leb_le.
  Z.to_euclidean_division_equations; lia.
Qed.

(** A collector of [n] validators of weight one with these votes, counted, has a
    quorum for the proposal. *)
Definition accepts (vs : Verifier) (n : nat) (votes : list (option Vote)) : Prop :=
  let h := NewHeightDataPackage vs (replicate n 1) 0 0 in
  threshold h ≤ weight IsOK votes (replicate n 1) ∧
  isQuorum (hdp_vote h (weight IsOK votes (replicate n 1)) 0 votes (VotesBitVector h)) = true.
Lemma zsum_ones n : zsum (replicate n 1) = Z.of_nat n.
Proof. induction n as [|n IH]; [done|]. change (1 + zsum (replicate n 1) = Z.of_nat (S n)). rewrite IH. lia. Qed.
Lemma threshold_ones vs n : 2 * Z.of_nat n < 2 ^ 63 →
  threshold (NewHeightDataPackage vs (replicate n 1) 0 0) = 2 * Z.of_nat n / 3.
Proof.
  intros Hn. pose proof (zsum_ones n) as Hz.
  assert (VotesNeeded (NewHeightDataPackage vs (replicate n 1) 0 0) = Z.of_nat n) as Hv.
  { rewrite <- Hz. cbn [VotesNeeded NewHeightDataPackage]. rewrite foldl_int64_sum; [done| |done|lia].
    by apply Forall_replicate. }
  unfold threshold. rewrite Hv, wrapS_small by lia. Z.to_euclidean_division_equations; lia.
Qed.
Lemma weight_front v a b : IsOK v = true → weight IsOK (replicate a (Some v) ++ replicate b None) (replicate (a + b) 1) = Z.of_nat a.
Proof.
  intros Hv. induction a as [|a IH]; cbn [replicate app Nat.add weight].
  - induction b as [|b IHb]; [done|]. cbn. lia.
  - rewrite Hv, IH. lia.
Qed.
Lemma weight_back v a b : IsOK v = true → weight IsOK (replicate b None ++ replicate a (Some v)) (replicate (b + a) 1) = Z.of_nat a.
Proof.
  intros Hv. induction b as [|b IH]; cbn [replicate app Nat.add weight]; [|rewrite IH; lia].
  induction a as [|a IHa]; [done|]. cbn [replicate weight]. rewrite Hv, IHa. lia.
Qed.
Lemma overlap_app p l1 : ∀ l2 per m1 m2 per', length l2 = length l1 → length per = length l1 →
  overlap p (l1 ++ m1) (l2 ++ m2) (per ++ per') = overlap p l1 l2 per + overlap p m1 m2 per'.
Proof.
  induction l1 as [|o1 l1 IH]; intros [|o2 l2] [|w per] m1 m2 per' H1 H2; try done.
  cbn [app overlap]. rewrite IH; [lia|simpl in *; lia..].
Qed.
Lemma overlap_const p n o1 o2 : overlap p (replicate n o1) (replicate n o2) (replicate n 1) =
  match o1, o2 with Some v1, Some v2 => if p v1 && p v2 then Z.of_nat n else 0 | _, _ => 0 end.
Proof. induction n as [|n IH]; cbn [replicate overlap]; [|rewrite IH]; repeat case_match; lia. Qed.
(** The first [a] of [a + b] validators and the last [a] share those beyond [b]. *)
Lemma overlap_ends v a b : IsOK v = true →
  overlap IsOK (replicate a (Some v) ++ replicate b None) (replicate b None ++ replicate a (Some v)) (replicate (a + b) 1) =
    Z.max 0 (Z.of_nat a - Z.of_nat b).
Proof.
  intros Hv. assert (∀ (o : option Vote) x k, replicate (x + k) o = replicate k o ++ replicate x o) as Hswap.
  { intros o x k. by rewrite <- replicate_add, Nat.add_comm. }
  destruct (Nat.le_ge_cases a b) as [[k ->]%Nat.le_sum|[k ->]%Nat.le_sum].
  - transitivity (overlap IsOK (replicate a (Some v) ++ replicate k None ++ replicate a None)
      (replicate a None ++ replicate k None ++ replicate a (Some v)) (replicate a 1 ++ replicate k 1 ++ replicate a 1)).
    { rewrite <- Hswap, app_assoc, <- !replicate_add. do 2 f_equal; lia. }
    rewrite !overlap_app, !overlap_const by (by rewrite !length_replicate). lia.
  - transitivity (overlap IsOK (replicate b (Some v) ++ replicate k (Some v) ++ replicate b None)
      (replicate b None ++ replicate k (Some v) ++ replicate b (Some v)) (replicate b 1 ++ replicate k 1 ++ replicate b 1)).
    { rewrite <- Hswap, app_assoc, <- !replicate_add. do 2 f_equal; lia. }
    rewrite !overlap_app, !overlap_const by (by rewrite !length_replicate). rewrite Hv. cbn [andb]. lia.
Qed.
Lemma tight_quorums vs n v : IsOK v = true → 2 * Z.of_nat n < 2 ^ 63 →
  ∃ votes1 votes2, length votes1 = n ∧ length votes2 = n ∧
     accepts vs n votes1 ∧ accepts vs n votes2 ∧ Forall (λ o, o = None ∨ o = Some v) (votes1 ++ votes2) ∧
     overlap IsOK votes1 votes2 (replicate n 1) = Z.max 0 (2 * (2 * Z.of_nat n / 3) - Z.of_nat n).
Proof.
  intros Hv Hn. set (a := Z.to_nat (2 * Z.of_nat n / 3)). assert (Z.of_nat a = 2 * Z.of_nat n / 3 ∧ (a ≤ n)%nat) as [Ea Hle].
  { unfold a. Z.to_euclidean_division_equations; lia. }
  assert (n = (a + (n - a)))%nat as En by lia. set (b := (n - a)%nat) in *.
  assert (∀ votes, weight IsOK votes (replicate n 1) = Z.of_nat a → accepts vs n votes) as Hacc.
  { intros votes Hw. split; [rewrite threshold_ones; lia|]. unfold isQuorum. apply orb_true_iff. left. apply Z.leb_le.
    change (threshold (hdp_vote _ _ _ _ _)) with (threshold (NewHeightDataPackage vs (replicate n 1) 0 0)).
    rewrite threshold_ones by done. cbn [VotesTotal hdp_vote]. lia. }
  exists (replicate a (Some v) ++ replicate b None), (replicate b None ++ replicate a (Some v)).
  rewrite !length_app, !length_replicate. split_and!; [lia|lia|apply Hacc; rewrite En; by apply weight_front|apply Hacc; rewrite En, Nat.add_comm; by apply weight_back| |].
  - rewrite !Forall_app. split_and!; apply Forall_replicate; by auto.
  - rewrite En at 1. rewrite overlap_ends by done. f_equal. lia.
Qed.

(** ** The aggregated vote *)

(** The necessary data of the last vote present. *)
Definition last_data (votes : list (option Vote)) (nd : list bytes) : list bytes :=
  foldl (λ acc o, match o with Some v => ForNecessaryData v | None => acc end) nd votes.

(** The bit the loop leaves at position [j]. *)
Definition marked (ok : bool) (votes : list (option Vote)) (j : Z) : bool :=
  match votes !! Z.to_nat j with Some (Some v) => eqb (IsOK v) ok | _ => false end.

Lemma maj23_loop_spec ok votes : ∀ i v sigs nd, bv_wf v → 0 ≤ i → i + zlen votes ≤ Bits v →
  ∃ v', maj23_loop ok votes i (Some v) sigs nd =
      Ret (Some v', sigs ++ map Sign (present votes), last_data votes nd) ∧
    bv_wf v' ∧ Bits v' = Bits v ∧
    ∀ j, 0 ≤ j → elem_bit (Elems v') j =
      elem_bit (Elems v) j || ((i <=? j) && marked ok votes (j - i)).
Proof.
  induction votes as [|o votes IH]; intros i v sigs nd Hwf Hi Hb.
  - exists v. cbn. rewrite app_nil_r. split_and!; try done. intros j Hj.
    unfold marked. by rewrite lookup_nil, andb_false_r, orb_false_r.
  - rewrite zlen_cons in Hb.
    assert (∀ j, 0 ≤ j → j ≠ i → (i <=? j) && marked ok (o :: votes) (j - i) =
      (i + 1 <=? j) && marked ok votes (j - (i + 1))) as Hshift.
    { intros j Hj Hne. destruct (Z.leb_spec i j), (Z.leb_spec (i + 1) j); try lia; try done.
      unfold marked. replace (Z.to_nat (j - i)) with (S (Z.to_nat (j - (i + 1)))) by lia. done. }
    destruct o as [vote|]; cbn [maj23_loop].
    + assert (∃ v1, (if eqb (IsOK vote) ok then r ← SetIndex (Some v) i true; Ret (fst r)
                     else Ret (Some v)) = Ret (Some v1) ∧ bv_wf v1 ∧ Bits v1 = Bits v ∧
        ∀ j, 0 ≤ j → elem_bit (Elems v1) j =
          elem_bit (Elems v) j || ((j =? i) && eqb (IsOK vote) ok)) as (v1 & -> & Hwf1 & Hb1 & Hbit1).
      { destruct (eqb (IsOK vote) ok).
        - destruct (SetIndex_spec v i true Hwf Hi) as [Hs _].
          destruct Hs as (v1 & -> & ? & ? & Hbit); [pose proof (zlen_nonneg votes); lia|].
          exists v1. split_and!; try done. intros j Hj. rewrite Hbit by done.
          destruct (Z.eqb_spec j i); by rewrite ?orb_true_r, ?orb_false_r.
        - exists v. split_and!; try done. intros j Hj. by rewrite andb_false_r, orb_false_r. }
      cbn [mbind outcome_bind].
      destruct (IH (i + 1) v1 (sigs ++ [Sign vote]) (ForNecessaryData vote)) as (v' & E & Hwf' & Hb' & Hbit');
        [done|lia|lia|].
      exists v'. rewrite E. split.
      { change (present (Some vote :: votes)) with (vote :: present votes).
        cbn [map]. by rewrite <- app_assoc. }
      split; [done|]. split; [lia|]. intros j Hj. rewrite Hbit', Hbit1 by done.
      destruct (Z.eqb_spec j i) as [->|Hne].
      * rewrite Z.leb_refl, Z.sub_diag. destruct (Z.leb_spec (i + 1) i); [lia|].
        unfold marked. simpl. by rewrite orb_false_r.
      * rewrite Hshift by done. simpl. by rewrite orb_false_r.
    + destruct (IH (i + 1) v sigs nd) as (v' & E & Hwf' & Hb' & Hbit'); [done|lia|lia|].
      exists v'. rewrite E. split; [done|]. split; [done|]. split; [done|]. intros j Hj.
      rewrite Hbit' by done. f_equal. destruct (Z.eqb_spec j i) as [->|Hne]; [|by rewrite Hshift].
      rewrite Z.sub_diag. destruct (Z.leb_spec (i + 1) i); [lia|]. unfold marked. simpl.
      by rewrite andb_false_r.
Qed.

Lemma aggregate_loop_total sigs : ∀ σ, Forall (λ s, is_Some (sig_deserialize s)) sigs →
  ∃ σ', aggregate_loop σ sigs = Some σ'.
Proof.
  induction sigs as [|s sigs IH]; intros σ Hs; [by exists σ|].
  apply Forall_cons_1 in Hs as [[x Hx] Hs]. simpl. rewrite Hx. by apply IH.
Qed.

Lemma present_elem votes v : v ∈ present votes ↔ ∃ i, votes !! i = Some (Some v).
Proof.
  unfold present. rewrite list_elem_of_omap. split.
  - intros (o & Ho & Hv). simpl in Hv. subst o. by apply list_elem_of_lookup in Ho.
  - intros [i Hi]. exists (Some v). split; [by eapply list_elem_of_lookup_2|done].
Qed.

Lemma present_sigs hdp : hdp_inv hdp →
  Forall (λ s, is_Some (sig_deserialize s)) (map Sign (present (Votes hdp))).
Proof.
  intros I. apply Forall_forall. intros s Hs.
  apply list_elem_of_In, list_elem_of_fmap in Hs as (v & -> & Hv).
  apply present_elem in Hv as [i Hi]. destruct (inv_vote _ I i v Hi) as (_ & _ & _ & msg & _ & Hver).
  apply Verify_true in Hver as (_ & key & σ & _ & -> & _). by eexists.
Qed.

(** The code of the aggregated vote: accept wins over reject. *)
Definition maj_code (hdp : HeightDataPackage) : option Z :=
  if threshold hdp <=? VotesTotal hdp then Some CodeTypeOK
  else if threshold hdp <=? RejectTotal hdp then Some CodeTypeReject
  else None.

Lemma isQuorum_maj_code hdp : isQuorum hdp = true ↔ is_Some (maj_code hdp).
Proof.
  unfold isQuorum, maj_code. destruct (_ <=? VotesTotal hdp), (_ <=? RejectTotal hdp); simpl;
    split; try done; by intros [].
Qed.

Lemma getMaj23_cases hdp : hdp_inv hdp → AggVote hdp = None →
  match maj_code hdp with
  | None => getMaj23 hdp = Ret (hdp, inr ErrNoMaj23)
  | Some c => ∃ v aggSig, AggregateSignatures (map Sign (present (Votes hdp))) = Some aggSig ∧
      bv_wf v ∧ Bits v = Verifier_Size (ValidatorSet hdp) ∧
      (∀ j, 0 ≤ j → bv_bit v j = marked (c =? CodeTypeOK) (Votes hdp) j) ∧
      let agg := {| aCode := c; aView := hView hdp; aRound := hRound hdp;
                    aForHash := ProposalHash hdp; aForNecessaryData := last_data (Votes hdp) [];
                    aSign := aggSig; aSignerIndexer := Some v |} in
      getMaj23 hdp = Ret (hdp_agg hdp (Some agg), inl agg)
  end.
Proof.
  intros I Hn. unfold getMaj23. rewrite Hn. fold (maj_code hdp).
  destruct (maj_code hdp) as [c|]; [|done].
  destruct (aggregate_loop_total (map Sign (present (Votes hdp))) sig_zero (present_sigs hdp I)) as [σ Hσ].
  assert (∃ v0, NewBitVector (Verifier_Size (ValidatorSet hdp)) = Some v0) as [v0 Hv0].
  { unfold NewBitVector, Verifier_Size. pose proof (zlen_nonneg (publicKeys (ValidatorSet hdp))).
    destruct (Z.ltb_spec (zlen (publicKeys (ValidatorSet hdp))) 0); [lia|]. by eexists. }
  rewrite Hv0. destruct (NewBitVector_wf _ _ Hv0) as (Hwf0 & Hb0 & _ & Hz0).
  destruct (maj23_loop_spec (c =? CodeTypeOK) (Votes hdp) 0 v0 [] []) as (v & E & Hwf & Hb & Hbit);
    [done|lia|rewrite Hb0; unfold Verifier_Size, zlen; rewrite (inv_votes_len _ I); lia|].
  exists v, (sig_serialize σ). unfold AggregateSignatures. rewrite Hσ, E. cbn [mbind outcome_bind].
  split; [done|]. split; [done|]. split; [lia|]. split; [|by simpl; rewrite Hσ].
  intros j Hj. unfold bv_bit. rewrite Hbit, Hz0 by done. rewrite Z.sub_0_r.
  destruct (Z.leb_spec 0 j); [|lia]. simpl. destruct (Z.ltb_spec j (Bits v)); [done|].
  unfold marked. rewrite lookup_ge_None_2; [done|].
  rewrite Hb, Hb0 in *. unfold Verifier_Size, zlen in *. rewrite (inv_votes_len _ I). lia.
Qed.

Lemma marked_present votes : ∀ i bit,
  (∀ k v, votes !! k = Some (Some v) → bit (i + Z.of_nat k) = true) →
  marked_sigs (map (fmap Sign) votes) bit i = map Sign (present votes).
Proof.
  induction votes as [|o votes IH]; intros i bit Hbit; [done|].
  cbn [map marked_sigs]. rewrite (IH (i + 1)).
  2:{ intros k v Hk. rewrite <- (Hbit (S k) v Hk). f_equal. lia. }
  destruct o as [v|]; simpl; [|by destruct (bit i)].
  pose proof (Hbit 0%nat v eq_refl) as Hb. rewrite Z.add_0_r in Hb. by rewrite Hb.
Qed.

(** ** Theorems *)

(** C10. Whatever sequence of votes, proposals, aggregations and aggregated votes a
    fresh collector receives, its totals are exactly the weights of the
    accepting and rejecting votes it holds, its bit vector marks exactly the
    validators that voted, every vote held is from the validator at its
    position, for this view and round, with a valid signature and for the
    proposal that was set when it was added, and a vote once held is never
    replaced.  Setting a new proposal keeps the votes; they are all for the
    current proposal if the collector held none when it was set. *)
Theorem collector_invariant vs per view round h h'
    (Hcfg : config_ok vs per)
    (Hr : rtc collector_step (NewHeightDataPackage vs per view round) h)
    (Hr' : rtc collector_step h h') :
  hdp_inv h ∧ hdp_inv h' ∧
  (∀ i v, Votes h !! i = Some (Some v) → Votes h' !! i = Some (Some v)) ∧
  (∀ i v, Votes h' !! i = Some (Some v) → ∃ h1 h2,
     rtc collector_step (NewHeightDataPackage vs per view round) h1 ∧
     addVote h1 v = Ret (h2, None) ∧ ForHash v = ProposalHash h1 ∧ rtc collector_step h2 h') ∧
  (∀ hash h2, (∀ i v, Votes h !! i ≠ Some (Some v)) → rtc cast_step (hdp_hash h hash) h2 →
     hdp_inv h2 ∧ for_proposal h2 ∧ ProposalHash h2 = hash).
Proof.
  destruct (fresh_inv vs per view round [] Hcfg) as [I0 Hnone]. change (hdp_hash _ []) with (NewHeightDataPackage vs per view round) in I0, Hnone.
  assert (rtc collector_step (NewHeightDataPackage vs per view round) h') as Hall by (by etransitivity). apply collector_reachable in Hall as (I' & _ & Hv); [|done].
  apply collector_reachable in Hr as (I & _ & _); [|done]. apply collector_reachable in Hr' as (_ & (_ & _ & Hk) & _); [|done].
  split_and!; [done..| |].
  - intros i v Hi. destruct (Hv i v Hi) as [Hi0|]; [by destruct (Hnone i v)|done].
  - intros hash h2 Hempty Hc. pose proof (hdp_hash_inv h hash I) as Ih. split_and!.
    + by apply cast_reachable in Hc as (? & _).
    + apply cast_reachable in Hc as (_ & _ & Hp); [|done]. apply Hp. intros i v Hi. by destruct (Hempty i v).
    + by apply cast_hash in Hc.
Qed.

(** A vote is counted exactly when its index is a validator's, its signature
    verifies, it is for this view, round and proposal, and the validator has
    not voted; every refusal leaves the collector unchanged. *)
Theorem addVote_accepts_iff hdp vote msg
    (I : hdp_inv hdp) (Hmsg : Vote_SignBytes vote = Ret msg) (Hidx : 0 ≤ ValidatorIndex vote) :
  ∃ hdp' e, addVote hdp vote = Ret (hdp', e) ∧ hdp_inv hdp' ∧
    (e = None ↔
       Verify (ValidatorSet hdp) (Sign vote) msg (ValidatorIndex vote) = Ret true ∧
       View vote = hView hdp ∧ Round vote = hRound hdp ∧ ForHash vote = ProposalHash hdp ∧
       Votes hdp !! Z.to_nat (ValidatorIndex vote) = Some None) ∧
    (e ≠ None → hdp' = hdp) ∧
    (e = None → Votes hdp' = <[Z.to_nat (ValidatorIndex vote) := Some vote]> (Votes hdp)).
Proof.
  assert (matches hdp vote = true ↔ View vote = hView hdp ∧ Round vote = hRound hdp ∧
    ForHash vote = ProposalHash hdp) as Hm.
  { unfold matches. rewrite !andb_true_iff, !Z.eqb_eq, bytes_Equal_true. naive_solver. }
  destruct (addVote_cases hdp vote msg I Hmsg)
    as [[? _]|[(_ & Hf & E)|(Hv & [[Hf E]|[(Ht & o & Ho & E)|(Ht & Hn & h2 & E & I2 & Hvs & _)]])]];
    [lia|..]; rewrite E; eexists _, _; (split; [done|]); (split; [done|]).
  - split; [|done]. split; [done|]. intros [Hv _]. congruence.
  - split; [|done]. split; [done|]. intros (_ & Hx). rewrite (proj2 Hm) in Hf by naive_solver. done.
  - split; [|done]. split; [done|]. intros (_ & _ & _ & _ & Hn). congruence.
  - split; [|done]. split; [|done]. intros _. apply Hm in Ht. naive_solver.
Qed.

(** C29. The quorum rule in exact arithmetic: two thirds of the total weight,
    rounded down.  Two accepting quorums share validators of weight at least
    twice that less the total weight, and this is the least they share: for
    any number of validators of weight one there are two accepting quorums
    that share exactly that, or nothing where it is negative. *)
Theorem isQuorum_exact hdp1 hdp2 (I1 : hdp_inv hdp1) (I2 : hdp_inv hdp2)
    (Hper : PerVote hdp2 = PerVote hdp1) :
  let N := zsum (PerVote hdp1) in
  (isQuorum hdp1 = true ↔ 2 * N ≤ 3 * VotesTotal hdp1 + 2 ∨ 2 * N ≤ 3 * RejectTotal hdp1 + 2) ∧
  (threshold hdp1 ≤ VotesTotal hdp1 → threshold hdp2 ≤ VotesTotal hdp2 →
   2 * (2 * N / 3) - N ≤ overlap IsOK (Votes hdp1) (Votes hdp2) (PerVote hdp1)) ∧
  (∀ (vs : Verifier) (n : nat) v, IsOK v = true → 2 * Z.of_nat n < 2 ^ 63 →
   ∃ votes1 votes2, length votes1 = n ∧ length votes2 = n ∧
     accepts vs n votes1 ∧ accepts vs n votes2 ∧ Forall (λ o, o = None ∨ o = Some v) (votes1 ++ votes2) ∧
     overlap IsOK votes1 votes2 (replicate n 1) = Z.max 0 (2 * (2 * Z.of_nat n / 3) - Z.of_nat n)).
Proof.
  intros N. split_and!.
  - rewrite isQuorum_iff, (inv_total _ I1), (inv_reject _ I1) by done. done.
  - unfold threshold. rewrite (inv_needed _ I1), (inv_needed _ I2), Hper.
    pose proof (inv_bound _ I1) as Hb. pose proof (zsum_nonneg _ (inv_per_nonneg _ I1)).
    rewrite wrapS_small by lia. rewrite (inv_total _ I1), (inv_total _ I2), Hper.
    pose proof (overlap_bound IsOK (Votes hdp1) (Votes hdp2) _ (inv_per_nonneg _ I1)).
    unfold N. Z.to_euclidean_division_equations; lia.
  - intros vs n v Hv Hn. by apply tight_quorums.
Qed.

(** [getMaj23] fails exactly without a quorum; with one it returns a vote for
    the collector's view, round and proposal whose bitmap marks exactly the
    validators whose votes agree with its code, and keeps it: a second call
    returns the same vote. *)
Theorem getMaj23_correct hdp (I : hdp_inv hdp) (Hn : AggVote hdp = None) :
  (isQuorum hdp = false → getMaj23 hdp = Ret (hdp, inr ErrNoMaj23)) ∧
  (isQuorum hdp = true → ∃ agg v hdp', getMaj23 hdp = Ret (hdp', inl agg) ∧
     (aView agg, aRound agg, aForHash agg) = (hView hdp, hRound hdp, ProposalHash hdp) ∧
     aCode agg = (if threshold hdp <=? VotesTotal hdp then CodeTypeOK else CodeTypeReject) ∧
     aSignerIndexer agg = Some v ∧ bv_wf v ∧ Bits v = Verifier_Size (ValidatorSet hdp) ∧
     (∀ j, 0 ≤ j → bv_bit v j = true ↔
        ∃ vote, Votes hdp !! Z.to_nat j = Some (Some vote) ∧ IsOK vote = Agg_IsOK agg) ∧
     getMaj23 hdp' = Ret (hdp', inl agg)).
Proof.
  pose proof (getMaj23_cases hdp I Hn) as Hc. pose proof (isQuorum_maj_code hdp) as Hq.
  destruct (maj_code hdp) as [c|] eqn:Ec.
  - split; [rewrite (proj2 Hq) by eauto; done|]. intros _.
    destruct Hc as (v & aggSig & Ha & Hwf & Hb & Hbit & E). eexists _, v, _. split; [exact E|].
    split; [done|]. split.
    { unfold maj_code in Ec. simpl. repeat case_match; naive_solver. }
    split; [done|]. split; [done|]. split; [done|]. split; [|done].
    intros j Hj. rewrite Hbit by done. unfold marked, Agg_IsOK. cbn [aCode].
    split.
    + destruct (Votes hdp !! Z.to_nat j) as [[vote|]|]; [|done|done].
      intros He%eqb_prop. by exists vote.
    + intros (vote & -> & ->). by apply eqb_true_iff.
  - split; [done|]. intros [? ?]%Hq. done.
Qed.

(** If the votes held are for the proposal and agree on their code and necessary data, the aggregated
    signature verifies, for the bitmap of the aggregated vote, on the message
    every one of the voters signed. *)
Theorem getMaj23_signature hdp hdp' agg (I : hdp_inv hdp) (Hfor : for_proposal hdp) (Hn : AggVote hdp = None)
    (Hg : getMaj23 hdp = Ret (hdp', inl agg)) (Hsome : present (Votes hdp) ≠ [])
    (Hcode : ∀ i v, Votes hdp !! i = Some (Some v) → Code v = aCode agg)
    (Hdata : ∀ i v, Votes hdp !! i = Some (Some v) → ForNecessaryData v = aForNecessaryData agg) :
  ∀ i v, Votes hdp !! i = Some (Some v) → ∃ msg, Vote_SignBytes v = Ret msg ∧
    VerifyAggregateSignature (ValidatorSet hdp) (aSign agg) msg (Byte (aSignerIndexer agg)) = Ret true.
Proof.
  intros i0 v0 H0. pose proof (getMaj23_cases hdp I Hn) as Hc.
  destruct (maj_code hdp) as [c|]; [|congruence].
  destruct Hc as (bv & aggSig & Ha & Hwf & Hb & Hbit & E). rewrite E in Hg. injection Hg as _ <-.
  cbn [aCode aForNecessaryData aSign aSignerIndexer] in *.
  destruct (inv_vote _ I i0 v0 H0) as (_ & V0 & R0 & msg & Hm & _). pose proof (Hfor i0 v0 H0) as F0.
  exists msg. split; [done|].
  assert (∀ i v, Votes hdp !! i = Some (Some v) → Vote_SignBytes v = Ret msg) as Hsame.
  { intros i v Hv. destruct (inv_vote _ I i v Hv) as (_ & V1 & R1 & _). pose proof (Hfor i v Hv) as F1.
    rewrite <- Hm. unfold Vote_SignBytes. do 2 f_equal; try congruence.
    - by rewrite (Hcode i v Hv), (Hcode i0 v0 H0).
    - by rewrite (Hdata i v Hv), (Hdata i0 v0 H0). }
  assert (∀ k v, Votes hdp !! k = Some (Some v) → bv_bit bv (0 + Z.of_nat k) = true) as Hmark.
  { intros k v Hv. rewrite Hbit by lia. unfold marked. rewrite Z.add_0_l, Nat2Z.id, Hv.
    apply eqb_true_iff. unfold IsOK. by rewrite (Hcode k v Hv). }
  destruct (aggregate_complete (ValidatorSet hdp) (map (fmap Sign) (Votes hdp)) bv msg Hwf Hb)
    as (agg' & Ea & Hver).
  - unfold zlen. rewrite length_map. by rewrite (inv_votes_len _ I).
  - intros k Hk. assert (0 ≤ k) by (unfold bv_bit in Hk; bool_to_prop; lia).
    rewrite Hbit in Hk by lia. unfold marked in Hk.
    destruct (Votes hdp !! Z.to_nat k) as [[v|]|] eqn:Hv; [|done|done].
    exists (Sign v). rewrite list_lookup_fmap, Hv. split; [done|].
    destruct (inv_vote _ I _ v Hv) as (_ & _ & _ & m' & Hm' & Hver).
    rewrite (Hsame _ v Hv) in Hm'. injection Hm' as <-. by rewrite Z2Nat.id in Hver by lia.
  - rewrite marked_present by done. by destruct (present (Votes hdp)).
  - rewrite marked_present in Ea by done. rewrite Ha in Ea. by injection Ea as ->.
Qed.

(** The message an aggregated vote is verified on is never the message its
    voters signed: a vote is signed with validator index -1, an aggregated
    vote without signer index. *)
Theorem Agg_SignBytes_differs v bv msg msg'
    (Hv : Vote_SignBytes v = Ret msg) (Ha : Agg_SignBytes (GetAggregated v bv) = Ret msg') :
  msg ≠ msg'.
Proof.
  intros ->. unfold Vote_SignBytes, Agg_SignBytes, MustProtoBytes in *.
  destruct (marshal _) eqn:E1 in Hv; [|done]. destruct (marshal _) eqn:E2 in Ha; [|done].
  simplify_eq. apply unmarshal_marshal in E1. apply agg_as_vote in E2; [|done].
  rewrite E1 in E2. done.
Qed.

End HotStuffProofs.

(** ** A concrete instance

    A wire format in which both messages share an encoding, as the schema has
    it, with four validators of weight one and the signatures of
    [LinearBLS]. *)
Module Demo.

Definition vote_tuple (m : PVote) :=
  (pCode m, pView m, pRound m, pForHash m, pForNecessaryData m, pSign m, pValidatorIndex m).
Definition tuple_vote (t : Z * Z * Z * bytes * list bytes * string * Z) : PVote :=
  let '(a, b, c, d, e, f, g) := t in
  {| pCode := a; pView := b; pRound := c; pForHash := d; pForNecessaryData := e; pSign := f;
     pValidatorIndex := g |}.
Definition agg_tuple (m : PAggregatedVote) :=
  (paCode m, paView m, paRound m, paForHash m, paForNecessaryData m, paSign m, paSignerIndex m).
Definition tuple_agg (t : Z * Z * Z * bytes * list bytes * string * bytes) : PAggregatedVote :=
  let '(a, b, c, d, e, f, g) := t in
  {| paCode := a; paView := b; paRound := c; paForHash := d; paForNecessaryData := e; paSign := f;
     paSignerIndex := g |}.

Definition demo_vote_codec : ProtoCodec PVote.
Proof.
  refine {| marshal := λ m, Some (0 :: ser (vote_tuple m));
            unmarshal := λ bz, match bz with
              | 0 :: rest => '(t, _) ← deser rest; Some (tuple_vote t)
              | _ => None end |}.
  intros m bz E. apply Some_inj in E as <-. rewrite deser_ser_nil. by destruct m.
Defined.

Definition demo_agg_codec : ProtoCodec PAggregatedVote.
Proof.
  refine {| marshal := λ m, Some (match paSignerIndex m with
              | [] => 0 :: ser (paCode m, paView m, paRound m, paForHash m,
                        paForNecessaryData m, paSign m, 0)
              | _ => 1 :: ser (agg_tuple m) end);
            unmarshal := λ bz, match bz with
              | 0 :: rest => '(t, _) ← (deser rest : option (Z * Z * Z * bytes * list bytes * string * Z * bytes));
                  let '(a, b, c, d, e, f, _) := t in Some (tuple_agg (a, b, c, d, e, f, []))
              | 1 :: rest => '(t, _) ← deser rest; Some (tuple_agg t)
              | _ => None end |}.
  intros [q1 q2 q3 q4 nd s si] bz E. apply Some_inj in E as <-. cbn [paSignerIndex paCode paView paRound paForHash paForNecessaryData paSign].
  destruct si as [|x si]; by rewrite deser_ser_nil.
Defined.

Definition demo_wire : VoteWire.
Proof.
  refine {| vote_codec := demo_vote_codec; agg_codec := demo_agg_codec |}.
  intros [q1 q2 q3 q4 nd s si] bz E0 E. apply Some_inj in E0 as <-. cbn in E. subst si.
  cbn [unmarshal demo_vote_codec paSignerIndex paCode paView paRound paForHash paForNecessaryData paSign].
  by rewrite deser_ser_nil.
Defined.

#[local] Existing Instance demo_wire.
#[local] Existing Instance LinearBLS.linear_BLS.

Definition validators : Verifier :=
  @Build_Verifier LinearBLS.linear_BLS [Some 3; Some 5; Some 7; Some 11].
Definition weights : list Z := [1; 1; 1; 1].

Definition cast (hash : bytes) (ok : bool) (i sk : Z) : Vote :=
  let v := NewVote 4 0 hash [] i in
  let v := if ok then v else SetReject v in
  match Vote_SignBytes v with
  | Ret msg => {| Code := Code v; View := 4; Round := 0; ForHash := hash; ForNecessaryData := [];
                  Sign := Signer_Sign (@Build_Signer LinearBLS.linear_BLS sk) msg; ValidatorIndex := i |}
  | Panic => v
  end.

Definition collect (hash : bytes) (votes : list Vote) : HeightDataPackage :=
  match foldM (λ h v, fst <$> addVote h v) votes
          (hdp_hash (NewHeightDataPackage validators weights 4 0) hash) with
  | Ret h => h
  | Panic => NewHeightDataPackage validators weights 4 0
  end.

Definition block_a : bytes := [170; 1].
Definition block_b : bytes := [187; 2].
Definition two_a := collect block_a [cast block_a true 0 3; cast block_a true 1 5].
Definition two_b := collect block_b [cast block_b true 2 7; cast block_b true 3 11].
Definition mixed := collect block_a
  [cast block_a true 0 3; cast block_a true 1 5; cast block_a true 2 7; cast block_a false 3 11].

Lemma config : config_ok validators weights.
Proof. split; [done|]. split; [by repeat constructor|done]. Qed.

Lemma collect_reached hash votes :
  match foldM (λ h v, fst <$> addVote h v) votes
    (hdp_hash (NewHeightDataPackage validators weights 4 0) hash) with Ret _ => true | Panic => false end = true →
  rtc cast_step (hdp_hash (NewHeightDataPackage validators weights 4 0) hash) (collect hash votes).
Proof. unfold collect. destruct (foldM _ _ _) eqn:E; [|done]. intros _. by eapply foldM_reachable. Qed.

Lemma two_a_reached :
  rtc cast_step (hdp_hash (NewHeightDataPackage validators weights 4 0) block_a) two_a.
Proof. apply collect_reached. vm_compute. reflexivity. Qed.

Lemma two_a_fresh : AggVote two_a = None.
Proof. vm_compute. reflexivity. Qed.
Lemma two_a_quorum : isQuorum two_a = true.
Proof. vm_compute. reflexivity. Qed.

Lemma two_a_inv : hdp_inv two_a.
Proof. eapply cast_reachable; [apply two_a_reached|apply fresh_inv, config]. Qed.
Lemma two_a_for : for_proposal two_a.
Proof.
  eapply cast_reachable; [apply two_a_reached|apply fresh_inv, config|]. intros i v Hv.
  by apply (proj2 (fresh_inv validators weights 4 0 block_a config)) in Hv.
Qed.
Lemma two_a_collector : rtc collector_step (NewHeightDataPackage validators weights 4 0) two_a.
Proof. eapply rtc_l; [apply (step_SetHash _ block_a)|apply cast_collector, two_a_reached]. Qed.

(** The proposal is replaced after two votes: they are kept, for the old one. *)
Lemma collector_invariant_witness :
  hdp_inv (hdp_hash two_a block_b) ∧ Votes (hdp_hash two_a block_b) !! 0%nat = Votes two_a !! 0%nat ∧
  ∃ h1 h2, addVote h1 (cast block_a true 0 3) = Ret (h2, None) ∧ ProposalHash h1 = block_a.
Proof.
  destruct (collector_invariant validators weights 4 0 two_a (hdp_hash two_a block_b) config
    two_a_collector (rtc_once _ _ (step_SetHash two_a block_b))) as (_ & I & _ & Hv & _).
  split; [exact I|]. split; [reflexivity|].
  destruct (Hv 0%nat (cast block_a true 0 3)) as (h1 & h2 & _ & E & Hf & _); [vm_compute; reflexivity|].
  exists h1, h2. split; [exact E|]. rewrite <- Hf. vm_compute. reflexivity.
Defined.

Definition third := cast block_a true 2 7.
Definition third_msg : bytes := match Vote_SignBytes third with Ret m => m | Panic => [] end.

Lemma addVote_accepts_iff_witness : ∃ h' e, addVote two_a third = Ret (h', e) ∧ hdp_inv h'.
Proof.
  destruct (addVote_accepts_iff two_a third third_msg two_a_inv) as (h' & e & E & I & _);
    [vm_compute; reflexivity|vm_compute; discriminate|].
  exists h', e. split; [exact E|exact I].
Defined.

Lemma isQuorum_exact_witness :
  0 ≤ overlap IsOK (Votes two_a) (Votes two_a) weights ∧
  ∃ votes1 votes2, accepts validators 7 votes1 ∧ accepts validators 7 votes2 ∧
    overlap IsOK votes1 votes2 (replicate 7 1) = 1.
Proof.
  destruct (isQuorum_exact two_a two_a two_a_inv two_a_inv eq_refl) as (_ & Hlow & Hex). split.
  - refine (Hlow _ _); vm_compute; discriminate.
  - destruct (Hex validators 7%nat (cast block_a true 0 3)) as (l1 & l2 & _ & _ & A1 & A2 & _ & E);
      [vm_compute; reflexivity|lia|].
    exists l1, l2. split; [exact A1|]. split; [exact A2|exact E].
Defined.

(** Four validators of weight one: two accepting votes are a quorum, and two
    disjoint pairs of validators are quorums for different proposals of one
    view and round. *)
Theorem isQuorum_disjoint :
  isQuorum two_a = true ∧ isQuorum two_b = true ∧
  (hView two_a, hRound two_a) = (hView two_b, hRound two_b) ∧
  ProposalHash two_a ≠ ProposalHash two_b ∧
  PerVote two_a = [1; 1; 1; 1] ∧ overlap IsOK (Votes two_a) (Votes two_b) (PerVote two_a) = 0.
Proof. by vm_compute. Qed.

Lemma getMaj23_correct_witness : ∃ agg h', getMaj23 two_a = Ret (h', inl agg) ∧
  getMaj23 h' = Ret (h', inl agg).
Proof.
  destruct (proj2 (getMaj23_correct two_a two_a_inv two_a_fresh) two_a_quorum)
    as (agg & v & h' & E & _ & _ & _ & _ & _ & _ & E').
  exists agg, h'. split; [exact E|exact E'].
Defined.

Definition two_a_agg : AggregatedVote :=
  match getMaj23 two_a with Ret (_, inl agg) => agg | _ => GetAggregated third None end.

Lemma two_a_uniform i v : Votes two_a !! i = Some (Some v) →
  Code v = aCode two_a_agg ∧ ForNecessaryData v = aForNecessaryData two_a_agg.
Proof.
  intros E. assert (forallb (λ o, match o with
    | Some v => (Code v =? aCode two_a_agg) &&
                bool_decide (ForNecessaryData v = aForNecessaryData two_a_agg)
    | None => true end) (Votes two_a) = true) as Hf by (vm_compute; reflexivity).
  rewrite forallb_forall in Hf. specialize (Hf (Some v)).
  rewrite <- list_elem_of_In in Hf. specialize (Hf (list_elem_of_lookup_2 _ _ _ E)). cbv beta iota in Hf.
  apply andb_true_iff in Hf as [H1 H2]. split; [by apply Z.eqb_eq|by apply bool_decide_eq_true in H2].
Qed.

Lemma two_a_first : Votes two_a !! 0%nat = Some (Some (cast block_a true 0 3)).
Proof. vm_compute. reflexivity. Qed.

Lemma two_a_present : present (Votes two_a) ≠ [].
Proof. vm_compute. discriminate. Qed.

Lemma two_a_maj : ∃ h, getMaj23 two_a = Ret (h, inl two_a_agg).
Proof.
  assert (match getMaj23 two_a with Ret (_, inl _) => true | _ => false end = true) as Hm
    by (vm_compute; reflexivity).
  unfold two_a_agg. destruct (getMaj23 two_a) as [[h [agg|]]|]; [by eexists|done|done].
Qed.

Lemma getMaj23_signature_witness : ∃ msg, Vote_SignBytes (cast block_a true 0 3) = Ret msg ∧
  VerifyAggregateSignature (ValidatorSet two_a) (aSign two_a_agg) msg
    (Byte (aSignerIndexer two_a_agg)) = Ret true.
Proof.
  destruct two_a_maj as [h Hm].
  exact (getMaj23_signature two_a h two_a_agg two_a_inv two_a_for two_a_fresh Hm two_a_present
    (λ i v E, proj1 (two_a_uniform i v E)) (λ i v E, proj2 (two_a_uniform i v E)) 0%nat _ two_a_first).
Defined.

Lemma Agg_SignBytes_differs_witness : ∃ m m', Vote_SignBytes third = Ret m ∧
  Agg_SignBytes (GetAggregated third None) = Ret m' ∧ m ≠ m'.
Proof.
  eexists _, _. split; [vm_compute; reflexivity|]. split; [vm_compute; reflexivity|].
  apply (Agg_SignBytes_differs third None); vm_compute; reflexivity.
Defined.

(** Three accepting votes and a rejecting one: all four signatures are
    aggregated, the bitmap marks three, and the result does not verify on the
    message the three signed. *)
Theorem getMaj23_mixed :
  match getMaj23 mixed, Vote_SignBytes (cast block_a true 0 3) with
  | Ret (_, inl agg), Ret msg =>
      Agg_IsOK agg = true ∧
      VerifyAggregateSignature validators (aSign agg) msg (Byte (aSignerIndexer agg)) = Ret false
  | _, _ => False
  end.
Proof. vm_compute. split; reflexivity. Qed.

(** The proposal's hash is empty until it is set, and setting it keeps the
    votes: two votes for the empty hash that arrive before the proposal make
    a quorum for the proposal set afterwards. *)
Theorem SetHash_keeps_early_votes :
  let early := EnterNewView (NewState 3 0 0 validators weights) in
  match AddVote early (cast [] true 0 3) with
  | Ret (s1, e1) =>
      match AddVote s1 (cast [] true 1 5) with
      | Ret (s2, e2) => (e1, e2) = (None, None) ∧ IsQuorum (SetHash s2 block_a) = Ret true ∧
          IsQuorum (SetHash early block_a) = Ret false
      | Panic => False
      end
  | Panic => False
  end.
Proof. by vm_compute. Qed.

End Demo.
