(* ===== verification/Store.v ===== *)
(** * Key-value stores

    [KVStore] is the contract of the [DB] interface
    ([source/libs/db/types.go]) for a backend without I/O failures; the
    prefixed store of [source/utils/store/store.go] is built and proved against
    it.  The instance [map_store], a plain map, discharges the contract. *)

From stdpp Require Import base list gmap strings numbers pretty.
From Stdlib Require Import ZArith Lia.
From S2P Require Import Prelude.

(** [errIO] stands for the errors of a disk library. *)
Inductive db_error := errBatchClosed | errKeyEmpty | errValueNil | errUnknownOp | errIO.

#[export] Instance db_error_eq_dec : EqDecision db_error.
Proof. solve_decision. Defined.

(** What a backend promises: [kv_map] is the content; an empty key and a nil
    value are refused and change nothing. *)
Class KVStore (S : Type) := {
  kv_map : S → gmap bytes bytes;
  kv_Get : S → bytes → slice + db_error;
  kv_Has : S → bytes → bool + db_error;
  kv_Set : S → bytes → slice → S * option db_error;
  kv_Delete : S → bytes → S * option db_error;
  kv_Get_empty : ∀ s, kv_Get s [] = inr errKeyEmpty;
  kv_Get_spec : ∀ s k, k ≠ [] → kv_Get s k = inl (kv_map s !! k);
  kv_Has_empty : ∀ s, kv_Has s [] = inr errKeyEmpty;
  kv_Has_spec : ∀ s k, k ≠ [] → kv_Has s k = inl (bool_decide (is_Some (kv_map s !! k)));
  kv_Set_empty : ∀ s v, kv_Set s [] v = (s, Some errKeyEmpty);
  kv_Set_nil : ∀ s k, k ≠ [] → kv_Set s k None = (s, Some errValueNil);
  kv_Set_spec : ∀ s k v, k ≠ [] →
    ∃ s', kv_Set s k (Some v) = (s', None) ∧ kv_map s' = <[k:=v]> (kv_map s);
  kv_Delete_empty : ∀ s, kv_Delete s [] = (s, Some errKeyEmpty);
  kv_Delete_spec : ∀ s k, k ≠ [] →
    ∃ s', kv_Delete s k = (s', None) ∧ kv_map s' = delete k (kv_map s)
}.

(** A map is a store; it instantiates the contract where a concrete store is
    needed. *)
#[refine] Definition map_store : KVStore (gmap bytes bytes) := {|
  kv_map := id;
  kv_Get := λ s k, if decide (k = []) then inr errKeyEmpty else inl (s !! k);
  kv_Has := λ s k, if decide (k = []) then inr errKeyEmpty else inl (bool_decide (is_Some (s !! k)));
  kv_Set := λ s k v, if decide (k = []) then (s, Some errKeyEmpty)
    else match v with None => (s, Some errValueNil) | Some v => (<[k:=v]> s, None) end;
  kv_Delete := λ s k, if decide (k = []) then (s, Some errKeyEmpty) else (delete k s, None)
|}.
Proof.
  - done.
  - intros. by rewrite decide_False.
  - done.
  - intros. by rewrite decide_False.
  - done.
  - intros. by rewrite decide_False.
  - intros. rewrite decide_False by done. by eexists.
  - done.
  - intros. rewrite decide_False by done. by eexists.
Defined.

Module PrefixStore.

Definition stateKey : bytes := [48].
Definition dataKey : bytes := [49].
Definition specialKey : bytes := [50].

Definition toDataKey (bz : bytes) : bytes := dataKey ++ bz.
(** [bytes.TrimPrefix]. *)
Definition fromDataKey (bz : bytes) : bytes :=
  match bz with
  | b :: rest => if b =? 49 then rest else bz
  | [] => []
  end.
Definition toStateKey (bz : bytes) : bytes := stateKey ++ bz.
Definition toSpecialKey (bz : bytes) : bytes := specialKey ++ bz.

Section PrefixStore.
Context {S : Type} {KV : KVStore S}.

Definition GetState (p : S) (key : bytes) : slice + db_error := kv_Get p (toStateKey key).
Definition Get (p : S) (key : bytes) : slice + db_error := kv_Get p (toDataKey key).
Definition GetSpecial (p : S) (key : bytes) : slice + db_error := kv_Get p (toSpecialKey key).
Definition HasState (p : S) (key : bytes) : bool + db_error := kv_Has p (toStateKey key).
Definition Has (p : S) (key : bytes) : bool + db_error := kv_Has p (toDataKey key).
Definition HasSpecial (p : S) (key : bytes) : bool + db_error := kv_Has p (toSpecialKey key).
Definition SetState (p : S) (key : bytes) (v : slice) : S * option db_error := kv_Set p (toStateKey key) v.
Definition Set_ (p : S) (key : bytes) (v : slice) : S * option db_error := kv_Set p (toDataKey key) v.
Definition SetSpecial (p : S) (key : bytes) (v : slice) : S * option db_error := kv_Set p (toSpecialKey key) v.
Definition DeleteState (p : S) : S * option db_error := kv_Delete p stateKey.
Definition Delete_ (p : S) (key : bytes) : S * option db_error := kv_Delete p (toDataKey key).

(** [fmt.Sprintf("%d:%s", height, chain)]. *)
Definition height_key (height : Z) (chain : string) : bytes :=
  str_bytes (String.append (pretty height) (String (Ascii.ascii_of_nat 58) chain)).

Definition GetBlockByHash (p : S) (hs : bytes) : slice + db_error := Get p hs.
Definition GetBlockByHeight (p : S) (height : Z) (chain : string) : slice + db_error :=
  match GetState p (height_key height chain) with
  | inr e => inr e
  | inl hs => GetBlockByHash p (sbytes hs)
  end.
Definition SetBlockByHash (p : S) (hs : bytes) (block_bytes : slice) : S * option db_error :=
  Set_ p hs block_bytes.
(** The block comes as its hash and its protobuf bytes. *)
Definition SetBlockByHeight (p : S) (height : Z) (chain : string) (hs : bytes) (block_bytes : slice)
    : S * option db_error :=
  match SetState p (height_key height chain) (Some hs) with
  | (p1, Some e) => (p1, Some e)
  | (p1, None) => SetBlockByHash p1 hs block_bytes
  end.

(** ** The three name spaces *)

(** The content seen through the three prefixes. *)
Definition states (p : S) (k : bytes) : slice := kv_map p !! toStateKey k.
Definition datas (p : S) (k : bytes) : slice := kv_map p !! toDataKey k.
Definition specials (p : S) (k : bytes) : slice := kv_map p !! toSpecialKey k.

Lemma GetState_eq p k : GetState p k = inl (states p k).
Proof. by apply kv_Get_spec. Qed.
Lemma Get_eq p k : Get p k = inl (datas p k).
Proof. by apply kv_Get_spec. Qed.
Lemma GetSpecial_eq p k : GetSpecial p k = inl (specials p k).
Proof. by apply kv_Get_spec. Qed.
Lemma HasSpecial_eq p k : HasSpecial p k = inl (bool_decide (is_Some (specials p k))).
Proof. by apply kv_Has_spec. Qed.

Lemma Set_eq p k v : ∃ p', Set_ p k (Some v) = (p', None) ∧
  (∀ j, datas p' j = if decide (j = k) then Some v else datas p j) ∧
  (∀ j, states p' j = states p j) ∧ (∀ j, specials p' j = specials p j).
Proof.
  destruct (kv_Set_spec p (toDataKey k) v) as (p' & E & Hm); [done|]. exists p'.
  split; [done|]. unfold datas, states, specials. rewrite Hm. split_and!; intros j.
  - case_decide as Hj; [subst; apply lookup_insert_eq|]. rewrite lookup_insert_ne; [done|].
    intros [=]; congruence.
  - by rewrite lookup_insert_ne.
  - by rewrite lookup_insert_ne.
Qed.

Lemma SetState_eq p k v : ∃ p', SetState p k (Some v) = (p', None) ∧
  (∀ j, states p' j = if decide (j = k) then Some v else states p j) ∧
  (∀ j, datas p' j = datas p j) ∧ (∀ j, specials p' j = specials p j).
Proof.
  destruct (kv_Set_spec p (toStateKey k) v) as (p' & E & Hm); [done|]. exists p'.
  split; [done|]. unfold datas, states, specials. rewrite Hm. split_and!; intros j.
  - case_decide as Hj; [subst; apply lookup_insert_eq|]. rewrite lookup_insert_ne; [done|].
    intros [=]; congruence.
  - by rewrite lookup_insert_ne.
  - by rewrite lookup_insert_ne.
Qed.

Lemma SetSpecial_eq p k v : ∃ p', SetSpecial p k (Some v) = (p', None) ∧
  (∀ j, specials p' j = if decide (j = k) then Some v else specials p j) ∧
  (∀ j, datas p' j = datas p j) ∧ (∀ j, states p' j = states p j).
Proof.
  destruct (kv_Set_spec p (toSpecialKey k) v) as (p' & E & Hm); [done|]. exists p'.
  split; [done|]. unfold datas, states, specials. rewrite Hm. split_and!; intros j.
  - case_decide as Hj; [subst; apply lookup_insert_eq|]. rewrite lookup_insert_ne; [done|].
    intros [=]; congruence.
  - by rewrite lookup_insert_ne.
  - by rewrite lookup_insert_ne.
Qed.

(** ** Blocks by height *)

Fixpoint colon_free (s : string) : bool :=
  match s with
  | EmptyString => true
  | String c s' => negb (Ascii.eqb c (Ascii.ascii_of_nat 58)) && colon_free s'
  end.

Lemma pretty_N_char_free n : Ascii.eqb (pretty_N_char n) (Ascii.ascii_of_nat 58) = false.
Proof. destruct n as [|p]; [done|]. repeat (destruct p as [p|p|]; try done). Qed.

Lemma pretty_N_go_free x : ∀ s, colon_free s = true → colon_free (pretty_N_go x s) = true.
Proof.
  induction (N.lt_wf_0 x) as [x _ IH]. intros s Hs. destruct (decide (x = 0)%N) as [->|Hx].
  - by rewrite pretty_N_go_0.
  - rewrite pretty_N_go_step by lia. apply IH; [apply N.div_lt; lia|].
    cbn [colon_free]. by rewrite pretty_N_char_free, Hs.
Qed.

Lemma pretty_Z_free (z : Z) : colon_free (pretty z) = true.
Proof.
  assert (∀ n : N, colon_free (pretty n) = true) as HN.
  { intros n. unfold pretty, pretty_N. case_decide; [done|]. by apply pretty_N_go_free. }
  destruct z; [done|apply (HN (Npos p))|]. simpl. apply (HN (Npos p)).
Qed.

Lemma colon_split a1 : ∀ a2 b1 b2, colon_free a1 = true → colon_free a2 = true →
  String.append a1 (String (Ascii.ascii_of_nat 58) b1) =
  String.append a2 (String (Ascii.ascii_of_nat 58) b2) → a1 = a2 ∧ b1 = b2.
Proof.
  induction a1 as [|c a1 IH]; intros [|d a2] b1 b2 H1 H2; simpl in *.
  - by intros [= ->].
  - intros [= <- _]. done.
  - intros [= -> _]. done.
  - apply andb_true_iff in H1 as [_ H1]. apply andb_true_iff in H2 as [_ H2].
    intros [= -> E]. destruct (IH _ _ _ H1 H2 E) as [-> ->]. done.
Qed.

Lemma height_key_inj h1 c1 h2 c2 : height_key h1 c1 = height_key h2 c2 → h1 = h2 ∧ c1 = c2.
Proof.
  intros E%str_bytes_inj. apply colon_split in E as [E ->]; [|apply pretty_Z_free..].
  split; [|done]. by apply (inj pretty).
Qed.

(** A block stored under a height and chain is read back by both, and storing
    it leaves the block of every other height or chain unchanged unless it
    has the same hash. *)
Theorem SetBlockByHeight_roundtrip (p : S) height chain (hs bz : bytes) :
  ∃ p', SetBlockByHeight p height chain hs (Some bz) = (p', None) ∧
    GetBlockByHeight p' height chain = inl (Some bz) ∧
    GetBlockByHash p' hs = inl (Some bz) ∧
    ∀ h c, (h, c) ≠ (height, chain) → states p (height_key h c) ≠ Some hs →
      GetBlockByHeight p' h c = if decide (states p (height_key h c) = None ∧ hs = [])
                                then inl (Some bz) else GetBlockByHeight p h c.
Proof.
  unfold SetBlockByHeight, SetBlockByHash, GetBlockByHeight, GetBlockByHash.
  destruct (SetState_eq p (height_key height chain) hs) as (p1 & -> & Hs & Hd & _).
  destruct (Set_eq p1 hs bz) as (p2 & -> & Hd2 & Hs2 & _). exists p2. split; [done|].
  split.
  { rewrite GetState_eq, Hs2, Hs, decide_True by done. by rewrite Get_eq, Hd2, decide_True. }
  split; [by rewrite Get_eq, Hd2, decide_True|]. intros h c Hne Hhs.
  rewrite !GetState_eq, Hs2, Hs, decide_False by (intros [-> ->]%height_key_inj; done).
  rewrite !Get_eq, Hd2, Hd. destruct (states p (height_key h c)) as [x|]; cbn [sbytes default id].
  - rewrite decide_False by congruence. destruct (decide _) as [[? _]|]; done.
  - by repeat case_decide; naive_solver.
Qed.

(** The three prefixes are separate name spaces: a write through one is read
    back through it and never seen through the others. *)
Theorem PrefixStore_isolated (p : S) (key v : bytes) :
  ∃ pd ps px, Set_ p key (Some v) = (pd, None) ∧ SetState p key (Some v) = (ps, None) ∧
    SetSpecial p key (Some v) = (px, None) ∧
    ∀ k, Get pd k = (if decide (k = key) then inl (Some v) else Get p k) ∧
         GetState pd k = GetState p k ∧ GetSpecial pd k = GetSpecial p k ∧
         GetState ps k = (if decide (k = key) then inl (Some v) else GetState p k) ∧
         Get ps k = Get p k ∧ GetSpecial ps k = GetSpecial p k ∧
         GetSpecial px k = (if decide (k = key) then inl (Some v) else GetSpecial p k) ∧
         Get px k = Get p k ∧ GetState px k = GetState p k.
Proof.
  destruct (Set_eq p key v) as (pd & E1 & D1 & S1 & X1).
  destruct (SetState_eq p key v) as (ps & E2 & S2 & D2 & X2).
  destruct (SetSpecial_eq p key v) as (px & E3 & X3 & D3 & S3).
  exists pd, ps, px. split; [done|]. split; [done|]. split; [done|]. intros k.
  rewrite !Get_eq, !GetState_eq, !GetSpecial_eq, D1, S1, X1, D2, S2, X2, D3, S3, X3.
  by destruct (decide (k = key)).
Qed.

End PrefixStore.
End PrefixStore.
