(* ===== verification/Iterators.v ===== *)
(** * Iterators

    [IterStore] is the contract of the iterators of the [DB] interface
    ([source/libs/db/types.go]); the iterators of the prefixed store
    ([source/utils/store/store.go]) are proved against it, and [MemDB]
    discharges it. *)

From stdpp Require Import base list gmap strings numbers sorting.
From Stdlib Require Import ZArith Lia.
From S2P Require Import Prelude Convert Store.

(** ** The order of keys *)

Lemma bytes_Compare_refl a : bytes_Compare a a = Eq.
Proof. induction a as [|x a IH]; [done|]. cbn. by rewrite Z.compare_refl. Qed.
Lemma bytes_Compare_eq a : ∀ b, bytes_Compare a b = Eq ↔ a = b.
Proof.
  intros b. split; [|intros ->; apply bytes_Compare_refl]. revert b.
  induction a as [|x a IH]; intros [|y b]; cbn; try done. destruct (Z.compare_spec x y) as [->| |]; try done.
  intros E. f_equal. by apply IH.
Qed.
Lemma bytes_Compare_antisym a : ∀ b, bytes_Compare b a = CompOpp (bytes_Compare a b).
Proof.
  induction a as [|x a IH]; intros [|y b]; cbn; try done. rewrite (Z.compare_antisym x y).
  destruct (x ?= y); cbn; [apply IH|done|done].
Qed.
Lemma bytes_Compare_trans a : ∀ b c, bytes_Compare a b = Lt → bytes_Compare b c = Lt → bytes_Compare a c = Lt.
Proof.
  induction a as [|x a IH]; intros [|y b] [|z c]; cbn; try done.
  destruct (Z.compare_spec x y) as [->|Hxy|], (Z.compare_spec y z) as [->|Hyz|]; try done; intros E1 E2.
  - by eapply IH.
  - by rewrite (proj2 (Z.compare_lt_iff x z) Hxy).
  - rewrite (proj2 (Z.compare_lt_iff x z)); [done|lia].
Qed.
Definition key_lt (a b : bytes) : Prop := bytes_Compare a b = Lt.
#[export] Instance key_lt_trans : Transitive key_lt.
Proof. intros a b c. apply bytes_Compare_trans. Qed.
Lemma key_lt_irrefl a : ¬ key_lt a a.
Proof. unfold key_lt. by rewrite bytes_Compare_refl. Qed.

(** ** The contract *)

(** [l] lists the pairs of [m] with [start] <= key < [end_] in ascending order;
    a nil start is the least key, a nil end is no bound. *)
Definition domain_pairs (m : gmap bytes bytes) (start end_ : slice) (l : list (bytes * bytes)) : Prop :=
  StronglySorted key_lt (map fst l) ∧
  ∀ k v, (k, v) ∈ l ↔ m !! k = Some v ∧ IsKeyInDomain k (sbytes start) end_ = true.

Lemma domain_pairs_unique m start end_ l l' : domain_pairs m start end_ l → domain_pairs m start end_ l' → l = l'.
Proof.
  intros [S1 H1] [S2 H2].
  assert (∀ l : list (bytes * bytes), StronglySorted key_lt (map fst l) → StronglySorted (λ p q, key_lt (fst p) (fst q)) l ∧ NoDup l) as Hs.
  { induction l0 as [|[k v] l0 IH]; cbn; [repeat constructor|]. intros [Hs Hall]%StronglySorted_inv. destruct (IH Hs) as [IH1 IH2].
    assert (Forall (λ q, key_lt k (fst q)) l0) as Hk by (by apply (Forall_map fst (key_lt k)) in Hall). split; [by constructor|].
    constructor; [|done]. intros Hin. rewrite Forall_forall in Hk. by apply (key_lt_irrefl k), (Hk (k, v)). }
  destruct (Hs l S1) as [A1 N1], (Hs l' S2) as [A2 N2].
  apply (StronglySorted_unique_strong (λ p q, key_lt (fst p) (fst q))); [|done|done|].
  - intros p q _ _ K1 K2. destruct (key_lt_irrefl (fst p)). by etrans.
  - apply NoDup_Permutation; [done..|]. intros [k v]. by rewrite H1, H2.
Qed.

(** [it_rest] is what an iterator still has to yield. *)
Class IterStore (S It : Type) {KV : KVStore S} := {
  it_rest : It → list (bytes * bytes);
  db_Iterator : S → slice → slice → It + db_error;
  db_ReverseIterator : S → slice → slice → It + db_error;
  it_Domain : It → slice * slice;
  it_Valid : It → bool;
  it_Next : It → outcome It;
  it_Key : It → outcome bytes;
  it_Value : It → outcome slice;
  it_Error : It → option db_error;
  it_Close : It → It * option db_error;
  it_Valid_spec : ∀ it, it_Valid it = true ↔ it_rest it ≠ [];
  it_at_end : ∀ it, it_rest it = [] → it_Next it = Panic ∧ it_Key it = Panic ∧ it_Value it = Panic;
  it_step : ∀ it k v l, it_rest it = (k, v) :: l → it_Key it = Ret k ∧ it_Value it = Ret (Some v) ∧
    ∃ it', it_Next it = Ret it' ∧ it_rest it' = l ∧ it_Domain it' = it_Domain it;
  db_Iterator_empty : ∀ s start end_, start = Some [] ∨ end_ = Some [] →
    db_Iterator s start end_ = inr errKeyEmpty ∧ db_ReverseIterator s start end_ = inr errKeyEmpty;
  db_Iterator_spec : ∀ s start end_, start ≠ Some [] → end_ ≠ Some [] →
    ∃ it, db_Iterator s start end_ = inl it ∧ it_Domain it = (start, end_) ∧ domain_pairs (kv_map s) start end_ (it_rest it);
  db_ReverseIterator_spec : ∀ s start end_, start ≠ Some [] → end_ ≠ Some [] →
    ∃ it, db_ReverseIterator s start end_ = inl it ∧ it_Domain it = (start, end_) ∧
      domain_pairs (kv_map s) start end_ (reverse (it_rest it))
}.

(** ** The loop of a caller *)

Section Walk.
Context {It : Type} (valid : It → bool) (next : It → outcome It) (key : It → outcome bytes) (value : It → outcome slice).
(** [for ; itr.Valid(); itr.Next()] reading key and value; [None] when the
    fuel does not suffice. *)
Fixpoint walk (fuel : nat) (it : It) : outcome (option (list (bytes * slice))) :=
  match fuel with
  | O => Ret None
  | Datatypes.S fuel' =>
      if valid it then
        k ← key it;
        v ← value it;
        it' ← next it;
        l ← walk fuel' it';
        Ret (option_map (cons (k, v)) l)
      else Ret (Some [])
  end.
End Walk.

(** An iterator whose steps follow a list is walked along the list. *)
Lemma walk_list {It} (P : It → Prop) valid next key value (rest : It → list (bytes * bytes))
    (Hv : ∀ it, P it → valid it = true ↔ rest it ≠ [])
    (Hs : ∀ it k v l, P it → rest it = (k, v) :: l → key it = Ret k ∧ value it = Ret (Some v) ∧
       ∃ it', next it = Ret it' ∧ rest it' = l ∧ P it') :
  ∀ fuel it, P it → (length (rest it) < fuel)%nat →
    walk valid next key value fuel it = Ret (Some (map (λ kv, (fst kv, Some (snd kv))) (rest it))).
Proof.
  induction fuel as [|fuel IH]; intros it Hp Hf; [lia|]. cbn [walk]. destruct (rest it) as [|[k v] l] eqn:E.
  - destruct (valid it) eqn:Ev; [|done]. by apply Hv in Ev.
  - rewrite (proj2 (Hv it Hp)) by (by rewrite E). destruct (Hs it k v l Hp E) as (-> & -> & it' & -> & El & Hp').
    cbn [mbind outcome_bind]. rewrite IH by (done || rewrite El; cbn in Hf; lia). by rewrite El.
Qed.

(** ** The iterators of the prefixed store *)

Section PrefixIterator.
Context {S It : Type} {KV : KVStore S} {IS : IterStore S It}.

Definition Iterator (p : S) (start end_ : slice) : It + db_error :=
  db_Iterator p (Some (PrefixStore.toDataKey (sbytes start))) (Some (PrefixStore.toDataKey (sbytes end_))).
Definition ReverseIterator (p : S) (start end_ : slice) : It + db_error :=
  db_ReverseIterator p (Some (PrefixStore.toDataKey (sbytes start))) (Some (PrefixStore.toDataKey (sbytes end_))).

Definition PI_Domain (pi : It) : bytes * bytes :=
  (PrefixStore.fromDataKey (sbytes (fst (it_Domain pi))), PrefixStore.fromDataKey (sbytes (snd (it_Domain pi)))).
Definition PI_Valid (pi : It) : bool := it_Valid pi.
Definition PI_Next (pi : It) : outcome It := it_Next pi.
Definition PI_Key (pi : It) : outcome bytes := k ← it_Key pi; Ret (PrefixStore.fromDataKey k).
Definition PI_Value (pi : It) : outcome slice := it_Value pi.
Definition PI_Error (pi : It) : option db_error := it_Error pi.
(** The iterator is left open. *)
Definition PI_Close (pi : It) : It * option db_error := (pi, it_Error pi).

(** The keys between two data keys are data keys. *)
Lemma data_domain k start end_ :
  IsKeyInDomain k (PrefixStore.toDataKey start) (Some (PrefixStore.toDataKey end_)) = true ↔
  ∃ j, k = PrefixStore.toDataKey j ∧ IsKeyInDomain j start (Some end_) = true.
Proof.
  unfold PrefixStore.toDataKey, PrefixStore.dataKey. split.
  - destruct k as [|x k]; [done|]. unfold IsKeyInDomain. cbn [bytes_Compare app].
    destruct (Z.compare_spec x 49) as [->|Hlt|Hgt]; [|done|].
    + intros E. exists k. split; [done|]. by rewrite Z.compare_refl in E.
    + by rewrite (proj2 (Z.compare_lt_iff 49 x)).
  - intros (j & -> & E). unfold IsKeyInDomain in *. cbn [bytes_Compare app]. by rewrite Z.compare_refl.
Qed.

(** The pairs of the data name space with [start] <= key < [end_]. *)
Definition data_pairs (p : S) (start end_ : bytes) (l : list (bytes * bytes)) : Prop :=
  StronglySorted key_lt (map fst l) ∧
  ∀ k v, (k, v) ∈ l ↔ PrefixStore.datas p k = Some v ∧ IsKeyInDomain k start (Some end_) = true.

(** What an iterator of the prefixed store has left, without the prefix. *)
Definition PI_rest (pi : It) : list (bytes * bytes) := map (λ kv, (PrefixStore.fromDataKey (fst kv), snd kv)) (it_rest pi).
Lemma from_to k : PrefixStore.fromDataKey (PrefixStore.toDataKey k) = k.
Proof. done. Qed.

Lemma strip_pairs p start end_ l :
  domain_pairs (kv_map p) (Some (PrefixStore.toDataKey start)) (Some (PrefixStore.toDataKey end_)) l →
  data_pairs p start end_ (map (λ kv, (PrefixStore.fromDataKey (fst kv), snd kv)) l).
Proof.
  intros [Hsort Hin]. cbn [sbytes default id] in Hin.
  assert (∀ kv, kv ∈ l → ∃ j, fst kv = PrefixStore.toDataKey j ∧ IsKeyInDomain j start (Some end_) = true) as Hdata.
  { intros [k v] [_ Hd]%Hin. by apply data_domain in Hd. }
  split.
  - clear Hin. induction l as [|[k v] l IH]; cbn in *; [constructor|]. apply StronglySorted_inv in Hsort as [Hs Hall].
    constructor; [apply IH; [done|]; intros kv Hkv; apply Hdata; by right|].
    rewrite !map_map. cbn. apply Forall_forall. intros k' Hk'. apply list_elem_of_fmap in Hk' as ([k1 v1] & -> & Hin1).
    destruct (Hdata (k, v)) as (j & Ej & _); [by left|]. destruct (Hdata (k1, v1)) as (j1 & Ej1 & _); [by right|].
    cbn in *. subst. rewrite !from_to. rewrite Forall_forall in Hall.
    apply (Hall (PrefixStore.toDataKey j1)), list_elem_of_fmap. by exists (PrefixStore.toDataKey j1, v1).
  - intros k v. rewrite list_elem_of_fmap. split.
    + intros ([k0 v0] & [= -> ->] & H0). destruct (Hdata _ H0) as (j & Ej & Hd). cbn in *. subst. rewrite from_to.
      split; [|done]. by apply Hin in H0 as [H0 _].
    + intros [Hk Hd]. exists (PrefixStore.toDataKey k, v). split; [done|]. apply Hin. split; [done|].
      apply data_domain. by exists k.
Qed.
Lemma PI_walk fuel pi : (length (it_rest pi) < fuel)%nat →
  walk PI_Valid PI_Next PI_Key PI_Value fuel pi = Ret (Some (map (λ kv, (fst kv, Some (snd kv))) (PI_rest pi))).
Proof.
  intros Hf. apply (walk_list (λ _, True) PI_Valid PI_Next PI_Key PI_Value PI_rest); [|..|done|by unfold PI_rest; rewrite length_map].
  - intros it _. unfold PI_Valid, PI_rest. rewrite it_Valid_spec. by destruct (it_rest it).
  - intros it k v l _. unfold PI_rest. destruct (it_rest it) as [|[k0 v0] l0] eqn:E; [done|]. cbn [map fst snd]. intros [= <- <- <-].
    destruct (it_step it k0 v0 l0 E) as (Ek & Ev & it' & En & El & _). unfold PI_Key, PI_Value, PI_Next. rewrite Ek.
    split_and!; [done|done|exists it'; by rewrite El].
Qed.

(** Walking an iterator of the prefixed store visits exactly the pairs of the
    data name space with [start] <= key < [end_], in ascending order, or in
    descending order for the reverse iterator, whatever the other name spaces
    hold; the bounds are reported back.  A nil bound is the empty key, as a
    bound from above too: such an iterator visits nothing. *)
Theorem PrefixIterator_visits p start end_ :
  ∃ it l, Iterator p start end_ = inl it ∧ PI_Domain it = (sbytes start, sbytes end_) ∧ data_pairs p (sbytes start) (sbytes end_) l ∧
    (∀ fuel, (length l < fuel)%nat →
       walk PI_Valid PI_Next PI_Key PI_Value fuel it = Ret (Some (map (λ kv, (fst kv, Some (snd kv))) l))) ∧
    ∃ rit, ReverseIterator p start end_ = inl rit ∧ PI_Domain rit = (sbytes start, sbytes end_) ∧
      (∀ fuel, (length l < fuel)%nat →
         walk PI_Valid PI_Next PI_Key PI_Value fuel rit = Ret (Some (map (λ kv, (fst kv, Some (snd kv))) (reverse l)))) ∧
      (sbytes end_ = [] → l = []).
Proof.
  destruct (db_Iterator_spec p (Some (PrefixStore.toDataKey (sbytes start))) (Some (PrefixStore.toDataKey (sbytes end_))))
    as (it & E1 & D1 & P1); [done..|].
  destruct (db_ReverseIterator_spec p (Some (PrefixStore.toDataKey (sbytes start))) (Some (PrefixStore.toDataKey (sbytes end_))))
    as (rit & E2 & D2 & P2); [done..|]. pose proof (domain_pairs_unique _ _ _ _ _ P2 P1) as Er.
  assert (length (it_rest rit) = length (it_rest it)) as El by (rewrite <- Er; by rewrite length_reverse).
  exists it, (PI_rest it). split_and!; [done|unfold PI_Domain; by rewrite D1|by apply strip_pairs| |].
  { intros fuel Hf. apply PI_walk. unfold PI_rest in Hf. by rewrite length_map in Hf. }
  exists rit. split_and!; [done|unfold PI_Domain; by rewrite D2| |].
  - intros fuel Hf. unfold PI_rest in Hf. rewrite length_map in Hf. rewrite PI_walk by (by rewrite El). do 3 f_equal.
    unfold PI_rest. rewrite <- Er, <- !fmap_reverse. by rewrite reverse_involutive.
  - intros Hend. destruct (PI_rest it) as [|[k v] l] eqn:Epi; [done|]. exfalso.
    destruct (strip_pairs _ _ _ _ P1) as [_ Hin]. fold (PI_rest it) in Hin. rewrite Epi, Hend in Hin.
    destruct (proj1 (Hin k v)) as [_ Hd]; [by left|]. unfold IsKeyInDomain in Hd. destruct k; by destruct (bytes_Compare _ _).
Qed.
End PrefixIterator.
