(* ===== verification/MemDB.v ===== *)
(** * The in-memory database

    Models [source/libs/db/memdb.go] and [memdb_iterator.go].  The B-tree
    library is the class [BTree], which states the documented behaviour of its
    operations on the ascending list of their items; the mutex is left out:
    operations run one at a time, and an iterator works on the items present at
    its creation, which its read lock protects. *)

From stdpp Require Import base list gmap strings numbers sorting pretty.
From Stdlib Require Import ZArith Lia.
From S2P Require Import Prelude Convert Store Iterators.

(** ** Items *)

(** The value of an item that is only a key is nil. *)
Record item := { ikey : bytes; ivalue : slice }.
Definition Less (i other : item) : bool := match bytes_Compare (ikey i) (ikey other) with Lt => true | _ => false end.
Definition newKey (key : bytes) : item := {| ikey := key; ivalue := None |}.
Definition newPair (key : bytes) (value : slice) : item := {| ikey := key; ivalue := value |}.

(** ** The B-tree library *)

(** Calls a visitor on each item until it returns false. *)
Fixpoint visit {A} (f : A → item → A * bool) (l : list item) (a : A) : A :=
  match l with
  | [] => a
  | i :: l' => let '(a', go) := f a i in if go then visit f l' a' else a'
  end.
Abbreviation ascending := (StronglySorted (λ i j, Less i j = true)).
Definition same_key (i j : item) : bool := negb (Less i j) && negb (Less j i).

Class BTree (T : Type) := {
  bt_items : T → list item;
  bt_New : Z → T;
  bt_Len : T → Z;
  bt_Get : T → item → option item;
  bt_Has : T → item → bool;
  bt_ReplaceOrInsert : T → item → T;
  bt_Delete : T → item → T;
  bt_Ascend : ∀ {A}, T → (A → item → A * bool) → A → A;
  bt_AscendGreaterOrEqual : ∀ {A}, T → item → (A → item → A * bool) → A → A;
  bt_AscendRange : ∀ {A}, T → item → item → (A → item → A * bool) → A → A;
  bt_Descend : ∀ {A}, T → (A → item → A * bool) → A → A;
  bt_DescendLessOrEqual : ∀ {A}, T → item → (A → item → A * bool) → A → A;
  bt_sorted : ∀ t, ascending (bt_items t);
  bt_New_spec : ∀ d, bt_items (bt_New d) = [];
  bt_Len_spec : ∀ t, bt_Len t = zlen (bt_items t);
  bt_Get_spec : ∀ t i, bt_Get t i = find (same_key i) (bt_items t);
  bt_Has_spec : ∀ t i, bt_Has t i = existsb (same_key i) (bt_items t);
  bt_ReplaceOrInsert_spec : ∀ t i, bt_items (bt_ReplaceOrInsert t i) =
    List.filter (λ j, Less j i) (bt_items t) ++ i :: List.filter (Less i) (bt_items t);
  bt_Delete_spec : ∀ t i, bt_items (bt_Delete t i) = List.filter (λ j, negb (same_key i j)) (bt_items t);
  bt_Ascend_spec : ∀ A t (f : A → item → A * bool) a, bt_Ascend t f a = visit f (bt_items t) a;
  bt_AscendGreaterOrEqual_spec : ∀ A t i (f : A → item → A * bool) a,
    bt_AscendGreaterOrEqual t i f a = visit f (List.filter (λ j, negb (Less j i)) (bt_items t)) a;
  bt_AscendRange_spec : ∀ A t lo hi (f : A → item → A * bool) a,
    bt_AscendRange t lo hi f a = visit f (List.filter (λ j, negb (Less j lo) && Less j hi) (bt_items t)) a;
  bt_Descend_spec : ∀ A t (f : A → item → A * bool) a, bt_Descend t f a = visit f (reverse (bt_items t)) a;
  bt_DescendLessOrEqual_spec : ∀ A t i (f : A → item → A * bool) a,
    bt_DescendLessOrEqual t i f a = visit f (reverse (List.filter (λ j, negb (Less i j)) (bt_items t))) a
}.

Section MemDB.
Context {T : Type} {BT : BTree T}.

(** ** The database *)

Definition bTreeDegree : Z := 32.
Record MemDB := { btree : T }.
Definition NewMemDB : MemDB := {| btree := bt_New bTreeDegree |}.

Definition MemDB_Get (db : MemDB) (key : bytes) : slice + db_error :=
  if zlen key =? 0 then inr errKeyEmpty
  else match bt_Get (btree db) (newKey key) with
       | Some i => inl (ivalue i)
       | None => inl None
       end.
Definition MemDB_Has (db : MemDB) (key : bytes) : bool + db_error :=
  if zlen key =? 0 then inr errKeyEmpty else inl (bt_Has (btree db) (newKey key)).
Definition MemDB_set (db : MemDB) (key : bytes) (value : slice) : MemDB :=
  {| btree := bt_ReplaceOrInsert (btree db) (newPair key value) |}.
Definition MemDB_Set (db : MemDB) (key : bytes) (value : slice) : MemDB * option db_error :=
  if zlen key =? 0 then (db, Some errKeyEmpty)
  else match value with
       | None => (db, Some errValueNil)
       | Some _ => (MemDB_set db key value, None)
       end.
Definition MemDB_SetSync (db : MemDB) (key : bytes) (value : slice) : MemDB * option db_error := MemDB_Set db key value.
Definition MemDB_delete (db : MemDB) (key : bytes) : MemDB := {| btree := bt_Delete (btree db) (newKey key) |}.
Definition MemDB_Delete (db : MemDB) (key : bytes) : MemDB * option db_error :=
  if zlen key =? 0 then (db, Some errKeyEmpty) else (MemDB_delete db key, None).
Definition MemDB_DeleteSync (db : MemDB) (key : bytes) : MemDB * option db_error := MemDB_Delete db key.
Definition MemDB_Close (db : MemDB) : option db_error := None.
Definition MemDB_Stats (db : MemDB) : gmap string string :=
  <["database.size" := pretty (bt_Len (btree db))]> {["database.type" := "memDB"]}.

(** ** Iterators *)

(** [ch] holds the items the traversal will still send. *)
Record memDBIterator := { ch : list item; cur : option item; itStart : slice; itEnd : slice; useMtx : bool }.

(** The state of the visitor: [skipEqual], and what was sent. *)
Definition visitor (abortLessThan : slice) (st : slice * list item) (i : item) : (slice * list item) * bool :=
  let '(skipEqual, out) := st in
  if match skipEqual with Some k => bytes_Equal (ikey i) k | None => false end then ((None, out), true)
  else if match abortLessThan with
          | Some k => match bytes_Compare (ikey i) k with Lt => true | _ => false end
          | None => false
          end then (st, false)
  else ((skipEqual, out ++ [i]), true).

(** The first item is taken from the channel at once. *)
Definition prime (items : list item) (start end_ : slice) (useMtx : bool) : memDBIterator :=
  match items with
  | i :: rest => {| ch := rest; cur := Some i; itStart := start; itEnd := end_; useMtx := useMtx |}
  | [] => {| ch := []; cur := None; itStart := start; itEnd := end_; useMtx := useMtx |}
  end.
Definition newMemDBIteratorMtxChoice (db : MemDB) (start end_ : slice) (reverse useMtx : bool) : memDBIterator :=
  let sent := snd (match start, end_, reverse with
    | None, None, false => bt_Ascend (btree db) (visitor None) (None, [])
    | None, None, true => bt_Descend (btree db) (visitor None) (None, [])
    | Some _, None, false => bt_AscendGreaterOrEqual (btree db) (newKey (sbytes start)) (visitor None) (None, [])
    | _, Some _, false => bt_AscendRange (btree db) (newKey (sbytes start)) (newKey (sbytes end_)) (visitor None) (None, [])
    | _, None, true => bt_Descend (btree db) (visitor start) (None, [])
    | _, Some _, true => bt_DescendLessOrEqual (btree db) (newKey (sbytes end_)) (visitor start) (end_, [])
    end) in
  prime sent start end_ useMtx.
Definition newMemDBIterator (db : MemDB) (start end_ : slice) (reverse : bool) : memDBIterator :=
  newMemDBIteratorMtxChoice db start end_ reverse true.

Definition empty_bound (b : slice) : bool := match b with Some [] => true | _ => false end.
Definition MemDB_Iterator (db : MemDB) (start end_ : slice) : memDBIterator + db_error :=
  if empty_bound start || empty_bound end_ then inr errKeyEmpty else inl (newMemDBIterator db start end_ false).
Definition MemDB_ReverseIterator (db : MemDB) (start end_ : slice) : memDBIterator + db_error :=
  if empty_bound start || empty_bound end_ then inr errKeyEmpty else inl (newMemDBIterator db start end_ true).
Definition MemDB_IteratorNoMtx (db : MemDB) (start end_ : slice) : memDBIterator + db_error :=
  if empty_bound start || empty_bound end_ then inr errKeyEmpty
  else inl (newMemDBIteratorMtxChoice db start end_ false false).
Definition MemDB_ReverseIteratorNoMtx (db : MemDB) (start end_ : slice) : memDBIterator + db_error :=
  if empty_bound start || empty_bound end_ then inr errKeyEmpty
  else inl (newMemDBIteratorMtxChoice db start end_ true false).

Definition Iter_Close (it : memDBIterator) : memDBIterator * option db_error :=
  ({| ch := []; cur := None; itStart := itStart it; itEnd := itEnd it; useMtx := useMtx it |}, None).
Definition Iter_Domain (it : memDBIterator) : slice * slice := (itStart it, itEnd it).
Definition Iter_Valid (it : memDBIterator) : bool := bool_decide (is_Some (cur it)).
Definition Iter_assertIsValid (it : memDBIterator) : outcome unit := if negb (Iter_Valid it) then Panic else Ret tt.
Definition Iter_Next (it : memDBIterator) : outcome memDBIterator :=
  _ ← Iter_assertIsValid it;
  Ret (prime (ch it) (itStart it) (itEnd it) (useMtx it)).
Definition Iter_Error (it : memDBIterator) : option db_error := None.
Definition Iter_Key (it : memDBIterator) : outcome bytes :=
  _ ← Iter_assertIsValid it; i ← deref (cur it); Ret (ikey i).
Definition Iter_Value (it : memDBIterator) : outcome slice :=
  _ ← Iter_assertIsValid it; i ← deref (cur it); Ret (ivalue i).

(** ** Items in order *)

Lemma Less_key i j : Less i j = true ↔ key_lt (ikey i) (ikey j).
Proof. unfold Less, key_lt. by destruct (bytes_Compare _ _). Qed.
Lemma same_key_eq i j : same_key i j = true ↔ ikey i = ikey j.
Proof.
  unfold same_key, Less. rewrite (bytes_Compare_antisym (ikey i) (ikey j)), <- (bytes_Compare_eq (ikey i) (ikey j)).
  by destruct (bytes_Compare (ikey i) (ikey j)).
Qed.
Lemma ascending_keys l : ascending l → NoDup (map ikey l) ∧ StronglySorted key_lt (map ikey l).
Proof.
  induction l as [|i l IH]; cbn; [repeat constructor|]. intros [Hs Hall]%StronglySorted_inv. destruct (IH Hs) as [IH1 IH2].
  assert (Forall (key_lt (ikey i)) (map ikey l)) as Hk by (apply Forall_map; eapply Forall_impl; [exact Hall|]; intros j; by apply Less_key).
  split; constructor; try done. intros Hin. rewrite Forall_forall in Hk. by apply (key_lt_irrefl (ikey i)), Hk.
Qed.
Lemma ascending_filter (p : item → bool) l : ascending l → ascending (List.filter p l).
Proof.
  induction l as [|i l IH]; cbn; [done|]. intros [Hs Hall]%StronglySorted_inv. destruct (p i); [|by apply IH].
  constructor; [by apply IH|]. apply Forall_forall. intros j Hj%list_elem_of_In. apply filter_In in Hj as [Hj _].
  rewrite Forall_forall in Hall. apply Hall. by apply list_elem_of_In.
Qed.

(** ** The content *)

Definition pair_of (i : item) : bytes * bytes := (ikey i, sbytes (ivalue i)).
Definition content (db : MemDB) : gmap bytes bytes := list_to_map (map pair_of (bt_items (btree db))).
(** No key is empty and no value nil. *)
Definition item_ok (i : item) : Prop := ikey i ≠ [] ∧ is_Some (ivalue i).
Definition db_ok (db : MemDB) : Prop := Forall item_ok (bt_items (btree db)).

Lemma pair_keys l : map fst (map pair_of l) = map ikey l.
Proof. by rewrite map_map. Qed.
Lemma content_lookup db k v : db_ok db → content db !! k = Some v ↔ ∃ i, i ∈ bt_items (btree db) ∧ ikey i = k ∧ ivalue i = Some v.
Proof.
  intros Hok. destruct (ascending_keys _ (bt_sorted (btree db))) as [Hn _]. unfold content.
  rewrite <- elem_of_list_to_map by (by rewrite <- pair_keys in Hn). rewrite list_elem_of_fmap. unfold pair_of. split.
  - intros (i & [= -> ->] & Hi). exists i. split_and!; [done..|]. unfold db_ok in Hok. rewrite Forall_forall in Hok.
    destruct (Hok i Hi) as [_ [w Hw]]. by rewrite Hw.
  - intros (i & Hi & <- & Hv). exists i. by rewrite Hv.
Qed.
Lemma content_get db k : db_ok db →
  find (same_key (newKey k)) (bt_items (btree db)) = (λ v, newPair k (Some v)) <$> content db !! k.
Proof.
  intros Hok. destruct (find _ _) as [i|] eqn:E.
  - apply find_some in E as [Hi Hk]. apply same_key_eq in Hk. cbn in Hk. apply list_elem_of_In in Hi.
    unfold db_ok in Hok. pose proof Hok as Hall. rewrite Forall_forall in Hall. destruct (Hall i Hi) as [_ [w Hw]].
    rewrite (proj2 (content_lookup db k w Hok)) by (by exists i). cbn. unfold newPair. destruct i; cbn in *; congruence.
  - destruct (content db !! k) as [v|] eqn:Ec; [|done]. apply content_lookup in Ec as (i & Hi & Hk & _); [|done].
    apply list_elem_of_In in Hi. pose proof (find_none _ _ E i Hi) as Hn. by rewrite (proj2 (same_key_eq (newKey k) i)) in Hn.
Qed.
Lemma existsb_find {A} (p : A → bool) l : existsb p l = bool_decide (is_Some (find p l)).
Proof. induction l as [|x l IH]; [done|]. cbn [existsb find]. by destruct (p x). Qed.

Lemma set_items db k v j : j ∈ bt_items (btree (MemDB_set db k v)) ↔ j = newPair k v ∨ (j ∈ bt_items (btree db) ∧ ikey j ≠ k).
Proof.
  cbn. rewrite bt_ReplaceOrInsert_spec, elem_of_app, elem_of_cons, !list_elem_of_In, !filter_In.
  assert (ikey j ≠ k ↔ Less j (newPair k v) = true ∨ Less (newPair k v) j = true) as ->; [|tauto].
  unfold Less. cbn. rewrite (bytes_Compare_antisym (ikey j) k), <- (bytes_Compare_eq (ikey j) k).
  destruct (bytes_Compare (ikey j) k); cbn; naive_solver.
Qed.
Lemma MemDB_set_ok db k v : db_ok db → k ≠ [] →
  db_ok (MemDB_set db k (Some v)) ∧ content (MemDB_set db k (Some v)) = <[k := v]> (content db).
Proof.
  intros Hok Hk. assert (db_ok (MemDB_set db k (Some v))) as Hok'.
  { unfold db_ok in *. rewrite Forall_forall in *. intros j [->|[Hj _]]%set_items; [split; [done|by eexists]|by apply Hok]. }
  split; [done|]. apply map_eq. intros k'. apply option_eq. intros v'. rewrite content_lookup by done.
  setoid_rewrite set_items. rewrite lookup_insert_Some, content_lookup by done. split.
  - intros (i & [->|[Hi Hne]] & <- & Hv); [left; by injection Hv as <-|right]. split; [done|by exists i].
  - intros [[<- <-]|[Hne (i & Hi & <- & Hv)]]; [exists (newPair k (Some v)); by split_and!; [left|..]|].
    exists i. split_and!; [right|..]; done.
Qed.
Lemma MemDB_delete_ok db k : db_ok db → db_ok (MemDB_delete db k) ∧ content (MemDB_delete db k) = delete k (content db).
Proof.
  intros Hok. assert (∀ j, j ∈ bt_items (btree (MemDB_delete db k)) ↔ j ∈ bt_items (btree db) ∧ ikey j ≠ k) as Hin.
  { intros j. cbn. rewrite bt_Delete_spec, !list_elem_of_In, filter_In, negb_true_iff, <- not_true_iff_false, same_key_eq.
    cbn. split; intros [H1 H2]; (split; [done|]); congruence. }
  assert (db_ok (MemDB_delete db k)) as Hok'.
  { unfold db_ok in *. rewrite Forall_forall in *. intros j [Hj _]%Hin. by apply Hok. }
  split; [done|]. apply map_eq. intros k'. apply option_eq. intros v'. rewrite content_lookup by done.
  setoid_rewrite Hin. rewrite lookup_delete_Some, content_lookup by done. naive_solver.
Qed.

(** ** What an iterator visits *)

Lemma filter_none {A} (p : A → bool) l : (∀ x, x ∈ l → p x = false) → List.filter p l = [].
Proof. induction l as [|x l IH]; intros Hp; [done|]. cbn. rewrite Hp by (by left). apply IH. intros y Hy. apply Hp. by right. Qed.
Lemma filter_true {A} (l : list A) : List.filter (λ _, true) l = l.
Proof. induction l as [|x l IH]; [done|]. cbn. by rewrite IH. Qed.
Lemma filter_and {A} (p q : A → bool) l : List.filter p (List.filter q l) = List.filter (λ x, q x && p x) l.
Proof. induction l as [|x l IH]; [done|]. cbn. destruct (q x); cbn; [|done]. by rewrite IH. Qed.
Lemma filter_reverse {A} (p : A → bool) l : List.filter p (reverse l) = reverse (List.filter p l).
Proof. unfold reverse. by rewrite <- !rev_alt, filter_rev. Qed.
Lemma descending_reverse l : ascending l → StronglySorted (λ i j, Less j i = true) (reverse l).
Proof.
  induction l as [|i l IH]; [constructor|]. intros [Hs Hall]%StronglySorted_inv. rewrite reverse_cons.
  apply StronglySorted_app_2; [|by apply IH|repeat constructor].
  intros x j Hx ->%list_elem_of_singleton. rewrite Forall_forall in Hall. apply Hall, (proj1 (elem_of_reverse _ _)), Hx.
Qed.

Definition in_domain (start end_ : slice) (i : item) : bool := IsKeyInDomain (ikey i) (sbytes start) end_.
Definition is_skipped (skip : slice) (i : item) : bool := match skip with Some k => bytes_Equal (ikey i) k | None => false end.
Definition is_aborted (ab : slice) (i : item) : bool :=
  match ab with Some k => match bytes_Compare (ikey i) k with Lt => true | _ => false end | None => false end.

Lemma visit_all l : ∀ out, visit (visitor None) l (None, out) = (None, out ++ l).
Proof. induction l as [|i l IH]; intros out; cbn; [by rewrite app_nil_r|]. by rewrite IH, <- app_assoc. Qed.
(** In descending order the visitor keeps what it neither skips nor is below
    its bound. *)
Lemma visit_descending ab l : StronglySorted (λ i j, Less j i = true) l → ∀ skip out,
  snd (visit (visitor ab) l (skip, out)) = out ++ List.filter (λ i, negb (is_skipped skip i) && negb (is_aborted ab i)) l.
Proof.
  induction l as [|i l IH]; intros Hs skip out; cbn [visit List.filter]; [by rewrite app_nil_r|].
  apply StronglySorted_inv in Hs as [Hs Hall]. specialize (IH Hs). rewrite Forall_forall in Hall.
  unfold visitor at 1. fold (is_skipped skip i) (is_aborted ab i). destruct (is_skipped skip i) eqn:Ek; cbn [negb andb].
  - rewrite IH. f_equal. apply filter_ext_in. intros j Hj%list_elem_of_In. f_equal. f_equal.
    destruct skip as [k|]; [|done]. cbn in *. bool_to_prop. specialize (Hall j Hj). apply Less_key in Hall. subst k.
    symmetry. apply bytes_Equal_false. intros E. rewrite E in Hall. by apply key_lt_irrefl in Hall.
  - destruct (is_aborted ab i) eqn:Ea; cbn [negb snd].
    + assert (List.filter (λ j, negb (is_skipped skip j) && negb (is_aborted ab j)) l = []) as ->; [|by rewrite app_nil_r].
      apply filter_none. intros j Hj. rewrite andb_false_iff, !negb_false_iff. right. destruct ab as [a|]; [|done]. cbn in *.
      specialize (Hall j Hj). apply Less_key in Hall. destruct (bytes_Compare (ikey i) a) eqn:Ec; [done| |done].
      by rewrite (bytes_Compare_trans _ _ _ Hall Ec).
    + rewrite IH, <- app_assoc. done.
Qed.

Lemma descending_filter (p : item → bool) l : StronglySorted (λ i j, Less j i = true) l →
  StronglySorted (λ i j, Less j i = true) (List.filter p l).
Proof.
  induction l as [|i l IH]; cbn; [done|]. intros [Hs Hall]%StronglySorted_inv. destruct (p i); [|by apply IH].
  constructor; [by apply IH|]. apply Forall_forall. intros j Hj%list_elem_of_In. apply filter_In in Hj as [Hj _].
  rewrite Forall_forall in Hall. apply Hall. by apply list_elem_of_In.
Qed.
Definition iter_items (it : memDBIterator) : list item := option_list (cur it) ++ ch it.
Lemma prime_items l start end_ m : iter_items (prime l start end_ m) = l.
Proof. by destruct l. Qed.

(** The iterators visit the items of the domain, in either order. *)
Lemma newMemDBIterator_items db start end_ r m :
  iter_items (newMemDBIteratorMtxChoice db start end_ r m) =
    (if r then reverse else id) (List.filter (in_domain start end_) (bt_items (btree db))).
Proof.
  unfold newMemDBIteratorMtxChoice. rewrite prime_items.
  pose proof (bt_sorted (btree db)) as Hs. pose proof (descending_reverse _ Hs) as Hr.
  assert (∀ i k, match bytes_Compare k (ikey i) with Gt => true | _ => false end = Less i (newKey k)) as Hgt.
  { intros i k. unfold Less. cbn. rewrite (bytes_Compare_antisym (ikey i) k). by destruct (bytes_Compare (ikey i) k). }
  assert (∀ i k, negb (Less (newKey k) i) && negb (bytes_Equal (ikey i) k) = Less i (newKey k)) as Hskip.
  { intros i k. rewrite <- Hgt. unfold Less. cbn. destruct (bytes_Equal (ikey i) k) eqn:E; bool_to_prop.
    - by rewrite E, bytes_Compare_refl.
    - destruct (bytes_Compare k (ikey i)) eqn:Ec; try done. apply bytes_Compare_eq in Ec. congruence. }
  assert (∀ k (b : bool), match bytes_Compare k [] with Lt => false | _ => b end = b) as Hnil by (by intros []).
  destruct r, start as [st|], end_ as [en|];
    rewrite ?bt_Ascend_spec, ?bt_AscendGreaterOrEqual_spec, ?bt_AscendRange_spec, ?bt_Descend_spec, ?bt_DescendLessOrEqual_spec,
      ?visit_all; cbn [snd id app].
  1, 3: rewrite visit_descending by (rewrite <- filter_reverse; by apply descending_filter); cbn [app]; rewrite filter_reverse, filter_and;
    f_equal; apply filter_ext; intros i.
  all: try (rewrite visit_descending by done; cbn [app]; rewrite filter_reverse; f_equal; apply filter_ext; intros i).
  all: try (apply filter_ext; intros i).
  4, 8: rewrite (filter_ext (in_domain None None) (λ _, true)) by (intros i; unfold in_domain, IsKeyInDomain; by destruct (ikey i));
    by rewrite filter_true.
  all: unfold in_domain, IsKeyInDomain; cbn [sbytes default id is_skipped is_aborted negb]; rewrite ?Hgt, ?Hnil, ?andb_true_r.
  1, 2: rewrite ?andb_assoc, Hskip.
  all: unfold Less; cbn [ikey newKey]; try done.
  1, 3: by destruct (bytes_Compare (ikey i) st), (bytes_Compare (ikey i) en).
  1, 2: by destruct (bytes_Compare (ikey i) st).
  by destruct (ikey i).
Qed.

(** ** The contracts *)

Definition GoodDB : Type := { db : MemDB | db_ok db }.
Definition good_set (s : GoodDB) (k : bytes) (v : slice) : GoodDB * option db_error.
Proof.
  refine (match decide (k = []) with
    | left _ => (s, Some errKeyEmpty)
    | right Hk => match v with
        | None => (s, Some errValueNil)
        | Some v => (exist _ (MemDB_set (proj1_sig s) k (Some v)) (proj1 (MemDB_set_ok _ _ _ (proj2_sig s) Hk)), None)
        end
    end).
Defined.
Definition good_delete (s : GoodDB) (k : bytes) : GoodDB * option db_error :=
  if decide (k = []) then (s, Some errKeyEmpty)
  else (exist _ (MemDB_delete (proj1_sig s) k) (proj1 (MemDB_delete_ok _ _ (proj2_sig s))), None).
Lemma zlen_empty (k : bytes) : (zlen k =? 0) = bool_decide (k = []).
Proof. destruct k; [done|]. rewrite bool_decide_false by done. apply Z.eqb_neq. unfold zlen. cbn. lia. Qed.

(** On a well-formed database they are the operations of the code. *)
Lemma good_set_MemDB s k v : (proj1_sig (fst (good_set s k v)), snd (good_set s k v)) = MemDB_Set (proj1_sig s) k v.
Proof. unfold good_set, MemDB_Set. rewrite zlen_empty. destruct (decide (k = [])); [by rewrite bool_decide_true|]. rewrite bool_decide_false by done. by destruct v. Qed.
Lemma good_delete_MemDB s k : (proj1_sig (fst (good_delete s k)), snd (good_delete s k)) = MemDB_Delete (proj1_sig s) k.
Proof. unfold good_delete, MemDB_Delete. rewrite zlen_empty. destruct (decide (k = [])); [by rewrite bool_decide_true|]. by rewrite bool_decide_false. Qed.

(** The in-memory database is a store. *)
#[refine] Definition memdb_store : KVStore GoodDB := {|
  kv_map := λ s, content (proj1_sig s);
  kv_Get := λ s k, MemDB_Get (proj1_sig s) k;
  kv_Has := λ s k, MemDB_Has (proj1_sig s) k;
  kv_Set := good_set;
  kv_Delete := good_delete
|}.
Proof.
  - done.
  - intros [db Hok] k Hk. unfold MemDB_Get. rewrite zlen_empty, bool_decide_false by done. cbn. rewrite bt_Get_spec, content_get by done.
    by destruct (content db !! k).
  - done.
  - intros [db Hok] k Hk. unfold MemDB_Has. rewrite zlen_empty, bool_decide_false by done. cbn. rewrite bt_Has_spec, existsb_find, content_get by done.
    by destruct (content db !! k).
  - done.
  - intros s k Hk. unfold good_set. by destruct (decide (k = [])).
  - intros s k v Hk. unfold good_set. destruct (decide (k = [])); [done|]. eexists. split; [done|]. cbn. by apply MemDB_set_ok; [apply (proj2_sig s)|].
  - done.
  - intros s k Hk. unfold good_delete. destruct (decide (k = [])); [done|]. eexists. split; [done|]. cbn. apply MemDB_delete_ok, (proj2_sig s).
Defined.

(** An iterator that has not run ahead of its items. *)
Definition iter_ok (it : memDBIterator) : Prop := Forall item_ok (iter_items it) ∧ (cur it = None → ch it = []).
Definition GoodIter : Type := { it : memDBIterator | iter_ok it }.
Lemma prime_ok l start end_ m : Forall item_ok l → iter_ok (prime l start end_ m).
Proof. intros Hl. split; [by rewrite prime_items|by destruct l]. Qed.
Lemma new_ok db start end_ r m : db_ok db → iter_ok (newMemDBIteratorMtxChoice db start end_ r m).
Proof.
  intros Hok. unfold newMemDBIteratorMtxChoice at 1. apply prime_ok.
  pose proof (newMemDBIterator_items db start end_ r m) as E. unfold newMemDBIteratorMtxChoice in E. rewrite prime_items in E. rewrite E.
  unfold db_ok in Hok. rewrite Forall_forall in *. intros i Hi. apply Hok.
  assert (i ∈ List.filter (in_domain start end_) (bt_items (btree db))) as Hi' by (destruct r; [by apply (proj1 (elem_of_reverse _ _)) in Hi|done]).
  apply list_elem_of_In, filter_In in Hi' as [Hi' _]. by apply list_elem_of_In.
Qed.
Definition good_iter (s : GoodDB) (start end_ : slice) (r : bool) : GoodIter :=
  exist _ (newMemDBIterator (proj1_sig s) start end_ r) (new_ok _ _ _ _ _ (proj2_sig s)).
Lemma next_ok it : iter_ok it → iter_ok (prime (ch it) (itStart it) (itEnd it) (useMtx it)).
Proof. intros [Hl _]. apply prime_ok. unfold iter_items in Hl. by apply Forall_app in Hl as [_ Hl]. Qed.

(** The pairs of the domain, from the items of the domain. *)
Lemma domain_items db start end_ : db_ok db →
  domain_pairs (content db) start end_ (map pair_of (List.filter (in_domain start end_) (bt_items (btree db)))).
Proof.
  intros Hok. split.
  - rewrite pair_keys. by apply ascending_keys, ascending_filter, bt_sorted.
  - intros k v. rewrite content_lookup by done. rewrite list_elem_of_fmap. split.
    + intros (i & [= -> ->] & Hi). apply list_elem_of_In, filter_In in Hi as [Hi Hd]. apply list_elem_of_In in Hi.
      split; [|done]. exists i. split_and!; [done..|]. unfold db_ok in Hok. rewrite Forall_forall in Hok.
      destruct (Hok i Hi) as [_ [w Hw]]. by rewrite Hw.
    + intros [(i & Hi & <- & Hv) Hd]. exists i. unfold pair_of. rewrite Hv. split; [done|].
      apply list_elem_of_In, filter_In. split; [by apply list_elem_of_In|done].
Qed.
Lemma bounds_set start end_ : start ≠ Some [] → end_ ≠ Some [] → empty_bound start || empty_bound end_ = false.
Proof. destruct start as [[|]|], end_ as [[|]|]; done. Qed.

(** The code's operations on well-formed databases and iterators. *)
Definition good_Iterator (r : bool) (s : GoodDB) (start end_ : slice) : GoodIter + db_error :=
  if empty_bound start || empty_bound end_ then inr errKeyEmpty else inl (good_iter s start end_ r).
Definition good_Next (it : GoodIter) : outcome GoodIter :=
  _ ← Iter_assertIsValid (proj1_sig it); Ret (exist _ _ (next_ok _ (proj2_sig it))).
Lemma close_ok it : iter_ok (fst (Iter_Close it)).
Proof. by split. Qed.
Definition good_Close (it : GoodIter) : GoodIter * option db_error := (exist _ _ (close_ok (proj1_sig it)), None).
Lemma good_Iterator_MemDB s start end_ :
  (match good_Iterator false s start end_ with inl it => inl (proj1_sig it) | inr e => inr e end) = MemDB_Iterator (proj1_sig s) start end_ ∧
  (match good_Iterator true s start end_ with inl it => inl (proj1_sig it) | inr e => inr e end) = MemDB_ReverseIterator (proj1_sig s) start end_.
Proof. unfold good_Iterator, MemDB_Iterator, MemDB_ReverseIterator. by destruct (_ || _). Qed.
Lemma good_Next_MemDB it : (match good_Next it with Ret i => Ret (proj1_sig i) | Panic => Panic end) = Iter_Next (proj1_sig it).
Proof. unfold good_Next, Iter_Next. by destruct (Iter_assertIsValid _). Qed.

(** Its iterators discharge the contract of iterators. *)
#[refine] Definition memdb_iter : @IterStore GoodDB GoodIter memdb_store := {|
  it_rest := λ it, map pair_of (iter_items (proj1_sig it));
  db_Iterator := good_Iterator false;
  db_ReverseIterator := good_Iterator true;
  it_Domain := λ it, Iter_Domain (proj1_sig it);
  it_Valid := λ it, Iter_Valid (proj1_sig it);
  it_Next := good_Next;
  it_Key := λ it, Iter_Key (proj1_sig it);
  it_Value := λ it, Iter_Value (proj1_sig it);
  it_Error := λ it, Iter_Error (proj1_sig it);
  it_Close := good_Close
|}.
Proof.
  - intros [[c [i|] st en m] [Hok Hc]]; cbn; [by split|]. pose proof (Hc eq_refl) as E. cbn in E. rewrite E. by split.
  - intros [[c [i|] st en m] [Hok Hc]]; cbn; [done|]. done.
  - intros [[c [i|] st en m] [Hok Hc]] k v l; cbn.
    + intros [= <- <- <-]. pose proof (Forall_cons_1 _ _ _ Hok) as [[_ [w Hw]] _]. cbn in Hw. rewrite Hw. split_and!; [done..|].
      eexists. split; [done|]. cbn. rewrite prime_items. split; [done|by destruct c].
    + pose proof (Hc eq_refl) as E. cbn in E. by rewrite E.
  - intros s start end_ He. unfold good_Iterator. destruct He as [-> | ->]; cbn; [done|]. by rewrite orb_true_r.
  - intros s start end_ H1 H2. unfold good_Iterator. rewrite bounds_set by done. eexists. split; [done|].
    cbn [good_iter proj1_sig]. unfold newMemDBIterator. rewrite newMemDBIterator_items. split; [|by apply domain_items, (proj2_sig s)].
    unfold Iter_Domain, newMemDBIteratorMtxChoice. by destruct (snd _).
  - intros s start end_ H1 H2. unfold good_Iterator. rewrite bounds_set by done. eexists. split; [done|].
    cbn [good_iter proj1_sig]. unfold newMemDBIterator. rewrite newMemDBIterator_items. split.
    + unfold Iter_Domain, newMemDBIteratorMtxChoice. by destruct (snd _).
    + rewrite <- fmap_reverse, reverse_involutive. by apply domain_items, (proj2_sig s).
Defined.

(** ** Histories *)

Inductive db_op := OpSet (key : bytes) (value : slice) | OpDelete (key : bytes).
Definition run_op (db : MemDB) (o : db_op) : MemDB :=
  match o with OpSet k v => fst (MemDB_Set db k v) | OpDelete k => fst (MemDB_Delete db k) end.
(** The same operation on a map. *)
Definition map_op (m : gmap bytes bytes) (o : db_op) : gmap bytes bytes :=
  match o with
  | OpSet k (Some v) => if decide (k = []) then m else <[k := v]> m
  | OpSet _ None => m
  | OpDelete k => if decide (k = []) then m else delete k m
  end.
Lemma run_ops_content ops : ∀ db, db_ok db →
  db_ok (foldl run_op db ops) ∧ content (foldl run_op db ops) = foldl map_op (content db) ops.
Proof.
  induction ops as [|o ops IH]; intros db Hok; [done|]. cbn [foldl].
  assert (db_ok (run_op db o) ∧ content (run_op db o) = map_op (content db) o) as [Hok' Ec]; [|by rewrite <- Ec; apply IH].
  destruct o as [k [v|]|k]; cbn [run_op map_op]; unfold MemDB_Set, MemDB_Delete; rewrite zlen_empty.
  - destruct (decide (k = [])) as [Hk|Hk]; [by rewrite bool_decide_true|rewrite bool_decide_false by done]. by apply MemDB_set_ok.
  - by destruct (bool_decide _).
  - destruct (decide (k = [])) as [Hk|Hk]; [by rewrite bool_decide_true|rewrite bool_decide_false by done]. by apply MemDB_delete_ok.
Qed.
Lemma iter_walk it fuel : iter_ok it → (length (iter_items it) < fuel)%nat →
  walk Iter_Valid Iter_Next Iter_Key Iter_Value fuel it =
    Ret (Some (map (λ kv, (fst kv, Some (snd kv))) (map pair_of (iter_items it)))).
Proof.
  intros Hok Hf. apply (walk_list iter_ok Iter_Valid Iter_Next Iter_Key Iter_Value (λ it, map pair_of (iter_items it)));
    [..|done|by rewrite length_map].
  - intros it1 Hok1. exact (@it_Valid_spec _ _ _ memdb_iter (exist _ it1 Hok1)).
  - intros it1 k v l Hok1 E. destruct (@it_step _ _ _ memdb_iter (exist _ it1 Hok1) k v l E) as (Ek & Ev & [it2 Hok2] & En & El & _).
    split_and!; [done|done|]. exists it2. split_and!; [|done|done]. pose proof (good_Next_MemDB (exist _ it1 Hok1)) as Eg.
    change (good_Next (exist _ it1 Hok1) = Ret (exist _ it2 Hok2)) in En. by rewrite En in Eg.
Qed.

(** C22. Whatever is written to a new in-memory database, in whatever order, empty
    keys and nil values included: it holds what a map would hold; reading
    returns it; and walking an iterator visits exactly the pairs with
    [start] <= key < [end_] in ascending order, a reverse iterator in
    descending order; an empty bound is refused. *)
Theorem MemDB_refines_map ops :
  let db := foldl run_op NewMemDB ops in
  let m := foldl map_op ∅ ops in
  (∀ k, k ≠ [] → MemDB_Get db k = inl (m !! k) ∧ MemDB_Has db k = inl (bool_decide (is_Some (m !! k)))) ∧
  (∀ start end_, (start = Some [] ∨ end_ = Some [] → MemDB_Iterator db start end_ = inr errKeyEmpty) ∧
     (start ≠ Some [] → end_ ≠ Some [] → ∃ it rit l, MemDB_Iterator db start end_ = inl it ∧ MemDB_ReverseIterator db start end_ = inl rit ∧
       domain_pairs m start end_ l ∧ ∀ fuel, (length l < fuel)%nat →
         walk Iter_Valid Iter_Next Iter_Key Iter_Value fuel it = Ret (Some (map (λ kv, (fst kv, Some (snd kv))) l)) ∧
         walk Iter_Valid Iter_Next Iter_Key Iter_Value fuel rit = Ret (Some (map (λ kv, (fst kv, Some (snd kv))) (reverse l))))).
Proof.
  assert (db_ok NewMemDB) as H0 by (unfold db_ok; cbn; by rewrite bt_New_spec).
  assert (content NewMemDB = ∅) as E0 by (unfold content; cbn; by rewrite bt_New_spec).
  intros db m. destruct (run_ops_content ops NewMemDB H0) as [Hok Ec]. fold db in Hok, Ec. rewrite E0 in Ec. fold m in Ec.
  clearbody db m. clear E0 H0. rewrite <- Ec. split.
  - intros k Hk. split; [by apply (@kv_Get_spec _ memdb_store (exist _ db Hok))|by apply (@kv_Has_spec _ memdb_store (exist _ db Hok))].
  - intros start end_. split.
    + intros He. unfold MemDB_Iterator. destruct He as [-> | ->]; cbn; [done|]. by rewrite orb_true_r.
    + intros H1 H2. unfold MemDB_Iterator, MemDB_ReverseIterator. rewrite bounds_set by done.
      eexists _, _, (map pair_of (List.filter (in_domain start end_) (bt_items (btree db)))). split_and!; [done..|by apply domain_items|].
      unfold newMemDBIterator. intros fuel Hf. rewrite length_map in Hf.
      split; (rewrite iter_walk; [|by apply new_ok|by rewrite newMemDBIterator_items; cbn; rewrite ?length_reverse]);
        rewrite newMemDBIterator_items; [done|]. by rewrite fmap_reverse.
Qed.
End MemDB.

(** ** A tree

    A strictly ascending list stands for a B-tree where a concrete one is
    needed. *)
Module ListTree.
Definition tree : Type := { l : list item | ascending l }.
Lemma empty_sorted : ascending ([] : list item).
Proof. constructor. Qed.
Lemma insert_sorted i l : ascending l → ascending (List.filter (λ j, Less j i) l ++ i :: List.filter (Less i) l).
Proof.
  intros Hs. apply StronglySorted_app_2; [|by apply ascending_filter|constructor; [by apply ascending_filter|]].
  - intros x y Hx%list_elem_of_In Hy. apply filter_In in Hx as [_ Hx]. apply elem_of_cons in Hy as [->|Hy]; [done|].
    apply list_elem_of_In, filter_In in Hy as [_ Hy]. apply Less_key. apply Less_key in Hx, Hy. by etrans.
  - apply Forall_forall. intros y Hy%list_elem_of_In. by apply filter_In in Hy as [_ Hy].
Qed.
#[refine] Definition list_tree : BTree tree := {|
  bt_items := λ t, proj1_sig t;
  bt_New := λ _, exist _ [] empty_sorted;
  bt_Len := λ t, zlen (proj1_sig t);
  bt_Get := λ t i, find (same_key i) (proj1_sig t);
  bt_Has := λ t i, existsb (same_key i) (proj1_sig t);
  bt_ReplaceOrInsert := λ t i, exist _ _ (insert_sorted i _ (proj2_sig t));
  bt_Delete := λ t i, exist _ _ (ascending_filter (λ j, negb (same_key i j)) _ (proj2_sig t));
  bt_Ascend := λ A t f a, visit f (proj1_sig t) a;
  bt_AscendGreaterOrEqual := λ A t i f a, visit f (List.filter (λ j, negb (Less j i)) (proj1_sig t)) a;
  bt_AscendRange := λ A t lo hi f a, visit f (List.filter (λ j, negb (Less j lo) && Less j hi) (proj1_sig t)) a;
  bt_Descend := λ A t f a, visit f (reverse (proj1_sig t)) a;
  bt_DescendLessOrEqual := λ A t i f a, visit f (reverse (List.filter (λ j, negb (Less i j)) (proj1_sig t))) a
|}.
Proof. 1: exact (λ t, proj2_sig t). all: done. Defined.
#[local] Existing Instance list_tree.
#[local] Existing Instance memdb_store.
#[local] Existing Instance memdb_iter.

(** Data keys [a] and [b], the key of a state, an empty key and a nil value. *)
Definition ops : list db_op :=
  [OpSet [49; 98] (Some [2]); OpSet [48; 97] (Some [9]); OpSet [49; 97] (Some [1]); OpSet [] (Some [3]); OpSet [49; 99] None; OpSet [49; 98] (Some [4])].
Definition db : MemDB := foldl run_op NewMemDB ops.
Lemma MemDB_refines_map_witness : MemDB_Get db [49; 98] = inl (Some [4]) ∧
  ∃ it, MemDB_Iterator db (Some [49]) None = inl it ∧
    walk Iter_Valid Iter_Next Iter_Key Iter_Value 3 it = Ret (Some [([49; 97], Some [1]); ([49; 98], Some [4])]).
Proof.
  destruct (MemDB_refines_map ops) as [Hget Hit]. fold db in Hget, Hit. split.
  - destruct (Hget [49; 98]) as [E _]; [done|]. rewrite E. vm_compute. reflexivity.
  - destruct (Hit (Some [49]) None) as [_ Hi]. destruct Hi as (it & rit & l & E & _); [done..|]. exists it. split; [exact E|].
    revert E. vm_compute. intros [= <-]. reflexivity.
Defined.

(** The store of the prefixed iterators. *)
Lemma db_good : db_ok db.
Proof. apply (run_ops_content ops NewMemDB). constructor. Qed.
Definition store : GoodDB := exist _ db db_good.
Lemma PrefixIterator_visits_witness : ∃ it l,
  Iterator store None (Some [99]) = inl it ∧ data_pairs store [] [99] l ∧
  walk PI_Valid PI_Next PI_Key PI_Value 3 it = Ret (Some [([97], Some [1]); ([98], Some [4])]).
Proof.
  destruct (PrefixIterator_visits (It := GoodIter) store None (Some [99])) as (it & l & E & _ & Hl & _).
  exists it, l. split; [exact E|]. split; [exact Hl|]. revert E. vm_compute. intros [= <-]. reflexivity.
Defined.
End ListTree.
