(* ===== verification/Batch.v ===== *)
(** * Write batches

    Models the batch of [source/libs/db/memdb_batch.go] over any store of the
    contract [KVStore], and the prefixed batch of
    [source/utils/store/store.go]. *)

From stdpp Require Import base list gmap strings numbers.
From Stdlib Require Import ZArith Lia.
From S2P Require Import Prelude Store.

(** The two operation types; [Write] is never reached by another one. *)
Inductive operation := opTypeSet (key value : bytes) | opTypeDelete (key : bytes).

(** The operations of a batch, nil once it is closed. *)
Record memDBBatch := { ops : option (list operation) }.
Definition newMemDBBatch : memDBBatch := {| ops := Some [] |}.

Definition Batch_Set (b : memDBBatch) (key : bytes) (value : slice) : memDBBatch * option db_error :=
  if zlen key =? 0 then (b, Some errKeyEmpty)
  else match value with
       | None => (b, Some errValueNil)
       | Some v =>
           match ops b with
           | None => (b, Some errBatchClosed)
           | Some l => ({| ops := Some (l ++ [opTypeSet key v]) |}, None)
           end
       end.
Definition Batch_Delete (b : memDBBatch) (key : bytes) : memDBBatch * option db_error :=
  if zlen key =? 0 then (b, Some errKeyEmpty)
  else match ops b with
       | None => (b, Some errBatchClosed)
       | Some l => ({| ops := Some (l ++ [opTypeDelete key]) |}, None)
       end.
Definition Batch_Close (b : memDBBatch) : memDBBatch := {| ops := None |}.

Section Batch.
Context {S : Type} {KV : KVStore S}.

Definition apply_op (db : S) (o : operation) : S :=
  match o with
  | opTypeSet k v => fst (kv_Set db k (Some v))
  | opTypeDelete k => fst (kv_Delete db k)
  end.
Definition Batch_Write (db : S) (b : memDBBatch) : S * memDBBatch * option db_error :=
  match ops b with
  | None => (db, b, Some errBatchClosed)
  | Some l => (foldl apply_op db l, Batch_Close b, None)
  end.
Definition Batch_WriteSync (db : S) (b : memDBBatch) : S * memDBBatch * option db_error := Batch_Write db b.

(** The prefixed batch. *)
Definition NewBatch : memDBBatch := newMemDBBatch.
Definition PB_Set (b : memDBBatch) (key : bytes) (value : slice) : memDBBatch * option db_error :=
  Batch_Set b (PrefixStore.toDataKey key) value.
Definition PB_Delete (b : memDBBatch) (key : bytes) : memDBBatch * option db_error :=
  Batch_Delete b (PrefixStore.toDataKey key).
Definition PB_Write (db : S) (b : memDBBatch) := Batch_Write db b.
Definition PB_WriteSync (db : S) (b : memDBBatch) := Batch_WriteSync db b.
Definition PB_Close (b : memDBBatch) := Batch_Close b.

(** ** A batch of writes *)

Lemma PB_Set_open l key v : PB_Set {| ops := Some l |} key (Some v) =
  ({| ops := Some (l ++ [opTypeSet (PrefixStore.toDataKey key) v]) |}, None).
Proof. done. Qed.

(** Filling a batch with pairs of keys and values. *)
Definition set_ops (kvs : list (bytes * bytes)) : list operation :=
  map (λ kv, opTypeSet (PrefixStore.toDataKey (fst kv)) (snd kv)) kvs.

(** The last write to a key wins; nothing else changes. *)
Fixpoint last_value (k : bytes) (kvs : list (bytes * bytes)) (v : slice) : slice :=
  match kvs with
  | [] => v
  | (k', v') :: kvs' => last_value k kvs' (if decide (k = k') then Some v' else v)
  end.

Lemma set_ops_spec kvs : ∀ db : S,
  (∀ k, PrefixStore.datas (foldl apply_op db (set_ops kvs)) k = last_value k kvs (PrefixStore.datas db k)) ∧
  (∀ k, PrefixStore.states (foldl apply_op db (set_ops kvs)) k = PrefixStore.states db k) ∧
  (∀ k, PrefixStore.specials (foldl apply_op db (set_ops kvs)) k = PrefixStore.specials db k).
Proof.
  induction kvs as [|[k' v'] kvs IH]; intros db; [done|]. cbn [set_ops map foldl apply_op fst snd last_value].
  destruct (PrefixStore.Set_eq db k' v') as (db' & E & D & S1 & X). unfold PrefixStore.Set_ in E. rewrite E.
  destruct (IH db') as (I1 & I2 & I3). split_and!; intros k; [|by rewrite <- S1, <- I2|by rewrite <- X, <- I3].
  rewrite <- D. apply I1.
Qed.

Lemma last_value_ne k kvs : ∀ v, k ∉ map fst kvs → last_value k kvs v = v.
Proof.
  induction kvs as [|[k' v'] kvs IH]; intros v Hk; [done|]. cbn. rewrite IH by set_solver.
  by rewrite decide_False by set_solver.
Qed.
Lemma last_value_in k v kvs : NoDup (map fst kvs) → (k, v) ∈ kvs → ∀ o, last_value k kvs o = Some v.
Proof.
  induction kvs as [|[k' v'] kvs IH]; intros Hn Hin o; [by apply elem_of_nil in Hin|].
  cbn in Hn. inversion Hn as [|? ? Hk Hn']; subst. cbn. apply elem_of_cons in Hin as [[= <- <-]|Hin].
  - rewrite decide_True by done. by apply last_value_ne.
  - by apply IH.
Qed.

End Batch.
