(* ===== verification/DiskDB.v ===== *)
(** * Databases on disk

    Models [source/libs/db/goleveldb.go], [goleveldb_iterator.go],
    [goleveldb_batch.go], [tm-rocksdb.go], [rocksdb_iterator.go] and
    [rocksdb_batch.go]: the wrappers that give LevelDB and RocksDB the interface
    of the package.  The libraries are parameters: the class [DiskOps] has the
    calls the wrappers make, failures included, and the class [DiskLaws] what
    they document of a database without failures: it is a map of non-empty keys, and a cursor
    stands on a pair of an ascending list.  Both wrappers discharge [KVStore]
    and [IterStore].  Opening, compaction and printing are left out. *)

From stdpp Require Import base list gmap strings numbers sorting.
From Stdlib Require Import ZArith Lia.
From S2P Require Import Prelude Convert Store Iterators Batch.

(** ** The libraries *)

Inductive get_result := Found (v : bytes) | Missing | Failed.

(** [T] is a database, [Cu] a cursor on it.  [true] is a synced write. *)
Class DiskOps (T Cu : Type) := {
  dk_Get : T → bytes → get_result;
  dk_Put : T → bool → bytes → bytes → T * bool;
  dk_Delete : T → bool → bytes → T * bool;
  dk_Write : T → bool → list operation → T * bool;
  dk_Property : T → string → option string;
  (** LevelDB bounds a cursor by a range, RocksDB does not. *)
  dk_NewIterator : T → slice → slice → Cu;
  cu_First : Cu → Cu;
  cu_Last : Cu → Cu;
  cu_Seek : Cu → bytes → Cu;
  cu_Next : Cu → Cu;
  cu_Prev : Cu → Cu;
  cu_Valid : Cu → bool;
  cu_Key : Cu → bytes;
  cu_Value : Cu → bytes;
  cu_Failed : Cu → bool;
  cu_Release : Cu → Cu
}.

(** The first place of an ascending list that is not below a key. *)
Fixpoint seek_index (k : bytes) (l : list (bytes * bytes)) : nat :=
  match l with
  | [] => O
  | p :: l' => match bytes_Compare (fst p) k with Lt => Datatypes.S (seek_index k l') | _ => O end
  end.
(** A place of the list, if it is one. *)
Definition place (i : nat) (l : list (bytes * bytes)) : option nat := if (i <? length l)%nat then Some i else None.

Definition op_key (o : operation) : bytes := match o with opTypeSet k _ | opTypeDelete k => k end.

Class DiskLaws (T Cu : Type) {D : DiskOps T Cu} := {
  dk_map : T → gmap bytes bytes;
  cu_pairs : Cu → list (bytes * bytes);
  cu_pos : Cu → option nat;
  dk_Get_spec : ∀ t k, k ≠ [] → dk_Get t k = match dk_map t !! k with Some v => Found v | None => Missing end;
  dk_Put_spec : ∀ t s k v, k ≠ [] → ∃ t', dk_Put t s k v = (t', true) ∧ dk_map t' = <[k := v]> (dk_map t);
  dk_Delete_spec : ∀ t s k, k ≠ [] → ∃ t', dk_Delete t s k = (t', true) ∧ dk_map t' = delete k (dk_map t);
  dk_Write_spec : ∀ t s ops, Forall (λ o, op_key o ≠ []) ops → ∃ t', dk_Write t s ops = (t', true) ∧
    dk_map t' = foldl (λ m o, match o with opTypeSet k v => <[k := v]> m | opTypeDelete k => delete k m end) (dk_map t) ops;
  dk_NewIterator_spec : ∀ t start limit, domain_pairs (dk_map t) start limit (cu_pairs (dk_NewIterator t start limit));
  cu_First_spec : ∀ c, cu_pairs (cu_First c) = cu_pairs c ∧ cu_pos (cu_First c) = place 0 (cu_pairs c);
  cu_Last_spec : ∀ c, cu_pairs (cu_Last c) = cu_pairs c ∧
    cu_pos (cu_Last c) = if decide (cu_pairs c = []) then None else Some (length (cu_pairs c) - 1)%nat;
  cu_Seek_spec : ∀ c k, cu_pairs (cu_Seek c k) = cu_pairs c ∧
    cu_pos (cu_Seek c k) = place (seek_index k (cu_pairs c)) (cu_pairs c);
  cu_Next_spec : ∀ c i, cu_pos c = Some i → cu_pairs (cu_Next c) = cu_pairs c ∧ cu_pos (cu_Next c) = place (i + 1) (cu_pairs c);
  cu_Prev_spec : ∀ c i, cu_pos c = Some i → cu_pairs (cu_Prev c) = cu_pairs c ∧
    cu_pos (cu_Prev c) = match i with O => None | Datatypes.S j => Some j end;
  cu_Valid_spec : ∀ c, cu_Valid c = true ↔ is_Some (cu_pos c);
  cu_current : ∀ c i, cu_pos c = Some i → cu_pairs c !! i = Some (cu_Key c, cu_Value c);
  cu_Failed_spec : ∀ c, cu_Failed c = false
}.

(** A copy. *)
Definition cp (bz : bytes) : bytes := take (length bz) bz.
Lemma cp_eq bz : cp bz = bz.
Proof. apply firstn_all. Qed.
Definition io (ok : bool) : option db_error := if ok then None else Some errIO.
Definition empty_slice (s : slice) : bool := match s with Some [] => true | _ => false end.

(** The fields of both iterators, and of both batches. *)
Record diskIterator (Cu : Type) := { source : Cu; dStart : slice; dEnd : slice; isReverse : bool; isInvalid : bool }.
Arguments source {Cu} _.
Arguments dStart {Cu} _.
Arguments dEnd {Cu} _.
Arguments isReverse {Cu} _.
Arguments isInvalid {Cu} _.
Definition invalidate {Cu} (itr : diskIterator Cu) : diskIterator Cu :=
  {| source := source itr; dStart := dStart itr; dEnd := dEnd itr; isReverse := isReverse itr; isInvalid := true |}.
Definition with_source {Cu} (itr : diskIterator Cu) (c : Cu) : diskIterator Cu :=
  {| source := c; dStart := dStart itr; dEnd := dEnd itr; isReverse := isReverse itr; isInvalid := isInvalid itr |}.
(** The operations collected, nil once the batch is closed. *)
Record diskBatch := { batch : option (list operation) }.

(** ** LevelDB *)

Module GoLevelDB.
Section LevelDB.
Context {T Cu : Type} {D : DiskOps T Cu}.

Definition Get (db : T) (key : bytes) : slice + db_error :=
  if zlen key =? 0 then inr errKeyEmpty
  else match dk_Get db key with Found res => inl (Some res) | Missing => inl None | Failed => inr errIO end.
Definition Has (db : T) (key : bytes) : bool + db_error :=
  match Get db key with inr e => inr e | inl bz => inl (bool_decide (is_Some bz)) end.
Definition Set_ (db : T) (key : bytes) (value : slice) : T * option db_error :=
  if zlen key =? 0 then (db, Some errKeyEmpty)
  else match value with
       | None => (db, Some errValueNil)
       | Some v => let '(db, ok) := dk_Put db false key v in (db, io ok)
       end.
Definition SetSync (db : T) (key : bytes) (value : slice) : T * option db_error :=
  if zlen key =? 0 then (db, Some errKeyEmpty)
  else match value with
       | None => (db, Some errValueNil)
       | Some v => let '(db, ok) := dk_Put db true key v in (db, io ok)
       end.
Definition Delete (db : T) (key : bytes) : T * option db_error :=
  if zlen key =? 0 then (db, Some errKeyEmpty)
  else let '(db, ok) := dk_Delete db false key in (db, io ok).
Definition DeleteSync (db : T) (key : bytes) : T * option db_error :=
  if zlen key =? 0 then (db, Some errKeyEmpty)
  else let '(db, ok) := dk_Delete db true key in (db, io ok).
Definition Stats (db : T) : gmap string string :=
  foldl (λ stats key, match dk_Property db key with Some str => <[key := str]> stats | None => stats end) ∅
    ["leveldb.num-files-at-level{n}"; "leveldb.stats"; "leveldb.sstables"; "leveldb.blockpool"; "leveldb.cachedblock";
     "leveldb.openedtables"; "leveldb.alivesnaps"; "leveldb.aliveiters"].

(** *** Batches *)

Definition newGoLevelDBBatch : diskBatch := {| batch := Some [] |}.
Definition Batch_Set (b : diskBatch) (key : bytes) (value : slice) : diskBatch * option db_error :=
  if zlen key =? 0 then (b, Some errKeyEmpty)
  else match value, batch b with
       | None, _ => (b, Some errValueNil)
       | _, None => (b, Some errBatchClosed)
       | Some v, Some l => ({| batch := Some (l ++ [opTypeSet key v]) |}, None)
       end.
Definition Batch_Delete (b : diskBatch) (key : bytes) : diskBatch * option db_error :=
  if zlen key =? 0 then (b, Some errKeyEmpty)
  else match batch b with
       | None => (b, Some errBatchClosed)
       | Some l => ({| batch := Some (l ++ [opTypeDelete key]) |}, None)
       end.
Definition Batch_Close (b : diskBatch) : diskBatch := {| batch := None |}.
Definition write (db : T) (b : diskBatch) (sync : bool) : T * diskBatch * option db_error :=
  match batch b with
  | None => (db, b, Some errBatchClosed)
  | Some l => match dk_Write db sync l with
              | (db, false) => (db, b, Some errIO)
              | (db, true) => (db, Batch_Close b, None)
              end
  end.
Definition Batch_Write (db : T) (b : diskBatch) := write db b false.
Definition Batch_WriteSync (db : T) (b : diskBatch) := write db b true.

(** *** Iterators *)

Definition newGoLevelDBIterator (source : Cu) (start end_ : slice) (isReverse : bool) : diskIterator Cu :=
  let source :=
    if isReverse then
      match end_ with
      | None => cu_Last source
      | Some e =>
          let source := cu_Seek source e in
          if cu_Valid source then
            match bytes_Compare e (cu_Key source) with Gt => source | _ => cu_Prev source end
          else cu_Last source
      end
    else match start with None => cu_First source | Some s => cu_Seek source s end in
  {| source := source; dStart := start; dEnd := end_; isReverse := isReverse; isInvalid := false |}.
Definition Iterator (db : T) (start end_ : slice) : diskIterator Cu + db_error :=
  if empty_slice start || empty_slice end_ then inr errKeyEmpty
  else inl (newGoLevelDBIterator (dk_NewIterator db start end_) start end_ false).
Definition ReverseIterator (db : T) (start end_ : slice) : diskIterator Cu + db_error :=
  if empty_slice start || empty_slice end_ then inr errKeyEmpty
  else inl (newGoLevelDBIterator (dk_NewIterator db start end_) start end_ true).
Definition Domain (itr : diskIterator Cu) : slice * slice := (dStart itr, dEnd itr).
Definition Error (itr : diskIterator Cu) : option db_error := io (negb (cu_Failed (source itr))).
(** The iterator afterwards, and the answer. *)
Definition Valid (itr : diskIterator Cu) : diskIterator Cu * bool :=
  if isInvalid itr then (itr, false)
  else match Error itr with
       | Some _ => (invalidate itr, false)
       | None =>
           if negb (cu_Valid (source itr)) then (invalidate itr, false)
           else
             let key := cu_Key (source itr) in
             if isReverse itr then
               match dStart itr with
               | Some start => match bytes_Compare key start with Lt => (invalidate itr, false) | _ => (itr, true) end
               | None => (itr, true)
               end
             else
               match dEnd itr with
               | Some end_ => match bytes_Compare end_ key with Gt => (itr, true) | _ => (invalidate itr, false) end
               | None => (itr, true)
               end
       end.
(** Its receiver is a copy: what [Valid] changes is lost. *)
Definition assertIsValid (itr : diskIterator Cu) : outcome unit := if snd (Valid itr) then Ret tt else Panic.
Definition Key (itr : diskIterator Cu) : outcome bytes := _ ← assertIsValid itr; Ret (cp (cu_Key (source itr))).
Definition Value (itr : diskIterator Cu) : outcome slice := _ ← assertIsValid itr; Ret (Some (cp (cu_Value (source itr)))).
Definition Next (itr : diskIterator Cu) : outcome (diskIterator Cu) :=
  _ ← assertIsValid itr;
  Ret (with_source itr (if isReverse itr then cu_Prev (source itr) else cu_Next (source itr))).
Definition Close (itr : diskIterator Cu) : diskIterator Cu * option db_error := (with_source itr (cu_Release (source itr)), None).
End LevelDB.
End GoLevelDB.

(** ** RocksDB *)

Module RocksDB.
Section RocksDB.
Context {T Cu : Type} {D : DiskOps T Cu}.

(** A slice of the library has data or does not exist. *)
Definition moveSliceToBytes (s : option bytes) : slice := match s with None => None | Some v => Some (cp v) end.
Definition Get (db : T) (key : bytes) : slice + db_error :=
  if zlen key =? 0 then inr errKeyEmpty
  else match dk_Get db key with
       | Failed => inr errIO
       | Found res => inl (moveSliceToBytes (Some res))
       | Missing => inl (moveSliceToBytes None)
       end.
Definition Has (db : T) (key : bytes) : bool + db_error :=
  match Get db key with inr e => inr e | inl bz => inl (bool_decide (is_Some bz)) end.
Definition Set_ (db : T) (key : bytes) (value : slice) : T * option db_error :=
  if zlen key =? 0 then (db, Some errKeyEmpty)
  else match value with
       | None => (db, Some errValueNil)
       | Some v => let '(db, ok) := dk_Put db false key v in (db, io ok)
       end.
Definition SetSync (db : T) (key : bytes) (value : slice) : T * option db_error :=
  if zlen key =? 0 then (db, Some errKeyEmpty)
  else match value with
       | None => (db, Some errValueNil)
       | Some v => let '(db, ok) := dk_Put db true key v in (db, io ok)
       end.
Definition Delete (db : T) (key : bytes) : T * option db_error :=
  if zlen key =? 0 then (db, Some errKeyEmpty)
  else let '(db, ok) := dk_Delete db false key in (db, io ok).
(** The error of the library is dropped. *)
Definition DeleteSync (db : T) (key : bytes) : T * option db_error :=
  if zlen key =? 0 then (db, Some errKeyEmpty)
  else let '(db, ok) := dk_Delete db true key in (db, None).
(** A property the library does not know is empty. *)
Definition Stats (db : T) : gmap string string :=
  foldl (λ stats key, <[key := default EmptyString (dk_Property db key)]> stats) ∅ ["rocksdb.stats"].

Definition newRocksDBBatch : diskBatch := {| batch := Some [] |}.
Definition Batch_Set (b : diskBatch) (key : bytes) (value : slice) : diskBatch * option db_error :=
  if zlen key =? 0 then (b, Some errKeyEmpty)
  else match value, batch b with
       | None, _ => (b, Some errValueNil)
       | _, None => (b, Some errBatchClosed)
       | Some v, Some l => ({| batch := Some (l ++ [opTypeSet key v]) |}, None)
       end.
Definition Batch_Delete (b : diskBatch) (key : bytes) : diskBatch * option db_error :=
  if zlen key =? 0 then (b, Some errKeyEmpty)
  else match batch b with
       | None => (b, Some errBatchClosed)
       | Some l => ({| batch := Some (l ++ [opTypeDelete key]) |}, None)
       end.
Definition Batch_Close (b : diskBatch) : diskBatch := {| batch := None |}.
Definition Batch_Write (db : T) (b : diskBatch) : T * diskBatch * option db_error :=
  match batch b with
  | None => (db, b, Some errBatchClosed)
  | Some l => match dk_Write db false l with
              | (db, false) => (db, b, Some errIO)
              | (db, true) => (db, Batch_Close b, None)
              end
  end.
Definition Batch_WriteSync (db : T) (b : diskBatch) : T * diskBatch * option db_error :=
  match batch b with
  | None => (db, b, Some errBatchClosed)
  | Some l => match dk_Write db true l with
              | (db, false) => (db, b, Some errIO)
              | (db, true) => (db, Batch_Close b, None)
              end
  end.

Definition source_key (c : Cu) : bytes := sbytes (moveSliceToBytes (Some (cu_Key c))).
Definition newRocksDBIterator (source : Cu) (start end_ : slice) (isReverse : bool) : diskIterator Cu :=
  let source :=
    if isReverse then
      match end_ with
      | None => cu_Last source
      | Some e =>
          let source := cu_Seek source e in
          if cu_Valid source then
            match bytes_Compare e (source_key source) with Gt => source | _ => cu_Prev source end
          else cu_Last source
      end
    else match start with None => cu_First source | Some s => cu_Seek source s end in
  {| source := source; dStart := start; dEnd := end_; isReverse := isReverse; isInvalid := false |}.
(** The cursor ranges over the whole database. *)
Definition Iterator (db : T) (start end_ : slice) : diskIterator Cu + db_error :=
  if empty_slice start || empty_slice end_ then inr errKeyEmpty
  else inl (newRocksDBIterator (dk_NewIterator db None None) start end_ false).
Definition ReverseIterator (db : T) (start end_ : slice) : diskIterator Cu + db_error :=
  if empty_slice start || empty_slice end_ then inr errKeyEmpty
  else inl (newRocksDBIterator (dk_NewIterator db None None) start end_ true).
Definition Domain (itr : diskIterator Cu) : slice * slice := (dStart itr, dEnd itr).
Definition Error (itr : diskIterator Cu) : option db_error := io (negb (cu_Failed (source itr))).
Definition Valid (itr : diskIterator Cu) : diskIterator Cu * bool :=
  if isInvalid itr then (itr, false)
  else if cu_Failed (source itr) then (invalidate itr, false)
  else if negb (cu_Valid (source itr)) then (invalidate itr, false)
  else
    let key := source_key (source itr) in
    if isReverse itr then
      match dStart itr with
      | Some start => match bytes_Compare key start with Lt => (invalidate itr, false) | _ => (itr, true) end
      | None => (itr, true)
      end
    else
      match dEnd itr with
      | Some end_ => match bytes_Compare end_ key with Gt => (itr, true) | _ => (invalidate itr, false) end
      | None => (itr, true)
      end.
(** An iterator that is not valid panics, so that what [Valid] changes is not
    seen. *)
Definition assertIsValid (itr : diskIterator Cu) : outcome unit := if snd (Valid itr) then Ret tt else Panic.
Definition Key (itr : diskIterator Cu) : outcome bytes :=
  _ ← assertIsValid itr; Ret (sbytes (moveSliceToBytes (Some (cu_Key (source itr))))).
Definition Value (itr : diskIterator Cu) : outcome slice :=
  _ ← assertIsValid itr; Ret (moveSliceToBytes (Some (cu_Value (source itr)))).
Definition Next (itr : diskIterator Cu) : outcome (diskIterator Cu) :=
  _ ← assertIsValid itr;
  Ret (with_source itr (if isReverse itr then cu_Prev (source itr) else cu_Next (source itr))).
Definition Close (itr : diskIterator Cu) : diskIterator Cu * option db_error := (with_source itr (cu_Release (source itr)), None).
End RocksDB.
End RocksDB.

(** ** The registry of backends

    [source/libs/db/db.go]: creators by name; a creator opens a database or
    fails. *)
Section Registry.
Context {DB : Type}.

Definition dbCreator : Type := string → string → option DB.
Inductive open_error := ErrUnknownBackend (known : list string) | ErrInitialize.
Definition registerDBCreator (backends : gmap string dbCreator) (backend : string) (creator : dbCreator) (force : bool) : gmap string dbCreator :=
  if negb force && bool_decide (is_Some (backends !! backend)) then backends else <[backend := creator]> backends.
Definition NewDB (backends : gmap string dbCreator) (name backend dir : string) : DB + open_error :=
  match backends !! backend with
  | None => inr (ErrUnknownBackend (map fst (map_to_list backends)))
  | Some creator => match creator name dir with None => inr ErrInitialize | Some db => inl db end
  end.

(** Registered without force, the first creator of a name is the one that is
    used, whatever is registered later. *)
Lemma registered_first_wins (backends : gmap string dbCreator) backend creator (later : list (string * dbCreator)) name dir :
  backends !! backend = None →
  NewDB (foldl (λ m bc, registerDBCreator m (fst bc) (snd bc) false) (registerDBCreator backends backend creator false) later) name backend dir =
    match creator name dir with None => inr ErrInitialize | Some db => inl db end.
Proof.
  intros Hn. assert (∀ m, m !! backend = Some creator → foldl (λ m bc, registerDBCreator m (fst bc) (snd bc) false) m later !! backend = Some creator) as Hall.
  { induction later as [|[b c] later IH]; intros m Hm; [done|]. cbn [foldl fst snd]. apply IH. unfold registerDBCreator. cbn [negb andb].
    case_bool_decide as Hb; [done|]. rewrite lookup_insert_ne; [done|]. intros ->. destruct Hb. by eexists. }
  unfold NewDB. rewrite Hall; [done|]. unfold registerDBCreator. cbn [negb andb]. rewrite bool_decide_eq_false_2; [by rewrite lookup_insert_eq|].
  rewrite Hn. by intros [].
Qed.
End Registry.
