(* ===== verification/DiskProofs.v ===== *)
(** * Databases on disk: correctness

    Both wrappers of [DiskDB] discharge the contracts of a database and of its
    iterators when the library below keeps its laws. *)

From stdpp Require Import base list gmap strings numbers sorting.
From Stdlib Require Import ZArith Lia.
From S2P Require Import Prelude Convert Store Iterators MemDB Batch DiskDB.

(** ** Ascending lists *)

Definition above (start : slice) (p : bytes * bytes) : bool :=
  match start with Some s => match bytes_Compare (fst p) s with Lt => false | _ => true end | None => true end.
Definition below (end_ : slice) (p : bytes * bytes) : bool :=
  match end_ with Some e => match bytes_Compare e (fst p) with Gt => true | _ => false end | None => true end.
Fixpoint take_while {A} (P : A → bool) (l : list A) : list A :=
  match l with [] => [] | x :: l' => if P x then x :: take_while P l' else [] end.

Definition ascending_pairs (l : list (bytes * bytes)) : Prop := StronglySorted key_lt (map fst l).

Lemma ascending_cons p l : ascending_pairs (p :: l) → ascending_pairs l ∧ ∀ q, q ∈ l → key_lt (fst p) (fst q).
Proof.
  intros [Hs Hall]%StronglySorted_inv. split; [done|]. rewrite Forall_forall in Hall. intros q Hq. apply Hall.
  by apply list_elem_of_fmap_2.
Qed.
Lemma ascending_split i l : ascending_pairs l → ascending_pairs (take i l) ∧ ascending_pairs (drop i l).
Proof.
  unfold ascending_pairs. intros Hs. rewrite <- (take_drop i l), map_app in Hs.
  split; [by eapply StronglySorted_app_1_l|by eapply StronglySorted_app_1_r].
Qed.
Lemma below_antitone end_ p q : key_lt (fst p) (fst q) → below end_ q = true → below end_ p = true.
Proof.
  destruct end_ as [e|]; [|done]. cbn. intros Hlt. destruct (bytes_Compare e (fst q)) eqn:E; [done..|]. intros _.
  rewrite bytes_Compare_antisym in E. rewrite bytes_Compare_antisym.
  destruct (bytes_Compare (fst q) e) eqn:E'; try done. by rewrite (bytes_Compare_trans _ _ _ Hlt E').
Qed.
Lemma above_monotone start p q : key_lt (fst p) (fst q) → above start p = true → above start q = true.
Proof.
  destruct start as [s|]; [|done]. cbn. intros Hlt. destruct (bytes_Compare (fst q) s) eqn:E; [done| |done].
  by rewrite (bytes_Compare_trans _ _ _ Hlt E).
Qed.
Lemma above_below k p : above (Some k) p = negb (below (Some k) p).
Proof. cbn. rewrite (bytes_Compare_antisym k). by destruct (bytes_Compare k (fst p)). Qed.
Lemma seek_below k p l : seek_index k (p :: l) = if below (Some k) p then Datatypes.S (seek_index k l) else O.
Proof. cbn. rewrite (bytes_Compare_antisym k). by destruct (bytes_Compare k (fst p)). Qed.

Lemma filter_nothing {A} (P : A → bool) l : (∀ x, x ∈ l → P x = false) → List.filter P l = [].
Proof.
  induction l as [|x l IH]; intros Hall; [done|]. cbn. rewrite Hall by (by left). apply IH. intros y Hy. apply Hall. by right.
Qed.
Lemma filter_whole {A} (P : A → bool) l : (∀ x, x ∈ l → P x = true) → List.filter P l = l.
Proof.
  induction l as [|x l IH]; intros Hall; [done|]. cbn. rewrite Hall by (by left). f_equal. apply IH. intros y Hy. apply Hall. by right.
Qed.
Lemma take_while_below end_ l : ascending_pairs l → take_while (below end_) l = List.filter (below end_) l.
Proof.
  induction l as [|p l IH]; [done|]. intros [Hs Hp]%ascending_cons. cbn [take_while List.filter]. destruct (below end_ p) eqn:E; [by rewrite IH|].
  symmetry. apply filter_nothing. intros q Hq. destruct (below end_ q) eqn:Eq; [|done].
  by rewrite (below_antitone end_ p q (Hp q Hq) Eq) in E.
Qed.
Lemma take_while_app {A} (P : A → bool) l1 l2 : (∀ x, x ∈ l1 → P x = true) → take_while P (l1 ++ l2) = l1 ++ take_while P l2.
Proof.
  induction l1 as [|x l1 IH]; intros Hall; [done|]. cbn. rewrite Hall by (by left). rewrite IH; [done|]. intros y Hy. apply Hall. by right.
Qed.
Lemma take_while_stop {A} (P : A → bool) l x : P x = false → take_while P (l ++ [x]) = take_while P l.
Proof. intros Hx. induction l as [|y l IH]; cbn; [by rewrite Hx|]. by rewrite IH. Qed.
Lemma take_while_above start l : ascending_pairs l → take_while (above start) (reverse l) = reverse (List.filter (above start) l).
Proof.
  induction l as [|p l IH]; [done|]. intros [Hs Hp]%ascending_cons. rewrite reverse_cons. cbn [List.filter]. destruct (above start p) eqn:E.
  - assert (∀ q, q ∈ l → above start q = true) as Hall by (intros q Hq; by eapply above_monotone; [apply Hp|]).
    rewrite take_while_app by (intros q Hq; apply Hall; by apply (proj1 (elem_of_reverse _ _)) in Hq). cbn [take_while]. rewrite E, reverse_cons. by rewrite filter_whole.
  - by rewrite take_while_stop, IH.
Qed.
Lemma seek_split k l : ascending_pairs l →
  drop (seek_index k l) l = List.filter (above (Some k)) l ∧ take (seek_index k l) l = List.filter (below (Some k)) l.
Proof.
  induction l as [|p l IH]; [done|]. intros [Hs Hp]%ascending_cons. destruct (IH Hs) as [IH1 IH2]. rewrite seek_below.
  cbn [List.filter]. rewrite above_below. destruct (below (Some k) p) eqn:E; cbn [negb drop take]; [by rewrite IH1, IH2|].
  assert (∀ q, q ∈ l → below (Some k) q = false) as Hall.
  { intros q Hq. destruct (below (Some k) q) eqn:Eq; [|done]. by rewrite (below_antitone _ p q (Hp q Hq) Eq) in E. }
  split; [|by rewrite filter_nothing]. rewrite filter_whole; [done|]. intros q Hq. by rewrite above_below, Hall.
Qed.
Lemma seek_whole k l : (seek_index k l ≤ length l)%nat.
Proof. induction l as [|p l IH]; cbn; [done|]. destruct (bytes_Compare (fst p) k); cbn; lia. Qed.

(** The pairs of a domain are those of a larger one inside its bounds. *)
Lemma domain_filter m s0 e0 start end_ l : domain_pairs m s0 e0 l → (s0 = None ∨ s0 = start) → (e0 = None ∨ e0 = end_) →
  domain_pairs m start end_ (List.filter (below end_) (List.filter (above start) l)).
Proof.
  intros [Hs Hin] Hs0 He0. split.
  - assert (∀ (P : bytes * bytes → bool) l, ascending_pairs l → ascending_pairs (List.filter P l)) as Hf.
    { clear. intros P l. induction l as [|p l IH]; [done|]. intros [Hs Hp]%ascending_cons. cbn. destruct (P p); [|by apply IH].
      constructor; [by apply IH|]. apply Forall_forall. intros k (q & -> & Hq)%list_elem_of_fmap.
      apply list_elem_of_In, filter_In in Hq as [Hq _]. apply Hp. by apply list_elem_of_In. }
    by apply Hf, Hf.
  - intros k v. rewrite list_elem_of_In, !filter_In, <- list_elem_of_In, Hin. unfold IsKeyInDomain.
    assert (∀ s, bytes_Compare k (sbytes s) = Lt ↔ above s (k, v) = false) as Ha.
    { intros [s|]; cbn; [by destruct (bytes_Compare k s)|]. by destruct k. }
    assert (∀ e, match e with Some e => match bytes_Compare e k with Gt => true | _ => false end | None => true end = below e (k, v)) as Hb by done.
    destruct (bytes_Compare k (sbytes start)) eqn:E; rewrite ?Hb; (destruct (above start (k, v)) eqn:Ea; [|try (by apply Ha in Ea; congruence)]);
      try (apply Ha in E; congruence); destruct Hs0 as [-> | ->], He0 as [-> | ->]; rewrite ?E; cbn [sbytes default];
      destruct (bytes_Compare k []) eqn:E0; try (by destruct k); naive_solver.
Qed.

(** ** Iterators *)

Section Disk.
Context {T Cu : Type} {D : DiskOps T Cu} {L : DiskLaws T Cu}.

(** What an iterator still has to yield. *)
Definition rest (itr : diskIterator Cu) : list (bytes * bytes) :=
  if isInvalid itr then []
  else match cu_pos (source itr) with
       | None => []
       | Some i =>
           if isReverse itr then take_while (above (dStart itr)) (reverse (take (i + 1) (cu_pairs (source itr))))
           else take_while (below (dEnd itr)) (drop i (cu_pairs (source itr)))
       end.

Lemma current_step (c : Cu) i : cu_pos c = Some i →
  drop i (cu_pairs c) = (cu_Key c, cu_Value c) :: drop (i + 1) (cu_pairs c) ∧
  reverse (take (i + 1) (cu_pairs c)) = (cu_Key c, cu_Value c) :: reverse (take i (cu_pairs c)).
Proof.
  intros Hp. pose proof (cu_current c i Hp) as E. split.
  - rewrite (drop_S _ _ _ E). by rewrite Nat.add_1_r.
  - rewrite Nat.add_1_r, (take_S_r _ _ _ E), reverse_app. done.
Qed.
Lemma place_drop i (l : list (bytes * bytes)) : match place i l with Some j => j = i ∧ (i < length l)%nat | None => drop i l = [] end.
Proof. unfold place. destruct (Nat.ltb_spec i (length l)); [done|]. by apply drop_ge. Qed.

Lemma Valid_rest (itr : diskIterator Cu) : snd (GoLevelDB.Valid itr) = true ↔ rest itr ≠ [].
Proof.
  unfold GoLevelDB.Valid, rest, GoLevelDB.Error. destruct (isInvalid itr); [done|]. rewrite cu_Failed_spec. cbn [negb io].
  destruct (cu_Valid (source itr)) eqn:Ev.
  2:{ cbn. destruct (cu_pos (source itr)) eqn:Ep; [|done]. assert (cu_Valid (source itr) = true) by (apply cu_Valid_spec; by eexists). congruence. }
  apply cu_Valid_spec in Ev as [i Ei]. rewrite Ei. destruct (current_step _ _ Ei) as [E1 E2]. rewrite E1, E2. cbn [negb]. destruct (isReverse itr).
  - cbn [take_while above fst]. destruct (dStart itr) as [s|]; cbn [above fst]; [|done]. by destruct (bytes_Compare _ s).
  - cbn [take_while below fst]. destruct (dEnd itr) as [e|]; cbn [below fst]; [|done]. by destruct (bytes_Compare e _).
Qed.
Lemma iterator_at_end (itr : diskIterator Cu) : rest itr = [] → GoLevelDB.Next itr = Panic ∧ GoLevelDB.Key itr = Panic ∧ GoLevelDB.Value itr = Panic.
Proof.
  intros Hr. unfold GoLevelDB.Next, GoLevelDB.Key, GoLevelDB.Value, GoLevelDB.assertIsValid.
  destruct (snd (GoLevelDB.Valid itr)) eqn:Ev; [|done]. by apply Valid_rest in Ev.
Qed.
Lemma iterator_step (itr : diskIterator Cu) k v l : rest itr = (k, v) :: l →
  GoLevelDB.Key itr = Ret k ∧ GoLevelDB.Value itr = Ret (Some v) ∧
  ∃ itr', GoLevelDB.Next itr = Ret itr' ∧ rest itr' = l ∧ GoLevelDB.Domain itr' = GoLevelDB.Domain itr.
Proof.
  intros Hr. assert (snd (GoLevelDB.Valid itr) = true) as Ev by (apply Valid_rest; by rewrite Hr).
  unfold GoLevelDB.Next, GoLevelDB.Key, GoLevelDB.Value, GoLevelDB.assertIsValid. rewrite Ev. cbn [mbind outcome_bind]. rewrite !cp_eq.
  unfold rest in Hr. destruct (isInvalid itr) eqn:Ei; [done|]. destruct (cu_pos (source itr)) as [i|] eqn:Ep; [|done].
  destruct (current_step _ _ Ep) as [E1 E2]. rewrite E1, E2 in Hr. cbn [take_while] in Hr.
  assert (k = cu_Key (source itr) ∧ v = cu_Value (source itr) ∧
    l = if isReverse itr then take_while (above (dStart itr)) (reverse (take i (cu_pairs (source itr))))
        else take_while (below (dEnd itr)) (drop (i + 1) (cu_pairs (source itr)))) as (-> & -> & ->).
  { destruct (isReverse itr); [destruct (above _ _)|destruct (below _ _)]; by simplify_eq. }
  split; [done|]. split; [done|]. eexists. split; [done|]. split; [|done]. unfold rest, with_source. cbn. rewrite Ei. destruct (isReverse itr).
  - destruct (cu_Prev_spec _ _ Ep) as [-> ->]. destruct i as [|i]; [by rewrite take_0|]. by rewrite Nat.add_1_r.
  - destruct (cu_Next_spec _ _ Ep) as [-> ->]. pose proof (place_drop (i + 1) (cu_pairs (source itr))) as Hd.
    destruct (place _ _) as [j|]; [by destruct Hd as [-> _]|by rewrite Hd].
Qed.

(** ** New iterators *)

Lemma new_forward c start end_ : ascending_pairs (cu_pairs c) →
  rest (GoLevelDB.newGoLevelDBIterator c start end_ false) = List.filter (below end_) (List.filter (above start) (cu_pairs c)).
Proof.
  intros Hs. unfold rest, GoLevelDB.newGoLevelDBIterator. cbn [isInvalid source isReverse dEnd].
  assert (∀ i, match place i (cu_pairs c) with None => [] | Some j => take_while (below end_) (drop j (cu_pairs c)) end =
    take_while (below end_) (drop i (cu_pairs c))) as Hp.
  { intros i. pose proof (place_drop i (cu_pairs c)) as Hd. destruct (place _ _) as [j|]; [by destruct Hd as [-> _]|by rewrite Hd]. }
  assert (∀ i, take_while (below end_) (drop i (cu_pairs c)) = List.filter (below end_) (drop i (cu_pairs c))) as Ht.
  { intros i. by apply take_while_below, ascending_split. }
  destruct start as [s|].
  - destruct (cu_Seek_spec c s) as [-> ->]. rewrite Hp, Ht. by rewrite (proj1 (seek_split s _ Hs)).
  - destruct (cu_First_spec c) as [-> ->]. rewrite Hp, Ht, drop_0. rewrite (filter_whole (above None)) by done. done.
Qed.
Lemma last_all (c : Cu) i : cu_pos (cu_Last c) = Some i → take (i + 1) (cu_pairs c) = cu_pairs c.
Proof.
  destruct (cu_Last_spec c) as [_ ->]. case_decide as Hn; [done|]. intros [= <-]. apply take_ge.
  destruct (cu_pairs c); [done|]. cbn. lia.
Qed.
Lemma last_none (c : Cu) : cu_pos (cu_Last c) = None → cu_pairs c = [].
Proof. destruct (cu_Last_spec c) as [_ ->]. by case_decide. Qed.
Lemma new_reverse c start end_ : ascending_pairs (cu_pairs c) →
  rest (GoLevelDB.newGoLevelDBIterator c start end_ true) = reverse (List.filter (above start) (List.filter (below end_) (cu_pairs c))).
Proof.
  intros Hs. unfold rest, GoLevelDB.newGoLevelDBIterator. cbn [isInvalid source isReverse dStart].
  assert (∀ l, ascending_pairs l → l = List.filter (below end_) (cu_pairs c) →
    take_while (above start) (reverse l) = reverse (List.filter (above start) (List.filter (below end_) (cu_pairs c)))) as Hw.
  { intros l Hl <-. by apply take_while_above. }
  assert (∀ c', cu_pairs c' = cu_pairs c → cu_pairs c = List.filter (below end_) (cu_pairs c) →
    match cu_pos (cu_Last c') with None => [] | Some i => take_while (above start) (reverse (take (i + 1) (cu_pairs (cu_Last c')))) end =
    reverse (List.filter (above start) (List.filter (below end_) (cu_pairs c)))) as Hlast.
  { intros c' Ec Hall. rewrite (proj1 (cu_Last_spec c')). destruct (cu_pos (cu_Last c')) as [i|] eqn:Ei.
    - rewrite (last_all c' i Ei), Ec. by apply Hw.
    - apply last_none in Ei. rewrite <- Ec, Ei. done. }
  destruct end_ as [e|]; [|by apply Hlast; [done|rewrite filter_whole]].
  destruct (cu_Seek_spec c e) as [Epairs Epos]. destruct (seek_split e _ Hs) as [Ea Eb].
  pose proof (place_drop (seek_index e (cu_pairs c)) (cu_pairs c)) as Hd. destruct (cu_Valid (cu_Seek c e)) eqn:Ev.
  - apply cu_Valid_spec in Ev as [j Ej]. rewrite Ej in Epos. rewrite <- Epos in Hd. destruct Hd as [-> Hlt].
    pose proof (cu_current _ _ Ej) as Ec. rewrite Epairs in Ec.
    assert (bytes_Compare e (cu_Key (cu_Seek c e)) ≠ Gt) as Hge.
    { assert ((cu_Key (cu_Seek c e), cu_Value (cu_Seek c e)) ∈ List.filter (above (Some e)) (cu_pairs c)) as Hin.
      { rewrite <- Ea. rewrite (drop_S _ _ _ Ec). by left. }
      apply list_elem_of_In, filter_In in Hin as [_ Hin]. rewrite above_below in Hin. cbn in Hin. by destruct (bytes_Compare e _). }
    replace (match bytes_Compare e (cu_Key (cu_Seek c e)) with Gt => cu_Seek c e | _ => cu_Prev (cu_Seek c e) end) with (cu_Prev (cu_Seek c e))
      by (by destruct (bytes_Compare e _)).
    destruct (cu_Prev_spec _ _ Ej) as [-> ->]. rewrite Epairs. destruct (seek_index e (cu_pairs c)) as [|j] eqn:Ejj.
    + rewrite <- Eb. by rewrite take_0.
    + apply Hw; [|by rewrite <- Eb, Nat.add_1_r]. by apply ascending_split.
  - apply Hlast; [done|]. destruct (place _ _) as [j|] eqn:Epl.
    + assert (cu_Valid (cu_Seek c e) = true) by (apply cu_Valid_spec; rewrite Epos; by eexists). congruence.
    + rewrite <- Eb. rewrite <- (take_drop (seek_index e (cu_pairs c)) (cu_pairs c)) at 1. by rewrite Hd, app_nil_r.
Qed.

(** ** The contracts *)

Lemma filter_swap {A} (P Q : A → bool) l : List.filter P (List.filter Q l) = List.filter Q (List.filter P l).
Proof.
  induction l as [|x l IH]; [done|]. cbn. destruct (P x) eqn:EP, (Q x) eqn:EQ; cbn; rewrite ?EP, ?EQ, IH; done.
Qed.
Lemma new_domain t c s0 e0 start end_ : domain_pairs (dk_map t) s0 e0 (cu_pairs c) → (s0 = None ∨ s0 = start) → (e0 = None ∨ e0 = end_) →
  domain_pairs (dk_map t) start end_ (rest (GoLevelDB.newGoLevelDBIterator c start end_ false)) ∧
  domain_pairs (dk_map t) start end_ (reverse (rest (GoLevelDB.newGoLevelDBIterator c start end_ true))).
Proof.
  intros Hd H1 H2. pose proof (proj1 Hd) as Hs. rewrite new_forward, new_reverse, reverse_involutive by done.
  rewrite (filter_swap (above start)). split; by eapply domain_filter.
Qed.
Lemma bounds_given start end_ : start ≠ Some [] → end_ ≠ Some [] → empty_slice start || empty_slice end_ = false.
Proof. destruct start as [[|]|], end_ as [[|]|]; done. Qed.
Lemma bounds_refused start end_ : start = Some [] ∨ end_ = Some [] → empty_slice start || empty_slice end_ = true.
Proof. intros [-> | ->]; cbn; [done|by rewrite orb_true_r]. Qed.

#[refine] Definition leveldb_store : KVStore T := {|
  kv_map := dk_map; kv_Get := GoLevelDB.Get; kv_Has := GoLevelDB.Has; kv_Set := GoLevelDB.Set_; kv_Delete := GoLevelDB.Delete
|}.
Proof.
  - done.
  - intros t k Hk. unfold GoLevelDB.Get. rewrite zlen_empty, bool_decide_false, dk_Get_spec by done. by destruct (dk_map t !! k).
  - done.
  - intros t k Hk. unfold GoLevelDB.Has, GoLevelDB.Get. rewrite zlen_empty, bool_decide_false, dk_Get_spec by done. by destruct (dk_map t !! k).
  - done.
  - intros t k Hk. unfold GoLevelDB.Set_. by rewrite zlen_empty, bool_decide_false.
  - intros t k v Hk. unfold GoLevelDB.Set_. rewrite zlen_empty, bool_decide_false by done.
    destruct (dk_Put_spec t false k v Hk) as (t' & -> & Hm). by exists t'.
  - done.
  - intros t k Hk. unfold GoLevelDB.Delete. rewrite zlen_empty, bool_decide_false by done.
    destruct (dk_Delete_spec t false k Hk) as (t' & -> & Hm). by exists t'.
Defined.
#[refine] Definition leveldb_iter : @IterStore T (diskIterator Cu) leveldb_store := {|
  it_rest := rest; db_Iterator := GoLevelDB.Iterator; db_ReverseIterator := GoLevelDB.ReverseIterator; it_Domain := GoLevelDB.Domain;
  it_Valid := λ it, snd (GoLevelDB.Valid it); it_Next := GoLevelDB.Next; it_Key := GoLevelDB.Key; it_Value := GoLevelDB.Value;
  it_Error := GoLevelDB.Error; it_Close := GoLevelDB.Close
|}.
Proof.
  - apply Valid_rest.
  - apply iterator_at_end.
  - apply iterator_step.
  - intros t start end_ He. unfold GoLevelDB.Iterator, GoLevelDB.ReverseIterator. by rewrite bounds_refused.
  - intros t start end_ H1 H2. unfold GoLevelDB.Iterator. rewrite bounds_given by done. eexists. split; [done|]. split; [done|].
    eapply new_domain; [apply dk_NewIterator_spec|by right..].
  - intros t start end_ H1 H2. unfold GoLevelDB.ReverseIterator. rewrite bounds_given by done. eexists. split; [done|]. split; [done|].
    eapply new_domain; [apply dk_NewIterator_spec|by right..].
Defined.

(** The operations of the two wrappers agree, but for the range of the cursor
    and for [DeleteSync]. *)
Lemma rocks_source_key (c : Cu) : RocksDB.source_key c = cu_Key c.
Proof. unfold RocksDB.source_key. cbn. apply cp_eq. Qed.
Lemma rocks_Valid (it : diskIterator Cu) : RocksDB.Valid it = GoLevelDB.Valid it.
Proof. unfold RocksDB.Valid, GoLevelDB.Valid, GoLevelDB.Error. rewrite rocks_source_key. by destruct (cu_Failed (source it)). Qed.
Lemma rocks_Key (it : diskIterator Cu) : RocksDB.Key it = GoLevelDB.Key it.
Proof. unfold RocksDB.Key, GoLevelDB.Key, RocksDB.assertIsValid. by rewrite rocks_Valid. Qed.
Lemma rocks_Value (it : diskIterator Cu) : RocksDB.Value it = GoLevelDB.Value it.
Proof. unfold RocksDB.Value, GoLevelDB.Value, RocksDB.assertIsValid. by rewrite rocks_Valid. Qed.
Lemma rocks_Next (it : diskIterator Cu) : RocksDB.Next it = GoLevelDB.Next it.
Proof. unfold RocksDB.Next, GoLevelDB.Next, RocksDB.assertIsValid. by rewrite rocks_Valid. Qed.
Lemma rocks_new (c : Cu) start end_ r : RocksDB.newRocksDBIterator c start end_ r = GoLevelDB.newGoLevelDBIterator c start end_ r.
Proof. unfold RocksDB.newRocksDBIterator, GoLevelDB.newGoLevelDBIterator. destruct end_ as [e|]; [|done]. cbv zeta. by rewrite rocks_source_key. Qed.
Lemma rocks_Get (t : T) k : RocksDB.Get t k = GoLevelDB.Get t k.
Proof. unfold RocksDB.Get, GoLevelDB.Get. destruct (zlen k =? 0); [done|]. destruct (dk_Get t k); cbn; [by rewrite cp_eq|done..]. Qed.

#[refine] Definition rocksdb_store : KVStore T := {|
  kv_map := dk_map; kv_Get := RocksDB.Get; kv_Has := RocksDB.Has; kv_Set := RocksDB.Set_; kv_Delete := RocksDB.Delete
|}.
Proof.
  - done.
  - intros t k. rewrite rocks_Get. apply (@kv_Get_spec _ leveldb_store).
  - done.
  - intros t k. unfold RocksDB.Has. rewrite rocks_Get. apply (@kv_Has_spec _ leveldb_store).
  - done.
  - apply (@kv_Set_nil _ leveldb_store).
  - apply (@kv_Set_spec _ leveldb_store).
  - done.
  - apply (@kv_Delete_spec _ leveldb_store).
Defined.
#[refine] Definition rocksdb_iter : @IterStore T (diskIterator Cu) rocksdb_store := {|
  it_rest := rest; db_Iterator := RocksDB.Iterator; db_ReverseIterator := RocksDB.ReverseIterator; it_Domain := RocksDB.Domain;
  it_Valid := λ it, snd (RocksDB.Valid it); it_Next := RocksDB.Next; it_Key := RocksDB.Key; it_Value := RocksDB.Value;
  it_Error := RocksDB.Error; it_Close := RocksDB.Close
|}.
Proof.
  - intros it. rewrite rocks_Valid. apply Valid_rest.
  - intros it. rewrite rocks_Next, rocks_Key, rocks_Value. apply iterator_at_end.
  - intros it k v l. rewrite rocks_Next, rocks_Key, rocks_Value. apply iterator_step.
  - intros t start end_ He. unfold RocksDB.Iterator, RocksDB.ReverseIterator. by rewrite bounds_refused.
  - intros t start end_ H1 H2. unfold RocksDB.Iterator. rewrite bounds_given, rocks_new by done. eexists. split; [done|]. split; [done|].
    eapply new_domain; [apply dk_NewIterator_spec|by left..].
  - intros t start end_ H1 H2. unfold RocksDB.ReverseIterator. rewrite bounds_given, rocks_new by done. eexists. split; [done|]. split; [done|].
    eapply new_domain; [apply dk_NewIterator_spec|by left..].
Defined.
End Disk.

(** ** Any backend of the contracts *)

Section Backend.
Context {S It : Type} {KV : KVStore S} {IS : IterStore S It}.
Definition store_op (s : S) (o : db_op) : S :=
  match o with OpSet k v => fst (kv_Set s k v) | OpDelete k => fst (kv_Delete s k) end.
Lemma store_history ops : ∀ s, kv_map (foldl store_op s ops) = foldl map_op (kv_map s) ops.
Proof.
  induction ops as [|o ops IH]; intros s; [done|]. cbn [foldl]. rewrite IH. f_equal. destruct o as [k [v|]|k]; cbn [store_op map_op].
  - case_decide as Hk; [subst k; by rewrite kv_Set_empty|]. destruct (kv_Set_spec s k v Hk) as (s' & -> & E). exact E.
  - destruct (decide (k = [])) as [->|Hk]; [by rewrite kv_Set_empty|by rewrite kv_Set_nil].
  - case_decide as Hk; [subst k; by rewrite kv_Delete_empty|]. destruct (kv_Delete_spec s k Hk) as (s' & -> & E). exact E.
Qed.
Lemma store_walk (it : It) fuel : (length (it_rest it) < fuel)%nat →
  walk it_Valid it_Next it_Key it_Value fuel it = Ret (Some (map (λ kv, (fst kv, Some (snd kv))) (it_rest it))).
Proof.
  intros Hf. apply (walk_list (λ _, True) it_Valid it_Next it_Key it_Value it_rest); [|..|done|done].
  - intros i _. apply it_Valid_spec.
  - intros i k v l _ E. destruct (it_step i k v l E) as (Ek & Ev & i' & En & El & _). eauto 10.
Qed.
(** What a caller sees of a database that holds [m]. *)
Definition reads_as (s : S) (m : gmap bytes bytes) : Prop :=
  (∀ k, k ≠ [] → kv_Get s k = inl (m !! k) ∧ kv_Has s k = inl (bool_decide (is_Some (m !! k)))) ∧
  (∀ start end_, start = Some [] ∨ end_ = Some [] →
     db_Iterator s start end_ = inr errKeyEmpty ∧ db_ReverseIterator s start end_ = inr errKeyEmpty) ∧
  (∀ start end_, start ≠ Some [] → end_ ≠ Some [] →
     ∃ it rit l, db_Iterator s start end_ = inl it ∧ db_ReverseIterator s start end_ = inl rit ∧ domain_pairs m start end_ l ∧
       ∀ fuel, (length l < fuel)%nat →
         walk it_Valid it_Next it_Key it_Value fuel it = Ret (Some (map (λ kv, (fst kv, Some (snd kv))) l)) ∧
         walk it_Valid it_Next it_Key it_Value fuel rit = Ret (Some (map (λ kv, (fst kv, Some (snd kv))) (reverse l)))).
Lemma store_reads s : reads_as s (kv_map s).
Proof.
  split_and!.
  - intros k Hk. split; [by apply kv_Get_spec|by apply kv_Has_spec].
  - intros start end_. apply db_Iterator_empty.
  - intros start end_ H1 H2. destruct (db_Iterator_spec s start end_ H1 H2) as (it & Ei & _ & Hd).
    destruct (db_ReverseIterator_spec s start end_ H1 H2) as (rit & Er & _ & Hr).
    pose proof (domain_pairs_unique _ _ _ _ _ Hr Hd) as E. exists it, rit, (it_rest it). split; [done|]. split; [done|]. split; [done|].
    intros fuel Hf. split; [by apply store_walk|]. rewrite <- E, reverse_involutive. apply store_walk. by rewrite <- E, length_reverse in Hf.
Qed.
End Backend.

(** ** The backends *)

Section Theorems.
Context {T Cu : Type} {D : DiskOps T Cu} {L : DiskLaws T Cu}.

(** The same operations put into a batch. *)
Definition batch_op (b : diskBatch) (o : db_op) : diskBatch :=
  match o with OpSet k v => fst (GoLevelDB.Batch_Set b k v) | OpDelete k => fst (GoLevelDB.Batch_Delete b k) end.
Definition rocks_batch_op (b : diskBatch) (o : db_op) : diskBatch :=
  match o with OpSet k v => fst (RocksDB.Batch_Set b k v) | OpDelete k => fst (RocksDB.Batch_Delete b k) end.
Definition batch_effect (m : gmap bytes bytes) (l : list operation) : gmap bytes bytes :=
  foldl (λ m o, match o with opTypeSet k v => <[k := v]> m | opTypeDelete k => delete k m end) m l.
Lemma batch_history ops : ∀ l, Forall (λ o, op_key o ≠ []) l → ∃ l', Forall (λ o, op_key o ≠ []) l' ∧ foldl batch_op {| batch := Some l |} ops = {| batch := Some l' |} ∧
  ∀ m, batch_effect m l' = foldl map_op (batch_effect m l) ops.
Proof.
  induction ops as [|o ops IH]; intros l Hk0; [by exists l|]. cbn [foldl].
  assert (∃ l1, Forall (λ o, op_key o ≠ []) l1 ∧ batch_op {| batch := Some l |} o = {| batch := Some l1 |} ∧ ∀ m, batch_effect m l1 = map_op (batch_effect m l) o) as (l1 & Hk1 & -> & E1).
  { destruct o as [k [v|]|k]; cbn [batch_op map_op]; unfold GoLevelDB.Batch_Set, GoLevelDB.Batch_Delete; rewrite zlen_empty.
    - destruct (decide (k = [])) as [->|Hk]; [by exists l|]. rewrite bool_decide_false by done. eexists. split; [|split; [done|]].
      + apply Forall_app. split; [done|]. by constructor.
      + intros m. unfold batch_effect. by rewrite foldl_app.
    - exists l. split; [done|]. split; [|done]. by destruct (bool_decide _).
    - destruct (decide (k = [])) as [->|Hk]; [by exists l|]. rewrite bool_decide_false by done. eexists. split; [|split; [done|]].
      + apply Forall_app. split; [done|]. by constructor.
      + intros m. unfold batch_effect. by rewrite foldl_app. }
  destruct (IH l1 Hk1) as (l' & Hk' & -> & E). exists l'. split; [done|]. split; [done|]. intros m. by rewrite E, E1.
Qed.

(** C28. The two databases on disk are interchangeable with a map and so with each
    other: after whatever writes, empty keys and nil values included, done one
    by one or collected in a batch that is then written, each holds what a map
    would hold; reading returns it, and walking an iterator visits exactly the
    pairs of the domain in ascending order, a reverse iterator in descending
    order; empty bounds are refused.  A written batch is closed. *)
Theorem disk_backends_refine_map (t : T) (ops : list db_op) :
  let m := foldl map_op (dk_map t) ops in
  @reads_as T (diskIterator Cu) leveldb_store leveldb_iter (foldl (@store_op _ leveldb_store) t ops) m ∧
  @reads_as T (diskIterator Cu) rocksdb_store rocksdb_iter (foldl (@store_op _ rocksdb_store) t ops) m ∧
  (∃ t', GoLevelDB.Batch_Write t (foldl batch_op GoLevelDB.newGoLevelDBBatch ops) = (t', {| batch := None |}, None) ∧
     @reads_as T (diskIterator Cu) leveldb_store leveldb_iter t' m) ∧
  (∃ t', RocksDB.Batch_WriteSync t (foldl rocks_batch_op RocksDB.newRocksDBBatch ops) = (t', {| batch := None |}, None) ∧
     @reads_as T (diskIterator Cu) rocksdb_store rocksdb_iter t' m).
Proof.
  intros m. destruct (batch_history ops [] ltac:(constructor)) as (l & Hk & El & Hl). split_and!.
  - replace m with (@kv_map _ leveldb_store (foldl (@store_op _ leveldb_store) t ops)) by exact (store_history ops t). apply store_reads.
  - replace m with (@kv_map _ rocksdb_store (foldl (@store_op _ rocksdb_store) t ops)) by exact (store_history ops t). apply store_reads.
  - unfold GoLevelDB.Batch_Write, GoLevelDB.write. change GoLevelDB.newGoLevelDBBatch with {| batch := Some [] |}. rewrite El. cbn [batch].
    destruct (dk_Write_spec t false l Hk) as (t' & -> & Em). exists t'. split; [done|]. pose proof (Hl (dk_map t)) as E. change (batch_effect (dk_map t) l = m) in E.
    unfold batch_effect in E. rewrite <- Em in E. rewrite <- E. apply (@store_reads _ _ leveldb_store).
  - unfold RocksDB.Batch_WriteSync. change (foldl rocks_batch_op RocksDB.newRocksDBBatch ops) with (foldl batch_op {| batch := Some [] |} ops).
    rewrite El. cbn [batch]. destruct (dk_Write_spec t true l Hk) as (t' & -> & Em). exists t'. split; [done|].
    pose proof (Hl (dk_map t)) as E. change (batch_effect (dk_map t) l = m) in E.
    unfold batch_effect in E. rewrite <- Em in E. rewrite <- E. apply (@store_reads _ _ rocksdb_store).
Qed.
End Theorems.

(** ** Failures of the library *)

Section Failures.
Context {T Cu : Type} {D : DiskOps T Cu}.

(** An iterator whose cursor failed is invalid from the first question on,
    whatever the cursor does afterwards, and reading from it panics. *)
Theorem failed_cursor_invalid (it : diskIterator Cu) (c : Cu) (Hf : cu_Failed (source it) = true) :
  (snd (GoLevelDB.Valid it) = false ∧ snd (GoLevelDB.Valid (with_source (fst (GoLevelDB.Valid it)) c)) = false ∧
   GoLevelDB.Error it = Some errIO ∧ GoLevelDB.Key it = Panic ∧ GoLevelDB.Next it = Panic) ∧
  (snd (RocksDB.Valid it) = false ∧ snd (RocksDB.Valid (with_source (fst (RocksDB.Valid it)) c)) = false ∧
   RocksDB.Error it = Some errIO ∧ RocksDB.Key it = Panic ∧ RocksDB.Next it = Panic).
Proof.
  assert (GoLevelDB.Error it = Some errIO) as E by (unfold GoLevelDB.Error; by rewrite Hf).
  assert (snd (GoLevelDB.Valid it) = false ∧ isInvalid (fst (GoLevelDB.Valid it)) = true) as [E1 E2].
  { unfold GoLevelDB.Valid. rewrite E. by destruct (isInvalid it) eqn:Ei. }
  assert (∀ it' : diskIterator Cu, isInvalid it' = true → snd (GoLevelDB.Valid (with_source it' c)) = false) as E3.
  { intros it' Hi. unfold GoLevelDB.Valid, with_source. cbn [isInvalid]. by rewrite Hi. }
  rewrite rocks_Key, rocks_Next, !rocks_Valid.
  unfold GoLevelDB.Key, GoLevelDB.Next, GoLevelDB.assertIsValid. rewrite E1. cbn [mbind outcome_bind].
  split; (split; [done|]; split; [by apply E3|done]).
Qed.

(** A synced deletion that fails in the library is reported by the LevelDB
    wrapper and not by the RocksDB wrapper. *)
Theorem RocksDB_DeleteSync_silent (t t' : T) (k : bytes) (Hk : k ≠ []) (Hf : dk_Delete t true k = (t', false)) :
  GoLevelDB.DeleteSync t k = (t', Some errIO) ∧ RocksDB.DeleteSync t k = (t', None).
Proof. unfold GoLevelDB.DeleteSync, RocksDB.DeleteSync. rewrite zlen_empty, bool_decide_false by done. by rewrite Hf. Qed.
End Failures.

(** ** A disk

    The in-memory database stands for a disk library where a concrete one is
    needed; synced deletions fail. *)
Module MemDisk.
#[local] Existing Instance ListTree.list_tree.
#[local] Existing Instance memdb_store.
#[local] Existing Instance memdb_iter.

Record cursor := { pairs : list (bytes * bytes); pos : option nat }.
Definition move (c : cursor) (p : option nat) : cursor := {| pairs := pairs c; pos := p |}.
Definition at_pos (c : cursor) : bytes * bytes := default ([], []) (i ← pos c; pairs c !! i).
(** The pairs of a range; an empty start is no bound. *)
Definition range_pairs (t : GoodDB) (start limit : slice) : list (bytes * bytes) :=
  if decide (limit = Some []) then []
  else match db_Iterator t (if decide (start = Some []) then None else start) limit with inl it => it_rest it | inr _ => [] end.
Definition apply (t : GoodDB) (o : operation) : GoodDB :=
  match o with opTypeSet k v => fst (kv_Set t k (Some v)) | opTypeDelete k => fst (kv_Delete t k) end.
(** Cursors keep a place of their list. *)
Definition place_ok (c : cursor) : Prop := match pos c with Some i => (i < length (pairs c))%nat | None => True end.
Definition good_cursor : Type := { c : cursor | place_ok c }.

Definition prev_place (c : cursor) : option nat := match pos c with Some (Datatypes.S j) => Some j | _ => None end.
Lemma none_ok c : place_ok (move c None).
Proof. done. Qed.
Lemma at_place_ok c i : place_ok (move c (place i (pairs c))).
Proof. unfold place_ok, place. cbn [pos pairs move]. destruct (Nat.ltb_spec i (length (pairs c))); cbn; [done|exact I]. Qed.
Lemma last_ok c : place_ok (move c (if decide (pairs c = []) then None else Some (length (pairs c) - 1)%nat)).
Proof. unfold place_ok. cbn. case_decide; [done|]. destruct (pairs c); [done|]. cbn. lia. Qed.
Lemma prev_ok c : place_ok c → place_ok (move c (prev_place c)).
Proof. unfold place_ok, prev_place. cbn. destruct (pos c) as [[|j]|]; cbn; intros; [done|lia|done]. Qed.

(** [sync_fails]: whether synced deletions fail. *)
Definition disk_ops (sync_fails : bool) : DiskOps GoodDB good_cursor := {|
  dk_Get := λ t k, match kv_map t !! k with Some v => Found v | None => Missing end;
  dk_Put := λ t _ k v, (fst (kv_Set t k (Some v)), true);
  dk_Delete := λ t sync k, if sync_fails && sync then (t, false) else (fst (kv_Delete t k), true);
  dk_Write := λ t _ ops, (foldl apply t ops, true);
  dk_Property := λ _ _, None;
  dk_NewIterator := λ t start limit, exist place_ok {| pairs := range_pairs t start limit; pos := None |} I;
  cu_First := λ c, exist _ _ (at_place_ok (proj1_sig c) 0);
  cu_Last := λ c, exist _ _ (last_ok (proj1_sig c));
  cu_Seek := λ c k, exist _ _ (at_place_ok (proj1_sig c) (seek_index k (pairs (proj1_sig c))));
  cu_Next := λ c, exist _ _ (at_place_ok (proj1_sig c) (default O (pos (proj1_sig c)) + 1)%nat);
  cu_Prev := λ c, exist _ _ (prev_ok (proj1_sig c) (proj2_sig c));
  cu_Valid := λ c, bool_decide (is_Some (pos (proj1_sig c)));
  cu_Key := λ c, fst (at_pos (proj1_sig c));
  cu_Value := λ c, snd (at_pos (proj1_sig c));
  cu_Failed := λ _, false;
  cu_Release := λ c, c
|}.
Lemma range_pairs_spec t start limit : domain_pairs (kv_map t) start limit (range_pairs t start limit).
Proof.
  unfold range_pairs. case_decide as Hl.
  - subst limit. split; [constructor|]. intros k v. split; [by intros ?%elem_of_nil|]. intros [_ Hd]. exfalso. revert Hd. unfold IsKeyInDomain.
    destruct (bytes_Compare k (sbytes start)), k; done.
  - set (start' := if decide (start = Some []) then None else start).
    assert (start' ≠ Some []) as Hs by (unfold start'; by case_decide).
    destruct (db_Iterator_spec t start' limit Hs Hl) as (it & -> & _ & Hd).
    assert (sbytes start' = sbytes start) as E by (unfold start'; case_decide as Hd'; [by rewrite Hd'|done]).
    unfold domain_pairs in *. by rewrite E in Hd.
Qed.
Lemma apply_all ops : Forall (λ o, op_key o ≠ []) ops → ∀ t, kv_map (foldl apply t ops) = batch_effect (kv_map t) ops.
Proof.
  induction 1 as [|o ops Ho _ IH]; intros t; [done|]. cbn [foldl]. rewrite IH. unfold batch_effect. cbn [foldl]. f_equal.
  destruct o as [k v|k]; cbn [apply op_key] in *.
  - destruct (kv_Set_spec t k v Ho) as (t' & -> & E). exact E.
  - destruct (kv_Delete_spec t k Ho) as (t' & -> & E). exact E.
Qed.
#[refine] Definition disk_laws : @DiskLaws GoodDB good_cursor (disk_ops false) := {|
  dk_map := kv_map; cu_pairs := λ c, pairs (proj1_sig c); cu_pos := λ c, pos (proj1_sig c)
|}.
Proof.
  - done.
  - intros t s k v Hk. destruct (kv_Set_spec t k v Hk) as (t' & E & Em). exists t'. split; [|done].
    change ((fst (kv_Set t k (Some v)), true) = (t', true)). by rewrite E.
  - intros t s k Hk. destruct (kv_Delete_spec t k Hk) as (t' & E & Em). exists t'. split; [|done].
    change ((fst (kv_Delete t k), true) = (t', true)). by rewrite E.
  - intros t s ops Hops. exists (foldl apply t ops). split; [done|]. by apply apply_all.
  - intros t start limit. apply range_pairs_spec.
  - done.
  - done.
  - done.
  - intros [c Hc] i E. cbn in *. by rewrite E.
  - intros [c Hc] i E. unfold prev_place. cbn in *. unfold prev_place. by rewrite E.
  - intros c. apply bool_decide_eq_true.
  - intros [c Hc] i E. cbn in *. unfold at_pos. unfold place_ok in Hc. rewrite E in *. cbn.
    destruct (lookup_lt_is_Some_2 _ _ Hc) as [[k v] Elk]. by rewrite Elk.
  - done.
Defined.

Definition some_ops : list db_op := [OpSet [98] (Some [2]); OpSet [97] (Some [1]); OpSet [] (Some [3]); OpSet [99] None; OpSet [98] (Some [4]); OpDelete [97]].
Definition empty_disk : GoodDB := exist _ NewMemDB (List.Forall_nil _).
Lemma disk_backends_refine_map_witness :
  let m : gmap bytes bytes := foldl map_op ∅ some_ops in
  m !! [98] = Some [4] ∧ m !! [97] = None ∧
  ∃ t', @GoLevelDB.Batch_Write _ _ (disk_ops false) empty_disk (foldl batch_op GoLevelDB.newGoLevelDBBatch some_ops) = (t', {| batch := None |}, None) ∧
    @reads_as GoodDB (diskIterator good_cursor) (@leveldb_store _ _ _ disk_laws) (@leveldb_iter _ _ _ disk_laws) t' m.
Proof.
  destruct (@disk_backends_refine_map _ _ _ disk_laws empty_disk some_ops) as (_ & _ & Hb & _).
  split; [vm_compute; reflexivity|]. split; [vm_compute; reflexivity|]. exact Hb.
Defined.
Lemma RocksDB_DeleteSync_silent_witness :
  @RocksDB.DeleteSync _ _ (disk_ops true) empty_disk [97] = (empty_disk, None) ∧
  @GoLevelDB.DeleteSync _ _ (disk_ops true) empty_disk [97] = (empty_disk, Some errIO).
Proof.
  destruct (@RocksDB_DeleteSync_silent _ _ (disk_ops true) empty_disk empty_disk [97]) as [H1 H2]; [done|reflexivity|]. split; [exact H2|exact H1].
Defined.
End MemDisk.
