(* ===== verification/Receipt.v ===== *)
(** * Execution receipts

    Models [source/urd/types/abci_response.go]: what the application reports
    for a transaction, and its protobuf form. *)

From stdpp Require Import base list gmap strings numbers.
From Stdlib Require Import ZArith Lia.
From S2P Require Import Prelude Signer.

Definition RCodeTypeNone : Z := 0.
Definition RCodeTypeOK : Z := 1.
Definition RCodeTypeEncodingError : Z := 2.
Definition RCodeTypeAbort : Z := 3.
Definition RCodeTypeUnknownError : Z := 4.

(** [string(b)]: the bytes of a string are kept as they are. *)
Definition bytes_str (b : bytes) : string :=
  String.string_of_list_ascii (map (λ z, Ascii.ascii_of_N (Z.to_N z)) b).

Lemma str_bytes_str b : wf_bytes b → str_bytes (bytes_str b) = b.
Proof.
  unfold str_bytes, bytes_str. rewrite String.list_ascii_of_string_of_list_ascii.
  induction 1 as [|z b Hz _ IH]; [done|]. simpl. rewrite IH. f_equal.
  unfold is_byte in Hz. rewrite Ascii.N_ascii_embedding by lia. lia.
Qed.

(** [sort.Strings]. *)
Fixpoint insert_string (s : string) (l : list string) : list string :=
  match l with
  | [] => [s]
  | t :: l' => if str_leb s t then s :: l else t :: insert_string s l'
  end.
Fixpoint sort_Strings (l : list string) : list string :=
  match l with
  | [] => []
  | s :: l' => insert_string s (sort_Strings l')
  end.

Lemma insert_string_perm s l : insert_string s l ≡ₚ s :: l.
Proof.
  induction l as [|t l IH]; [done|]. simpl. destruct (str_leb s t); [done|].
  rewrite IH. apply Permutation_swap.
Qed.
Lemma sort_Strings_perm l : sort_Strings l ≡ₚ l.
Proof. induction l as [|s l IH]; [done|]. simpl. by rewrite insert_string_perm, IH. Qed.

(** [Options] is a nil map until [SetRawTx] makes one. *)
Record ABCIExecutionReceipt := {
  rCode : Z;
  rLog : string;
  rInfo : string;
  rOptions : option (gmap string string)
}.

Record PReceipt := {
  prCode : Z; prLog : string; prInfo : string; prOptionKey : list string; prOptionValue : list string
}.

Definition rawTx_key : string := "rawTx".

Definition SetRawTx (r : ABCIExecutionReceipt) (tx : bytes) : ABCIExecutionReceipt :=
  {| rCode := rCode r; rLog := rLog r; rInfo := rInfo r;
     rOptions := Some (<[rawTx_key := bytes_str tx]> (default ∅ (rOptions r))) |}.
Definition GetRawTx (r : ABCIExecutionReceipt) : bytes :=
  match rOptions r with
  | None => []
  | Some m => str_bytes (default EmptyString (m !! rawTx_key))
  end.
Definition Receipt_IsOK (r : ABCIExecutionReceipt) : bool := rCode r =? RCodeTypeOK.

(** The second loop ranges over the key list as it was and appends to it. *)
Definition Receipt_ToProto (r : ABCIExecutionReceipt) : PReceipt :=
  let opts := default ∅ (rOptions r) in
  let opKeyList := sort_Strings (map fst (map_to_list opts)) in
  let opKeyList' := opKeyList ++ map (λ key, default EmptyString (opts !! key)) opKeyList in
  {| prCode := int32 (rCode r); prLog := rLog r; prInfo := rInfo r;
     prOptionKey := opKeyList'; prOptionValue := [] |}.

Fixpoint options_loop (keys : list string) (i : Z) (values : list string) (opMap : gmap string string)
    : outcome (gmap string string) :=
  match keys with
  | [] => Ret opMap
  | key :: keys' => v ← idx values i; options_loop keys' (i + 1) values (<[key := v]> opMap)
  end.
Definition NewABCIReceiptFromProto (p : PReceipt) : outcome ABCIExecutionReceipt :=
  opMap ← options_loop (prOptionKey p) 0 (prOptionValue p) ∅;
  Ret {| rCode := int8 (prCode p); rLog := prLog p; rInfo := prInfo p; rOptions := Some opMap |}.

Section Bytes.
Context {C : ProtoCodec PReceipt}.
Definition Receipt_ProtoBytes (r : ABCIExecutionReceipt) : outcome bytes := MustProtoBytes (Receipt_ToProto r).
Definition NewABCIReceiptFromBytes (bz : bytes) : outcome (option ABCIExecutionReceipt) :=
  match unmarshal bz with
  | None => Ret None
  | Some p => r ← NewABCIReceiptFromProto p; Ret (Some r)
  end.
End Bytes.

(** A receipt read back from its protobuf form panics exactly when it has an
    option: the values are appended to the key list, so the value list is
    empty. Without options it is read back. *)
Theorem Receipt_ToProto_loses_options (r : ABCIExecutionReceipt) (Hc : -128 ≤ rCode r < 128) :
  NewABCIReceiptFromProto (Receipt_ToProto r) =
    if decide (default ∅ (rOptions r) = ∅)
    then Ret {| rCode := rCode r; rLog := rLog r; rInfo := rInfo r; rOptions := Some ∅ |}
    else Panic.
Proof.
  unfold NewABCIReceiptFromProto, Receipt_ToProto. cbn [prOptionKey prOptionValue prCode prLog prInfo].
  destruct (decide _) as [->|Hne].
  - rewrite map_to_list_empty. cbn. do 2 f_equal.
    rewrite (wrapS_small 32), (wrapS_small 8); lia.
  - pose proof (sort_Strings_perm (map fst (map_to_list (default ∅ (rOptions r))))) as Hp.
    destruct (sort_Strings _) as [|k ks]; [|done]. exfalso. apply Hne.
    apply Permutation_nil_l in Hp. symmetry in Hp. apply map_eq_nil in Hp. by apply map_to_list_empty_iff.
Qed.

Lemma Receipt_ToProto_loses_options_witness :
  NewABCIReceiptFromProto (Receipt_ToProto
    (SetRawTx {| rCode := 1; rLog := ""; rInfo := ""; rOptions := None |} [6; 0; 0; 0])) = Panic.
Proof.
  rewrite (Receipt_ToProto_loses_options (SetRawTx {| rCode := 1; rLog := ""; rInfo := ""; rOptions := None |}
    [6; 0; 0; 0]) ltac:(cbn; lia)).
  reflexivity.
Defined.

(** The raw transaction set in a receipt is read back. *)
Lemma SetRawTx_GetRawTx r tx : wf_bytes tx → GetRawTx (SetRawTx r tx) = tx.
Proof.
  intros Hw. unfold GetRawTx, SetRawTx. cbn [rOptions]. rewrite lookup_insert_eq. by apply str_bytes_str.
Qed.
