(* ===== verification/UrdTypes.v ===== *)
(** * Blocks and cross-shard data

    Models [source/urd/types]: transaction lists and their proofs ([txs.go]),
    commit intentions ([commit_intention.go]), commit certificates
    ([commit_certificate.go]), cross-shard messages ([cross_shard_data.go]) and
    blocks ([block.go], [type_convert.go]).

    Pointers that the code tests or may leave nil are options, and dereferencing
    a nil one is a panic.  Lists of pointers hold values: their entries come
    from addresses of fresh values or from unmarshalling, which allocates every
    element of a repeated field.  Hash caches are fields that the operations
    update.  The protobuf runtime is the class [UrdWire]. *)

From stdpp Require Import base list gmap strings numbers.
From Stdlib Require Import ZArith Lia.
From S2P Require Import Prelude Convert BitVector Hash Merkle Wire Signer HotStuff.

(** ** Data *)

(** [Txs]: the code distinguishes a nil list from an empty one. *)
Abbreviation Txs := (option (list bytes)).
Definition txs_list (t : Txs) : list bytes := default [] t.
Abbreviation IntentionBrief := (list bytes).

Record OutputTxsProof := { BlockProof : option MerkleProof; OPTProof : option MerkleProof }.

Record CommitIntention := {
  IntentionHash : IntentionBrief;
  AggregatedSignatures : list AggregatedVote;
  ci_leftHash : bytes;
  ci_rightHash : bytes
}.

Record ProofOfIntention := { IntentionHashProof : option MerkleProof; RightHash : bytes }.

Record CommitCertificateCore := {
  coreHash : bytes;
  MKProof : ProofOfIntention;
  coreBrief : IntentionBrief
}.
Abbreviation CommitCertificate := (list CommitCertificateCore).

Record CrossShardMessage := {
  SourceChain : string;
  csmAggVote : option AggregatedVote;
  csmBrief : IntentionBrief;
  csmPOI : option ProofOfIntention;
  OPTXs : Txs;
  csmOTP : option OutputTxsProof
}.

Record Header := {
  HashPointer : bytes;
  ChainID : string;
  hdView : Z;
  hdRound : Z;
  hdTime : GoTime;
  PrepareRoot : bytes;
  CrossShardRoot : bytes;
  OutputTxsRoot : bytes;
  LastAggSigRoot : bytes;
  CommitIntentionRoot : bytes;
  CommitCertificateRoot : bytes;
  CommitTxsListRoot : bytes;
  StateRoot : bytes;
  hd_hash : bytes;
  mkproof : list MerkleProof
}.

Record Block := {
  bHeader : Header;
  PTXS : Txs;
  CrossShardTxs : Txs;
  OPT : list bytes;
  AggSigVote : option AggregatedVote;
  CI : option CommitIntention;
  CC : CommitCertificate;
  CTXS : list Txs;
  CTXSProof : list (option OutputTxsProof)
}.

(** ** Protobuf messages ([proto/urd/types/block.proto])

    A repeated field or byte string is empty exactly when it is absent. *)
Record PTxs := { pTxs : list bytes }.
Record POutputTxsProof := { pBlockProof : option PProof; pOPTProof : option PProof }.
Record PCommitIntention := {
  pIntentionHash : list bytes; pAggregatedSignatures : list PAggregatedVote }.
Record PProofOfIntention := { pIntentionHashProof : option PProof; pRightHash : bytes }.
Record PCommitCertificateCore := {
  pcHash : bytes; pcMKProof : option PProofOfIntention; pcIntentionBrief : list bytes }.
Record PCommitCertificate := { pCores : list PCommitCertificateCore }.
Record PHeader := {
  phHashPointer : bytes; phChainID : string; phView : Z; phRound : Z; phTime : option PTimestamp;
  phPrepareRoot : bytes; phOutputTxsRoot : bytes; phLastAggSigRoot : bytes;
  phCommitIntentionRoot : bytes; phCommitCertificateRoot : bytes; phCommitTxsRoot : bytes;
  phStateRoot : bytes }.
Record PBlock := {
  pbHeader : option PHeader; pbPrepareTxs : option PTxs; pbCrossShardTxs : option PTxs;
  pbOPT : list bytes; pbAggSigVote : option PAggregatedVote; pbCI : option PCommitIntention;
  pbCC : option PCommitCertificate; pbCTXS : list PTxs; pbCTXSProof : list POutputTxsProof }.
Record PCrossShardMessage := {
  pSourceChain : string; pcsAggVote : option PAggregatedVote; pcsIntentionBrief : list bytes;
  pProofOfIntention : option PProofOfIntention; pOPTTxs : option PTxs;
  pOutputTxsProof : option POutputTxsProof }.

Class UrdWire := {
  urd_votes :: VoteWire;
  time_codec :: ProtoCodec PTimestamp;
  block_codec :: ProtoCodec PBlock;
  csm_codec :: ProtoCodec PCrossShardMessage;
  ci_codec :: ProtoCodec PCommitIntention;
  poi_codec :: ProtoCodec PProofOfIntention
}.

Section Types.
Context {H : HashFn} {W : UrdWire}.

(** ** type_convert.go *)
Inductive any :=
| AInt (z : Z) | AInt32 (z : Z) | AInt64 (z : Z) | AString (s : string)
| AByte (b : Z) | ABytes (l : bytes) | ATime (t : GoTime) | AOther.

Definition mustBytes (s : any) : outcome bytes :=
  match s with
  | AInt z => Ret (sbytes (IntToBytes (NInt z)))
  | AInt32 z => Ret (sbytes (IntToBytes (NInt32 z)))
  | AInt64 z => Ret (sbytes (IntToBytes (NInt64 z)))
  | AString s => Ret (str_bytes s)
  | AByte b => Ret [b]
  | ABytes l => Ret l
  | ATime t => MustProtoBytes (ThirdPartyProtoTime t)
  | AOther => Panic
  end.

(** ** txs.go *)
Definition Txs_Hash (ptxs : Txs) : outcome bytes := HashFromByteSlices (txs_list ptxs).
Definition Txs_Index (ptxs : Txs) (i : Z) : outcome bytes := idx (txs_list ptxs) i.
Definition Txs_Size (ptxs : Txs) : Z := zlen (txs_list ptxs).
Definition Txs_ToProto (ptxs : Txs) : PTxs := {| pTxs := txs_list ptxs |}.
(** The messages converted come from unmarshalling: an empty list is nil. *)
Definition NewTxsFromProto (pro : option PTxs) : Txs :=
  match pro with
  | None => Some []
  | Some p => match pTxs p with [] => None | l => Some l end
  end.

Inductive otp_error := ErrOPTProof (e : proof_error) | ErrBlockProof (e : proof_error).

Definition OTP_Verify (optp : option OutputTxsProof) (root : bytes) (output_txs : Txs)
    : outcome (option otp_error) :=
  match optp with
  | None => Ret None
  | Some optp =>
      optProof ← deref (OPTProof optp);
      opt_root ← ComputeRootHash optProof;
      opthash ← Txs_Hash output_txs;
      err ← Proof_Verify optProof (sbytes opt_root) opthash;
      match err with
      | Some e => Ret (Some (ErrOPTProof e))
      | None =>
          blockProof ← deref (BlockProof optp);
          err ← Proof_Verify blockProof root (sbytes opt_root);
          match err with
          | Some e => Ret (Some (ErrBlockProof e))
          | None => Ret None
          end
      end
  end.

Definition OTP_ToProto (optp : option OutputTxsProof) : outcome (option POutputTxsProof) :=
  match optp with
  | None => Ret None
  | Some optp =>
      b ← deref (BlockProof optp);
      o ← deref (OPTProof optp);
      Ret (Some {| pBlockProof := Some (Proof_ToProto b); pOPTProof := Some (Proof_ToProto o) |})
  end.
Definition NewOutputTxsProofFromProto (pro : option POutputTxsProof)
    : outcome (option OutputTxsProof) :=
  match pro with
  | None => Ret None
  | Some pro =>
      b ← deref (pBlockProof pro);
      o ← deref (pOPTProof pro);
      Ret (Some {| BlockProof := Some (NewProofFromProto b); OPTProof := Some (NewProofFromProto o) |})
  end.
Definition OTP_Hash (optp : option OutputTxsProof) : outcome bytes :=
  optp ← deref optp;
  b ← deref (BlockProof optp); bh ← ContentHash b;
  o ← deref (OPTProof optp); oh ← ContentHash o;
  HashFromByteSlices [bh; oh].

(** ** commit_intention.go *)
Definition IB_Hash (ib : IntentionBrief) : outcome bytes := HashFromByteSlices ib.

Definition CI_ToProto (ci : option CommitIntention) : option PCommitIntention :=
  match ci with
  | None => None
  | Some ci => Some {| pIntentionHash := IntentionHash ci;
                       pAggregatedSignatures := map Agg_ToProto (AggregatedSignatures ci) |}
  end.
(** The conversion of one entry: never nil for a non-nil message. *)
Definition agg_entry (p : PAggregatedVote) : outcome AggregatedVote :=
  v ← NewAggregatedVoteFromProto (Some p); deref v.
Definition NewCommitIntentionFromProto (pci : option PCommitIntention)
    : outcome (option CommitIntention) :=
  match pci with
  | None => Ret None
  | Some pci =>
      sigs ← mapM_out agg_entry (pAggregatedSignatures pci);
      Ret (Some {| IntentionHash := pIntentionHash pci; AggregatedSignatures := sigs;
                   ci_leftHash := []; ci_rightHash := [] |})
  end.
Definition NewCommitIntentionFromBytes (data : bytes) : outcome (option CommitIntention) :=
  match unmarshal data with
  | None => Ret None
  | Some pci => NewCommitIntentionFromProto (Some pci)
  end.

Definition LeftHash (ci : CommitIntention) : outcome (CommitIntention * bytes) :=
  if zlen (ci_leftHash ci) =? 0 then
    h ← IB_Hash (IntentionHash ci);
    Ret ({| IntentionHash := IntentionHash ci; AggregatedSignatures := AggregatedSignatures ci;
            ci_leftHash := h; ci_rightHash := ci_rightHash ci |}, h)
  else Ret (ci, ci_leftHash ci).
Definition RrightHash (ci : CommitIntention) : outcome (CommitIntention * bytes) :=
  if zlen (ci_rightHash ci) =? 0 then
    lst2 ← mapM_out Agg_Hash (AggregatedSignatures ci);
    h ← HashFromByteSlices lst2;
    Ret ({| IntentionHash := IntentionHash ci; AggregatedSignatures := AggregatedSignatures ci;
            ci_leftHash := ci_leftHash ci; ci_rightHash := h |}, h)
  else Ret (ci, ci_rightHash ci).
Definition CI_Hash (ci : CommitIntention) : outcome (CommitIntention * bytes) :=
  '(ci, l) ← LeftHash ci;
  '(ci, r) ← RrightHash ci;
  h ← HashFromByteSlices [l; r];
  Ret (ci, h).
Definition GetBrief (ci : CommitIntention) : IntentionBrief := IntentionHash ci.

Definition POI_Verify (poi : option ProofOfIntention) (root leftHash : bytes)
    : outcome (option proof_error) :=
  match poi with
  | None => Ret None
  | Some poi =>
      ciHash ← HashFromByteSlices [leftHash; RightHash poi];
      p ← deref (IntentionHashProof poi);
      Proof_Verify p root ciHash
  end.
Definition POI_ToProto (poi : option ProofOfIntention) : outcome (option PProofOfIntention) :=
  match poi with
  | None => Ret None
  | Some poi =>
      p ← deref (IntentionHashProof poi);
      Ret (Some {| pIntentionHashProof := Some (Proof_ToProto p); pRightHash := RightHash poi |})
  end.
Definition NewProofOfIntentionFromProto (ppoi : option PProofOfIntention)
    : outcome (option ProofOfIntention) :=
  match ppoi with
  | None => Ret None
  | Some ppoi =>
      p ← deref (pIntentionHashProof ppoi);
      Ret (Some {| IntentionHashProof := Some (NewProofFromProto p); RightHash := pRightHash ppoi |})
  end.
Definition NewProofOfIntentionFromBytes (data : bytes) : outcome (option ProofOfIntention) :=
  match unmarshal data with
  | None => Ret None
  | Some ppoi => NewProofOfIntentionFromProto (Some ppoi)
  end.
Definition POI_Hash (poi : ProofOfIntention) : outcome bytes :=
  p ← deref (IntentionHashProof poi); h ← ContentHash p;
  HashFromByteSlices [h; RightHash poi].

(** ** commit_certificate.go *)
Definition Core_ToProto (core : CommitCertificateCore) : outcome PCommitCertificateCore :=
  p ← POI_ToProto (Some (MKProof core));
  Ret {| pcHash := coreHash core; pcMKProof := p; pcIntentionBrief := coreBrief core |}.
Definition NewCommitCertificateCoreFromProto (pcore : PCommitCertificateCore)
    : outcome CommitCertificateCore :=
  poi ← NewProofOfIntentionFromProto (pcMKProof pcore);
  poi ← deref poi;
  Ret {| coreHash := pcHash pcore; MKProof := poi; coreBrief := pcIntentionBrief pcore |}.
Definition Core_Verify (core : CommitCertificateCore) : outcome (option proof_error) :=
  leftHash ← IB_Hash (coreBrief core);
  POI_Verify (Some (MKProof core)) (coreHash core) leftHash.

Definition CC_ToProto (cc : CommitCertificate) : outcome PCommitCertificate :=
  cores ← mapM_out Core_ToProto cc; Ret {| pCores := cores |}.
Definition NewCommitCertificateFromProto (pcc : option PCommitCertificate) : outcome CommitCertificate :=
  pcc ← deref pcc; mapM_out NewCommitCertificateCoreFromProto (pCores pcc).

Fixpoint CC_verify_from (i : Z) (cc : CommitCertificate) : outcome (option (Z * proof_error)) :=
  match cc with
  | [] => Ret None
  | core :: cc' =>
      err ← Core_Verify core;
      match err with
      | Some e => Ret (Some (i, e))
      | None => CC_verify_from (i + 1) cc'
      end
  end.
Definition CC_Verify (cc : CommitCertificate) : outcome (option (Z * proof_error)) :=
  CC_verify_from 0 cc.

Definition core_content (core : CommitCertificateCore) : outcome bytes :=
  b ← IB_Hash (coreBrief core);
  p ← POI_Hash (MKProof core);
  HashFromByteSlices [coreHash core; b; p].
Definition CC_Hash (cc : CommitCertificate) : outcome bytes :=
  coreHashList ← mapM_out core_content cc;
  HashFromByteSlices coreHashList.

(** The inner loop of [Result]: one intention brief against the results so far. *)
Fixpoint result_brief (i : Z) (brief : list bytes) (res : list bytes * list bool)
    : outcome (list bytes * list bool) :=
  match brief with
  | [] => Ret res
  | bz :: brief' =>
      old ← idx (fst res) i;
      if bytes_Equal old bz || (zlen bz =? 0) then result_brief (i + 1) brief' res
      else if 0 <? zlen old then
        errs ← upd (snd res) i true; result_brief (i + 1) brief' (fst res, errs)
      else
        results ← upd (fst res) i bz; result_brief (i + 1) brief' (results, snd res)
  end.
Definition CC_Result (cc : CommitCertificate) : outcome (list bytes * list bool) :=
  foldM (λ res core, result_brief 0 (coreBrief core) res) cc
    (replicate (length cc) [], replicate (length cc) false).

(** ** cross_shard_data.go *)
Definition GetLastHashOfAggVote (aggVote : AggregatedVote) : bytes :=
  match aForNecessaryData aggVote with [] => [] | h :: _ => h end.
Definition set_last (nd : list bytes) (hash : bytes) : list bytes :=
  match nd with [] => [hash] | _ :: nd' => hash :: nd' end.
Definition SetLastHashOfAggVote (aggVote : AggregatedVote) (hash : bytes) : AggregatedVote :=
  {| aCode := aCode aggVote; aView := aView aggVote; aRound := aRound aggVote;
     aForHash := aForHash aggVote; aForNecessaryData := set_last (aForNecessaryData aggVote) hash;
     aSign := aSign aggVote; aSignerIndexer := aSignerIndexer aggVote |}.
Definition GetLastHashOfVote (vote : Vote) : bytes :=
  match ForNecessaryData vote with [] => [] | h :: _ => h end.
Definition SetLastHashOfVote (vote : Vote) (hash : bytes) : Vote :=
  {| Code := Code vote; View := View vote; Round := Round vote; ForHash := ForHash vote;
     ForNecessaryData := set_last (ForNecessaryData vote) hash; Sign := Sign vote;
     ValidatorIndex := ValidatorIndex vote |}.

Definition CSM_GetLastHash (csm : CrossShardMessage) : outcome bytes :=
  v ← deref (csmAggVote csm); Ret (GetLastHashOfAggVote v).
Definition CSM_SetLastHash (csm : CrossShardMessage) (h : bytes) : outcome CrossShardMessage :=
  v ← deref (csmAggVote csm);
  Ret {| SourceChain := SourceChain csm; csmAggVote := Some (SetLastHashOfAggVote v h);
         csmBrief := csmBrief csm; csmPOI := csmPOI csm; OPTXs := OPTXs csm; csmOTP := csmOTP csm |}.

Inductive csm_error := ErrIntention (e : proof_error) | ErrOutputTxs (e : otp_error).

Definition CSM_ValidateBasic (csm : CrossShardMessage) : outcome (option csm_error) :=
  last ← CSM_GetLastHash csm;
  brief ← IB_Hash (csmBrief csm);
  err ← POI_Verify (csmPOI csm) last brief;
  match err with
  | Some e => Ret (Some (ErrIntention e))
  | None =>
      last ← CSM_GetLastHash csm;
      err ← OTP_Verify (csmOTP csm) last (OPTXs csm);
      match err with
      | Some e => Ret (Some (ErrOutputTxs e))
      | None => Ret None
      end
  end.

Definition CSM_ToProto (csm : CrossShardMessage) : outcome PCrossShardMessage :=
  poi ← POI_ToProto (csmPOI csm);
  otp ← OTP_ToProto (csmOTP csm);
  Ret {| pSourceChain := SourceChain csm; pcsAggVote := Agg_ToProto <$> csmAggVote csm;
         pcsIntentionBrief := csmBrief csm; pProofOfIntention := poi;
         pOPTTxs := Some (Txs_ToProto (OPTXs csm)); pOutputTxsProof := otp |}.
Definition CSM_ProtoBytes (csm : CrossShardMessage) : outcome bytes :=
  p ← CSM_ToProto csm; MustProtoBytes p.
Definition NewCrossShardMessageFromProto (pb : PCrossShardMessage) : outcome CrossShardMessage :=
  agg ← NewAggregatedVoteFromProto (pcsAggVote pb);
  poi ← NewProofOfIntentionFromProto (pProofOfIntention pb);
  otp ← NewOutputTxsProofFromProto (pOutputTxsProof pb);
  Ret {| SourceChain := pSourceChain pb; csmAggVote := agg; csmBrief := pcsIntentionBrief pb;
         csmPOI := poi; OPTXs := NewTxsFromProto (pOPTTxs pb); csmOTP := otp |}.
(** [None] is the unmarshalling error. *)
Definition NewCrossShardMessageFromBytes (bz : bytes) : outcome (option CrossShardMessage) :=
  match unmarshal bz with
  | None => Ret None
  | Some pb => csm ← NewCrossShardMessageFromProto pb; Ret (Some csm)
  end.

(** ** block.go *)

(** A root is computed when it is empty and [present]. *)
Definition fill (root : bytes) (present : bool) (compute : outcome bytes) : outcome bytes :=
  if (zlen root =? 0) && present then compute else Ret root.

Definition commit_txs_root (ctxs : list Txs) (proofs : list (option OutputTxsProof)) : outcome bytes :=
  ctxs_hash_list ← mapM_out Txs_Hash ctxs;
  ctxs_proof_hash_list ← mapM_out OTP_Hash proofs;
  a ← HashFromByteSlices ctxs_hash_list;
  b ← HashFromByteSlices ctxs_proof_hash_list;
  HashFromByteSlices [a; b].

Definition fillInHeader (block : Block) : outcome Block :=
  let h := bHeader block in
  prepare ← fill (PrepareRoot h) (bool_decide (is_Some (PTXS block))) (Txs_Hash (PTXS block));
  cross ← fill (CrossShardRoot h) (bool_decide (is_Some (CrossShardTxs block)))
            (Txs_Hash (CrossShardTxs block));
  output ← fill (OutputTxsRoot h) true (HashFromByteSlices (OPT block));
  lastAgg ← fill (LastAggSigRoot h) (bool_decide (is_Some (AggSigVote block)))
              (v ← deref (AggSigVote block); Agg_Hash v);
  '(ci, ciRoot) ← (match CI block with
    | Some ci => if zlen (CommitIntentionRoot h) =? 0
                 then '(ci', r) ← CI_Hash ci; Ret (Some ci', r)
                 else Ret (Some ci, CommitIntentionRoot h)
    | None => Ret (None, CommitIntentionRoot h)
    end);
  ccRoot ← fill (CommitCertificateRoot h) true (CC_Hash (CC block));
  ctxsRoot ← fill (CommitTxsListRoot h) true (commit_txs_root (CTXS block) (CTXSProof block));
  Ret {| bHeader := {| HashPointer := HashPointer h; ChainID := ChainID h; hdView := hdView h;
           hdRound := hdRound h; hdTime := hdTime h; PrepareRoot := prepare;
           CrossShardRoot := cross; OutputTxsRoot := output; LastAggSigRoot := lastAgg;
           CommitIntentionRoot := ciRoot; CommitCertificateRoot := ccRoot;
           CommitTxsListRoot := ctxsRoot; StateRoot := StateRoot h;
           hd_hash := hd_hash h; mkproof := mkproof h |};
         PTXS := PTXS block; CrossShardTxs := CrossShardTxs block; OPT := OPT block;
         AggSigVote := AggSigVote block; CI := ci; CC := CC block; CTXS := CTXS block;
         CTXSProof := CTXSProof block |}.

(** The seven leaves of the block hash. *)
Definition package_leaves (h : Header) : outcome (list bytes) :=
  c ← mustBytes (AString (ChainID h));
  v ← mustBytes (AInt64 (hdView h));
  r ← mustBytes (AInt32 (hdRound h));
  t ← mustBytes (ATime (hdTime h));
  Ret [c; v; r; t; LastAggSigRoot h; CommitCertificateRoot h].
Definition block_leaves (h : Header) : outcome (list bytes) :=
  ls ← package_leaves h;
  packageHash ← HashFromByteSlices ls;
  Ret [packageHash; HashPointer h; PrepareRoot h; OutputTxsRoot h; CommitIntentionRoot h;
       CommitTxsListRoot h; StateRoot h].

Definition with_hash (block : Block) (hash : bytes) (proofs : list MerkleProof) : Block :=
  let h := bHeader block in
  {| bHeader := {| HashPointer := HashPointer h; ChainID := ChainID h; hdView := hdView h;
       hdRound := hdRound h; hdTime := hdTime h; PrepareRoot := PrepareRoot h;
       CrossShardRoot := CrossShardRoot h; OutputTxsRoot := OutputTxsRoot h;
       LastAggSigRoot := LastAggSigRoot h; CommitIntentionRoot := CommitIntentionRoot h;
       CommitCertificateRoot := CommitCertificateRoot h; CommitTxsListRoot := CommitTxsListRoot h;
       StateRoot := StateRoot h; hd_hash := hash; mkproof := proofs |};
     PTXS := PTXS block; CrossShardTxs := CrossShardTxs block; OPT := OPT block;
     AggSigVote := AggSigVote block; CI := CI block; CC := CC block; CTXS := CTXS block;
     CTXSProof := CTXSProof block |}.

Definition calBlockHashAndProof (block : Block) : outcome Block :=
  block ← fillInHeader block;
  leaves ← block_leaves (bHeader block);
  '(hash, proofs) ← ProofsFromByteSlices leaves;
  Ret (with_hash block hash proofs).

Definition Block_Hash (block : Block) : outcome (Block * bytes) :=
  block ← (if zlen (hd_hash (bHeader block)) =? 0 then calBlockHashAndProof block else Ret block);
  Ret (block, hd_hash (bHeader block)).

Definition ProofOfIndex (block : Block) (i : Z) : outcome (Block * option MerkleProof) :=
  block ← (if zlen (mkproof (bHeader block)) =? 0 then calBlockHashAndProof block else Ret block);
  if (0 <=? i) && (i <? zlen (mkproof (bHeader block)))
  then p ← idx (mkproof (bHeader block)) i; Ret (block, Some p)
  else Ret (block, None).
Definition GetHeaderProof (block : Block) := ProofOfIndex block 1.
Definition GetOutputTxsProof (block : Block) := ProofOfIndex block 3.
Definition GetCommitIntentionProof (block : Block) := ProofOfIndex block 4.

Definition GetOutputTxsProofOf (block : Block) (index : Z) : outcome (Block * OutputTxsProof) :=
  '(block, bp) ← GetOutputTxsProof block;
  '(_, proofs) ← ProofsFromByteSlices (OPT block);
  op ← idx proofs index;
  Ret (block, {| BlockProof := bp; OPTProof := Some op |}).

Definition Header_ToProto (h : Header) : PHeader :=
  {| phHashPointer := HashPointer h; phChainID := ChainID h; phView := hdView h;
     phRound := hdRound h; phTime := Some (ThirdPartyProtoTime (hdTime h));
     phPrepareRoot := PrepareRoot h; phOutputTxsRoot := OutputTxsRoot h;
     phLastAggSigRoot := LastAggSigRoot h; phCommitIntentionRoot := CommitIntentionRoot h;
     phCommitCertificateRoot := CommitCertificateRoot h; phCommitTxsRoot := CommitTxsListRoot h;
     phStateRoot := StateRoot h |}.
Definition NewHeaderFromProto (h : PHeader) : Header :=
  {| HashPointer := phHashPointer h; ChainID := phChainID h; hdView := phView h;
     hdRound := phRound h; hdTime := ThirdPartyUnmarshalTime (phTime h);
     PrepareRoot := phPrepareRoot h; CrossShardRoot := []; OutputTxsRoot := phOutputTxsRoot h;
     LastAggSigRoot := phLastAggSigRoot h; CommitIntentionRoot := phCommitIntentionRoot h;
     CommitCertificateRoot := phCommitCertificateRoot h; CommitTxsListRoot := phCommitTxsRoot h;
     StateRoot := phStateRoot h; hd_hash := []; mkproof := [] |}.

(** A nil entry of a repeated message field is written as an empty message. *)
Definition otp_message (p : option POutputTxsProof) : POutputTxsProof :=
  default {| pBlockProof := None; pOPTProof := None |} p.

Definition Block_ToProto (block : Block) : outcome (Block * PBlock) :=
  block ← fillInHeader block;
  proofs ← mapM_out OTP_ToProto (CTXSProof block);
  cc ← CC_ToProto (CC block);
  Ret (block,
    {| pbHeader := Some (Header_ToProto (bHeader block));
       pbPrepareTxs := Some (Txs_ToProto (PTXS block));
       pbCrossShardTxs := Some (Txs_ToProto (CrossShardTxs block));
       pbOPT := OPT block; pbAggSigVote := Agg_ToProto <$> AggSigVote block;
       pbCI := CI_ToProto (CI block); pbCC := Some cc; pbCTXS := map Txs_ToProto (CTXS block);
       pbCTXSProof := map otp_message proofs |}).
Definition Block_ProtoBytes (block : Block) : outcome (Block * bytes) :=
  '(block, p) ← Block_ToProto block; bz ← MustProtoBytes p; Ret (block, bz).

Definition NewBlockFromProto (block : PBlock) : outcome Block :=
  commitTxsProof ← mapM_out (λ p, NewOutputTxsProofFromProto (Some p)) (pbCTXSProof block);
  header ← deref (pbHeader block);
  agg ← NewAggregatedVoteFromProto (pbAggSigVote block);
  ci ← NewCommitIntentionFromProto (pbCI block);
  cc ← NewCommitCertificateFromProto (pbCC block);
  Ret {| bHeader := NewHeaderFromProto header; PTXS := NewTxsFromProto (pbPrepareTxs block);
         CrossShardTxs := NewTxsFromProto (pbCrossShardTxs block); OPT := pbOPT block;
         AggSigVote := agg; CI := ci; CC := cc;
         CTXS := map (λ t, NewTxsFromProto (Some t)) (pbCTXS block);
         CTXSProof := commitTxsProof |}.
Definition NewBlockFromBytes (bz : bytes) : outcome (option Block) :=
  match unmarshal bz with
  | None => Ret None
  | Some p => b ← NewBlockFromProto p; Ret (Some b)
  end.

Inductive block_error :=
| ErrIntentionCount | ErrIntentionVote | ErrCertificateCount | ErrCertificateVote
| ErrCertificate (i : Z) (e : proof_error) | ErrCTXSCount | ErrCTXSProof (e : otp_error).

(** The loops of [ValidateBasic], each from index [i] on. *)
Fixpoint check_intentions (i : Z) (intentions : list bytes) (votes : list AggregatedVote)
    : outcome (option block_error) :=
  match votes with
  | [] => Ret None
  | vote :: votes' =>
      h1 ← idx intentions i;
      if negb (bytes_Equal h1 (GetLastHashOfAggVote vote)) then Ret (Some ErrIntentionVote)
      else check_intentions (i + 1) intentions votes'
  end.
Fixpoint check_certificates (i : Z) (votes : list AggregatedVote) (cc : CommitCertificate)
    : outcome (option block_error) :=
  match cc with
  | [] => Ret None
  | core :: cc' =>
      vote ← idx votes i;
      if negb (bytes_Equal (coreHash core) (GetLastHashOfAggVote vote)) then Ret (Some ErrCertificateVote)
      else check_certificates (i + 1) votes cc'
  end.
Fixpoint check_ctxs (i : Z) (b : Block) (intentions : list bytes) (errs : list bool)
    : outcome (option block_error) :=
  match intentions with
  | [] => Ret None
  | _ :: intentions' =>
      bad ← idx errs i;
      if bad : bool then check_ctxs (i + 1) b intentions' errs
      else
        proof ← idx (CTXSProof b) i;
        ci ← deref (CI b);
        vote ← idx (AggregatedSignatures ci) i;
        txs ← idx (CTXS b) i;
        err ← OTP_Verify proof (GetLastHashOfAggVote vote) txs;
        match err with
        | Some e => Ret (Some (ErrCTXSProof e))
        | None => check_ctxs (i + 1) b intentions' errs
        end
  end.

Definition validate_ci_cc (b : Block) : outcome (option block_error) :=
  ci ← deref (CI b);
  if negb (zlen (IntentionHash ci) =? zlen (AggregatedSignatures ci)) then Ret (Some ErrIntentionCount)
  else
    err ← check_intentions 0 (IntentionHash ci) (AggregatedSignatures ci);
    match err with
    | Some e => Ret (Some e)
    | None =>
        if negb (zlen (CC b) =? zlen (IntentionHash ci)) then Ret (Some ErrCertificateCount)
        else
          err ← check_certificates 0 (AggregatedSignatures ci) (CC b);
          match err with
          | Some e => Ret (Some e)
          | None =>
              err ← CC_Verify (CC b);
              match err with
              | Some (i, e) => Ret (Some (ErrCertificate i e))
              | None => Ret None
              end
          end
    end.

Definition Block_ValidateBasic (b : Block) : outcome (option block_error) :=
  err ← (if 5 <? hdView (bHeader b) then validate_ci_cc b else Ret None);
  match err with
  | Some e => Ret (Some e)
  | None =>
      if negb (zlen (CTXS b) =? zlen (CTXSProof b)) || negb (zlen (CTXS b) =? zlen (CC b))
      then Ret (Some ErrCTXSCount)
      else
        '(intentions, errs) ← CC_Result (CC b);
        check_ctxs 0 b intentions errs
  end.

End Types.
