(* ===== verification/BlockProofs.v ===== *)
(** * What a block hash commits to

    Theorems about [UrdTypes]: the fields and transactions the block hash
    binds, those it does not, and the header fields a block keeps through the
    network. *)

From stdpp Require Import base list gmap strings numbers.
From Stdlib Require Import ZArith Lia.
From S2P Require Import Prelude Convert BitVector Hash Merkle MerkleProofs MerkleGen Wire Signer HotStuff UrdTypes.

(** The values a header field of the code's types can hold. *)
Definition header_wf (h : Header) : Prop :=
  - 2 ^ 63 ≤ hdView h < 2 ^ 63 ∧ - 2 ^ 31 ≤ hdRound h < 2 ^ 31 ∧
  - 2 ^ 63 ≤ unix (hdTime h) < 2 ^ 63 ∧ 0 ≤ nsec (hdTime h) < 10 ^ 9.

Section BlockProofs.
Context {H : HashFn} {W : UrdWire}.

(** ** Filling in the header *)

(** The header fields the hash covers, after [fillInHeader]. *)
Record Committed := {
  cHashPointer : bytes; cChainID : string; cView : Z; cRound : Z; cTime : GoTime;
  cPrepareRoot : bytes; cOutputTxsRoot : bytes; cLastAggSigRoot : bytes;
  cCommitIntentionRoot : bytes; cCommitCertificateRoot : bytes; cCommitTxsListRoot : bytes;
  cStateRoot : bytes
}.
Definition committed (h : Header) : Committed :=
  {| cHashPointer := HashPointer h; cChainID := ChainID h; cView := hdView h; cRound := hdRound h;
     cTime := hdTime h; cPrepareRoot := PrepareRoot h; cOutputTxsRoot := OutputTxsRoot h;
     cLastAggSigRoot := LastAggSigRoot h; cCommitIntentionRoot := CommitIntentionRoot h;
     cCommitCertificateRoot := CommitCertificateRoot h; cCommitTxsListRoot := CommitTxsListRoot h;
     cStateRoot := StateRoot h |}.

Lemma fill_empty root (p : bool) m r : root = [] → p = true → fill root p m = Ret r → m = Ret r.
Proof. by intros -> ->. Qed.
Lemma fill_kept root p m : root ≠ [] → fill root p m = Ret root.
Proof.
  intros Hr. unfold fill. destruct (Z.eqb_spec (zlen root) 0) as [E|]; [|done].
  by apply zlen_nil_inv in E.
Qed.

(** What [fillInHeader] leaves and what it computes. *)
Record filled (b b' : Block) : Prop := {
  fl_pointer : HashPointer (bHeader b') = HashPointer (bHeader b);
  fl_chain : ChainID (bHeader b') = ChainID (bHeader b);
  fl_view : hdView (bHeader b') = hdView (bHeader b);
  fl_round : hdRound (bHeader b') = hdRound (bHeader b);
  fl_time : hdTime (bHeader b') = hdTime (bHeader b);
  fl_state : StateRoot (bHeader b') = StateRoot (bHeader b);
  fl_hash : hd_hash (bHeader b') = hd_hash (bHeader b);
  fl_proofs : mkproof (bHeader b') = mkproof (bHeader b);
  fl_ptxs : PTXS b' = PTXS b;
  fl_cross : CrossShardTxs b' = CrossShardTxs b;
  fl_opt : OPT b' = OPT b;
  fl_agg : AggSigVote b' = AggSigVote b;
  fl_cc : CC b' = CC b;
  fl_ctxs : CTXS b' = CTXS b;
  fl_ctxsproof : CTXSProof b' = CTXSProof b;
  fl_prepare : fill (PrepareRoot (bHeader b)) (bool_decide (is_Some (PTXS b))) (Txs_Hash (PTXS b))
    = Ret (PrepareRoot (bHeader b'));
  fl_output : fill (OutputTxsRoot (bHeader b)) true (HashFromByteSlices (OPT b))
    = Ret (OutputTxsRoot (bHeader b'));
  fl_ctxsroot : fill (CommitTxsListRoot (bHeader b)) true (commit_txs_root (CTXS b) (CTXSProof b))
    = Ret (CommitTxsListRoot (bHeader b'));
  fl_ccroot : fill (CommitCertificateRoot (bHeader b)) true (CC_Hash (CC b))
    = Ret (CommitCertificateRoot (bHeader b'));
  fl_lastagg : fill (LastAggSigRoot (bHeader b)) (bool_decide (is_Some (AggSigVote b)))
      (v ← deref (AggSigVote b); Agg_Hash v) = Ret (LastAggSigRoot (bHeader b'));
  fl_ci : match CI b with
    | Some ci => if zlen (CommitIntentionRoot (bHeader b)) =? 0
        then ∃ ci', CI_Hash ci = Ret (ci', CommitIntentionRoot (bHeader b')) ∧ CI b' = Some ci'
        else CI b' = Some ci ∧ CommitIntentionRoot (bHeader b') = CommitIntentionRoot (bHeader b)
    | None => CI b' = None ∧ CommitIntentionRoot (bHeader b') = CommitIntentionRoot (bHeader b)
    end
}.

Lemma fillInHeader_filled b b' : fillInHeader b = Ret b' → filled b b'.
Proof.
  unfold fillInHeader. intros E. do 4 bind_inv E.
  bind_inv E. destruct x3 as [ci ciRoot]. do 2 bind_inv E. injection E as <-.
  constructor; try done. cbn [bHeader CI CommitIntentionRoot].
  destruct (CI b) as [c|]; [|by injection Hx3 as <- <-].
  case_match; [|by injection Hx3 as <- <-].
  destruct (CI_Hash c) as [[c' r]|]; [|done]. injection Hx3 as <- <-. by exists c'.
Qed.

(** ** The hash of a block *)

Lemma Block_Hash_inv b b' hash : hd_hash (bHeader b) = [] → Block_Hash b = Ret (b', hash) →
  ∃ bf leaves proofs, filled b bf ∧ block_leaves (bHeader bf) = Ret leaves ∧
    ProofsFromByteSlices leaves = Ret (hash, proofs) ∧ HashFromByteSlices leaves = Ret hash ∧
    b' = with_hash bf hash proofs.
Proof.
  unfold Block_Hash, calBlockHashAndProof. intros -> E. change (zlen (@nil Z) =? 0) with true in E. cbv iota in E.
  destruct (fillInHeader b) as [bf|] eqn:Ef; [|done]. cbn [mbind outcome_bind] in E.
  destruct (block_leaves (bHeader bf)) as [leaves|] eqn:El; [|done]. cbn [mbind outcome_bind] in E.
  destruct (proofs_spec leaves) as (root & proofs & Ep & Eh & _).
  rewrite Ep in E. cbn [mbind outcome_bind with_hash bHeader hd_hash] in E. injection E as <- <-.
  exists bf, leaves, proofs. split; [by apply fillInHeader_filled|done].
Qed.

(** The inputs hashed to compute the block hash from the header. *)
Definition header_hashed (h : Header) (x : bytes) : Prop :=
  (∃ items, package_leaves h = Ret items ∧ hashed items x) ∨
  (∃ items, block_leaves h = Ret items ∧ hashed items x).

Lemma Ret6_inj {A} (a b c d e f a' b' c' d' e' f' : A) :
  Ret [a; b; c; d; e; f] = Ret [a'; b'; c'; d'; e'; f'] →
  a = a' ∧ b = b' ∧ c = c' ∧ d = d' ∧ e = e' ∧ f = f'.
Proof. by intros [= -> -> -> -> -> ->]. Qed.

Lemma package_leaves_inj h1 h2 ls : header_wf h1 → header_wf h2 →
  package_leaves h1 = Ret ls → package_leaves h2 = Ret ls →
  ChainID h1 = ChainID h2 ∧ hdView h1 = hdView h2 ∧ hdRound h1 = hdRound h2 ∧
  hdTime h1 = hdTime h2 ∧ LastAggSigRoot h1 = LastAggSigRoot h2 ∧
  CommitCertificateRoot h1 = CommitCertificateRoot h2.
Proof.
  intros (Wv1 & Wr1 & Wu1 & Wn1) (Wv2 & Wr2 & Wu2 & Wn2). unfold package_leaves. cbn [mustBytes mbind outcome_bind].
  destruct (MustProtoBytes (ThirdPartyProtoTime (hdTime h1))) as [t1|] eqn:E1; [|done].
  destruct (MustProtoBytes (ThirdPartyProtoTime (hdTime h2))) as [t2|] eqn:E2; [|done].
  cbn [mbind outcome_bind]. intros F1 F2. rewrite <- F2 in F1.
  apply Ret6_inj in F1 as (Fc & Fv & Fr & Ft & Fl & Fp).
  split; [by apply str_bytes_inj|].
  split; [apply (wrapS_inj 64); [lia..|]; apply (le_encode_inj 8); [apply wrapU_range; lia..|done]|].
  split; [apply (wrapS_inj 32); [lia..|]; apply (le_encode_inj 4); [apply wrapU_range; lia..|done]|].
  subst t2. pose proof (MustProtoBytes_inj _ _ _ E1 E2) as Et.
  split; [|by rewrite Fl, Fp].
  rewrite <- (time_roundtrip (hdTime h1)), <- (time_roundtrip (hdTime h2)) by lia. by rewrite Et.
Qed.

(** The lists whose Merkle roots make up a block hash, and the inputs hashed
    for them. *)
Inductive hash_list (b : Block) : list bytes → Prop :=
| hl_package ls : package_leaves (bHeader b) = Ret ls → hash_list b ls
| hl_block ls : block_leaves (bHeader b) = Ret ls → hash_list b ls
| hl_ptxs : hash_list b (txs_list (PTXS b))
| hl_opt : hash_list b (OPT b)
| hl_tx t : t ∈ CTXS b → hash_list b (txs_list t)
| hl_ctxs hs : mapM_out Txs_Hash (CTXS b) = Ret hs → hash_list b hs
| hl_ctxs_root hs ps r s : mapM_out Txs_Hash (CTXS b) = Ret hs →
    mapM_out OTP_Hash (CTXSProof b) = Ret ps → HashFromByteSlices hs = Ret r →
    HashFromByteSlices ps = Ret s → hash_list b [r; s]
| hl_brief ci : CI b = Some ci → hash_list b (IntentionHash ci)
| hl_intention ci : CI b = Some ci → hash_list b [ci_leftHash ci; ci_rightHash ci].
Definition block_hashed (b : Block) (x : bytes) : Prop := ∃ ls, hash_list b ls ∧ hashed ls x.

Lemma hash_list_inj b1 b2 xs ys h : hash_list b1 xs → hash_list b2 ys →
  HashFromByteSlices xs = Ret h → HashFromByteSlices ys = Ret h →
  xs = ys ∨ CollisionIn (block_hashed b1) (block_hashed b2).
Proof.
  intros L1 L2 E1 E2. destruct (root_inj xs ys h E1 E2) as [|Hc]; [by left|right].
  eapply CollisionIn_mono; [done|..]; intros; by eexists.
Qed.

Lemma block_leaves_inv h ls : block_leaves h = Ret ls → ∃ ps p, package_leaves h = Ret ps ∧
  HashFromByteSlices ps = Ret p ∧ ls = [p; HashPointer h; PrepareRoot h; OutputTxsRoot h;
    CommitIntentionRoot h; CommitTxsListRoot h; StateRoot h].
Proof. unfold block_leaves. intros E. do 2 bind_inv E. injection E as <-. eauto. Qed.

Lemma filled_wf b b' : filled b b' → header_wf (bHeader b) → header_wf (bHeader b').
Proof.
  intros F. unfold header_wf.
  by rewrite (fl_view _ _ F), (fl_round _ _ F), (fl_time _ _ F).
Qed.

Lemma binds_header b1 b2 b1' b2' hash :
  hd_hash (bHeader b1) = [] → hd_hash (bHeader b2) = [] →
  header_wf (bHeader b1) → header_wf (bHeader b2) →
  Block_Hash b1 = Ret (b1', hash) → Block_Hash b2 = Ret (b2', hash) →
  committed (bHeader b1') = committed (bHeader b2') ∨ CollisionIn (block_hashed b1') (block_hashed b2').
Proof.
  intros N1 N2 W1 W2 E1 E2.
  apply Block_Hash_inv in E1 as (f1 & l1 & p1 & F1 & L1 & _ & R1 & ->); [|done].
  apply Block_Hash_inv in E2 as (f2 & l2 & p2 & F2 & L2 & _ & R2 & ->); [|done].
  apply (filled_wf _ _ F1) in W1. apply (filled_wf _ _ F2) in W2.
  destruct (hash_list_inj (with_hash f1 hash p1) (with_hash f2 hash p2) l1 l2 hash) as [->|];
    [by apply hl_block|by apply hl_block|done..| |by right].
  apply block_leaves_inv in L1 as (q1 & r1 & Q1 & G1 & ->).
  apply block_leaves_inv in L2 as (q2 & r2 & Q2 & G2 & E). injection E as -> Ehp Ep Eo Eci Ect Es.
  destruct (hash_list_inj (with_hash f1 hash p1) (with_hash f2 hash p2) q1 q2 r2) as [->|];
    [by apply hl_package|by apply hl_package|done..| |by right].
  destruct (package_leaves_inj (bHeader f1) (bHeader f2) q2) as (Ec & Ev & Er & Et & El & Ecc);
    [done..|].
  left. unfold committed. simpl. congruence.
Qed.

(** Two blocks (no hash cached yet, header fields in the range of their Go types) with the same
    hash have the same previous hash, chain, view, round, time and roots of
    prepared, output and commit transactions, last vote, commit intention,
    certificate and state; or two different inputs hashed for them have the
    same digest. *)
Theorem Block_Hash_binds_header b1 b2 b1' b2' hash
    (N1 : hd_hash (bHeader b1) = []) (N2 : hd_hash (bHeader b2) = [])
    (W1 : header_wf (bHeader b1)) (W2 : header_wf (bHeader b2))
    (E1 : Block_Hash b1 = Ret (b1', hash)) (E2 : Block_Hash b2 = Ret (b2', hash)) :
  committed (bHeader b1') = committed (bHeader b2') ∨ CollisionIn (block_hashed b1') (block_hashed b2').
Proof. by apply (binds_header b1 b2 b1' b2' hash). Qed.

(** A block as [make_block] fills it in: no root and no hash computed yet. *)
Record fresh (b : Block) : Prop := {
  fr_hash : hd_hash (bHeader b) = [];
  fr_prepare : PrepareRoot (bHeader b) = [];
  fr_output : OutputTxsRoot (bHeader b) = [];
  fr_ctxs : CommitTxsListRoot (bHeader b) = [];
  fr_ciroot : CommitIntentionRoot (bHeader b) = [];
  fr_ci : ∀ ci, CI b = Some ci → ci_leftHash ci = [] ∧ ci_rightHash ci = []
}.

Lemma Txs_Hash_size t h : Txs_Hash t = Ret h → h ≠ [].
Proof.
  unfold Txs_Hash. destruct (HashFromByteSlices_total (txs_list t)) as (h' & -> & Hm).
  intros [= <-] ->. by apply MTH_length in Hm.
Qed.

Lemma prepare_binds b1 b2 h : hash_list b1 (txs_list (PTXS b1)) → hash_list b2 (txs_list (PTXS b2)) →
  fill [] (bool_decide (is_Some (PTXS b1))) (Txs_Hash (PTXS b1)) = Ret h →
  fill [] (bool_decide (is_Some (PTXS b2))) (Txs_Hash (PTXS b2)) = Ret h →
  PTXS b1 = PTXS b2 ∨ CollisionIn (block_hashed b1) (block_hashed b2).
Proof.
  intros L1 L2. destruct (PTXS b1) as [t1|] eqn:P1, (PTXS b2) as [t2|] eqn:P2.
  - rewrite !bool_decide_true by done. change (fill [] true ?m) with m. intros E1 E2.
    destruct (hash_list_inj b1 b2 t1 t2 h L1 L2 E1 E2) as [->|]; [by left|by right].
  - rewrite bool_decide_true, bool_decide_false by (done || by intros []).
    intros E1 [= <-]. by apply Txs_Hash_size in E1.
  - rewrite bool_decide_false, bool_decide_true by (done || by intros []).
    intros [= <-] E2. by apply Txs_Hash_size in E2.
  - by left.
Qed.

Lemma txs_lists_bind b1 b2 l1 l2 hs : (∀ t, t ∈ l1 → t ∈ CTXS b1) → (∀ t, t ∈ l2 → t ∈ CTXS b2) →
  mapM_out Txs_Hash l1 = Ret hs → mapM_out Txs_Hash l2 = Ret hs →
  map txs_list l1 = map txs_list l2 ∨ CollisionIn (block_hashed b1) (block_hashed b2).
Proof.
  rewrite !mapM_out_Ret. intros I1 I2 F1. revert l2 I2.
  induction F1 as [|t1 h l1 hs E1 F1 IH]; intros l2 I2 F2; inversion F2 as [|t2 ? l2' ? E2 F2']; subst;
    [by left|].
  destruct (hash_list_inj b1 b2 (txs_list t1) (txs_list t2) h) as [Et|];
    [apply hl_tx, I1; by left|apply hl_tx, I2; by left|done..| |by right].
  destruct (IH ltac:(intros; apply I1; by right) l2' ltac:(intros; apply I2; by right) F2') as [El|];
    [left|by right]. simpl. by rewrite Et, El.
Qed.

Lemma commit_txs_bind b1 b2 h :
  commit_txs_root (CTXS b1) (CTXSProof b1) = Ret h → commit_txs_root (CTXS b2) (CTXSProof b2) = Ret h →
  map txs_list (CTXS b1) = map txs_list (CTXS b2) ∨ CollisionIn (block_hashed b1) (block_hashed b2).
Proof.
  unfold commit_txs_root. intros E1 E2. do 4 bind_inv E1. do 4 bind_inv E2.
  destruct (hash_list_inj b1 b2 [x1; x2] [x5; x6] h) as [Ep|];
    [by eapply hl_ctxs_root|by eapply hl_ctxs_root|done..| |by right].
  injection Ep as -> ->.
  destruct (hash_list_inj b1 b2 x x3 x5) as [->|]; [by apply hl_ctxs|by apply hl_ctxs|done..| |by right].
  by apply (txs_lists_bind b1 b2 _ _ x3).
Qed.

Lemma CI_Hash_inv ci ci' h : ci_leftHash ci = [] → CI_Hash ci = Ret (ci', h) →
  IntentionHash ci' = IntentionHash ci ∧ AggregatedSignatures ci' = AggregatedSignatures ci ∧
  HashFromByteSlices (IntentionHash ci) = Ret (ci_leftHash ci') ∧
  HashFromByteSlices [ci_leftHash ci'; ci_rightHash ci'] = Ret h.
Proof.
  unfold CI_Hash, LeftHash, RrightHash, IB_Hash. intros -> E.
  change (zlen (@nil Z) =? 0) with true in E. cbv iota in E.
  destruct (HashFromByteSlices (IntentionHash ci)) as [l|] eqn:El; [|done].
  cbn [mbind outcome_bind ci_rightHash AggregatedSignatures IntentionHash ci_leftHash] in E.
  destruct (zlen (ci_rightHash ci) =? 0).
  - do 1 bind_inv E. bind_inv Hx. bind_inv Hx. injection Hx as <-. bind_inv E. by injection E as <- <-.
  - cbn [mbind outcome_bind] in E. bind_inv E. by injection E as <- <-.
Qed.

Lemma intention_binds b1 b2 b1' b2' : fresh b1 → fresh b2 → filled b1 b1' → filled b2 b2' →
  CommitIntentionRoot (bHeader b1') = CommitIntentionRoot (bHeader b2') →
  IntentionHash <$> CI b1 = IntentionHash <$> CI b2 ∨ CollisionIn (block_hashed b1') (block_hashed b2').
Proof.
  intros R1 R2 F1 F2 Er. pose proof (fl_ci _ _ F1) as C1. pose proof (fl_ci _ _ F2) as C2.
  rewrite (fr_ciroot _ R1) in C1. rewrite (fr_ciroot _ R2) in C2.
  change (zlen (@nil Z) =? 0) with true in C1, C2. cbv iota in C1, C2.
  assert (∀ ci ci' h, CI_Hash ci = Ret (ci', h) → ci_leftHash ci = [] → h ≠ []) as Hne.
  { intros ci ci' h Eh En ->. apply CI_Hash_inv in Eh as (_ & _ & _ & Eh); [|done].
    by apply (Txs_Hash_size (Some [ci_leftHash ci'; ci_rightHash ci']) []). }
  destruct (CI b1) as [c1|] eqn:I1, (CI b2) as [c2|] eqn:I2; [| | |by left].
  - destruct C1 as (c1' & C1 & J1), C2 as (c2' & C2 & J2).
    apply CI_Hash_inv in C1 as (A1 & _ & B1 & D1); [|by apply (fr_ci _ R1)].
    apply CI_Hash_inv in C2 as (A2 & _ & B2 & D2); [|by apply (fr_ci _ R2)].
    rewrite Er in D1.
    destruct (hash_list_inj b1' b2' _ _ _ (hl_intention _ _ J1) (hl_intention _ _ J2) D1 D2)
      as [Ep|]; [|by right]. injection Ep as El _. rewrite El, <- A1 in B1. rewrite <- A2 in B2.
    destruct (hash_list_inj b1' b2' _ _ _ (hl_brief _ _ J1) (hl_brief _ _ J2) B1 B2) as [Eb|];
      [left|by right]. simpl. by rewrite <- A1, <- A2, Eb.
  - destruct C1 as (c1' & C1 & _), C2 as (_ & C2). exfalso.
    apply (Hne c1 c1' _ C1); [by apply (fr_ci _ R1)|by rewrite Er].
  - destruct C2 as (c2' & C2 & _), C1 as (_ & C1). exfalso.
    apply (Hne c2 c2' _ C2); [by apply (fr_ci _ R2)|by rewrite <- Er].
Qed.

Lemma hashed_filled b h p x : block_hashed b x → block_hashed (with_hash b h p) x.
Proof.
  intros (ls & L & Hx). exists ls. split; [|done].
  pose (b' := with_hash b h p). change (hash_list b' ls).
  destruct L; [by apply (hl_package b')|by apply (hl_block b')|apply (hl_ptxs b')|apply (hl_opt b')|
    by apply (hl_tx b')|by apply (hl_ctxs b')|by eapply (hl_ctxs_root b')|by apply (hl_brief b')|
    by apply (hl_intention b')].
Qed.

(** C17. Two freshly made blocks with the same hash prepare the same transactions,
    commit the same lists of transactions, output the same roots and state the
    same commit intention; or two different inputs hashed for them have the
    same digest. *)
Theorem Block_Hash_binds_content b1 b2 b1' b2' hash
    (R1 : fresh b1) (R2 : fresh b2) (W1 : header_wf (bHeader b1)) (W2 : header_wf (bHeader b2))
    (E1 : Block_Hash b1 = Ret (b1', hash)) (E2 : Block_Hash b2 = Ret (b2', hash)) :
  (PTXS b1 = PTXS b2 ∧ map txs_list (CTXS b1) = map txs_list (CTXS b2) ∧ OPT b1 = OPT b2 ∧
   IntentionHash <$> CI b1 = IntentionHash <$> CI b2) ∨
  CollisionIn (block_hashed b1') (block_hashed b2').
Proof.
  destruct (binds_header b1 b2 b1' b2' hash) as [Ec|]; [apply R1|apply R2|done..| |by right].
  apply Block_Hash_inv in E1 as (f1 & l1 & p1 & F1 & _ & _ & _ & ->); [|apply R1].
  apply Block_Hash_inv in E2 as (f2 & l2 & p2 & F2 & _ & _ & _ & ->); [|apply R2].
  cut ((PTXS b1 = PTXS b2 ∧ map txs_list (CTXS b1) = map txs_list (CTXS b2) ∧ OPT b1 = OPT b2 ∧
     IntentionHash <$> CI b1 = IntentionHash <$> CI b2) ∨ CollisionIn (block_hashed f1) (block_hashed f2)).
  { intros [|Hc]; [by left|right]. eapply CollisionIn_mono; [done|..]; intros x; apply hashed_filled. }
  unfold committed in Ec. simpl in Ec.
  injection Ec as _ _ _ _ _ Ep Eo _ Eci _ Ect _.
  pose proof (fl_prepare _ _ F1) as A1. pose proof (fl_prepare _ _ F2) as A2.
  pose proof (fl_output _ _ F1) as B1. pose proof (fl_output _ _ F2) as B2.
  pose proof (fl_ctxsroot _ _ F1) as D1. pose proof (fl_ctxsroot _ _ F2) as D2.
  rewrite (fr_prepare _ R1), <- (fl_ptxs _ _ F1), Ep in A1. rewrite (fr_prepare _ R2), <- (fl_ptxs _ _ F2) in A2.
  apply fill_empty in B1; [|apply R1|done]. apply fill_empty in B2; [|apply R2|done].
  apply fill_empty in D1; [|apply R1|done]. apply fill_empty in D2; [|apply R2|done].
  rewrite <- (fl_opt _ _ F1), Eo in B1. rewrite <- (fl_opt _ _ F2) in B2.
  rewrite <- (fl_ctxs _ _ F1), <- (fl_ctxsproof _ _ F1), Ect in D1.
  rewrite <- (fl_ctxs _ _ F2), <- (fl_ctxsproof _ _ F2) in D2.
  rewrite <- (fl_ptxs _ _ F1), <- (fl_ptxs _ _ F2), <- (fl_ctxs _ _ F1), <- (fl_ctxs _ _ F2),
    <- (fl_opt _ _ F1), <- (fl_opt _ _ F2).
  destruct (prepare_binds f1 f2 _ (hl_ptxs _) (hl_ptxs _) A1 A2) as [G1|]; [|by right].
  destruct (commit_txs_bind f1 f2 _ D1 D2) as [G2|]; [|by right].
  destruct (hash_list_inj f1 f2 _ _ _ (hl_opt _) (hl_opt _) B1 B2) as [G3|]; [|by right].
  destruct (intention_binds b1 b2 f1 f2 R1 R2 F1 F2 Eci) as [G4|]; [|by right].
  by left.
Qed.

(** ** What the hash does not cover *)

Definition with_cross (b : Block) (t : Txs) : Block :=
  {| bHeader := bHeader b; PTXS := PTXS b; CrossShardTxs := t; OPT := OPT b;
     AggSigVote := AggSigVote b; CI := CI b; CC := CC b; CTXS := CTXS b; CTXSProof := CTXSProof b |}.

Lemma fill_txs_total root p t : ∃ r, fill root p (Txs_Hash t) = Ret r.
Proof.
  unfold fill, Txs_Hash. destruct (HashFromByteSlices_total (txs_list t)) as (h & -> & _).
  case_match; eauto.
Qed.

(** The block hash does not depend on the cross-shard transactions: replacing
    them by any others gives the same hash. *)
Theorem Block_Hash_ignores_cross_shard (b : Block) (t : Txs) :
  snd <$> Block_Hash (with_cross b t) = snd <$> Block_Hash b.
Proof.
  unfold Block_Hash. change (bHeader (with_cross b t)) with (bHeader b).
  destruct (zlen (hd_hash (bHeader b)) =? 0); [|done].
  unfold calBlockHashAndProof, fillInHeader.
  cbn [with_cross bHeader PTXS CrossShardTxs OPT AggSigVote CI CC CTXS CTXSProof].
  destruct (fill (PrepareRoot _) _ _); [|done]. cbn [mbind outcome_bind].
  destruct (fill_txs_total (CrossShardRoot (bHeader b)) (bool_decide (is_Some t)) t) as [r1 ->].
  destruct (fill_txs_total (CrossShardRoot (bHeader b)) (bool_decide (is_Some (CrossShardTxs b)))
    (CrossShardTxs b)) as [r2 ->]. cbn [mbind outcome_bind].
  destruct (fill (OutputTxsRoot _) _ _); [|done]. cbn [mbind outcome_bind].
  destruct (fill (LastAggSigRoot _) _ _); [|done]. cbn [mbind outcome_bind].
  match goal with |- context [mbind _ (match CI b with Some _ => _ | None => ?x end)] =>
    destruct (match CI b with Some ci => _ | None => x end) as [[ci r]|]; [|done] end.
  cbn [mbind outcome_bind].
  destruct (fill (CommitCertificateRoot _) _ _); [|done]. cbn [mbind outcome_bind].
  destruct (fill (CommitTxsListRoot _) _ _); [|done]. cbn [mbind outcome_bind].
  unfold block_leaves, package_leaves.
  cbn [bHeader HashPointer ChainID hdView hdRound hdTime PrepareRoot CrossShardRoot OutputTxsRoot
    LastAggSigRoot CommitIntentionRoot CommitCertificateRoot CommitTxsListRoot StateRoot].
  match goal with |- context [mbind (λ leaves, mbind _ (ProofsFromByteSlices leaves)) ?x] =>
    destruct x as [leaves|]; [|done] end.
  cbn [mbind outcome_bind]. by destruct (ProofsFromByteSlices leaves) as [[hash proofs]|].
Qed.

(** The roots a received header carries. *)
Definition roots_set (h : Header) : Prop :=
  PrepareRoot h ≠ [] ∧ OutputTxsRoot h ≠ [] ∧ LastAggSigRoot h ≠ [] ∧ CommitIntentionRoot h ≠ [] ∧
  CommitCertificateRoot h ≠ [] ∧ CommitTxsListRoot h ≠ [].

Lemma fillInHeader_set b : roots_set (bHeader b) → ∃ b', fillInHeader b = Ret b' ∧
  committed (bHeader b') = committed (bHeader b) ∧ hd_hash (bHeader b') = hd_hash (bHeader b).
Proof.
  intros (R1 & R2 & R3 & R4 & R5 & R6). unfold fillInHeader.
  rewrite (fill_kept (PrepareRoot _)), (fill_kept (OutputTxsRoot _)), (fill_kept (LastAggSigRoot _)),
    (fill_kept (CommitCertificateRoot _)), (fill_kept (CommitTxsListRoot _)) by done.
  cbn [mbind outcome_bind].
  destruct (fill_txs_total (CrossShardRoot (bHeader b)) (bool_decide (is_Some (CrossShardTxs b)))
    (CrossShardTxs b)) as [r ->]. cbn [mbind outcome_bind].
  assert ((zlen (CommitIntentionRoot (bHeader b)) =? 0) = false) as ->.
  { apply Z.eqb_neq. by intros E%zlen_nil_inv. }
  destruct (CI b); cbn [mbind outcome_bind]; by eexists.
Qed.

Lemma block_leaves_committed h h' : committed h = committed h' → block_leaves h = block_leaves h'.
Proof.
  unfold committed. intros [= E1 E2 E3 E4 E5 E6 E7 E8 E9 E10 E11 E12].
  unfold block_leaves, package_leaves.
  by rewrite E1, E2, E3, E4, E5, E6, E7, E8, E9, E10, E11, E12.
Qed.

(** The roots of a received header are taken as they are: a block whose
    header carries its roots has the same hash whatever transactions, votes,
    intentions, certificates and proofs come with the header. *)
Theorem Block_Hash_ignores_body (b1 b2 : Block)
    (Eh : bHeader b1 = bHeader b2) (Hr : roots_set (bHeader b1)) :
  snd <$> Block_Hash b1 = snd <$> Block_Hash b2.
Proof.
  unfold Block_Hash. rewrite <- Eh. destruct (zlen (hd_hash (bHeader b1)) =? 0); [|cbn; by rewrite Eh].
  unfold calBlockHashAndProof.
  destruct (fillInHeader_set b1) as (f1 & -> & C1 & _); [done|].
  destruct (fillInHeader_set b2) as (f2 & -> & C2 & _); [by rewrite <- Eh|].
  cbn [mbind outcome_bind]. rewrite (block_leaves_committed (bHeader f1) (bHeader f2)) by congruence.
  destruct (block_leaves (bHeader f2)) as [ls|]; [|done]. cbn [mbind outcome_bind].
  by destruct (ProofsFromByteSlices ls) as [[hash proofs]|].
Qed.

End BlockProofs.
