(* ===== verification/CrossShard.v ===== *)
(** * Cross-shard proofs and certificates

    Theorems about [UrdTypes]: the proofs of output transactions and commit
    intentions that shards exchange, the intersection of commit certificates
    and the validation of received blocks. *)

From stdpp Require Import base list gmap strings numbers.
From Stdlib Require Import ZArith Lia.
From S2P Require Import Prelude Convert BitVector Hash Merkle MerkleProofs MerkleGen Wire Signer HotStuff UrdTypes BlockProofs.

Section CrossShard.
Context {H : HashFn} {W : UrdWire}.

(** ** Proofs of the leaves of a block *)

Lemma verify_root sp root leaf : Proof_Verify sp root leaf = Ret None →
  ∃ c, ComputeRootHash sp = Ret c ∧ sbytes c = root.
Proof.
  unfold Proof_Verify. do 2 (case_match; [done|]). case_match; [done|].
  destruct (ComputeRootHash sp) as [c|]; [|done]. cbn [mbind outcome_bind].
  destruct (bytes_Equal (sbytes c) root) eqn:E; [|done]. bool_to_prop. eauto.
Qed.

(** After [Block_Hash] the block holds one verifying proof per leaf. *)
Lemma ProofOfIndex_spec b b1 hash : hd_hash (bHeader b) = [] → Block_Hash b = Ret (b1, hash) →
  ∃ leaves, block_leaves (bHeader b1) = Ret leaves ∧ HashFromByteSlices leaves = Ret hash ∧
    length leaves = 7%nat ∧
    ∀ i leaf, leaves !! i = Some leaf → ∃ sp, ProofOfIndex b1 (Z.of_nat i) = Ret (b1, Some sp) ∧
      Total sp = 7 ∧ Index sp = Z.of_nat i ∧ Proof_Verify sp hash leaf = Ret None.
Proof.
  intros N E. destruct (Block_Hash_inv b b1 hash N E) as (f & ls & ps & _ & L & P & R & ->).
  exists ls. split; [done|]. split; [done|].
  assert (length ls = 7%nat) as H7.
  { apply block_leaves_inv in L as (? & ? & _ & _ & ->). done. }
  split; [done|]. intros i leaf Hi.
  destruct (proofs_spec ls) as (root & ps' & P' & R' & Hlen & Hps).
  rewrite P in P'. injection P' as <- <-.
  destruct (Hps i leaf Hi) as (sp & Hsp & Ht & Hx & Hv & _). exists sp.
  apply lookup_lt_Some in Hi as Hlt.
  unfold ProofOfIndex. cbn [with_hash bHeader mkproof].
  assert (zlen ps = 7) as Z7 by (unfold zlen; lia). rewrite Z7.
  change (7 =? 0) with false. cbv iota. cbn [mbind outcome_bind with_hash bHeader mkproof].
  rewrite Z7. destruct (Z.leb_spec 0 (Z.of_nat i)); [|lia]. destruct (Z.ltb_spec (Z.of_nat i) 7); [|lia].
  cbn [andb]. assert (idx ps (Z.of_nat i) = Ret sp) as ->.
  { apply idx_Ret. rewrite Nat2Z.id. split; [lia|done]. }
  cbn [mbind outcome_bind]. split_and!; try done. unfold zlen in Ht. by rewrite H7 in Ht.
Qed.

Lemma block_leaf_hash b b1 hash : hd_hash (bHeader b) = [] → Block_Hash b = Ret (b1, hash) →
  ∃ f proofs, filled b f ∧ b1 = with_hash f hash proofs.
Proof. intros N E. destruct (Block_Hash_inv b b1 hash N E) as (f & ls & ps & F & _ & _ & _ & ->). eauto. Qed.

Lemma hashed_output_root b b1 hash : hd_hash (bHeader b) = [] → OutputTxsRoot (bHeader b) = [] →
  Block_Hash b = Ret (b1, hash) →
  OPT b1 = OPT b ∧ HashFromByteSlices (OPT b) = Ret (OutputTxsRoot (bHeader b1)).
Proof.
  intros N Ho E. destruct (block_leaf_hash b b1 hash N E) as (f & ps & F & ->).
  split; [apply F|]. by apply (fill_empty _ _ _ _ Ho eq_refl), (fl_output _ _ F).
Qed.

(** The two verifications of an output proof in one. *)
Lemma OTP_Verify_None bp op root txs : OTP_Verify (Some {| BlockProof := Some bp; OPTProof := Some op |}) root txs = Ret None ↔
  ∃ r h, ComputeRootHash op = Ret r ∧ Txs_Hash txs = Ret h ∧
    Proof_Verify op (sbytes r) h = Ret None ∧ Proof_Verify bp root (sbytes r) = Ret None.
Proof.
  unfold OTP_Verify. cbn [OPTProof BlockProof deref mbind outcome_bind].
  destruct (ComputeRootHash op) as [r|]; [|by split; [|intros (?&?&?&_)]]. cbn [mbind outcome_bind].
  destruct (Txs_Hash txs) as [h|]; [|by split; [|intros (?&?&_&?&_)]]. cbn [mbind outcome_bind].
  split.
  - intros E. exists r, h. destruct (Proof_Verify op (sbytes r) h) as [[e|]|]; try done.
    cbn in E. by destruct (Proof_Verify bp root (sbytes r)) as [[e|]|].
  - intros (r' & h' & [= <-] & [= <-] & -> & E). cbn [mbind outcome_bind]. by rewrite E.
Qed.

(** The proof a block gives for the output of position [i] verifies against the
    block hash and any transactions with the root recorded there. *)
Lemma GetOutputTxsProofOf_complete b b1 hash (i : nat) txs h
    (N : hd_hash (bHeader b) = []) (Ho : OutputTxsRoot (bHeader b) = [])
    (E : Block_Hash b = Ret (b1, hash)) (Ht : Txs_Hash txs = Ret h) (Hi : OPT b !! i = Some h) :
  ∃ otp, GetOutputTxsProofOf b1 (Z.of_nat i) = Ret (b1, otp) ∧
    OTP_Verify (Some otp) hash txs = Ret None.
Proof.
  destruct (hashed_output_root b b1 hash N Ho E) as [EO ER].
  destruct (ProofOfIndex_spec b b1 hash N E) as (ls & L & _ & _ & Hps).
  apply block_leaves_inv in L as (? & ? & _ & _ & ->).
  destruct (Hps 3%nat (OutputTxsRoot (bHeader b1)) eq_refl) as (bp & Hbp & _ & _ & Vb).
  destruct (proofs_spec (OPT b)) as (root & ps & P & R & _ & Hop). rewrite ER in R. injection R as <-.
  destruct (Hop i h Hi) as (op & Op & _ & _ & Vo & _).
  exists {| BlockProof := Some bp; OPTProof := Some op |}.
  unfold GetOutputTxsProofOf, GetOutputTxsProof. change 3 with (Z.of_nat 3). rewrite Hbp.
  cbn [mbind outcome_bind]. rewrite EO, P. cbn [mbind outcome_bind].
  assert (idx ps (Z.of_nat i) = Ret op) as ->.
  { apply idx_Ret. rewrite Nat2Z.id. split; [lia|done]. }
  split; [done|]. apply OTP_Verify_None.
  destruct (verify_root _ _ _ Vo) as (c & Ec & Es). exists c, h. by rewrite Es.
Qed.

(** The inputs hashed while an output proof is checked. *)
Definition otp_hashed (bp op : MerkleProof) (txs : Txs) (x : bytes) : Prop :=
  (∃ r, ComputeRootHash op = Ret r ∧
     x ∈ verify_hashed (Index bp) (Total bp) (sbytes r) (reverse (Aunts bp))) ∨
  (∃ h, Txs_Hash txs = Ret h ∧ x ∈ verify_hashed (Index op) (Total op) h (reverse (Aunts op))) ∨
  hashed (txs_list txs) x.
(** The inputs hashed for a block and for the transactions it outputs. *)
Definition outputs_hashed (b : Block) (outs : list Txs) (x : bytes) : Prop :=
  block_hashed b x ∨ ∃ t, t ∈ outs ∧ hashed (txs_list t) x.

Lemma block_leaves_root b b1 hash : hd_hash (bHeader b) = [] → Block_Hash b = Ret (b1, hash) →
  ∃ ls, block_leaves (bHeader b1) = Ret ls ∧ HashFromByteSlices ls = Ret hash.
Proof. intros N E. destruct (ProofOfIndex_spec b b1 hash N E) as (ls & L & R & _). eauto. Qed.

(** A leaf of the block at a checked position is that header field. *)
Lemma verify_leaf b b1 hash sp leaf (i : nat) : hd_hash (bHeader b) = [] →
  Block_Hash b = Ret (b1, hash) → Index sp = Z.of_nat i → Total sp = 7 →
  Proof_Verify sp hash leaf = Ret None →
  (∃ ls, block_leaves (bHeader b1) = Ret ls ∧ ls !! i = Some leaf) ∨
  CollisionIn (.∈ verify_hashed (Index sp) (Total sp) leaf (reverse (Aunts sp))) (block_hashed b1).
Proof.
  intros N E Hi H7 V. destruct (ProofOfIndex_spec b b1 hash N E) as (ls & L & R & Hlen & _).
  destruct (verify_item ls hash leaf sp R) as [[_ Hl]|Hc]; [unfold zlen; lia|done|left|right].
  - exists ls. split; [done|]. by rewrite Hi, Nat2Z.id in Hl.
  - eapply CollisionIn_mono; [done|done|]. intros x Hx. exists ls. split; [by apply hl_block|done].
Qed.

(** C32. Soundness, with the proof positions checked: if an output proof at leaf 3
    of a block and for as many outputs as the block has verifies, the
    transactions are those the block outputs at that position; or an input
    hashed by the check collides with one hashed for the block. *)
Theorem OTP_Verify_sound b b1 hash outs bp op txs
    (N : hd_hash (bHeader b) = []) (Ho : OutputTxsRoot (bHeader b) = [])
    (Houts : mapM_out Txs_Hash outs = Ret (OPT b)) (E : Block_Hash b = Ret (b1, hash))
    (Ib : Index bp = 3) (Tb : Total bp = 7) (To : Total op = zlen (OPT b))
    (V : OTP_Verify (Some {| BlockProof := Some bp; OPTProof := Some op |}) hash txs = Ret None) :
  (∃ t, outs !! Z.to_nat (Index op) = Some t ∧ txs_list t = txs_list txs) ∨
  CollisionIn (otp_hashed bp op txs) (outputs_hashed b1 outs).
Proof.
  apply OTP_Verify_None in V as (r & h & Er & Eh & Vo & Vb).
  destruct (hashed_output_root b b1 hash N Ho E) as [EO ER].
  destruct (verify_leaf b b1 hash bp (sbytes r) 3 N E Ib Tb Vb) as [(ls & L & Hl)|Hc].
  2:{ right. eapply CollisionIn_mono; [done|..]; intros y ?; left; [by exists r|done]. }
  apply block_leaves_inv in L as (? & ? & _ & _ & ->). injection Hl as Hr. rewrite <- Hr in Vo.
  destruct (verify_item (OPT b) _ h op ER To Vo) as [[_ Hi]|Hc].
  2:{ right. eapply CollisionIn_mono; [done|..]; intros y ?.
      - right; left. by exists h.
      - left. exists (OPT b1). split; [apply hl_opt|by rewrite EO]. }
  apply mapM_out_Ret in Houts.
  destruct (Forall2_lookup_r _ _ _ _ _ Houts Hi) as (t & Ht & Et).
  destruct (root_inj _ _ _ Et Eh) as [Eq|Hc]; [left; by exists t|right].
  destruct Hc as (y & z & Hy & Hz & Hne & Hs). exists z, y. split_and!; try done.
  - right; by right.
  - right. exists t. split; [by eapply list_elem_of_lookup_2|done].
Qed.

(** Without that check it is not sound: a prepared transaction whose bytes are
    the root of a list of transactions makes that list pass as output of the
    block, whatever the block outputs. *)
Theorem OTP_Verify_forgeable b b1 hash ptxs (k : nat) forged h
    (N : hd_hash (bHeader b) = []) (Hp : PrepareRoot (bHeader b) = [])
    (P : PTXS b = Some ptxs) (Hh : Txs_Hash forged = Ret h) (Hk : ptxs !! k = Some h)
    (E : Block_Hash b = Ret (b1, hash)) :
  ∃ otp, OTP_Verify (Some otp) hash forged = Ret None.
Proof.
  destruct (block_leaf_hash b b1 hash N E) as (f & ps & F & ->).
  pose proof (fl_prepare _ _ F) as Fp. rewrite Hp, P, bool_decide_true in Fp by done.
  apply fill_empty in Fp; [|done..].
  destruct (ProofOfIndex_spec b _ hash N E) as (ls & L & _ & _ & Hps).
  apply block_leaves_inv in L as (? & ? & _ & _ & ->).
  destruct (Hps 2%nat _ eq_refl) as (bp & _ & _ & _ & Vb).
  destruct (proofs_spec ptxs) as (root & pr & _ & R & _ & Hop). unfold Txs_Hash in Fp. simpl in Fp.
  rewrite Fp in R. injection R as <-. destruct (Hop k h Hk) as (op & _ & _ & _ & Vo & _).
  exists {| BlockProof := Some bp; OPTProof := Some op |}. apply OTP_Verify_None.
  destruct (verify_root _ _ _ Vo) as (c & Ec & Es). exists c, h. by rewrite Es.
Qed.

(** ** Proofs of commit intentions *)

Lemma filled_intention b f ci : fresh b → filled b f → CI b = Some ci →
  ∃ ci', CI f = Some ci' ∧ IntentionHash ci' = IntentionHash ci ∧
    HashFromByteSlices (IntentionHash ci) = Ret (ci_leftHash ci') ∧
    HashFromByteSlices [ci_leftHash ci'; ci_rightHash ci'] = Ret (CommitIntentionRoot (bHeader f)).
Proof.
  intros R F Hci. pose proof (fl_ci _ _ F) as C. rewrite Hci, (fr_ciroot _ R) in C.
  change (zlen (@nil Z) =? 0) with true in C. destruct C as (ci' & C & J). exists ci'.
  apply CI_Hash_inv in C as (A & _ & B & D); [done|by apply (fr_ci _ R)].
Qed.

(** The proof of intention a leader attaches to its message: the proof of leaf
    4 of its block and the right half of the intention hash. *)
Definition intention_proof (b : Block) (ci : CommitIntention) : outcome ProofOfIntention :=
  '(_, p) ← GetCommitIntentionProof b;
  '(_, r) ← RrightHash ci;
  Ret {| IntentionHashProof := p; RightHash := r |}.

Lemma RrightHash_cached ci l r : HashFromByteSlices [ci_leftHash ci; ci_rightHash ci] = Ret l →
  zlen (ci_rightHash ci) = r → 0 < r → RrightHash ci = Ret (ci, ci_rightHash ci).
Proof. intros _ Hr Hp. unfold RrightHash. destruct (Z.eqb_spec (zlen (ci_rightHash ci)) 0); [lia|done]. Qed.

(** The root of a hashed list is as long as a hash. *)
Lemma CI_Hash_right ci ci' h : ci_leftHash ci = [] → ci_rightHash ci = [] → CI_Hash ci = Ret (ci', h) →
  zlen (ci_rightHash ci') = HashSize.
Proof.
  unfold CI_Hash, LeftHash, RrightHash, IB_Hash. intros -> Er E.
  change (zlen (@nil Z) =? 0) with true in E. cbv iota in E.
  destruct (HashFromByteSlices (IntentionHash ci)) as [l|]; [|done].
  cbn [mbind outcome_bind ci_rightHash AggregatedSignatures IntentionHash ci_leftHash] in E.
  rewrite Er in E. change (zlen (@nil Z) =? 0) with true in E. cbv iota in E.
  destruct (mapM_out Agg_Hash _) as [lst|]; [|done]. cbn [mbind outcome_bind] in E.
  destruct (HashFromByteSlices lst) as [r|] eqn:Hr; [|done]. cbn [mbind outcome_bind] in E.
  bind_inv E. injection E as <- _. by apply root_size in Hr.
Qed.

Lemma intention_complete b b1 hash ci brief : fresh b → CI b = Some ci →
  Block_Hash b = Ret (b1, hash) → IB_Hash (IntentionHash ci) = Ret brief →
  ∃ ci1 poi, CI b1 = Some ci1 ∧ IntentionHash ci1 = IntentionHash ci ∧
    intention_proof b1 ci1 = Ret poi ∧ POI_Verify (Some poi) hash brief = Ret None.
Proof.
  intros R Hci E Hb. destruct (block_leaf_hash b b1 hash (fr_hash _ R) E) as (f & ps & F & ->).
  destruct (filled_intention b f ci R F Hci) as (ci' & J & A & B & D).
  pose proof (fl_ci _ _ F) as C. rewrite Hci, (fr_ciroot _ R) in C.
  change (zlen (@nil Z) =? 0) with true in C. destruct C as (ci2 & C & J2).
  rewrite J in J2. injection J2 as <-. apply CI_Hash_right in C as Hr; [|by apply (fr_ci _ R)..].
  destruct (ProofOfIndex_spec b _ hash (fr_hash _ R) E) as (ls & L & _ & _ & Hps).
  apply block_leaves_inv in L as (? & ? & _ & _ & ->).
  destruct (Hps 4%nat _ eq_refl) as (sp & Hsp & _ & _ & V).
  exists ci', {| IntentionHashProof := Some sp; RightHash := ci_rightHash ci' |}.
  split; [done|]. split; [done|]. split.
  - unfold intention_proof, GetCommitIntentionProof. change 4 with (Z.of_nat 4). rewrite Hsp.
    cbn [mbind outcome_bind].
    rewrite (RrightHash_cached ci' _ HashSize D Hr) by (unfold HashSize; lia). done.
  - unfold IB_Hash in Hb. rewrite B in Hb. injection Hb as <-.
    unfold POI_Verify. cbn [RightHash IntentionHashProof deref mbind outcome_bind].
    rewrite D. cbn [mbind outcome_bind]. exact V.
Qed.

(** The inputs hashed while a proof of intention is checked. *)
Definition poi_hashed (sp : MerkleProof) (brief : list bytes) (left right : bytes) (x : bytes) : Prop :=
  hashed brief x ∨ hashed [left; right] x ∨
  ∃ h, HashFromByteSlices [left; right] = Ret h ∧
    x ∈ verify_hashed (Index sp) (Total sp) h (reverse (Aunts sp)).

(** Soundness of a proof of intention, with its position checked: a brief
    proved at leaf 4 of a block is the block's commit intention, or an input
    hashed by the check collides with one hashed for the block. *)
Theorem POI_Verify_sound b b1 hash ci sp right brief left
    (R : fresh b) (Hci : CI b = Some ci) (E : Block_Hash b = Ret (b1, hash))
    (Hb : IB_Hash brief = Ret left) (Ii : Index sp = 4) (Ti : Total sp = 7)
    (V : POI_Verify (Some {| IntentionHashProof := Some sp; RightHash := right |}) hash left = Ret None) :
  brief = IntentionHash ci ∨ CollisionIn (poi_hashed sp brief left right) (block_hashed b1).
Proof.
  unfold POI_Verify in V. cbn [RightHash IntentionHashProof deref] in V.
  destruct (HashFromByteSlices [left; right]) as [h|] eqn:Eh; [|done]. cbn [mbind outcome_bind] in V.
  destruct (verify_leaf b b1 hash sp h 4 (fr_hash _ R) E Ii Ti V) as [(ls & L & Hl)|Hc].
  2:{ right. eapply CollisionIn_mono; [done|..|done]. intros y ?. right; right. by exists h. }
  apply block_leaves_inv in L as (? & ? & _ & _ & ->). injection Hl as Hr.
  destruct (block_leaf_hash b b1 hash (fr_hash _ R) E) as (f & ps & F & ->).
  destruct (filled_intention b f ci R F Hci) as (ci' & J & A & B & D). cbn in Hr. rewrite Hr in D.
  assert (∀ y, block_hashed f y → block_hashed (with_hash f hash ps) y) as Hf by (intros y; apply hashed_filled).
  destruct (root_inj _ _ _ Eh D) as [Ep|Hc].
  2:{ right. eapply CollisionIn_mono; [done|..]; intros y ?; [by right; left|].
      apply Hf. exists [ci_leftHash ci'; ci_rightHash ci']. split; [by apply hl_intention|done]. }
  injection Ep as -> ->.
  destruct (root_inj _ _ _ Hb B) as [Eb|Hc]; [by left|right].
  eapply CollisionIn_mono; [done|..]; intros y ?; [by left|].
  apply Hf. exists (IntentionHash ci'). split; [by apply hl_brief|by rewrite A].
Qed.

(** A message made from a block as the leader makes it is accepted: with the
    intention, its proof, the output for destination [i] and its proof, under
    a vote whose last hash is the block hash, [ValidateBasic] succeeds. *)
Theorem CSM_honest_accepted b b1 hash ci vote chain (i : nat) txs h
    (R : fresh b) (Hci : CI b = Some ci) (E : Block_Hash b = Ret (b1, hash))
    (Hv : GetLastHashOfAggVote vote = hash) (Ht : Txs_Hash txs = Ret h) (Hi : OPT b !! i = Some h) :
  ∃ ci1 poi otp, CI b1 = Some ci1 ∧ intention_proof b1 ci1 = Ret poi ∧
    GetOutputTxsProofOf b1 (Z.of_nat i) = Ret (b1, otp) ∧
    CSM_ValidateBasic {| SourceChain := chain; csmAggVote := Some vote; csmBrief := GetBrief ci1;
      csmPOI := Some poi; OPTXs := txs; csmOTP := Some otp |} = Ret None.
Proof.
  destruct (HashFromByteSlices_total (IntentionHash ci)) as (brief & Eb & _).
  destruct (intention_complete b b1 hash ci brief R Hci E Eb) as (ci1 & poi & J & A & P & V).
  destruct (GetOutputTxsProofOf_complete b b1 hash i txs h (fr_hash _ R) (fr_output _ R) E Ht Hi)
    as (otp & G & Vo).
  exists ci1, poi, otp. split_and!; try done.
  unfold CSM_ValidateBasic, CSM_GetLastHash.
  cbn [csmAggVote csmBrief csmPOI csmOTP OPTXs deref mbind outcome_bind]. rewrite Hv.
  unfold GetBrief, IB_Hash. rewrite A, Eb. cbn [mbind outcome_bind]. rewrite V. cbn [mbind outcome_bind].
  by rewrite Vo.
Qed.

(** ** The result of a commit certificate *)

(** One cell of [Result]: the intention agreed so far and whether another was
    seen, after one more entry. *)
Definition cell_step (c : bytes * bool) (bz : bytes) : bytes * bool :=
  if bytes_Equal (fst c) bz || (zlen bz =? 0) then c
  else if 0 <? zlen (fst c) then (fst c, true) else (bz, snd c).

(** The entries of column [i] of a certificate, in order. *)
Definition column (cc : CommitCertificate) (i : nat) : list bytes :=
  omap (λ core, coreBrief core !! i) cc.

Definition cell (res : list bytes * list bool) (i : nat) (c : bytes * bool) : Prop :=
  fst res !! i = Some (fst c) ∧ snd res !! i = Some (snd c).

Lemma result_brief_spec brief : ∀ (k : nat) (res : list bytes * list bool),
  length (fst res) = length (snd res) → (k + length brief ≤ length (fst res))%nat →
  ∃ res', result_brief (Z.of_nat k) brief res = Ret res' ∧
    length (fst res') = length (fst res) ∧ length (snd res') = length (snd res) ∧
    ∀ i c, cell res i c → cell res' i
      (if decide (k ≤ i)%nat then match brief !! (i - k)%nat with Some bz => cell_step c bz | None => c end
       else c).
Proof.
  induction brief as [|bz brief IH]; intros k [results errs] El Hk; cbn [fst snd length] in *.
  - exists (results, errs). split_and!; try done. intros i c Hc. case_decide; [rewrite lookup_nil|]; done.
  - destruct (lookup_lt_is_Some_2 results k) as [r Hr]; [lia|].
    destruct (lookup_lt_is_Some_2 errs k) as [e He]; [lia|].
    assert (∀ res', length (fst res') = length results → length (snd res') = length errs →
      (∀ i c, cell (results, errs) i c → cell res' i (if decide (i = k) then cell_step c bz else c)) →
      ∃ res'', result_brief (Z.of_nat (S k)) brief res' = Ret res'' ∧
        length (fst res'') = length results ∧ length (snd res'') = length errs ∧
        ∀ i c, cell (results, errs) i c → cell res'' i
          (if decide (k ≤ i)%nat then match (bz :: brief) !! (i - k)%nat with Some b => cell_step c b | None => c end
           else c)) as Hnext.
    { intros res' L1 L2 Hstep. destruct (IH (S k) res') as (res'' & E & L1' & L2' & Hc); [lia|lia|].
      exists res''. split; [done|]. split; [lia|]. split; [lia|]. intros i c Hi.
      specialize (Hc i _ (Hstep i c Hi)).
      destruct (decide (k ≤ i)%nat), (decide (S k ≤ i)%nat), (decide (i = k)); try lia; try done.
      - replace (i - k)%nat with (S (i - S k)) by lia. done.
      - replace (i - k)%nat with 0%nat by lia. done. }
    cbn [result_brief fst snd]. assert (idx results (Z.of_nat k) = Ret r) as ->.
    { apply idx_Ret. rewrite Nat2Z.id. split; [lia|done]. }
    cbn [mbind outcome_bind]. replace (Z.of_nat k + 1) with (Z.of_nat (S k)) by lia.
    destruct (bytes_Equal r bz || (zlen bz =? 0)) eqn:E1; [|destruct (0 <? zlen r) eqn:E2].
    + apply Hnext; [done..|]. intros i c [C1 C2]. cbn [fst snd] in *. case_decide; [subst|by split].
      rewrite Hr in C1. injection C1 as C1. unfold cell_step. rewrite <- C1, E1. by split; cbn; rewrite <- ?C1.
    + rewrite upd_in_range by (unfold zlen; lia). cbn [mbind outcome_bind]. rewrite Nat2Z.id.
      apply Hnext; cbn [fst snd]; [done|by rewrite length_insert|]. intros i c [C1 C2]. cbn [fst snd] in *.
      case_decide; [subst|split; cbn; [done|by rewrite list_lookup_insert_ne by done]].
      rewrite Hr in C1. injection C1 as C1. unfold cell_step. rewrite <- C1, E1, E2.
      split; cbn; [by rewrite Hr|]. rewrite list_lookup_insert_eq; [done|lia].
    + rewrite upd_in_range by (unfold zlen; lia). cbn [mbind outcome_bind]. rewrite Nat2Z.id.
      apply Hnext; cbn [fst snd]; [by rewrite length_insert|done|]. intros i c [C1 C2]. cbn [fst snd] in *.
      case_decide; [subst|split; cbn; [by rewrite list_lookup_insert_ne by done|done]].
      rewrite Hr in C1. injection C1 as C1. unfold cell_step. rewrite <- C1, E1, E2.
      split; cbn; [|done]. rewrite list_lookup_insert_eq; [done|lia].
Qed.

Lemma result_brief_panics brief : ∀ (k : nat) (res : list bytes * list bool),
  length (fst res) = length (snd res) → (k ≤ length (fst res))%nat →
  (length (fst res) < k + length brief)%nat → result_brief (Z.of_nat k) brief res = Panic.
Proof.
  induction brief as [|bz brief IH]; intros k [results errs] El Hk Hl; cbn [fst snd length] in *; [lia|].
  cbn [result_brief fst snd]. destruct (decide (k = length results)) as [->|Hne].
  - assert (idx results (Z.of_nat (length results)) = Panic) as ->; [|done].
    unfold idx. destruct (Z.ltb_spec (Z.of_nat (length results)) 0); [lia|].
    by rewrite Nat2Z.id, lookup_ge_None_2.
  - destruct (idx_in_range results (Z.of_nat k)) as (r & -> & _); [unfold zlen; lia|].
    cbn [mbind outcome_bind]. replace (Z.of_nat k + 1) with (Z.of_nat (S k)) by lia.
    case_match; [by apply IH; cbn; lia|].
    case_match; rewrite upd_in_range by (unfold zlen; lia); cbn [mbind outcome_bind];
      apply IH; cbn [fst snd]; rewrite ?length_insert; lia.
Qed.

Abbreviation result_step := (λ (res : list bytes * list bool) core, result_brief 0 (coreBrief core) res).

Lemma result_fold cc : ∀ res, length (fst res) = length (snd res) →
  (∀ core, core ∈ cc → (length (coreBrief core) ≤ length (fst res))%nat) →
  ∃ res', foldM result_step cc res = Ret res' ∧
    length (fst res') = length (fst res) ∧ length (snd res') = length (snd res) ∧
    ∀ i c, cell res i c → cell res' i (foldl cell_step c (column cc i)).
Proof.
  induction cc as [|core cc IH]; intros res El Hall; [by exists res|].
  destruct (result_brief_spec (coreBrief core) 0 res El) as (res1 & E & L1 & L2 & Hc).
  { apply Hall. by left. }
  destruct (IH res1) as (res' & E' & L1' & L2' & Hc'); [lia|intros; rewrite L1; apply Hall; by right|].
  exists res'. cbn [foldM]. change 0 with (Z.of_nat 0). rewrite E. split; [done|]. split; [lia|]. split; [lia|].
  intros i c Hi. specialize (Hc i c Hi). rewrite decide_True, Nat.sub_0_r in Hc by lia.
  unfold column. simpl. destruct (coreBrief core !! i); simpl; by apply Hc'.
Qed.

Lemma result_fold_panics cc : ∀ res, length (fst res) = length (snd res) →
  (∃ core, core ∈ cc ∧ (length (fst res) < length (coreBrief core))%nat) →
  foldM result_step cc res = Panic.
Proof.
  induction cc as [|core cc IH]; intros res El (c & Hc & Hl); [by apply not_elem_of_nil in Hc|].
  cbn [foldM]. destruct (decide (length (coreBrief core) ≤ length (fst res))%nat).
  - destruct (result_brief_spec (coreBrief core) 0 res El) as (res1 & E & L1 & L2 & _); [done|].
    change 0 with (Z.of_nat 0). rewrite E. apply IH; [lia|]. exists c. rewrite L1. split; [|done].
    apply elem_of_cons in Hc as [->|]; [lia|done].
  - change 0 with (Z.of_nat 0). by rewrite result_brief_panics by lia.
Qed.

Lemma cell_fold col : ∀ r e, let c := foldl cell_step (r, e) col in
  (r ≠ [] → fst c = r) ∧ (r = [] → fst c = [] ∨ fst c ∈ col) ∧
  (fst c = [] ↔ r = [] ∧ Forall (λ x, x = []) col) ∧
  (snd c = true ↔ e = true ∨ ∃ x, x ∈ col ∧ x ≠ [] ∧ x ≠ fst c).
Proof.
  induction col as [|bz col IH]; intros r e; cbn zeta.
  - cbn. split_and!; try done; [by left| |]; split; try done; [by intros [? _]|by left|].
    intros [|(x & Hx & _)]; [done|by apply not_elem_of_nil in Hx].
  - cbn [foldl].
    assert (cell_step (r, e) bz = if bytes_Equal r bz || (zlen bz =? 0) then (r, e)
      else if 0 <? zlen r then (r, true) else (bz, e)) as Hs by done.
    assert (∀ l : bytes, (zlen l =? 0) = true ↔ l = []) as Hz.
    { intros l. rewrite Z.eqb_eq. split; [apply zlen_nil_inv|by intros ->]. }
    destruct (bytes_Equal r bz || (zlen bz =? 0)) eqn:E1; [|destruct (0 <? zlen r) eqn:E2].
    + rewrite Hs. destruct (IH r e) as (A & B & C & D).
      assert (bz = r ∨ bz = []) as Hbz.
      { apply orb_true_iff in E1 as [E1|E1]; [left; by apply bytes_Equal_true in E1|right; by apply Hz]. }
      split; [done|]. split; [intros Hr; destruct (B Hr); [by left|right; by right]|]. split.
      * rewrite C. split; intros [Hr Hall]; (split; [done|]); [|by inversion Hall].
        constructor; [by destruct Hbz; subst|done].
      * rewrite D. split; (intros [|(x & Hx & Hne & Hnc)]; [by left|right]).
        -- exists x. split; [by right|done].
        -- apply elem_of_cons in Hx as [->|Hx]; [|by exists x].
           destruct Hbz as [->|]; [|done]. by rewrite A in Hnc.
    + rewrite Hs. destruct (IH r true) as (A & B & C & D). bool_to_prop.
      assert (r ≠ []) as Hr by (intros ->; unfold zlen in *; simpl in *; lia).
      split; [done|]. split; [done|]. split; [rewrite C; split; by intros [? _]|].
      rewrite D. split; [|by left]. intros _. right. exists bz. split; [by left|].
      rewrite A by done. split; [|congruence]. intros ->. unfold zlen in *. simpl in *. lia.
    + rewrite Hs. destruct (IH bz e) as (A & B & C & D). bool_to_prop.
      assert (r = []) as -> by (apply zlen_nil_inv; pose proof (zlen_nonneg r); lia).
      assert (bz ≠ []) as Hbz by (intros ->; unfold zlen in *; simpl in *; lia).
      specialize (A Hbz). rewrite A in *.
      split; [done|]. split; [right; by left|]. split.
      * split; [done|]. intros [_ Hall]. by inversion Hall.
      * rewrite D. split; (intros [|(x & Hx & Hne & Hnc)]; [by left|right]).
        -- exists x. split; [by right|done].
        -- apply elem_of_cons in Hx as [->|Hx]; [done|by exists x].
Qed.

(** The cells of [Result], column by column. *)
Lemma result_spec (cc : CommitCertificate) :
  (CC_Result cc = Panic ↔
     ∃ core, core ∈ cc ∧ (length cc < length (coreBrief core))%nat) ∧
  ∀ results errs, CC_Result cc = Ret (results, errs) →
    length results = length cc ∧ length errs = length cc ∧
    ∀ i r e, results !! i = Some r → errs !! i = Some e →
      (r = [] ↔ Forall (λ x, x = []) (column cc i)) ∧ (r ≠ [] → r ∈ column cc i) ∧
      (e = true ↔ ∃ x, x ∈ column cc i ∧ x ≠ [] ∧ x ≠ r).
Proof.
  unfold CC_Result. set (res0 := (replicate (length cc) [], replicate (length cc) false)).
  assert (length (fst res0) = length cc ∧ length (snd res0) = length cc) as [L1 L2].
  { cbn. by rewrite !length_replicate. }
  destruct (decide (Exists (λ core, length cc < length (coreBrief core))%nat cc)) as [Hex|Hall].
  { apply Exists_exists in Hex as (core & Hc%list_elem_of_In & Hl).
    rewrite result_fold_panics by (try lia; exists core; by rewrite L1). split; [|done].
    split; [by intros _; exists core|done]. }
  apply not_Exists_Forall in Hall; [|apply _]. rewrite Forall_forall in Hall.
  assert (∀ core, core ∈ cc → (length (coreBrief core) ≤ length cc)%nat) as Hle.
  { intros core Hc%list_elem_of_In. specialize (Hall core Hc). simpl in Hall. lia. }
  destruct (result_fold cc res0) as ([results errs] & E & M1 & M2 & Hc);
    [lia|by rewrite L1|]. cbn [fst snd] in *. rewrite E. split.
  { split; [done|]. intros (core & Hc' & Hl). specialize (Hle core Hc'). lia. }
  intros results' errs' [= <- <-]. split; [lia|]. split; [lia|]. intros i r e Hr He.
  apply lookup_lt_Some in Hr as Hlt.
  destruct (Hc i ([], false)) as [C1 C2].
  { split; cbn; apply lookup_replicate; split; (done || lia). }
  cbn [fst snd] in C1, C2. rewrite Hr in C1. rewrite He in C2. injection C1 as C1. injection C2 as C2.
  destruct (cell_fold (column cc i) [] false) as (_ & B & C & D). rewrite <- C1 in B, C, D. rewrite <- C2 in D.
  split; [rewrite C; naive_solver|]. split; [naive_solver|].
  rewrite D. naive_solver.
Qed.

(** [Result] panics exactly when an intention brief has more entries than the
    certificate has cores.  Otherwise it gives, for every column, an intention
    that occurs there, empty exactly when all entries of the column are, and
    an error flag that is set exactly when a non-empty entry differs from it. *)
Theorem CC_Result_spec (cc : CommitCertificate) :
  (CC_Result cc = Panic ↔
     ∃ core, core ∈ cc ∧ (length cc < length (coreBrief core))%nat) ∧
  ∀ results errs, CC_Result cc = Ret (results, errs) →
    length results = length cc ∧ length errs = length cc ∧
    ∀ i r e, results !! i = Some r → errs !! i = Some e →
      (r = [] ↔ Forall (λ x, x = []) (column cc i)) ∧ (r ≠ [] → r ∈ column cc i) ∧
      (e = true ↔ ∃ x, x ∈ column cc i ∧ x ≠ [] ∧ x ≠ r).
Proof. apply result_spec. Qed.

(** ** Validation of a received block *)

Lemma check_intentions_ok l votes : ∀ i, check_intentions i l votes = Ret None →
  ∀ k vote, votes !! k = Some vote → idx l (i + Z.of_nat k) = Ret (GetLastHashOfAggVote vote).
Proof.
  induction votes as [|v votes IH]; intros i E k vote Hk; [done|]. cbn [check_intentions] in E.
  destruct (idx l i) as [h|] eqn:Eh; [|done]. cbn [mbind outcome_bind] in E.
  destruct (bytes_Equal h (GetLastHashOfAggVote v)) eqn:Eb; [|done]. cbn [negb] in E. bool_to_prop.
  destruct k as [|k]; cbn in Hk.
  - injection Hk as <-. rewrite Z.add_0_r. by subst.
  - specialize (IH _ E k vote Hk). by replace (i + Z.of_nat (S k)) with (i + 1 + Z.of_nat k) by lia.
Qed.

Lemma check_certificates_ok votes cc : ∀ i, check_certificates i votes cc = Ret None →
  ∀ k core, cc !! k = Some core → ∃ vote, idx votes (i + Z.of_nat k) = Ret vote ∧
    coreHash core = GetLastHashOfAggVote vote.
Proof.
  induction cc as [|c cc IH]; intros i E k core Hk; [done|]. cbn [check_certificates] in E.
  destruct (idx votes i) as [v|] eqn:Ev; [|done]. cbn [mbind outcome_bind] in E.
  destruct (bytes_Equal (coreHash c) (GetLastHashOfAggVote v)) eqn:Eb; [|done]. cbn [negb] in E. bool_to_prop.
  destruct k as [|k]; cbn in Hk.
  - injection Hk as <-. exists v. by rewrite Z.add_0_r.
  - destruct (IH _ E k core Hk) as (vote & Hv & ?). exists vote.
    by replace (i + Z.of_nat (S k)) with (i + 1 + Z.of_nat k) by lia.
Qed.

Lemma CC_verify_ok cc : ∀ i, CC_verify_from i cc = Ret None → Forall (λ core, Core_Verify core = Ret None) cc.
Proof.
  induction cc as [|c cc IH]; intros i E; [constructor|]. cbn [CC_verify_from] in E.
  destruct (Core_Verify c) as [[e|]|] eqn:Ec; try done. constructor; [done|by eapply IH].
Qed.

Lemma check_ctxs_ok b intentions errs : ∀ i, check_ctxs i b intentions errs = Ret None →
  ∀ k, (k < length intentions)%nat → idx errs (i + Z.of_nat k) = Ret false →
  ∃ proof ci vote txs, idx (CTXSProof b) (i + Z.of_nat k) = Ret proof ∧ CI b = Some ci ∧
    idx (AggregatedSignatures ci) (i + Z.of_nat k) = Ret vote ∧ idx (CTXS b) (i + Z.of_nat k) = Ret txs ∧
    OTP_Verify proof (GetLastHashOfAggVote vote) txs = Ret None.
Proof.
  induction intentions as [|x intentions IH]; intros i E k Hk Hg; [simpl in Hk; lia|].
  cbn [check_ctxs] in E. destruct (idx errs i) as [bad|] eqn:Ei; [|done]. cbn [mbind outcome_bind] in E.
  assert (∀ E' : check_ctxs (i + 1) b intentions errs = Ret None, k ≠ O →
    ∃ proof ci vote txs, idx (CTXSProof b) (i + Z.of_nat k) = Ret proof ∧ CI b = Some ci ∧
    idx (AggregatedSignatures ci) (i + Z.of_nat k) = Ret vote ∧ idx (CTXS b) (i + Z.of_nat k) = Ret txs ∧
    OTP_Verify proof (GetLastHashOfAggVote vote) txs = Ret None) as Hrec.
  { intros E' Hk0. destruct k as [|k]; [done|].
    replace (i + Z.of_nat (S k)) with (i + 1 + Z.of_nat k) in * by lia. apply IH; [done|simpl in Hk; lia|done]. }
  destruct bad.
  - apply Hrec; [done|]. intros ->. by rewrite Z.add_0_r, Ei in Hg.
  - destruct (idx (CTXSProof b) i) as [proof|] eqn:E1; [|done]. cbn [mbind outcome_bind] in E.
    destruct (CI b) as [ci|] eqn:E2; [|done]. cbn [deref mbind outcome_bind] in E.
    destruct (idx (AggregatedSignatures ci) i) as [vote|] eqn:E3; [|done]. cbn [mbind outcome_bind] in E.
    destruct (idx (CTXS b) i) as [txs|] eqn:E4; [|done]. cbn [mbind outcome_bind] in E.
    destruct (OTP_Verify proof (GetLastHashOfAggVote vote) txs) as [[e|]|] eqn:E5; try done.
    destruct k as [|k]; [|by apply Hrec]. rewrite Z.add_0_r. by exists proof, ci, vote, txs.
Qed.

(** What [ValidateBasic] establishes of position [k] of a block of a late view. *)
Record position_ok (b : Block) (ci : CommitIntention) (k : nat) : Prop := {
  pos_vote : ∃ vote core txs proof, AggregatedSignatures ci !! k = Some vote ∧ CC b !! k = Some core ∧
    CTXS b !! k = Some txs ∧ CTXSProof b !! k = Some proof ∧
    IntentionHash ci !! k = Some (GetLastHashOfAggVote vote) ∧
    coreHash core = GetLastHashOfAggVote vote ∧ Core_Verify core = Ret None ∧
    ((∀ x y, x ∈ column (CC b) k → y ∈ column (CC b) k → x ≠ [] → y ≠ [] → x = y) →
     OTP_Verify proof (GetLastHashOfAggVote vote) txs = Ret None)
}.

Lemma validate_ci_cc_ok b : validate_ci_cc b = Ret None → ∃ ci, CI b = Some ci ∧
  zlen (IntentionHash ci) = zlen (AggregatedSignatures ci) ∧ zlen (CC b) = zlen (IntentionHash ci) ∧
  check_intentions 0 (IntentionHash ci) (AggregatedSignatures ci) = Ret None ∧
  check_certificates 0 (AggregatedSignatures ci) (CC b) = Ret None ∧
  Forall (λ core, Core_Verify core = Ret None) (CC b).
Proof.
  unfold validate_ci_cc. intros E. destruct (CI b) as [ci|]; [|done]. cbn [deref mbind outcome_bind] in E.
  exists ci. destruct (Z.eqb_spec (zlen (IntentionHash ci)) (zlen (AggregatedSignatures ci))); [|done].
  cbn [negb] in E. destruct (check_intentions _ _ _) as [[?|]|]; try done. cbn [mbind outcome_bind] in E.
  destruct (Z.eqb_spec (zlen (CC b)) (zlen (IntentionHash ci))); [|done]. cbn [negb] in E.
  destruct (check_certificates _ _ _) as [[?|]|]; try done. cbn [mbind outcome_bind] in E.
  destruct (CC_Verify (CC b)) as [[[? ?]|]|] eqn:Ec; try done. by apply CC_verify_ok in Ec.
Qed.

Lemma Block_ValidateBasic_ok b : Block_ValidateBasic b = Ret None →
  (5 < hdView (bHeader b) → validate_ci_cc b = Ret None) ∧
  zlen (CTXS b) = zlen (CTXSProof b) ∧ zlen (CTXS b) = zlen (CC b) ∧
  ∃ intentions errs, CC_Result (CC b) = Ret (intentions, errs) ∧ check_ctxs 0 b intentions errs = Ret None.
Proof.
  unfold Block_ValidateBasic. intros E.
  assert (5 < hdView (bHeader b) → validate_ci_cc b = Ret None) as Hv.
  { intros Hv. destruct (Z.ltb_spec 5 (hdView (bHeader b))); [|lia].
    by destruct (validate_ci_cc b) as [[?|]|]. }
  split; [done|].
  destruct (if 5 <? hdView (bHeader b) then validate_ci_cc b else Ret None) as [[?|]|]; try done.
  cbn [mbind outcome_bind] in E.
  destruct (Z.eqb_spec (zlen (CTXS b)) (zlen (CTXSProof b))); [|done].
  destruct (Z.eqb_spec (zlen (CTXS b)) (zlen (CC b))); [|done]. cbn [negb orb] in E.
  destruct (CC_Result (CC b)) as [[intentions errs]|]; [|done]. split; [done|]. split; [done|]. eauto.
Qed.

(** C27. A received block of a view above 5 that [ValidateBasic] accepts has one
    vote, intention, certificate core and list of commit transactions with
    proof per shard; at every position the intention and the core are for the
    hash its vote certifies, the core's proof verifies, and unless the
    certificates disagree about the position the commit transactions are
    proved against that hash (or carry no proof). *)
Theorem Block_ValidateBasic_sound (b : Block)
    (Hview : 5 < hdView (bHeader b)) (V : Block_ValidateBasic b = Ret None) :
  ∃ ci, CI b = Some ci ∧ zlen (IntentionHash ci) = zlen (CC b) ∧
    zlen (AggregatedSignatures ci) = zlen (CC b) ∧ zlen (CTXS b) = zlen (CC b) ∧
    zlen (CTXSProof b) = zlen (CC b) ∧
    ∀ k, (k < length (CC b))%nat → position_ok b ci k.
Proof.
  destruct (Block_ValidateBasic_ok b V) as (Hv & T1 & T2 & intentions & errs & Er & Ec).
  destruct (validate_ci_cc_ok b (Hv Hview)) as (ci & Hci & L1 & L2 & C1 & C2 & C3).
  exists ci. split; [done|]. split_and!; try lia. intros k Hk. unfold zlen in *.
  destruct (lookup_lt_is_Some_2 (AggregatedSignatures ci) k) as [vote Hvote]; [lia|].
  destruct (lookup_lt_is_Some_2 (CC b) k) as [core Hcore]; [lia|].
  destruct (lookup_lt_is_Some_2 (CTXS b) k) as [txs Htxs]; [lia|].
  destruct (lookup_lt_is_Some_2 (CTXSProof b) k) as [proof Hproof]; [lia|].
  pose proof (check_intentions_ok _ _ _ C1 k vote Hvote) as [_ I]%idx_Ret.
  destruct (check_certificates_ok _ _ _ C2 k core Hcore) as (vote' & [_ Hv']%idx_Ret & Hh).
  rewrite Z.add_0_l, Nat2Z.id in I, Hv'. rewrite Hvote in Hv'. injection Hv' as <-.
  constructor. exists vote, core, txs, proof. split_and!; try done.
  - by eapply (Forall_lookup_1 (λ core, Core_Verify core = Ret None)).
  - intros Hagree. destruct (result_spec (CC b)) as [_ Hres].
    destruct (Hres _ _ Er) as (R1 & R2 & Hcell).
    destruct (lookup_lt_is_Some_2 intentions k) as [r Hr]; [lia|].
    destruct (lookup_lt_is_Some_2 errs k) as [e He]; [lia|].
    destruct (Hcell k r e Hr He) as (Q1 & Q2 & Q3).
    assert (e = false) as ->.
    { apply not_true_is_false. intros (x & Hx & Hne & Hxr)%Q3. apply Hxr.
      destruct (decide (r = [])) as [Er0|Hr0]; [|by apply Hagree; auto].
      apply Q1 in Er0. rewrite Forall_forall in Er0. apply list_elem_of_In in Hx.
      exfalso. by apply Hne, Er0. }
    destruct (check_ctxs_ok b intentions errs 0 Ec k) as (p' & ci' & v' & t' & P1 & P2 & P3 & P4 & P5);
      [lia|by apply idx_Ret; rewrite Z.add_0_l, Nat2Z.id; split; [lia|]|].
    rewrite Hci in P2. injection P2 as <-.
    apply idx_Ret in P1 as [_ P1], P3 as [_ P3], P4 as [_ P4].
    rewrite Z.add_0_l, Nat2Z.id in P1, P3, P4.
    rewrite Hproof in P1. rewrite Hvote in P3. rewrite Htxs in P4.
    injection P1 as ->. injection P3 as ->. injection P4 as ->. exact P5.
Qed.

End CrossShard.
