(* ===== verification/ShardInfo.v ===== *)
(** * Peers and shards

    Models [source/utils/p2p/peer.go], [source/urd/shardinfo/shard.go] and
    [source/urd/shardinfo/shardinfo.go]: who the validators of every shard are
    and with how many votes.  The iteration order of Go maps is a parameter;
    the JSON functions only call the standard library. *)

From stdpp Require Import base list gmap strings numbers sorting.
From Stdlib Require Import ZArith Lia.
From S2P Require Import Prelude Convert BitVector Hash Merkle MerkleProofs Wire Signer HotStuff UrdTypes BlockProofs Receipt.

(** ** Peers *)

Record Peer := { IP : string; Chain : gmap string bool; Pubkey : string; PVotes : Z }.
(** The message [protop2p.Peer] has the same fields. *)
Record PPeer := { pIP : string; pChain : gmap string bool; pPubkey : string; pVote : Z }.

Definition NewPeer (ip : string) (chains : gmap string bool) (publicKey : string) (vote : Z) : Peer :=
  {| IP := ip; Chain := chains; Pubkey := publicKey; PVotes := vote |}.
Definition Peer_Equal (peer other : Peer) : bool := bool_decide (IP peer = IP other).
Definition GetIP (peer : Peer) : string := IP peer.
Definition Peer_ChainID (peer : Peer) : gmap string bool := Chain peer.
Definition BelongTo (peer : Peer) (s : string) : bool := default false (Chain peer !! s).
Definition PubkeyStr (peer : Peer) : string := Pubkey peer.
Definition Peer_ToProto (peer : Peer) : PPeer :=
  {| pIP := GetIP peer; pChain := Peer_ChainID peer; pPubkey := PubkeyStr peer; pVote := PVotes peer |}.
Definition NewPeerFromProto (p : PPeer) : Peer := NewPeer (pIP p) (pChain p) (pPubkey p) (pVote p).
Definition Peer_ProtoBytes {PC : ProtoCodec PPeer} (peer : Peer) : outcome bytes :=
  MustProtoBytes (Peer_ToProto peer).
Definition NewPeerFromBytes {PC : ProtoCodec PPeer} (bz : bytes) : option Peer :=
  match unmarshal bz with None => None | Some p => Some (NewPeerFromProto p) end.

(** ** Shards *)

Section Shards.
Context {H : HashFn} {B : BLS}.

Record Shard := {
  PeerList : list Peer;
  TotalVotes : Z;
  LeaderIndex : Z;
  KeyRange : string;
  verifier : option Verifier
}.
Record PShard := { pPeerList : list PPeer; pTotalVotes : Z }.

Definition Shard_ToProto (shard : Shard) : PShard :=
  {| pPeerList := map Peer_ToProto (PeerList shard); pTotalVotes := TotalVotes shard |}.
Definition NewShardeFromProto (p : PShard) : Shard :=
  {| PeerList := map NewPeerFromProto (pPeerList p); TotalVotes := pTotalVotes p; LeaderIndex := 0;
     KeyRange := EmptyString; verifier := None |}.

Definition peer_content (peer : Peer) : list bytes :=
  [str_bytes (IP peer); str_bytes (Pubkey peer); sbytes (IntToBytes (NInt32 (PVotes peer)))].
Definition Shard_Hash (shard : Shard) : outcome bytes :=
  peers ← mapM_out (λ peer, HashFromByteSlices (peer_content peer)) (PeerList shard);
  HashFromByteSlices (sbytes (IntToBytes (NInt32 (TotalVotes shard))) :: peers).

Definition with_verifier (shard : Shard) (v : Verifier) : Shard :=
  {| PeerList := PeerList shard; TotalVotes := TotalVotes shard; LeaderIndex := LeaderIndex shard;
     KeyRange := KeyRange shard; verifier := Some v |}.
(** [None] is the error of an unreadable public key. *)
Definition generateVerifier (shard : Shard) : option Shard :=
  v ← NewVerifier (map Pubkey (PeerList shard)); Some (with_verifier shard v).

Definition Shard_Size (shard : Shard) : outcome Z := v ← deref (verifier shard); Ret (Verifier_Size v).
Definition Shard_Verify (shard : Shard) (sig : string) (msg : bytes) (index : Z) : outcome bool :=
  v ← deref (verifier shard); Verify v sig msg index.
Definition Shard_VerifyAggregateSignature (shard : Shard) (aggSig : string) (msg bitMapBytes : bytes)
    : outcome bool :=
  v ← deref (verifier shard); VerifyAggregateSignature v aggSig msg bitMapBytes.

(** ** The table of shards *)

Record ShardInfo := { Shards : gmap string Shard; ShardIDList : list string }.

(** [for id, shard := range si.Shards]: the shards in the order [ids]. *)
Fixpoint init_loop (ids : list string) (shards : gmap string Shard) (idList : list string)
    : option (gmap string Shard * list string) :=
  match ids with
  | [] => Some (shards, idList)
  | id :: ids' =>
      match shards !! id with
      | None => init_loop ids' shards idList
      | Some shard =>
          shard' ← generateVerifier shard;
          init_loop ids' (<[id := shard']> shards) (idList ++ [id])
      end
  end.

(** An iteration order of a Go map: its keys, each once. *)
Definition range_of {A} (m : gmap string A) (ids : list string) : Prop := ids ≡ₚ map fst (map_to_list m).

Definition init (ids : list string) (si : ShardInfo) : option ShardInfo :=
  '(shards, idList) ← init_loop ids (Shards si) [];
  Some {| Shards := shards; ShardIDList := sort_Strings idList |}.

Definition total_votes (ps : list Peer) : Z := foldl (λ acc p, int32 (acc + PVotes p)) 0 ps.
Definition NewShardInfo (ids : list string) (peers : gmap string (list Peer)) (leader_index : Z)
    (keyRanges : gmap string string) : outcome ShardInfo :=
  let shards := map_imap (λ shard ps, Some {| PeerList := ps; TotalVotes := total_votes ps;
    LeaderIndex := leader_index; KeyRange := default EmptyString (keyRanges !! shard); verifier := None |}) peers in
  match init ids {| Shards := shards; ShardIDList := [] |} with
  | Some si => Ret si
  | None => Panic
  end.

Definition ShardInfo_ToProto (si : ShardInfo) : gmap string PShard := Shard_ToProto <$> Shards si.
(** [None] is a nil result. *)
Definition NewShardInfoFromProto (ids : list string) (p : gmap string PShard) : option ShardInfo :=
  init ids {| Shards := NewShardeFromProto <$> p; ShardIDList := [] |}.

Definition ShardInfo_Hash (si : ShardInfo) : outcome bytes :=
  let keys := sort_Strings (map fst (map_to_list (Shards si))) in
  shardBasic ← mapM_out (λ key, shard ← deref (Shards si !! key); Shard_Hash shard) keys;
  HashFromByteSlices shardBasic.

(** ** Sorting *)

Lemma insert_string_sorted s l : StronglySorted str_le l → StronglySorted str_le (insert_string s l).
Proof.
  induction 1 as [|t l Hl IH Ht]; cbn; [by repeat constructor|].
  destruct (str_leb s t) eqn:E.
  - apply str_leb_le in E. constructor; [by constructor|]. constructor; [done|].
    eapply list.Forall_impl; [exact Ht|]. intros u Hu. by eapply str_le_trans.
  - constructor; [done|]. apply list.Forall_forall. intros u Hu. rewrite insert_string_perm in Hu.
    apply elem_of_cons in Hu as [->|Hu]; [|by eapply list.Forall_forall in Ht].
    apply str_leb_lt in E. by apply str_lt_le.
Qed.
Lemma sort_Strings_sorted l : StronglySorted str_le (sort_Strings l).
Proof. induction l as [|s l IH]; cbn; [constructor|by apply insert_string_sorted]. Qed.


Lemma str_le_antisym s t : str_le s t → str_le t s → s = t.
Proof. unfold str_le. intros H1 H2. by apply str_ltb_total. Qed.

Lemma sort_Strings_unique l k : l ≡ₚ k → sort_Strings l = sort_Strings k.
Proof.
  intros Hp. assert (AntiSymm (=) str_le) by (intros ??; apply str_le_antisym).
  apply (StronglySorted_unique str_le); [apply sort_Strings_sorted..|].
  by rewrite !sort_Strings_perm.
Qed.

(** ** Initialisation *)

(** Every shard of [ids] with its verifier. *)
Definition verified (ids : list string) (shards : gmap string Shard) : gmap string Shard :=
  map_imap (λ id shard, if decide (id ∈ ids) then generateVerifier shard else Some shard) shards.

Lemma init_loop_spec ids : base.NoDup ids → ∀ shards acc,
  init_loop ids shards acc =
    if decide (Forall (λ id, is_Some (shards !! id) → is_Some (shards !! id ≫= generateVerifier)) ids)
    then Some (verified ids shards, acc ++ filter (λ id, is_Some (shards !! id)) ids) else None.
Proof.
  induction 1 as [|id ids Hid Hnd IH]; intros shards acc; cbn [init_loop].
  { rewrite decide_True by constructor. rewrite filter_nil, app_nil_r. f_equal. f_equal.
    apply map_eq. intros k. unfold verified. rewrite map_lookup_imap. destruct (shards !! k); cbn; [|done].
    by rewrite decide_False by apply not_elem_of_nil. }
  rewrite filter_cons.
  destruct (shards !! id) as [shard|] eqn:E; cbn [mbind option_bind].
  2:{ rewrite (decide_False (P := is_Some None)) by (by intros []). rewrite IH.
      assert (verified ids shards = verified (id :: ids) shards) as Ev.
      { apply map_eq. intros k. unfold verified. rewrite !map_lookup_imap. destruct (shards !! k) eqn:Ek; cbn; [|done].
        assert (k ∈ id :: ids ↔ k ∈ ids) as Hk by (rewrite elem_of_cons; split; [intros [->|]; [congruence|done]|by right]).
        by destruct (decide (k ∈ ids)), (decide (k ∈ id :: ids)); try tauto. }
      rewrite Ev. destruct (decide _) as [Hf|Hf], (decide (Forall _ (_ :: _))) as [Hg|Hg]; try done.
      - exfalso. apply Hg. constructor; [rewrite E; by intros []|done].
      - exfalso. apply Hf. by inversion Hg. }
  destruct (generateVerifier shard) as [shard'|] eqn:Eg; cbn [mbind option_bind].
  2:{ rewrite decide_False; [done|]. intros Hf. inversion Hf as [|?? Hx _]; subst. rewrite E in Hx. cbn in Hx.
      rewrite Eg in Hx. by destruct Hx as [? ?]; [eexists|]. }
  rewrite (decide_True (P := is_Some (Some shard))) by by eexists. rewrite IH.
  assert (∀ k, k ∈ ids → <[id:=shard']> shards !! k = shards !! k) as Hne
    by (intros k Hk; rewrite lookup_insert_ne; [done|by intros ->]).
  assert (filter (λ k, is_Some (<[id:=shard']> shards !! k)) ids = filter (λ k, is_Some (shards !! k)) ids) as ->.
  { clear -Hne. induction ids as [|k ids IH']; [done|]. rewrite !filter_cons, Hne by (by left).
    by rewrite IH' by (intros; apply Hne; by right). }
  assert (verified ids (<[id:=shard']> shards) = verified (id :: ids) shards) as ->.
  { apply map_eq. intros k. unfold verified. rewrite !map_lookup_imap. destruct (decide (k = id)) as [->|Hk].
    - rewrite lookup_insert_eq, E. cbn. rewrite decide_False by done. by rewrite decide_True by (by left).
    - rewrite lookup_insert_ne by done. destruct (shards !! k); cbn; [|done].
      assert (k ∈ id :: ids ↔ k ∈ ids) as Hk' by (rewrite elem_of_cons; tauto).
      by destruct (decide (k ∈ ids)), (decide (k ∈ id :: ids)); try tauto. }
  rewrite <- app_assoc. cbn [app].
  assert (Forall (λ k, is_Some (<[id:=shard']> shards !! k) → is_Some (<[id:=shard']> shards !! k ≫= generateVerifier)) ids ↔
    Forall (λ k, is_Some (shards !! k) → is_Some (shards !! k ≫= generateVerifier)) (id :: ids)) as Hiff.
  { split.
    - intros Hf. constructor; [rewrite E; cbn; by rewrite Eg|]. rewrite list.Forall_forall in *. intros k Hk.
      rewrite <- (Hne k Hk). by apply Hf.
    - inversion 1 as [|?? _ Hf]; subst. rewrite list.Forall_forall in *. intros k Hk. rewrite (Hne k Hk). by apply Hf. }
  by destruct (decide (Forall _ ids)), (decide (Forall _ (id :: ids))); try tauto.
Qed.

Lemma range_NoDup {A} (m : gmap string A) ids : range_of m ids → base.NoDup ids.
Proof. intros Hr. rewrite Hr. apply NoDup_fst_map_to_list. Qed.
Lemma range_elem {A} (m : gmap string A) ids id : range_of m ids → id ∈ ids ↔ is_Some (m !! id).
Proof.
  intros Hr. rewrite Hr. change (map fst (map_to_list m)) with ((map_to_list m).*1).
  rewrite list_elem_of_fmap. split.
  - intros ([k x] & -> & Hk). apply elem_of_map_to_list in Hk. by eexists.
  - intros [x Hx]. exists (id, x). by rewrite elem_of_map_to_list.
Qed.

Lemma filter_range {A} (m : gmap string A) ids : range_of m ids → filter (λ id, is_Some (m !! id)) ids = ids.
Proof.
  intros Hr. assert (∀ id, id ∈ ids → is_Some (m !! id)) as Hin by (intros id; by apply range_elem).
  clear Hr. induction ids as [|id ids IH]; [done|]. rewrite filter_cons, decide_True by (apply Hin; by left).
  by rewrite IH by (intros; apply Hin; by right).
Qed.

(** Whether every public key can be read. *)
Definition keys_readable (shards : gmap string Shard) : Prop :=
  ∀ id shard, shards !! id = Some shard → is_Some (generateVerifier shard).

Lemma init_spec ids si : range_of (Shards si) ids →
  (keys_readable (Shards si) →
     init ids si = Some {| Shards := verified ids (Shards si); ShardIDList := sort_Strings ids |}) ∧
  (¬ keys_readable (Shards si) → init ids si = None).
Proof.
  intros Hr. unfold init. rewrite (init_loop_spec ids (range_NoDup _ _ Hr)). cbn [app]. rewrite filter_range by done.
  set (F := Forall _ ids). assert (F ↔ keys_readable (Shards si)) as Hiff.
  { unfold F, keys_readable. rewrite list.Forall_forall. split.
    - intros Hf id shard E. specialize (Hf id). rewrite range_elem, E in Hf by done. cbn in Hf. apply Hf; by eexists.
    - intros Hk id _ [shard E]. rewrite E. cbn. by apply (Hk id). }
  split; intros Hk; destruct (decide F); cbn; tauto.
Qed.

(** All members of a shard table compute the same one: the result does not
    depend on the order in which the runtime iterates over the map, the ids are
    the keys in lexicographic order, each once, and the table is refused
    exactly when a public key cannot be read; every shard gets the verifier of
    its own keys. *)
Theorem ShardInfo_deterministic si ids ids'
  (Hr : range_of (Shards si) ids) (Hr' : range_of (Shards si) ids') :
  init ids si = init ids' si ∧ (init ids si = None ↔ ¬ keys_readable (Shards si)) ∧
  ∀ si', init ids si = Some si' →
    StronglySorted str_le (ShardIDList si') ∧ base.NoDup (ShardIDList si') ∧
    (∀ id, id ∈ ShardIDList si' ↔ is_Some (Shards si' !! id)) ∧
    ∀ id, Shards si' !! id = Shards si !! id ≫= generateVerifier.
Proof.
  destruct (init_spec ids si Hr) as [S1 N1]. destruct (init_spec ids' si Hr') as [S2 N2].
  assert (keys_readable (Shards si) ∨ ¬ keys_readable (Shards si)) as [Hk|Hk].
  { destruct (init ids si) as [si0|] eqn:E.
    - left. intros id shard Hid. destruct (generateVerifier shard) eqn:Eg; [by eexists|].
      discriminate N1. intros Hk. specialize (Hk _ _ Hid). rewrite Eg in Hk. by destruct Hk.
    - right. intros Hk. by specialize (S1 Hk). }
  2:{ rewrite (N1 Hk), (N2 Hk). done. }
  rewrite (S1 Hk), (S2 Hk). assert (ids ≡ₚ ids') as Hp by (by rewrite Hr, Hr').
  assert (verified ids (Shards si) = verified ids' (Shards si)) as <-.
  { apply map_eq. intros k. unfold verified. rewrite !map_lookup_imap. destruct (Shards si !! k); cbn; [|done].
    destruct (decide (k ∈ ids)) as [Hin|Hin], (decide (k ∈ ids')) as [Hin'|Hin']; try done; by rewrite Hp in Hin. }
  assert (∀ id, verified ids (Shards si) !! id = Shards si !! id ≫= generateVerifier) as Hv.
  { intros id. unfold verified. rewrite map_lookup_imap. destruct (Shards si !! id) eqn:E; cbn; [|done].
    rewrite decide_True; [done|]. apply (range_elem _ _ _ Hr). by eexists. }
  split; [by rewrite (sort_Strings_unique ids ids' Hp)|]. split; [split; [done|by intros Hn; destruct (Hn Hk)]|].
  intros si' [= <-]. cbn [ShardIDList Shards]. split; [apply sort_Strings_sorted|].
  split; [rewrite sort_Strings_perm; by eapply range_NoDup|]. split; [|done].
  intros id. rewrite sort_Strings_perm, (range_elem _ _ _ Hr), Hv.
  destruct (Shards si !! id) as [shard|] eqn:E; cbn; [|done]. split; [intros _; by eapply Hk|by eexists].
Qed.

(** ** The hash of the table *)

Definition peer_view (p : Peer) := (IP p, Pubkey p, PVotes p).
Definition shard_view (s : Shard) := (TotalVotes s, map peer_view (PeerList s)).
Definition shard_wf (s : Shard) : Prop :=
  - 2 ^ 31 ≤ TotalVotes s < 2 ^ 31 ∧ ∀ p, p ∈ PeerList s → - 2 ^ 31 ≤ PVotes p < 2 ^ 31.

(** The inputs hashed for a shard. *)
Definition shard_hashed (s : Shard) (x : bytes) : Prop :=
  (∃ p, p ∈ PeerList s ∧ hashed (peer_content p) x) ∨
  ∃ peers, mapM_out (λ peer, HashFromByteSlices (peer_content peer)) (PeerList s) = Ret peers ∧
    hashed (sbytes (IntToBytes (NInt32 (TotalVotes s))) :: peers) x.

Lemma int32_bytes_inj a b : - 2 ^ 31 ≤ a < 2 ^ 31 → - 2 ^ 31 ≤ b < 2 ^ 31 →
  sbytes (IntToBytes (NInt32 a)) = sbytes (IntToBytes (NInt32 b)) → a = b.
Proof.
  intros Ha Hb E. cbn in E. apply (wrapS_inj 32); [lia..|]. apply (le_encode_inj 4); [apply wrapU_range; lia..|done].
Qed.

Lemma list3_inj {A} (a b c a' b' c' : A) : [a; b; c] = [a'; b'; c'] → a = a' ∧ b = b' ∧ c = c'.
Proof. by intros [= -> -> ->]. Qed.

Lemma peers_bind (ps qs : list Peer) hs :
  (∀ p, p ∈ ps → - 2 ^ 31 ≤ PVotes p < 2 ^ 31) → (∀ p, p ∈ qs → - 2 ^ 31 ≤ PVotes p < 2 ^ 31) →
  mapM_out (λ peer, HashFromByteSlices (peer_content peer)) ps = Ret hs →
  mapM_out (λ peer, HashFromByteSlices (peer_content peer)) qs = Ret hs →
  map peer_view ps = map peer_view qs ∨
  CollisionIn (λ x, ∃ p, p ∈ ps ∧ hashed (peer_content p) x) (λ x, ∃ p, p ∈ qs ∧ hashed (peer_content p) x).
Proof.
  rewrite !mapM_out_Ret. revert qs hs. induction ps as [|p ps IH]; intros qs hs Wp Wq E1 E2.
  - inversion E1; subst. inversion E2; subst. by left.
  - inversion E1 as [|? h ? hs' Eh Ehs]; subst. inversion E2 as [|q ? qs' ? Eh' Ehs']; subst.
    rename qs' into qs.
    destruct (root_inj _ _ _ Eh Eh') as [Ec|Hc].
    2:{ right. eapply CollisionIn_mono; [exact Hc|..]; intros x Hx; eexists; (split; [by left|done]). }
    destruct (IH qs hs') as [E|Hc]; [intros; apply Wp; by right|intros; apply Wq; by right|done..| |].
    2:{ right. eapply CollisionIn_mono; [exact Hc|..]; intros x (u & ? & ?); exists u; (split; [by right|done]). }
    left. cbn [map]. rewrite E. f_equal. unfold peer_content in Ec. apply list3_inj in Ec as (Ei & Ek & Ev).
    apply str_bytes_inj in Ei, Ek. apply int32_bytes_inj in Ev; [|apply Wp; by left|apply Wq; by left].
    unfold peer_view. congruence.
Qed.

Lemma Shard_Hash_binds s1 s2 h : shard_wf s1 → shard_wf s2 → Shard_Hash s1 = Ret h → Shard_Hash s2 = Ret h →
  shard_view s1 = shard_view s2 ∨ CollisionIn (shard_hashed s1) (shard_hashed s2).
Proof.
  intros [W1 P1] [W2 P2]. unfold Shard_Hash.
  destruct (mapM_out _ (PeerList s1)) as [hs1|] eqn:E1; [|done].
  destruct (mapM_out _ (PeerList s2)) as [hs2|] eqn:E2; [|done]. cbn [mbind outcome_bind]. intros F1 F2.
  destruct (root_inj _ _ _ F1 F2) as [Ec|Hc].
  2:{ right. eapply CollisionIn_mono; [exact Hc|..]; intros x Hx; right; by eexists. }
  apply (f_equal (λ l, (list.head l, tail l))) in Ec. cbn [list.head tail] in Ec. apply pair_equal_spec in Ec as [Et ->].
  apply (inj Some), int32_bytes_inj in Et; [|done..].
  destruct (peers_bind (PeerList s1) (PeerList s2) hs2) as [E|Hc]; [done..| |].
  - left. unfold shard_view. congruence.
  - right. eapply CollisionIn_mono; [exact Hc|..]; intros x Hx; by left.
Qed.

(** ** A shard over the network *)

(** The protobuf message of a shard does not carry its leader and key range. *)
Lemma shard_roundtrip s : NewShardeFromProto (Shard_ToProto s) =
  {| PeerList := PeerList s; TotalVotes := TotalVotes s; LeaderIndex := 0; KeyRange := EmptyString;
     verifier := None |}.
Proof.
  unfold NewShardeFromProto, Shard_ToProto. cbn. f_equal. rewrite map_map. rewrite (map_ext _ id) by (by intros []). apply map_id.
Qed.

End Shards.

(** ** Witness *)
Section Demo.
#[local] Existing Instance LinearBLS.linear_BLS.
Definition demo_peer (ip key : string) : Peer := NewPeer ip ∅ key 1.
Definition demo_table : ShardInfo :=
  {| Shards := <["s2" := {| PeerList := [demo_peer "10.0.0.2" "?"]; TotalVotes := 1; LeaderIndex := 0;
                            KeyRange := "m,z"; verifier := None |}]>
               {["s1" := {| PeerList := []; TotalVotes := 0; LeaderIndex := 0; KeyRange := "a,m"; verifier := None |}]};
     ShardIDList := [] |}.
Lemma ShardInfo_deterministic_witness : init ["s1"; "s2"] demo_table = init ["s2"; "s1"] demo_table.
Proof.
  refine (proj1 (ShardInfo_deterministic demo_table ["s1"; "s2"] ["s2"; "s1"] _ _)).
  - apply (bool_decide_eq_true_1 (_ ≡ₚ _)). vm_compute. reflexivity.
  - apply (bool_decide_eq_true_1 (_ ≡ₚ _)). vm_compute. reflexivity.
Defined.
End Demo.
