(* ===== verification/Network.v ===== *)
(** * The peer-to-peer network

    Models [source/utils/p2p]: envelopes ([message.go]), the sender
    ([sender.go]) and the receiver ([receiver.go]).  Sockets are the class
    [Net]; JSON is the class [JsonCodec].  The goroutine a send is started in
    is a value of type [Call]; calls run one at a time, in any order, as far as
    the sender's lock and the atomicity of a write allow. *)

From stdpp Require Import base list gmap strings numbers.
From Stdlib Require Import ZArith Lia.
From S2P Require Import Prelude Convert BitVector Hash Signer ShardInfo.

(** ** Envelopes *)

Record Envelop := { Channel_id : Z; eMessage : bytes; eMessageType : Z }.
Record PEnvelop := { pChannelId : Z; pMessage : bytes; pMessageType : Z }.
Definition NewEnvelop (channel_id : Z) (message : bytes) (messageType : Z) : Envelop :=
  {| Channel_id := channel_id; eMessage := message; eMessageType := messageType |}.
Definition Envelop_ToProto (e : Envelop) : PEnvelop :=
  {| pChannelId := int32 (Channel_id e); pMessage := eMessage e; pMessageType := eMessageType e |}.
Definition GetMessage (e : Envelop) : bytes := eMessage e.
Definition GetChannelID (e : Envelop) : Z := Channel_id e.
Definition NewEnvelopFromProto (p : PEnvelop) : Envelop :=
  {| Channel_id := uint8 (int8 (pChannelId p)); eMessage := pMessage p; eMessageType := pMessageType p |}.
Definition NewEnvelopFromBytes {PC : ProtoCodec PEnvelop} (bz : bytes) : option Envelop :=
  option_map NewEnvelopFromProto (unmarshal bz).

Definition ChannelIDConsensusState : Z := 33.
Definition ChannelIDMempool : Z := 49.
Definition ChannelIDCrossShardMempool : Z := 50.

Lemma Envelop_roundtrip e : 0 ≤ Channel_id e < 256 → NewEnvelopFromProto (Envelop_ToProto e) = e.
Proof.
  intros Hc. unfold NewEnvelopFromProto, Envelop_ToProto. cbn [pChannelId pMessage pMessageType].
  rewrite (wrapS_small 32) by lia. destruct e as [c m t]. cbn in *. f_equal. unfold wrapS, wrapU.
  rewrite Zminus_mod_idemp_l, Z.mod_small; lia.
Qed.

(** [encoding/json] on envelopes: it never fails, it can be read back, and its
    output has no newline. *)
Class JsonCodec := {
  json_marshal : Envelop → option bytes;
  json_unmarshal : bytes → option Envelop;
  json_marshals : ∀ e, is_Some (json_marshal e);
  json_roundtrip : ∀ e bz, json_marshal e = Some bz → json_unmarshal bz = Some e;
  json_one_line : ∀ e bz, json_marshal e = Some bz → 10 ∉ bz
}.

(** ** Sockets *)

(** [net_stream] is what has been written on a connection; a write that
    returns no error wrote everything. *)
Class Net (N Conn : Type) := {
  net_stream : N → Conn → bytes;
  net_Dial : N → string → N * option Conn;
  net_Write : N → Conn → bytes → N * bool;
  net_Dial_fresh : ∀ n addr n' c, net_Dial n addr = (n', Some c) → net_stream n' c = [];
  net_Write_ok : ∀ n c bz n', net_Write n c bz = (n', true) → net_stream n' c = net_stream n c ++ bz
}.

Section Sender.
Context {JC : JsonCodec} {N Conn : Type} {NW : Net N Conn}.

(** ** The sender *)

Record Sender := { shardMap : gmap string (list Peer); connMap : gmap string Conn; MyIP : string }.
Inductive net_error := ErrDial | ErrWrite | ErrNoPeer.
(** A goroutine that sends a message to a peer. *)
Record Call := { callee : Peer; call_channel : Z; call_message : bytes; call_type : Z }.

Definition NewSender (ip : string) : Sender := {| shardMap := ∅; connMap := ∅; MyIP := ip |}.
Definition set_conn (s : Sender) (addr : string) (c : Conn) : Sender :=
  {| shardMap := shardMap s; connMap := <[addr := c]> (connMap s); MyIP := MyIP s |}.

(** The peers are dialled in the iteration order [shards] of the map; the
    errors are collected. *)
Definition start_peer (st : Sender * N * list net_error) (p : Peer) : Sender * N * list net_error :=
  let '(s, n, errs) := st in
  if bool_decide (GetIP p = MyIP s) then st
  else match connMap s !! GetIP p with
       | Some _ => st
       | None =>
           match net_Dial n (GetIP p) with
           | (n, None) => (s, n, errs ++ [ErrDial])
           | (n, Some c) => (set_conn s (GetIP p) c, n, errs)
           end
       end.
Definition Sender_Start (s : Sender) (n : N) (shards : list string) : Sender * N * list net_error :=
  foldl (λ st shard, foldl start_peer st (default [] (shardMap s !! shard))) (s, n, []) shards.

(** A peer is listed once per chain; the iterations of the loop over its chains
    touch different entries. *)
Definition add_to_shard (peer : Peer) (m : gmap string (list Peer)) (cid : string) : gmap string (list Peer) :=
  let l := default [] (m !! cid) in
  if zlen l =? 0 then <[cid := [peer]]> m
  else if existsb (Peer_Equal peer) l then m else <[cid := l ++ [peer]]> m.
Definition AddPeer (s : Sender) (peer : Peer) : Sender :=
  {| shardMap := foldl (add_to_shard peer) (shardMap s) (elements (dom (Peer_ChainID peer)));
     connMap := connMap s; MyIP := MyIP s |}.

(** [depth] is the number of retries left. *)
Fixpoint TcpDial (s : Sender) (n : N) (context : bytes) (addr : string) (depth : nat) : Sender * N * option net_error :=
  match (match connMap s !! addr with
         | Some c => (s, n, Some c)
         | None => match net_Dial n addr with
                   | (n, None) => (s, n, None)
                   | (n, Some c) => (set_conn s addr c, n, Some c)
                   end
         end) with
  | (s, n, None) => (s, n, Some ErrDial)
  | (s, n, Some conn) =>
      match net_Write n conn (context ++ [10]) with
      | (n, true) => (s, n, None)
      | (n, false) => match depth with O => (s, n, Some ErrWrite) | S depth => TcpDial s n context addr depth end
      end
  end.
Definition Send (s : Sender) (n : N) (peer : Peer) (channel_id : Z) (message : bytes) (messageType : Z)
    : outcome (Sender * N * option net_error) :=
  if bool_decide (MyIP s = GetIP peer) then Ret (s, n, None)
  else
    bz ← deref (json_marshal {| Channel_id := channel_id; eMessage := message; eMessageType := messageType |});
    Ret (TcpDial s n bz (GetIP peer) 5).
Definition run_call (st : Sender * N) (c : Call) : outcome (Sender * N) :=
  '(s, n, _) ← Send (fst st) (snd st) (callee c) (call_channel c) (call_message c) (call_type c);
  Ret (s, n).

(** The calls a broadcast starts. *)
Definition SendToShard (s : Sender) (shardID : string) (channel_id : Z) (message : bytes) (messageType : Z) : list Call :=
  map (λ p, {| callee := p; call_channel := channel_id; call_message := message; call_type := messageType |})
    (default [] (shardMap s !! shardID)).
Definition SendToShardIndex (s : Sender) (shardID : string) (index : Z) (channel_id : Z) (message : bytes) (messageType : Z)
    : outcome (list Call * option net_error) :=
  let peers := default [] (shardMap s !! shardID) in
  if zlen peers <=? index then Ret ([], Some ErrNoPeer)
  else
    p ← idx peers index;
    Ret ([{| callee := p; call_channel := channel_id; call_message := message; call_type := messageType |}], None).
End Sender.

(** ** The receiver *)

Section Receiver.
Context {JC : JsonCodec} {R : Type}.

(** A reactor works on the state [R] of the node; the error it returns is
    printed. *)
Definition Reactor : Type := R → Z → bytes → Z → outcome (R * bool).
Record Receiver := { localIP : string; localPort : Z; ctx_done : bool; channelMap : gmap Z Reactor }.
Definition NewReceiver (ip : string) (port : Z) (done : bool) : Receiver :=
  {| localIP := ip; localPort := port; ctx_done := done; channelMap := ∅ |}.
Definition AddChennel (r : Receiver) (reactor : Reactor) (channel_id : Z) : Receiver :=
  {| localIP := localIP r; localPort := localPort r; ctx_done := ctx_done r;
     channelMap := <[channel_id := reactor]> (channelMap r) |}.

(** A connection: the bytes still to be read, and how it ends. *)
Inductive conn_end := StillOpen | Closed | Broken.
Record Incoming := { unread : bytes; ending : conn_end }.
Inductive read_error := EOF | ReadFailed.

(** The bytes up to and including the first newline. *)
Fixpoint split_line (bz : bytes) : option (bytes * bytes) :=
  match bz with
  | [] => None
  | b :: bz' => if b =? 10 then Some ([b], bz') else option_map (λ lr, (b :: fst lr, snd lr)) (split_line bz')
  end.
(** [bufio.Reader.ReadBytes('\n')]; [None] when it blocks. *)
Definition ReadBytes (c : Incoming) : option (bytes * option read_error * Incoming) :=
  match split_line (unread c) with
  | Some (line, rest) => Some (line, None, {| unread := rest; ending := ending c |})
  | None =>
      match ending c with
      | StillOpen => None
      | Closed => Some (unread c, Some EOF, {| unread := []; ending := Closed |})
      | Broken => Some (unread c, Some ReadFailed, {| unread := []; ending := Broken |})
      end
  end.

Inductive conn_result := Returned (st : R) | Blocked (st : R).
(** What is done with one line. *)
Definition dispatch (r : Receiver) (st : R) (bz : bytes) : outcome R :=
  match json_unmarshal bz with
  | None => Ret st
  | Some m =>
      let chid := Channel_id m in
      match channelMap r !! chid with
      | Some reactor => '(st, _) ← reactor st chid (GetMessage m) (eMessageType m); Ret st
      | None => Ret st
      end
  end.
(** [Ret None] when the fuel does not suffice. *)
Fixpoint handleConnection (fuel : nat) (r : Receiver) (st : R) (conn : Incoming) : outcome (option conn_result) :=
  match fuel with
  | O => Ret None
  | S fuel =>
      match ReadBytes conn with
      | None => Ret (Some (Blocked st))
      | Some (bz, err, conn) =>
          if zlen bz =? 0 then handleConnection fuel r st conn
          else
            l ← idx bz (zlen bz - 1);
            let bz := if l =? 10 then take (length bz - 1) bz else bz in
            if ctx_done r then Ret (Some (Returned st))
            else match err with
                 | None => st ← dispatch r st bz; handleConnection fuel r st conn
                 | Some _ => Ret (Some (Returned st))
                 end
      end
  end.
End Receiver.

(** ** What is sent arrives *)

Section Delivery.
Context {JC : JsonCodec} {N Conn : Type} {NW : Net N Conn} {R : Type}.

Definition envelop_of (c : Call) : Envelop := NewEnvelop (call_channel c) (call_message c) (call_type c).
(** The bytes of an envelope on the wire. *)
Definition frame_of (e : Envelop) : bytes := default [] (json_marshal e) ++ [10].
(** Handing envelopes to the reactors of their channels, in order. *)
Definition deliver (r : Receiver (R := R)) (st : R) (e : Envelop) : outcome R :=
  match channelMap r !! Channel_id e with
  | Some reactor => '(st, _) ← reactor st (Channel_id e) (eMessage e) (eMessageType e); Ret st
  | None => Ret st
  end.

Lemma split_line_app l rest : 10 ∉ l → split_line (l ++ 10 :: rest) = Some (l ++ [10], rest).
Proof.
  induction l as [|b l IH]; intros Hl; [done|]. cbn. destruct (Z.eqb_spec b 10) as [->|]; [destruct Hl; by left|].
  rewrite IH; [done|]. intros Hin. apply Hl. by right.
Qed.
Lemma handle_frame fuel (r : Receiver (R := R)) st e rest fin : ctx_done r = false →
  handleConnection (S fuel) r st {| unread := frame_of e ++ rest; ending := fin |} =
    (st' ← deliver r st e; handleConnection fuel r st' {| unread := rest; ending := fin |}).
Proof.
  intros Hctx. unfold frame_of. destruct (json_marshals e) as [bz Eb]. rewrite Eb. cbn [default id].
  pose proof (json_one_line e bz Eb) as Hl. cbn [handleConnection]. unfold ReadBytes. cbn [unread ending].
  rewrite <- app_assoc. cbn [app]. rewrite split_line_app by done.
  assert (zlen (bz ++ [10]) = zlen bz + 1) as Hz by (rewrite zlen_app; done). pose proof (zlen_nonneg bz). rewrite Hz.
  destruct (Z.eqb_spec (zlen bz + 1) 0); [lia|]. replace (zlen bz + 1 - 1) with (zlen bz) by lia.
  assert (idx (bz ++ [10]) (zlen bz) = Ret 10) as ->.
  { apply idx_Ret. unfold zlen. rewrite Nat2Z.id. split; [lia|]. by rewrite lookup_app_r, Nat.sub_diag by lia. }
  cbn [mbind outcome_bind Z.eqb Pos.eqb]. rewrite Hctx, length_app. cbn [length]. replace (length bz + 1 - 1)%nat with (length bz) by lia.
  rewrite take_app_length. unfold dispatch. rewrite (json_roundtrip e bz Eb). unfold deliver, GetMessage.
  by destruct (channelMap r !! Channel_id e).
Qed.
Lemma handle_frames (r : Receiver (R := R)) es : ctx_done r = false → ∀ fuel st st' rest fin, foldM (deliver r) es st = Ret st' →
  handleConnection (length es + fuel) r st {| unread := concat (map frame_of es) ++ rest; ending := fin |} =
    handleConnection fuel r st' {| unread := rest; ending := fin |}.
Proof.
  intros Hctx. induction es as [|e es IH]; intros fuel st st' rest fin; cbn [foldM map concat length Nat.add]; [by intros [= <-]|].
  destruct (deliver r st e) as [st1|] eqn:E; cbn [mbind outcome_bind]; [|done]. intros E'.
  rewrite <- app_assoc, handle_frame by done. rewrite E. cbn [mbind outcome_bind]. by apply IH.
Qed.

(** A connection that is up carries the frames of the calls to its peer. *)
Lemma calls_on_wire (s : Sender) c addr calls : connMap s !! addr = Some c → MyIP s ≠ addr →
  (∀ n bz, snd (net_Write n c bz) = true) → (∀ k, k ∈ calls → GetIP (callee k) = addr) →
  ∀ n, ∃ n', foldM run_call calls (s, n) = Ret (s, n') ∧
    net_stream n' c = net_stream n c ++ concat (map frame_of (map envelop_of calls)).
Proof.
  intros Hc Hme Hup. induction calls as [|k calls IH]; intros Hto n; cbn [foldM map concat].
  { exists n. by rewrite app_nil_r. }
  unfold run_call at 1, Send. cbn [fst snd]. rewrite (Hto k) by (by left). rewrite bool_decide_false by done.
  fold (NewEnvelop (call_channel k) (call_message k) (call_type k)). fold (envelop_of k).
  destruct (json_marshals (envelop_of k)) as [bz Eb]. rewrite Eb. cbn [deref mbind outcome_bind TcpDial]. rewrite Hc.
  destruct (net_Write n c (bz ++ [10])) as [n1 ok] eqn:Ew. pose proof (Hup n (bz ++ [10])) as Hok. rewrite Ew in Hok. cbn in Hok. subst ok.
  apply net_Write_ok in Ew. cbn [mbind outcome_bind]. destruct (IH ltac:(intros; apply Hto; by right) n1) as (n' & -> & Es).
  exists n'. split; [done|]. rewrite Es, Ew. unfold frame_of at 2. rewrite Eb. cbn [default id]. by rewrite <- !app_assoc.
Qed.

(** C23. Every message sent to a peer over a connection that is up reaches the
    reactor of its channel at the peer, once and in the order of the calls;
    messages for channels without reactor are dropped; then the handler waits
    for more. *)
Theorem network_delivers (s : Sender) n c addr calls (r : Receiver (R := R)) st st'
    (Hconn : connMap s !! addr = Some c) (Hme : MyIP s ≠ addr) (Hnew : net_stream n c = [])
    (Hup : ∀ n bz, snd (net_Write n c bz) = true) (Hto : ∀ k, k ∈ calls → GetIP (callee k) = addr)
    (Hctx : ctx_done r = false) (Hdel : foldM (deliver r) (map envelop_of calls) st = Ret st') :
  ∃ n', foldM run_call calls (s, n) = Ret (s, n') ∧
    ∀ fuel, (length calls < fuel)%nat →
      handleConnection fuel r st {| unread := net_stream n' c; ending := StillOpen |} = Ret (Some (Blocked st')).
Proof.
  destruct (calls_on_wire s c addr calls Hconn Hme Hup Hto n) as (n' & E & Es). exists n'. split; [done|]. intros fuel Hf.
  rewrite Es, Hnew. cbn [app]. rewrite <- (app_nil_r (concat _)).
  replace fuel with (length (map envelop_of calls) + S (fuel - length calls - 1))%nat by (rewrite length_map; lia).
  rewrite (handle_frames r _ Hctx _ _ _ _ _ Hdel). done.
Qed.

(** When the peer closes the connection after its last message, the handler
    does not return: reading gives no bytes and an error, and the test for no
    bytes comes first, so it reads again, for ever. *)
Lemma closed_spins (r : Receiver (R := R)) st : ∀ fuel, handleConnection fuel r st {| unread := []; ending := Closed |} = Ret None.
Proof. induction fuel as [|fuel IH]; [done|]. cbn. apply IH. Qed.
Theorem closed_connection_spins (r : Receiver (R := R)) es st st' fuel (Hctx : ctx_done r = false)
    (Hdel : foldM (deliver r) es st = Ret st') :
  handleConnection fuel r st {| unread := concat (map frame_of es); ending := Closed |} = Ret None.
Proof.
  destruct (decide (length es ≤ fuel)%nat) as [Hf|Hf].
  - rewrite <- (app_nil_r (concat _)). replace fuel with (length es + (fuel - length es))%nat by lia.
    rewrite (handle_frames r _ Hctx _ _ _ _ _ Hdel). apply closed_spins.
  - revert st Hdel fuel Hf. induction es as [|e es IH]; intros st Hdel fuel Hf; [cbn in Hf; lia|]. destruct fuel as [|fuel]; [done|].
    cbn [foldM] in Hdel. destruct (deliver r st e) as [st1|] eqn:Ed; cbn [mbind outcome_bind] in Hdel; [|done].
    cbn [map concat]. rewrite handle_frame by done. rewrite Ed. cbn [mbind outcome_bind]. apply IH; [done|]. cbn in Hf. lia.
Qed.

(** A connection on which writes fail stays in the sender's map: the retries
    and all later messages to the peer are written to it and fail; the peer is
    never dialled again. *)
Theorem dead_connection_kept (s : Sender) n c addr context depth
    (Hconn : connMap s !! addr = Some c) (Hdown : ∀ n bz, snd (net_Write n c bz) = false) :
  ∃ n', TcpDial s n context addr depth = (s, n', Some ErrWrite).
Proof.
  revert n. induction depth as [|depth IH]; intros n; cbn [TcpDial]; rewrite Hconn;
    pose proof (Hdown n (context ++ [10])) as Hd; destruct (net_Write n c (context ++ [10])) as [n1 ok]; cbn in Hd; subst ok; [by eexists|apply IH].
Qed.
End Delivery.

(** ** The peers of a shard *)

(** The entries of a shard: one peer per address. *)
Definition peer_ips (m : gmap string (list Peer)) (cid : string) : list string := map GetIP (default [] (m !! cid)).
Lemma existsb_peer peer l : existsb (Peer_Equal peer) l = bool_decide (GetIP peer ∈ map GetIP l).
Proof.
  induction l as [|p l IH]; [done|]. cbn [existsb map]. rewrite IH. unfold Peer_Equal. change (IP peer) with (GetIP peer). change (IP p) with (GetIP p).
  destruct (decide (GetIP peer = GetIP p)) as [E|E].
  - rewrite bool_decide_true by done. symmetry. apply bool_decide_eq_true_2. rewrite E. by left.
  - rewrite bool_decide_false by done. cbn [orb]. apply bool_decide_ext. rewrite elem_of_cons. naive_solver.
Qed.
Lemma add_to_shard_ips peer m cid cid' : peer_ips (add_to_shard peer m cid) cid' =
  if decide (cid' = cid ∧ GetIP peer ∉ peer_ips m cid) then peer_ips m cid ++ [GetIP peer] else peer_ips m cid'.
Proof.
  unfold add_to_shard. set (l := default [] (m !! cid)). assert (peer_ips m cid = map GetIP l) as El by done. rewrite El.
  destruct (Z.eqb_spec (zlen l) 0) as [Hz|Hz].
  - assert (l = []) as -> by (destruct l; [done|unfold zlen in Hz; cbn in Hz; lia]). unfold peer_ips.
    case_decide as Hd; [destruct Hd as [-> _]; by rewrite lookup_insert_eq|]. destruct (decide (cid' = cid)) as [->|Hne].
    + destruct Hd. split; [done|]. intros Hin%elem_of_nil. done.
    + by rewrite lookup_insert_ne.
  - rewrite existsb_peer. case_bool_decide as Hin.
    + rewrite decide_False by (by intros [_ Hn]). done.
    + case_decide as Hd; [destruct Hd as [-> _]; unfold peer_ips; rewrite lookup_insert_eq; cbn [default id]; apply map_app|].
      unfold peer_ips. rewrite lookup_insert_ne; [done|]. intros ->. by destruct Hd.
Qed.
(** However peers are added, a shard lists no address twice, and lists exactly
    the addresses of the peers that named it. *)
Theorem AddPeer_addresses {Conn} (s : Sender (Conn := Conn)) peers cid (Hs : NoDup (peer_ips (shardMap s) cid)) :
  let s' := foldl AddPeer s peers in
  NoDup (peer_ips (shardMap s') cid) ∧
  ∀ ip, ip ∈ peer_ips (shardMap s') cid ↔
    ip ∈ peer_ips (shardMap s) cid ∨ ∃ p, p ∈ peers ∧ cid ∈ dom (Peer_ChainID p) ∧ GetIP p = ip.
Proof.
  assert (∀ p l m, let m' := foldl (add_to_shard p) m l in NoDup (peer_ips m cid) → NoDup (peer_ips m' cid) ∧
    ∀ ip, ip ∈ peer_ips m' cid ↔ ip ∈ peer_ips m cid ∨ (cid ∈ l ∧ GetIP p = ip)) as Hadd.
  { intros p l. induction l as [|c l IH]; intros m m' Hn; [split; [done|]; intros ip; split; [by left|by intros [|[[]%elem_of_nil _]]]|].
    subst m'. cbn [foldl]. pose proof (add_to_shard_ips p m c cid) as Ec. destruct (IH (add_to_shard p m c)) as [IH1 IH2].
    { rewrite Ec. case_decide as Hd; [|done]. destruct Hd as [-> Hd]. apply list.NoDup_app. split_and!; [done| |apply NoDup_singleton].
      intros x Hx ->%list_elem_of_singleton. done. }
    split; [done|]. intros ip. rewrite IH2, Ec, elem_of_cons. case_decide as Hd.
    - destruct Hd as [-> Hd]. rewrite elem_of_app, list_elem_of_singleton. naive_solver.
    - assert (cid = c → GetIP p = ip → ip ∈ peer_ips m cid) as Hin; [|naive_solver].
      intros -> <-. destruct (decide (GetIP p ∈ peer_ips m c)); [done|]. by destruct Hd. }
  revert s Hs. induction peers as [|p peers IH]; intros s Hs s'; [split; [done|]; intros ip; split; [by left|intros [|(? & []%elem_of_nil & _)]; done]|].
  subst s'. cbn [foldl]. destruct (Hadd p (elements (dom (Peer_ChainID p))) (shardMap s) Hs) as [H1 H2].
  destruct (IH (AddPeer s p) H1) as [IH1 IH2]. split; [done|]. intros ip. rewrite IH2. cbn [shardMap AddPeer]. rewrite H2, elem_of_elements.
  setoid_rewrite elem_of_cons. naive_solver.
Qed.

(** ** A link

    A codec that escapes newlines and a network of queues, on which the
    theorems are run. *)
Module Link.
Definition escape (z : Z) : bytes := if z =? 10 then [11; 1] else if z =? 11 then [11; 2] else [z].
Fixpoint unescape (l : bytes) : bytes :=
  match l with
  | [] => []
  | z :: l' =>
      if z =? 11 then match l' with 1 :: l'' => 10 :: unescape l'' | _ :: l'' => 11 :: unescape l'' | [] => [] end
      else z :: unescape l'
  end.
Lemma unescape_escape l : unescape (concat (map escape l)) = l.
Proof.
  induction l as [|z l IH]; [done|]. cbn [map concat]. unfold escape at 1.
  destruct (Z.eqb_spec z 10) as [->|H10]; [cbn; by rewrite IH|]. destruct (Z.eqb_spec z 11) as [->|H11]; [cbn; by rewrite IH|].
  cbn [app unescape]. destruct (Z.eqb_spec z 11); [done|]. by rewrite IH.
Qed.
Lemma escape_one_line l : 10 ∉ concat (map escape l).
Proof.
  induction l as [|z l IH]; [by intros Hin%elem_of_nil|]. cbn [map concat]. rewrite elem_of_app. intros [Hin|Hin]; [|done].
  unfold escape in Hin. destruct (Z.eqb_spec z 10); [set_solver|]. destruct (Z.eqb_spec z 11); set_solver.
Qed.
#[refine] Instance link_codec : JsonCodec := {|
  json_marshal := λ e, Some (concat (map escape (Channel_id e :: eMessageType e :: eMessage e)));
  json_unmarshal := λ bz, match unescape bz with c :: t :: m => Some {| Channel_id := c; eMessage := m; eMessageType := t |} | _ => None end
|}.
Proof.
  - intros e. by eexists.
  - intros [c m t] bz E. assert (bz = concat (map escape (c :: t :: m))) as -> by (symmetry; exact (inj Some _ _ E)). by rewrite unescape_escape.
  - intros e bz E. assert (bz = concat (map escape (Channel_id e :: eMessageType e :: eMessage e))) as -> by (symmetry; exact (inj Some _ _ E)). apply escape_one_line.
Defined.
(** Connections are numbered by address length; a write appends. *)
#[refine] Instance link_net : Net (gmap nat bytes) nat := {|
  net_stream := λ n c, default [] (n !! c);
  net_Dial := λ n addr, (delete (String.length addr) n, Some (String.length addr));
  net_Write := λ n c bz, (<[c := default [] (n !! c) ++ bz]> n, true)
|}.
Proof.
  - intros n addr n' c [= <- <-]. by rewrite lookup_delete_eq.
  - intros n c bz n' [= <-]. by rewrite lookup_insert_eq.
Defined.

Definition peer_b : Peer := NewPeer "10.0.0.2" {["b1" := true]} "key" 1.
Definition sender : Sender (Conn := nat) := set_conn (AddPeer (NewSender "10.0.0.1") peer_b) "10.0.0.2" 8%nat.
(** The reactor logs what it gets. *)
Definition log_reactor : Reactor (R := list (Z * bytes * Z)) := λ st ch m t, Ret (st ++ [(ch, m, t)], false).
Definition receiver : Receiver (R := list (Z * bytes * Z)) :=
  AddChennel (NewReceiver "10.0.0.2" 26601 false) log_reactor ChannelIDMempool.
Definition calls : list Call :=
  SendToShard sender "b1" ChannelIDMempool [10; 1] 7 ++ SendToShard sender "b1" 0 [2] 8 ++ SendToShard sender "b1" ChannelIDMempool [11] 9.
Lemma network_delivers_witness : ∃ n', foldM run_call calls (sender, ∅) = Ret (sender, n') ∧
  handleConnection 4 receiver [] {| unread := net_stream n' 8%nat; ending := StillOpen |} =
    Ret (Some (Blocked [(ChannelIDMempool, [10; 1], 7); (ChannelIDMempool, [11], 9)])).
Proof.
  destruct (network_delivers sender ∅ 8%nat "10.0.0.2" calls receiver [] [(ChannelIDMempool, [10; 1], 7); (ChannelIDMempool, [11], 9)])
    as (n' & E & Hh).
  - reflexivity.
  - discriminate.
  - reflexivity.
  - reflexivity.
  - intros k Hk. repeat (apply elem_of_cons in Hk as [->|Hk]; [reflexivity|]). by apply elem_of_nil in Hk.
  - reflexivity.
  - vm_compute. reflexivity.
  - exists n'. split; [exact E|]. apply Hh. vm_compute. lia.
Defined.
Lemma closed_connection_spins_witness :
  handleConnection 1000 receiver [] {| unread := frame_of (NewEnvelop ChannelIDMempool [1] 2) ++ []; ending := Closed |} = Ret None.
Proof.
  apply (closed_connection_spins receiver [NewEnvelop ChannelIDMempool [1] 2] [] [(ChannelIDMempool, [1], 2)] 1000); vm_compute; reflexivity.
Defined.
End Link.
