(* ===== verification/Bank.v ===== *)
(** * The bank application

    Models [source/urd/abci/minibank]: the account values and messages of
    [types.go], the account database of [memdb.go] and the application of
    [bank.go].  The application and its account databases share one prefixed
    store; [bm] threads that store and the database's loaded remote values,
    with errors as values and panics apart. *)

From stdpp Require Import base list gmap strings numbers.
From Stdlib Require Import ZArith Lia.
From S2P Require Import Prelude Convert Hash Signer RangeList Store Receipt.

Definition initBalance : Z := 1000000.
Definition RLockedIdentifier : Z := 48.
Definition WLockedIdentifier : Z := 49.
Definition FreeIdentifier : Z := 50.
Definition isFree (locked : Z) : bool := locked =? FreeIdentifier.
Definition isWLock (locked : Z) : bool := locked =? WLockedIdentifier.
Definition isRLock (locked : Z) : bool := locked =? RLockedIdentifier.

(** [definition.TxInsert] and [definition.TxTransfer]. *)
Definition TxInsert : Z := 5.
Definition TxTransfer : Z := 6.

(** ** Messages ([proto/urd/abci/minibank/types.proto]) *)
Record BankData := { bdKeys : list string; bdOK : bool; bdValues : list Z }.
Record TransferTx := {
  From : list string; To : list string; FromMoney : list Z; ToMoney : list Z;
  Buffer : bytes; Time : Z * Z; Shards : list string
}.
Record InsertTx := { Account : string; Money : Z; iBuffer : bytes; iTime : Z * Z }.
Record RelayTransferTx := { rDatas : option BankData; rTxHash : bytes }.
Record RelayTransferTxSet := {
  sShards : list string; sDatas : list (option BankData); sRawTx : bytes
}.

Definition empty_data : BankData := {| bdKeys := []; bdOK := false; bdValues := [] |}.

(** Reading a [RelayTransferTxSet] back: the runtime writes a nil element of a
    repeated message field as an empty message, which reads back as a pointer
    to an empty message. *)
Definition no_nil (m : RelayTransferTxSet) : RelayTransferTxSet :=
  {| sShards := sShards m; sDatas := map (λ d, Some (default empty_data d)) (sDatas m);
     sRawTx := sRawTx m |}.

Class BankCodec := {
  transfer_codec :: ProtoCodec TransferTx;
  insert_codec :: ProtoCodec InsertTx;
  relay_codec :: ProtoCodec RelayTransferTx;
  set_marshal : RelayTransferTxSet → option bytes;
  set_unmarshal : bytes → option RelayTransferTxSet;
  set_unmarshal_marshal : ∀ m bz, set_marshal m = Some bz → set_unmarshal bz = Some (no_nil m);
  list_marshal : gmap string (option BankData) → option bytes;
  list_unmarshal : bytes → option (gmap string (option BankData));
  list_unmarshal_marshal : ∀ m bz, map_Forall (λ _ d, is_Some d) m →
    list_marshal m = Some bz → list_unmarshal bz = Some m
}.

Inductive bank_error :=
| ErrDB (e : db_error)
| ErrKeyNotExist | ErrUnmarshal | ErrTxLength | ErrTxType | ErrNotThisShard | ErrInvalidShards
| ErrMoneyLength | ErrMoneyEmpty | ErrMoneySum | ErrNotIncluded | ErrKeyLocked | ErrBalance
| ErrCommitted | ErrLockConflict | ErrCrossShardFields | ErrKeyNoShard.

(** ** types.go *)

Definition must_marshal {M} (f : M → option bytes) (m : M) : outcome bytes :=
  match f m with Some bz => Ret bz | None => Panic end.

Section Types.
Context {C : BankCodec}.

Definition TransferBytes (tx : TransferTx) : outcome bytes :=
  bz ← MustProtoBytes tx; Ret (Uint32ToBytes TxTransfer ++ bz).
Definition InsertBytes (tx : InsertTx) : outcome bytes :=
  bz ← MustProtoBytes tx; Ret (Uint32ToBytes TxInsert ++ bz).
Definition TransferTxSize (tx : TransferTx) : outcome Z := bz ← TransferBytes tx; Ret (zlen bz).
Definition InsertTxSize (tx : InsertTx) : outcome Z := bz ← InsertBytes tx; Ret (zlen bz).

Definition NewTransferTx (froms : list string) (fromMoney : list Z) (tos : list string)
    (toMoney : list Z) (related_shards : list string) (now : Z * Z) : TransferTx :=
  {| From := froms; To := tos; FromMoney := fromMoney; ToMoney := toMoney; Buffer := [];
     Time := now; Shards := related_shards |}.

(** ['0'] bytes, despite the name. *)
Definition GenerateRandomBytes (n : Z) : bytes := replicate (Z.to_nat n) 48.

Definition NewTransferTxMustLen (froms : list string) (fromMoney : list Z) (tos : list string)
    (toMoney : list Z) (related_shards : list string) (mustLen : Z) (now : Z * Z) : outcome TransferTx :=
  let t := NewTransferTx froms fromMoney tos toMoney related_shards now in
  size ← TransferTxSize t;
  let delta := mustLen - size in
  Ret (if 0 <? delta then
    {| From := From t; To := To t; FromMoney := FromMoney t; ToMoney := ToMoney t;
       Buffer := GenerateRandomBytes delta; Time := Time t; Shards := Shards t |} else t).

Definition sum_uint32 (l : list Z) : Z := foldl (λ acc money, uint32 (acc + money)) 0 l.

Definition ValidateTransferTx (tx : TransferTx) : option bank_error :=
  if negb (zlen (From tx) =? zlen (FromMoney tx)) || negb (zlen (To tx) =? zlen (ToMoney tx))
  then Some ErrMoneyLength
  else if (zlen (From tx) =? 0) || (zlen (To tx) =? 0) then Some ErrMoneyEmpty
  else if negb (sum_uint32 (FromMoney tx) =? sum_uint32 (ToMoney tx)) then Some ErrMoneySum
  else None.

(** [txBytes[4:]] panics on a shorter slice. *)
Definition NewTransferTxFromBytes (txBytes : bytes) : outcome (TransferTx + bank_error) :=
  rest ← slice_from txBytes 4;
  Ret (match unmarshal rest with Some tx => inl tx | None => inr ErrUnmarshal end).

Definition MarshalValue (money locked : Z) : bytes := locked :: Uint32ToBytes money.
Definition UnmarshalValue (bz : bytes) : outcome (Z * Z) :=
  locked ← idx bz 0;
  rest ← slice_from bz 1;
  money ← BytesToUint32 rest;
  Ret (money, locked).
Definition SetValue (identifier : Z) (bz : bytes) : outcome bytes := upd bz 0 identifier.

Definition isRelayTransferTxSetFinish (tx : RelayTransferTxSet) : bool :=
  forallb (λ bd, match bd with Some _ => true | None => false end) (sDatas tx).

End Types.

(** ** The state and error monad of the application *)

Record bst (S : Type) := { bstore : S; bretain : gmap string Z }.
Arguments bstore {S} _.
Arguments bretain {S} _.

Definition bm (S A : Type) : Type := bst S → outcome (bst S * (A + bank_error)).

Definition bret {S A} (a : A) : bm S A := λ st, Ret (st, inl a).
Definition bthrow {S A} (e : bank_error) : bm S A := λ st, Ret (st, inr e).
Definition bbind {S A B} (m : bm S A) (k : A → bm S B) : bm S B := λ st,
  match m st with
  | Panic => Panic
  | Ret (st', inr e) => Ret (st', inr e)
  | Ret (st', inl a) => k a st'
  end.
Definition blift {S A} (o : outcome A) : bm S A := λ st,
  match o with Panic => Panic | Ret a => Ret (st, inl a) end.
(** Run a call whose error is handled by the caller. *)
Definition btry {S A} (m : bm S A) : bm S (A + bank_error) := λ st,
  match m st with Panic => Panic | Ret (st', r) => Ret (st', inl r) end.
Definition bcheck {S} (e : option bank_error) : bm S unit :=
  match e with Some e => bthrow e | None => bret tt end.
Definition bsum {S A} (r : A + bank_error) : bm S A :=
  match r with inl a => bret a | inr e => bthrow e end.

Lemma bbind_inl {S A B} (m : bm S A) (k : A → bm S B) st st' a :
  m st = Ret (st', inl a) → bbind m k st = k a st'.
Proof. intros E. unfold bbind. by rewrite E. Qed.
Lemma bbind_inr {S A B} (m : bm S A) (k : A → bm S B) st st' e :
  m st = Ret (st', inr e) → bbind m k st = Ret (st', inr e).
Proof. intros E. unfold bbind. by rewrite E. Qed.
Lemma btry_eq {S A} (m : bm S A) st st' r : m st = Ret (st', r) → btry m st = Ret (st', inl r).
Proof. intros E. unfold btry. by rewrite E. Qed.

Declare Scope bank_scope.
Delimit Scope bank_scope with bank.
Notation "x <- m ;; k" := (bbind m (λ x, k)) (at level 100, m at next level, right associativity) : bank_scope.
Notation "m ;;; k" := (bbind m (λ _, k)) (at level 100, right associativity) : bank_scope.
Open Scope bank_scope.

(** A loop that stops at the first error. *)
Fixpoint bfor {S A} (l : list A) (f : A → bm S unit) : bm S unit :=
  match l with
  | [] => bret tt
  | x :: l' => f x ;;; bfor l' f
  end.

(** ** memdb.go *)

Section DB.
Context {S : Type} {KV : KVStore S}.

(** [app.rangelist.Search] through a pointer that may be nil. *)
Definition rl_Search (r : option RangeList) (key : string) : outcome bool :=
  match r with None => Panic | Some r => Search r key end.

Definition db_Get (key : bytes) : bm S slice := λ st,
  Ret (st, match PrefixStore.Get (bstore st) key with inl v => inl v | inr e => inr (ErrDB e) end).
Definition put (r : S * option db_error) : bm S unit := λ st,
  Ret ({| bstore := fst r; bretain := bretain st |},
       match snd r with None => inl tt | Some e => inr (ErrDB e) end).
Definition db_Set (key : bytes) (v : slice) : bm S unit := λ st,
  put (PrefixStore.Set_ (bstore st) key v) st.
Definition db_GetSpecial (key : bytes) : bm S slice := λ st,
  Ret (st, match PrefixStore.GetSpecial (bstore st) key with inl v => inl v | inr e => inr (ErrDB e) end).
Definition db_HasSpecial (key : bytes) : bm S bool := λ st,
  Ret (st, match PrefixStore.HasSpecial (bstore st) key with inl v => inl v | inr e => inr (ErrDB e) end).
Definition db_SetSpecial (key : bytes) (v : slice) : bm S unit := λ st,
  put (PrefixStore.SetSpecial (bstore st) key v) st.

Definition AppDB_Set (rangelist : option RangeList) (key : string) (money locked : Z) : bm S unit :=
  inside <- blift (rl_Search rangelist key) ;;
  if negb inside then bret tt
  else db_Set (str_bytes key) (Some (MarshalValue money locked)).

(** A missing account is created with [initBalance] when it is read. *)
Definition AppDB_Get (rangelist : option RangeList) (key : string) : bm S (Z * Z) :=
  inside <- blift (rl_Search rangelist key) ;;
  if inside : bool then
    r <- btry (db_Get (str_bytes key)) ;;
    let bz := match r with inl v => sbytes v | inr _ => [] end in
    if zlen bz =? 0 then
      AppDB_Set rangelist key initBalance FreeIdentifier ;;; bret (initBalance, FreeIdentifier)
    else blift (UnmarshalValue bz)
  else λ st, Ret (st, match bretain st !! key with
                      | Some v => inl (v, FreeIdentifier)
                      | None => inr ErrKeyNotExist
                      end).

Definition LoadData (key : string) (value : Z) : bm S unit := λ st,
  Ret ({| bstore := bstore st; bretain := <[key := value]> (bretain st) |}, inl tt).
Definition Clear : bm S unit := λ st, Ret ({| bstore := bstore st; bretain := ∅ |}, inl tt).

Definition set_lock (identifier : Z) (key : string) : bm S unit :=
  r <- btry (db_Get (str_bytes key)) ;;
  let bz := match r with inl v => sbytes v | inr _ => [] end in
  if zlen bz =? 0 then bthrow ErrKeyNotExist
  else out <- blift (SetValue identifier bz) ;; db_Set (str_bytes key) (Some out).
Definition RLock (key : string) : bm S unit := set_lock RLockedIdentifier key.
Definition WLock (key : string) : bm S unit := set_lock WLockedIdentifier key.
Definition WUnlock (key : string) : bm S unit := set_lock FreeIdentifier key.

End DB.

(** ** bank.go *)

Section Application.
Context {S : Type} {KV : KVStore S} {C : BankCodec} {H : HashFn}.

(** [KeyRangeTrees] is a map; ranging over it visits its entries in an
    unspecified order, here the order of the list. *)
Record Application := {
  KeyRangeTrees : list (string * RangeList);
  chain_id : string;
  ShardIDList : list string
}.

Definition shards_to_index (app : Application) : gmap string Z :=
  fst (foldl (λ acc shard, (<[shard := snd acc]> (fst acc), snd acc + 1)) (∅, 0) (ShardIDList app)).

Definition own_range (app : Application) : option RangeList :=
  (list_to_map (KeyRangeTrees app) : gmap string RangeList) !! chain_id app.

Definition search_key_intra_shard (app : Application) (key : string) : outcome bool :=
  rl_Search (own_range app) key.

Fixpoint search_trees (trees : list (string * RangeList)) (key : string) : outcome (option string) :=
  match trees with
  | [] => Ret None
  | (shard, rangeTree) :: rest =>
      found ← Search rangeTree key;
      if found : bool then Ret (Some shard) else search_trees rest key
  end.
Definition search_key_shard (app : Application) (key : string) : bm S string :=
  r <- blift (search_trees (KeyRangeTrees app) key) ;;
  match r with Some shard => bret shard | None => bthrow ErrKeyNoShard end.

(** *** Transfers *)

(** The two reading loops of [doTransfer], in step with the money lists. *)
Fixpoint read_from (rl : option RangeList) (keys : list string) (moneys : list Z) : bm S (list Z) :=
  match keys with
  | [] => bret []
  | key :: keys' =>
      r <- AppDB_Get rl key ;;
      let '(balance, locked) := r in
      if negb (isFree locked) then bthrow ErrKeyLocked
      else match moneys with
           | [] => blift Panic
           | money :: moneys' =>
               if balance <? money then bthrow ErrBalance
               else rest <- read_from rl keys' moneys' ;; bret (uint32 (balance - money) :: rest)
           end
  end.
Fixpoint read_to (rl : option RangeList) (keys : list string) (moneys : list Z) : bm S (list Z) :=
  match keys with
  | [] => bret []
  | key :: keys' =>
      r <- AppDB_Get rl key ;;
      let '(balance, locked) := r in
      if negb (isFree locked) then bthrow ErrKeyLocked
      else match moneys with
           | [] => blift Panic
           | money :: moneys' =>
               rest <- read_to rl keys' moneys' ;; bret (uint32 (balance + money) :: rest)
           end
  end.
Fixpoint write_all (rl : option RangeList) (keys : list string) (balances : list Z) : bm S unit :=
  match keys, balances with
  | [], _ => bret tt
  | _ :: _, [] => blift Panic
  | key :: keys', b :: balances' => AppDB_Set rl key b FreeIdentifier ;;; write_all rl keys' balances'
  end.

Definition doTransfer (app : Application) (tx : TransferTx) : bm S unit :=
  if negb (StrIn (chain_id app) (Shards tx)) then bthrow ErrNotIncluded
  else
    bcheck (ValidateTransferTx tx) ;;;
    fromBalance <- read_from (own_range app) (From tx) (FromMoney tx) ;;
    toBalance <- read_to (own_range app) (To tx) (ToMoney tx) ;;
    write_all (own_range app) (From tx) fromBalance ;;;
    write_all (own_range app) (To tx) toBalance.

Definition execute (app : Application) (txBytes : bytes) : bm S unit :=
  if zlen txBytes <? 4 then bthrow ErrTxLength
  else
    ty <- blift (BytesToUint32 (take 4 txBytes)) ;;
    if ty =? TxTransfer then
      r <- blift (NewTransferTxFromBytes txBytes) ;;
      tx <- bsum r ;;
      match Shards tx with
      | [shard] => if bool_decide (shard ≠ chain_id app) then bthrow ErrNotThisShard else doTransfer app tx
      | _ => bthrow ErrInvalidShards
      end
    else bthrow ErrTxType.

(** *** Cross-shard transfers *)

Definition prefix_of_undo_relay : bytes := [117; 110; 100; 111].
Definition toRelayKey (key : bytes) : bytes := prefix_of_undo_relay ++ key.

Definition insertBankDataToRelayTxSet (bank_data : option BankData) (chain : string)
    (set : RelayTransferTxSet) : outcome RelayTransferTxSet :=
  datas ← foldM (λ acc p, if bool_decide (snd p = chain)
                          then upd acc (Z.of_nat (fst p)) bank_data else Ret acc)
                (zip (seq 0 (length (sShards set))) (sShards set)) (sDatas set);
  Ret {| sShards := sShards set; sDatas := datas; sRawTx := sRawTx set |}.

(** Lock the keys of this shard; the error of [WLock] is dropped. *)
Definition lock_keys (app : Application) (keys : list string) : bm S unit :=
  bfor keys (λ key,
    inside <- blift (search_key_intra_shard app key) ;;
    if negb inside then bret tt else _ <- btry (WLock key) ;; bret tt).

Definition lockTransfer (app : Application) (tx : TransferTx) (raw_tx : bytes) : bm S unit :=
  let hash := TxHash raw_tx in
  let set0 := {| sShards := Shards tx; sDatas := replicate (length (Shards tx)) None;
                 sRawTx := raw_tx |} in
  bz <- db_GetSpecial (toRelayKey hash) ;;
  set <- (if 0 <? zlen (sbytes bz) then
            match list_unmarshal (sbytes bz) with
            | None => bthrow ErrUnmarshal
            | Some datas =>
                blift (foldM (λ acc p, insertBankDataToRelayTxSet (snd p) (fst p) acc)
                         (map_to_list datas) set0)
            end
          else bret set0) ;;
  setBz <- blift (must_marshal set_marshal set) ;;
  db_SetSpecial hash (Some setBz) ;;;
  lock_keys app (From tx ++ To tx).

Definition executeCrossShard (app : Application) (txBytes : bytes) : bm S unit :=
  if zlen txBytes <? 4 then bthrow ErrTxLength
  else
    ty <- blift (BytesToUint32 (take 4 txBytes)) ;;
    if ty =? TxTransfer then
      r <- blift (NewTransferTxFromBytes txBytes) ;;
      tx <- bsum r ;;
      if 1 <? zlen (Shards tx) then lockTransfer app tx txBytes else bthrow ErrInvalidShards
    else bthrow ErrTxType.

(** Unlock and load the values of every shard of the set. *)
Fixpoint load_values (keys : list string) (values : list Z) : bm S unit :=
  match keys, values with
  | [], _ => bret tt
  | _ :: _, [] => blift Panic
  | k :: keys', v :: values' => LoadData k v ;;; load_values keys' values'
  end.
Fixpoint unlock_load (app : Application) (shards : list string) (datas : list (option BankData))
    : bm S unit :=
  match datas, shards with
  | [], _ => bret tt
  | _ :: _, [] => blift Panic
  | None :: _, _ => blift Panic
  | Some data :: datas', shard :: shards' =>
      (if bool_decide (shard = chain_id app) then bfor (bdKeys data) WUnlock else bret tt) ;;;
      load_values (bdKeys data) (bdValues data) ;;;
      unlock_load app shards' datas'
  end.

(** [defer db.Clear()]: the loaded values are dropped however the rest ends. *)
Definition with_clear {A} (m : bm S A) : bm S A := λ st,
  match m st with
  | Panic => Panic
  | Ret (st', r) => Ret ({| bstore := bstore st'; bretain := ∅ |}, r)
  end.

(** An unmarshalled message without entries has a nil map, and assigning to a
    nil map panics. *)
Definition unlockTransfer (app : Application) (tx : RelayTransferTx) (chain : string) : bm S unit :=
  let hash := rTxHash tx in
  bz <- db_GetSpecial hash ;;
  if zlen (sbytes bz) =? 0 then
    dz <- db_GetSpecial (toRelayKey hash) ;;
    bankdatas <- (if zlen (sbytes dz) =? 0 then bret ∅
                  else match list_unmarshal (sbytes dz) with
                       | None => bthrow ErrUnmarshal
                       | Some m => if decide (m = ∅) then blift Panic else bret m
                       end) ;;
    rbz <- blift (must_marshal list_marshal (<[chain := rDatas tx]> bankdatas)) ;;
    db_SetSpecial (toRelayKey hash) (Some rbz)
  else
    match set_unmarshal (sbytes bz) with
    | None => bthrow ErrUnmarshal
    | Some set0 =>
        set <- blift (insertBankDataToRelayTxSet (rDatas tx) chain set0) ;;
        if negb (isRelayTransferTxSetFinish set) then bret tt
        else with_clear (
          unlock_load app (sShards set) (sDatas set) ;;;
          r <- blift (NewTransferTxFromBytes (sRawTx set)) ;;
          rawTx <- bsum r ;;
          doTransfer app rawTx)
    end.

Definition executeRelay (app : Application) (txBytes : bytes) (chain : string) : bm S unit :=
  match unmarshal txBytes with
  | None => bthrow ErrUnmarshal
  | Some tx => unlockTransfer app tx chain
  end.

(** *** Pre-execution of cross-shard transactions *)

Definition add_new (s : string) (l : list string) : list string :=
  if bool_decide (s ∈ l) then l else l ++ [s].

(** The loop over the keys of [pre_doTransfer]: it collects the related shards
    and the local values, and marks local keys in [wlocks] as it goes, also
    when it stops with an error. *)
Fixpoint pre_keys (app : Application) (keys : list string) (wlocks rlocks : gset string)
    (shards : list string) (data : BankData)
    : bm S (gset string * ((list string * BankData) + bank_error)) :=
  match keys with
  | [] => bret (wlocks, inl (shards, data))
  | key :: keys' =>
      r <- btry (search_key_shard app key) ;;
      match r with
      | inr e => bret (wlocks, inr e)
      | inl shard =>
          let shards' := add_new shard shards in
          if bool_decide (shard ≠ chain_id app) then pre_keys app keys' wlocks rlocks shards' data
          else
            v <- btry (AppDB_Get (own_range app) key) ;;
            match v with
            | inr e => bret (wlocks, inr e)
            | inl (money, locked) =>
                if negb (isFree locked) || bool_decide (key ∈ wlocks) || bool_decide (key ∈ rlocks)
                then bret (wlocks, inr ErrLockConflict)
                else pre_keys app keys' ({[key]} ∪ wlocks) rlocks shards'
                       {| bdKeys := bdKeys data ++ [key]; bdOK := bdOK data;
                          bdValues := bdValues data ++ [money] |}
            end
      end
  end.

Definition pre_doTransfer (app : Application) (tx : TransferTx) (raw_tx : bytes)
    (wlocks rlocks : gset string) : bm S (gset string * ((bytes * list string) + bank_error)) :=
  if negb (StrIn (chain_id app) (Shards tx)) then bret (wlocks, inr ErrNotIncluded)
  else
    let hash := TxHash raw_tx in
    ok <- btry (db_HasSpecial hash) ;;
    match ok with
    | inr e => bret (wlocks, inr e)
    | inl true => bret (wlocks, inr ErrCommitted)
    | inl false =>
        match ValidateTransferTx tx with
        | Some e => bret (wlocks, inr e)
        | None =>
            r <- pre_keys app (From tx ++ To tx) wlocks rlocks [] empty_data ;;
            match r with
            | (wlocks', inr e) => bret (wlocks', inr e)
            | (wlocks', inl (shards, data)) =>
                relayTxBz <- blift (MustProtoBytes {| rDatas := Some data; rTxHash := hash |}) ;;
                let related_shards := sort_Strings shards in
                if negb (StrEqual (Shards tx) related_shards) then bret (wlocks', inr ErrCrossShardFields)
                else bret (wlocks', inl (relayTxBz, related_shards))
            end
        end
    end.

(** Append the relay transaction to the list of every destination shard; a
    shard missing from the index map has index 0. *)
Definition push_relay (app : Application) (relayTx : bytes) (dst : list string) (relayTxs : list (list bytes))
    : outcome (list (list bytes)) :=
  foldM (λ acc shard,
    let i := default 0 (shards_to_index app !! shard) in
    l ← idx acc i; upd acc i (l ++ [relayTx])) dst relayTxs.

Fixpoint pre_loop (app : Application) (input : list bytes) (wlocks : gset string)
    (relayTxs : list (list bytes)) : bm S (list (list bytes)) :=
  match input with
  | [] => bret relayTxs
  | txBytes :: input' =>
      r <- blift (NewTransferTxFromBytes txBytes) ;;
      match r with
      | inr _ => pre_loop app input' wlocks relayTxs
      | inl tx =>
          if zlen (Shards tx) <=? 1 then pre_loop app input' wlocks relayTxs
          else
            p <- pre_doTransfer app tx txBytes wlocks ∅ ;;
            match p with
            | (wlocks', inr _) => pre_loop app input' wlocks' relayTxs
            | (wlocks', inl (relayTx, dstShards)) =>
                relayTxs' <- blift (push_relay app relayTx dstShards relayTxs) ;;
                _ <- btry (executeCrossShard app txBytes) ;;
                pre_loop app input' wlocks' relayTxs'
            end
      end
  end.
(** [preExecution] makes its own account database over the same store. *)
Definition preExecution (app : Application) (input : list bytes) : bm S (list (list bytes)) := λ st,
  match pre_loop app input ∅ (replicate (size (shards_to_index app)) [])
          {| bstore := bstore st; bretain := ∅ |} with
  | Panic => Panic
  | Ret (st', r) => Ret ({| bstore := bstore st'; bretain := bretain st |}, r)
  end.

(** *** Execution of a block *)

Context (err_text : bank_error → string).

Definition receipt_of (tx : bytes) (r : unit + bank_error) : ABCIExecutionReceipt :=
  SetRawTx match r with
    | inl _ => {| rCode := RCodeTypeOK; rLog := EmptyString; rInfo := EmptyString; rOptions := None |}
    | inr e => {| rCode := RCodeTypeAbort; rLog := EmptyString; rInfo := err_text e; rOptions := None |}
    end tx.

Fixpoint exec_txs (app : Application) (txs : list bytes) : bm S (list ABCIExecutionReceipt) :=
  match txs with
  | [] => bret []
  | tx :: txs' =>
      r <- btry (execute app tx) ;;
      rest <- exec_txs app txs' ;;
      bret (receipt_of tx r :: rest)
  end.

Fixpoint exec_relays (app : Application) (CTXS : list (list bytes)) (i : Z) : bm S unit :=
  match CTXS with
  | [] => bret tt
  | ctxs :: CTXS' =>
      chain <- blift (idx (ShardIDList app) i) ;;
      bfor ctxs (λ opt, _ <- btry (executeRelay app opt chain) ;; bret tt) ;;;
      exec_relays app CTXS' (i + 1)
  end.

Record ABCIExecutionResponse := {
  Responses : list ABCIExecutionReceipt;
  OPTxs : list (list bytes)
}.

Definition Execution (app : Application) (txs cross_shard_txs : list bytes) (CTXS : list (list bytes))
    (store : S) : outcome (S * ABCIExecutionResponse) :=
  match (exec_relays app CTXS 0 ;;;
         receipts <- exec_txs app txs ;;
         opts <- preExecution app cross_shard_txs ;;
         bret {| Responses := receipts; OPTxs := opts |}) {| bstore := store; bretain := ∅ |} with
  | Ret (st, inl resp) => Ret (bstore st, resp)
  | _ => Panic
  end.

(** [ValidateTx] checks the type tag and that the message parses. *)
Definition validateTx (txBytes : bytes) : outcome (option bank_error) :=
  if zlen txBytes <? 4 then Ret (Some ErrTxLength)
  else
    ty ← BytesToUint32 (take 4 txBytes);
    if ty =? TxTransfer then
      Ret (match (unmarshal (drop 4 txBytes) : option TransferTx) with Some _ => None | None => Some ErrUnmarshal end)
    else if ty =? TxInsert then
      Ret (match (unmarshal (drop 4 txBytes) : option InsertTx) with Some _ => None | None => Some ErrUnmarshal end)
    else Ret (Some ErrTxType).
Definition ValidateTx (tx : bytes) (isCrossShard : bool) : outcome bool :=
  r ← validateTx tx; Ret (match r with Some _ => false | None => true end).

End Application.
