(* ===== verification/BankProofs.v ===== *)
(** * The bank application: correctness

    Accounts seen through the store, what a transfer does to them, and where
    the application creates money or gives up. *)

From Stdlib Require Import ZArith Lia.
From stdpp Require Import base list gmap strings numbers.
From S2P Require Import Prelude Convert Hash Signer RangeList Store Receipt Bank.

Section Bank.
Context {S : Type} {KV : KVStore S}.
Implicit Types (st : bst S) (p : S) (key k : string).

(** ** Accounts *)

(** The value of an account: an account that was never written holds
    [initBalance], free. *)
Definition account p key : Z * Z :=
  match PrefixStore.datas p (str_bytes key) with
  | Some (locked :: rest) => (le_decode (take 4 rest), locked)
  | _ => (initBalance, FreeIdentifier)
  end.
Definition balance p key : Z := fst (account p key).
Definition locked p key : Z := snd (account p key).

(** Every value in the data name space is empty or an encoded account. *)
Definition bank_wf p : Prop := ∀ j bz, PrefixStore.datas p j = Some bz →
  bz = [] ∨ ∃ money lk, bz = MarshalValue money lk ∧ 0 ≤ money < 2 ^ 32.

(** Stores that hold the same accounts and the same special entries. *)
Definition same_bank p p' : Prop :=
  (∀ key, account p' key = account p key) ∧
  (∀ x, PrefixStore.specials p' x = PrefixStore.specials p x).

#[global] Instance same_bank_equiv : Equivalence same_bank.
Proof.
  split.
  - intros p. done.
  - intros p q [H1 H2]. split; intros; by rewrite ?H1, ?H2.
  - intros p q r [H1 H2] [H3 H4]. split; intros; by rewrite ?H3, ?H4.
Qed.

Lemma MarshalValue_take money lk : 0 ≤ money < 2 ^ 32 →
  match MarshalValue money lk with l :: rest => (le_decode (take 4 rest), l) | [] => (0, 0) end = (money, lk).
Proof.
  intros Hm. cbv beta iota delta [MarshalValue Uint32ToBytes]. rewrite take_ge by (rewrite length_le_encode; lia).
  rewrite le_decode_encode. change (256 ^ Z.of_nat 4) with (2 ^ 32). by rewrite Z.mod_small.
Qed.

Lemma UnmarshalValue_Marshal money lk : 0 ≤ money < 2 ^ 32 →
  UnmarshalValue (MarshalValue money lk) = Ret (money, lk).
Proof.
  intros Hm. unfold UnmarshalValue, MarshalValue. cbn [idx].
  rewrite slice_from_in_range by (rewrite zlen_cons; pose proof (zlen_nonneg (Uint32ToBytes money)); lia).
  change (idx (lk :: Uint32ToBytes money) 0) with (Ret lk).
  change (Z.to_nat 1) with 1%nat. cbn [mbind outcome_bind]. rewrite skipn_cons, drop_0.
  by rewrite <- (app_nil_r (Uint32ToBytes money)), BytesToUint32_app.
Qed.

Lemma account_after_set p p' key money lk :
  0 ≤ money < 2 ^ 32 →
  (∀ j, PrefixStore.datas p' j = if decide (j = str_bytes key) then Some (MarshalValue money lk)
                                 else PrefixStore.datas p j) →
  ∀ k, account p' k = if decide (k = key) then (money, lk) else account p k.
Proof.
  intros Hm Hd k. unfold account. rewrite Hd. destruct (decide (k = key)) as [->|Hne].
  - rewrite decide_True by done. by apply (MarshalValue_take money lk).
  - rewrite decide_False; [done|]. by intros ?%str_bytes_inj.
Qed.

(** ** The account database *)

Section Range.
Context (r : RangeList) (Hr : rl_wf r).

Lemma rl_Search_member key : rl_Search (Some r) key = Ret (member r key).
Proof using Hr. by apply Search_member_lemma. Qed.

Lemma AppDB_Set_in st key money lk :
  member r key = true → 0 ≤ money < 2 ^ 32 → bank_wf (bstore st) →
  ∃ st', AppDB_Set (Some r) key money lk st = Ret (st', inl tt) ∧ bank_wf (bstore st') ∧
    bretain st' = bretain st ∧
    (∀ k, account (bstore st') k = if decide (k = key) then (money, lk) else account (bstore st) k) ∧
    (∀ x, PrefixStore.specials (bstore st') x = PrefixStore.specials (bstore st) x).
Proof using Hr.
  intros Hin Hm Hwf. unfold AppDB_Set, bbind, blift. rewrite rl_Search_member, Hin. cbn [negb].
  unfold db_Set, put.
  destruct (PrefixStore.Set_eq (bstore st) (str_bytes key) (MarshalValue money lk))
    as (p' & -> & Hd & _ & Hx).
  eexists. split; [done|]. cbn [bstore bretain fst]. split; [|split; [done|split; [|done]]].
  - intros j bz. rewrite Hd. case_decide; [|apply Hwf]. intros [= <-]. right. eauto.
  - by apply account_after_set.
Qed.

Lemma AppDB_Set_out st key money lk :
  member r key = false → AppDB_Set (Some r) key money lk st = Ret (st, inl tt).
Proof using Hr. intros Hin. unfold AppDB_Set, bbind, blift. by rewrite rl_Search_member, Hin. Qed.

(** Reading a local account returns it and changes no account. *)
Lemma AppDB_Get_in st key : member r key = true → bank_wf (bstore st) →
  ∃ st', AppDB_Get (Some r) key st = Ret (st', inl (account (bstore st) key)) ∧
    bank_wf (bstore st') ∧ bretain st' = bretain st ∧ same_bank (bstore st) (bstore st').
Proof using Hr.
  intros Hin Hwf. unfold AppDB_Get, bbind, blift at 1. rewrite rl_Search_member, Hin.
  unfold btry, db_Get. rewrite PrefixStore.Get_eq.
  destruct (PrefixStore.datas (bstore st) (str_bytes key)) as [bz|] eqn:Ed.
  - destruct (Hwf _ _ Ed) as [->|(money & lk & -> & Hm)]; cbn [sbytes default id].
    + change (zlen [] =? 0) with true. cbn iota.
      destruct (AppDB_Set_in st key initBalance FreeIdentifier Hin) as (st' & -> & Hwf' & Hre & Hacc & Hx);
        [unfold initBalance; lia|done|].
      exists st'. cbn. assert (account (bstore st) key = (initBalance, FreeIdentifier)) as Ea.
      { unfold account. by rewrite Ed. }
      rewrite Ea. split; [done|]. split; [done|]. split; [done|]. split; [|done].
      intros k. rewrite Hacc. by destruct (decide (k = key)) as [->|].
    + exists st. unfold blift. rewrite UnmarshalValue_Marshal by done.
      change (zlen (MarshalValue money lk) =? 0) with false. cbn iota.
      unfold account. rewrite Ed. split; [|done]. do 3 f_equal. symmetry.
      by apply (MarshalValue_take money lk).
  - cbn [sbytes default]. change (zlen [] =? 0) with true. cbn iota.
    destruct (AppDB_Set_in st key initBalance FreeIdentifier Hin) as (st' & -> & Hwf' & Hre & Hacc & Hx);
      [unfold initBalance; lia|done|].
    exists st'. cbn. assert (account (bstore st) key = (initBalance, FreeIdentifier)) as Ea.
    { unfold account. by rewrite Ed. }
    rewrite Ea. split; [done|]. split; [done|]. split; [done|]. split; [|done].
    intros k. rewrite Hacc. by destruct (decide (k = key)) as [->|].
Qed.

Lemma AppDB_Get_out st key : member r key = false →
  AppDB_Get (Some r) key st =
    Ret (st, match bretain st !! key with Some v => inl (v, FreeIdentifier) | None => inr ErrKeyNotExist end).
Proof using Hr. intros Hin. unfold AppDB_Get, bbind, blift. by rewrite rl_Search_member, Hin. Qed.

(** What the database reports for a key: its account, or the value loaded
    from another shard. *)
Definition view st key : (Z * Z) + bank_error :=
  if member r key then inl (account (bstore st) key)
  else match bretain st !! key with Some v => inl (v, FreeIdentifier) | None => inr ErrKeyNotExist end.

Lemma AppDB_Get_view st key : bank_wf (bstore st) →
  ∃ st', AppDB_Get (Some r) key st = Ret (st', view st key) ∧ bank_wf (bstore st') ∧
    bretain st' = bretain st ∧ same_bank (bstore st) (bstore st').
Proof using Hr.
  intros Hwf. unfold view. destruct (member r key) eqn:Hin; [by apply AppDB_Get_in|].
  exists st. by rewrite AppDB_Get_out.
Qed.

Lemma view_same st st' key : same_bank (bstore st) (bstore st') → bretain st' = bretain st →
  view st' key = view st key.
Proof. intros [Ha _] Hb. unfold view. by rewrite Ha, Hb. Qed.

(** ** Transfers *)

(** What the reading loops compute from the values they see. *)
Fixpoint from_spec (vw : string → (Z * Z) + bank_error) (keys : list string) (moneys : list Z)
    : list Z + bank_error :=
  match keys, moneys with
  | key :: keys', money :: moneys' =>
      match vw key with
      | inr e => inr e
      | inl (b, lk) =>
          if negb (isFree lk) then inr ErrKeyLocked
          else if b <? money then inr ErrBalance
          else match from_spec vw keys' moneys' with
               | inr e => inr e
               | inl rest => inl (uint32 (b - money) :: rest)
               end
      end
  | _, _ => inl []
  end.
Fixpoint to_spec (vw : string → (Z * Z) + bank_error) (keys : list string) (moneys : list Z)
    : list Z + bank_error :=
  match keys, moneys with
  | key :: keys', money :: moneys' =>
      match vw key with
      | inr e => inr e
      | inl (b, lk) =>
          if negb (isFree lk) then inr ErrKeyLocked
          else match to_spec vw keys' moneys' with
               | inr e => inr e
               | inl rest => inl (uint32 (b + money) :: rest)
               end
      end
  | _, _ => inl []
  end.

(** The accounts after a writing loop: keys of other shards are skipped. *)
Fixpoint apply_writes (f : string → Z * Z) (keys : list string) (bals : list Z) : string → Z * Z :=
  match keys, bals with
  | key :: keys', b :: bals' =>
      apply_writes (λ k, if decide (k = key ∧ member r key = true) then (b, FreeIdentifier) else f k)
        keys' bals'
  | _, _ => f
  end.

(** The plan of a transfer: the new balances, or the error. *)
Definition transfer_plan (app : Application) (tx : TransferTx) (vw : string → (Z * Z) + bank_error)
    : (list Z * list Z) + bank_error :=
  if negb (StrIn (chain_id app) (Shards tx)) then inr ErrNotIncluded
  else match ValidateTransferTx tx with
       | Some e => inr e
       | None =>
           match from_spec vw (From tx) (FromMoney tx) with
           | inr e => inr e
           | inl fb => match to_spec vw (To tx) (ToMoney tx) with
                       | inr e => inr e
                       | inl tb => inl (fb, tb)
                       end
           end
       end.

Lemma from_spec_ext vw vw' keys moneys : (∀ k, vw k = vw' k) →
  from_spec vw keys moneys = from_spec vw' keys moneys.
Proof.
  intros Hv. revert moneys; induction keys as [|k keys IH]; intros [|m moneys]; try done.
  simpl. by rewrite Hv, IH.
Qed.
Lemma to_spec_ext vw vw' keys moneys : (∀ k, vw k = vw' k) →
  to_spec vw keys moneys = to_spec vw' keys moneys.
Proof.
  intros Hv. revert moneys; induction keys as [|k keys IH]; intros [|m moneys]; try done.
  simpl. by rewrite Hv, IH.
Qed.
Lemma apply_writes_ext keys : ∀ f g bals, (∀ k, f k = g k) →
  ∀ k, apply_writes f keys bals k = apply_writes g keys bals k.
Proof.
  induction keys as [|x keys IH]; intros f g [|b bals] Hfg k; simpl; try apply Hfg.
  apply IH. intros y. by rewrite Hfg.
Qed.

Lemma read_from_spec keys : ∀ moneys st, length keys = length moneys → bank_wf (bstore st) →
  ∃ st', read_from (Some r) keys moneys st = Ret (st', from_spec (view st) keys moneys) ∧
    bank_wf (bstore st') ∧ bretain st' = bretain st ∧ same_bank (bstore st) (bstore st').
Proof using Hr.
  induction keys as [|key keys IH]; intros [|money moneys] st Hl Hwf; try done; [by exists st|].
  cbn [read_from from_spec]. unfold bbind at 1.
  destruct (AppDB_Get_view st key Hwf) as (st1 & -> & Hwf1 & Hr1 & Hs1).
  destruct (view st key) as [[b lk]|e]; [|by exists st1].
  destruct (negb (isFree lk)); [by exists st1|]. destruct (b <? money); [by exists st1|].
  unfold bbind. destruct (IH moneys st1 ltac:(by injection Hl) Hwf1) as (st2 & -> & Hwf2 & Hr2 & Hs2).
  rewrite (from_spec_ext (view st1) (view st)) by (intros; by apply view_same).
  exists st2. split; [by destruct (from_spec _ _ _)|]. split; [done|]. split; [congruence|]. by etrans.
Qed.

Lemma read_to_spec keys : ∀ moneys st, length keys = length moneys → bank_wf (bstore st) →
  ∃ st', read_to (Some r) keys moneys st = Ret (st', to_spec (view st) keys moneys) ∧
    bank_wf (bstore st') ∧ bretain st' = bretain st ∧ same_bank (bstore st) (bstore st').
Proof using Hr.
  induction keys as [|key keys IH]; intros [|money moneys] st Hl Hwf; try done; [by exists st|].
  cbn [read_to to_spec]. unfold bbind at 1.
  destruct (AppDB_Get_view st key Hwf) as (st1 & -> & Hwf1 & Hr1 & Hs1).
  destruct (view st key) as [[b lk]|e]; [|by exists st1].
  destruct (negb (isFree lk)); [by exists st1|].
  unfold bbind. destruct (IH moneys st1 ltac:(by injection Hl) Hwf1) as (st2 & -> & Hwf2 & Hr2 & Hs2).
  rewrite (to_spec_ext (view st1) (view st)) by (intros; by apply view_same).
  exists st2. split; [by destruct (to_spec _ _ _)|]. split; [done|]. split; [congruence|]. by etrans.
Qed.

Lemma write_all_spec keys : ∀ bals st, length keys = length bals → bank_wf (bstore st) →
  Forall (λ b, 0 ≤ b < 2 ^ 32) bals →
  ∃ st', write_all (Some r) keys bals st = Ret (st', inl tt) ∧
    bank_wf (bstore st') ∧ bretain st' = bretain st ∧
    (∀ k, account (bstore st') k = apply_writes (account (bstore st)) keys bals k) ∧
    (∀ x, PrefixStore.specials (bstore st') x = PrefixStore.specials (bstore st) x).
Proof using Hr.
  induction keys as [|key keys IH]; intros [|b bals] st Hl Hwf Hb; try done; [by exists st|].
  apply Forall_cons_1 in Hb as [Hb Hbs]. cbn [write_all apply_writes]. unfold bbind.
  assert (∃ st1, AppDB_Set (Some r) key b FreeIdentifier st = Ret (st1, inl tt) ∧ bank_wf (bstore st1) ∧
    bretain st1 = bretain st ∧
    (∀ k, account (bstore st1) k = if decide (k = key ∧ member r key = true) then (b, FreeIdentifier)
                                   else account (bstore st) k) ∧
    (∀ x, PrefixStore.specials (bstore st1) x = PrefixStore.specials (bstore st) x))
    as (st1 & -> & Hwf1 & Hr1 & Ha1 & Hx1).
  { destruct (member r key) eqn:Hin.
    - destruct (AppDB_Set_in st key b FreeIdentifier Hin Hb Hwf) as (st1 & E & ? & ? & Ha & ?).
      exists st1. split_and!; try done. intros k. rewrite Ha.
      destruct (decide (k = key)), (decide (k = key ∧ true = true)); naive_solver.
    - exists st. rewrite AppDB_Set_out by done. split_and!; try done. intros k.
      rewrite decide_False; [done|]. by intros [_ ?]. }
  destruct (IH bals st1 ltac:(by injection Hl) Hwf1 Hbs) as (st2 & -> & Hwf2 & Hr2 & Ha2 & Hx2).
  exists st2. split; [done|]. split; [done|]. split; [congruence|]. split; [|congruence].
  intros k. rewrite Ha2. by apply apply_writes_ext.
Qed.

Lemma from_spec_ok vw keys : ∀ moneys fb, length keys = length moneys →
  from_spec vw keys moneys = inl fb → length fb = length keys ∧ Forall (λ b, 0 ≤ b < 2 ^ 32) fb ∧
  ∀ i k m, keys !! i = Some k → moneys !! i = Some m →
    ∃ b, vw k = inl (b, FreeIdentifier) ∧ m ≤ b ∧ fb !! i = Some (uint32 (b - m)).
Proof.
  induction keys as [|key keys IH]; intros [|money moneys] fb Hl E; try done; simpl in E; [by simplify_eq|].
  destruct (vw key) as [[b lk]|e] eqn:Ev; [|done]. destruct (isFree lk) eqn:Ef; [|done]. simpl in E.
  destruct (Z.ltb_spec b money); [done|]. destruct (from_spec vw keys moneys) as [rest|] eqn:Er; [|done].
  injection E as <-. destruct (IH moneys rest ltac:(by injection Hl) Er) as (H1 & H2 & H3).
  split; [by simpl; rewrite H1|]. split; [constructor; [apply wrapU_range; lia|done]|].
  intros [|i] k m Hk Hm; simplify_eq/=; [|by apply H3].
  exists b. apply Z.eqb_eq in Ef as ->. done.
Qed.

Lemma to_spec_ok vw keys : ∀ moneys tb, length keys = length moneys →
  to_spec vw keys moneys = inl tb → length tb = length keys ∧ Forall (λ b, 0 ≤ b < 2 ^ 32) tb ∧
  ∀ i k m, keys !! i = Some k → moneys !! i = Some m →
    ∃ b, vw k = inl (b, FreeIdentifier) ∧ tb !! i = Some (uint32 (b + m)).
Proof.
  induction keys as [|key keys IH]; intros [|money moneys] tb Hl E; try done; simpl in E; [by simplify_eq|].
  destruct (vw key) as [[b lk]|e] eqn:Ev; [|done]. destruct (isFree lk) eqn:Ef; [|done]. simpl in E.
  destruct (to_spec vw keys moneys) as [rest|] eqn:Er; [|done].
  injection E as <-. destruct (IH moneys rest ltac:(by injection Hl) Er) as (H1 & H2 & H3).
  split; [by simpl; rewrite H1|]. split; [constructor; [apply wrapU_range; lia|done]|].
  intros [|i] k m Hk Hm; simplify_eq/=; [|by apply H3].
  exists b. apply Z.eqb_eq in Ef as ->. done.
Qed.

Lemma Validate_lengths tx : ValidateTransferTx tx = None →
  length (From tx) = length (FromMoney tx) ∧ length (To tx) = length (ToMoney tx) ∧
  sum_uint32 (FromMoney tx) = sum_uint32 (ToMoney tx).
Proof.
  unfold ValidateTransferTx. case_match eqn:E1; [done|]. case_match; [done|].
  case_match eqn:E3; [done|]. intros _. bool_to_prop. unfold zlen in *. split_and!; [lia|lia|done].
Qed.

(** [doTransfer] runs without a panic from any well-formed store and does
    exactly what the plan says: the planned error and no change to any
    account, or the planned writes. *)
Lemma doTransfer_spec app tx st : own_range app = Some r → bank_wf (bstore st) →
  ∃ st' res, doTransfer app tx st = Ret (st', res) ∧ bank_wf (bstore st') ∧
    bretain st' = bretain st ∧
    (∀ x, PrefixStore.specials (bstore st') x = PrefixStore.specials (bstore st) x) ∧
    match transfer_plan app tx (view st) with
    | inr e => res = inr e ∧ ∀ k, account (bstore st') k = account (bstore st) k
    | inl (fb, tb) => res = inl tt ∧ ∀ k, account (bstore st') k =
        apply_writes (apply_writes (account (bstore st)) (From tx) fb) (To tx) tb k
    end.
Proof using Hr.
  intros Ho Hwf. unfold doTransfer, transfer_plan. rewrite Ho.
  destruct (StrIn (chain_id app) (Shards tx)); cbn [negb]; cbv iota; [|by eexists st, _].
  unfold bcheck. destruct (ValidateTransferTx tx) as [e|] eqn:Ev.
  { eexists st, _. by erewrite bbind_inr. }
  destruct (Validate_lengths tx Ev) as (Hlf & Hlt & _). rewrite (bbind_inl _ _ st st tt) by done.
  destruct (read_from_spec (From tx) (FromMoney tx) st Hlf Hwf) as (st1 & E1 & Hwf1 & Hr1 & Hs1).
  destruct (from_spec (view st) (From tx) (FromMoney tx)) as [fb|e] eqn:Ef.
  2:{ exists st1, (inr e). rewrite (bbind_inr _ _ _ _ _ E1). split_and!; try done; apply Hs1. }
  rewrite (bbind_inl _ _ _ _ _ E1).
  destruct (read_to_spec (To tx) (ToMoney tx) st1 Hlt Hwf1) as (st2 & E2 & Hwf2 & Hr2 & Hs2).
  rewrite (to_spec_ext (view st1) (view st)) in E2 by (intros; by apply view_same).
  assert (same_bank (bstore st) (bstore st2)) as Hs by by etrans.
  destruct (to_spec (view st) (To tx) (ToMoney tx)) as [tb|e] eqn:Et.
  2:{ exists st2, (inr e). rewrite (bbind_inr _ _ _ _ _ E2). split_and!; try done; [congruence|apply Hs..]. }
  rewrite (bbind_inl _ _ _ _ _ E2).
  destruct (from_spec_ok _ _ _ _ Hlf Ef) as (Hlfb & Hfb & _).
  destruct (to_spec_ok _ _ _ _ Hlt Et) as (Hltb & Htb & _).
  destruct (write_all_spec (From tx) fb st2 (eq_sym Hlfb) Hwf2 Hfb) as (st3 & E3 & Hwf3 & Hr3 & Ha3 & Hx3).
  rewrite (bbind_inl _ _ _ _ _ E3).
  destruct (write_all_spec (To tx) tb st3 (eq_sym Hltb) Hwf3 Htb) as (st4 & -> & Hwf4 & Hr4 & Ha4 & Hx4).
  exists st4, (inl tt). split; [done|]. split; [done|]. split; [congruence|]. split.
  { intros x. rewrite Hx4, Hx3. apply Hs. }
  split; [done|]. intros k. rewrite Ha4. apply apply_writes_ext. intros k'. rewrite Ha3.
  apply apply_writes_ext. intros k''. apply Hs.
Qed.

(** *** Money is conserved *)

Lemma apply_writes_notin keys : ∀ f bals k, k ∉ keys → apply_writes f keys bals k = f k.
Proof.
  induction keys as [|key keys IH]; intros f [|b bals] k Hk; try done. simpl.
  apply not_elem_of_cons in Hk as [Hne Hk]. rewrite IH by done.
  rewrite decide_False; [done|]. naive_solver.
Qed.

Lemma apply_writes_in keys : ∀ f bals i k b, NoDup keys → member r k = true →
  keys !! i = Some k → bals !! i = Some b → apply_writes f keys bals k = (b, FreeIdentifier).
Proof.
  induction keys as [|key keys IH]; intros f [|b0 bals] [|i] k b Hnd Hin Hk Hb; try done; simplify_eq/=;
    apply list.NoDup_cons in Hnd as [Hn Hnd].
  - rewrite apply_writes_notin by done. by rewrite decide_True.
  - by apply (IH _ bals i).
Qed.

Lemma map_writes keys bals f : NoDup keys → length keys = length bals →
  Forall (λ k, member r k = true) keys → map (λ k, fst (apply_writes f keys bals k)) keys = bals.
Proof.
  intros Hnd Hl Hin. apply list_eq. intros i. rewrite list_lookup_fmap.
  destruct (keys !! i) as [k|] eqn:Ek; simpl.
  - destruct (lookup_lt_is_Some_2 bals i) as [b Eb]; [rewrite <- Hl; by eapply lookup_lt_Some|].
    rewrite (apply_writes_in keys f bals i k b); [by rewrite Eb|done| |done|done].
    exact (Forall_lookup_1 _ _ _ _ Hin Ek).
  - symmetry. apply lookup_ge_None. rewrite <- Hl. by apply lookup_ge_None.
Qed.

Lemma account_range p key : bank_wf p → 0 ≤ balance p key < 2 ^ 32.
Proof.
  intros Hwf. unfold balance, account. destruct (PrefixStore.datas p (str_bytes key)) as [bz|] eqn:E.
  - destruct (Hwf _ _ E) as [->|(m & lk & -> & Hm)]; [unfold initBalance; simpl; lia|].
    pose proof (MarshalValue_take m lk Hm) as Hv. unfold MarshalValue in *. rewrite Hv. done.
  - unfold initBalance. simpl. lia.
Qed.

Lemma from_sum p vw keys : (∀ k, k ∈ keys → vw k = inl (account p k)) → bank_wf p →
  ∀ moneys fb, length keys = length moneys → Forall (λ m, 0 ≤ m) moneys →
  from_spec vw keys moneys = inl fb → zsum fb = zsum (map (balance p) keys) - zsum moneys.
Proof.
  intros Hvw Hwf. induction keys as [|key keys IH]; intros [|money moneys] fb Hl Hm E; try done;
    simpl in E; [by simplify_eq|].
  rewrite Hvw in E by set_solver. destruct (account p key) as [b lk] eqn:Ea.
  destruct (isFree lk); [|done]. simpl in E. destruct (Z.ltb_spec b money); [done|].
  destruct (from_spec vw keys moneys) as [rest|] eqn:Er; [|done]. injection E as <-.
  apply Forall_cons_1 in Hm as [Hm0 Hm]. cbn [zsum foldr map].
  change (foldr Z.add 0) with zsum.
  rewrite (IH ltac:(intros; apply Hvw; set_solver) moneys rest ltac:(by injection Hl) Hm Er).
  pose proof (account_range p key Hwf) as Hb. unfold balance in *. rewrite Ea in *. simpl in *.
  rewrite wrapU_small by lia. lia.
Qed.

Lemma to_sum p vw keys : (∀ k, k ∈ keys → vw k = inl (account p k)) → bank_wf p →
  ∀ moneys tb, length keys = length moneys → Forall (λ m, 0 ≤ m) moneys →
  (∀ i k m, keys !! i = Some k → moneys !! i = Some m → balance p k + m < 2 ^ 32) →
  to_spec vw keys moneys = inl tb → zsum tb = zsum (map (balance p) keys) + zsum moneys.
Proof.
  intros Hvw Hwf. induction keys as [|key keys IH]; intros [|money moneys] tb Hl Hm Ho E; try done;
    simpl in E; [by simplify_eq|].
  rewrite Hvw in E by set_solver. destruct (account p key) as [b lk] eqn:Ea.
  destruct (isFree lk); [|done]. simpl in E.
  destruct (to_spec vw keys moneys) as [rest|] eqn:Er; [|done]. injection E as <-.
  apply Forall_cons_1 in Hm as [Hm0 Hm]. cbn [zsum foldr map].
  change (foldr Z.add 0) with zsum.
  rewrite (IH ltac:(intros; apply Hvw; set_solver) moneys rest ltac:(by injection Hl) Hm
    (λ i k m Hk Hm, Ho (Datatypes.S i) k m Hk Hm) Er).
  pose proof (account_range p key Hwf) as Hb. specialize (Ho 0%nat key money eq_refl eq_refl).
  unfold balance in *. rewrite Ea in *. simpl in *. rewrite wrapU_small by lia. lia.
Qed.

Lemma sum_uint32_small l : Forall (λ m, 0 ≤ m) l → zsum l < 2 ^ 32 → sum_uint32 l = zsum l.
Proof.
  intros Hl Hs. unfold sum_uint32. enough (∀ acc, 0 ≤ acc → acc + zsum l < 2 ^ 32 →
    foldl (λ acc money, uint32 (acc + money)) acc l = acc + zsum l) as He by (rewrite He; lia).
  clear Hs. induction Hl as [|m l Hm Hl IH]; intros acc Ha Hs; simpl in *; [lia|].
  pose proof (zsum_nonneg l Hl). rewrite wrapU_small by lia. rewrite IH by lia. lia.
Qed.

(** The transfers that conserve money: every account is listed once and is
    local, and no sum overflows 32 bits. *)
Record clean_transfer (tx : TransferTx) p : Prop := {
  ct_local : Forall (λ k, member r k = true) (From tx ++ To tx);
  ct_nodup : NoDup (From tx ++ To tx);
  ct_nonneg : Forall (λ m, 0 ≤ m) (FromMoney tx ++ ToMoney tx);
  ct_from : zsum (FromMoney tx) < 2 ^ 32;
  ct_to : zsum (ToMoney tx) < 2 ^ 32;
  ct_over : ∀ i k m, To tx !! i = Some k → ToMoney tx !! i = Some m → balance p k + m < 2 ^ 32
}.

Lemma doTransfer_conserves_lemma app tx st st' :
  own_range app = Some r → bank_wf (bstore st) → clean_transfer tx (bstore st) →
  doTransfer app tx st = Ret (st', inl tt) →
  zsum (map (balance (bstore st')) (From tx ++ To tx)) =
    zsum (map (balance (bstore st)) (From tx ++ To tx)) ∧
  (∀ k, k ∉ From tx ++ To tx → account (bstore st') k = account (bstore st) k) ∧
  (∀ i k m, From tx !! i = Some k → FromMoney tx !! i = Some m →
     locked (bstore st) k = FreeIdentifier ∧ account (bstore st') k = (balance (bstore st) k - m, FreeIdentifier) ∧
     m ≤ balance (bstore st) k) ∧
  (∀ i k m, To tx !! i = Some k → ToMoney tx !! i = Some m →
     locked (bstore st) k = FreeIdentifier ∧ account (bstore st') k = (balance (bstore st) k + m, FreeIdentifier)).
Proof using Hr.
  intros Ho Hwf [Hloc Hnd Hnn Hf Ht Hov] E.
  destruct (doTransfer_spec app tx st Ho Hwf) as (st2 & res & E2 & Hwf2 & _ & _ & Hp).
  rewrite E in E2. injection E2 as <- <-.
  unfold transfer_plan in Hp. destruct (StrIn _ _); [|by destruct Hp]. simpl negb in Hp. cbv iota in Hp.
  destruct (ValidateTransferTx tx) eqn:Ev; [by destruct Hp|].
  destruct (Validate_lengths tx Ev) as (Hlf & Hlt & Hsum).
  destruct (from_spec _ _ _) as [fb|] eqn:Ef; [|by destruct Hp].
  destruct (to_spec _ _ _) as [tb|] eqn:Et; [|by destruct Hp]. destruct Hp as [_ Hacc].
  apply Forall_app in Hloc as [HlF HlT]. apply Forall_app in Hnn as [HnF HnT].
  apply list.NoDup_app in Hnd as (HdF & Hdis & HdT).
  destruct (from_spec_ok _ _ _ _ Hlf Ef) as (Hlfb & Hrfb & Hofb).
  destruct (to_spec_ok _ _ _ _ Hlt Et) as (Hltb & Hrtb & Hotb).
  assert (∀ k l, Forall (λ k, member r k = true) l → k ∈ l → view st k = inl (account (bstore st) k)) as Hview.
  { intros k l Hl Hk. unfold view. apply list_elem_of_lookup in Hk as [i Hi].
    by rewrite (Forall_lookup_1 _ _ _ _ Hl Hi : member r k = true). }
  assert (∀ k, k ∈ From tx → account (bstore st') k = apply_writes (account (bstore st)) (From tx) fb k) as HaF.
  { intros k Hk. rewrite Hacc. apply apply_writes_notin. by apply Hdis. }
  assert (map (balance (bstore st')) (From tx) = fb) as EF.
  { etrans; [|exact (map_writes (From tx) fb (account (bstore st)) HdF (eq_sym Hlfb) HlF)].
    apply map_ext_in. intros k Hk%list_elem_of_In. unfold balance. by rewrite HaF. }
  assert (map (balance (bstore st')) (To tx) = tb) as ET.
  { etrans; [|exact (map_writes (To tx) tb (apply_writes (account (bstore st)) (From tx) fb)
      HdT (eq_sym Hltb) HlT)].
    apply map_ext_in. intros k _. unfold balance. by rewrite Hacc. }
  split; [|split; [|split]].
  - rewrite !map_app, !zsum_app, EF, ET.
    rewrite (from_sum (bstore st) (view st) (From tx) (λ k, Hview k _ HlF) Hwf _ _ Hlf HnF Ef).
    rewrite (to_sum (bstore st) (view st) (To tx) (λ k, Hview k _ HlT) Hwf _ _ Hlt HnT Hov Et).
    rewrite !sum_uint32_small in Hsum by done. lia.
  - intros k [HkF HkT]%not_elem_of_app. rewrite Hacc. by rewrite !apply_writes_notin.
  - intros i k m Hk Hm. destruct (Hofb i k m Hk Hm) as (b & Hv & Hle & Hfb).
    rewrite (Hview k _ HlF) in Hv by (by eapply list_elem_of_lookup_2). injection Hv as Ha.
    unfold locked, balance. rewrite Ha. simpl. split; [done|]. split; [|done].
    rewrite HaF by (by eapply list_elem_of_lookup_2).
    rewrite (apply_writes_in _ _ _ i k _ HdF (Forall_lookup_1 _ _ _ _ HlF Hk) Hk Hfb). f_equal.
    pose proof (account_range (bstore st) k Hwf) as Hb. unfold balance in Hb. rewrite Ha in Hb. simpl in Hb.
    pose proof (Forall_lookup_1 _ _ _ _ HnF Hm). simpl in *. apply wrapU_small. lia.
  - intros i k m Hk Hm. destruct (Hotb i k m Hk Hm) as (b & Hv & Htb).
    rewrite (Hview k _ HlT) in Hv by (by eapply list_elem_of_lookup_2). injection Hv as Ha.
    unfold locked. rewrite Ha. split; [done|]. rewrite Hacc.
    rewrite (apply_writes_in _ _ _ i k _ HdT (Forall_lookup_1 _ _ _ _ HlT Hk) Hk Htb). f_equal.
    specialize (Hov i k m Hk Hm). unfold balance in *. rewrite Ha in *. simpl in *.
    pose proof (account_range (bstore st) k Hwf) as Hb. unfold balance in Hb. rewrite Ha in Hb. simpl in Hb.
    pose proof (Forall_lookup_1 _ _ _ _ HnT Hm). simpl in *. apply wrapU_small. lia.
Qed.
End Range.
End Bank.
