(* ===== verification/BankTheorems.v ===== *)
(** * The bank application: theorems

    The properties of the bank, with concrete runs.  [BankProofs] holds the
    account database's lemmas. *)

From Stdlib Require Import ZArith Lia.
From stdpp Require Import base list gmap strings numbers countable.
From S2P Require Import Prelude Convert Hash Signer RangeList Store Receipt Bank BankProofs.

Section Theorems.
Context {S : Type} {KV : KVStore S}.
Implicit Types (st : bst S) (p : S).

(** C2. A transfer runs without a panic on any well-formed store and refines the
    plan computed from the values it sees: the planned error with every
    account unchanged, or success with exactly the planned balances written,
    free, to the local accounts; special entries are never touched. *)
Theorem doTransfer_refines_plan (r : RangeList) (app : Application) (tx : TransferTx) (st : bst S)
    (Hr : rl_wf r) (Ho : own_range app = Some r) (Hwf : bank_wf (bstore st)) :
  ∃ st' res, doTransfer app tx st = Ret (st', res) ∧ bank_wf (bstore st') ∧
    bretain st' = bretain st ∧
    (∀ x, PrefixStore.specials (bstore st') x = PrefixStore.specials (bstore st) x) ∧
    match transfer_plan app tx (view r st) with
    | inr e => res = inr e ∧ ∀ k, account (bstore st') k = account (bstore st) k
    | inl (fb, tb) => res = inl tt ∧ ∀ k, account (bstore st') k =
        apply_writes r (apply_writes r (account (bstore st)) (From tx) fb) (To tx) tb k
    end.
Proof. by apply doTransfer_spec. Qed.

(** C1. A successful transfer between distinct local accounts whose sums do not
    overflow 32 bits conserves money: the total over the accounts involved is
    unchanged, each account is debited or credited with exactly its amount,
    never below zero, and no other account changes. *)
Theorem doTransfer_conserves (r : RangeList) (app : Application) (tx : TransferTx) (st st' : bst S)
    (Hr : rl_wf r) (Ho : own_range app = Some r) (Hwf : bank_wf (bstore st))
    (Hc : clean_transfer r tx (bstore st)) (Hok : doTransfer app tx st = Ret (st', inl tt)) :
  zsum (map (balance (bstore st')) (From tx ++ To tx)) =
    zsum (map (balance (bstore st)) (From tx ++ To tx)) ∧
  (∀ k, k ∉ From tx ++ To tx → account (bstore st') k = account (bstore st) k) ∧
  (∀ i k m, From tx !! i = Some k → FromMoney tx !! i = Some m →
     locked (bstore st) k = FreeIdentifier ∧ m ≤ balance (bstore st) k ∧
     account (bstore st') k = (balance (bstore st) k - m, FreeIdentifier)) ∧
  (∀ i k m, To tx !! i = Some k → ToMoney tx !! i = Some m →
     locked (bstore st) k = FreeIdentifier ∧
     account (bstore st') k = (balance (bstore st) k + m, FreeIdentifier)).
Proof.
  destruct (doTransfer_conserves_lemma r Hr app tx st st' Ho Hwf Hc Hok) as (H1 & H2 & H3 & H4).
  split; [done|]. split; [done|]. split; [|done]. intros i k m Hk Hm.
  destruct (H3 i k m Hk Hm) as (? & ? & ?). done.
Qed.

(** ** Executing transactions *)

Lemma BytesToUint32_take l : 4 ≤ zlen l → ∃ z, BytesToUint32 (take 4 l) = Ret z.
Proof.
  intros Hl. unfold zlen in Hl. destruct l as [|a [|b [|c [|d l]]]]; simpl in Hl; try lia.
  unfold BytesToUint32, le_uint. simpl. eauto.
Qed.

Section Execute.
Context {C : BankCodec} {H : HashFn}.

Lemma execute_spec r app txBytes st : rl_wf r → own_range app = Some r → bank_wf (bstore st) →
  ∃ st' res, execute app txBytes st = Ret (st', res) ∧ bank_wf (bstore st') ∧
    bretain st' = bretain st ∧
    (∀ x, PrefixStore.specials (bstore st') x = PrefixStore.specials (bstore st) x) ∧
    (res ≠ inl tt → ∀ k, account (bstore st') k = account (bstore st) k).
Proof.
  intros Hr Ho Hwf. unfold execute. destruct (Z.ltb_spec (zlen txBytes) 4) as [|Hl]; [by exists st, (inr ErrTxLength)|].
  destruct (BytesToUint32_take txBytes Hl) as [ty Ety].
  rewrite (bbind_inl _ _ st st ty) by (unfold blift; by rewrite Ety).
  destruct (ty =? TxTransfer); [|by exists st, (inr ErrTxType)].
  unfold NewTransferTxFromBytes. rewrite slice_from_in_range by lia. cbn [mbind outcome_bind].
  destruct (unmarshal _) as [tx|].
  2:{ exists st, (inr ErrUnmarshal). by rewrite (bbind_inl _ _ st st (inr ErrUnmarshal)). }
  rewrite (bbind_inl _ _ st st (inl tx)), (bbind_inl _ _ st st tx) by done.
  destruct (Shards tx) as [|shard [|]]; [by exists st, (inr ErrInvalidShards)| |by exists st, (inr ErrInvalidShards)].
  destruct (bool_decide (shard ≠ chain_id app)); [by exists st, (inr ErrNotThisShard)|].
  destruct (doTransfer_spec r Hr app tx st Ho Hwf) as (st' & res & E & Hwf' & Hre & Hx & Hp).
  exists st', res. split; [done|]. split; [done|]. split; [done|]. split; [done|]. intros Hne k.
  destruct (transfer_plan _ _ _) as [[fb tb]|e]; destruct Hp as [-> Hp]; [done|apply Hp].
Qed.

(** A transaction succeeds exactly when it is a transfer of this shard alone
    that goes through. *)
Definition succeeds (app : Application) (txBytes : bytes) (st st' : bst S) : Prop :=
  ∃ tx, BytesToUint32 (take 4 txBytes) = Ret TxTransfer ∧ NewTransferTxFromBytes txBytes = Ret (inl tx) ∧
    Shards tx = [chain_id app] ∧ doTransfer app tx st = Ret (st', inl tt).
Lemma execute_succeeds app txBytes st st' res : execute app txBytes st = Ret (st', res) →
  res = inl tt ↔ succeeds app txBytes st st'.
Proof.
  unfold execute. destruct (Z.ltb_spec (zlen txBytes) 4) as [Hs|Hl].
  { intros [= <- <-]. split; [done|]. intros (tx & _ & Hn & _). unfold NewTransferTxFromBytes, slice_from in Hn.
    destruct (Z.ltb_spec (zlen txBytes) 4); [by rewrite orb_true_r in Hn|lia]. }
  destruct (BytesToUint32_take txBytes Hl) as [ty Ety]. unfold succeeds. rewrite Ety.
  rewrite (bbind_inl _ _ st st ty) by done.
  destruct (Z.eqb_spec ty TxTransfer) as [->|Hty]; [|intros [= <- <-]; split; [done|]; intros (tx & [=] & _); done].
  unfold blift at 1. destruct (NewTransferTxFromBytes txBytes) as [[tx|e]|] eqn:En; [| |done].
  - rewrite (bbind_inl _ _ st st (inl tx)), (bbind_inl _ _ st st tx) by done. intros E.
    assert (∀ e, Ret (st, inr e) = Ret (st', res) → Shards tx ≠ [chain_id app] → res = inl tt ↔
      ∃ tx0, Ret TxTransfer = Ret TxTransfer ∧ Ret (inl tx) = Ret (inl tx0 : TransferTx + bank_error) ∧
        Shards tx0 = [chain_id app] ∧ doTransfer app tx0 st = Ret (st', inl tt)) as Hbad.
    { intros e [= <- <-] Hne. split; [done|]. intros (tx0 & _ & [= <-] & Hsh & _). done. }
    destruct (Shards tx) as [|shard [|]] eqn:Esh; [by eapply Hbad| |by eapply Hbad].
    destruct (bool_decide_reflect (shard ≠ chain_id app)) as [Hne|Heq]; [eapply Hbad; [done|congruence]|].
    apply dec_stable in Heq as ->. split.
    + intros ->. by exists tx.
    + intros (tx0 & _ & [= <-] & _ & Ed). rewrite Ed in E. by injection E.
  - rewrite (bbind_inl _ _ st st (inr e)) by done. intros [= <- <-]. split; [done|]. by intros (tx & _ & [=] & _).
Qed.

(** What the receipt of a transaction says of its execution. *)
Record receipt_ok (err_text : bank_error → string) (app : Application) (tx : bytes) (s s' : bst S)
    (rc : ABCIExecutionReceipt) : Prop := {
  ro_wf : bank_wf (bstore s');
  ro_raw : wf_bytes tx → GetRawTx rc = tx;
  ro_ok : rCode rc = RCodeTypeOK ↔ succeeds app tx s s';
  ro_abort : rCode rc ≠ RCodeTypeOK → ∃ e, execute app tx s = Ret (s', inr e) ∧ rCode rc = RCodeTypeAbort ∧ rInfo rc = err_text e ∧
    ∀ k, account (bstore s') k = account (bstore s) k
}.
Lemma execute_receipt err_text r app tx s : rl_wf r → own_range app = Some r → bank_wf (bstore s) →
  ∃ s' res, execute app tx s = Ret (s', res) ∧ receipt_ok err_text app tx s s' (receipt_of err_text tx res).
Proof.
  intros Hr Ho Hwf. destruct (execute_spec r app tx s Hr Ho Hwf) as (s' & res & E & Hwf' & _ & _ & Ha).
  exists s', res. split; [done|]. pose proof (execute_succeeds _ _ _ _ _ E) as Hs. constructor; [done| | |].
  - intros Hb. by apply SetRawTx_GetRawTx.
  - rewrite <- Hs. destruct res as [[]|e]; cbn; done.
  - destruct res as [[]|e]; cbn; [done|]. intros _. exists e. split_and!; [done..|]. by apply Ha.
Qed.
(** The states between the transactions. *)
Lemma exec_txs_spec err_text r app txs : ∀ st, rl_wf r → own_range app = Some r → bank_wf (bstore st) →
  ∃ st' receipts (states : list (bst S)), exec_txs err_text app txs st = Ret (st', inl receipts) ∧
    length receipts = length txs ∧ states !! 0%nat = Some st ∧ states !! length txs = Some st' ∧
    ∀ i tx, txs !! i = Some tx → ∃ rc s s', receipts !! i = Some rc ∧ states !! i = Some s ∧
      states !! Datatypes.S i = Some s' ∧ receipt_ok err_text app tx s s' rc.
Proof.
  induction txs as [|tx txs IH]; intros st Hr Ho Hwf; [by exists st, [], [st]|]. cbn [exec_txs].
  destruct (execute_receipt err_text r app tx st Hr Ho Hwf) as (st1 & res & E & Hrc).
  rewrite (bbind_inl _ _ _ _ _ (btry_eq _ _ _ _ E)).
  destruct (IH st1 Hr Ho (ro_wf _ _ _ _ _ _ Hrc)) as (st2 & rest & states & E2 & Hl & H0 & Hlast & Hall).
  rewrite (bbind_inl _ _ _ _ _ E2). eexists st2, _, (st :: states). split; [done|].
  split_and!; [by cbn; rewrite Hl|done|done|]. intros [|i] tx' Hi; [|by apply Hall]. simplify_eq/=.
  by eexists _, st, st1.
Qed.

(** C39. Executing the local transactions of a block never panics, whatever the
    bytes of the transactions.  The transactions run one after the other, each
    in the state the one before it left; there is one receipt per transaction,
    in order, carrying the transaction.  Its code is OK exactly when the
    transaction is a transfer of this shard alone and the transfer goes
    through; otherwise the code is Abort, the receipt carries the error, and no
    account has changed. *)
Theorem exec_txs_total (err_text : bank_error → string) (r : RangeList) (app : Application)
    (txs : list bytes) (st : bst S)
    (Hr : rl_wf r) (Ho : own_range app = Some r) (Hwf : bank_wf (bstore st)) :
  ∃ st' receipts (states : list (bst S)), exec_txs err_text app txs st = Ret (st', inl receipts) ∧
    length receipts = length txs ∧ states !! 0%nat = Some st ∧ states !! length txs = Some st' ∧
    ∀ i tx, txs !! i = Some tx → ∃ rc s s',
      receipts !! i = Some rc ∧ states !! i = Some s ∧ states !! Datatypes.S i = Some s' ∧
      bank_wf (bstore s') ∧ (wf_bytes tx → GetRawTx rc = tx) ∧
      (rCode rc = RCodeTypeOK ↔ succeeds app tx s s') ∧
      (rCode rc ≠ RCodeTypeOK → ∃ e, execute app tx s = Ret (s', inr e) ∧ rCode rc = RCodeTypeAbort ∧
         rInfo rc = err_text e ∧ ∀ k, account (bstore s') k = account (bstore s) k).
Proof.
  destruct (exec_txs_spec err_text r app txs st Hr Ho Hwf) as (st' & rcs & states & E & Hl & H0 & Hlast & Hall).
  exists st', rcs, states. split_and!; [done..|]. intros i tx Hi.
  destruct (Hall i tx Hi) as (rc & s & s' & Hrc & Hs & Hs' & []). by exists rc, s, s'.
Qed.

(** A cross-shard transaction shorter than its type tag makes the
    application panic, wherever it stands first in the list. *)
Theorem preExecution_short_tx_panics (app : Application) (tx : bytes) (rest : list bytes) (st : bst S)
    (Hshort : zlen tx < 4) :
  preExecution app (tx :: rest) st = Panic.
Proof.
  unfold preExecution. cbn [pre_loop]. unfold bbind at 1, blift, NewTransferTxFromBytes, slice_from.
  destruct (Z.ltb_spec (zlen tx) 4); [|lia]. by rewrite orb_true_r.
Qed.

(** ** Locks *)

(** An account that has been written. *)
Definition exists_account p (key : string) : Prop :=
  ∃ bz, PrefixStore.datas p (str_bytes key) = Some bz ∧ bz ≠ [].

Lemma set_lock_spec idn key st : bank_wf (bstore st) →
  ∃ st' res, set_lock idn key st = Ret (st', res) ∧ bank_wf (bstore st') ∧ bretain st' = bretain st ∧
    (∀ x, PrefixStore.specials (bstore st') x = PrefixStore.specials (bstore st) x) ∧
    (∀ k, balance (bstore st') k = balance (bstore st) k) ∧
    (∀ k, k ≠ key → account (bstore st') k = account (bstore st) k) ∧
    (∀ k, exists_account (bstore st) k → exists_account (bstore st') k) ∧
    (exists_account (bstore st) key → res = inl tt) ∧
    (res = inl tt → locked (bstore st') key = idn) ∧ (res ≠ inl tt → st' = st).
Proof.
  intros Hwf. unfold set_lock.
  rewrite (bbind_inl _ _ st st (inl (PrefixStore.datas (bstore st) (str_bytes key))))
    by (unfold btry, db_Get; by rewrite PrefixStore.Get_eq).
  destruct (PrefixStore.datas (bstore st) (str_bytes key)) as [bz|] eqn:Ed; cbn [sbytes default id].
  2:{ exists st, (inr ErrKeyNotExist). split_and!; try done. intros (bz & E & _). congruence. }
  destruct (Hwf _ _ Ed) as [->|(money & lk & -> & Hm)].
  { exists st, (inr ErrKeyNotExist). split_and!; try done. intros (bz & E & ?). congruence. }
  change (zlen (MarshalValue money lk) =? 0) with false. cbv iota.
  erewrite bbind_inl by done.
  change (<[Z.to_nat 0:=idn]> (MarshalValue money lk)) with (MarshalValue money idn).
  unfold db_Set, put.
  destruct (PrefixStore.Set_eq (bstore st) (str_bytes key) (MarshalValue money idn)) as (p' & -> & Hd & _ & Hx).
  pose proof (account_after_set (bstore st) p' key money idn Hm Hd) as Ha.
  assert (account (bstore st) key = (money, lk)) as Ek.
  { unfold account. rewrite Ed. by apply (MarshalValue_take money lk). }
  eexists _, _. split; [done|]. cbn [bstore bretain fst snd]. split_and!; try done.
  - intros j bz. rewrite Hd. case_decide; [|apply Hwf]. intros [= <-]. right. eauto.
  - intros k. unfold balance. rewrite Ha. by destruct (decide (k = key)) as [->|]; rewrite ?Ek.
  - intros k Hne. rewrite Ha. by rewrite decide_False.
  - intros k (bz & Hk & Hn). unfold exists_account. rewrite Hd. case_decide; eauto.
  - intros _. unfold locked. rewrite Ha. by rewrite decide_True.
Qed.


Lemma lock_keys_spec r app keys : rl_wf r → own_range app = Some r → ∀ st, bank_wf (bstore st) →
  ∃ st', lock_keys app keys st = Ret (st', inl tt) ∧ bank_wf (bstore st') ∧ bretain st' = bretain st ∧
    (∀ x, PrefixStore.specials (bstore st') x = PrefixStore.specials (bstore st) x) ∧
    (∀ k, balance (bstore st') k = balance (bstore st) k) ∧
    (∀ k, k ∉ keys → account (bstore st') k = account (bstore st) k) ∧
    (∀ k, k ∈ keys → member r k = true → exists_account (bstore st) k →
       locked (bstore st') k = WLockedIdentifier) ∧
    (∀ k, locked (bstore st) k = WLockedIdentifier → locked (bstore st') k = WLockedIdentifier).
Proof.
  intros Hr Ho. induction keys as [|key keys IH]; intros st Hwf; [exists st; split_and!; (done || set_solver)|].
  unfold lock_keys in *. cbn [bfor].
  assert (∃ st1, (inside <- blift (search_key_intra_shard app key);;
      (if negb inside then bret tt else _ <- btry (WLock key);; bret tt)) st = Ret (st1, inl tt) ∧
    bank_wf (bstore st1) ∧ bretain st1 = bretain st ∧
    (∀ x, PrefixStore.specials (bstore st1) x = PrefixStore.specials (bstore st) x) ∧
    (∀ k, balance (bstore st1) k = balance (bstore st) k) ∧
    (∀ k, k ≠ key → account (bstore st1) k = account (bstore st) k) ∧
    (∀ k, exists_account (bstore st) k → exists_account (bstore st1) k) ∧
    (member r key = true → exists_account (bstore st) key → locked (bstore st1) key = WLockedIdentifier) ∧
    (locked (bstore st) key = WLockedIdentifier → locked (bstore st1) key = WLockedIdentifier))
    as (st1 & E1 & Hwf1 & Hr1 & Hx1 & Hb1 & Ha1 & Hex1 & Hl1 & Hk1).
  { rewrite (bbind_inl _ _ st st (member r key))
      by (unfold blift, search_key_intra_shard; rewrite Ho; by rewrite rl_Search_member).
    destruct (member r key) eqn:Hin; cbn [negb]; cbv iota; [|by exists st].
    destruct (set_lock_spec WLockedIdentifier key st Hwf)
      as (st1 & res & E & Hwf1 & Hr1 & Hx1 & Hb1 & Ha1 & Hex1 & Hok & Hl & Hno).
    exists st1. rewrite (bbind_inl _ _ _ _ _ (btry_eq _ _ _ _ E)). split_and!; try done.
    - intros _ He. by apply Hl, Hok.
    - intros Hw. destruct res as [[]|e]; [by apply Hl|by rewrite Hno]. }
  rewrite (bbind_inl _ _ _ _ _ E1).
  destruct (IH st1 Hwf1) as (st2 & E2 & Hwf2 & Hr2 & Hx2 & Hb2 & Ha2 & Hl2 & Hk2).
  exists st2. split; [done|]. split; [done|]. split; [congruence|]. split; [congruence|].
  split; [congruence|]. split; [|split].
  - intros k [Hne Hni]%not_elem_of_cons. rewrite Ha2, Ha1; done.
  - intros k Hk Hin He. destruct (decide (k = key)) as [->|Hne].
    + apply Hk2, Hl1; done.
    + apply Hl2; [set_solver|done|by apply Hex1].
  - intros k Hw. apply Hk2. destruct (decide (k = key)) as [->|Hne]; [by apply Hk1|].
    unfold locked in *. by rewrite Ha1.
Qed.

Lemma from_spec_locked vw keys : ∀ moneys k b lk, length keys = length moneys → k ∈ keys →
  vw k = inl (b, lk) → lk ≠ FreeIdentifier → ∃ e, from_spec vw keys moneys = inr e.
Proof.
  induction keys as [|key keys IH]; intros [|m moneys] k b lk Hl Hk Hv Hn; try done; [set_solver|].
  cbn [from_spec]. destruct (decide (k = key)) as [->|Hne].
  - rewrite Hv. unfold isFree. rewrite (proj2 (Z.eqb_neq _ _) Hn). simpl. eauto.
  - destruct (IH moneys k b lk ltac:(by injection Hl) ltac:(set_solver) Hv Hn) as [e ->].
    destruct (vw key) as [[b' lk']|e']; [|eauto]. destruct (negb _); [eauto|].
    destruct (_ <? _); eauto.
Qed.

Lemma to_spec_locked vw keys : ∀ moneys k b lk, length keys = length moneys → k ∈ keys →
  vw k = inl (b, lk) → lk ≠ FreeIdentifier → ∃ e, to_spec vw keys moneys = inr e.
Proof.
  induction keys as [|key keys IH]; intros [|m moneys] k b lk Hl Hk Hv Hn; try done; [set_solver|].
  cbn [to_spec]. destruct (decide (k = key)) as [->|Hne].
  - rewrite Hv. unfold isFree. rewrite (proj2 (Z.eqb_neq _ _) Hn). simpl. eauto.
  - destruct (IH moneys k b lk ltac:(by injection Hl) ltac:(set_solver) Hv Hn) as [e ->].
    destruct (vw key) as [[b' lk']|e']; [|eauto]. destruct (negb _); eauto.
Qed.

(** A transfer that lists a locked local account is refused. *)
Lemma locked_refused r app tx st k : rl_wf r → own_range app = Some r → bank_wf (bstore st) →
  k ∈ From tx ++ To tx → member r k = true → locked (bstore st) k ≠ FreeIdentifier →
  ∃ st' e, doTransfer app tx st = Ret (st', inr e) ∧
    ∀ j, account (bstore st') j = account (bstore st) j.
Proof.
  intros Hr Ho Hwf Hk Hin Hlk.
  destruct (doTransfer_spec r Hr app tx st Ho Hwf) as (st' & res & E & _ & _ & _ & Hp).
  enough (∃ e, transfer_plan app tx (view r st) = inr e) as [e Ee].
  { rewrite Ee in Hp. destruct Hp as [-> Ha]. eauto. }
  unfold transfer_plan. destruct (StrIn _ _); cbn [negb]; cbv iota; [|eauto].
  destruct (ValidateTransferTx tx) eqn:Ev; [eauto|].
  destruct (Validate_lengths tx Ev) as (Hlf & Hlt & _).
  assert (view r st k = inl (balance (bstore st) k, locked (bstore st) k)) as Hv.
  { unfold view. rewrite Hin. unfold balance, locked. by destruct (account (bstore st) k). }
  apply elem_of_app in Hk as [Hk|Hk].
  - destruct (from_spec_locked _ _ _ _ _ _ Hlf Hk Hv Hlk) as [e ->]. eauto.
  - destruct (to_spec_locked _ _ _ _ _ _ Hlt Hk Hv Hlk) as [e ->].
    destruct (from_spec _ _ _); eauto.
Qed.

(** Locking a cross-shard transfer records it under its hash, so it is
    refused if it comes again, changes no balance, and write-locks every
    local account it lists that exists: until it is unlocked, every transfer
    that lists such an account is refused and changes nothing. *)
Theorem lockTransfer_locks (r : RangeList) (app : Application) (tx : TransferTx) (raw : bytes)
    (st st' : bst S) (Hr : rl_wf r) (Ho : own_range app = Some r) (Hwf : bank_wf (bstore st))
    (Hok : lockTransfer app tx raw st = Ret (st', inl tt)) :
  bank_wf (bstore st') ∧ (∀ k, balance (bstore st') k = balance (bstore st) k) ∧
  is_Some (PrefixStore.specials (bstore st') (TxHash raw)) ∧
  (∀ wl rl, StrIn (chain_id app) (Shards tx) = true →
     pre_doTransfer app tx raw wl rl st' = Ret (st', inl (wl, inr ErrCommitted))) ∧
  (∀ k, k ∈ From tx ++ To tx → member r k = true → exists_account (bstore st) k →
     locked (bstore st') k = WLockedIdentifier ∧
     ∀ tx', k ∈ From tx' ++ To tx' → ∃ st2 e, doTransfer app tx' st' = Ret (st2, inr e) ∧
       ∀ j, account (bstore st2) j = account (bstore st') j).
Proof.
  unfold lockTransfer in Hok. revert Hok.
  rewrite (bbind_inl _ _ st st (PrefixStore.specials (bstore st) (toRelayKey (TxHash raw))))
    by (unfold db_GetSpecial; by rewrite PrefixStore.GetSpecial_eq).
  set (m := if 0 <? _ then _ else _). unfold bbind at 1.
  assert (∀ x res, m st = Ret (x, res) → x = st) as Hm.
  { intros x res. subst m. destruct (0 <? _); [|by intros [= <-]].
    destruct (list_unmarshal _); [|by intros [= <-]]. unfold blift.
    destruct (foldM _ _ _); [by intros [= <-]|done]. }
  destruct (m st) as [[st0 [set|]]|] eqn:Em; [|done|done]. rewrite (Hm _ _ eq_refl). clear Em Hm m st0.
  unfold bbind at 1, blift, must_marshal. destruct (set_marshal set) as [bz|]; [|done].
  destruct (PrefixStore.SetSpecial_eq (bstore st) (TxHash raw) bz) as (p1 & E1 & Hx1 & Hd1 & _).
  set (st1 := {| bstore := p1; bretain := bretain st |}).
  rewrite (bbind_inl _ _ st st1 tt) by (unfold db_SetSpecial, put; by rewrite E1).
  assert (∀ k, account p1 k = account (bstore st) k) as Ha1 by (intros k; unfold account; by rewrite Hd1).
  assert (bank_wf (bstore st1)) as Hwf1.
  { intros j b Hj. cbn [bstore st1] in Hj. rewrite Hd1 in Hj. by apply (Hwf j). }
  destruct (lock_keys_spec r app (From tx ++ To tx) Hr Ho st1 Hwf1)
    as (st2 & -> & Hwf2 & Hr2 & Hx2 & Hb2 & Ha2 & Hl2 & _).
  intros [= ->]. split; [done|]. split; [intros k; rewrite Hb2; unfold balance, st1; cbn [bstore]; by rewrite Ha1|].
  assert (PrefixStore.specials (bstore st') (TxHash raw) = Some bz) as Hsp.
  { rewrite Hx2. cbn [bstore st1]. by rewrite Hx1, decide_True. }
  split; [by rewrite Hsp|]. split.
  { intros wl rl Hin. unfold pre_doTransfer. rewrite Hin. cbn [negb]. cbv iota.
    rewrite (bbind_inl _ _ st' st' (inl true)); [done|].
    unfold btry, db_HasSpecial. rewrite PrefixStore.HasSpecial_eq, Hsp. done. }
  intros k Hk Hin (b & Hb & Hne).
  assert (locked (bstore st') k = WLockedIdentifier) as Hlk.
  { apply Hl2; [done|done|]. exists b. cbn [bstore st1]. by rewrite Hd1. }
  split; [done|]. intros tx' Hk'. apply (locked_refused r app tx' st' k); try done. by rewrite Hlk.
Qed.

(** ** Relayed transfers *)

(** A transfer set that went through the store is complete at once: its
    missing shards read back as empty data, so [unlockTransfer] goes on with
    the first relay of any shard instead of waiting for all of them. *)
Theorem relay_set_always_finished (m : RelayTransferTxSet) (bz : bytes) (chain : string)
    (d : BankData) (m' m'' : RelayTransferTxSet)
    (Hm : set_marshal m = Some bz) (Hu : set_unmarshal bz = Some m')
    (Hi : insertBankDataToRelayTxSet (Some d) chain m' = Ret m'') :
  isRelayTransferTxSetFinish m'' = true.
Proof.
  rewrite (set_unmarshal_marshal _ _ Hm) in Hu. injection Hu as <-.
  unfold insertBankDataToRelayTxSet in Hi.
  destruct (foldM _ _ _) as [datas|] eqn:Ef; [|done]. injection Hi as <-.
  unfold isRelayTransferTxSetFinish. cbn [sDatas]. cbn [no_nil sDatas sShards] in Ef.
  assert (∀ (l : list (nat * string)) acc acc', foldM (λ acc (q : nat * string),
      if bool_decide (snd q = chain) then upd acc (Z.of_nat (fst q)) (Some d) else Ret acc) l acc = Ret acc' →
    Forall is_Some acc → Forall is_Some acc') as Hall.
  { intros l. induction l as [|[i s] l IH]; intros acc acc'; cbn [foldM fst snd]; [by intros [= <-]|].
    destruct (bool_decide _); [|by apply IH].
    destruct (upd acc _ _) as [acc1|] eqn:Eu; [|done]. intros Hf Ha. apply (IH _ _ Hf).
    apply upd_Ret in Eu as [_ ->]. apply Forall_insert; [done|by eexists]. }
  apply forallb_forall. intros o Ho%list_elem_of_In.
  assert (Forall is_Some datas) as Hd.
  { eapply Hall; [exact Ef|]. apply Forall_forall. intros x Hx. apply in_map_iff in Hx.
    destruct Hx as (y & <- & _). by eexists. }
  apply list_elem_of_lookup in Ho as [i Hi]. destruct (Forall_lookup_1 _ _ _ _ Hd Hi) as [x ->]. done.
Qed.
End Execute.
End Theorems.

(** ** Finding the shard of a key *)

Lemma search_trees_spec trees key : Forall (λ t, rl_wf (snd t)) trees →
  search_trees trees key = Ret (fst <$> (head (filter (λ t, member (snd t) key = true) trees))).
Proof.
  induction 1 as [|[shard t] trees Ht _ IH]; [done|]. cbn [search_trees].
  rewrite Search_member_lemma by done. cbn [mbind outcome_bind].
  destruct (member t key) eqn:Em; [by rewrite filter_cons_True|]. rewrite IH.
  rewrite filter_cons_False; [done|]. simpl. by rewrite Em.
Qed.

(** The shard of a key does not depend on the order in which the map of key
    ranges is visited, if the ranges of different shards are disjoint. *)
Theorem search_key_shard_order (trees trees' : list (string * RangeList)) (key : string)
    (Hwf : Forall (λ t, rl_wf (snd t)) trees) (Hperm : trees ≡ₚ trees')
    (Hdisj : ∀ t1 t2, t1 ∈ trees → t2 ∈ trees → member (snd t1) key = true →
       member (snd t2) key = true → fst t1 = fst t2) :
  search_trees trees key = search_trees trees' key.
Proof.
  rewrite !search_trees_spec by (done || by rewrite <- Hperm). f_equal.
  assert (filter (λ t, member (snd t) key = true) trees ≡ₚ
          filter (λ t, member (snd t) key = true) trees') as Hp by by rewrite Hperm.
  assert (∀ t, t ∈ filter (λ t, member (snd t) key = true) trees →
    t ∈ trees ∧ member (snd t) key = true) as Hin by (intros t; rewrite list_elem_of_filter; tauto).
  destruct (filter _ trees) as [|t1 l1]; [by apply Permutation_nil_l in Hp as <-|].
  destruct (filter _ trees') as [|t2 l2]; [by apply Permutation_nil_r in Hp|].
  simpl. f_equal. apply Hdisj; [apply Hin; set_solver| |apply Hin; set_solver|];
    apply Hin; rewrite Hp; set_solver.
Qed.

(** ** Concrete runs *)
Module Demo.

Definition data_tuple (d : BankData) := (bdKeys d, bdOK d, bdValues d).
Definition tuple_data (t : list string * bool * list Z) : BankData :=
  {| bdKeys := fst (fst t); bdOK := snd (fst t); bdValues := snd t |}.
#[export] Instance BankData_ser : Ser BankData.
Proof. refine (iso_ser data_tuple tuple_data _). by intros []. Defined.
#[export] Instance TransferTx_ser : Ser TransferTx.
Proof.
  refine (iso_ser (λ t, (From t, To t, FromMoney t, ToMoney t, Buffer t, Time t, Shards t))
    (λ t, let '(a, b, c, d, e, f, g) := t in
      {| From := a; To := b; FromMoney := c; ToMoney := d; Buffer := e; Time := f; Shards := g |}) _).
  by intros [].
Defined.
#[export] Instance InsertTx_ser : Ser InsertTx.
Proof.
  refine (iso_ser (λ t, (Account t, Money t, iBuffer t, iTime t))
    (λ t, let '(a, b, c, d) := t in {| Account := a; Money := b; iBuffer := c; iTime := d |}) _).
  by intros [].
Defined.
#[export] Instance RelayTransferTx_ser : Ser RelayTransferTx.
Proof.
  refine (iso_ser (λ t, (rDatas t, rTxHash t)) (λ t, {| rDatas := fst t; rTxHash := snd t |}) _).
  by intros [].
Defined.
#[export] Instance RelayTransferTxSet_ser : Ser RelayTransferTxSet.
Proof.
  refine (iso_ser (λ m, (sShards m, sDatas m, sRawTx m))
    (λ t, {| sShards := fst (fst t); sDatas := snd (fst t); sRawTx := snd t |}) _).
  by intros [].
Defined.
#[export] Instance RelayTransferTxList_ser : Ser (gmap string (option BankData)).
Proof.
  refine (iso_ser (λ m : gmap string (option BankData), map_to_list m : list (string * option BankData))
    (λ l, list_to_map l) _). apply list_to_map_to_list.
Defined.

Definition demo_codec : BankCodec.
Proof.
  refine {| transfer_codec := ser_codec TransferTx; insert_codec := ser_codec InsertTx;
    relay_codec := ser_codec RelayTransferTx;
    set_marshal := λ m, marshal (ProtoCodec := ser_codec RelayTransferTxSet) (no_nil m);
    set_unmarshal := unmarshal (ProtoCodec := ser_codec RelayTransferTxSet);
    list_marshal := marshal (ProtoCodec := ser_codec (gmap string (option BankData)));
    list_unmarshal := unmarshal (ProtoCodec := ser_codec (gmap string (option BankData))) |}.
  - intros m bz. apply unmarshal_marshal.
  - intros m bz _. apply unmarshal_marshal.
Defined.

#[local] Existing Instance map_store.
#[local] Existing Instance demo_codec.

(** A cheap hash for the concrete runs. *)
Definition demo_hash : HashFn.
Proof.
  refine {| Sum := λ bz, le_encode 32 (foldr (λ b acc, b + 257 * acc) 1 bz) |}.
  intros bz. unfold zlen. by rewrite length_le_encode.
Defined.
#[local] Existing Instance demo_hash.

Definition range1 : RangeList := {| lists := Some ["a"; "m"] |}.
Definition range2 : RangeList := {| lists := Some ["m"; "z"] |}.
Lemma range1_wf : rl_wf range1.
Proof. split; [|done]. by repeat constructor. Qed.
Lemma range2_wf : rl_wf range2.
Proof. split; [|done]. by repeat constructor. Qed.

Definition bank1 : Application :=
  {| KeyRangeTrees := [("s1", range1); ("s2", range2)]; chain_id := "s1"; ShardIDList := ["s1"; "s2"] |}.
Definition empty_bank : bst (gmap bytes bytes) := {| bstore := ∅; bretain := ∅ |}.

Lemma empty_wf : bank_wf (bstore empty_bank).
Proof. intros j bz E. vm_compute in E. done. Qed.
Lemma own1 : own_range bank1 = Some range1.
Proof. reflexivity. Qed.

Definition transfer (from : list string) (fm : list Z) (to : list string) (tm : list Z) : TransferTx :=
  NewTransferTx from fm to tm ["s1"] (0, 0).
Definition run (tx : TransferTx) : bst (gmap bytes bytes) * (unit + bank_error) :=
  match doTransfer bank1 tx empty_bank with Ret r => r | Panic => (empty_bank, inr ErrKeyNotExist) end.

Definition good_tx := transfer ["alice"] [700] ["bob"; "carl"] [300; 400].

Lemma doTransfer_refines_plan_witness : ∃ st' res, doTransfer bank1 good_tx empty_bank = Ret (st', res) ∧
  bank_wf (bstore st').
Proof.
  destruct (doTransfer_refines_plan range1 bank1 good_tx empty_bank range1_wf own1 empty_wf)
    as (st' & res & E & Hwf & _). exists st', res. split; [exact E|exact Hwf].
Defined.

Lemma good_clean : clean_transfer range1 good_tx (bstore empty_bank).
Proof.
  split.
  - by repeat constructor.
  - apply (bool_decide_eq_true (NoDup (From good_tx ++ To good_tx))). vm_compute. reflexivity.
  - repeat constructor; lia.
  - done.
  - done.
  - intros [|[|i]] k m Hk Hm; simplify_eq/=; by vm_compute.
Qed.

Lemma good_ok : doTransfer bank1 good_tx empty_bank = Ret (fst (run good_tx), inl tt).
Proof. vm_compute. reflexivity. Qed.

Lemma doTransfer_conserves_witness :
  zsum (map (balance (bstore (fst (run good_tx)))) ["alice"; "bob"; "carl"]) = 3000000.
Proof.
  etrans; [exact (proj1 (doTransfer_conserves range1 bank1 good_tx empty_bank (fst (run good_tx))
    range1_wf own1 empty_wf good_clean good_ok))|].
  vm_compute. reflexivity.
Defined.

(** The application creates money when a transfer lists an account twice or
    its sums overflow: sending 700 from alice to herself leaves her with 700
    more; listing alice twice as payer of 500 debits 500 and credits 1000;
    two credits of 2^31 with no debit pass the check of the 32-bit sums. *)
Theorem doTransfer_mints :
  (let r := run (transfer ["alice"] [700] ["alice"] [700]) in
   snd r = inl tt ∧ balance (bstore (fst r)) "alice" = initBalance + 700) ∧
  (let r := run (transfer ["alice"; "alice"] [500; 500] ["bob"] [1000]) in
   snd r = inl tt ∧ balance (bstore (fst r)) "alice" + balance (bstore (fst r)) "bob" =
     2 * initBalance + 500) ∧
  (let r := run (transfer ["alice"] [0] ["bob"; "carl"] [2 ^ 31; 2 ^ 31]) in
   snd r = inl tt ∧ balance (bstore (fst r)) "alice" = initBalance ∧
   balance (bstore (fst r)) "bob" = initBalance + 2 ^ 31 ∧
   balance (bstore (fst r)) "carl" = initBalance + 2 ^ 31).
Proof. by vm_compute. Qed.

Lemma exec_txs_total_witness : ∃ st' receipts,
  exec_txs (λ _, EmptyString) bank1 [[]; [1; 2; 3]; [6; 0; 0; 0; 9]] empty_bank = Ret (st', inl receipts) ∧
  length receipts = 3%nat.
Proof.
  destruct (exec_txs_total (λ _, EmptyString) range1 bank1 [[]; [1; 2; 3]; [6; 0; 0; 0; 9]]
    empty_bank range1_wf own1 empty_wf) as (st' & rc & states & E & Hl & _).
  exists st', rc. split; [exact E|exact Hl].
Defined.

Lemma preExecution_short_tx_panics_witness : preExecution bank1 [[1; 2]; []] empty_bank = Panic.
Proof. apply preExecution_short_tx_panics. reflexivity. Defined.

Lemma search_key_shard_order_witness :
  search_trees (KeyRangeTrees bank1) "nick" = search_trees [("s2", range2); ("s1", range1)] "nick".
Proof.
  apply search_key_shard_order.
  - repeat constructor; (apply range1_wf || apply range2_wf).
  - apply Permutation_swap.
  - intros t1 t2 H1 H2 M1 M2. set_unfold in H1. set_unfold in H2.
    destruct H1 as [->|[->|[]]], H2 as [->|[->|[]]]; vm_compute in M1, M2; done.
Defined.

(** *** A cross-shard transfer from alice (shard s1) to nick (shard s2) *)

Definition cross_tx : TransferTx := NewTransferTx ["alice"] [700] ["nick"] [700] ["s1"; "s2"] (0, 0).
Definition cross_raw : bytes := match TransferBytes cross_tx with Ret bz => bz | Panic => [] end.

(** Shard s1 after pre-execution, with the relay transactions for both. *)
Definition pre_state : bst (gmap bytes bytes) * list (list bytes) :=
  match preExecution bank1 [cross_raw] empty_bank with
  | Ret (st, inl l) => (st, l)
  | _ => (empty_bank, [])
  end.
Definition first_tx (l : list (list bytes)) : bytes := match l with (x :: _) :: _ => x | _ => [] end.
Definition relay1 : bytes := first_tx (snd pre_state).

(** After the first relay, the one of shard s1 itself. *)
Definition first_relay : bst (gmap bytes bytes) * (unit + bank_error) :=
  match executeRelay bank1 relay1 "s1" (fst pre_state) with
  | Ret r => r
  | Panic => (empty_bank, inl tt)
  end.

Definition read_state : bst (gmap bytes bytes) :=
  match AppDB_Get (own_range bank1) "alice" empty_bank with Ret (st, _) => st | Panic => empty_bank end.
Definition lock_state : bst (gmap bytes bytes) :=
  match lockTransfer bank1 cross_tx cross_raw read_state with Ret (st, _) => st | Panic => empty_bank end.

Lemma read_wf : bank_wf (bstore read_state).
Proof.
  destruct (AppDB_Get_in range1 range1_wf empty_bank "alice" eq_refl empty_wf) as (st' & E & Hwf & _).
  unfold read_state. rewrite own1, E. done.
Qed.

Lemma lock_ok : lockTransfer bank1 cross_tx cross_raw read_state = Ret (lock_state, inl tt).
Proof.
  assert (match lockTransfer bank1 cross_tx cross_raw read_state with
          | Ret (_, inl _) => true | _ => false end = true) as Hm by (vm_compute; reflexivity).
  unfold lock_state. destruct (lockTransfer _ _ _ _) as [[st [[]|]]|]; done.
Qed.

Lemma lockTransfer_locks_witness :
  locked (bstore lock_state) "alice" = WLockedIdentifier ∧
  balance (bstore lock_state) "alice" = balance (bstore read_state) "alice".
Proof.
  pose proof (lockTransfer_locks range1 bank1 cross_tx cross_raw read_state lock_state
    range1_wf own1 read_wf lock_ok) as (_ & Hb & _ & _ & Hl).
  split; [|apply Hb].
  refine (proj1 (Hl "alice" _ eq_refl _)); [left|].
  eexists. split; [vm_compute; reflexivity|discriminate].
Defined.

Definition demo_set : RelayTransferTxSet :=
  {| sShards := ["s1"; "s2"]; sDatas := [None; None]; sRawTx := [1] |}.

Lemma relay_set_always_finished_witness : ∃ m'',
  insertBankDataToRelayTxSet (Some empty_data) "s1" (no_nil demo_set) = Ret m'' ∧
  isRelayTransferTxSetFinish demo_set = false ∧ isRelayTransferTxSetFinish m'' = true.
Proof.
  eexists. split; [vm_compute; reflexivity|]. split; [reflexivity|].
  eapply (relay_set_always_finished demo_set _ "s1" empty_data (no_nil demo_set));
    [reflexivity| |vm_compute; reflexivity].
  vm_compute. reflexivity.
Defined.

(** Pre-execution locks alice; the first relay, from her own shard, unlocks
    her and gives up because nick's value is missing, although nothing has
    been received from shard s2. *)
Theorem first_relay_unlocks :
  locked (bstore (fst pre_state)) "alice" = WLockedIdentifier ∧
  snd first_relay = inr ErrKeyNotExist ∧
  account (bstore (fst first_relay)) "alice" = (initBalance, FreeIdentifier).
Proof. by vm_compute. Qed.

End Demo.
