(* ===== verification/Importer.v ===== *)
(** * Generating and importing transactions

    Models [source/urd/abci/minibank/importer.go] and the generators of
    [source/pyramid/abci/minibank/importer.go]: random accounts, transfers
    between them, the file they are written to (its lines), and the sorting of
    the transactions of a file into the two mempools of a shard.  Random
    numbers are a parameter, drawn in sequence; the state of the source is the
    number of draws. *)

From stdpp Require Import base list gmap strings numbers sorting pretty.
From Stdlib Require Import ZArith Lia.
From S2P Require Import Prelude Convert BitVector Hash Signer RangeList Store Receipt ShardInfo Bank.

(** ** Hexadecimal text *)

Definition hex_digit (n : Z) : Ascii.ascii := Ascii.ascii_of_N (Z.to_N (if n <? 10 then 48 + n else 87 + n)).
(** [hex.EncodeToString]. *)
Fixpoint EncodeToString (bz : bytes) : string :=
  match bz with
  | [] => EmptyString
  | b :: bz' => String (hex_digit (b / 16)) (String (hex_digit (b mod 16)) (EncodeToString bz'))
  end.
Definition hex_value (c : Ascii.ascii) : option Z :=
  let n := Z.of_N (Ascii.N_of_ascii c) in
  if (48 <=? n) && (n <=? 57) then Some (n - 48)
  else if (97 <=? n) && (n <=? 102) then Some (n - 87)
  else if (65 <=? n) && (n <=? 70) then Some (n - 55)
  else None.
(** [hex.DecodeString]; [None] is an error. *)
Fixpoint DecodeString (s : string) : option bytes :=
  match s with
  | EmptyString => Some []
  | String a (String b s') =>
      x ← hex_value a; y ← hex_value b; rest ← DecodeString s'; Some (16 * x + y :: rest)
  | String _ EmptyString => None
  end.
Lemma hex_value_digit n : 0 ≤ n < 16 → hex_value (hex_digit n) = Some n.
Proof.
  intros Hn. assert (∀ m, (m < 16)%nat → hex_value (hex_digit (Z.of_nat m)) = Some (Z.of_nat m)) as Hall.
  { intros m Hm. do 16 (destruct m as [|m]; [reflexivity|]). lia. }
  specialize (Hall (Z.to_nat n) ltac:(lia)). by rewrite Z2Nat.id in Hall by lia.
Qed.
Lemma hex_roundtrip bz : Forall (λ b, 0 ≤ b < 256) bz → DecodeString (EncodeToString bz) = Some bz.
Proof.
  induction 1 as [|b bz Hb _ IH]; [done|]. cbn [EncodeToString DecodeString].
  pose proof (Z.div_mod b 16 ltac:(lia)). pose proof (Z.mod_pos_bound b 16 ltac:(lia)).
  rewrite !hex_value_digit, IH by lia. cbn. do 2 f_equal. lia.
Qed.

(** ** Random accounts *)

Section Generator.
(** The [k]-th draw below [n]. *)
Context (Intn : nat → Z → Z).

(** [rand.Intn] panics on a bound that is not positive. *)
Definition rand_below (r : nat) (n : Z) : outcome (Z * nat) := if n <=? 0 then Panic else Ret (Intn r n, S r).
Fixpoint zeros (n : nat) : string := match n with O => EmptyString | S n => String (Ascii.ascii_of_nat 48) (zeros n) end.
(** The prefix, zeros up to 32 characters, and the number. *)
Definition account_name (prefix : string) (num : Z) : outcome string :=
  let numStr := pretty num in
  let pad := 32 - Z.of_nat (String.length prefix) - Z.of_nat (String.length numStr) in
  if pad <? 0 then Panic (* strings.Repeat *)
  else Ret (String.append prefix (String.append (zeros (Z.to_nat pad)) numStr)).
Definition draw_account (prefixes : list string) (n : Z) (r : nat) : outcome (string * nat) :=
  '(i, r) ← rand_below r (zlen prefixes);
  prefix ← idx prefixes i;
  '(num, r) ← rand_below r n;
  result ← account_name prefix (num + 1);
  Ret (result, r).
(** Draws until an account is new; [Ret None] when the fuel does not suffice. *)
Fixpoint draw_new (fuel : nat) (prefixes : list string) (n : Z) (generated : gset string) (r : nat)
    : outcome (option (string * nat)) :=
  match fuel with
  | O => Ret None
  | S fuel =>
      '(result, r) ← draw_account prefixes n r;
      if bool_decide (result ∈ generated) then draw_new fuel prefixes n generated r
      else Ret (Some (result, r))
  end.
Fixpoint generate_loop (k : nat) (fuel : nat) (prefixes : list string) (n : Z) (generated : gset string) (r : nat)
    : outcome (option (list string * nat)) :=
  match k with
  | O => Ret (Some ([], r))
  | S k =>
      o ← draw_new fuel prefixes n generated r;
      match o with
      | None => Ret None
      | Some (result, r) =>
          o ← generate_loop k fuel prefixes n ({[result]} ∪ generated) r;
          Ret (option_map (λ lr, (result :: fst lr, snd lr)) o)
      end
  end.
Definition generateAccounts (fuel : nat) (prefixes : list string) (n k : Z) (r : nat) : outcome (option (list string * nat)) :=
  if k <? 0 then Panic (* make *) else generate_loop (Z.to_nat k) fuel prefixes n ∅ r.
Definition generateSingleShardAccounts (fuel : nat) (prefixes : list string) (n k : Z) (r : nat)
    : outcome (option (list string * nat)) :=
  '(i, r) ← rand_below r (zlen prefixes);
  prefix ← idx prefixes i;
  generateAccounts fuel [prefix] n k r.

(** ** What is generated *)

Context (Hrand : ∀ k n, 0 < n → 0 ≤ Intn k n < n).

Lemma string_app_length a b : String.length (String.append a b) = (String.length a + String.length b)%nat.
Proof. induction a as [|c a IH]; [done|exact (f_equal S IH)]. Qed.
Lemma zeros_length n : String.length (zeros n) = n.
Proof. induction n; cbn; congruence. Qed.
Lemma account_length p num a : account_name p num = Ret a → String.length a = 32%nat.
Proof.
  unfold account_name. destruct (Z.ltb_spec (32 - Z.of_nat (String.length p) - Z.of_nat (String.length (pretty num))) 0); [done|].
  intros [= <-]. rewrite !string_app_length, zeros_length. lia.
Qed.
(** The accounts of the prefixes. *)
Definition is_account (prefixes : list string) (n : Z) (a : string) : Prop :=
  ∃ p num, p ∈ prefixes ∧ 1 ≤ num ≤ n ∧ account_name p num = Ret a.
Lemma draw_account_spec prefixes n r a r' : draw_account prefixes n r = Ret (a, r') → is_account prefixes n a.
Proof using Hrand.
  unfold draw_account, rand_below. destruct (Z.leb_spec (zlen prefixes) 0) as [|Hp]; [done|]. cbn [mbind outcome_bind].
  destruct (idx prefixes _) as [p|] eqn:Ep; cbn [mbind outcome_bind]; [|done]. destruct (Z.leb_spec n 0); [done|].
  cbn [mbind outcome_bind]. pose proof (Hrand (S r) n ltac:(lia)).
  destruct (account_name p _) as [b|] eqn:Ea; [|done]. intros [= <- _].
  apply idx_Ret in Ep as [_ Ep]. exists p, (Intn (S r) n + 1). split_and!; [by eapply list_elem_of_lookup_2|lia..|done].
Qed.
Lemma draw_new_spec fuel prefixes n gen : ∀ r a r', draw_new fuel prefixes n gen r = Ret (Some (a, r')) →
  is_account prefixes n a ∧ a ∉ gen.
Proof using Hrand.
  induction fuel as [|fuel IH]; intros r a r'; cbn [draw_new]; [done|].
  destruct (draw_account prefixes n r) as [[b r1]|] eqn:E; cbn [mbind outcome_bind]; [|done].
  case_bool_decide as Hin; [by apply IH|]. intros [= <- <-]. split; [by eapply draw_account_spec|done].
Qed.
Lemma generate_loop_spec k fuel prefixes n : ∀ gen r accs r', generate_loop k fuel prefixes n gen r = Ret (Some (accs, r')) →
  length accs = k ∧ NoDup accs ∧ ∀ a, a ∈ accs → is_account prefixes n a ∧ a ∉ gen.
Proof using Hrand.
  induction k as [|k IH]; intros gen r accs r'; cbn [generate_loop].
  { intros [= <- <-]. split_and!; [done|constructor|]. by intros a Ha%elem_of_nil. }
  destruct (draw_new fuel prefixes n gen r) as [[[a r1]|]|] eqn:E; cbn [mbind outcome_bind]; [|done..].
  destruct (generate_loop k fuel prefixes n _ r1) as [[[l r2]|]|] eqn:El; cbn [mbind outcome_bind option_map fst snd]; [|done..].
  intros [= <- <-]. apply draw_new_spec in E as [Ha Hn]. destruct (IH _ _ _ _ El) as (Hl & Hnd & Hall). split_and!; [by cbn; rewrite Hl| |].
  - constructor; [|done]. intros Hin. destruct (Hall a Hin) as [_ Hnot]. set_solver.
  - intros b [->|Hb]%elem_of_cons; [done|]. destruct (Hall b Hb) as [Hb1 Hb2]. split; [done|set_solver].
Qed.

(** The names of all accounts of the prefixes, as often as there are pairs of
    a prefix and a number. *)
Definition account_names (prefixes : list string) (n : Z) : list string :=
  p ← prefixes; i ← seqZ 1 n; match account_name p i with Ret a => [a] | Panic => [] end.
Lemma account_names_spec prefixes n a : is_account prefixes n a → a ∈ account_names prefixes n.
Proof.
  intros (p & i & Hp & Hi & E). apply list_elem_of_bind. exists p. split; [|done]. apply list_elem_of_bind.
  exists i. rewrite E, elem_of_seqZ. split; [by left|lia].
Qed.
Lemma bind_length {A B} (f : A → list B) l m : (∀ x, (length (f x) ≤ m)%nat) → (length (l ≫= f) ≤ length l * m)%nat.
Proof. intros Hf. induction l as [|x l IH]; [done|]. rewrite bind_cons, length_app. cbn [length]. pose proof (Hf x). lia. Qed.
Lemma account_names_length prefixes n : (length (account_names prefixes n) ≤ length prefixes * Z.to_nat n)%nat.
Proof.
  apply bind_length. intros p. etrans; [by apply (bind_length _ _ 1); intros i; destruct (account_name p i); cbn; lia|].
  rewrite length_seqZ. lia.
Qed.

(** The accounts a generator returns are as many as asked for, pairwise
    different, of 32 characters, and each a prefix with a number from 1 to
    [n]; so it can return only where that many accounts exist. *)
Lemma generateAccounts_spec fuel prefixes n k r accs r' : generateAccounts fuel prefixes n k r = Ret (Some (accs, r')) →
  zlen accs = k ∧ NoDup accs ∧ (∀ a, a ∈ accs → String.length a = 32%nat ∧ is_account prefixes n a) ∧
  k ≤ zlen prefixes * Z.max 0 n.
Proof using Hrand.
  unfold generateAccounts. destruct (Z.ltb_spec k 0); [done|]. intros E. apply generate_loop_spec in E as (Hl & Hn & Hall).
  split_and!; [unfold zlen; lia|done| |].
  - intros a Ha. destruct (Hall a Ha) as [Hacc _]. split; [|done].
    destruct Hacc as (p & num & _ & _ & E). by eapply account_length.
  - assert (length accs ≤ length (account_names prefixes n))%nat as Hle.
    { apply NoDup_incl_length; [by apply NoDup_ListNoDup|]. intros a Ha%list_elem_of_In. apply list_elem_of_In.
      apply account_names_spec, Hall, Ha. }
    pose proof (account_names_length prefixes n). unfold zlen. nia.
Qed.

(** ** Termination under a fair source *)

(** No draw panics: there are prefixes and numbers, and the names fit. *)
Definition names_fit (prefixes : list string) (n : Z) : Prop :=
  0 < zlen prefixes ∧ 0 < n ∧
  ∀ p i, p ∈ prefixes → 1 ≤ i ≤ n → (String.length p + String.length (pretty i) ≤ 32)%nat.
(** Every account of [pool] is drawn in any [fuel] consecutive draws. *)
Definition fair (fuel : nat) (prefixes : list string) (n : Z) (pool : list string) : Prop :=
  ∀ r a, a ∈ pool → ∃ j, (j < fuel)%nat ∧ ∃ r', draw_account prefixes n (r + 2 * j)%nat = Ret (a, r').
Lemma draw_account_total prefixes n r : names_fit prefixes n → ∃ a, draw_account prefixes n r = Ret (a, (r + 2)%nat).
Proof using Hrand.
  intros (Hp & Hn & Hfit). unfold draw_account, rand_below. destruct (Z.leb_spec (zlen prefixes) 0); [lia|]. cbn [mbind outcome_bind].
  pose proof (Hrand r (zlen prefixes) Hp). destruct (idx_in_range prefixes (Intn r (zlen prefixes))) as (p & Ep & Hlk); [lia|].
  rewrite Ep. cbn [mbind outcome_bind]. destruct (Z.leb_spec n 0); [lia|]. cbn [mbind outcome_bind].
  pose proof (Hrand (S r) n Hn). pose proof (Hfit p (Intn (S r) n + 1) ltac:(by eapply list_elem_of_lookup_2) ltac:(lia)).
  unfold account_name. destruct (Z.ltb_spec (32 - Z.of_nat (String.length p) - Z.of_nat (String.length (pretty (Intn (S r) n + 1)))) 0); [lia|].
  cbn [mbind outcome_bind]. replace (r + 2)%nat with (S (S r)) by lia. eauto.
Qed.
Lemma draw_new_total prefixes n gen fuel : names_fit prefixes n → ∀ r,
  (∃ j a r', (j < fuel)%nat ∧ draw_account prefixes n (r + 2 * j)%nat = Ret (a, r') ∧ a ∉ gen) →
  ∃ a r', draw_new fuel prefixes n gen r = Ret (Some (a, r')).
Proof using Hrand.
  intros Hfit. induction fuel as [|fuel IH]; intros r (j & a & r' & Hj & E & Ha); [lia|]. cbn [draw_new].
  destruct (draw_account_total prefixes n r Hfit) as [b Eb]. rewrite Eb. cbn [mbind outcome_bind].
  case_bool_decide as Hin; [|eauto]. apply IH. destruct j as [|j].
  { replace (r + 2 * 0)%nat with r in E by lia. rewrite Eb in E. by simplify_eq. }
  exists j, a, r'. replace (r + 2 + 2 * j)%nat with (r + 2 * S j)%nat by lia. split_and!; [lia|done..].
Qed.
Lemma fresh_in_pool (pool : list string) (gen : gset string) : NoDup pool → (size gen < length pool)%nat → ∃ a, a ∈ pool ∧ a ∉ gen.
Proof.
  intros Hnd Hs. destruct (decide (Exists (λ a, a ∉ gen) pool)) as [Hex|Hno]; [by apply list.Exists_exists in Hex|].
  exfalso. apply not_Exists_Forall in Hno; [|apply _].
  assert (list_to_set pool ⊆ gen) as Hsub.
  { intros a Ha%elem_of_list_to_set. eapply list.Forall_forall in Hno; [|done]. by apply dec_stable. }
  apply subseteq_size in Hsub. rewrite size_list_to_set in Hsub by done. lia.
Qed.
Lemma generate_loop_total fuel prefixes n pool : names_fit prefixes n → NoDup pool → fair fuel prefixes n pool →
  ∀ k gen r, (size gen + k ≤ length pool)%nat → ∃ accs r', generate_loop k fuel prefixes n gen r = Ret (Some (accs, r')).
Proof using Hrand.
  intros Hfit Hnd Hfair. induction k as [|k IH]; intros gen r Hk; cbn [generate_loop]; [eauto|].
  destruct (fresh_in_pool pool gen Hnd ltac:(lia)) as (a & Ha & Hgen). destruct (Hfair r a Ha) as (j & Hj & r' & E).
  destruct (draw_new_total prefixes n gen fuel Hfit r) as (b & r1 & Eb); [naive_solver|]. rewrite Eb. cbn [mbind outcome_bind].
  destruct (IH ({[b]} ∪ gen) r1) as (accs & r2 & ->).
  { pose proof (size_union_alt {[b]} gen). rewrite size_singleton in *. pose proof (subseteq_size (gen ∖ {[b]}) gen ltac:(set_solver)). lia. }
  cbn. eauto.
Qed.

(** A generator returns for every number of accounts up to those that keep
    being drawn: with names that fit 32 characters and a source that yields
    every account of a pool in any [fuel] draws, [k] accounts of that pool's
    size or fewer are found, and they are pairwise different accounts of the
    prefixes; and a number above that of the accounts is never returned. *)
Theorem generateAccounts_correct (fuel : nat) (prefixes pool : list string) (n k : Z) (r : nat)
    (Hfit : names_fit prefixes n) (Hnd : NoDup pool) (Hfair : fair fuel prefixes n pool) (Hk : 0 ≤ k) :
  (k ≤ zlen pool → ∃ accs r', generateAccounts fuel prefixes n k r = Ret (Some (accs, r')) ∧ zlen accs = k ∧ NoDup accs ∧
     ∀ a, a ∈ accs → String.length a = 32%nat ∧ is_account prefixes n a) ∧
  (zlen prefixes * n < k → ∀ fuel' accs r', generateAccounts fuel' prefixes n k r ≠ Ret (Some (accs, r'))).
Proof using Hrand.
  split.
  - intros Hp. destruct (generate_loop_total fuel prefixes n pool Hfit Hnd Hfair (Z.to_nat k) ∅ r) as (accs & r' & E).
    { rewrite size_empty. unfold zlen in *. lia. }
    assert (generateAccounts fuel prefixes n k r = Ret (Some (accs, r'))) as Eg.
    { unfold generateAccounts. destruct (Z.ltb_spec k 0); [lia|done]. }
    exists accs, r'. split; [done|]. apply generateAccounts_spec in Eg as (H1 & H2 & H3 & _). done.
  - intros Hlt fuel' accs r' E. apply generateAccounts_spec in E as (_ & _ & _ & Hle). destruct Hfit as (_ & Hn & _). nia.
Qed.
End Generator.

(** ** The generator of the URD bank *)

(** The constants of importer.go. *)
Definition transferSize : Z := 4.
Definition mustLen : Z := 512.
Definition accountsPerShard : Z := 100000.
Definition txsPerShard : Z := 500000.
(** Built by [init]. *)
Definition amountMoney : list Z := replicate (Z.to_nat transferSize) 1.

Section Urd.
Context {C : BankCodec} (Intn : nat → Z → Z).
(** [rand.Float64() < cross_shard_ratio], and the clock, at a transaction. *)
Context (below_ratio : nat → bool) (now : nat → Z * Z).

(** The shards whose range has one of the accounts. *)
Definition add_shard (acc : string) (shardsMap : gset string) (kv : string * RangeList) : outcome (gset string) :=
  b ← Search (snd kv) acc; Ret (if b : bool then {[fst kv]} ∪ shardsMap else shardsMap).
Definition shards_of (rangeLists : gmap string RangeList) (accounts : list string) : outcome (gset string) :=
  foldM (λ shardsMap acc, foldM (add_shard acc) (map_to_list rangeLists) shardsMap) accounts ∅.
Definition generateRandomTx (fuel : nat) (rangeLists : gmap string RangeList) (prefixes : list string) (i r : nat)
    : outcome (option (string * nat)) :=
  o ← (if below_ratio i then generateAccounts Intn fuel prefixes accountsPerShard transferSize r
       else generateSingleShardAccounts Intn fuel prefixes accountsPerShard transferSize r);
  match o with
  | None => Ret None
  | Some (accounts, r) =>
      let mid := transferSize / 2 in
      shardsMap ← shards_of rangeLists accounts;
      let keys := sort_Strings (elements shardsMap) in
      from ← slice_to accounts mid; fromMoney ← slice_to amountMoney mid;
      to ← slice_from accounts mid; toMoney ← slice_from amountMoney mid;
      tx ← NewTransferTxMustLen from fromMoney to toMoney keys mustLen (now i);
      bz ← TransferBytes tx;
      Ret (Some (EncodeToString bz, r))
  end.

Fixpoint generate_txs (k fuel : nat) (rangeLists : gmap string RangeList) (prefixes : list string) (i r : nat)
    : outcome (option (list string * nat)) :=
  match k with
  | O => Ret (Some ([], r))
  | S k =>
      o ← generateRandomTx fuel rangeLists prefixes i r;
      match o with
      | None => Ret None
      | Some (line, r) =>
          o ← generate_txs k fuel rangeLists prefixes (S i) r;
          Ret (option_map (λ lr, (line :: fst lr, snd lr)) o)
      end
  end.

(** ** The importer *)

Context {M : Type} (AddTx : M → bytes → outcome (M * bool)).

Record Importor := {
  mempool : M; cross_shard_mempool : M; rangeLists : gmap string RangeList; myChain : string; enabled : bool;
  all_prefixes : list string
}.
(** [entries] lists the map in the order a [range] over it visits it. *)
Definition NewImportor (mmp cmmp : M) (chain_id : string) (entries : list (string * RangeList)) (enabled : bool) : outcome Importor :=
  prefixes ← mapM_out (λ kv : string * RangeList, StartKey (snd kv)) entries;
  Ret {| mempool := mmp; cross_shard_mempool := cmmp; rangeLists := list_to_map entries; myChain := chain_id; enabled := enabled;
         all_prefixes := prefixes |}.
Definition GenerateTxs (fuel : nat) (im : Importor) (r : nat) : outcome (option (list string * nat)) :=
  generate_txs (Z.to_nat (Z.of_nat (size (rangeLists im)) * txsPerShard)) fuel (rangeLists im) (all_prefixes im) 0 r.

Inductive import_error := ErrRead | ErrHex | ErrParse (e : bank_error) | ErrAddTx.
(** The two mempools and the count of transactions of other shards. *)
Record import_state := { is_pool : M; is_cross : M; useless : Z }.
(** One transaction of the file. *)
Definition import_tx (chain : string) (tx : TransferTx) (txBz : bytes) (st : import_state) : outcome (import_state * option import_error) :=
  if StrIn chain (Shards tx) then
    '(st, err) ← (if zlen (Shards tx) =? 1 then
        '(m, ok) ← AddTx (is_pool st) txBz;
        Ret ({| is_pool := m; is_cross := is_cross st; useless := useless st |}, if ok : bool then None else Some ErrAddTx)
      else Ret (st, None));
    match err with
    | Some e => Ret (st, Some e)
    | None =>
        if 1 <? zlen (Shards tx) then
          '(m, ok) ← AddTx (is_cross st) txBz;
          Ret ({| is_pool := is_pool st; is_cross := m; useless := useless st |}, if ok : bool then None else Some ErrAddTx)
        else Ret (st, None)
    end
  else Ret ({| is_pool := is_pool st; is_cross := is_cross st; useless := useless st + 1 |}, None).
(** The remainder of [(i+1)%log_intervel] decides only what is printed, but a
    zero divisor panics. *)
Fixpoint import_lines (chain : string) (log_intervel : Z) (lines : list string) (st : import_state)
    : outcome (import_state * option import_error) :=
  match lines with
  | [] => Ret (st, None)
  | line :: lines =>
      match DecodeString line with
      | None => Ret (st, Some ErrHex)
      | Some txBz =>
          p ← NewTransferTxFromBytes txBz;
          match p with
          | inr e => Ret (st, Some (ErrParse e))
          | inl tx =>
              '(st, err) ← import_tx chain tx txBz st;
              match err with
              | Some e => Ret (st, Some e)
              | None => if log_intervel =? 0 then Panic else import_lines chain log_intervel lines st
              end
          end
      end
  end.
(** [file] is what [readLinesFromFile] returns. *)
Definition Importor_Start (im : Importor) (file : option (list string)) : outcome (import_state * option import_error) :=
  let st := {| is_pool := mempool im; is_cross := cross_shard_mempool im; useless := 0 |} in
  if negb (enabled im) then Ret (st, None)
  else match file with
       | None => Ret (st, Some ErrRead)
       | Some lines => import_lines (myChain im) (Z.of_nat (length lines / 10)) lines st
       end.

(** ** What is generated and where it goes *)

Lemma add_shards_list a l : (∀ k rl, (k, rl) ∈ l → rl_wf rl) → ∀ sm,
  ∃ s, foldM (add_shard a) l sm = Ret s ∧ ∀ k, k ∈ s ↔ k ∈ sm ∨ ∃ rl, (k, rl) ∈ l ∧ member rl a = true.
Proof.
  induction l as [|[k rl] l IH]; intros Hl sm; [exists sm; split; [done|]; setoid_rewrite elem_of_nil; naive_solver|]. cbn [foldM]. unfold add_shard at 1. cbn [fst snd].
  rewrite Search_member_lemma by (eapply Hl; by left). cbn [mbind outcome_bind].
  destruct (IH ltac:(intros ?? Hin; eapply Hl; by right) (if member rl a then {[k]} ∪ sm else sm)) as (s & -> & Hs).
  exists s. split; [done|]. intros k'. rewrite Hs. setoid_rewrite elem_of_cons.
  destruct (member rl a) eqn:Em; rewrite ?elem_of_union, ?elem_of_singleton; clear - Em; naive_solver congruence.
Qed.
Lemma add_shards rls a : map_Forall (λ _ rl, rl_wf rl) rls → ∀ sm,
  ∃ s, foldM (add_shard a) (map_to_list rls) sm = Ret s ∧ ∀ k, k ∈ s ↔ k ∈ sm ∨ ∃ rl, rls !! k = Some rl ∧ member rl a = true.
Proof.
  intros Hwf sm. destruct (add_shards_list a (map_to_list rls)) with (sm := sm) as (s & -> & Hs).
  { intros k rl Hin%elem_of_map_to_list. by apply (Hwf k). }
  exists s. split; [done|]. intros k. rewrite Hs. by setoid_rewrite elem_of_map_to_list.
Qed.
Lemma shards_of_spec rls accs : map_Forall (λ _ rl, rl_wf rl) rls →
  ∃ s, shards_of rls accs = Ret s ∧ ∀ k, k ∈ s ↔ ∃ rl a, rls !! k = Some rl ∧ a ∈ accs ∧ member rl a = true.
Proof.
  intros Hwf. unfold shards_of. assert (∀ sm, ∃ s, foldM (λ shardsMap acc, foldM (add_shard acc) (map_to_list rls) shardsMap) accs sm = Ret s ∧
    ∀ k, k ∈ s ↔ k ∈ sm ∨ ∃ rl a, rls !! k = Some rl ∧ a ∈ accs ∧ member rl a = true) as Hall.
  { induction accs as [|a accs IH]; intros sm; [exists sm; split; [done|]; setoid_rewrite elem_of_nil; naive_solver|]. cbn [foldM].
    destruct (add_shards rls a Hwf sm) as (s1 & -> & Hs1). destruct (IH s1) as (s & -> & Hs). exists s. split; [done|].
    intros k. rewrite Hs, Hs1. setoid_rewrite elem_of_cons. clear. naive_solver. }
  destruct (Hall ∅) as (s & -> & Hs). exists s. split; [done|]. intros k. rewrite Hs. set_solver.
Qed.

(** Encoded transactions are bytes. *)
Context (Hmarshal : ∀ (tx : TransferTx) bz, marshal tx = Some bz → wf_bytes bz).
Context (Hrand : ∀ k n, 0 < n → 0 ≤ Intn k n < n).

(** A line of the file that holds a transaction. *)
Definition line_holds (line : string) (p : bytes * TransferTx) : Prop :=
  DecodeString line = Some (fst p) ∧ NewTransferTxFromBytes (fst p) = Ret (inl (snd p)).
Lemma encoded_line tx bz : TransferBytes tx = Ret bz → line_holds (EncodeToString bz) (bz, tx).
Proof using Hmarshal.
  unfold TransferBytes, MustProtoBytes. destruct (marshal tx) as [p|] eqn:Em; [|done]. cbn [mbind outcome_bind].
  intros E. assert (bz = Uint32ToBytes TxTransfer ++ p) as -> by congruence. clear E. split; cbn [fst snd].
  - apply hex_roundtrip, list.Forall_app_2; [apply le_encode_wf|by eapply Hmarshal].
  - unfold NewTransferTxFromBytes. rewrite slice_from_in_range.
    2:{ rewrite zlen_app. pose proof (zlen_nonneg p). change (zlen (Uint32ToBytes TxTransfer)) with 4. lia. }
    cbn [mbind outcome_bind]. rewrite drop_app_length' by done. by rewrite (unmarshal_marshal _ _ Em).
Qed.

(** A well-formed random transfer: distinct accounts, valid amounts, and
    exactly the shards of its accounts, sorted. *)
Record random_transfer (rls : gmap string RangeList) (tx : TransferTx) : Prop := {
  rt_accounts : NoDup (From tx ++ To tx) ∧ zlen (From tx) = 2 ∧ zlen (To tx) = 2;
  rt_valid : ValidateTransferTx tx = None;
  rt_shards k : k ∈ Shards tx ↔ ∃ rl a, rls !! k = Some rl ∧ a ∈ From tx ++ To tx ∧ member rl a = true;
  rt_sorted : StronglySorted str_le (Shards tx) ∧ NoDup (Shards tx)
}.
Lemma MustLen_fields f fm t tm sh len tm0 tx : NewTransferTxMustLen f fm t tm sh len tm0 = Ret tx →
  From tx = f ∧ FromMoney tx = fm ∧ To tx = t ∧ ToMoney tx = tm ∧ Shards tx = sh.
Proof.
  unfold NewTransferTxMustLen. destruct (TransferTxSize _) as [size|]; [|done]. cbn [mbind outcome_bind]. intros [= <-].
  by destruct (0 <? len - size).
Qed.
Lemma generate_either fuel prefixes (b : bool) r accs r' :
  (if b then generateAccounts Intn fuel prefixes accountsPerShard transferSize r
   else generateSingleShardAccounts Intn fuel prefixes accountsPerShard transferSize r) = Ret (Some (accs, r')) →
  zlen accs = 4 ∧ NoDup accs.
Proof using Hrand.
  destruct b; [intros E; by apply generateAccounts_spec in E as (? & ? & _)|]. unfold generateSingleShardAccounts.
  intros ([i r1] & _ & (p & _ & E)%outcome_bind_Ret)%outcome_bind_Ret. by apply generateAccounts_spec in E as (? & ? & _).
Qed.
Lemma generateRandomTx_spec fuel rls prefixes i r line r' : map_Forall (λ _ rl, rl_wf rl) rls →
  generateRandomTx fuel rls prefixes i r = Ret (Some (line, r')) →
  ∃ p, line_holds line p ∧ random_transfer rls (snd p).
Proof using Hrand Hmarshal.
  intros Hwf. unfold generateRandomTx. intros ([[accs r1]|] & E & F)%outcome_bind_Ret; [|done].
  apply generate_either in E as [Hlen Hnd]. destruct (shards_of_spec rls accs Hwf) as (s & Es & Hs).
  rewrite Es in F. cbn [mbind outcome_bind] in F. destruct accs as [|a [|b [|c [|d [|]]]]]; try (unfold zlen in Hlen; cbn in Hlen; lia).
  change (slice_to [a; b; c; d] (transferSize / 2)) with (Ret [a; b]) in F.
  change (slice_from [a; b; c; d] (transferSize / 2)) with (Ret [c; d]) in F.
  change (slice_to amountMoney (transferSize / 2)) with (Ret [1; 1]) in F.
  change (slice_from amountMoney (transferSize / 2)) with (Ret [1; 1]) in F. cbn [mbind outcome_bind] in F.
  apply outcome_bind_Ret in F as (tx & Et & (bz & Eb & [= <- <-])%outcome_bind_Ret).
  apply MustLen_fields in Et as (Hf & Hfm & Ht & Htm & Hsh). exists (bz, tx). split; [by apply encoded_line|]. cbn [snd].
  split; rewrite ?Hf, ?Ht, ?Hsh; [done| | |].
  - unfold ValidateTransferTx. by rewrite Hf, Ht, Hfm, Htm.
  - intros k. rewrite sort_Strings_perm, elem_of_elements. apply Hs.
  - split; [apply sort_Strings_sorted|]. rewrite sort_Strings_perm. apply NoDup_elements.
Qed.
Lemma generate_txs_spec fuel rls prefixes : map_Forall (λ _ rl, rl_wf rl) rls → ∀ k i r lines r',
  generate_txs k fuel rls prefixes i r = Ret (Some (lines, r')) →
  length lines = k ∧ ∃ ps, Forall2 line_holds lines ps ∧ Forall (λ p, random_transfer rls (snd p)) ps.
Proof using Hrand Hmarshal.
  intros Hwf. induction k as [|k IH]; intros i r lines r'; cbn [generate_txs].
  { intros [= <- <-]. split; [done|]. exists []. by split; constructor. }
  intros ([[line r1]|] & E & F)%outcome_bind_Ret; [|done]. apply outcome_bind_Ret in F as ([[rest r2]|] & Er & F); [|done].
  cbn in F. simplify_eq. apply (generateRandomTx_spec _ _ _ _ _ _ _ Hwf) in E as (p & Hp & Hr).
  destruct (IH _ _ _ _ Er) as (Hlen & ps & Hps & Hall). split; [by cbn; rewrite Hlen|]. exists (p :: ps). by split; constructor.
Qed.

(** Adding transactions to a mempool in order, all accepted. *)
Definition feed (m : M) (txs : list bytes) : outcome (M * bool) :=
  foldM (λ mb txBz, '(m', ok) ← AddTx (fst mb) txBz; Ret (m', snd mb && ok)) txs (m, true).
Definition local_txs (chain : string) (ps : list (bytes * TransferTx)) : list bytes :=
  map fst (filter (λ p, Shards (snd p) = [chain]) ps).
Definition cross_txs (chain : string) (ps : list (bytes * TransferTx)) : list bytes :=
  map fst (filter (λ p, chain ∈ Shards (snd p) ∧ 1 < zlen (Shards (snd p))) ps).
Definition foreign_txs (chain : string) (ps : list (bytes * TransferTx)) : list (bytes * TransferTx) :=
  filter (λ p, chain ∉ Shards (snd p)) ps.

Lemma feed_false txs : ∀ m m', foldM (λ mb txBz, '(m', ok) ← AddTx (fst mb) txBz; Ret (m', snd mb && ok)) txs (m, false) ≠ Ret (m', true).
Proof.
  induction txs as [|tx txs IH]; intros m m'; cbn [foldM fst snd]; [done|].
  destruct (AddTx m tx) as [[m1 ok]|]; cbn [mbind outcome_bind]; [|done]. apply IH.
Qed.
Lemma feed_cons m tx txs m' : feed m (tx :: txs) = Ret (m', true) → ∃ m1, AddTx m tx = Ret (m1, true) ∧ feed m1 txs = Ret (m', true).
Proof.
  unfold feed. cbn [foldM fst snd]. destruct (AddTx m tx) as [[m1 [|]]|]; cbn [mbind outcome_bind andb]; [eauto| |done].
  by intros ?%feed_false.
Qed.
(** Where the transaction of a shard goes. *)
Lemma import_tx_cases chain (p : bytes * TransferTx) st :
  (Shards (snd p) = [chain] ∧ (∀ m, AddTx (is_pool st) (fst p) = Ret (m, true) →
     import_tx chain (snd p) (fst p) st = Ret ({| is_pool := m; is_cross := is_cross st; useless := useless st |}, None))) ∨
  (chain ∈ Shards (snd p) ∧ 1 < zlen (Shards (snd p)) ∧ (∀ m, AddTx (is_cross st) (fst p) = Ret (m, true) →
     import_tx chain (snd p) (fst p) st = Ret ({| is_pool := is_pool st; is_cross := m; useless := useless st |}, None))) ∨
  ((chain ∉ Shards (snd p)) ∧
     import_tx chain (snd p) (fst p) st = Ret ({| is_pool := is_pool st; is_cross := is_cross st; useless := useless st + 1 |}, None)).
Proof.
  unfold import_tx. destruct (StrIn chain (Shards (snd p))) eqn:Ein.
  2:{ right; right. split; [|done]. rewrite <- StrIn_spec. by rewrite Ein. }
  apply StrIn_spec in Ein. destruct (Shards (snd p)) as [|s [|s' rest]]; [by apply elem_of_nil in Ein| |].
  - left. apply list_elem_of_singleton in Ein as ->. split; [done|]. by intros m ->.
  - right; left. split; [done|]. rewrite !zlen_cons in *. pose proof (zlen_nonneg rest). split; [lia|].
    intros m E. destruct (Z.eqb_spec (1 + (1 + zlen rest)) 1); [lia|]. cbn [mbind outcome_bind].
    destruct (Z.ltb_spec 1 (1 + (1 + zlen rest))); [|lia]. by rewrite E.
Qed.
Lemma import_lines_spec chain interval : interval ≠ 0 → ∀ lines ps st m c, Forall2 line_holds lines ps →
  feed (is_pool st) (local_txs chain ps) = Ret (m, true) → feed (is_cross st) (cross_txs chain ps) = Ret (c, true) →
  import_lines chain interval lines st =
    Ret ({| is_pool := m; is_cross := c; useless := useless st + zlen (foreign_txs chain ps) |}, None).
Proof.
  intros Hi lines ps st m c Hl. revert st. induction Hl as [|line p lines ps [Hd Hp] Hl IH]; intros st Hm Hc.
  { cbn in Hm, Hc |- *. simplify_eq. rewrite Z.add_0_r. by destruct st. }
  cbn [import_lines]. rewrite Hd, Hp. cbn [mbind outcome_bind].
  unfold local_txs, cross_txs, foreign_txs in *. rewrite !filter_cons in *.
  destruct (import_tx_cases chain p st) as [[Hs E]|[(Hin & Hgt & E)|[Hn E]]].
  - rewrite (decide_True _ _ Hs) in Hm. rewrite decide_False in Hc by (rewrite Hs; unfold zlen; cbn; lia).
    destruct (decide (chain ∉ Shards (snd p))) as [Hx|_]; [destruct Hx; rewrite Hs; by left|].
    apply feed_cons in Hm as (m1 & Em & Hm). rewrite (E m1 Em). cbn [mbind outcome_bind]. rewrite (proj2 (Z.eqb_neq _ _) Hi). by erewrite IH by done.
  - rewrite decide_False in Hm by (intros Hs; rewrite Hs in Hgt; unfold zlen in Hgt; cbn in Hgt; lia). rewrite decide_True in Hc by done.
    destruct (decide (chain ∉ Shards (snd p))) as [Hx|_]; [by destruct Hx|].
    apply feed_cons in Hc as (m1 & Em & Hc). rewrite (E m1 Em). cbn [mbind outcome_bind]. rewrite (proj2 (Z.eqb_neq _ _) Hi). by erewrite IH by done.
  - rewrite decide_False in Hm by (intros Hs; apply Hn; rewrite Hs; by left). rewrite decide_False in Hc by tauto.
    destruct (decide (chain ∉ Shards (snd p))) as [_|Hx]; [|by destruct Hx]. rewrite E. cbn [mbind outcome_bind]. rewrite (proj2 (Z.eqb_neq _ _) Hi). erewrite IH by done. cbn [useless].
    rewrite zlen_cons. do 3 f_equal. lia.
Qed.

(** C33. A generated file and its import.  Every line of what the generator writes
    is a well-formed transfer: its accounts are distinct, its amounts valid,
    and it names exactly the shards that own one of its accounts, in order.
    An enabled importer given ten lines or more puts the transactions of its
    own shard alone into the mempool and those it shares with other shards
    into the cross-shard mempool, in the order of the file, and counts the
    rest. *)
Theorem generated_file_routed (k fuel r r' : nat) (rls : gmap string RangeList) (prefixes lines : list string)
    (Hwf : map_Forall (λ _ rl, rl_wf rl) rls)
    (Hgen : generate_txs k fuel rls prefixes 0 r = Ret (Some (lines, r'))) (Hk : (10 ≤ k)%nat) :
  length lines = k ∧ ∃ ps, Forall2 line_holds lines ps ∧ Forall (λ p, random_transfer rls (snd p)) ps ∧
  ∀ im m c, enabled im = true →
    feed (mempool im) (local_txs (myChain im) ps) = Ret (m, true) →
    feed (cross_shard_mempool im) (cross_txs (myChain im) ps) = Ret (c, true) →
    Importor_Start im (Some lines) =
      Ret ({| is_pool := m; is_cross := c; useless := zlen (foreign_txs (myChain im) ps) |}, None).
Proof using Hrand Hmarshal.
  destruct (generate_txs_spec fuel rls prefixes Hwf k 0 r lines r' Hgen) as (Hlen & ps & Hps & Hall).
  split; [done|]. exists ps. split; [done|]. split; [done|]. intros im m c Hen Hm Hc. unfold Importor_Start. rewrite Hen. cbn [negb].
  assert (1 ≤ length lines / 10)%nat by (apply Nat.div_le_lower_bound; lia).
  erewrite (import_lines_spec (myChain im) (Z.of_nat (length lines / 10)) ltac:(lia) lines ps) by done. done.
Qed.

(** A file of one to nine lines makes the importer panic after its first
    transaction: the interval between two messages is zero. *)
Theorem short_file_panics (im : Importor) (line : string) (lines : list string) (p : bytes * TransferTx) (st : import_state)
    (Hen : enabled im = true) (Hlen : (length lines < 9)%nat) (Hp : line_holds line p)
    (Htx : import_tx (myChain im) (snd p) (fst p) {| is_pool := mempool im; is_cross := cross_shard_mempool im; useless := 0 |} = Ret (st, None)) :
  Importor_Start im (Some (line :: lines)) = Panic.
Proof.
  unfold Importor_Start. rewrite Hen. cbn [negb]. rewrite (Nat.div_small (length (line :: lines)) 10) by (cbn; lia).
  cbn [import_lines]. destruct Hp as [-> Hp]. rewrite Hp. cbn [mbind outcome_bind]. by rewrite Htx.
Qed.
End Urd.
