(* ===== verification/NodeConfig.v ===== *)
(** * Configurations of the nodes

    Models [source/urd/main/config.go]: a network description (how many nodes an
    address may host, how many validators a shard has, which keys it owns)
    becomes addresses, keys, the table of shards and one configuration per node.
    The key ranges are read and a generator of transactions is made from them,
    as in [Importer]; the files of the nodes are listed with what is written to
    them.  The Pyramid generator ([source/pyramid/main/config.go]) assigns
    addresses and peers in the same way.  The secret keys drawn, the random
    numbers and the order in which maps are visited are parameters; reading the
    description and the failures of the file system are left out. *)

From stdpp Require Import base list gmap strings numbers pretty sorting.
From Stdlib Require Import ZArith Lia.
From S2P Require Import Prelude Convert BitVector Hash Signer Bank BankTheorems Importer RangeList RangeTree Receipt ShardInfo Network.

(** ** The network description *)

Record ShardEntry := { seChainID : string; sePeerNum : Z; seKeyRange : string }.
Record ShardConfig := { IPInUse : gmap string Z; scShards : list ShardEntry }.

(** ** The roulette wheel of addresses *)

Definition firstPort : Z := 26601.
Definition sorted_IPs (IPInUse : gmap string Z) : list string := sort_Strings (map fst (map_to_list IPInUse)).
Definition maxCounter (IPInUse : gmap string Z) : Z :=
  foldl (λ m kv, if m <? snd kv then snd kv else m) (-1) (map_to_list IPInUse).
(** An address is on the wheel as often as it may be used. *)
Definition IPGun (IPInUse : gmap string Z) : list string :=
  i ← seqZ 0 (maxCounter IPInUse);
  List.filter (λ ip, i <? default 0 (IPInUse !! ip)) (sorted_IPs IPInUse).
(** The place on the wheel and the next port of every address. *)
Record wheel := { IPGunPointer : Z; IPPortToUse : gmap string Z }.
Definition new_wheel (IPInUse : gmap string Z) : wheel := {| IPGunPointer := 0; IPPortToUse := (λ _, firstPort) <$> IPInUse |}.
Definition GetIP (gun : list string) (w : wheel) : outcome (wheel * (string * Z)) :=
  let p := if IPGunPointer w =? zlen gun then 0 else IPGunPointer w in
  theip ← idx gun p;
  let theport := default 0 (IPPortToUse w !! theip) in
  Ret ({| IPGunPointer := p + 1; IPPortToUse := <[theip := theport + 1]> (IPPortToUse w) |}, (theip, theport)).
Fixpoint assign (n : nat) (gun : list string) (w : wheel) : outcome (list (string * Z)) :=
  match n with
  | O => Ret []
  | Datatypes.S n =>
      '(w, a) ← GetIP gun w;
      l ← assign n gun w;
      Ret (a :: l)
  end.

(** ** Peers and configurations *)

Record Config := {
  NodeName : string; DirRoot : string; ChainID : string; LocalIP : string; LocalPort : Z;
  Protocal : string; MinBlockInterval : string; MaxPartSize : Z; MaxBlockTxBytes : Z; MaxBlockCrossShardTxBytes : Z;
  SignerIndex : Z; IsLeader : bool; ABCIApp : string
}.
Definition totalNodes (shards : list ShardEntry) : Z := foldl (λ n si, n + sePeerNum si) 0 shards.
(** The nested loops over shards and their validators: [count] is the place in
    the list. *)
Definition nodes (shards : list ShardEntry) : list (ShardEntry * Z) := si ← shards; (si,.) <$> seqZ 0 (sePeerNum si).
Definition address (ip : string) (port : Z) : string := String.append ip (String (Ascii.ascii_of_nat 58) (pretty port)).

(** [filepath.Join]: the non-empty elements joined by a slash, then [filepath.Clean]:
    empty elements and [.] are dropped, [..] takes back the element before it. *)
Definition path_slash : Ascii.ascii := Ascii.ascii_of_nat 47.
Fixpoint join_path (l : list string) : string :=
  match l with
  | [] => EmptyString
  | [w] => w
  | w :: ws => String.append w (String path_slash (join_path ws))
  end.
Definition clean_element (rooted : bool) (out : list string) (e : string) : list string :=
  if String.eqb e "" || String.eqb e "." then out
  else if String.eqb e ".." then
    match out with
    | last :: out' => if String.eqb last ".." then ".." :: out else out'
    | [] => if rooted then [] else [".."]
    end
  else e :: out.
Definition Clean (path : string) : string :=
  let rooted := match path with String c _ => Ascii.eqb c path_slash | EmptyString => false end in
  let body := join_path (reverse (foldl (clean_element rooted) [] (split_on path_slash path))) in
  if rooted then String path_slash body else if String.eqb body "" then "." else body.
Definition Join (elems : list string) : string :=
  match List.filter (λ e, negb (String.eqb e "")) elems with
  | [] => EmptyString
  | l => Clean (join_path l)
  end.
Definition node_dir (store_dir ip nodeName : string) : string := Join [store_dir; ip; nodeName].
(** The files of a node. *)
Definition PrivateKeyPath (c : Config) : string := Join [DirRoot c; "config/private_key.txt"].
Definition ShardInfoPath (c : Config) : string := Join [DirRoot c; "config/shard_info.json"].
Definition StoreDirRoot (c : Config) : string := Join [DirRoot c; "database"].
Definition ConfigPath (c : Config) : string := Join [DirRoot c; "config/config.toml"].
Definition ConfigDir (c : Config) : string := Join [DirRoot c; "config"].
Definition DatasetDir (c : Config) : string := Join [DirRoot c; "dataset"].

(** A record per place of a list, from [count] on. *)
Fixpoint make_all {N C} (mk : nat → N → outcome C) (count : nat) (l : list N) : outcome (list C) :=
  match l with
  | [] => Ret []
  | n :: l =>
      c ← mk count n;
      cs ← make_all mk (Datatypes.S count) l;
      Ret (c :: cs)
  end.
Lemma make_all_spec {N C} (mk : nat → N → outcome C) l : ∀ count, (∀ k n, l !! k = Some n → ∃ c, mk (count + k)%nat n = Ret c) →
  ∃ cs, make_all mk count l = Ret cs ∧ length cs = length l ∧ ∀ k c, cs !! k = Some c → ∃ n, l !! k = Some n ∧ mk (count + k)%nat n = Ret c.
Proof.
  induction l as [|n l IH]; intros count Hall; cbn [make_all]; [by exists []|].
  destruct (Hall 0%nat n eq_refl) as [c Ec]. rewrite Nat.add_0_r in Ec. rewrite Ec. cbn [mbind outcome_bind].
  destruct (IH (Datatypes.S count)) as (cs & -> & Hlen & Hcs).
  { intros k n' Hk. replace (Datatypes.S count + k)%nat with (count + Datatypes.S k)%nat by lia. by apply Hall. }
  exists (c :: cs). split; [done|]. split; [by cbn; rewrite Hlen|]. intros [|k] c' Hk; cbn in Hk.
  - simplify_eq. exists n. by rewrite Nat.add_0_r.
  - destruct (Hcs k c' Hk) as (n' & Hn & E). exists n'. split; [done|]. by replace (count + Datatypes.S k)%nat with (Datatypes.S count + k)%nat by lia.
Qed.

Section Generate.
Context {H : HashFn} {B : BLS}.

(** The key pairs: private and public key of every node, an error is a panic.
    (The loop draws a key pair and an address per node.) *)
Definition generate_keys (SetByCSPRNG : nat → SecretKey) (totalNodes : nat) : outcome (list (string * string)) :=
  mapM_out (λ i, match NewBLSKeyPair SetByCSPRNG BaseCurve i with Some kp => Ret kp | None => Panic end) (seq 0 totalNodes).

Context (keyPairs : list (string * string)).
Definition peer_of (addrs : list (string * Z)) (count : nat) (si : ShardEntry) : outcome Peer :=
  '(ip, port) ← idx addrs (Z.of_nat count);
  '(_, publicKey) ← idx keyPairs (Z.of_nat count);
  Ret (NewPeer (address ip port) {[seChainID si := true]} publicKey 1).
Fixpoint make_peers (addrs : list (string * Z)) (count : nat) (l : list (ShardEntry * Z)) (PeerList : gmap string (list Peer))
    : outcome (gmap string (list Peer)) :=
  match l with
  | [] => Ret PeerList
  | (si, _) :: l =>
      peer ← peer_of addrs count si;
      make_peers addrs (Datatypes.S count) l (<[seChainID si := default [] (PeerList !! seChainID si) ++ [peer]]> PeerList)
  end.
Definition keyRangeMap (shards : list ShardEntry) : gmap string string :=
  foldl (λ m si, <[seChainID si := seKeyRange si]> m) ∅ shards.
Definition make_config (store_dir : string) (addrs : list (string * Z)) (count : nat) (n : ShardEntry * Z) : outcome Config :=
  let '(si, i) := n in
  '(ip, port) ← idx addrs (Z.of_nat count);
  let nodeName := String.append "node" (pretty (Z.of_nat count + 1)) in
  Ret {| DirRoot := node_dir store_dir ip nodeName; NodeName := nodeName; ChainID := seChainID si; LocalIP := ip; LocalPort := port;
         Protocal := "tendermint"; MinBlockInterval := "10ms"; MaxPartSize := 200 * 1024; MaxBlockTxBytes := 20 * 1024;
         MaxBlockCrossShardTxBytes := 160 * 1024; SignerIndex := i; IsLeader := i =? 0; ABCIApp := "minibank" |}.
Definition make_configs (store_dir : string) (addrs : list (string * Z)) (count : nat) (l : list (ShardEntry * Z)) : outcome (list Config) :=
  make_all (make_config store_dir addrs) count l.

(** ** Addresses are different *)

Lemma GetIP_spec gun w : gun ≠ [] → 0 ≤ IPGunPointer w ≤ zlen gun →
  ∃ ip w', GetIP gun w = Ret (w', (ip, default 0 (IPPortToUse w !! ip))) ∧ 0 ≤ IPGunPointer w' ≤ zlen gun ∧
    IPPortToUse w' = <[ip := default 0 (IPPortToUse w !! ip) + 1]> (IPPortToUse w).
Proof.
  intros Hg Hp. unfold GetIP. assert (0 < zlen gun) by (destruct gun; [done|]; unfold zlen; cbn; lia).
  set (p := if IPGunPointer w =? zlen gun then 0 else IPGunPointer w).
  assert (0 ≤ p < zlen gun) as Hp' by (subst p; destruct (Z.eqb_spec (IPGunPointer w) (zlen gun)); lia).
  destruct (idx_in_range gun p Hp') as (ip & -> & _). cbn [mbind outcome_bind]. eexists ip, _. split; [done|]. cbn. split; [lia|done].
Qed.
Lemma assign_spec gun n : gun ≠ [] → ∀ w, 0 ≤ IPGunPointer w ≤ zlen gun →
  ∃ l, assign n gun w = Ret l ∧ length l = n ∧ NoDup l ∧ ∀ ip port, (ip, port) ∈ l → default 0 (IPPortToUse w !! ip) ≤ port.
Proof.
  intros Hg. induction n as [|n IH]; intros w Hp; cbn [assign]; [exists []; split_and!; [done..|constructor|by intros ?? ?%elem_of_nil]|].
  destruct (GetIP_spec gun w Hg Hp) as (ip & w' & -> & Hp' & Ew). cbn [mbind outcome_bind].
  destruct (IH w' Hp') as (l & -> & Hl & Hnd & Hge). cbn [mbind outcome_bind]. eexists. split; [done|]. split; [by cbn; rewrite Hl|].
  rewrite Ew in Hge. split.
  - constructor; [|done]. intros Hin. specialize (Hge _ _ Hin). rewrite lookup_insert_eq in Hge. cbn in Hge. lia.
  - intros ip' port [[= -> ->]|Hin]%elem_of_cons; [done|]. specialize (Hge _ _ Hin). destruct (decide (ip' = ip)) as [->|Hne].
    + rewrite lookup_insert_eq in Hge. cbn in Hge. lia.
    + by rewrite lookup_insert_ne in Hge.
Qed.

(** ** No address is overloaded *)

Lemma assign_in_order gun n : ∀ w l, 0 ≤ IPGunPointer w → IPGunPointer w + Z.of_nat n ≤ zlen gun →
  assign n gun w = Ret l → map fst l = take n (drop (Z.to_nat (IPGunPointer w)) gun).
Proof.
  induction n as [|n IH]; intros w l Hp Hn; cbn [assign]; [by intros [= <-]|].
  intros ([w' [ip port]] & Eg & (l' & El & [= <-])%outcome_bind_Ret)%outcome_bind_Ret. unfold GetIP in Eg.
  destruct (Z.eqb_spec (IPGunPointer w) (zlen gun)); [lia|]. apply outcome_bind_Ret in Eg as (x & Ei & [= <- <- <-]).
  apply IH in El; cbn [IPGunPointer] in *; [|lia..]. cbn [map fst]. rewrite El. apply idx_Ret in Ei as [_ Ei].
  rewrite (drop_S _ _ _ Ei). cbn. do 3 f_equal. lia.
Qed.
Definition occurrences (ip : string) (l : list string) : nat := length (List.filter (String.eqb ip) l).
Lemma occurrences_app ip l1 l2 : occurrences ip (l1 ++ l2) = (occurrences ip l1 + occurrences ip l2)%nat.
Proof. unfold occurrences. by rewrite List.filter_app, length_app. Qed.
Lemma occurrences_filter ip (P : string → bool) l : NoDup l → ip ∈ l → occurrences ip (List.filter P l) = if P ip then 1%nat else 0%nat.
Proof.
  unfold occurrences. induction 1 as [|x l Hx Hnd IH]; [by intros ?%elem_of_nil|]. intros Hin.
  assert (∀ l, ip ∉ l → List.filter (String.eqb ip) (List.filter P l) = []) as Hno.
  { clear. induction l as [|y l IH]; intros Hn; [done|]. apply not_elem_of_cons in Hn as [Hne Hn]. cbn. destruct (P y); [|by apply IH]. cbn.
    destruct (String.eqb_spec ip y); [done|by apply IH]. }
  apply elem_of_cons in Hin as [->|Hin]; cbn [List.filter].
  - destruct (P x); cbn [List.filter]; [rewrite String.eqb_refl|]; rewrite Hno by done; done.
  - assert (ip ≠ x) by (by intros ->). destruct (P x); cbn [List.filter]; [|by apply IH]. destruct (String.eqb_spec ip x); [done|by apply IH].
Qed.
Lemma maxCounter_le m ip cap : m !! ip = Some cap → cap ≤ maxCounter m.
Proof.
  intros Hm. apply elem_of_map_to_list in Hm. unfold maxCounter. revert Hm. generalize (map_to_list m). clear m. intros l.
  assert (∀ (l : list (string * Z)) acc, acc ≤ foldl (λ m kv, if m <? snd kv then snd kv else m) acc l) as Hacc.
  { clear. induction l as [|kv l IH]; intros acc; cbn; [lia|]. etrans; [|apply IH]. destruct (Z.ltb_spec acc (snd kv)); lia. }
  generalize (-1). induction l as [|kv l IH]; intros acc; [by intros ?%elem_of_nil|].
  intros [<-|Hin]%elem_of_cons; cbn [foldl]; [|by apply IH]. etrans; [|apply Hacc]. cbn. destruct (Z.ltb_spec acc cap); lia.
Qed.
Lemma IPs_once (m : gmap string Z) ip cap : m !! ip = Some cap → NoDup (sorted_IPs m) ∧ ip ∈ sorted_IPs m.
Proof.
  intros Hm. unfold sorted_IPs. rewrite sort_Strings_perm. split; [apply NoDup_fst_map_to_list|].
  apply list_elem_of_fmap. exists (ip, cap). split; [done|]. by apply elem_of_map_to_list.
Qed.
Lemma IPGun_count m ip cap : m !! ip = Some cap → 0 ≤ cap → Z.of_nat (occurrences ip (IPGun m)) = cap.
Proof.
  intros Hm Hcap. destruct (IPs_once m ip cap Hm) as [Hnd Hin]. pose proof (maxCounter_le m ip cap Hm) as Hle. unfold IPGun.
  assert (∀ n start, 0 ≤ start → Z.of_nat (occurrences ip (seqZ start (Z.of_nat n) ≫= λ i, List.filter (λ ip, i <? default 0 (m !! ip)) (sorted_IPs m))) =
    Z.max 0 (Z.min cap (start + Z.of_nat n) - start)) as Hall.
  { induction n as [|n IH]; intros start Hs; [change (0 = Z.max 0 (Z.min cap (start + 0) - start)); lia|]. rewrite Nat2Z.inj_succ, seqZ_cons by lia. rewrite bind_cons, occurrences_app, occurrences_filter by done.
    rewrite Z.pred_succ, Nat2Z.inj_add, IH by lia. rewrite Hm. cbn [default id]. destruct (Z.ltb_spec start cap); lia. }
  rewrite <- (Z2Nat.id (maxCounter m)) by lia. rewrite Hall by lia. lia.
Qed.

(** The addresses of the nodes: as long as the description offers any, every
    node gets one, no two nodes the same, and while the nodes do not exceed the
    wheel an address is used at most as often as the description allows. *)
Theorem assign_addresses (sc : ShardConfig) (n : nat) (Hany : IPGun (IPInUse sc) ≠ []) :
  ∃ addrs, assign n (IPGun (IPInUse sc)) (new_wheel (IPInUse sc)) = Ret addrs ∧ length addrs = n ∧ NoDup addrs ∧
    ((n ≤ length (IPGun (IPInUse sc)))%nat → ∀ ip cap, IPInUse sc !! ip = Some cap → 0 ≤ cap →
       Z.of_nat (occurrences ip (map fst addrs)) ≤ cap).
Proof.
  destruct (assign_spec (IPGun (IPInUse sc)) n Hany (new_wheel (IPInUse sc))) as (addrs & E & Hl & Hnd & _).
  { cbn. pose proof (zlen_nonneg (IPGun (IPInUse sc))). lia. }
  exists addrs. split_and!; [done..|]. intros Hn ip cap Hip Hcap. apply assign_in_order in E; [|cbn; unfold zlen; lia..]. rewrite E. cbn [new_wheel IPGunPointer].
  pose proof (IPGun_count (IPInUse sc) ip cap Hip Hcap) as Hc. rewrite <- (take_drop n (IPGun (IPInUse sc))), occurrences_app in Hc.
  change (Z.to_nat 0) with O. rewrite drop_0. lia.
Qed.

(** ** Every node finds itself in the table of shards *)

Lemma filter_place {A} (P : A → bool) l k x : l !! k = Some x → P x = true → List.filter P l !! length (List.filter P (take k l)) = Some x.
Proof.
  revert k. induction l as [|y l IH]; intros k Hk Hx; [done|]. destruct k as [|k]; cbn in Hk.
  - simplify_eq. cbn. by rewrite Hx.
  - cbn. destruct (P y); cbn; by apply IH.
Qed.
Definition in_shard (c : string) (n : ShardEntry * Z) : bool := String.eqb (seChainID (fst n)) c.
Lemma nodes_cons si shards : nodes (si :: shards) = ((si,.) <$> seqZ 0 (sePeerNum si)) ++ nodes shards.
Proof. done. Qed.
Lemma nodes_elem shards si i : (si, i) ∈ nodes shards → si ∈ shards.
Proof. intros (s & (j & [= -> ->] & _)%list_elem_of_fmap & Hs)%list_elem_of_bind. done. Qed.
Lemma block_own si c l : seChainID si = c → List.filter (in_shard c) ((si,.) <$> l : list (ShardEntry * Z)) = ((si,.) <$> l).
Proof. intros <-. induction l as [|i l IH]; [done|]. cbn. unfold in_shard at 1. cbn. by rewrite String.eqb_refl, IH. Qed.
Lemma block_other si c l : seChainID si ≠ c → List.filter (in_shard c) ((si,.) <$> l : list (ShardEntry * Z)) = [].
Proof. intros Hne. induction l as [|i l IH]; [done|]. cbn. unfold in_shard at 1. cbn. by destruct (String.eqb_spec (seChainID si) c). Qed.
Lemma nodes_rank shards : NoDup (map seChainID shards) → ∀ k si i, nodes shards !! k = Some (si, i) →
  length (List.filter (in_shard (seChainID si)) (take k (nodes shards))) = Z.to_nat i ∧ 0 ≤ i < sePeerNum si.
Proof.
  induction shards as [|s shards IH]; [done|]. cbn [map]. intros [Hs Hnd]%NoDup_cons k si i. rewrite nodes_cons. set (blk := (s,.) <$> seqZ 0 (sePeerNum s)).
  destruct (decide (k < length blk)%nat) as [Hk|Hk].
  - rewrite lookup_app_l by done. unfold blk in *. rewrite length_fmap, length_seqZ in Hk.
    rewrite list_lookup_fmap, lookup_seqZ_lt by lia. cbn. intros [= <- <-]. rewrite take_app_le by (rewrite length_fmap, length_seqZ; lia).
    rewrite <- fmap_take, block_own by done. rewrite length_fmap, length_take, length_seqZ. lia.
  - rewrite lookup_app_r by lia. intros Hl. destruct (IH Hnd _ _ _ Hl) as [IH1 IH2].
    assert (seChainID s ≠ seChainID si) as Hne.
    { intros E. apply Hs. rewrite E. apply list_elem_of_fmap_2. by eapply nodes_elem, list_elem_of_lookup_2. }
    rewrite take_app_ge by lia. rewrite List.filter_app. unfold blk at 1. rewrite block_other by done. done.
Qed.
Lemma totalNodes_length shards : Forall (λ si, 0 ≤ sePeerNum si) shards → totalNodes shards = zlen (nodes shards).
Proof.
  intros Hall. unfold totalNodes. assert (∀ n, foldl (λ n si, n + sePeerNum si) n shards = n + zlen (nodes shards)) as Hn; [|by rewrite Hn].
  induction Hall as [|si shards Hp _ IH]; intros n; [cbn; unfold zlen; cbn; lia|]. cbn [foldl]. rewrite IH, nodes_cons, zlen_app.
  assert (zlen ((si,.) <$> seqZ 0 (sePeerNum si)) = sePeerNum si) as -> by (unfold zlen; rewrite length_fmap, length_seqZ; lia). lia.
Qed.

(** The peer made of the node at a place. *)
Definition peer_at (addrs : list (string * Z)) (count : nat) (si : ShardEntry) : Peer :=
  let '(ip, port) := default (EmptyString, 0) (addrs !! count) in
  NewPeer (address ip port) {[seChainID si := true]} (snd (default (EmptyString, EmptyString) (keyPairs !! count))) 1.
Definition peers_of (addrs : list (string * Z)) (count : nat) (c : string) (l : list (ShardEntry * Z)) : list Peer :=
  map (λ x, peer_at addrs (fst x) (fst (snd x))) (List.filter (λ x, in_shard c (snd x)) (zip (seq count (length l)) l)).
Lemma idx_nat {A} (l : list A) k : (k < length l)%nat → ∃ x, idx l (Z.of_nat k) = Ret x ∧ l !! k = Some x.
Proof. intros Hk. destruct (idx_in_range l (Z.of_nat k)) as (x & E & Hx); [unfold zlen; lia|]. rewrite Nat2Z.id in Hx. eauto. Qed.
Lemma make_peers_spec addrs l : ∀ count m, (count + length l ≤ length addrs)%nat → (count + length l ≤ length keyPairs)%nat →
  ∃ m', make_peers addrs count l m = Ret m' ∧ ∀ c, default [] (m' !! c) = default [] (m !! c) ++ peers_of addrs count c l.
Proof.
  induction l as [|[si i] l IH]; intros count m Hl Hk; cbn [make_peers].
  { exists m. split; [done|]. intros c. cbn. by rewrite app_nil_r. }
  cbn [length] in Hl, Hk. unfold peer_of. destruct (idx_nat addrs count) as ([ip port] & -> & Ea); [lia|]. cbn [mbind outcome_bind].
  destruct (idx_nat keyPairs count) as ([priv pub] & -> & Ekp); [lia|]. cbn [mbind outcome_bind].
  destruct (IH (Datatypes.S count) (<[seChainID si := default [] (m !! seChainID si) ++
    [NewPeer (address ip port) {[seChainID si := true]} pub 1]]> m)) as (m' & -> & Hm); [lia..|].
  exists m'. split; [done|]. intros c. rewrite Hm. unfold peers_of. cbn [length seq zip_with List.filter snd]. unfold in_shard at 2. cbn [fst].
  destruct (String.eqb_spec (seChainID si) c) as [<-|Hne].
  - rewrite lookup_insert_eq. cbn [default id map fst snd]. unfold peer_at at 2. rewrite Ea, Ekp. cbn [default id snd]. by rewrite <- (assoc_L (++)).
  - by rewrite lookup_insert_ne.
Qed.
Lemma peers_of_place addrs l k si i c : l !! k = Some (si, i) → seChainID si = c →
  peers_of addrs 0 c l !! length (List.filter (in_shard c) (take k l)) = Some (peer_at addrs k si).
Proof.
  intros Hk Hc. unfold peers_of. rewrite list_lookup_fmap. pose proof (lookup_lt_Some _ _ _ Hk) as Hlt.
  assert (zip (seq 0 (length l)) l !! k = Some (k, (si, i))) as Hz.
  { rewrite lookup_zip_with, lookup_seq_lt by done. cbn. by rewrite Hk. }
  assert (length (List.filter (in_shard c) (take k l)) = length (List.filter (λ x : nat * (ShardEntry * Z), in_shard c (snd x)) (take k (zip (seq 0 (length l)) l)))) as ->.
  { rewrite <- (snd_zip (seq 0 (length l)) l) at 1 by (by rewrite length_seq). rewrite <- fmap_take.
    generalize (take k (zip (seq 0 (length l)) l)). intros z. induction z as [|x z IH]; [done|]. cbn. destruct (in_shard c (snd x)); cbn; by rewrite IH. }
  rewrite (filter_place (λ x : nat * (ShardEntry * Z), in_shard c (snd x)) _ k (k, (si, i)) Hz); [done|]. cbn. unfold in_shard. cbn. by apply String.eqb_eq.
Qed.
Lemma make_configs_spec dir addrs l : (length l ≤ length addrs)%nat →
  ∃ cs, make_configs dir addrs 0 l = Ret cs ∧ length cs = length l ∧ ∀ k c, cs !! k = Some c → ∃ n, l !! k = Some n ∧
    make_config dir addrs k n = Ret c.
Proof.
  intros Hl. apply (make_all_spec (make_config dir addrs) l 0). intros k [si i] Hk%lookup_lt_Some. unfold make_config.
  destruct (idx_nat addrs k) as ([ip port] & E & _); [lia|]. cbn [Nat.add]. rewrite E. by eexists.
Qed.

(** ** Its keys belong together *)

Lemma verifier_keys_spec strs : (∀ s, s ∈ strs → is_Some (pk_deserialize s)) →
  ∃ ks, verifier_keys strs = Some ks ∧ length ks = length strs ∧ ∀ i s, strs !! i = Some s → ks !! i = Some (pk_deserialize s).
Proof.
  induction strs as [|s strs IH]; intros Hall; cbn [verifier_keys]; [by exists []|].
  destruct (Hall s) as [key Hkey]; [by left|]. rewrite Hkey.
  destruct IH as (ks & -> & Hl & Hi); [intros; apply Hall; by right|]. cbn. eexists. split; [done|]. split; [by cbn; rewrite Hl|].
  intros [|i] s'; cbn; [intros [= <-]; by rewrite Hkey|apply Hi].
Qed.
(** Both strings of every pair can be read, and the public key is the one of the
    private key. *)
Definition keys_paired : Prop :=
  ∀ i kp, keyPairs !! i = Some kp → ∃ sk, sk_deserialize (fst kp) = Some sk ∧ pk_deserialize (snd kp) = Some (GetPublicKey sk).
Lemma peers_of_keys addrs c l s : keys_paired → (length l ≤ length keyPairs)%nat → s ∈ map Pubkey (peers_of addrs 0 c l) → is_Some (pk_deserialize s).
Proof.
  intros Hk Hl. unfold peers_of. rewrite map_map. intros ([i [si j]] & -> & Hin)%list_elem_of_fmap. cbn [fst snd]. unfold peer_at.
  apply list_elem_of_In, List.filter_In in Hin as [Hin _]. apply list_elem_of_In, elem_of_zip_l, elem_of_seq in Hin.
  destruct (lookup_lt_is_Some_2 keyPairs i) as [kp Hkp]; [lia|]. rewrite Hkp.
  destruct (default _ (addrs !! i)) as [ip port]. cbn. destruct (Hk i kp Hkp) as (sk & _ & ->). by eexists.
Qed.
Lemma range_of_ext {A A'} (m : gmap string A) (m' : gmap string A') ids :
  (∀ c, is_Some (m !! c) ↔ is_Some (m' !! c)) → range_of m ids → range_of m' ids.
Proof.
  intros He Hr. apply NoDup_Permutation; [by eapply range_NoDup|apply NoDup_fst_map_to_list|].
  intros c. rewrite (range_elem m ids c Hr), He. symmetry. apply range_elem. unfold range_of. reflexivity.
Qed.
Lemma NewShardInfo_spec ids peers leader ranges : range_of peers ids →
  (∀ c l s, peers !! c = Some l → s ∈ map Pubkey l → is_Some (pk_deserialize s)) →
  ∃ si, NewShardInfo ids peers leader ranges = Ret si ∧ (∀ c l, peers !! c = Some l → ∃ shard ks,
    Shards si !! c = Some shard ∧ PeerList shard = l ∧ LeaderIndex shard = leader ∧ KeyRange shard = default EmptyString (ranges !! c) ∧
    verifier shard = Some {| publicKeys := ks |} ∧ length ks = length l ∧ ∀ i p, l !! i = Some p → ks !! i = Some (pk_deserialize (Pubkey p))) ∧
    ∀ c, peers !! c = None → Shards si !! c = None.
Proof.
  intros Hr Hk. unfold NewShardInfo. set (shards := map_imap _ peers).
  assert (range_of shards ids) as Hr'.
  { eapply range_of_ext, Hr. intros c. unfold shards. rewrite map_lookup_imap. destruct (peers !! c); cbn; split; intros [? E]; done || by eexists. }
  assert (∀ c l, peers !! c = Some l → ∃ ks, verifier_keys (map Pubkey l) = Some ks ∧ length ks = length l ∧
    ∀ i p, l !! i = Some p → ks !! i = Some (pk_deserialize (Pubkey p))) as Hks.
  { intros c l Hc. destruct (verifier_keys_spec (map Pubkey l)) as (ks & E & Hl & Hi); [intros s; by apply (Hk c)|].
    exists ks. rewrite length_map in Hl. split_and!; [done..|]. intros i p Hp. apply Hi. by rewrite list_lookup_fmap, Hp. }
  destruct (init_spec ids {| Shards := shards; ShardIDList := [] |} Hr') as [-> _].
  - eexists. split; [done|]. split; [|intros c Hc; cbn [Shards]; unfold verified, shards; by rewrite !map_lookup_imap, Hc].
    intros c l Hc. destruct (Hks c l Hc) as (ks & Ek & Hl & Hi). cbn [Shards]. unfold verified, shards.
    rewrite !map_lookup_imap, Hc. cbn [mbind option_bind]. rewrite decide_True by (rewrite (range_elem _ _ _ Hr); by eexists).
    unfold generateVerifier, NewVerifier. cbn [PeerList]. rewrite Ek. cbn. by eexists _, ks.
  - intros c shard. cbn [Shards]. unfold shards. rewrite map_lookup_imap. destruct (peers !! c) as [l|] eqn:Hc; [|done]. cbn. intros [= <-].
    destruct (Hks c l Hc) as (ks & Ek & _). unfold generateVerifier, NewVerifier. cbn [PeerList]. rewrite Ek. by eexists.
Qed.
Lemma own_key_verifies ks key sk s msg (i : Z) : 0 ≤ i → ks !! Z.to_nat i = Some (Some (GetPublicKey sk)) → NewSigner key = Some s →
  sk_deserialize key = Some sk → Verify {| publicKeys := ks |} (Signer_Sign s msg) msg i = Ret true.
Proof.
  intros Hi Hk Hs Hd. unfold NewSigner in Hs. rewrite Hd in Hs. injection Hs as <-. unfold Verify. cbn [publicKeys].
  pose proof (lookup_lt_Some _ _ _ Hk). destruct (Z.leb_spec (zlen ks) i) as [Hz|Hz]; [unfold zlen in Hz; lia|].
  destruct (idx_in_range ks i) as (x & -> & Hx); [lia|]. rewrite Hx in Hk. injection Hk as ->. cbn [mbind outcome_bind].
  unfold Signer_Sign. rewrite sig_roundtrip. cbn. by rewrite sign_verifies.
Qed.

(** The configuration of a node at a place. *)
Definition config_at (store_dir : string) (addrs : list (string * Z)) (k : nat) (n : ShardEntry * Z) (c : Config) : Prop :=
  make_config store_dir addrs k n = Ret c ∧ addrs !! k = Some (LocalIP c, LocalPort c) ∧ ChainID c = seChainID (fst n) ∧
  SignerIndex c = snd n ∧ IsLeader c = (snd n =? 0).
Lemma make_config_at store_dir addrs k n c : make_config store_dir addrs k n = Ret c → config_at store_dir addrs k n c.
Proof.
  intros E. split; [done|]. destruct n as [si i]. unfold make_config in E. apply outcome_bind_Ret in E as ([ip port] & Hi & [= <-]).
  apply idx_Ret in Hi as [_ Hi]. by rewrite Nat2Z.id in Hi.
Qed.
(** Addresses and peers of a described network. *)
Lemma assign_peers_spec (ips : gmap string Z) (shards : list ShardEntry) : IPGun ips ≠ [] → Forall (λ si, 0 ≤ sePeerNum si) shards →
  length keyPairs = Z.to_nat (totalNodes shards) →
  ∃ addrs peers, assign (Z.to_nat (totalNodes shards)) (IPGun ips) (new_wheel ips) = Ret addrs ∧ make_peers addrs 0 (nodes shards) ∅ = Ret peers ∧
    NoDup addrs ∧ length addrs = length (nodes shards) ∧ ∀ c, default [] (peers !! c) = peers_of addrs 0 c (nodes shards).
Proof.
  intros Hany Hnum Hkl. pose proof (totalNodes_length _ Hnum) as Ht.
  destruct (assign_spec (IPGun ips) (Z.to_nat (totalNodes shards)) Hany (new_wheel ips)) as (addrs & E & Hl & Hnd & _).
  { cbn. pose proof (zlen_nonneg (IPGun ips)). lia. }
  rewrite Ht in Hl, Hkl. unfold zlen in Hl, Hkl. rewrite Nat2Z.id in Hl, Hkl.
  destruct (make_peers_spec addrs (nodes shards) 0 ∅) as (peers & Ep & Hp); [lia..|]. exists addrs, peers. split_and!; [done..|].
  intros c. by rewrite Hp, lookup_empty.
Qed.
End Generate.

(** ** The generated network *)

(** What is written to a file. *)
Inductive Content :=
| ShardInfoJSON {B : BLS} (shard_info : ShardInfo)
| KeyText (privKey : string)
| ConfigText (cfg : Config)
| DatasetLines (txs : list string).

Section Network.
Context {H : HashFn} {B : BLS} {C : BankCodec}.
(** The secret keys drawn, the order in which the runtime visits a map, and the
    random numbers and the clock of the generator of transactions. *)
Context (SetByCSPRNG : nat → SecretKey) (order : ∀ A, gmap string A → list string).
Context (Intn : nat → Z → Z) (below_ratio : nat → bool) (now : nat → Z * Z).

(** [rls]: the key range of every shard; [None] is a nil pointer. *)
Definition read_range (ranges : gmap string string) (rls : gmap string (option RangeList)) (s : string)
    : outcome (gmap string (option RangeList)) :=
  match ranges !! s with
  | None => Ret rls
  | Some v => rl ← NewRangeListFromString v; Ret (<[s := rl]> rls)
  end.
Definition read_ranges (ranges : gmap string string) : outcome (gmap string (option RangeList)) :=
  foldM (read_range ranges) (order _ ranges) ∅.
(** [NewImportorForGenerator] calls [StartKey] on every range list: a nil
    pointer panics. *)
Definition NewImportorForGenerator (rls : gmap string (option RangeList)) : outcome (Importor (M := unit)) :=
  entries ← mapM_out (λ s, match rls !! s with Some (Some rl) => Ret (s, rl) | _ => Panic end) (order _ rls);
  NewImportor tt tt EmptyString entries true.

Record Network := {
  nwAddrs : list (string * Z); nwKeys : list (string * string); nwShardInfo : ShardInfo; nwConfigs : list Config;
  nwGenerator : Importor (M := unit)
}.
(** Everything up to the generator of the transactions. *)
Definition make_network (sc : ShardConfig) (store_dir : string) : outcome Network :=
  let totalNodes := Z.to_nat (totalNodes (scShards sc)) in
  keyPairs ← generate_keys SetByCSPRNG totalNodes;
  addrs ← assign totalNodes (IPGun (IPInUse sc)) (new_wheel (IPInUse sc));
  PeerList ← make_peers keyPairs addrs 0 (nodes (scShards sc)) ∅;
  shard_info ← NewShardInfo (order _ PeerList) PeerList 0 (keyRangeMap (scShards sc));
  configList ← make_configs store_dir addrs 0 (nodes (scShards sc));
  rls ← read_ranges (keyRangeMap (scShards sc));
  generator ← NewImportorForGenerator rls;
  Ret {| nwAddrs := addrs; nwKeys := keyPairs; nwShardInfo := shard_info; nwConfigs := configList; nwGenerator := generator |}.
(** The files of a node; only a leader gets the transactions. *)
Definition node_files (shard_info : ShardInfo) (txs : list string) (cfg : Config) (privKey : string) : list (string * Content) :=
  [(ShardInfoPath cfg, ShardInfoJSON shard_info); (PrivateKeyPath cfg, KeyText privKey); (ConfigPath cfg, ConfigText cfg)] ++
  (if IsLeader cfg then [(Join [DatasetDir cfg; "dataset.txt"], DatasetLines txs)] else []).
Definition write_files (nw : Network) (txs : list string) : outcome (list (list (string * Content))) :=
  make_all (λ i cfg, '(privKey, _) ← idx (nwKeys nw) (Z.of_nat i); Ret (node_files (nwShardInfo nw) txs cfg privKey)) 0 (nwConfigs nw).
(** The network and the files of every node.  [Ret None]: the generator of the
    transactions is still drawing accounts when the fuel is used up. *)
Definition GenerateConfigFiles (fuel r : nat) (sc : ShardConfig) (store_dir : string)
    : outcome (option (Network * list (list (string * Content)))) :=
  nw ← make_network sc store_dir;
  o ← GenerateTxs Intn below_ratio now fuel (nwGenerator nw) r;
  match o with
  | None => Ret None
  | Some (txs, _) =>
      files ← write_files nw txs;
      Ret (Some (nw, files))
  end.

Lemma mapM_out_exists {A D} (f : A → outcome D) l : (∀ x, x ∈ l → ∃ y, f x = Ret y) → ∃ ys, mapM_out f l = Ret ys.
Proof.
  induction l as [|x l IH]; intros Hall; [by exists []|]. cbn [mapM_out]. destruct (Hall x) as [y ->]; [by left|].
  destruct IH as [ys ->]; [intros; apply Hall; by right|]. by eexists.
Qed.
Lemma generate_keys_spec n : ∃ keyPairs, generate_keys SetByCSPRNG n = Ret keyPairs ∧ length keyPairs = n ∧ keys_paired keyPairs.
Proof.
  unfold generate_keys. destruct (mapM_out_exists (λ i, match NewBLSKeyPair SetByCSPRNG BaseCurve i with Some kp => Ret kp | None => Panic end) (seq 0 n)) as [ks E].
  { intros i _. destruct (NewBLSKeyPair_paired SetByCSPRNG i) as (priv & pub & sk & -> & _). by eexists. }
  exists ks. split; [done|]. apply mapM_out_Ret in E. split; [apply Forall2_length in E; by rewrite length_seq in E|].
  intros i kp Hi. destruct (Forall2_lookup_r _ _ _ _ _ E Hi) as (j & _ & Ej).
  destruct (NewBLSKeyPair_paired SetByCSPRNG j) as (priv & pub & sk & E' & Hs & Hp). rewrite E' in Ej. injection Ej as <-. by exists sk.
Qed.

(** *** Key ranges *)

Lemma keyRangeMap_own shards e : NoDup (map seChainID shards) → e ∈ shards → keyRangeMap shards !! seChainID e = Some (seKeyRange e).
Proof.
  unfold keyRangeMap. assert (∀ c shards (m : gmap string string), c ∉ map seChainID shards →
    foldl (λ m si, <[seChainID si := seKeyRange si]> m) m shards !! c = m !! c) as Hother.
  { intros c. clear. induction shards as [|si shards IH]; intros m; [done|]. cbn [map foldl]. intros [Hne Hn]%not_elem_of_cons.
    rewrite IH by done. by rewrite lookup_insert_ne. }
  generalize (∅ : gmap string string). induction shards as [|si shards IH]; intros m Hnd He; [by apply elem_of_nil in He|].
  cbn [map] in Hnd. apply NoDup_cons in Hnd as [Hn Hnd]. cbn [foldl]. apply elem_of_cons in He as [->|He]; [|by apply IH].
  by rewrite Hother, lookup_insert_eq.
Qed.
Lemma read_ranges_spec ranges : range_of ranges (order _ ranges) →
  ∃ rls, read_ranges ranges = Ret rls ∧
    ∀ c, rls !! c = (λ v, match NewRangeListFromString v with Ret rl => rl | Panic => None end) <$> ranges !! c.
Proof.
  intros Hr. unfold read_ranges. assert (∀ ids m, ∃ rls, foldM (read_range ranges) ids m = Ret rls ∧ ∀ c,
    rls !! c = if decide (c ∈ ids ∧ is_Some (ranges !! c)) then (λ v, match NewRangeListFromString v with Ret rl => rl | Panic => None end) <$> ranges !! c
      else m !! c) as Hall.
  { induction ids as [|s ids IH]; intros m; cbn [foldM].
    { exists m. split; [done|]. intros c. rewrite decide_False; [done|]. by intros [?%elem_of_nil _]. }
    unfold read_range at 1. destruct (ranges !! s) as [v|] eqn:Es.
    - assert (∃ rl, NewRangeListFromString v = Ret rl) as [rl Erl].
      { pose proof (NewRangeListFromString_readable v) as Hv. destruct (readable v); [|by eexists]. destruct Hv as (rl & k & -> & _). by eexists. }
      rewrite Erl. cbn [mbind outcome_bind]. destruct (IH (<[s := rl]> m)) as (rls & -> & Hrls). exists rls. split; [done|]. intros c. rewrite Hrls.
      destruct (decide (c = s)) as [->|Hne].
      + rewrite Es, lookup_insert_eq. cbn. rewrite Erl. rewrite (decide_True (P := s ∈ s :: ids ∧ _)) by (split; [by left|by eexists]). by destruct (decide _).
      + rewrite lookup_insert_ne by done. apply decide_ext. rewrite elem_of_cons. naive_solver.
    - destruct (IH m) as (rls & -> & Hrls). exists rls. split; [done|]. intros c. rewrite Hrls. apply decide_ext. rewrite elem_of_cons.
      split; [tauto|]. intros [[->|?] Hs]; [|done]. rewrite Es in Hs. by destruct Hs. }
  destruct (Hall (order _ ranges) ∅) as (rls & -> & Hrls). exists rls. split; [done|]. intros c. rewrite Hrls.
  destruct (ranges !! c) as [v|] eqn:Ec; [rewrite decide_True; [done|]; split; [apply (range_elem _ _ _ Hr)|]; rewrite ?Ec; by eexists|].
  rewrite decide_False; [done|]. by intros [_ [? ?]].
Qed.
(** Range lists that can be read make a generator that has all of them. *)
Lemma NewImportorForGenerator_spec rls : range_of rls (order _ rls) →
  (∀ c o, rls !! c = Some o → ∃ rl k, o = Some rl ∧ StartKey rl = Ret k) →
  ∃ im, NewImportorForGenerator rls = Ret im ∧ ∀ c, rangeLists im !! c = mjoin (rls !! c).
Proof.
  intros Hr Hall. unfold NewImportorForGenerator.
  destruct (mapM_out_exists (λ s, match rls !! s with Some (Some rl) => Ret (s, rl) | _ => Panic end) (order _ rls)) as [entries Ee].
  { intros s [o Ho]%(range_elem _ _ _ Hr). rewrite Ho. destruct (Hall s o Ho) as (rl & k & -> & _). by eexists. }
  rewrite Ee. cbn [mbind outcome_bind]. apply mapM_out_Ret in Ee.
  assert (entries.*1 = order _ rls ∧ ∀ s rl, (s, rl) ∈ entries → rls !! s = Some (Some rl)) as [Hids Hin].
  { revert Ee. generalize (order _ rls). intros ids. induction 1 as [|s [s' rl] ids es Hs _ IH]; [split; [done|]; by intros ?? ?%elem_of_nil|].
    destruct (rls !! s) as [[rl'|]|] eqn:Es; [|done..]. injection Hs as <- <-. destruct IH as [<- IH]. split; [done|].
    intros s' rl0 [[= -> ->]|Hx]%elem_of_cons; [done|by apply IH]. }
  unfold NewImportor. destruct (mapM_out_exists (λ kv : string * RangeList, StartKey (snd kv)) entries) as [prefixes ->].
  { intros [s rl] Hs. destruct (Hall s _ (Hin s rl Hs)) as (rl' & k & [= <-] & E). by exists k. }
  cbn [mbind outcome_bind]. eexists. split; [done|]. intros c. cbn [rangeLists].
  assert (NoDup entries.*1) as Hnd by (rewrite Hids; by eapply range_NoDup).
  destruct (list_to_map entries !! c) as [rl|] eqn:El.
  - apply elem_of_list_to_map in El; [|done]. by rewrite (Hin c rl El).
  - apply not_elem_of_list_to_map in El. rewrite Hids in El. destruct (rls !! c) as [o|] eqn:Ec; [|done].
    destruct El. apply (range_elem _ _ _ Hr). rewrite Ec. by eexists.
Qed.
Lemma keyRangeMap_value shards c v : keyRangeMap shards !! c = Some v → ∃ si, si ∈ shards ∧ seKeyRange si = v.
Proof.
  unfold keyRangeMap. assert (∀ m : gmap string string, foldl (λ m si, <[seChainID si := seKeyRange si]> m) m shards !! c = Some v →
    m !! c = Some v ∨ ∃ si, si ∈ shards ∧ seKeyRange si = v) as Hm; [|intros E; by destruct (Hm ∅ E)].
  induction shards as [|si shards IH]; intros m; cbn [foldl]; [by left|]. intros [Hi|(e & He & Hv)]%IH; [|right; exists e; split; [by right|done]].
  destruct (decide (seChainID si = c)) as [<-|Hne]; [rewrite lookup_insert_eq in Hi; simplify_eq; right; exists si; split; [by left|done]|].
  rewrite lookup_insert_ne in Hi by done. by left.
Qed.

(** What is generated before the transactions. *)
Lemma make_network_spec (sc : ShardConfig) (store_dir : string) : IPGun (IPInUse sc) ≠ [] →
  Forall (λ si, 0 ≤ sePeerNum si ∧ readable (seKeyRange si) = true) (scShards sc) → (∀ A (m : gmap string A), range_of m (order A m)) →
  ∃ nw, make_network sc store_dir = Ret nw ∧ NoDup (nwAddrs nw) ∧ keys_paired (nwKeys nw) ∧
    length (nwKeys nw) = length (nodes (scShards sc)) ∧
    length (nwAddrs nw) = length (nodes (scShards sc)) ∧ length (nwConfigs nw) = length (nodes (scShards sc)) ∧
    (∀ k c, nwConfigs nw !! k = Some c → ∃ n, nodes (scShards sc) !! k = Some n ∧ config_at store_dir (nwAddrs nw) k n c) ∧
    (∀ c shard, Shards (nwShardInfo nw) !! c = Some shard → PeerList shard = peers_of (nwKeys nw) (nwAddrs nw) 0 c (nodes (scShards sc))) ∧
    (∀ c, peers_of (nwKeys nw) (nwAddrs nw) 0 c (nodes (scShards sc)) ≠ [] → ∃ shard ks, Shards (nwShardInfo nw) !! c = Some shard ∧
       LeaderIndex shard = 0 ∧ verifier shard = Some {| publicKeys := ks |} ∧
       ∀ i p, peers_of (nwKeys nw) (nwAddrs nw) 0 c (nodes (scShards sc)) !! i = Some p → ks !! i = Some (pk_deserialize (Pubkey p))) ∧
    (∀ c, rangeLists (nwGenerator nw) !! c =
       keyRangeMap (scShards sc) !! c ≫= λ v, match NewRangeListFromString v with Ret rl => rl | Panic => None end).
Proof.
  intros Hany [Hnum Hread]%Forall_and Horder. unfold make_network.
  destruct (generate_keys_spec (Z.to_nat (totalNodes (scShards sc)))) as (keyPairs & -> & Hkl & Hkeys). cbn [mbind outcome_bind].
  destruct (assign_peers_spec keyPairs (IPInUse sc) (scShards sc) Hany Hnum Hkl) as (addrs & peers & -> & E & Hnd & Hl & Hp). cbn [mbind outcome_bind].
  rewrite E. cbn [mbind outcome_bind]. rewrite totalNodes_length in Hkl by done. unfold zlen in Hkl. rewrite Nat2Z.id in Hkl.
  assert (∀ c l, peers !! c = Some l → l = peers_of keyPairs addrs 0 c (nodes (scShards sc))) as Hl' by (intros c l Hc; specialize (Hp c); by rewrite Hc in Hp).
  destruct (NewShardInfo_spec (order _ peers) peers 0 (keyRangeMap (scShards sc)) (Horder _ peers)) as (si & -> & Hsi & Hno).
  { intros c l s ->%Hl'. apply peers_of_keys; [done|lia]. }
  cbn [mbind outcome_bind].
  destruct (make_configs_spec store_dir addrs (nodes (scShards sc))) as (configs & -> & Hlen & Hc); [lia|]. cbn [mbind outcome_bind].
  destruct (read_ranges_spec (keyRangeMap (scShards sc)) (Horder _ _)) as (rls & -> & Hrls). cbn [mbind outcome_bind].
  destruct (NewImportorForGenerator_spec rls (Horder _ rls)) as (im & -> & Him).
  { intros c o. rewrite Hrls. intros (v & Hv & ->)%fmap_Some. apply keyRangeMap_value in Hv as (e & He & <-).
    rewrite list.Forall_forall in Hread. pose proof (NewRangeListFromString_readable (seKeyRange e)) as Hr. rewrite (Hread e He) in Hr.
    destruct Hr as (rl & k & -> & _ & Ek). by exists rl, k. }
  cbn [mbind outcome_bind]. eexists. split; [done|]. cbn [nwAddrs nwKeys nwShardInfo nwConfigs nwGenerator]. split_and!; [done..| | | |].
  - intros k c Hk. destruct (Hc k c Hk) as (n & Hn & Hmk). exists n. split; [done|]. by apply make_config_at.
  - intros c shard Hs. destruct (peers !! c) as [l|] eqn:El; [|by rewrite Hno in Hs].
    destruct (Hsi _ _ El) as (shard' & ks & Es & EL & _). rewrite Hs in Es. injection Es as <-. rewrite EL. by apply Hl'.
  - intros c Hne. destruct (peers !! c) as [l|] eqn:El; [|specialize (Hp c); by rewrite El in Hp].
    destruct (Hsi _ _ El) as (shard & ks & Es & _ & ELead & _ & Ev & _ & Hks). rewrite (Hl' c l El) in Hks. by exists shard, ks.
  - intros c. rewrite Him, Hrls. by destruct (keyRangeMap (scShards sc) !! c).
Qed.
(** The files of every node follow from the network and the transactions. *)
Lemma write_files_spec nw txs : (length (nwConfigs nw) ≤ length (nwKeys nw))%nat →
  ∃ files, write_files nw txs = Ret files ∧ ∀ k c kp, nwConfigs nw !! k = Some c → nwKeys nw !! k = Some kp →
    files !! k = Some (node_files (nwShardInfo nw) txs c (fst kp)).
Proof.
  intros Hl. unfold write_files.
  destruct (make_all_spec (λ i cfg, '(privKey, _) ← idx (nwKeys nw) (Z.of_nat i); Ret (node_files (nwShardInfo nw) txs cfg privKey)) (nwConfigs nw) 0)
    as (files & -> & Hlen & Hf).
  { intros k c Hk%lookup_lt_Some. destruct (idx_nat (nwKeys nw) k) as ([priv pub] & E & _); [lia|]. cbn [Nat.add]. rewrite E. by eexists. }
  exists files. split; [done|]. intros k c kp Hc Hkp. destruct (lookup_lt_is_Some_2 files k) as [fs Hfs]; [rewrite Hlen; by eapply lookup_lt_Some|].
  rewrite Hfs. destruct (Hf k fs Hfs) as (c' & Hc' & E). rewrite Hc in Hc'. injection Hc' as <-. cbn [Nat.add] in E.
  destruct (idx_nat (nwKeys nw) k) as (kp' & Ei & Hkp'); [by eapply lookup_lt_Some|]. rewrite Ei in E. rewrite Hkp in Hkp'. injection Hkp' as <-.
  destruct kp. cbn in E. by injection E as <-.
Qed.

(** C40. The generated network is consistent.  From a description that offers an
    address, names every shard once and gives it a key range with an even number
    of bounds, generation gets to the transactions and ends as their generator
    does: with the network and every node's files when it returns.  That
    generator has the key range of every shard.  There is one configuration per
    validator, no two with the same address.  A node finds its own shard in the
    table and in it, at the index it signs with, its own address; the signer
    made of the private key in its file makes signatures the shard verifies at
    that index; it is leader exactly when the table says so, and exactly the
    leaders get the file of transactions. *)
Theorem config_matches_peers (fuel r : nat) (sc : ShardConfig) (store_dir : string) (Hany : IPGun (IPInUse sc) ≠ [])
    (Hids : NoDup (map seChainID (scShards sc)))
    (Hshards : Forall (λ si, 0 ≤ sePeerNum si ∧ readable (seKeyRange si) = true) (scShards sc))
    (Horder : ∀ A (m : gmap string A), range_of m (order A m)) :
  ∃ nw (files : list string → list (list (string * Content))), make_network sc store_dir = Ret nw ∧
    GenerateConfigFiles fuel r sc store_dir =
      (o ← GenerateTxs Intn below_ratio now fuel (nwGenerator nw) r; Ret (option_map (λ tr, (nw, files (fst tr))) o)) ∧
    (∀ e, e ∈ scShards sc → ∃ rl, NewRangeListFromString (seKeyRange e) = Ret (Some rl) ∧
       rangeLists (nwGenerator nw) !! seChainID e = Some rl) ∧
    zlen (nwConfigs nw) = totalNodes (scShards sc) ∧ NoDup (nwAddrs nw) ∧
    ∀ k c, nwConfigs nw !! k = Some c → ∃ shard p s priv,
      nwAddrs nw !! k = Some (LocalIP c, LocalPort c) ∧ Shards (nwShardInfo nw) !! ChainID c = Some shard ∧
      PeerList shard !! Z.to_nat (SignerIndex c) = Some p ∧ ShardInfo.GetIP p = address (LocalIP c) (LocalPort c) ∧
      BelongTo p (ChainID c) = true ∧
      (∀ txs, files txs !! k = Some (node_files (nwShardInfo nw) txs c priv)) ∧ NewSigner priv = Some s ∧
      (∀ msg, Shard_Verify shard (Signer_Sign s msg) msg (SignerIndex c) = Ret true) ∧
      (IsLeader c = true ↔ SignerIndex c = LeaderIndex shard).
Proof.
  destruct (make_network_spec sc store_dir Hany Hshards Horder) as (nw & E & Hnd & Hkeys & Hkl & _ & Hlen & Hc & Hpl & Hv & Hrl).
  exists nw, (λ txs, match write_files nw txs with Ret files => files | Panic => [] end). split; [done|].
  assert (∀ txs, ∃ files, write_files nw txs = Ret files ∧ ∀ k c kp, nwConfigs nw !! k = Some c → nwKeys nw !! k = Some kp →
    files !! k = Some (node_files (nwShardInfo nw) txs c (fst kp))) as Hw by (intros txs; apply write_files_spec; lia).
  split_and!; [| | |done|].
  - unfold GenerateConfigFiles. rewrite E. cbn [mbind outcome_bind]. destruct (GenerateTxs _ _ _ _ _ _) as [[[txs r']|]|]; cbn; [|done..].
    destruct (Hw txs) as (files & -> & _). done.
  - intros e He. rewrite list.Forall_forall in Hshards. pose proof (NewRangeListFromString_readable (seKeyRange e)) as Hr.
    rewrite (proj2 (Hshards e He)) in Hr. destruct Hr as (rl & _ & Er & _). exists rl. split; [done|]. rewrite Hrl, keyRangeMap_own by done. cbn. by rewrite Er.
  - apply Forall_and in Hshards as [Hnum _]. rewrite totalNodes_length by done. unfold zlen. by rewrite Hlen.
  - intros k c Hk. destruct (Hc k c Hk) as ([e i] & Hn & _ & Ha & Hch & Hidx & Hlead). cbn in Hch, Hidx, Hlead.
    destruct (nodes_rank _ Hids k e i Hn) as [Hr Hi0]. pose proof (peers_of_place (nwKeys nw) (nwAddrs nw) _ k e i _ Hn eq_refl) as Hp. rewrite Hr in Hp.
    destruct (Hv (seChainID e)) as (shard & ks & Es & EL & Ev & Hks); [intros Hnil; by rewrite Hnil in Hp|]. specialize (Hks _ _ Hp).
    destruct (lookup_lt_is_Some_2 (nwKeys nw) k) as [kp Hkp]; [rewrite Hkl, <- Hlen; by eapply lookup_lt_Some|].
    destruct (Hkeys k kp Hkp) as (sk & Hsk & Hpk). exists shard, (peer_at (nwKeys nw) (nwAddrs nw) k e), {| privateKey := sk |}, (fst kp).
    assert (NewSigner (fst kp) = Some {| privateKey := sk |}) as Hns by (unfold NewSigner; by rewrite Hsk).
    rewrite Hch, Hidx, Hlead, EL, (Hpl _ _ Es). unfold peer_at in *. rewrite Ha, Hkp in *. cbn [default id] in *. cbn in Hks. rewrite Hpk in Hks.
    split_and!; [done|done|done|done|unfold BelongTo; cbn; by rewrite lookup_singleton_eq| |done| |apply Z.eqb_eq].
    + intros txs. destruct (Hw txs) as (files & -> & Hf). by apply Hf.
    + intros msg. unfold Shard_Verify. rewrite Ev. cbn. eapply own_key_verifies; [lia|exact Hks|exact Hns|done].
Qed.
(** A shard whose key range has an odd number of bounds makes generation panic
    (a nil range list is asked for its start key). *)
Theorem unreadable_range_panics (fuel r : nat) (sc : ShardConfig) (store_dir : string) (e : ShardEntry)
    (Hids : NoDup (map seChainID (scShards sc))) (He : e ∈ scShards sc) (Hodd : readable (seKeyRange e) = false)
    (Horder : ∀ A (m : gmap string A), range_of m (order A m)) :
  GenerateConfigFiles fuel r sc store_dir = Panic.
Proof.
  unfold GenerateConfigFiles. assert (make_network sc store_dir = Panic) as ->; [|done]. unfold make_network.
  destruct (generate_keys _ _); cbn [mbind outcome_bind]; [|done]. destruct (assign _ _ _) as [addrs|]; cbn [mbind outcome_bind]; [|done].
  destruct (make_peers _ _ _ _ _); cbn [mbind outcome_bind]; [|done]. destruct (NewShardInfo _ _ _ _); cbn [mbind outcome_bind]; [|done].
  destruct (make_configs _ _ _ _); cbn [mbind outcome_bind]; [|done].
  destruct (read_ranges_spec (keyRangeMap (scShards sc)) (Horder _ _)) as (rls & -> & Hrls). cbn [mbind outcome_bind].
  assert (rls !! seChainID e = Some None) as Hnil.
  { rewrite Hrls, keyRangeMap_own by done. cbn.
    pose proof (NewRangeListFromString_readable (seKeyRange e)) as Hr. rewrite Hodd in Hr. by rewrite Hr. }
  unfold NewImportorForGenerator. destruct (mapM_out _ (order _ rls)) as [entries|] eqn:Em; [|done]. exfalso.
  apply mapM_out_Ret in Em. assert (seChainID e ∈ order _ rls) as [i Hi]%list_elem_of_lookup.
  { apply (range_elem _ _ _ (Horder _ rls)). rewrite Hnil. by eexists. }
  destruct (Forall2_lookup_l _ _ _ _ _ Em Hi) as (y & _ & Hy). by rewrite Hnil in Hy.
Qed.
End Network.

(** ** A network

    Two shards of three and one validators on two hosts. *)
Module ConfigDemo.
Import LinearBLS.
#[local] Existing Instance linear_BLS.

Definition demo_shards : ShardConfig :=
  {| IPInUse := <["10.0.0.1" := 2]> {["10.0.0.2" := 1]};
     scShards := [{| seChainID := "s1"; sePeerNum := 3; seKeyRange := "a,m" |}; {| seChainID := "s2"; sePeerNum := 1; seKeyRange := "m,z" |}] |}.
Definition secret (i : nat) : SecretKey (BLS := linear_BLS) := (Z.of_nat i + 1)%Z.
Definition sorted_order (A : Type) (m : gmap string A) : list string := map fst (map_to_list m).
Lemma sorted_order_range A (m : gmap string A) : range_of m (sorted_order A m).
Proof. unfold range_of. reflexivity. Qed.
Definition draws (k : nat) (n : Z) : Z := Z.of_nat k mod n.
#[local] Existing Instance BankTheorems.Demo.demo_codec.

Example demo_addresses : assign 4 (IPGun (IPInUse demo_shards)) (new_wheel (IPInUse demo_shards)) =
  Ret [("10.0.0.1", 26601); ("10.0.0.2", 26601); ("10.0.0.1", 26602); ("10.0.0.1", 26603)].
Proof. vm_compute. reflexivity. Qed.
Example demo_paths : node_dir "./out//net/" "10.0.0.1" "node3" = "out/net/10.0.0.1/node3" ∧
  Join ["out/node3"; "../x/config/config.toml"] = "out/x/config/config.toml" ∧ Join ["/"; ".."; "a"] = "/a" ∧ Join [""; ""] = "".
Proof. vm_compute. done. Qed.

Lemma assign_addresses_witness : ∃ addrs, assign 3 (IPGun (IPInUse demo_shards)) (new_wheel (IPInUse demo_shards)) = Ret addrs ∧
  NoDup addrs ∧ Z.of_nat (occurrences "10.0.0.1" (map fst addrs)) ≤ 2.
Proof.
  destruct (assign_addresses demo_shards 3) as (addrs & E & _ & Hnd & Hc); [vm_compute; discriminate|].
  exists addrs. split_and!; [exact E|exact Hnd|]. apply Hc; [vm_compute; lia|reflexivity|lia].
Defined.
Lemma demo_shards_ok : Forall (λ si, 0 ≤ sePeerNum si ∧ readable (seKeyRange si) = true) (scShards demo_shards).
Proof. repeat constructor; vm_compute; discriminate. Qed.
Lemma demo_ids : NoDup (map seChainID (scShards demo_shards)).
Proof. refine (bool_decide_unpack _ _). vm_compute. exact I. Qed.
Lemma config_matches_peers_witness : ∃ nw, make_network secret sorted_order demo_shards "net" = Ret nw ∧ zlen (nwConfigs nw) = 4 ∧
  ∃ c shard s, nwConfigs nw !! 2%nat = Some c ∧ Shards (nwShardInfo nw) !! ChainID c = Some shard ∧
    Shard_Verify shard (Signer_Sign s [1; 2]) [1; 2] (SignerIndex c) = Ret true.
Proof.
  destruct (config_matches_peers secret sorted_order draws (λ _, true) (λ _, (0, 0)) 10 0 demo_shards "net")
    as (nw & files & E & _ & _ & Hl & _ & Hc);
    [vm_compute; discriminate|exact demo_ids|exact demo_shards_ok|exact sorted_order_range|].
  exists nw. split; [exact E|]. split; [exact Hl|]. destruct (nwConfigs nw !! 2%nat) as [c|] eqn:Ec.
  2:{ exfalso. apply lookup_ge_None in Ec. unfold zlen in Hl. change (totalNodes _) with 4 in Hl. lia. }
  destruct (Hc 2%nat c Ec) as (shard & p & s & priv & _ & Es & _ & _ & _ & _ & _ & Hv & _). exists c, shard, s. split_and!; [done|exact Es|apply Hv].
Defined.
Definition odd_shards : ShardConfig :=
  {| IPInUse := IPInUse demo_shards; scShards := [{| seChainID := "s1"; sePeerNum := 1; seKeyRange := "a,m,z" |}] |}.
Lemma unreadable_range_panics_witness : GenerateConfigFiles secret sorted_order draws (λ _, true) (λ _, (0, 0)) 10 0 odd_shards "net" = Panic.
Proof.
  apply (unreadable_range_panics secret sorted_order draws (λ _, true) (λ _, (0, 0)) 10 0 odd_shards "net"
    {| seChainID := "s1"; sePeerNum := 1; seKeyRange := "a,m,z" |});
    [refine (bool_decide_unpack _ _); vm_compute; exact I|by left|vm_compute; reflexivity|exact sorted_order_range].
Defined.
End ConfigDemo.
