(* ===== verification/NodeStart.v ===== *)
(** * Starting a URD node

    Models [createKeyRangeTree] and [createP2p] of [source/urd/main/start.go]:
    what a node builds from the table of shards and its own configuration.
    [parseStartTime] is in [Text.v]; reading the files, waiting for the start
    time and starting the goroutines are left out. *)

From stdpp Require Import base list gmap strings numbers pretty sorting.
From Stdlib Require Import ZArith Lia.
From S2P Require Import Prelude Convert BitVector Hash Signer Bank BankTheorems RangeList RangeTree Receipt Text ShardInfo Network NodeConfig.

Section Start.
Context {H : HashFn} {B : BLS}.

(** ** Operations *)

(** [for id, shard := range si.Shards]: the shards in the order [ids]. *)
Definition key_range_of (si : ShardInfo) (out : gmap string RangeList) (id : string) : outcome (gmap string RangeList) :=
  match Shards si !! id with
  | None => Ret out
  | Some shard =>
      t ← NewRangeListFromString (KeyRange shard);
      match t with
      | None => Panic
      | Some t => Ret (<[id := t]> out)
      end
  end.
Definition createKeyRangeTree (ids : list string) (si : ShardInfo) : outcome (gmap string RangeList) :=
  foldM (key_range_of si) ids ∅.
Definition all_peers (ids : list string) (si : ShardInfo) : list Peer :=
  id ← ids; match Shards si !! id with Some shard => PeerList shard | None => [] end.
Definition createP2p {Conn R : Type} (cfg : Config) (ids : list string) (si : ShardInfo) : Sender (Conn := Conn) * Receiver (R := R) :=
  (foldl AddPeer (NewSender (address (LocalIP cfg) (LocalPort cfg))) (all_peers ids si),
   NewReceiver (LocalIP cfg) (LocalPort cfg) false).

(** ** Key ranges *)

Lemma createKeyRangeTree_spec ids si : NoDup ids →
  (∀ id shard, id ∈ ids → Shards si !! id = Some shard → ∃ t, NewRangeListFromString (KeyRange shard) = Ret (Some t)) →
  ∀ out, ∃ out', foldM (key_range_of si) ids out = Ret out' ∧
    ∀ id, out' !! id = if decide (id ∈ ids ∧ is_Some (Shards si !! id))
      then match Shards si !! id ≫= λ shard, Some (NewRangeListFromString (KeyRange shard)) with Some (Ret t) => t | _ => None end
      else out !! id.
Proof.
  induction 1 as [|id ids Hid Hnd IH]; intros Hall out; cbn [foldM].
  { exists out. split; [done|]. intros id. rewrite decide_False; [done|]. by intros [?%elem_of_nil _]. }
  assert (∀ id' shard, id' ∈ ids → Shards si !! id' = Some shard → ∃ t, NewRangeListFromString (KeyRange shard) = Ret (Some t)) as Hall'
    by (intros; eapply Hall; [by right|done]).
  unfold key_range_of at 1. destruct (Shards si !! id) as [shard|] eqn:Es.
  - destruct (Hall id shard) as [t Et]; [by left|done|]. rewrite Et. cbn [mbind outcome_bind].
    destruct (IH Hall' (<[id := t]> out)) as (out' & -> & Ho). exists out'. split; [done|]. intros id'. rewrite Ho. destruct (decide (id' = id)) as [->|Hne].
    + rewrite decide_False by (by intros [? _]). rewrite lookup_insert_eq, decide_True, Es by (split; [by left|rewrite Es; by eexists]). cbn. by rewrite Et.
    + rewrite lookup_insert_ne by done. apply decide_ext. rewrite elem_of_cons. naive_solver.
  - destruct (IH Hall' out) as (out' & -> & Ho). exists out'. split; [done|]. intros id'. rewrite Ho. apply decide_ext. rewrite elem_of_cons.
    split; [tauto|]. intros [[->|?] Hs]; [|done]. rewrite Es in Hs. by destruct Hs.
Qed.
Lemma createKeyRangeTree_panics ids si id shard : Shards si !! id = Some shard → id ∈ ids → NewRangeListFromString (KeyRange shard) = Ret None →
  createKeyRangeTree ids si = Panic.
Proof.
  intros Es Hin Et. unfold createKeyRangeTree. generalize (∅ : gmap string RangeList). induction ids as [|x ids IH]; [by apply elem_of_nil in Hin|].
  intros out. cbn [foldM]. destruct (decide (x = id)) as [->|Hne].
  - unfold key_range_of at 1. rewrite Es, Et. done.
  - apply elem_of_cons in Hin as [->|Hin]; [done|]. destruct (key_range_of si out x); [by apply IH|done].
Qed.

(** ** Addresses as text *)

Lemma sep_inj sep s1 s2 t1 t2 : sep_free sep t1 = true → sep_free sep t2 = true →
  String.append s1 (String sep t1) = String.append s2 (String sep t2) → s1 = s2 ∧ t1 = t2.
Proof.
  assert (∀ s t, sep_free sep (String.append s (String sep t)) = false) as Hno.
  { intros s t. induction s as [|c s IH]; [change (negb (Ascii.eqb sep sep) && sep_free sep t = false); by rewrite Ascii.eqb_refl|].
    change (negb (Ascii.eqb c sep) && sep_free sep (String.append s (String sep t)) = false). rewrite IH. apply andb_false_r. }
  intros H1 H2. revert s2. induction s1 as [|c s1 IH]; intros [|c' s2].
  - by intros [= ->].
  - intros E. injection E as -> E. rewrite E in H1. by rewrite Hno in H1.
  - intros E. injection E as -> E. rewrite <- E in H2. by rewrite Hno in H2.
  - intros E. injection E as -> E. by destruct (IH s2 E) as [-> ->].
Qed.
Lemma address_inj ip port ip' port' : address ip port = address ip' port' → (ip, port) = (ip', port').
Proof.
  intros [-> E]%sep_inj; [|by apply pretty_sep_free..]. f_equal. by apply (inj pretty).
Qed.
#[local] Instance address_text : Inj (=) (=) (uncurry address).
Proof. intros [ip port] [ip' port'] E. by apply address_inj. Qed.
Lemma addresses_text_NoDup (addrs : list (string * Z)) : NoDup addrs → NoDup (map (uncurry address) addrs).
Proof. intros Hnd. by apply (NoDup_fmap_2 _). Qed.
Lemma addresses_of_configs {C} (ip : C → string) (port : C → Z) (addrs : list (string * Z)) (configs : list C) : length addrs = length configs →
  (∀ k c, configs !! k = Some c → addrs !! k = Some (ip c, port c)) → map (λ c, address (ip c) (port c)) configs = map (uncurry address) addrs.
Proof.
  intros Hl Hc. apply list_eq. intros k. change (((λ c, address (ip c) (port c)) <$> configs) !! k = (uncurry address <$> addrs) !! k).
  rewrite !list_lookup_fmap. destruct (configs !! k) as [c|] eqn:Ek; [by rewrite (Hc k c Ek)|]. apply lookup_ge_None in Ek.
  by rewrite lookup_ge_None_2 by lia.
Qed.

(** ** Peers *)

Lemma zip_seq_elem {A} (l : list A) k x : (k, x) ∈ zip (seq 0 (length l)) l ↔ l !! k = Some x.
Proof.
  rewrite list_elem_of_lookup. split.
  - intros [i Hi]. apply lookup_zip_with_Some in Hi as (j & y & [= -> ->] & Hj & Hy). by apply lookup_seq in Hj as [-> _].
  - intros Hk. exists k. apply lookup_zip_with_Some. exists k, x. split_and!; [done| |done]. apply lookup_seq. split; [done|by eapply lookup_lt_Some].
Qed.
Lemma peers_of_elem kp addrs c l p : p ∈ peers_of kp addrs 0 c l ↔ ∃ k n, l !! k = Some n ∧ seChainID (fst n) = c ∧ p = peer_at kp addrs k (fst n).
Proof.
  unfold peers_of. rewrite (list_elem_of_fmap (λ x : nat * (ShardEntry * Z), peer_at kp addrs (fst x) (fst (snd x)))). split.
  - intros ([k n] & -> & Hin). apply list_elem_of_In, List.filter_In in Hin as [Hin Hc]. apply list_elem_of_In, zip_seq_elem in Hin.
    exists k, n. split_and!; [done| |done]. by apply String.eqb_eq.
  - intros (k & n & Hk & Hc & ->). exists (k, n). split; [done|]. apply list_elem_of_In, List.filter_In. split; [by apply list_elem_of_In, zip_seq_elem|].
    by apply String.eqb_eq.
Qed.
Lemma all_peers_elem ids si p : range_of (Shards si) ids → p ∈ all_peers ids si ↔ ∃ id shard, Shards si !! id = Some shard ∧ p ∈ PeerList shard.
Proof.
  intros Hr. unfold all_peers. rewrite list_elem_of_bind. split.
  - intros (id & Hp & _). destruct (Shards si !! id) as [shard|] eqn:Es; [by exists id, shard|by apply elem_of_nil in Hp].
  - intros (id & shard & Es & Hp). exists id. rewrite Es. split; [done|]. apply (range_elem _ _ _ Hr). by eexists.
Qed.

Lemma peer_at_address kp addrs k e ip port : addrs !! k = Some (ip, port) → ShardInfo.GetIP (peer_at kp addrs k e) = address ip port.
Proof. intros Ha. unfold peer_at. by rewrite Ha. Qed.
Lemma peer_at_chain kp addrs k e d : d ∈ dom (Peer_ChainID (peer_at kp addrs k e)) ↔ d = seChainID e.
Proof. unfold peer_at. destruct (default _ (addrs !! k)) as [ip port]. cbn. by rewrite dom_singleton, elem_of_singleton. Qed.
Lemma AddPeers_MyIP {Conn} (s : Sender (Conn := Conn)) l : MyIP (foldl AddPeer s l) = MyIP s.
Proof. revert s. induction l as [|p l IH]; intros s; [done|]. cbn [foldl]. by rewrite IH. Qed.

(** In a generated network the nodes' addresses are all different, and the
    sender a node starts with lists under every shard exactly the addresses of
    the nodes configured for that shard, each once, whatever the order in
    which the table is visited; its own address is the one it listens on. *)
Theorem sender_knows_network {C : BankCodec} {Conn R : Type} (SetByCSPRNG : nat → SecretKey) (order : ∀ A, gmap string A → list string)
    (sc : ShardConfig) (store_dir : string) (Hany : IPGun (IPInUse sc) ≠ [])
    (Hshards : Forall (λ si, 0 ≤ sePeerNum si ∧ readable (seKeyRange si) = true) (scShards sc))
    (Horder : ∀ A (m : gmap string A), range_of m (order A m)) :
  ∃ nw, make_network SetByCSPRNG order sc store_dir = Ret nw ∧
    NoDup (map (λ c, address (LocalIP c) (LocalPort c)) (nwConfigs nw)) ∧
    ∀ cfg ids d, range_of (Shards (nwShardInfo nw)) ids →
      let '(s, r) := createP2p (Conn := Conn) (R := R) cfg ids (nwShardInfo nw) in
      MyIP s = address (localIP r) (localPort r) ∧ NoDup (peer_ips (shardMap s) d) ∧
      ∀ ip, ip ∈ peer_ips (shardMap s) d ↔ ∃ c, c ∈ nwConfigs nw ∧ ChainID c = d ∧ ip = address (LocalIP c) (LocalPort c).
Proof.
  destruct (make_network_spec SetByCSPRNG order sc store_dir Hany Hshards Horder)
    as ([addrs keyPairs si configs im] & E & Hnd & _ & _ & Hla & Hlc & Hc & Hpl & Hv & _).
  cbn [nwAddrs nwKeys nwShardInfo nwConfigs nwGenerator] in *.
  eexists. split; [exact E|]. cbn [nwAddrs nwKeys nwShardInfo nwConfigs nwGenerator].
  split.
  { rewrite (addresses_of_configs LocalIP LocalPort addrs configs); [by apply addresses_text_NoDup|lia|].
    intros k c Hk. by destruct (Hc k c Hk) as (? & _ & _ & ? & _). }
  intros cfg ids d Hr. unfold createP2p. cbn [localIP localPort]. rewrite AddPeers_MyIP.
  destruct (AddPeer_addresses (NewSender (address (LocalIP cfg) (LocalPort cfg)) : Sender (Conn := Conn)) (all_peers ids si) d) as [Hn Hin]; [apply NoDup_nil_2|].
  split; [done|]. split; [exact Hn|]. intros ip. rewrite Hin. setoid_rewrite (all_peers_elem ids si _ Hr). split.
  - intros [[]%elem_of_nil|(p & (id & shard & Es & Hp) & Hd & <-)]. rewrite (Hpl _ _ Es) in Hp. apply peers_of_elem in Hp as (k & n & Hk & Hid & ->).
    apply peer_at_chain in Hd as ->. destruct (lookup_lt_is_Some_2 configs k) as [c Hck]; [rewrite Hlc; by eapply lookup_lt_Some|].
    destruct (Hc k c Hck) as (n' & Hn' & _ & Ha & Hch & _). rewrite Hk in Hn'. injection Hn' as <-.
    exists c. split_and!; [by eapply list_elem_of_lookup_2|done|by apply peer_at_address].
  - intros (c & [k Hk]%list_elem_of_lookup & <- & ->). destruct (Hc k c Hk) as (n & Hn' & _ & Ha & Hch & _). right.
    assert (peer_at keyPairs addrs k (fst n) ∈ peers_of keyPairs addrs 0 (ChainID c) (nodes (scShards sc))) as Hp
      by (apply peers_of_elem; by exists k, n).
    destruct (Hv (ChainID c)) as (shard & ks & Es & _); [intros Hnil; rewrite Hnil in Hp; by apply elem_of_nil in Hp|].
    exists (peer_at keyPairs addrs k (fst n)). split_and!; [|by apply peer_at_chain|by apply peer_at_address].
    exists (ChainID c), shard. split; [done|]. by rewrite (Hpl _ _ Es).
Qed.
End Start.

Module StartDemo.
Import LinearBLS ConfigDemo.
#[local] Existing Instance linear_BLS.
#[local] Existing Instance BankTheorems.Demo.demo_codec.

Lemma sender_knows_network_witness : ∃ nw, make_network secret sorted_order demo_shards "net" = Ret nw ∧
  ∀ cfg, NoDup (peer_ips (shardMap (fst (createP2p (Conn := nat) (R := nat) cfg (map fst (map_to_list (Shards (nwShardInfo nw)))) (nwShardInfo nw)))) "s1").
Proof.
  destruct (sender_knows_network (Conn := nat) (R := nat) secret sorted_order demo_shards "net") as (nw & E & _ & Hs);
    [vm_compute; discriminate|exact demo_shards_ok|exact sorted_order_range|].
  exists nw. split; [exact E|]. intros cfg. destruct (Hs cfg (map fst (map_to_list (Shards (nwShardInfo nw)))) "s1") as (_ & Hn & _);
    [unfold range_of; reflexivity|exact Hn].
Defined.
Definition start_check : bool :=
  match make_network secret sorted_order demo_shards "net" with
  | Ret {| nwShardInfo := si; nwConfigs := c :: _ |} =>
      bool_decide (peer_ips (shardMap (fst (createP2p (Conn := nat) (R := nat) c ["s2"; "s1"] si))) "s1" =
        ["10.0.0.1:26601"; "10.0.0.2:26601"; "10.0.0.1:26602"]) &&
      match createKeyRangeTree ["s2"; "s1"] si with
      | Ret trees => match trees !! "s2" with
                     | Some t => match Search t "q" with Ret b => b | Panic => false end
                     | None => false
                     end
      | Panic => false
      end
  | _ => false
  end.
Example start_check_ok : start_check = true.
Proof. vm_compute. reflexivity. Qed.
End StartDemo.
