(* ===== verification/BlockWire.v ===== *)
(** * Blocks over the network

    A block is marshalled by its proposer and read back by its validators
    ([ToProto], [ProtoBytes] and [NewBlockFromBytes] of
    [source/urd/types/block.go]): what arrives, and that it has the hash the
    proposer computed. *)

From stdpp Require Import base list gmap strings numbers.
From Stdlib Require Import ZArith Lia.
From S2P Require Import Prelude Convert BitVector Hash Merkle MerkleProofs MerkleGen Wire Signer HotStuff UrdTypes BlockProofs CrossShard.

(** ** Well-formed data: what the code's own constructors produce *)

Definition agg_wf (v : AggregatedVote) : Prop :=
  - 2 ^ 7 ≤ aCode v < 2 ^ 7 ∧ ∃ bv, aSignerIndexer v = Some bv ∧ bv_wf bv.
Definition proof_wf (sp : MerkleProof) : Prop := LeafHash sp ≠ Some [].
Definition otp_wf (otp : option OutputTxsProof) : Prop :=
  ∃ bp op, otp = Some {| BlockProof := Some bp; OPTProof := Some op |} ∧ proof_wf bp ∧ proof_wf op.
Definition poi_wf (poi : ProofOfIntention) : Prop :=
  ∃ sp, IntentionHashProof poi = Some sp ∧ proof_wf sp.

Record block_wf (b : Block) : Prop := {
  bw_header : header_wf (bHeader b);
  bw_agg : ∀ v, AggSigVote b = Some v → agg_wf v;
  bw_ci : ∀ ci, CI b = Some ci → Forall agg_wf (AggregatedSignatures ci);
  bw_cc : Forall (λ core, poi_wf (MKProof core)) (CC b);
  bw_proofs : Forall otp_wf (CTXSProof b)
}.

(** A list of transactions after the network: empty and nil are the same. *)
Definition norm (t : Txs) : Txs := match txs_list t with [] => None | l => Some l end.

(** What arrives: no cached hash, no root of the cross-shard transactions. *)
Definition wire_image (b : Block) : Block :=
  let h := bHeader b in
  {| bHeader := {| HashPointer := HashPointer h; ChainID := ChainID h; hdView := hdView h;
       hdRound := hdRound h; hdTime := hdTime h; PrepareRoot := PrepareRoot h;
       CrossShardRoot := []; OutputTxsRoot := OutputTxsRoot h; LastAggSigRoot := LastAggSigRoot h;
       CommitIntentionRoot := CommitIntentionRoot h;
       CommitCertificateRoot := CommitCertificateRoot h; CommitTxsListRoot := CommitTxsListRoot h;
       StateRoot := StateRoot h; hd_hash := []; mkproof := [] |};
     PTXS := norm (PTXS b); CrossShardTxs := norm (CrossShardTxs b); OPT := OPT b;
     AggSigVote := AggSigVote b;
     CI := (λ ci, {| IntentionHash := IntentionHash ci; AggregatedSignatures := AggregatedSignatures ci;
                     ci_leftHash := []; ci_rightHash := [] |}) <$> CI b;
     CC := CC b; CTXS := map norm (CTXS b); CTXSProof := CTXSProof b |}.

(** ** Round trips of the parts *)

Lemma agg_roundtrip v : agg_wf v → NewAggregatedVoteFromProto (Some (Agg_ToProto v)) = Ret (Some v).
Proof.
  intros (Hc & bv & Hb & Hwf). unfold NewAggregatedVoteFromProto, Agg_ToProto.
  cbn [paSignerIndex paCode paView paRound paForHash paForNecessaryData paSign]. rewrite Hb.
  destruct (Byte_roundtrip bv Hwf) as [_ ->]. cbn [mbind outcome_bind].
  rewrite (wrapS_small 32), (wrapS_small 8) by lia. by destruct v; simpl in *; subst.
Qed.

Lemma proof_roundtrip sp : proof_wf sp → NewProofFromProto (Proof_ToProto sp) = sp.
Proof.
  destruct sp as [t i [[|x l]|] a]; [by intros []|done|done].
Qed.

Lemma otp_roundtrip otp : otp_wf otp → ∃ p, OTP_ToProto otp = Ret (Some p) ∧
  NewOutputTxsProofFromProto (Some p) = Ret otp.
Proof.
  intros (bp & op & -> & Hb & Ho). eexists. split; [done|].
  cbn [NewOutputTxsProofFromProto deref pBlockProof pOPTProof mbind outcome_bind].
  by rewrite !proof_roundtrip.
Qed.

Lemma poi_roundtrip poi : poi_wf poi → ∃ p, POI_ToProto (Some poi) = Ret (Some p) ∧
  NewProofOfIntentionFromProto (Some p) = Ret (Some poi).
Proof.
  intros (sp & Hs & Hw). destruct poi as [ip r]. cbn in Hs. subst ip. eexists. split; [done|].
  cbn [NewProofOfIntentionFromProto deref pIntentionHashProof mbind outcome_bind].
  by rewrite proof_roundtrip.
Qed.

Lemma core_roundtrip core : poi_wf (MKProof core) → ∃ p, Core_ToProto core = Ret p ∧
  NewCommitCertificateCoreFromProto p = Ret core.
Proof.
  intros Hw. destruct (poi_roundtrip _ Hw) as (q & E1 & E2). unfold Core_ToProto. rewrite E1.
  eexists. split; [done|]. unfold NewCommitCertificateCoreFromProto. cbn [pcMKProof]. rewrite E2.
  by destruct core.
Qed.

Lemma norm_roundtrip t : NewTxsFromProto (Some (Txs_ToProto t)) = norm t.
Proof. done. Qed.

(** Converting there and back element by element. *)
Lemma mapM_roundtrip {A B} (f : A → outcome B) (g : B → outcome A) l ps :
  Forall (λ x, ∃ p, f x = Ret p ∧ g p = Ret x) l → mapM_out f l = Ret ps → mapM_out g ps = Ret l.
Proof.
  intros Hl E. apply mapM_out_Ret in E. apply mapM_out_Ret. induction E as [|x p l ps Ex E IH]; [constructor|].
  inversion Hl as [|? ? (p' & Hf & Hg) Hl']; subst. rewrite Ex in Hf. injection Hf as ->.
  constructor; [done|by apply IH].
Qed.

Section BlockWire.
Context {H : HashFn} {W : UrdWire}.

Lemma filled_block_wf b b' : filled b b' → block_wf b → block_wf b'.
Proof.
  intros F [W1 W2 W3 W4 W5]. constructor.
  - by apply (filled_wf b b').
  - by rewrite (fl_agg _ _ F).
  - intros ci' Hci'. pose proof (fl_ci _ _ F) as C. destruct (CI b) as [ci|] eqn:Hci; [|by rewrite Hci' in C; destruct C].
    assert (AggregatedSignatures ci' = AggregatedSignatures ci) as ->; [|by apply W3].
    destruct (zlen (CommitIntentionRoot (bHeader b)) =? 0); [|by rewrite Hci' in C; destruct C as [[= ->] _]].
    destruct C as (c & Ec & Hc). rewrite Hci' in Hc. injection Hc as <-.
    unfold CI_Hash in Ec. bind_inv Ec. destruct x as [c1 l]. bind_inv Ec. destruct x as [c2 r].
    bind_inv Ec. injection Ec as <- _.
    assert (∀ c c' h, LeftHash c = Ret (c', h) → AggregatedSignatures c' = AggregatedSignatures c) as HL.
    { intros c c' h E. unfold LeftHash in E. case_match; [bind_inv E|]; by injection E as <- _. }
    assert (∀ c c' h, RrightHash c = Ret (c', h) → AggregatedSignatures c' = AggregatedSignatures c) as HR.
    { intros c c' h E. unfold RrightHash in E. case_match; [do 2 bind_inv E|]; by injection E as <- _. }
    by rewrite (HR _ _ _ Hx0), (HL _ _ _ Hx).
  - by rewrite (fl_cc _ _ F).
  - by rewrite (fl_ctxsproof _ _ F).
Qed.

Lemma sigs_roundtrip sigs : Forall agg_wf sigs → mapM_out agg_entry (map Agg_ToProto sigs) = Ret sigs.
Proof.
  intros Hs. induction Hs as [|v sigs Hv Hs IH]; [done|]. cbn [map mapM_out].
  assert (agg_entry (Agg_ToProto v) = Ret v) as -> by (unfold agg_entry; by rewrite agg_roundtrip).
  cbn [mbind outcome_bind]. by rewrite IH.
Qed.

Lemma decoded b p : block_wf b →
  (ps ← mapM_out OTP_ToProto (CTXSProof b); cc ← CC_ToProto (CC b);
   Ret {| pbHeader := Some (Header_ToProto (bHeader b));
       pbPrepareTxs := Some (Txs_ToProto (PTXS b));
       pbCrossShardTxs := Some (Txs_ToProto (CrossShardTxs b));
       pbOPT := OPT b; pbAggSigVote := Agg_ToProto <$> AggSigVote b;
       pbCI := CI_ToProto (CI b); pbCC := Some cc; pbCTXS := map Txs_ToProto (CTXS b);
       pbCTXSProof := map otp_message ps |}) = Ret p →
  NewBlockFromProto p = Ret (wire_image b).
Proof.
  intros [W1 W2 W3 W4 W5] E. bind_inv E. bind_inv E. injection E as <-.
  unfold NewBlockFromProto. cbn [pbCTXSProof pbHeader pbAggSigVote pbCI pbCC pbPrepareTxs pbCrossShardTxs
    pbOPT pbCTXS deref].
  assert (mapM_out (λ p, NewOutputTxsProofFromProto (Some p)) (map otp_message x) = Ret (CTXSProof b)) as ->.
  { apply (mapM_roundtrip (λ o, p ← OTP_ToProto o; Ret (otp_message p))).
    - eapply Forall_impl; [|exact W5]. intros o Ho. destruct (otp_roundtrip o Ho) as (q & Eq & Er).
      exists q. by rewrite Eq.
    - apply mapM_out_Ret. apply mapM_out_Ret in Hx. clear -Hx.
      induction Hx as [|o q l l' E _ IH]; constructor; [by rewrite E|done]. }
  cbn [mbind outcome_bind].
  assert (NewAggregatedVoteFromProto (Agg_ToProto <$> AggSigVote b) = Ret (AggSigVote b)) as ->.
  { destruct (AggSigVote b) as [v|]; [|done]. cbn. by apply agg_roundtrip, W2. }
  cbn [mbind outcome_bind].
  assert (NewCommitIntentionFromProto (CI_ToProto (CI b)) = Ret (CI (wire_image b))) as ->.
  { cbn [wire_image CI]. destruct (CI b) as [ci|]; [|done]. cbn [CI_ToProto NewCommitIntentionFromProto pAggregatedSignatures].
    rewrite sigs_roundtrip by (by apply W3). done. }
  cbn [mbind outcome_bind].
  assert (NewCommitCertificateFromProto (Some x0) = Ret (CC b)) as ->.
  { unfold CC_ToProto in Hx0. bind_inv Hx0. injection Hx0 as <-. cbn.
    eapply mapM_roundtrip; [|exact Hx1]. eapply Forall_impl; [|exact W4]. intros core Hc. by apply core_roundtrip. }
  cbn [mbind outcome_bind]. unfold wire_image. f_equal. f_equal.
  - unfold NewHeaderFromProto, Header_ToProto. cbn [phHashPointer phChainID phView phRound phTime phPrepareRoot
      phOutputTxsRoot phLastAggSigRoot phCommitIntentionRoot phCommitCertificateRoot phCommitTxsRoot phStateRoot].
    destruct W1 as (_ & _ & Hu & Hn). by rewrite time_roundtrip.
  - rewrite map_map. by apply map_ext.
Qed.

Lemma fill_settled root p m r p' m' : fill root p m = Ret r → (∀ h, m = Ret h → h ≠ []) →
  (root = [] → p' = true → p = true) → fill r p' m' = Ret r.
Proof.
  intros E Hm Hp. destruct (decide (r = [])) as [->|Hr]; [|by apply fill_kept].
  destruct (decide (root = [])) as [->|Hne]; [|rewrite fill_kept in E by done; by injection E as ->].
  destruct p'; [|done]. rewrite Hp in E by done. by apply Hm in E.
Qed.

Lemma HashFromByteSlices_ne items h : HashFromByteSlices items = Ret h → h ≠ [].
Proof. intros Hh%root_size ->. done. Qed.

(** A block with the committed header of a filled one, and no part that was
    missing there, settles on that header. *)
Lemma settled b b' c : filled b b' → committed (bHeader c) = committed (bHeader b') →
  (is_Some (PTXS c) → is_Some (PTXS b')) → (is_Some (AggSigVote c) → is_Some (AggSigVote b')) →
  (is_Some (CI c) → is_Some (CI b')) →
  ∃ f, fillInHeader c = Ret f ∧ committed (bHeader f) = committed (bHeader b').
Proof.
  intros F Ec Pp Pa Pc. rewrite <- Ec. unfold committed in Ec.
  injection Ec as _ _ _ _ _ E1 E2 E3 E4 E5 E6 _. unfold fillInHeader.
  rewrite E1, (fill_settled _ _ _ _ _ _ (fl_prepare _ _ F)).
  2:{ intros h. apply HashFromByteSlices_ne. }
  2:{ intros _ Hp. apply bool_decide_eq_true in Hp. apply bool_decide_eq_true.
      rewrite <- (fl_ptxs _ _ F). by apply Pp. }
  cbn [mbind outcome_bind].
  destruct (fill_txs_total (CrossShardRoot (bHeader c)) (bool_decide (is_Some (CrossShardTxs c)))
    (CrossShardTxs c)) as [r ->]. cbn [mbind outcome_bind].
  rewrite E2, (fill_settled _ _ _ _ _ _ (fl_output _ _ F)) by (done || intros h; apply HashFromByteSlices_ne).
  cbn [mbind outcome_bind].
  rewrite E3, (fill_settled _ _ _ _ _ _ (fl_lastagg _ _ F)).
  2:{ intros h Eh. bind_inv Eh. unfold Agg_Hash in Eh. bind_inv Eh. by apply HashFromByteSlices_ne in Eh. }
  2:{ intros _ Hp. apply bool_decide_eq_true in Hp. apply bool_decide_eq_true.
      rewrite <- (fl_agg _ _ F). by apply Pa. }
  cbn [mbind outcome_bind].
  rewrite E5, (fill_settled _ _ _ _ _ _ (fl_ccroot _ _ F)).
  2:{ intros h Eh. unfold CC_Hash in Eh. bind_inv Eh. by apply HashFromByteSlices_ne in Eh. }
  2:{ done. }
  rewrite E6, (fill_settled _ _ _ _ _ _ (fl_ctxsroot _ _ F)).
  2:{ intros h Eh. unfold commit_txs_root in Eh. do 4 bind_inv Eh. by apply HashFromByteSlices_ne in Eh. }
  2:{ done. }
  rewrite E4. destruct (CI c) as [ci|] eqn:Hci;
    [|cbn [mbind outcome_bind]; eexists; split; [done|]; unfold committed; cbn; congruence].
  assert ((zlen (CommitIntentionRoot (bHeader b')) =? 0) = false) as ->;
    [|cbn [mbind outcome_bind]; eexists; split; [done|]; unfold committed; cbn; congruence].
  apply Z.eqb_neq. intros Hz. pose proof (fl_ci _ _ F) as C. destruct (Pc ltac:(done)) as [ci' Hci'].
  destruct (CI b) as [ci0|]; [|by rewrite Hci' in C; destruct C].
  destruct (Z.eqb_spec (zlen (CommitIntentionRoot (bHeader b))) 0) as [Hr|Hr].
  - destruct C as (d & Ec & _). unfold CI_Hash in Ec. bind_inv Ec. destruct x. bind_inv Ec. destruct x.
    bind_inv Ec. injection Ec as _ ->. apply HashFromByteSlices_ne in Hx1. by apply zlen_nil_inv in Hz.
  - destruct C as [_ C]. rewrite C in Hz. done.
Qed.

Lemma settled_hash b b' c : filled b b' → hd_hash (bHeader c) = [] →
  committed (bHeader c) = committed (bHeader b') →
  (is_Some (PTXS c) → is_Some (PTXS b')) → (is_Some (AggSigVote c) → is_Some (AggSigVote b')) →
  (is_Some (CI c) → is_Some (CI b')) →
  snd <$> Block_Hash c =
    (leaves ← block_leaves (bHeader b'); '(hash, _) ← ProofsFromByteSlices leaves; Ret hash).
Proof.
  intros F N Ec Pp Pa Pc. destruct (settled b b' c F Ec Pp Pa Pc) as (f & Ef & Ec').
  unfold Block_Hash, calBlockHashAndProof. rewrite N. change (zlen (@nil Z) =? 0) with true. cbv iota.
  rewrite Ef. cbn [mbind outcome_bind]. rewrite (block_leaves_committed _ _ Ec').
  destruct (block_leaves (bHeader b')) as [ls|]; [|done]. cbn [mbind outcome_bind].
  by destruct (ProofsFromByteSlices ls) as [[hash proofs]|].
Qed.

(** The hash cached in a block, if any, is the one computed for it. *)
Definition hash_computed (b : Block) : Prop :=
  hd_hash (bHeader b) = [] ∨ ∃ b0 hash, hd_hash (bHeader b0) = [] ∧ Block_Hash b0 = Ret (b, hash).
(** The hash of a filled header. *)
Definition header_hash (h : Header) : outcome bytes :=
  leaves ← block_leaves h; '(hash, _) ← ProofsFromByteSlices leaves; Ret hash.
Lemma header_hash_ne h hash : header_hash h = Ret hash → hash ≠ [].
Proof.
  unfold header_hash. destruct (block_leaves h) as [ls|]; [|done]. cbn [mbind outcome_bind].
  destruct (proofs_spec ls) as (hs & proofs & -> & Er & _). cbn [mbind outcome_bind]. intros [= <-]. by eapply HashFromByteSlices_ne.
Qed.
Lemma Block_Hash_fresh b bf : hd_hash (bHeader b) = [] → fillInHeader b = Ret bf →
  snd <$> Block_Hash b = header_hash (bHeader bf).
Proof.
  intros N Ef. unfold Block_Hash, calBlockHashAndProof, header_hash. rewrite N, Ef. change (zlen (@nil Z) =? 0) with true. cbv iota.
  cbn [mbind outcome_bind]. destruct (block_leaves (bHeader bf)) as [ls|]; [|done]. cbn [mbind outcome_bind].
  by destruct (ProofsFromByteSlices ls) as [[hash proofs]|].
Qed.
Lemma Block_Hash_kept b : hd_hash (bHeader b) ≠ [] → Block_Hash b = Ret (b, hd_hash (bHeader b)).
Proof.
  intros Hne. unfold Block_Hash. destruct (Z.eqb_spec (zlen (hd_hash (bHeader b))) 0) as [Hz|_]; [|done].
  by apply zlen_nil_inv in Hz.
Qed.
(** Filling in the header of a block whose hash is computed gives a header with
    that hash. *)
Lemma computed_header b bf : hash_computed b → fillInHeader b = Ret bf → snd <$> Block_Hash b = header_hash (bHeader bf).
Proof.
  intros [N|(b0 & hash & N & E0)] Ef; [by apply Block_Hash_fresh|].
  unfold Block_Hash, calBlockHashAndProof in E0. rewrite N in E0. change (zlen (@nil Z) =? 0) with true in E0. cbv iota in E0.
  destruct (fillInHeader b0) as [f0|] eqn:Ef0; [|done]. cbn [mbind outcome_bind] in E0.
  destruct (block_leaves (bHeader f0)) as [ls|] eqn:El; [|done]. cbn [mbind outcome_bind] in E0.
  destruct (ProofsFromByteSlices ls) as [[h0 proofs]|] eqn:Ep; [|done]. cbn [mbind outcome_bind] in E0. injection E0 as <- _.
  assert (header_hash (bHeader f0) = Ret h0) as Eh by (unfold header_hash; rewrite El; cbn [mbind outcome_bind]; by rewrite Ep).
  destruct (settled b0 f0 (with_hash f0 h0 proofs) (fillInHeader_filled _ _ Ef0)) as (f & Ef' & Ec); [done..|].
  rewrite Ef in Ef'. injection Ef' as <-. unfold header_hash. rewrite (block_leaves_committed _ _ Ec).
  fold (header_hash (bHeader f0)). rewrite Eh. rewrite Block_Hash_kept; [done|]. cbn. by eapply header_hash_ne.
Qed.

Lemma wire_roundtrip b b' bz :
  block_wf b → hash_computed b → Block_ProtoBytes b = Ret (b', bz) →
  filled b b' ∧ NewBlockFromBytes bz = Ret (Some (wire_image b')) ∧
  snd <$> Block_Hash (wire_image b') = snd <$> Block_Hash b ∧
  snd <$> Block_Hash b' = snd <$> Block_Hash b.
Proof.
  intros Hwf Hc E. unfold Block_ProtoBytes, Block_ToProto in E.
  destruct (fillInHeader b) as [bf|] eqn:Ef; [|done]. cbn [mbind outcome_bind] in E.
  destruct (mapM_out OTP_ToProto (CTXSProof bf)) as [ps|] eqn:Eps; [|done]. cbn [mbind outcome_bind] in E.
  destruct (CC_ToProto (CC bf)) as [cc|] eqn:Ecc; [|done]. cbn [mbind outcome_bind] in E.
  bind_inv E. injection E as <- <-. pose proof (fillInHeader_filled _ _ Ef) as F. split; [done|].
  pose proof (computed_header b bf Hc Ef) as Eb.
  split_and!.
  - unfold MustProtoBytes in Hx. destruct (marshal _) as [bz|] eqn:Em; [|done]. injection Hx as <-.
    unfold NewBlockFromBytes. rewrite (unmarshal_marshal _ _ Em).
    rewrite (decoded bf); [done|by apply (filled_block_wf b)|]. by rewrite Eps, Ecc.
  - rewrite Eb. apply (settled_hash b); try done; cbn [wire_image PTXS CI].
    + destruct (PTXS bf); [done|by intros []].
    + destruct (CI bf); [done|by intros []].
  - destruct (decide (hd_hash (bHeader b) = [])) as [N|N].
    + rewrite Eb. apply (settled_hash b); try done. by rewrite (fl_hash _ _ F).
    + rewrite (Block_Hash_kept b N), Block_Hash_kept by (by rewrite (fl_hash _ _ F)). cbn. by rewrite (fl_hash _ _ F).
Qed.

(** C34. A well-formed block sent by its proposer, its hash cached as [make_block]
    leaves it or not yet computed, arrives with the same header, transactions,
    output roots, votes, intentions, certificates and proofs (without caches
    and with empty lists of transactions nil).  Sending only fills in roots
    that were missing, and the receiver computes from what arrives the hash the
    proposer has. *)
Theorem Block_wire_roundtrip b b' bz
    (Hwf : block_wf b) (Hc : hash_computed b) (E : Block_ProtoBytes b = Ret (b', bz)) :
  filled b b' ∧ NewBlockFromBytes bz = Ret (Some (wire_image b')) ∧
  snd <$> Block_Hash (wire_image b') = snd <$> Block_Hash b ∧
  (hd_hash (bHeader b) ≠ [] → ∃ b2, Block_Hash (wire_image b') = Ret (b2, hd_hash (bHeader b))).
Proof.
  destruct (wire_roundtrip b b' bz Hwf Hc E) as (F & Hd & Hh & _). split_and!; [done..|]. intros N.
  rewrite (Block_Hash_kept b N) in Hh. cbn in Hh. destruct (Block_Hash (wire_image b')) as [[b2 h]|]; [|done].
  cbn in Hh. injection Hh as ->. by exists b2.
Qed.

End BlockWire.
