(* ===== verification/BlockPart.v ===== *)
(** * Block parts and proposals

    Models [source/urd/types/block-part.go] and
    [source/urd/consensus/constypes/proposal.go]: a proposer marshals its block,
    splits the bytes and sends every chunk with a Merkle proof; a validator
    collects the parts and rebuilds the block. *)

From stdpp Require Import base list gmap strings numbers.
From Stdlib Require Import ZArith Lia.
From S2P Require Import Prelude Convert BitVector Hash Merkle MerkleProofs MerkleGen Wire Signer HotStuff UrdTypes BlockProofs CrossShard BlockWire.

(** ** Data *)

(** The proof of a part is never nil: parts come from [PartSetFromBlock] and
    from messages, whose conversion dereferences the proof. *)
Record Part := {
  ptChainID : string; ptView : Z; ptRound : Z; ptBytes : bytes; ptProof : MerkleProof
}.
Record PPart := {
  ppView : Z; ppRound : Z; ppBytes : bytes; ppProof : option PProof; ppChainID : string
}.
Record PartSetHeader := {
  pshView : Z; pshRound : Z; pshTotal : Z; pshRoot : bytes; pshChainID : string
}.
Record PPartSetHeader := {
  qshTotal : Z; qshRoot : bytes; qshView : Z; qshRound : Z; qshChainID : string
}.
Record PartSet := {
  psHeader : PartSetHeader; Parts : list (option Part); psCount : Z; BlockHeaderHash : bytes
}.
Record Proposal := {
  prHeader : PartSetHeader; ProposerIndex : Z; prBlockHeaderHash : bytes; Signature : string
}.
Record PProposal := {
  qrHeader : option PPartSetHeader; qrProposerIndex : Z; qrBlockHeaderHash : bytes; qrSignature : string
}.

#[export] Instance MerkleProof_eq_dec : EqDecision MerkleProof.
Proof. solve_decision. Defined.
#[export] Instance Part_eq_dec : EqDecision Part.
Proof. solve_decision. Defined.
#[export] Instance PartSetHeader_eq_dec : EqDecision PartSetHeader.
Proof. solve_decision. Defined.

Class PartWire := {
  part_codec :: ProtoCodec PPart;
  psh_codec :: ProtoCodec PPartSetHeader;
  proposal_codec :: ProtoCodec PProposal
}.

Inductive part_error :=
| ErrDuplicatedPart | ErrPartView | ErrPartRound | ErrPartBytes | ErrPartChain | ErrPartTotal
| ErrPartProof (e : proof_error).
Inductive header_error := ErrHeaderView | ErrHeaderRound | ErrHeaderTotal | ErrHeaderChain | ErrHeaderRoot.
Inductive proposal_error := ErrProposerIndex | ErrHeaderHash | ErrPartSetHeader (e : header_error).
Inductive gen_error := ErrSerialize | ErrGenChain | ErrGenView | ErrGenBlock (e : block_error) | ErrGenHash.

(** ** Messages *)

Definition Part_Index (p : Part) : Z := Index (ptProof p).
Definition Part_ToProto (p : Part) : PPart :=
  {| ppView := ptView p; ppRound := int32 (ptRound p); ppBytes := ptBytes p;
     ppProof := Some (Proof_ToProto (ptProof p)); ppChainID := ptChainID p |}.
Definition NewPartFromProto (pp : PPart) : outcome Part :=
  proof ← deref (ppProof pp);
  Ret {| ptChainID := ppChainID pp; ptView := ppView pp; ptRound := ppRound pp;
         ptBytes := ppBytes pp; ptProof := NewProofFromProto proof |}.

Definition PSH_ToProto (p : PartSetHeader) : PPartSetHeader :=
  {| qshTotal := pshTotal p; qshRoot := pshRoot p; qshView := pshView p;
     qshRound := int32 (pshRound p); qshChainID := pshChainID p |}.
Definition NewPartSetHeaderFromProto (p : PPartSetHeader) : PartSetHeader :=
  {| pshView := qshView p; pshRound := qshRound p; pshTotal := qshTotal p; pshRoot := qshRoot p;
     pshChainID := qshChainID p |}.
Definition PSH_Equal (p other : PartSetHeader) : bool :=
  bool_decide (pshChainID p = pshChainID other) && (pshView p =? pshView other) &&
  (pshRound p =? pshRound other) && (pshTotal p =? pshTotal other) &&
  bytes_Equal (pshRoot p) (pshRoot other).
Definition PSH_ValidateBasic (p : PartSetHeader) : option header_error :=
  if pshView p <? 0 then Some ErrHeaderView
  else if pshRound p <? 0 then Some ErrHeaderRound
  else if pshTotal p <? 0 then Some ErrHeaderTotal
  else if bool_decide (pshChainID p = EmptyString) then Some ErrHeaderChain
  else if negb (zlen (pshRoot p) =? HashSize) then Some ErrHeaderRoot
  else None.

Definition NewProposal (header : PartSetHeader) (proposer_index : Z) (blockHeaderHash : bytes) : Proposal :=
  {| prHeader := header; ProposerIndex := proposer_index; prBlockHeaderHash := blockHeaderHash;
     Signature := EmptyString |}.
Definition Proposal_ToProto (p : Proposal) : PProposal :=
  {| qrHeader := Some (PSH_ToProto (prHeader p)); qrProposerIndex := int32 (ProposerIndex p);
     qrBlockHeaderHash := prBlockHeaderHash p; qrSignature := Signature p |}.
Definition NewProposalFromProto (p : PProposal) : outcome Proposal :=
  header ← deref (qrHeader p);
  Ret {| prHeader := NewPartSetHeaderFromProto header; ProposerIndex := qrProposerIndex p;
         prBlockHeaderHash := qrBlockHeaderHash p; Signature := qrSignature p |}.
Definition Proposal_ValidateBasic (p : Proposal) : option proposal_error :=
  if ProposerIndex p <? 0 then Some ErrProposerIndex
  else if negb (zlen (prBlockHeaderHash p) =? HashSize) then Some ErrHeaderHash
  else ErrPartSetHeader <$> PSH_ValidateBasic (prHeader p).

Section Parts.
Context {H : HashFn} {W : UrdWire} {PW : PartWire}.

Definition Part_ProtoBytes (p : Part) : outcome bytes := MustProtoBytes (Part_ToProto p).
Definition NewPartFromBytes (bz : bytes) : outcome (option Part) :=
  match unmarshal bz with
  | None => Ret None
  | Some pp => p ← NewPartFromProto pp; Ret (Some p)
  end.
Definition PSH_ProtoBytes (p : PartSetHeader) : outcome bytes := MustProtoBytes (PSH_ToProto p).
Definition NewPartSetHeaderFromBytes (bz : bytes) : option PartSetHeader :=
  match unmarshal bz with
  | None => None
  | Some p => Some (NewPartSetHeaderFromProto p)
  end.
Definition Proposal_ProtoBytes (p : Proposal) : outcome bytes := MustProtoBytes (Proposal_ToProto p).
Definition Proposal_SignBytes (p : Proposal) : outcome bytes :=
  MustProtoBytes {| qrHeader := Some (PSH_ToProto (prHeader p)); qrProposerIndex := int32 (ProposerIndex p);
    qrBlockHeaderHash := prBlockHeaderHash p; qrSignature := EmptyString |}.
Definition NewProposalFromBytes (bz : bytes) : outcome (option Proposal) :=
  match unmarshal bz with
  | None => Ret None
  | Some p => r ← NewProposalFromProto p; Ret (Some r)
  end.

Definition Part_Verify (p : Part) (root : bytes) (total : Z) (chainID : string)
    : outcome (option part_error) :=
  err ← Proof_Verify (ptProof p) root (ptBytes p);
  match err with
  | Some e => Ret (Some (ErrPartProof e))
  | None =>
      if negb (total =? Total (ptProof p)) || bool_decide (chainID ≠ ptChainID p)
      then Ret (Some ErrPartTotal) else Ret None
  end.
Definition Part_ValidateBasic (p : Part) : option part_error :=
  if ptView p <? 0 then Some ErrPartView
  else if ptRound p <? 0 then Some ErrPartRound
  else if zlen (ptBytes p) =? 0 then Some ErrPartBytes
  else if bool_decide (ptChainID p = EmptyString) then Some ErrPartChain
  else ErrPartProof <$> Proof_ValidateBasic (ptProof p).

(** ** Part sets *)

(** [make] panics on a negative length. *)
Definition NewPartSet (h : PartSetHeader) (headerHash : bytes) : outcome PartSet :=
  if pshTotal h <? 0 then Panic
  else Ret {| psHeader := h; Parts := replicate (Z.to_nat (pshTotal h)) None; psCount := 0;
              BlockHeaderHash := headerHash |}.

(** The loop that pairs every chunk with its proof. *)
Fixpoint make_parts (chainid : string) (view round i : Z) (bzList : list bytes) (proof : list MerkleProof)
    : outcome (list (option Part)) :=
  match bzList with
  | [] => Ret []
  | bz :: rest =>
      pf ← idx proof i;
      parts ← make_parts chainid view round (i + 1) rest proof;
      Ret (Some {| ptChainID := chainid; ptView := view; ptRound := round; ptBytes := bz; ptProof := pf |}
           :: parts)
  end.

(** [None] when the split does not terminate, see [SplitByteArray]. *)
Definition PartSetFromBlock (b : Block) (maxPartSize round : Z) : outcome (option (Block * PartSet)) :=
  '(b, bz) ← Block_ProtoBytes b;
  chunks ← SplitByteArray bz maxPartSize;
  match chunks with
  | None => Ret None
  | Some bzList =>
      '(hs, proof) ← ProofsFromByteSlices bzList;
      parts ← make_parts (ChainID (bHeader b)) (hdView (bHeader b)) round 0 bzList proof;
      '(b, hash) ← Block_Hash b;
      Ret (Some (b, {| psHeader := {| pshView := hdView (bHeader b); pshRound := round;
                         pshTotal := zlen parts; pshRoot := hs; pshChainID := ChainID (bHeader b) |};
                       Parts := parts; psCount := zlen parts; BlockHeaderHash := hash |}))
  end.

Definition AddPart (ps : PartSet) (p : Part) : outcome (PartSet * option part_error) :=
  let i := Part_Index p in
  held ← (if i <? pshTotal (psHeader ps) then idx (Parts ps) i else Ret None);
  match held with
  | Some _ => Ret (ps, Some ErrDuplicatedPart)
  | None =>
      if negb (pshView (psHeader ps) =? ptView p) then Ret (ps, Some ErrPartView)
      else if negb (pshRound (psHeader ps) =? ptRound p) then Ret (ps, Some ErrPartRound)
      else
        err ← Part_Verify p (pshRoot (psHeader ps)) (pshTotal (psHeader ps)) (pshChainID (psHeader ps));
        match err with
        | Some e => Ret (ps, Some e)
        | None =>
            parts ← upd (Parts ps) i (Some p);
            Ret ({| psHeader := psHeader ps; Parts := parts; psCount := psCount ps + 1;
                    BlockHeaderHash := BlockHeaderHash ps |}, None)
        end
  end.

Definition IsComplete (ps : PartSet) : bool := pshTotal (psHeader ps) =? psCount ps.

(** The concatenation of the parts; a missing one is a nil dereference. *)
Definition joined (ps : PartSet) : outcome bytes :=
  bs ← mapM_out (λ p, part ← deref p; Ret (ptBytes part)) (Parts ps); Ret (concat bs).

Definition GenBlock (ps : PartSet) : outcome (option Block * option gen_error) :=
  if negb (IsComplete ps) then Ret (None, None)
  else
    bz ← joined ps;
    block ← NewBlockFromBytes bz;
    match block with
    | None => Ret (None, Some ErrSerialize)
    | Some block =>
        if bool_decide (ChainID (bHeader block) ≠ pshChainID (psHeader ps)) then Ret (None, Some ErrGenChain)
        else if negb (hdView (bHeader block) =? pshView (psHeader ps)) then Ret (None, Some ErrGenView)
        else
          err ← Block_ValidateBasic block;
          match err with
          | Some e => Ret (Some block, Some (ErrGenBlock e))
          | None =>
              '(block, hash) ← Block_Hash block;
              if negb (bytes_Equal hash (BlockHeaderHash ps)) then Ret (Some block, Some ErrGenHash)
              else Ret (Some block, None)
          end
    end.

(** ** The part set invariant *)

Fixpoint count_held (l : list (option Part)) : Z :=
  match l with
  | [] => 0
  | Some _ :: l' => 1 + count_held l'
  | None :: l' => count_held l'
  end.

Lemma count_held_bound l : 0 ≤ count_held l ≤ zlen l.
Proof. induction l as [|[p|] l IH]; rewrite ?zlen_cons; simpl; [done|lia..]. Qed.

Lemma count_held_insert l i p : l !! i = Some None → count_held (<[i:=Some p]> l) = 1 + count_held l.
Proof.
  revert i; induction l as [|q l IH]; intros [|i] Hi; cbn in Hi; try done.
  - by injection Hi as ->.
  - cbn. rewrite IH by done. destruct q; lia.
Qed.

Lemma count_held_full l : count_held l = zlen l → ∀ i, (i < length l)%nat → ∃ p, l !! i = Some (Some p).
Proof.
  induction l as [|q l IH]; intros Hc i Hi; [simpl in Hi; lia|]. rewrite zlen_cons in Hc.
  pose proof (count_held_bound l). destruct q as [p|]; cbn in Hc; [|lia].
  destruct i as [|i]; [by exists p|]. apply IH; [lia|simpl in Hi; lia].
Qed.

Lemma count_held_none n : count_held (replicate n None) = 0.
Proof. by induction n. Qed.

(** A part that belongs at position [i] of the set announced by [h]. *)
Record part_at (h : PartSetHeader) (i : nat) (p : Part) : Prop := {
  pa_index : Part_Index p = Z.of_nat i;
  pa_total : Total (ptProof p) = pshTotal h;
  pa_view : ptView p = pshView h;
  pa_round : ptRound p = pshRound h;
  pa_chain : ptChainID p = pshChainID h;
  pa_proof : Proof_Verify (ptProof p) (pshRoot h) (ptBytes p) = Ret None
}.

Record ps_inv (ps : PartSet) : Prop := {
  pi_total : pshTotal (psHeader ps) = zlen (Parts ps);
  pi_count : psCount ps = count_held (Parts ps);
  pi_parts : ∀ i p, Parts ps !! i = Some (Some p) → part_at (psHeader ps) i p
}.

Lemma NewPartSet_inv h hash ps : NewPartSet h hash = Ret ps → ps_inv ps.
Proof.
  unfold NewPartSet. destruct (Z.ltb_spec (pshTotal h) 0); [done|]. intros [= <-]. constructor; cbn.
  - unfold zlen. rewrite length_replicate. lia.
  - by rewrite count_held_none.
  - intros i p Hi%lookup_replicate. by destruct Hi.
Qed.

(** A proof that verifies against a proper root has its index within its total. *)
Lemma verify_in_range sp root leaf : zlen root = HashSize → Proof_Verify sp root leaf = Ret None →
  0 ≤ Index sp < Total sp.
Proof.
  intros Hr V. destruct (verify_root _ _ _ V) as (c & Ec & Es).
  unfold ComputeRootHash, computeHashFromAunts in Ec.
  destruct (decide (0 ≤ Index sp < Total sp)) as [|Hn]; [done|exfalso].
  assert (c = None) as ->; [|by rewrite <- Es in Hr].
  destruct (reverse (Aunts sp)); cbn [hash_from_aunts] in Ec;
    destruct (Z.leb_spec (Total sp) (Index sp)), (Z.ltb_spec (Index sp) 0); try lia;
    cbn in Ec; by injection Ec as <-.
Qed.

Lemma Part_Verify_None p root total chain : Part_Verify p root total chain = Ret None ↔
  Proof_Verify (ptProof p) root (ptBytes p) = Ret None ∧ Total (ptProof p) = total ∧ ptChainID p = chain.
Proof.
  unfold Part_Verify. destruct (Proof_Verify _ _ _) as [[e|]|]; cbn; [by split; [|intros [? _]]| |by split; [|intros [? _]]].
  destruct (Z.eqb_spec total (Total (ptProof p))); cbn; [|split; [done|lia]].
  destruct (decide (chain = ptChainID p)) as [->|Hne].
  - by rewrite bool_decide_false by (intros Hn; by apply Hn).
  - rewrite bool_decide_true by done. split; [done|]. intros (_ & _ & E). congruence.
Qed.

Lemma Proof_Verify_total sp root leaf : ∃ r, Proof_Verify sp root leaf = Ret r.
Proof.
  unfold Proof_Verify. do 3 (case_match; [by eauto|]).
  assert (∀ l i n lf, ∃ r, hash_from_aunts i n lf l = Ret r) as Hh.
  { induction l as [|a l IH]; intros i n lf; cbn [hash_from_aunts].
    - do 2 (case_match; [by eauto|]). eauto.
    - case_match; [by eauto|]. destruct (Z.eqb_spec n 1); [by eauto|].
      destruct (getSplitPoint_spec n) as (e & -> & _).
      { repeat match goal with E : _ || _ = false |- _ => apply orb_false_iff in E as [? ?] end.
        bool_to_prop. lia. }
      cbn [mbind outcome_bind].
      case_match; [destruct (IH i (2 ^ Z.of_nat e) lf) as [[r|] ->]|
        destruct (IH (i - 2 ^ Z.of_nat e) (n - 2 ^ Z.of_nat e) lf) as [[r|] ->]]; cbn; eauto. }
  unfold ComputeRootHash, computeHashFromAunts.
  destruct (Hh (reverse (Aunts sp)) (Index sp) (Total sp) (LeafHash sp)) as [r ->]. cbn.
  case_match; eauto.
Qed.

Lemma Part_Verify_total p root total chain : ∃ r, Part_Verify p root total chain = Ret r.
Proof.
  unfold Part_Verify. destruct (Proof_Verify_total (ptProof p) root (ptBytes p)) as [[e|] ->]; cbn; [eauto|].
  case_match; eauto.
Qed.

(** What [AddPart] does with a part that passed [ValidateBasic], in a set with a
    proper root: it never panics and accepts exactly a part that belongs at an
    empty position. *)
Lemma AddPart_spec ps p : ps_inv ps → zlen (pshRoot (psHeader ps)) = HashSize → 0 ≤ Part_Index p →
  ∃ err, AddPart ps p = Ret
    (match err with
     | None => {| psHeader := psHeader ps; Parts := <[Z.to_nat (Part_Index p) := Some p]> (Parts ps);
                  psCount := psCount ps + 1; BlockHeaderHash := BlockHeaderHash ps |}
     | Some _ => ps
     end, err) ∧
    (err = None ↔ Parts ps !! Z.to_nat (Part_Index p) = Some None ∧
       part_at (psHeader ps) (Z.to_nat (Part_Index p)) p).
Proof.
  intros I Hroot Hi. unfold AddPart. set (h := psHeader ps) in *.
  assert ((if Part_Index p <? pshTotal h then idx (Parts ps) (Part_Index p) else Ret None) =
    Ret (mjoin (Parts ps !! Z.to_nat (Part_Index p)))) as ->.
  { pose proof (pi_total _ I) as Ht. fold h in Ht. destruct (Z.ltb_spec (Part_Index p) (pshTotal h)).
    - destruct (idx_in_range (Parts ps) (Part_Index p)) as (q & -> & Hq); [lia|]. by rewrite Hq.
    - rewrite lookup_ge_None_2; [done|]. unfold zlen in Ht. lia. }
  cbn [mbind outcome_bind].
  destruct (Parts ps !! Z.to_nat (Part_Index p)) as [[q|]|] eqn:Eq; cbn [mjoin option_join].
  { exists (Some ErrDuplicatedPart). split; [done|]. split; [done|by intros [? _]]. }
  2:{ (* beyond the announced total: some check fails *)
    destruct (Z.eqb_spec (pshView h) (ptView p)); cbn [negb]; [|exists (Some ErrPartView); split; [done|naive_solver]].
    destruct (Z.eqb_spec (pshRound h) (ptRound p)); cbn [negb]; [|exists (Some ErrPartRound); split; [done|naive_solver]].
    destruct (Part_Verify_total p (pshRoot h) (pshTotal h) (pshChainID h)) as [[er|] Ev]; rewrite Ev; cbn.
    { exists (Some er). split; [done|naive_solver]. }
    exfalso. apply Part_Verify_None in Ev as (V & Ht & _). apply verify_in_range in V; [|done].
    apply lookup_ge_None_1 in Eq. pose proof (pi_total _ I) as Ht'. fold h in Ht'.
    unfold Part_Index, zlen in *. lia. }
  destruct (Z.eqb_spec (pshView h) (ptView p)) as [Hv|Hv]; cbn [negb].
  2:{ exists (Some ErrPartView). split; [done|]. split; [done|]. intros [_ [_ _ Hv' _ _ _]]. congruence. }
  destruct (Z.eqb_spec (pshRound h) (ptRound p)) as [Hr|Hr]; cbn [negb].
  2:{ exists (Some ErrPartRound). split; [done|]. split; [done|]. intros [_ [_ _ _ Hr' _ _]]. congruence. }
  destruct (Part_Verify_total p (pshRoot h) (pshTotal h) (pshChainID h)) as [[er|] Ev]; rewrite Ev; cbn.
  - exists (Some er). split; [done|]. split; [done|]. intros [_ A].
    assert (Part_Verify p (pshRoot h) (pshTotal h) (pshChainID h) = Ret None) as Ev'; [|by rewrite Ev in Ev'].
    apply Part_Verify_None. by destruct A.
  - exists None. apply lookup_lt_Some in Eq as Hlt.
    rewrite upd_in_range by (unfold zlen; lia). split; [done|]. split; [|done]. intros _.
    apply Part_Verify_None in Ev as (V & Ht & Hc). split; [done|]. constructor; try done. lia.
Qed.

Lemma AddPart_inv ps p ps' err : ps_inv ps → zlen (pshRoot (psHeader ps)) = HashSize →
  0 ≤ Part_Index p → AddPart ps p = Ret (ps', err) → ps_inv ps' ∧ psHeader ps' = psHeader ps.
Proof.
  intros I Hroot Hi E. destruct (AddPart_spec ps p I Hroot Hi) as (er & E' & Hacc).
  rewrite E in E'. injection E' as -> ->. destruct er as [e|]; [done|]. split; [|done].
  destruct Hacc as [Hacc _]. destruct Hacc as [Hnone A]; [done|].
  apply lookup_lt_Some in Hnone as Hlt. constructor; cbn.
  - rewrite zlen_insert. apply I.
  - rewrite count_held_insert by done. rewrite (pi_count _ I). lia.
  - intros i q Hq. apply list_lookup_insert_Some in Hq as [(<- & [= <-] & _)|[_ Hq]]; [done|by apply I].
Qed.

(** The states a part set reaches from its header by receiving parts. *)
Inductive ps_reach (h : PartSetHeader) (hash : bytes) : PartSet → Prop :=
| reach_new ps : NewPartSet h hash = Ret ps → ps_reach h hash ps
| reach_add ps p ps' err : ps_reach h hash ps → Part_ValidateBasic p = None →
    AddPart ps p = Ret (ps', err) → ps_reach h hash ps'.

Lemma Part_ValidateBasic_index p : Part_ValidateBasic p = None → 0 ≤ Part_Index p.
Proof.
  unfold Part_ValidateBasic, Proof_ValidateBasic, Part_Index. do 4 (case_match; [done|]).
  case_match; [done|]. destruct (Z.ltb_spec (Index (ptProof p)) 0); [done|lia].
Qed.

Lemma ps_reach_inv h hash ps : zlen (pshRoot h) = HashSize → ps_reach h hash ps →
  ps_inv ps ∧ psHeader ps = h.
Proof.
  intros Hroot. induction 1 as [ps E|ps p ps' err _ [I Hh] V E].
  - split; [by eapply NewPartSet_inv|]. unfold NewPartSet in E. case_match; [done|]. by injection E as <-.
  - rewrite <- Hh in Hroot. apply Part_ValidateBasic_index in V.
    destruct (AddPart_inv ps p ps' err I Hroot V E) as [? ->]. done.
Qed.

(** The inputs hashed while the parts of a set were checked. *)
Definition parts_hashed (ps : PartSet) (x : bytes) : Prop :=
  ∃ i p, Parts ps !! i = Some (Some p) ∧
    x ∈ verify_hashed (Index (ptProof p)) (Total (ptProof p)) (ptBytes p) (reverse (Aunts (ptProof p))).

Lemma joined_chunks ps chunks : ps_inv ps → IsComplete ps = true →
  pshTotal (psHeader ps) = zlen chunks → HashFromByteSlices chunks = Ret (pshRoot (psHeader ps)) →
  (∃ parts, Parts ps = map Some parts ∧ map ptBytes parts = chunks) ∨
  CollisionIn (parts_hashed ps) (hashed chunks).
Proof.
  intros I Hc Ht Hr. unfold IsComplete in Hc. apply Z.eqb_eq in Hc.
  rewrite (pi_count _ I), (pi_total _ I) in Hc. symmetry in Hc.
  assert (length (Parts ps) = length chunks) as Hlen by (rewrite (pi_total _ I) in Ht; unfold zlen in Ht; lia).
  assert (∀ i c, chunks !! i = Some c → (∃ p, Parts ps !! i = Some (Some p) ∧ ptBytes p = c) ∨
    CollisionIn (parts_hashed ps) (hashed chunks)) as Hi.
  { intros i c Hci. apply lookup_lt_Some in Hci as Hlt.
    destruct (count_held_full _ Hc i) as [p Hp]; [lia|]. pose proof (pi_parts _ I i p Hp) as A.
    destruct (verify_item chunks _ (ptBytes p) (ptProof p) Hr) as [[_ Hl]|Hcol].
    - rewrite (pa_total _ _ _ A). lia.
    - apply A.
    - left. exists p. split; [done|]. pose proof (pa_index _ _ _ A) as Hx. unfold Part_Index in Hx.
      rewrite Hx, Nat2Z.id, Hci in Hl. by injection Hl.
    - right. eapply CollisionIn_mono; [done|..]; [|done]. intros x Hx. by exists i, p. }
  clear Hc Hr Ht I. revert Hi Hlen. generalize (CollisionIn (parts_hashed ps) (hashed chunks)) as C.
  generalize (Parts ps) as parts. clear ps. induction chunks as [|c chunks IH]; intros [|q parts] C Hi Hlen; try done.
  - left. by exists [].
  - destruct (Hi O c eq_refl) as [(p & [= ->] & Hb)|]; [|by right].
    destruct (IH parts C) as [(ps & -> & Hps)|]; [intros i; apply (Hi (S i))|by injection Hlen| |by right].
    left. exists (p :: ps). simpl. by rewrite Hb, Hps.
Qed.

Lemma joined_map ps parts : Parts ps = map Some parts → joined ps = Ret (concat (map ptBytes parts)).
Proof.
  intros E. unfold joined. rewrite E.
  assert (mapM_out (λ p, part ← deref p; Ret (ptBytes part)) (map Some parts) = Ret (map ptBytes parts)) as ->; [|done].
  clear E. induction parts as [|p parts IH]; [done|]. simpl. by rewrite IH.
Qed.

(** C20. In every reachable part set whose header carries the root and number of the
    chunks of some bytes: the count is the number of parts held, every part
    held belongs at its position and verifies, adding a part that passed
    [ValidateBasic] does not panic, and when the set is complete the joined
    parts are exactly those bytes, or an input hashed by a check collides with
    one hashed for the root. *)
Theorem PartSet_sound h hash ps chunks
    (Hroot : HashFromByteSlices chunks = Ret (pshRoot h)) (Htotal : pshTotal h = zlen chunks)
    (Hreach : ps_reach h hash ps) :
  ps_inv ps ∧
  (∀ p, Part_ValidateBasic p = None → ∃ ps' err, AddPart ps p = Ret (ps', err)) ∧
  (IsComplete ps = true → joined ps = Ret (concat chunks) ∨ CollisionIn (parts_hashed ps) (hashed chunks)).
Proof.
  pose proof (root_size _ _ Hroot) as Hsize.
  destruct (ps_reach_inv h hash ps Hsize Hreach) as [I Hh]. split; [done|]. split.
  - intros p V%Part_ValidateBasic_index. rewrite <- Hh in Hsize.
    destruct (AddPart_spec ps p I Hsize V) as (err & E & _). eauto.
  - intros Hc. destruct (joined_chunks ps chunks I Hc) as [(parts & E & Hp)|];
      [by rewrite Hh|by rewrite Hh|left|by right].
    by rewrite (joined_map _ _ E), Hp.
Qed.

(** ** Delivery *)

(** A validator receives parts one after the other. *)
Definition deliver (ps : PartSet) (parts : list Part) : outcome PartSet :=
  foldM (λ ps p, r ← AddPart ps p; Ret (fst r)) parts ps.

Lemma make_parts_spec c v r proofs chunks : ∀ k : nat,
  (k + length chunks ≤ length proofs)%nat →
  ∃ l, make_parts c v r (Z.of_nat k) chunks proofs = Ret (map Some l) ∧ map ptBytes l = chunks ∧
    ∀ j p, l !! j = Some p → ptChainID p = c ∧ ptView p = v ∧ ptRound p = r ∧
      proofs !! (k + j)%nat = Some (ptProof p).
Proof.
  induction chunks as [|bz chunks IH]; intros k Hk; [by exists []|]. simpl length in Hk.
  destruct (lookup_lt_is_Some_2 proofs k) as [pf Hpf]; [lia|].
  destruct (IH (S k)) as (l & E & Hb & Hl); [lia|].
  exists ({| ptChainID := c; ptView := v; ptRound := r; ptBytes := bz; ptProof := pf |} :: l).
  cbn [make_parts]. assert (idx proofs (Z.of_nat k) = Ret pf) as ->.
  { apply idx_Ret. rewrite Nat2Z.id. split; [lia|done]. }
  cbn [mbind outcome_bind]. replace (Z.of_nat k + 1) with (Z.of_nat (S k)) by lia. rewrite E.
  split; [done|]. split; [simpl; by rewrite Hb|]. intros [|j] p Hp; cbn in Hp.
  - injection Hp as <-. by rewrite Nat.add_0_r.
  - destruct (Hl j p Hp) as (? & ? & ? & Hpr). split_and!; try done.
    by replace (k + S j)%nat with (S k + j)%nat by lia.
Qed.

(** The part set of a block: the chunks of its bytes, each at its position. *)
Lemma PartSetFromBlock_spec b size round b1 pset : 0 < size → block_wf b → hash_computed b →
  PartSetFromBlock b size round = Ret (Some (b1, pset)) →
  ∃ b' bz chunks l, Block_ProtoBytes b = Ret (b', bz) ∧ concat chunks = bz ∧
    HashFromByteSlices chunks = Ret (pshRoot (psHeader pset)) ∧ Parts pset = map Some l ∧
    map ptBytes l = chunks ∧ pshTotal (psHeader pset) = zlen l ∧
    pshView (psHeader pset) = hdView (bHeader b) ∧ pshChainID (psHeader pset) = ChainID (bHeader b) ∧
    Ret (BlockHeaderHash pset) = snd <$> Block_Hash b ∧
    ∀ i p, l !! i = Some p → part_at (psHeader pset) i p.
Proof.
  intros Hs Hwf N E. unfold PartSetFromBlock in E.
  destruct (Block_ProtoBytes b) as [[b' bz]|] eqn:Eb; [|done]. cbn [mbind outcome_bind] in E.
  destruct (wire_roundtrip b b' bz Hwf N Eb) as (F & _ & _ & Eh).
  destruct (SplitByteArray_loop_spec (length bz) bz size 0 []) as (chunks & Ec & Hcat & _);
    [done|lia|unfold zlen; lia|].
  unfold SplitByteArray in E. rewrite Ec in E. cbn [mbind outcome_bind app] in E.
  destruct (proofs_spec chunks) as (hs & proofs & Ep & Er & Hlen & Hpr). rewrite Ep in E.
  cbn [mbind outcome_bind] in E.
  destruct (make_parts_spec (ChainID (bHeader b')) (hdView (bHeader b')) round proofs chunks 0) as (l & El & Hb & Hl);
    [lia|]. change 0 with (Z.of_nat 0) in E. rewrite El in E. cbn [mbind outcome_bind] in E.
  destruct (Block_Hash b') as [[b2 hash]|] eqn:Ebh; [|done]. cbn [mbind outcome_bind] in E.
  apply (f_equal (λ o, match o with Ret (Some (x, y)) => (x, y) | _ => (b1, pset) end)) in E. cbn in E.
  injection E as <- <-.
  assert (hdView (bHeader b2) = hdView (bHeader b') ∧ ChainID (bHeader b2) = ChainID (bHeader b')) as [Ev Ech].
  { destruct (decide (hd_hash (bHeader b') = [])) as [N'|N'].
    - destruct (Block_Hash_inv b' b2 hash N' Ebh) as (f & ? & ? & F' & _ & _ & _ & ->).
      cbn. by rewrite (fl_view _ _ F'), (fl_chain _ _ F').
    - rewrite Block_Hash_kept in Ebh by done. by injection Ebh as <- _. }
  exists b', bz, chunks, l.
  cbn [psHeader Parts BlockHeaderHash pshRoot pshTotal pshView pshChainID].
  assert (zlen (map Some l) = zlen l) as Hz by (unfold zlen; by rewrite length_map).
  split_and!; try done.
  - by rewrite Ev, (fl_view _ _ F).
  - by rewrite Ech, (fl_chain _ _ F).
  - intros i p Hp. destruct (Hl i p Hp) as (H1 & H2 & H3 & H4). simpl in H4.
    assert (chunks !! i = Some (ptBytes p)) as Hc by (rewrite <- Hb, list_lookup_fmap, Hp; done).
    destruct (Hpr i _ Hc) as (sp & Hsp & Ht & Hx & V & _). rewrite H4 in Hsp. injection Hsp as <-.
    constructor; cbn; try done; [rewrite Ht; unfold zlen; rewrite length_map, <- Hb, length_map; done|congruence..].
Qed.

(** A set that holds only parts of [l], each at its position. *)
Definition holds_of (l : list Part) (ps : PartSet) : Prop :=
  ∀ i q, Parts ps !! i = Some (Some q) → l !! i = Some q.

Lemma deliver_step h l ps i p : ps_inv ps → psHeader ps = h → zlen (pshRoot h) = HashSize →
  pshTotal h = zlen l → (∀ i p, l !! i = Some p → part_at h i p) → holds_of l ps → l !! i = Some p →
  ∃ ps' err, AddPart ps p = Ret (ps', err) ∧ ps_inv ps' ∧ psHeader ps' = h ∧
    BlockHeaderHash ps' = BlockHeaderHash ps ∧ holds_of l ps' ∧ Parts ps' !! i = Some (Some p) ∧
    ∀ j q, Parts ps !! j = Some (Some q) → Parts ps' !! j = Some (Some q).
Proof.
  intros I Hh Hr Ht Hl Hsub Hp. pose proof (Hl i p Hp) as A.
  assert (0 ≤ Part_Index p) as Hi by (rewrite (pa_index _ _ _ A); lia).
  assert (Z.to_nat (Part_Index p) = i) as Ei by (rewrite (pa_index _ _ _ A); lia).
  destruct (AddPart_spec ps p I) as (err & E & Hacc); [by rewrite Hh|done|].
  match type of E with _ = Ret (?x, _) => set (ps' := x) in E; exists ps', err end. split; [done|].
  destruct (AddPart_inv ps p ps' err I) as [I' Hh']; [by rewrite Hh|done|done|]. subst ps'.
  split; [done|]. split; [by rewrite Hh'|]. rewrite Ei in *.
  apply lookup_lt_Some in Hp as Hlt. pose proof (pi_total _ I) as Ht'. rewrite Hh, Ht in Ht'. unfold zlen in Ht'.
  destruct (lookup_lt_is_Some_2 (Parts ps) i) as [[q|] Hq]; [lia| |].
  - assert (err ≠ None) as He by (intros ->; destruct (proj1 Hacc eq_refl); congruence).
    destruct err; [|done]. split; [done|]. split; [done|]. split; [|done].
    rewrite (Hsub i q Hq) in Hp. by injection Hp as ->.
  - assert (err = None) as -> by (apply Hacc; split; [done|by rewrite Hh]). cbn.
    split; [done|]. split; [|split].
    + intros j q Hj. cbn in Hj. apply list_lookup_insert_Some in Hj as [(<- & [= <-] & _)|[_ Hj]];
        [done|by apply Hsub].
    + rewrite list_lookup_insert_eq; [done|lia].
    + intros j q Hj. rewrite list_lookup_insert_ne; [done|]. intros ->. congruence.
Qed.

Lemma deliver_spec h l parts : zlen (pshRoot h) = HashSize → pshTotal h = zlen l →
  (∀ i p, l !! i = Some p → part_at h i p) → (∀ p, p ∈ parts → p ∈ l) →
  ∀ ps, ps_inv ps → psHeader ps = h → holds_of l ps →
  ∃ ps', deliver ps parts = Ret ps' ∧ ps_inv ps' ∧ psHeader ps' = h ∧
    BlockHeaderHash ps' = BlockHeaderHash ps ∧ holds_of l ps' ∧
    (∀ j q, Parts ps !! j = Some (Some q) → Parts ps' !! j = Some (Some q)) ∧
    (∀ j q, l !! j = Some q → q ∈ parts → Parts ps' !! j = Some (Some q)).
Proof.
  intros Hr Ht Hl. unfold deliver. induction parts as [|p parts IH]; intros Hin ps I Hh Hsub.
  { exists ps. split_and!; try done. intros j q _ Hq. by apply not_elem_of_nil in Hq. }
  destruct (list_elem_of_lookup_1 l p) as [i Hi]; [apply Hin; by left|].
  destruct (deliver_step h l ps i p I Hh Hr Ht Hl Hsub Hi) as (ps1 & err & E & I1 & H1 & B1 & S1 & P1 & M1).
  destruct (IH ltac:(intros; apply Hin; by right) ps1 I1 H1 S1) as (ps' & E' & I' & H' & B' & S' & M' & A').
  exists ps'. cbn [foldM]. rewrite E. cbn [mbind outcome_bind fst]. split; [done|].
  split_and!; try done; [congruence|auto|].
  intros j q Hj Hq. apply elem_of_cons in Hq as [->|Hq]; [|by apply A'].
  pose proof (pa_index _ _ _ (Hl i p Hi)). pose proof (pa_index _ _ _ (Hl j p Hj)).
  replace j with i by lia. by apply M'.
Qed.

(** Receiving exactly the parts of [l], in any order and any number of times,
    completes the set announced by their header. *)
Lemma delivered h hash l parts : zlen (pshRoot h) = HashSize → pshTotal h = zlen l →
  (∀ i p, l !! i = Some p → part_at h i p) → (∀ p, p ∈ l ↔ p ∈ parts) →
  ∃ ps0 ps, NewPartSet h hash = Ret ps0 ∧ deliver ps0 parts = Ret ps ∧ Parts ps = map Some l ∧
    IsComplete ps = true ∧ psHeader ps = h ∧ BlockHeaderHash ps = hash.
Proof.
  intros Hr Ht Hl Hpl. pose proof (zlen_nonneg l) as Hnn.
  destruct (NewPartSet h hash) as [ps0|] eqn:E0;
    [|unfold NewPartSet in E0; destruct (Z.ltb_spec (pshTotal h) 0); [lia|done]].
  pose proof (NewPartSet_inv _ _ _ E0) as I0.
  assert (psHeader ps0 = h ∧ BlockHeaderHash ps0 = hash ∧ holds_of l ps0) as (H0 & B0 & S0).
  { unfold NewPartSet in E0. case_match; [done|]. injection E0 as <-. split_and!; [done..|].
    intros i q Hi%lookup_replicate. by destruct Hi. }
  destruct (deliver_spec h l parts Hr Ht Hl) with ps0
    as (ps & Ed & I & Hh' & Bh & Sub & _ & All); [intros; by apply Hpl|done|done|done|].
  assert (Parts ps = map Some l) as Eparts.
  { apply list_eq. intros i. change (map Some l) with (Some <$> l). rewrite list_lookup_fmap.
    destruct (l !! i) as [q|] eqn:Hq; cbn.
    - apply All; [done|]. apply Hpl. by eapply list_elem_of_lookup_2.
    - apply lookup_ge_None_2. apply lookup_ge_None_1 in Hq. pose proof (pi_total _ I) as Ht'.
      rewrite Hh', Ht in Ht'. unfold zlen in Ht'. lia. }
  exists ps0, ps. split_and!; try done; [|by rewrite Bh].
  unfold IsComplete. apply Z.eqb_eq. rewrite (pi_count _ I), (pi_total _ I), Eparts. clear.
  induction l as [|p l IH]; [done|]. cbn [map count_held]. rewrite zlen_cons. lia.
Qed.

(** C19. Delivery: a proposer splits its well-formed block, its hash cached as
    [make_block] leaves it or not yet computed, into parts and sends them with
    their header; a validator that receives all of them, in any order and with
    any repetition, and nothing else for that header, completes its set and,
    provided the block passes the basic validation, rebuilds it, with the hash
    the proposer has and announced. *)
Theorem PartSet_delivery b size round b1 pset parts
    (Hs : 0 < size) (Hwf : block_wf b) (N : hash_computed b)
    (E : PartSetFromBlock b size round = Ret (Some (b1, pset)))
    (Hin : ∀ p, p ∈ parts → Some p ∈ Parts pset) (Hall : ∀ p, Some p ∈ Parts pset → p ∈ parts)
    (Hvalid : ∀ b' bz, Block_ProtoBytes b = Ret (b', bz) → Block_ValidateBasic (wire_image b') = Ret None) :
  ∃ ps0 ps b' bz block, NewPartSet (psHeader pset) (BlockHeaderHash pset) = Ret ps0 ∧
    deliver ps0 parts = Ret ps ∧ Parts ps = Parts pset ∧ IsComplete ps = true ∧
    Block_ProtoBytes b = Ret (b', bz) ∧
    Block_Hash (wire_image b') = Ret (block, BlockHeaderHash pset) ∧
    (hd_hash (bHeader b) ≠ [] → BlockHeaderHash pset = hd_hash (bHeader b)) ∧
    GenBlock ps = Ret (Some block, None).
Proof.
  destruct (PartSetFromBlock_spec b size round b1 pset Hs Hwf N E)
    as (b' & bz & chunks & l & Eb & Hcat & Hr & Hps & Hb & Ht & Hv & Hc & Hh & Hl).
  destruct (wire_roundtrip b b' bz Hwf N Eb) as (F & Hdec & Himg & _).
  assert (∀ p, p ∈ l ↔ p ∈ parts) as Hpl.
  { intros p. assert (p ∈ l ↔ Some p ∈ Parts pset) as ->; [|naive_solver].
    rewrite Hps. change (map Some l) with (Some <$> l). rewrite list_elem_of_fmap. naive_solver. }
  destruct (delivered (psHeader pset) (BlockHeaderHash pset) l parts (root_size _ _ Hr) Ht Hl Hpl)
    as (ps0 & ps & E0 & Ed & Eparts & Hcomp & Hh' & Bh).
  destruct (Block_Hash (wire_image b')) as [[block hash]|] eqn:Ebw; [|rewrite <- Himg in Hh; done].
  assert (hd_hash (bHeader b) ≠ [] → BlockHeaderHash pset = hd_hash (bHeader b)) as Hann.
  { intros Hne. rewrite Block_Hash_kept in Hh by done. by injection Hh. }
  rewrite <- Himg in Hh. cbn in Hh. injection Hh as Hh.
  exists ps0, ps, b', bz, block. split_and!; try done; [congruence|by rewrite Hh|].
  unfold GenBlock. rewrite Hcomp. cbn [negb]. rewrite (joined_map _ _ Eparts), Hb, Hcat.
  cbn [mbind outcome_bind]. rewrite Hdec. cbn [mbind outcome_bind wire_image bHeader ChainID hdView].
  rewrite Hh', Hc, Hv, (fl_chain _ _ F), (fl_view _ _ F), bool_decide_false by (intros Hn; by apply Hn).
  rewrite Z.eqb_refl. cbn [negb]. fold (wire_image b'). rewrite (Hvalid b' bz Eb). cbn [mbind outcome_bind].
  rewrite Ebw. cbn [mbind outcome_bind]. by rewrite Bh, Hh, bytes_Equal_refl.
Qed.

End Parts.
