(* ===== verification/PyrTypes.v ===== *)
(** * Pyramid blocks

    Models [source/pyramid/types]: transactions and their proofs ([tx.go]),
    blocks ([block.go]) and execution results ([abci-resp.go]); and what the
    hash of a block commits to.  A byte slice is a list, nil being the empty
    one: the code only looks at lengths. *)

From stdpp Require Import base list gmap strings numbers.
From Stdlib Require Import ZArith Lia.
From S2P Require Import Prelude Convert BitVector Hash Merkle MerkleProofs MerkleGen Wire Signer.

(** ** Data *)

Abbreviation Tx := bytes.
Abbreviation Txs := (list bytes).

Record TxProof := { tpRootHash : bytes; tpData : Tx; tpProof : MerkleProof }.

Definition BLOCKTYPE_I : Z := 1.
Definition BLOCKTYPE_B : Z := 2.
Definition BLOCKTYPE_InnerShard : Z := 3.
Definition BLOCKTYPE_CrossShard : Z := 4.
Definition BLOCKTYPE_BCommitBlock : Z := 5.
Definition BLOCKTYPE_ICommitBlock : Z := 6.
Definition BLOCKTYPE_IAcceptBlock : Z := 7.

Record Header := {
  BlockType : Z; HashPointer : bytes; ChainID : string; Height : Z; Time : GoTime;
  BodyRoot : bytes; CrossShardBodyRoot : bytes; StateRoot : bytes; ReceiptRoot : bytes;
  RelationRoot : bytes
}.
Record Relation := { RelatedCommitStatus : list bytes; RelatedHash : list bytes; MyCommitStatus : bytes }.
Record CrossShardBody := { CrossShardTxs : Txs; CrossShardDatas : list bytes }.
Record Body := { BodyTxs : Txs }.
Record Commit := { cmHeight : Z; cmRound : Z; cmBlockHash : bytes; Sigs : list bytes; cmhash : slice }.
(** The embedded structs of a block are fields. *)
Record Block := {
  bHeader : Header; bBody : Body; bCross : CrossShardBody; bRelation : Relation; blockhash : bytes
}.

Definition CodeTypeOK : Z := 1.
Definition CodeTypeEncodingError : Z := 2.
Definition CodeTypeAbort : Z := 3.
Definition CodeTypeUnknownError : Z := 4.

Record ABCIPreExecutionResponseB := { pbCode : Z; pbDatas : list bytes; pbErrors : list bool }.
Record ABCIPreExecutionResponseI := { piCode : Z; piErrors : list bool }.
Record ABCIExecutionReceipt := { rCode : Z; rLog : string; rInfo : string; rOptions : gmap string string }.
Record ABCIExecutionResponse := { Receipts : list ABCIExecutionReceipt }.

(** The protobuf messages.  A field that is a message may be absent. *)
Record PHeader := {
  phBlockType : Z; phHashPointer : bytes; phChainID : string; phHeight : Z; phTime : option PTimestamp;
  phBodyRoot : bytes; phCrossShardBodyRoot : bytes; phStateRoot : bytes; phReceiptRoot : bytes;
  phRelationRoot : bytes
}.
Record PCrossShardBody := { pcTxs : list bytes; pcDatas : list bytes }.
Record PBody := { pbTxs : list bytes }.
Record PRelation := { prRelatedCommitStatus : list bytes; prRelatedHash : list bytes; prMyCommitStatus : bytes }.
Record PCommit := { pcmHeight : Z; pcmRound : Z; pcmBlockHash : bytes; pcmSigs : list bytes }.
Record PBlock := {
  pkHeader : option PHeader; pkBody : option PBody; pkCross : option PCrossShardBody;
  pkRelation : option PRelation
}.
Record PReceipt := { pcCode : Z; pcLog : string; pcInfo : string; pcOptions : gmap string string }.

(** [StdTimeMarshal] of the gogo library writes the instant of a time, and
    fails outside the years 1 to 9999. *)
Class PyrWire := {
  pyr_header_codec :: ProtoCodec PHeader;
  pyr_relation_codec :: ProtoCodec PRelation;
  pyr_commit_codec :: ProtoCodec PCommit;
  pyr_block_codec :: ProtoCodec PBlock;
  pyr_receipt_codec :: ProtoCodec PReceipt;
  StdTimeMarshal : GoTime → option bytes;
  StdTimeMarshal_inj : ∀ t t' bz, StdTimeMarshal t = Some bz → StdTimeMarshal t' = Some bz → t = t'
}.

Section Types.
Context {H : HashFn}.

(** ** tx.go *)
Definition Tx_Hash (tx : Tx) : bytes := Sum tx.
Definition Tx_Size (tx : Tx) : Z := zlen tx.
Definition Txs_Hash (txs : Txs) : outcome bytes := HashFromByteSlices (map Tx_Hash txs).
Fixpoint index_from (test : Tx → bool) (txs : Txs) (i : Z) : Z :=
  match txs with
  | [] => -1
  | t :: txs' => if test t then i else index_from test txs' (i + 1)
  end.
Definition Txs_Index (txs : Txs) (tx : Tx) : Z := index_from (λ t, bytes_Equal t tx) txs 0.
Definition Txs_IndexByHash (txs : Txs) (hash : bytes) : Z :=
  index_from (λ t, bytes_Equal (Tx_Hash t) hash) txs 0.
Definition Txs_Proof (txs : Txs) (i : Z) : outcome TxProof :=
  '(root, proofs) ← ProofsFromByteSlices (map Tx_Hash txs);
  data ← idx txs i;
  proof ← idx proofs i;
  Ret {| tpRootHash := root; tpData := data; tpProof := proof |}.
Definition Txs_Size (txs : Txs) : Z := zlen txs.
Definition Txs_ToProto (txs : Txs) : list bytes := txs.
Definition NewTxsFromProto (p : list bytes) : Txs := p.

Definition TxProof_Leaf (tp : TxProof) : bytes := Tx_Hash (tpData tp).
Inductive txproof_error := ErrDataHash | ErrIndexNeg | ErrTotalPos | ErrInconsistent.
Definition TxProof_Validate (tp : TxProof) (dataHash : bytes) : outcome (option txproof_error) :=
  if negb (bytes_Equal dataHash (tpRootHash tp)) then Ret (Some ErrDataHash)
  else if Index (tpProof tp) <? 0 then Ret (Some ErrIndexNeg)
  else if Total (tpProof tp) <=? 0 then Ret (Some ErrTotalPos)
  else
    valid ← Proof_Verify (tpProof tp) (tpRootHash tp) (TxProof_Leaf tp);
    Ret (match valid with Some _ => Some ErrInconsistent | None => None end).

(** ** abci-resp.go *)
Definition RespB_IsOK (resp : ABCIPreExecutionResponseB) : bool := pbCode resp =? CodeTypeOK.
Definition RespI_IsOK (resp : ABCIPreExecutionResponseI) : bool := piCode resp =? CodeTypeOK.
Definition Receipt_IsOK (r : ABCIExecutionReceipt) : bool := rCode r =? CodeTypeOK.
Definition Receipt_ToProto (r : ABCIExecutionReceipt) : PReceipt :=
  {| pcCode := int32 (rCode r); pcLog := rLog r; pcInfo := rInfo r; pcOptions := rOptions r |}.
Definition NewABCIReceiptFromProto (p : PReceipt) : ABCIExecutionReceipt :=
  {| rCode := int8 (pcCode p); rLog := pcLog p; rInfo := pcInfo p; rOptions := pcOptions p |}.

(** ** block.go *)
Definition Relation_Hash (r : Relation) : outcome bytes :=
  a ← HashFromByteSlices (RelatedCommitStatus r);
  b ← HashFromByteSlices (RelatedHash r);
  HashFromByteSlices [a; b; MyCommitStatus r].
Definition Relation_ToProto (r : Relation) : PRelation :=
  {| prRelatedCommitStatus := RelatedCommitStatus r; prRelatedHash := RelatedHash r;
     prMyCommitStatus := MyCommitStatus r |}.
Definition NewRelationFromProto (p : PRelation) : Relation :=
  {| RelatedCommitStatus := prRelatedCommitStatus p; RelatedHash := prRelatedHash p;
     MyCommitStatus := prMyCommitStatus p |}.

Definition CrossShardBody_Hash (b : CrossShardBody) : outcome bytes :=
  a ← Txs_Hash (CrossShardTxs b);
  d ← HashFromByteSlices (CrossShardDatas b);
  HashFromByteSlices [a; d].
Definition CrossShardBody_ToProto (b : CrossShardBody) : PCrossShardBody :=
  {| pcTxs := Txs_ToProto (CrossShardTxs b); pcDatas := CrossShardDatas b |}.
Definition NewCrossShardBodyFromProto (p : PCrossShardBody) : CrossShardBody :=
  {| CrossShardTxs := NewTxsFromProto (pcTxs p); CrossShardDatas := pcDatas p |}.

Definition Body_Hash (b : Body) : outcome bytes := Txs_Hash (BodyTxs b).
Definition Body_ToProto (b : Body) : PBody := {| pbTxs := Txs_ToProto (BodyTxs b) |}.
Definition NewBodyFromProto (p : PBody) : Body := {| BodyTxs := NewTxsFromProto (pbTxs p) |}.

Definition Commit_Hash (c : Commit) : outcome bytes :=
  match cmhash c with
  | Some h => Ret h
  | None =>
      s ← HashFromByteSlices (Sigs c);
      HashFromByteSlices [sbytes (IntToBytes (NInt64 (cmHeight c))); sbytes (IntToBytes (NInt (cmRound c)));
        cmBlockHash c; s]
  end.
Definition Commit_ToProto (c : Commit) : PCommit :=
  {| pcmHeight := cmHeight c; pcmRound := int32 (cmRound c); pcmBlockHash := cmBlockHash c; pcmSigs := Sigs c |}.
Definition NewCommitFromProto (p : PCommit) : Commit :=
  {| cmHeight := pcmHeight p; cmRound := pcmRound p; cmBlockHash := pcmBlockHash p; Sigs := pcmSigs p;
     cmhash := None |}.

Definition Header_ToProto (h : Header) : PHeader :=
  {| phBlockType := int32 (BlockType h); phHashPointer := HashPointer h; phChainID := ChainID h;
     phHeight := Height h; phTime := Some (ThirdPartyProtoTime (Time h)); phBodyRoot := BodyRoot h;
     phCrossShardBodyRoot := CrossShardBodyRoot h; phStateRoot := StateRoot h;
     phReceiptRoot := ReceiptRoot h; phRelationRoot := RelationRoot h |}.
Definition NewHeaderFromProto (p : PHeader) : Header :=
  {| BlockType := int8 (phBlockType p); HashPointer := phHashPointer p; ChainID := phChainID p;
     Height := phHeight p; Time := ThirdPartyUnmarshalTime (phTime p); BodyRoot := phBodyRoot p;
     CrossShardBodyRoot := phCrossShardBodyRoot p; StateRoot := phStateRoot p;
     ReceiptRoot := phReceiptRoot p; RelationRoot := phRelationRoot p |}.

Definition Block_ToProto (b : Block) : PBlock :=
  {| pkHeader := Some (Header_ToProto (bHeader b)); pkBody := Some (Body_ToProto (bBody b));
     pkCross := Some (CrossShardBody_ToProto (bCross b)); pkRelation := Some (Relation_ToProto (bRelation b)) |}.
Definition NewBlockFromProto (p : PBlock) : outcome Block :=
  h ← deref (pkHeader p);
  b ← deref (pkBody p);
  c ← deref (pkCross p);
  r ← deref (pkRelation p);
  Ret {| bHeader := NewHeaderFromProto h; bBody := NewBodyFromProto b; bCross := NewCrossShardBodyFromProto c;
         bRelation := NewRelationFromProto r; blockhash := [] |}.
Definition Block_ValidateBasic (b : Block) : option unit := None.

Context {W : PyrWire}.

Definition Receipt_ProtoBytes (r : ABCIExecutionReceipt) : outcome bytes := MustProtoBytes (Receipt_ToProto r).
Definition NewABCIReceiptFromBytes (bz : bytes) : option ABCIExecutionReceipt :=
  option_map NewABCIReceiptFromProto (unmarshal bz).
Definition Header_ProtoBytes (h : Header) : outcome bytes := MustProtoBytes (Header_ToProto h).
Definition NewHeaderFromBytes (bz : bytes) : option Header := option_map NewHeaderFromProto (unmarshal bz).
Definition Relation_ProtoBytes (r : Relation) : outcome bytes := MustProtoBytes (Relation_ToProto r).
Definition NewRelationFromBytes (bz : bytes) : option Relation := option_map NewRelationFromProto (unmarshal bz).
Definition Commit_ProtoBytes (c : Commit) : outcome bytes := MustProtoBytes (Commit_ToProto c).
Definition NewCommitFromBytes (bz : bytes) : option Commit := option_map NewCommitFromProto (unmarshal bz).
Definition Block_ProtoBytes (b : Block) : outcome bytes := MustProtoBytes (Block_ToProto b).
Definition NewBlockFromBytes (bz : bytes) : outcome (option Block) :=
  match unmarshal bz with
  | None => Ret None
  | Some p => b ← NewBlockFromProto p; Ret (Some b)
  end.

(** The leaves of a header, and its hash: nil when the time cannot be written. *)
Definition header_leaves (h : Header) (pbt : bytes) : list bytes :=
  [sbytes (IntToBytes (NInt8 (BlockType h))); HashPointer h; str_bytes (ChainID h);
   sbytes (IntToBytes (NInt64 (Height h))); pbt; BodyRoot h; CrossShardBodyRoot h; StateRoot h;
   ReceiptRoot h; RelationRoot h].
Definition Header_Hash (h : Header) : outcome bytes :=
  match StdTimeMarshal (Time h) with
  | None => Ret []
  | Some pbt => HashFromByteSlices (header_leaves h pbt)
  end.

Definition with_roots (h : Header) (body receipt cross : bytes) : Header :=
  {| BlockType := BlockType h; HashPointer := HashPointer h; ChainID := ChainID h; Height := Height h;
     Time := Time h; BodyRoot := body; CrossShardBodyRoot := cross; StateRoot := StateRoot h;
     ReceiptRoot := receipt; RelationRoot := RelationRoot h |}.
Definition not_hash (bz : bytes) : bool := negb (zlen bz =? HashSize).
(** The second branch tests the relation root and writes the receipt root. *)
Definition fillHeader (b : Block) : outcome Block :=
  let h := bHeader b in
  body ← (if not_hash (BodyRoot h) then Body_Hash (bBody b) else Ret (BodyRoot h));
  receipt ← (if not_hash (RelationRoot h) then Relation_Hash (bRelation b) else Ret (ReceiptRoot h));
  cross ← (if not_hash (CrossShardBodyRoot h) then CrossShardBody_Hash (bCross b) else Ret (CrossShardBodyRoot h));
  Ret {| bHeader := with_roots h body receipt cross; bBody := bBody b; bCross := bCross b;
         bRelation := bRelation b; blockhash := blockhash b |}.
Definition Block_Hash (b : Block) : outcome (Block * bytes) :=
  b ← fillHeader b;
  if not_hash (blockhash b) then
    h ← Header_Hash (bHeader b);
    Ret ({| bHeader := bHeader b; bBody := bBody b; bCross := bCross b; bRelation := bRelation b;
            blockhash := h |}, h)
  else Ret (b, blockhash b).

(** ** What a transaction proof shows *)

Lemma txs_hash_inj (P Q : bytes → Prop) t1 t2 : (∀ t, t ∈ t1 → P t) → (∀ t, t ∈ t2 → Q t) →
  map Tx_Hash t1 = map Tx_Hash t2 → t1 = t2 ∨ CollisionIn P Q.
Proof.
  revert t2; induction t1 as [|x t1 IH]; intros [|y t2] HP HQ E; cbn in E; try done; [by left|].
  injection E as Ex E.
  destruct (Sum_inj P Q x y) as [->|]; [apply HP; by left|apply HQ; by left|done| |by right].
  destruct (IH t2) as [->|]; [intros; apply HP; by right|intros; apply HQ; by right|done|by left|by right].
Qed.

(** Every transaction of a list has a proof that validates against the list's
    hash; and a proof that validates against it and announces the list's length
    is about the transaction at its index, or two different inputs that were
    hashed have the same digest. *)
Theorem TxProof_correct (txs : Txs) root (Hroot : Txs_Hash txs = Ret root) :
  (∀ i tx, txs !! i = Some tx → ∃ tp, Txs_Proof txs (Z.of_nat i) = Ret tp ∧ tpData tp = tx ∧
     TxProof_Validate tp root = Ret None) ∧
  (∀ tp, TxProof_Validate tp root = Ret None → Total (tpProof tp) = zlen txs →
     txs !! Z.to_nat (Index (tpProof tp)) = Some (tpData tp) ∨
     CollisionIn (λ x, x = tpData tp ∨ x ∈ verify_hashed (Index (tpProof tp)) (Total (tpProof tp)) (TxProof_Leaf tp)
                         (reverse (Aunts (tpProof tp))))
       (λ x, x ∈ txs ∨ hashed (map Tx_Hash txs) x)).
Proof.
  unfold Txs_Hash in Hroot. split.
  - intros i tx Hi. destruct (proofs_spec (map Tx_Hash txs)) as (root' & proofs & E & R & Hlen & Hp).
    rewrite R in Hroot. injection Hroot as ->.
    destruct (Hp i (Tx_Hash tx)) as (sp & Hsp & Ht & Hx & V & _).
    { change (map Tx_Hash txs) with (Tx_Hash <$> txs). rewrite list_lookup_fmap, Hi. done. }
    exists {| tpRootHash := root; tpData := tx; tpProof := sp |}. unfold Txs_Proof. rewrite E.
    assert (idx txs (Z.of_nat i) = Ret tx) as Et by (apply idx_Ret; rewrite Nat2Z.id; split; [lia|done]).
    assert (idx proofs (Z.of_nat i) = Ret sp) as Ep by (apply idx_Ret; rewrite Nat2Z.id; split; [lia|done]).
    cbn [mbind outcome_bind]. rewrite Et, Ep.
    split_and!; [done..|]. unfold TxProof_Validate, TxProof_Leaf. cbn [tpRootHash tpProof tpData].
    rewrite bytes_Equal_refl. cbn [negb]. apply lookup_lt_Some in Hi.
    assert (zlen (map Tx_Hash txs) = zlen txs) as Hz by (unfold zlen; by rewrite length_map).
    unfold zlen in Hz. destruct (Z.ltb_spec (Index sp) 0); [lia|].
    destruct (Z.leb_spec (Total sp) 0); [unfold zlen in Ht; lia|]. by rewrite V.
  - intros tp E Ht. unfold TxProof_Validate in E.
    destruct (bytes_Equal root (tpRootHash tp)) eqn:Er; [|done]. bool_to_prop. subst root.
    cbn [negb] in E. do 2 (case_match; [done|]).
    apply outcome_bind_Ret in E as (v & Ev & E). destruct v; [done|].
    destruct (verify_item (map Tx_Hash txs) (tpRootHash tp) (TxProof_Leaf tp) (tpProof tp)) as [[_ Hl]|Hc];
      [done|by unfold zlen; rewrite length_map|done| |].
    + change (map Tx_Hash txs) with (Tx_Hash <$> txs) in Hl. apply list_lookup_fmap_Some in Hl as (tx & Hs & Htx).
      match goal with |- _ ∨ CollisionIn ?P ?Q => destruct (Sum_inj P Q (tpData tp) tx) as [->|] end;
        [by left|left; by eapply list_elem_of_lookup_2|done|by left|by right].
    + right. eapply CollisionIn_mono; [done|..]; cbn; eauto.
Qed.

(** ** What a block hash commits to *)

(** The values the code's integer types can hold. *)
Definition header_wf (h : Header) : Prop := - 2 ^ 7 ≤ BlockType h < 2 ^ 7 ∧ - 2 ^ 63 ≤ Height h < 2 ^ 63.

(** A block as [createBlockAndBroadcast] builds it and as its parts carry it:
    no root is set, no hash is cached. *)
Record fresh (b : Block) : Prop := {
  fr_wf : header_wf (bHeader b);
  fr_body : BodyRoot (bHeader b) = [];
  fr_cross : CrossShardBodyRoot (bHeader b) = [];
  fr_relation : RelationRoot (bHeader b) = [];
  fr_hash : blockhash b = []
}.

(** The lists hashed by [Block_Hash], and everything it feeds to the hash
    function. *)
Inductive hash_list (b : Block) : list bytes → Prop :=
| hl_body : hash_list b (map Tx_Hash (BodyTxs (bBody b)))
| hl_cross_txs : hash_list b (map Tx_Hash (CrossShardTxs (bCross b)))
| hl_datas : hash_list b (CrossShardDatas (bCross b))
| hl_cross x y : Txs_Hash (CrossShardTxs (bCross b)) = Ret x → HashFromByteSlices (CrossShardDatas (bCross b)) = Ret y →
    hash_list b [x; y]
| hl_status : hash_list b (RelatedCommitStatus (bRelation b))
| hl_hashes : hash_list b (RelatedHash (bRelation b))
| hl_relation x y : HashFromByteSlices (RelatedCommitStatus (bRelation b)) = Ret x →
    HashFromByteSlices (RelatedHash (bRelation b)) = Ret y → hash_list b [x; y; MyCommitStatus (bRelation b)]
| hl_header body rel cross pbt : Body_Hash (bBody b) = Ret body → Relation_Hash (bRelation b) = Ret rel →
    CrossShardBody_Hash (bCross b) = Ret cross → StdTimeMarshal (Time (bHeader b)) = Some pbt →
    hash_list b (header_leaves (with_roots (bHeader b) body rel cross) pbt).
Definition block_hashed (b : Block) (x : bytes) : Prop :=
  x ∈ BodyTxs (bBody b) ∨ x ∈ CrossShardTxs (bCross b) ∨ ∃ l, hash_list b l ∧ hashed l x.

Section Binding.
Context (b1 b2 : Block).
Abbreviation collides := (CollisionIn (block_hashed b1) (block_hashed b2)).

Lemma lists_bind xs ys h : hash_list b1 xs → hash_list b2 ys →
  HashFromByteSlices xs = Ret h → HashFromByteSlices ys = Ret h → xs = ys ∨ collides.
Proof.
  intros L1 L2 E1 E2. destruct (root_inj xs ys h E1 E2) as [|Hc]; [by left|right].
  eapply CollisionIn_mono; [done|..]; intros x Hx; right; right; eauto.
Qed.
Lemma txs_bind t1 t2 h : hash_list b1 (map Tx_Hash t1) → hash_list b2 (map Tx_Hash t2) →
  (∀ t, t ∈ t1 → block_hashed b1 t) → (∀ t, t ∈ t2 → block_hashed b2 t) →
  Txs_Hash t1 = Ret h → Txs_Hash t2 = Ret h → t1 = t2 ∨ collides.
Proof.
  intros L1 L2 I1 I2 E1 E2. destruct (lists_bind _ _ _ L1 L2 E1 E2) as [E|]; [|by right].
  by apply txs_hash_inj.
Qed.
Lemma body_bind h : Body_Hash (bBody b1) = Ret h → Body_Hash (bBody b2) = Ret h →
  bBody b1 = bBody b2 ∨ collides.
Proof.
  intros E1 E2. destruct (txs_bind _ _ h (hl_body b1) (hl_body b2)) as [E|]; [by left|by left|done..| |by right].
  left. destruct (bBody b1), (bBody b2); cbn in *; congruence.
Qed.
Lemma cross_bind h : CrossShardBody_Hash (bCross b1) = Ret h → CrossShardBody_Hash (bCross b2) = Ret h →
  bCross b1 = bCross b2 ∨ collides.
Proof.
  unfold CrossShardBody_Hash. intros E1 E2. do 2 bind_inv E1. do 2 bind_inv E2.
  destruct (lists_bind _ _ _ (hl_cross b1 _ _ Hx Hx0) (hl_cross b2 _ _ Hx1 Hx2) E1 E2) as [[= -> ->]|]; [|by right].
  destruct (txs_bind _ _ x1 (hl_cross_txs b1) (hl_cross_txs b2)) as [Et|];
    [intros; right; by left|intros; right; by left|done..| |by right].
  destruct (lists_bind _ _ _ (hl_datas b1) (hl_datas b2) Hx0 Hx2) as [Ed|]; [|by right].
  left. destruct (bCross b1), (bCross b2); cbn in *; congruence.
Qed.
Lemma relation_bind h : Relation_Hash (bRelation b1) = Ret h → Relation_Hash (bRelation b2) = Ret h →
  bRelation b1 = bRelation b2 ∨ collides.
Proof.
  unfold Relation_Hash. intros E1 E2. do 2 bind_inv E1. do 2 bind_inv E2.
  destruct (lists_bind _ _ _ (hl_relation b1 _ _ Hx Hx0) (hl_relation b2 _ _ Hx1 Hx2) E1 E2) as [[= -> -> Em]|]; [|by right].
  destruct (lists_bind _ _ _ (hl_status b1) (hl_status b2) Hx Hx1) as [Es|]; [|by right].
  destruct (lists_bind _ _ _ (hl_hashes b1) (hl_hashes b2) Hx0 Hx2) as [Eh|]; [|by right].
  left. destruct (bRelation b1), (bRelation b2); cbn in *; congruence.
Qed.
End Binding.

Lemma cons_inv {A} (x y : A) l k : x :: l = y :: k → x = y ∧ l = k.
Proof. by intros [= -> ->]. Qed.

(** The fields of a header its hash covers, roots aside. *)
Definition header_fields (h : Header) := (BlockType h, HashPointer h, ChainID h, Height h, Time h, StateRoot h).

Lemma header_leaves_inj h1 h2 p1 p2 : header_wf h1 → header_wf h2 →
  StdTimeMarshal (Time h1) = Some p1 → StdTimeMarshal (Time h2) = Some p2 →
  header_leaves h1 p1 = header_leaves h2 p2 →
  header_fields h1 = header_fields h2 ∧ BodyRoot h1 = BodyRoot h2 ∧
  CrossShardBodyRoot h1 = CrossShardBodyRoot h2 ∧ ReceiptRoot h1 = ReceiptRoot h2 ∧ RelationRoot h1 = RelationRoot h2.
Proof.
  intros [Ht1 Hh1] [Ht2 Hh2] E1 E2 E. unfold header_leaves in E. cbn [sbytes IntToBytes] in E.
  
  apply cons_inv in E as [Et E]. apply cons_inv in E as [Ehp E]. apply cons_inv in E as [Es E].
  apply cons_inv in E as [Eh E]. injection E as -> Eb Ec Est Er Erl. injection Et as Et.
  assert (BlockType h1 = BlockType h2) as Ety by (apply (wrapS_inj 8); [lia..|done]).
  assert (Height h1 = Height h2) as Ehe.
  { apply (wrapS_inj 64); [lia..|]. apply (le_encode_inj 8); [apply (wrapU_range 64); lia..|done]. }
  apply str_bytes_inj in Es. split_and!; try done. unfold header_fields.
  by rewrite Ety, Ehe, Es, Ehp, Est, (StdTimeMarshal_inj _ _ p2 E1 E2).
Qed.

Lemma fresh_hash b b' h : fresh b → Block_Hash b = Ret (b', h) → h ≠ [] →
  ∃ body rel cross pbt, Body_Hash (bBody b) = Ret body ∧ Relation_Hash (bRelation b) = Ret rel ∧
    CrossShardBody_Hash (bCross b) = Ret cross ∧ StdTimeMarshal (Time (bHeader b)) = Some pbt ∧
    HashFromByteSlices (header_leaves (with_roots (bHeader b) body rel cross) pbt) = Ret h.
Proof.
  intros F E Hne. unfold Block_Hash, fillHeader in E. rewrite (fr_body _ F), (fr_cross _ F), (fr_relation _ F) in E.
  cbn [not_hash negb] in E. change (not_hash []) with true in E. apply outcome_bind_Ret in E as (bf & Ef & E).
  do 3 bind_inv Ef. injection Ef as <-. cbn [blockhash] in E. rewrite (fr_hash _ F) in E.
  change (not_hash []) with true in E. cbn [bHeader] in E. bind_inv E. injection E as <- <-.
  unfold Header_Hash in Hx2. cbn [with_roots Time] in Hx2.
  destruct (StdTimeMarshal (Time (bHeader b))) as [pbt|] eqn:Et; [|congruence].
  by exists x, x0, x1, pbt.
Qed.

(** C18. Two freshly built blocks with the same hash have the same type, pointer,
    chain, height, time, state root, body, cross-shard body and relation; or two
    different inputs hashed on the way have the same digest.  (The hash is empty
    when the time cannot be written, which is excluded.) *)
Theorem PyrBlock_Hash_binds b1 b2 b1' b2' h (F1 : fresh b1) (F2 : fresh b2) (Hne : h ≠ [])
    (E1 : Block_Hash b1 = Ret (b1', h)) (E2 : Block_Hash b2 = Ret (b2', h)) :
  (header_fields (bHeader b1) = header_fields (bHeader b2) ∧ bBody b1 = bBody b2 ∧ bCross b1 = bCross b2 ∧
   bRelation b1 = bRelation b2) ∨ CollisionIn (block_hashed b1) (block_hashed b2).
Proof.
  destruct (fresh_hash _ _ _ F1 E1 Hne) as (y1 & r1 & c1 & p1 & B1 & R1 & C1 & T1 & L1).
  destruct (fresh_hash _ _ _ F2 E2 Hne) as (y2 & r2 & c2 & p2 & B2 & R2 & C2 & T2 & L2).
  destruct (lists_bind b1 b2 _ _ _ (hl_header b1 _ _ _ _ B1 R1 C1 T1)
    (hl_header b2 _ _ _ _ B2 R2 C2 T2) L1 L2) as [E|]; [|by right].
  apply header_leaves_inj in E as (Ef & Eb & Ec & Er & _); [|apply F1|apply F2|done..].
  cbn in Eb, Ec, Er. subst y2 c2 r2.
  destruct (body_bind b1 b2 y1 B1 B2) as [|]; [|by right].
  destruct (cross_bind b1 b2 c1 C1 C2) as [|]; [|by right].
  destruct (relation_bind b1 b2 r1 R1 R2) as [|]; [|by right]. by left.
Qed.

Definition set_receipt (b : Block) (root : bytes) : Block :=
  {| bHeader := with_roots (bHeader b) (BodyRoot (bHeader b)) root (CrossShardBodyRoot (bHeader b));
     bBody := bBody b; bCross := bCross b; bRelation := bRelation b; blockhash := blockhash b |}.
(** The hash of a block does not cover the receipts of the chain: a block whose
    relation root is not set, as in every block the code builds, hashes to the
    same value whatever receipt root its header carries, because filling in the
    header overwrites it with the hash of the relation. *)
Theorem PyrBlock_Hash_drops_receipts b root (Hr : not_hash (RelationRoot (bHeader b)) = true) :
  Block_Hash (set_receipt b root) = Block_Hash b.
Proof. unfold Block_Hash, fillHeader. cbn [set_receipt bHeader with_roots BodyRoot RelationRoot CrossShardBodyRoot]. by rewrite Hr. Qed.

(** A block sent to another node is read back as it was, less its cached hash. *)
Lemma pyr_roundtrip b bz : header_wf (bHeader b) →
  - 2 ^ 63 ≤ unix (Time (bHeader b)) < 2 ^ 63 → 0 ≤ nsec (Time (bHeader b)) < 10 ^ 9 →
  Block_ProtoBytes b = Ret bz →
  NewBlockFromBytes bz = Ret (Some {| bHeader := bHeader b; bBody := bBody b; bCross := bCross b;
                                      bRelation := bRelation b; blockhash := [] |}).
Proof.
  intros [Ht _] Hu Hn. unfold Block_ProtoBytes, MustProtoBytes. destruct (marshal _) as [bz'|] eqn:E; [|done].
  intros [= ->]. apply unmarshal_marshal in E. unfold NewBlockFromBytes. rewrite E. cbn. do 2 f_equal.
  destruct b as [h bd c r k]. cbn in *. f_equal; [|by destruct bd|by destruct c|by destruct r].
  unfold NewHeaderFromProto, Header_ToProto. cbn [phBlockType phHashPointer phChainID phHeight phTime phBodyRoot
    phCrossShardBodyRoot phStateRoot phReceiptRoot phRelationRoot]. rewrite time_roundtrip by done.
  rewrite (wrapS_small 32), (wrapS_small 8) by lia. by destruct h.
Qed.

(** The hash of a commit does not depend on its round. *)
Lemma Commit_Hash_ignores_round c r :
  Commit_Hash {| cmHeight := cmHeight c; cmRound := r; cmBlockHash := cmBlockHash c; Sigs := Sigs c; cmhash := cmhash c |}
  = Commit_Hash c.
Proof. done. Qed.

End Types.
