(* ===== verification/PyrParts.v ===== *)
(** * Pyramid block parts

    Models [source/pyramid/types/block-part.go].  The part sets of Pyramid
    behave like those of Urd ([BlockPart]), with a height for the view: the
    translation [urd_set] is a simulation, through which the theorems about
    dissemination carry over. *)

From stdpp Require Import base list gmap strings numbers.
From Stdlib Require Import ZArith Lia.
From S2P Require Import Prelude Convert BitVector Hash Merkle MerkleProofs MerkleGen Wire Signer BlockPart PyrTypes.

(** ** Data *)

(** The proof of a part is never nil: parts come from [PartSetFromBlock] and
    from messages, whose conversion dereferences the proof. *)
Record Part := { ptChainID : string; ptHeight : Z; ptRound : Z; ptBytes : bytes; ptProof : MerkleProof }.
Record PPart := {
  ppHeight : Z; ppRound : Z; ppBytes : bytes; ppProof : option PProof; ppChainID : string
}.
Record PartSetHeader := {
  pshHeight : Z; pshRound : Z; pshTotal : Z; pshRoot : bytes; pshChainID : string
}.
Record PPartSetHeader := {
  qshTotal : Z; qshRoot : bytes; qshHeight : Z; qshRound : Z; qshChainID : string
}.
Record PartSet := {
  psHeader : PartSetHeader; Parts : list (option Part); psCount : Z; BlockHeaderHash : bytes
}.

Class PyrPartWire := {
  pyr_part_codec :: ProtoCodec PPart;
  pyr_psh_codec :: ProtoCodec PPartSetHeader
}.

Inductive part_error :=
| DuplicatedPartPassError | ErrPartHeight | ErrPartRound | ErrPartBytes | ErrPartChain | ErrPartMerkle
| ErrPartProof (e : proof_error).
Inductive header_error := ErrHeaderHeight | ErrHeaderRound | ErrHeaderTotal | ErrHeaderChain | ErrHeaderRoot.
Inductive gen_error := ErrSerialize | ErrGenChain | ErrGenHeight | ErrGenBlock | ErrGenHash.

(** ** Messages *)

Definition Part_Index (p : Part) : Z := Index (ptProof p).
Definition Part_ToProto (p : Part) : PPart :=
  {| ppHeight := ptHeight p; ppRound := int32 (ptRound p); ppBytes := ptBytes p;
     ppProof := Some (Proof_ToProto (ptProof p)); ppChainID := ptChainID p |}.
Definition NewPartFromProto (pp : PPart) : outcome Part :=
  proof ← deref (ppProof pp);
  Ret {| ptChainID := ppChainID pp; ptHeight := ppHeight pp; ptRound := ppRound pp;
         ptBytes := ppBytes pp; ptProof := NewProofFromProto proof |}.
Definition Part_ValidateBasic (p : Part) : option part_error :=
  if ptHeight p <? 0 then Some ErrPartHeight
  else if ptRound p <? 0 then Some ErrPartRound
  else if zlen (ptBytes p) =? 0 then Some ErrPartBytes
  else if bool_decide (ptChainID p = EmptyString) then Some ErrPartChain
  else ErrPartProof <$> Proof_ValidateBasic (ptProof p).

Definition PSH_ToProto (p : PartSetHeader) : PPartSetHeader :=
  {| qshTotal := pshTotal p; qshRoot := pshRoot p; qshHeight := pshHeight p;
     qshRound := int32 (pshRound p); qshChainID := pshChainID p |}.
Definition NewPartSetHeaderFromProto (p : PPartSetHeader) : PartSetHeader :=
  {| pshHeight := qshHeight p; pshRound := qshRound p; pshTotal := qshTotal p; pshRoot := qshRoot p;
     pshChainID := qshChainID p |}.
Definition PSH_Equal (p other : PartSetHeader) : bool :=
  bool_decide (pshChainID p = pshChainID other) && (pshHeight p =? pshHeight other) &&
  (pshRound p =? pshRound other) && (pshTotal p =? pshTotal other) &&
  bytes_Equal (pshRoot p) (pshRoot other).
Definition PSH_ValidateBasic (p : PartSetHeader) : option header_error :=
  if pshHeight p <? 0 then Some ErrHeaderHeight
  else if pshRound p <? 0 then Some ErrHeaderRound
  else if pshTotal p <? 0 then Some ErrHeaderTotal
  else if bool_decide (pshChainID p = EmptyString) then Some ErrHeaderChain
  else if negb (zlen (pshRoot p) =? HashSize) then Some ErrHeaderRoot
  else None.

Section Parts.
Context {H : HashFn} {W : PyrWire} {PW : PyrPartWire}.

Definition Part_ProtoBytes (p : Part) : outcome bytes := MustProtoBytes (Part_ToProto p).
Definition NewPartFromBytes (bz : bytes) : outcome (option Part) :=
  match unmarshal bz with
  | None => Ret None
  | Some pp => p ← NewPartFromProto pp; Ret (Some p)
  end.
Definition PSH_ProtoBytes (p : PartSetHeader) : outcome bytes := MustProtoBytes (PSH_ToProto p).
Definition NewPartSetHeaderFromBytes (bz : bytes) : option PartSetHeader :=
  option_map NewPartSetHeaderFromProto (unmarshal bz).

Definition Part_Verify (p : Part) (root : bytes) (total : Z) (chainID : string) : outcome bool :=
  if negb (total =? Total (ptProof p)) then Ret false
  else if bool_decide (chainID ≠ ptChainID p) then Ret false
  else err ← Proof_Verify (ptProof p) root (ptBytes p);
       Ret (match err with None => true | Some _ => false end).

(** ** Part sets *)

Definition NewPartSet (h : PartSetHeader) (headerHash : bytes) : outcome PartSet :=
  if pshTotal h <? 0 then Panic
  else Ret {| psHeader := h; Parts := replicate (Z.to_nat (pshTotal h)) None; psCount := 0;
              BlockHeaderHash := headerHash |}.

(** The loop that pairs every chunk with its proof. *)
Fixpoint make_parts (chainid : string) (height round i : Z) (bzList : list bytes) (proof : list MerkleProof)
    : outcome (list (option Part)) :=
  match bzList with
  | [] => Ret []
  | bz :: rest =>
      pf ← idx proof i;
      parts ← make_parts chainid height round (i + 1) rest proof;
      Ret (Some {| ptChainID := chainid; ptHeight := height; ptRound := round; ptBytes := bz; ptProof := pf |}
           :: parts)
  end.

(** The block is marshalled before it is hashed, so its parts carry a header
    without roots.  [None] when the split does not terminate. *)
Definition PartSetFromBlock (b : Block) (maxPartSize round : Z) : outcome (option (Block * PartSet)) :=
  bz ← Block_ProtoBytes b;
  chunks ← SplitByteArray bz maxPartSize;
  match chunks with
  | None => Ret None
  | Some bzList =>
      '(hs, proof) ← ProofsFromByteSlices bzList;
      parts ← make_parts (ChainID (bHeader b)) (Height (bHeader b)) round 0 bzList proof;
      '(b', hash) ← Block_Hash b;
      Ret (Some (b', {| psHeader := {| pshHeight := Height (bHeader b); pshRound := round;
                          pshTotal := zlen parts; pshRoot := hs; pshChainID := ChainID (bHeader b) |};
                        Parts := parts; psCount := zlen parts; BlockHeaderHash := hash |}))
  end.

Definition AddPart (ps : PartSet) (p : Part) : outcome (PartSet * option part_error) :=
  let i := Part_Index p in
  held ← (if i <? pshTotal (psHeader ps) then idx (Parts ps) i else Ret None);
  match held with
  | Some _ => Ret (ps, Some DuplicatedPartPassError)
  | None =>
      if negb (pshHeight (psHeader ps) =? ptHeight p) then Ret (ps, Some ErrPartHeight)
      else if negb (pshRound (psHeader ps) =? ptRound p) then Ret (ps, Some ErrPartRound)
      else
        ok ← Part_Verify p (pshRoot (psHeader ps)) (pshTotal (psHeader ps)) (pshChainID (psHeader ps));
        if negb ok then Ret (ps, Some ErrPartMerkle)
        else
          parts ← upd (Parts ps) i (Some p);
          Ret ({| psHeader := psHeader ps; Parts := parts; psCount := psCount ps + 1;
                  BlockHeaderHash := BlockHeaderHash ps |}, None)
  end.

Definition IsComplete (ps : PartSet) : bool := pshTotal (psHeader ps) =? psCount ps.

(** The concatenation of the parts; a missing one is a nil dereference. *)
Definition joined (ps : PartSet) : outcome bytes :=
  bs ← mapM_out (λ p, part ← deref p; Ret (ptBytes part)) (Parts ps); Ret (concat bs).

Definition GenBlock (ps : PartSet) : outcome (option Block * option gen_error) :=
  if negb (IsComplete ps) then Ret (None, None)
  else
    bz ← joined ps;
    block ← NewBlockFromBytes bz;
    match block with
    | None => Ret (None, Some ErrSerialize)
    | Some block =>
        if bool_decide (ChainID (bHeader block) ≠ pshChainID (psHeader ps)) then Ret (None, Some ErrGenChain)
        else if negb (Height (bHeader block) =? pshHeight (psHeader ps)) then Ret (None, Some ErrGenHeight)
        else match Block_ValidateBasic block with
             | Some _ => Ret (Some block, Some ErrGenBlock)
             | None =>
                 '(block, hash) ← Block_Hash block;
                 if negb (bytes_Equal hash (BlockHeaderHash ps)) then Ret (Some block, Some ErrGenHash)
                 else Ret (Some block, None)
             end
    end.

(** ** The simulation by Urd's part sets *)

Definition urd_part (p : Part) : BlockPart.Part :=
  {| BlockPart.ptChainID := ptChainID p; BlockPart.ptView := ptHeight p; BlockPart.ptRound := ptRound p;
     BlockPart.ptBytes := ptBytes p; BlockPart.ptProof := ptProof p |}.
Definition pyr_part (p : BlockPart.Part) : Part :=
  {| ptChainID := BlockPart.ptChainID p; ptHeight := BlockPart.ptView p; ptRound := BlockPart.ptRound p;
     ptBytes := BlockPart.ptBytes p; ptProof := BlockPart.ptProof p |}.
Definition urd_header (h : PartSetHeader) : BlockPart.PartSetHeader :=
  {| BlockPart.pshView := pshHeight h; BlockPart.pshRound := pshRound h; BlockPart.pshTotal := pshTotal h;
     BlockPart.pshRoot := pshRoot h; BlockPart.pshChainID := pshChainID h |}.
Definition urd_set (ps : PartSet) : BlockPart.PartSet :=
  {| BlockPart.psHeader := urd_header (psHeader ps); BlockPart.Parts := map (option_map urd_part) (Parts ps);
     BlockPart.psCount := psCount ps; BlockPart.BlockHeaderHash := BlockHeaderHash ps |}.

Lemma pyr_urd p : pyr_part (urd_part p) = p.
Proof. by destruct p. Qed.
Lemma urd_pyr p : urd_part (pyr_part p) = p.
Proof. by destruct p. Qed.
Lemma urd_parts_inj l l' : map (option_map urd_part) l = map Some l' → l = map Some (map pyr_part l').
Proof.
  revert l'; induction l as [|[p|] l IH]; intros [|p' l'] E; cbn in E; try done.
  injection E as <- E. cbn. rewrite pyr_urd. f_equal. by apply IH.
Qed.

Lemma NewPartSet_urd h hash :
  BlockPart.NewPartSet (urd_header h) hash =
    match NewPartSet h hash with Ret ps => Ret (urd_set ps) | Panic => Panic end.
Proof.
  unfold NewPartSet, BlockPart.NewPartSet. cbn. destruct (pshTotal h <? 0); [done|].
  unfold urd_set. cbn. do 2 f_equal. change (map ?f ?l) with (f <$> l). by rewrite fmap_replicate.
Qed.

(** The two implementations accept the same parts with the same effect: they
    differ in the error reported only. *)
Lemma AddPart_urd ps p :
  match AddPart ps p with
  | Panic => BlockPart.AddPart (urd_set ps) (urd_part p) = Panic
  | Ret (ps', e) => ∃ e', BlockPart.AddPart (urd_set ps) (urd_part p) = Ret (urd_set ps', e') ∧
      (e = None ↔ e' = None) ∧ (e = Some DuplicatedPartPassError ↔ e' = Some ErrDuplicatedPart)
  end.
Proof.
  unfold AddPart, BlockPart.AddPart. change (BlockPart.Part_Index (urd_part p)) with (Part_Index p).
  cbn [urd_set urd_header BlockPart.psHeader BlockPart.pshTotal BlockPart.Parts].
  set (i := Part_Index p).
  assert (idx (map (option_map urd_part) (Parts ps)) i =
    match idx (Parts ps) i with Ret q => Ret (option_map urd_part q) | Panic => Panic end) as ->.
  { unfold idx. case_match; [done|]. change (map ?f ?l) with (f <$> l). rewrite list_lookup_fmap. by destruct (_ !! _). }
  destruct (if i <? pshTotal (psHeader ps) then idx (Parts ps) i else Ret None) as [held|] eqn:Eh; cbn [mbind outcome_bind].
  2:{ by destruct (i <? _); [rewrite Eh|]. }
  assert ((if i <? pshTotal (psHeader ps) then
     match idx (Parts ps) i with Ret q => Ret (option_map urd_part q) | Panic => Panic end else Ret None)
    = Ret (option_map urd_part held)) as ->.
  { destruct (i <? _); [by rewrite Eh|]. by injection Eh as <-. }
  cbn [mbind outcome_bind]. destruct held as [q|]; cbn [option_map].
  { eexists. split_and!; done. }
  cbn. destruct (Z.eqb_spec (pshHeight (psHeader ps)) (ptHeight p)); cbn [negb]; [|by eexists].
  destruct (Z.eqb_spec (pshRound (psHeader ps)) (ptRound p)); cbn [negb]; [|by eexists].
  unfold Part_Verify, BlockPart.Part_Verify. cbn.
  destruct (Proof_Verify_total (ptProof p) (pshRoot (psHeader ps)) (ptBytes p)) as [r ->]. cbn [mbind outcome_bind].
  destruct (Z.eqb_spec (pshTotal (psHeader ps)) (Total (ptProof p))); cbn [negb orb mbind outcome_bind].
  2:{ destruct r; by eexists. }
  destruct (bool_decide _) eqn:Eb; cbn [mbind outcome_bind negb].
  { destruct r; cbn [mbind outcome_bind]; by eexists. }
  destruct r; cbn [mbind outcome_bind negb]; [by eexists|].
  unfold upd. unfold zlen. rewrite length_map.
  destruct (_ || _); cbn [mbind outcome_bind]; [done|]. eexists. split_and!; try done.
  unfold urd_set. cbn. do 3 f_equal. change (map ?f ?l) with (f <$> l). by rewrite list_fmap_insert.
Qed.

Definition deliver (ps : PartSet) (parts : list Part) : outcome PartSet :=
  foldM (λ ps p, r ← AddPart ps p; Ret (fst r)) parts ps.
Lemma deliver_urd parts ps :
  BlockPart.deliver (urd_set ps) (map urd_part parts) =
    match deliver ps parts with Ret ps' => Ret (urd_set ps') | Panic => Panic end.
Proof.
  unfold deliver, BlockPart.deliver. revert ps; induction parts as [|p parts IH]; intros ps; [done|]. cbn [foldM map].
  pose proof (AddPart_urd ps p) as Hp. destruct (AddPart ps p) as [[ps' e]|]; [|by rewrite Hp].
  destruct Hp as (e' & -> & _). cbn [mbind outcome_bind fst]. apply IH.
Qed.

Lemma make_parts_urd c h r proofs chunks : ∀ i,
  BlockPart.make_parts c h r i chunks proofs =
    match make_parts c h r i chunks proofs with
    | Ret parts => Ret (map (option_map urd_part) parts)
    | Panic => Panic
    end.
Proof.
  induction chunks as [|bz chunks IH]; intros i; [done|]. cbn [make_parts BlockPart.make_parts].
  destruct (idx proofs i) as [pf|]; cbn [mbind outcome_bind]; [|done]. rewrite IH.
  by destruct (make_parts _ _ _ _ _ _).
Qed.

Definition block_wf (b : Block) : Prop :=
  header_wf (bHeader b) ∧ - 2 ^ 63 ≤ unix (Time (bHeader b)) < 2 ^ 63 ∧ 0 ≤ nsec (Time (bHeader b)) < 10 ^ 9.

Lemma pyr_split_spec b size round b1 pset : 0 < size →
  PartSetFromBlock b size round = Ret (Some (b1, pset)) →
  ∃ bz chunks l, Block_ProtoBytes b = Ret bz ∧ concat chunks = bz ∧
    HashFromByteSlices chunks = Ret (pshRoot (psHeader pset)) ∧ Parts pset = map Some l ∧
    map ptBytes l = chunks ∧ pshTotal (psHeader pset) = zlen l ∧
    pshHeight (psHeader pset) = Height (bHeader b) ∧ pshChainID (psHeader pset) = ChainID (bHeader b) ∧
    Block_Hash b = Ret (b1, BlockHeaderHash pset) ∧
    ∀ i p, map urd_part l !! i = Some p → part_at (urd_header (psHeader pset)) i p.
Proof.
  intros Hs E. unfold PartSetFromBlock in E. apply outcome_bind_Ret in E as (bz & Eb & E).
  destruct (SplitByteArray_loop_spec (length bz) bz size 0 []) as (chunks & Ec & Hcat & _);
    [done|lia|unfold zlen; lia|].
  unfold SplitByteArray in E. rewrite Ec in E. cbn [mbind outcome_bind app] in E.
  destruct (proofs_spec chunks) as (hs & proofs & Ep & Er & Hlen & Hpr). rewrite Ep in E.
  cbn [mbind outcome_bind] in E.
  destruct (make_parts_spec (ChainID (bHeader b)) (Height (bHeader b)) round proofs chunks 0) as (l & El & Hb & Hl); [lia|].
  rewrite make_parts_urd in El. change 0 with (Z.of_nat 0) in E.
  destruct (make_parts _ _ _ _ _ _) as [parts|]; [|done]. injection El as El. cbn [mbind outcome_bind] in E.
  apply urd_parts_inj in El. subst parts. apply outcome_bind_Ret in E as ([b' hash] & Ebh & E).
  injection E as <- <-. exists bz, chunks, (map pyr_part l).
  cbn [psHeader Parts BlockHeaderHash pshRoot pshTotal pshHeight pshChainID].
  assert (zlen (map Some (map pyr_part l)) = zlen (map pyr_part l)) as Hz by (unfold zlen; by rewrite !length_map).
  split_and!; try done; [by rewrite map_map|].
  rewrite map_map. rewrite (map_ext _ (λ x, x)) by apply urd_pyr. rewrite map_id.
  intros i p Hp. destruct (Hl i p Hp) as (H1 & H2 & H3 & H4). simpl in H4.
  assert (chunks !! i = Some (BlockPart.ptBytes p)) as Hc by (rewrite <- Hb, list_lookup_fmap, Hp; done).
  destruct (Hpr i _ Hc) as (sp & Hsp & Ht & Hx & V & _). rewrite H4 in Hsp. injection Hsp as <-.
  constructor; cbn; try done; [rewrite Ht; unfold zlen; rewrite !length_map, <- Hb, length_map; done|congruence..].
Qed.

(** Delivering the parts of a block in any order, with duplicates, to a part
    set made from the proposal's header completes it, and regenerates the block
    the proposer marshalled with the hash the proposer announced. *)
Theorem PyrPartSet_delivery b size round b1 pset parts
    (Hs : 0 < size) (Hwf : block_wf b) (N : blockhash b = [])
    (E : PartSetFromBlock b size round = Ret (Some (b1, pset)))
    (Hin : ∀ p, p ∈ parts ↔ Some p ∈ Parts pset) :
  ∃ ps0 ps, NewPartSet (psHeader pset) (BlockHeaderHash pset) = Ret ps0 ∧ deliver ps0 parts = Ret ps ∧
    Parts ps = Parts pset ∧ IsComplete ps = true ∧
    Block_Hash b = Ret (b1, BlockHeaderHash pset) ∧ GenBlock ps = Ret (Some b1, None).
Proof.
  destruct (pyr_split_spec _ _ _ _ _ Hs E) as (bz & chunks & l & Eb & Hcat & Hr & Hps & Hb & Ht & Hh & Hc & Ehash & Hl).
  assert (∀ p, p ∈ map urd_part l ↔ p ∈ map urd_part parts) as Hpl.
  { intros p. change (map ?f ?l) with (f <$> l). rewrite !list_elem_of_fmap. rewrite Hps in Hin.
    change (map Some l) with (Some <$> l) in Hin. setoid_rewrite list_elem_of_fmap in Hin. naive_solver. }
  destruct (delivered (urd_header (psHeader pset)) (BlockHeaderHash pset) (map urd_part l) (map urd_part parts))
    as (ups0 & ups & E0 & Ed & Eparts & Hcomp & Hh' & Bh); [by eapply root_size|cbn; unfold zlen in *; by rewrite length_map|done..|].
  rewrite NewPartSet_urd in E0. destruct (NewPartSet _ _) as [ps0|]; [|done]. injection E0 as <-.
  rewrite deliver_urd in Ed. destruct (deliver ps0 parts) as [ps|] eqn:Edel; [|done]. injection Ed as <-.
  cbn in Eparts, Hcomp, Hh', Bh. apply urd_parts_inj in Eparts.
  rewrite (map_map urd_part), (map_ext (λ x, pyr_part (urd_part x)) (λ x, x)), map_id in Eparts by apply pyr_urd.
  assert (psHeader ps = psHeader pset) as Hhd.
  { destruct (psHeader ps), (psHeader pset). cbn in Hh'. by injection Hh' as -> -> -> -> ->. }
  exists ps0, ps. split_and!; try done; [congruence|].
  unfold GenBlock. change (IsComplete ps) with (BlockPart.IsComplete (urd_set ps)). rewrite Hcomp. cbn [negb].
  assert (joined ps = Ret bz) as ->.
  { unfold joined. rewrite Eparts. assert (mapM_out (λ p, part ← deref p; Ret (ptBytes part)) (map Some l) = Ret (map ptBytes l)) as ->.
    { clear. induction l as [|p l IH]; [done|]. simpl. by rewrite IH. }
    cbn. by rewrite Hb, Hcat. }
  cbn [mbind outcome_bind]. destruct Hwf as (Hw & Hu & Hn). rewrite (pyr_roundtrip b bz) by done.
  cbn [mbind outcome_bind bHeader]. rewrite Hhd, Hc, Hh, bool_decide_false by (intros Hx; by apply Hx).
  rewrite Z.eqb_refl. cbn [negb Block_ValidateBasic].
  assert ({| bHeader := bHeader b; bBody := bBody b; bCross := bCross b; bRelation := bRelation b; blockhash := [] |} = b) as ->
    by (destruct b; cbn in *; by subst).
  rewrite Ehash. cbn [mbind outcome_bind]. by rewrite Bh, bytes_Equal_refl.
Qed.

End Parts.
