(* ===== verification/PyrVotes.v ===== *)
(** * Pyramid votes

    Models [source/pyramid/consensus/constypes]: proposals, prevotes,
    precommits and aggregated precommits ([vote.go]), the vote set
    ([vote_set.go]) and the messages between shards ([cross_shard.go]). *)

From stdpp Require Import base list gmap strings numbers.
From Stdlib Require Import ZArith Lia.
From S2P Require Import Prelude Convert BitVector Hash Merkle Wire Signer PyrTypes PyrParts.

(** ** Data *)

Definition VoteTypeProposal : Z := 1.
Definition VoteTypePrevote : Z := 2.
Definition VoteTypePrecommit : Z := 3.
Definition VoteTypePrecommitAggregated : Z := 4.

(** A proposal's header is never nil: it comes from a part set or from a
    message, whose conversion dereferences it. *)
Record Proposal := {
  prVoteType : Z; prHeader : PartSetHeader; ProposerIndex : Z; prBlockHeaderHash : bytes; prSignature : string
}.
Record Prevote := {
  pvVoteType : Z; pvCode : Z; pvHeight : Z; pvRound : Z; pvBlockHeaderHash : bytes; pvSignature : string;
  pvValidatorIndex : Z
}.
Record Precommit := {
  pcVoteType : Z; pcCode : Z; pcHeight : Z; pcRound : Z; pcBlockHeaderHash : bytes; pcSignature : string;
  pcValidatorIndex : Z
}.
Record PrecommitAggregated := {
  paVoteType : Z; paCode : Z; ValidatorBitVector : option BitVector; paHeader : PartSetHeader;
  paBlockHeaderHash : bytes; paSignatures : string
}.
(** The collective signatures of a message are nil only in a block process
    outside a consensus round, which sends nothing. *)
Record CrossShardBlock := { csbBlock : Block; csbSignatures : PrecommitAggregated }.
Record MessageAccept := { maBlockHash : bytes; maSignatures : PrecommitAggregated }.
Record MessageAcceptSet := { Accepts : list MessageAccept; masBlockHash : bytes }.
Record MessageCommit := { mcBlockHash : bytes; mcSignatures : PrecommitAggregated }.
Record MessageOK := { moHeight : Z; SrcChain : string }.

Record PProposal := {
  qrVoteType : Z; qrHeader : option PPartSetHeader; qrProposerIndex : Z; qrBlockHeaderHash : bytes;
  qrSignature : string
}.
Record PPrevote := {
  qvCode : Z; qvVoteType : Z; qvHeight : Z; qvRound : Z; qvBlockHeaderHash : bytes; qvSignature : string;
  qvValidatorIndex : Z
}.
Record PPrecommit := {
  qcCode : Z; qcVoteType : Z; qcHeight : Z; qcRound : Z; qcBlockHeaderHash : bytes; qcSignature : string;
  qcValidatorIndex : Z
}.
Record PPrecommitAggregated := {
  qaVoteType : Z; qaCode : Z; qaBitVector : bytes; qaHeader : option PPartSetHeader; qaBlockHeaderHash : bytes;
  qaSignatures : string
}.
Record PCrossShardBlock := { qbBlock : option PBlock; qbSignatures : option PPrecommitAggregated }.
Record PMessageAccept := { qmBlockHash : bytes; qmSignatures : option PPrecommitAggregated }.
Record PMessageAcceptSet := { qsBlockHash : bytes; qsAccepts : list PMessageAccept }.
Record PMessageCommit := { qtBlockHash : bytes; qtSignatures : option PPrecommitAggregated }.
Record PMessageOK := { qoChain_ID : string; qoHeight : Z }.

Class PyrVoteWire := {
  proposal_codec :: ProtoCodec PProposal;
  prevote_codec :: ProtoCodec PPrevote;
  precommit_codec :: ProtoCodec PPrecommit;
  aggregated_codec :: ProtoCodec PPrecommitAggregated;
  csb_codec :: ProtoCodec PCrossShardBlock;
  accept_codec :: ProtoCodec PMessageAccept;
  accept_set_codec :: ProtoCodec PMessageAcceptSet;
  commit_codec :: ProtoCodec PMessageCommit;
  ok_codec :: ProtoCodec PMessageOK;
  (* marshalling fails only on a string that is not UTF-8 *)
  prevote_marshals : ∀ m : PPrevote, qvSignature m = EmptyString → is_Some (marshal m);
  precommit_marshals : ∀ m : PPrecommit, qcSignature m = EmptyString → is_Some (marshal m)
}.

Inductive vote_error := ErrVoteType | ErrProposerIndex | ErrHeaderHash | ErrBitVector | ErrHeader (e : header_error).

Definition isNotHash (bz : bytes) : bool := negb (zlen bz =? HashSize).
Definition code_of (ok : bool) : Z := if ok then CodeTypeOK else CodeTypeAbort.

(** ** Proposals *)
Definition NewProposal (header : PartSetHeader) (proposer_index : Z) (blockHeaderHash : bytes) : Proposal :=
  {| prVoteType := VoteTypeProposal; prHeader := header; ProposerIndex := proposer_index;
     prBlockHeaderHash := blockHeaderHash; prSignature := EmptyString |}.
Definition Proposal_ToProto (p : Proposal) : PProposal :=
  {| qrVoteType := prVoteType p; qrHeader := Some (PSH_ToProto (prHeader p));
     qrProposerIndex := int32 (ProposerIndex p); qrBlockHeaderHash := prBlockHeaderHash p;
     qrSignature := prSignature p |}.
Definition NewProposalFromProto (p : PProposal) : outcome Proposal :=
  header ← deref (qrHeader p);
  Ret {| prVoteType := qrVoteType p; prHeader := NewPartSetHeaderFromProto header;
         ProposerIndex := qrProposerIndex p; prBlockHeaderHash := qrBlockHeaderHash p;
         prSignature := qrSignature p |}.
Definition Proposal_ValidateBasic (p : Proposal) : option vote_error :=
  if negb (prVoteType p =? VoteTypeProposal) then Some ErrVoteType
  else if ProposerIndex p <? 0 then Some ErrProposerIndex
  else if negb (zlen (prBlockHeaderHash p) =? HashSize) then Some ErrHeaderHash
  else ErrHeader <$> PSH_ValidateBasic (prHeader p).

(** ** Prevotes *)
Definition Prevote_IsOK (p : Prevote) : bool := pvCode p =? CodeTypeOK.
Definition Prevote_SetOK (p : Prevote) (ok : bool) : Prevote :=
  {| pvVoteType := pvVoteType p; pvCode := code_of ok; pvHeight := pvHeight p; pvRound := pvRound p;
     pvBlockHeaderHash := pvBlockHeaderHash p; pvSignature := pvSignature p; pvValidatorIndex := pvValidatorIndex p |}.
Definition Prevote_ValidateBasic (p : Prevote) : option vote_error :=
  if negb (pvVoteType p =? VoteTypePrevote) then Some ErrVoteType
  else if negb (zlen (pvBlockHeaderHash p) =? HashSize) then Some ErrHeaderHash
  else None.
Definition NewPrevote (height round : Z) (blockHeaderHash : bytes) (validatorIndex : Z) : Prevote :=
  {| pvVoteType := VoteTypePrevote; pvCode := CodeTypeOK; pvHeight := height; pvRound := round;
     pvBlockHeaderHash := blockHeaderHash; pvSignature := EmptyString; pvValidatorIndex := validatorIndex |}.
Definition Prevote_ToProto (p : Prevote) : PPrevote :=
  {| qvCode := int32 (pvCode p); qvVoteType := pvVoteType p; qvHeight := pvHeight p; qvRound := int32 (pvRound p);
     qvBlockHeaderHash := pvBlockHeaderHash p; qvSignature := pvSignature p;
     qvValidatorIndex := int32 (pvValidatorIndex p) |}.
Definition NewPrevoteFromProto (p : PPrevote) : Prevote :=
  {| pvVoteType := qvVoteType p; pvCode := int8 (qvCode p); pvHeight := qvHeight p; pvRound := qvRound p;
     pvBlockHeaderHash := qvBlockHeaderHash p; pvSignature := qvSignature p; pvValidatorIndex := qvValidatorIndex p |}.

(** ** Precommits *)
Definition Precommit_IsOK (p : Precommit) : bool := pcCode p =? CodeTypeOK.
Definition Precommit_SetOK (p : Precommit) (ok : bool) : Precommit :=
  {| pcVoteType := pcVoteType p; pcCode := code_of ok; pcHeight := pcHeight p; pcRound := pcRound p;
     pcBlockHeaderHash := pcBlockHeaderHash p; pcSignature := pcSignature p; pcValidatorIndex := pcValidatorIndex p |}.
Definition Precommit_ValidateBasic (p : Precommit) : option vote_error :=
  if negb (pcVoteType p =? VoteTypePrecommit) then Some ErrVoteType
  else if negb (zlen (pcBlockHeaderHash p) =? HashSize) then Some ErrHeaderHash
  else None.
Definition NewPrecommit (height round : Z) (blockHeaderHash : bytes) (validatorIndex : Z) : Precommit :=
  {| pcVoteType := VoteTypePrecommit; pcCode := CodeTypeOK; pcHeight := height; pcRound := round;
     pcBlockHeaderHash := blockHeaderHash; pcSignature := EmptyString; pcValidatorIndex := validatorIndex |}.
Definition Precommit_ToProto (p : Precommit) : PPrecommit :=
  {| qcCode := int32 (pcCode p); qcVoteType := pcVoteType p; qcHeight := pcHeight p; qcRound := int32 (pcRound p);
     qcBlockHeaderHash := pcBlockHeaderHash p; qcSignature := pcSignature p;
     qcValidatorIndex := int32 (pcValidatorIndex p) |}.
Definition NewPrecommitFromProto (p : PPrecommit) : Precommit :=
  {| pcVoteType := qcVoteType p; pcCode := int8 (qcCode p); pcHeight := qcHeight p; pcRound := qcRound p;
     pcBlockHeaderHash := qcBlockHeaderHash p; pcSignature := qcSignature p; pcValidatorIndex := qcValidatorIndex p |}.

(** ** Aggregated precommits *)
Definition PA_ValidateBasic (p : PrecommitAggregated) : option vote_error :=
  if negb (paVoteType p =? VoteTypePrecommitAggregated) then Some ErrVoteType
  else match ValidatorBitVector p with
       | None => Some ErrBitVector
       | Some _ =>
           match PSH_ValidateBasic (paHeader p) with
           | Some e => Some (ErrHeader e)
           | None => if negb (zlen (paBlockHeaderHash p) =? HashSize) then Some ErrHeaderHash else None
           end
       end.
Definition NewPrecommitAggregated (validatorBitVector : bytes) (header : PartSetHeader) (blockHeaderHash : bytes)
    (aggregatedSignatures : string) : outcome PrecommitAggregated :=
  bv ← NewBitArrayFromByte validatorBitVector;
  Ret {| paVoteType := VoteTypePrecommitAggregated; paCode := CodeTypeOK; ValidatorBitVector := bv;
         paHeader := header; paBlockHeaderHash := blockHeaderHash; paSignatures := aggregatedSignatures |}.
Definition PA_IsOK (p : PrecommitAggregated) : bool := paCode p =? CodeTypeOK.
Definition PA_SetCode (p : PrecommitAggregated) (ok : bool) : PrecommitAggregated :=
  {| paVoteType := paVoteType p; paCode := code_of ok; ValidatorBitVector := ValidatorBitVector p;
     paHeader := paHeader p; paBlockHeaderHash := paBlockHeaderHash p; paSignatures := paSignatures p |}.
Definition PA_ToProto (p : PrecommitAggregated) : PPrecommitAggregated :=
  {| qaVoteType := paVoteType p; qaCode := int32 (paCode p); qaBitVector := Byte (ValidatorBitVector p);
     qaHeader := Some (PSH_ToProto (paHeader p)); qaBlockHeaderHash := paBlockHeaderHash p;
     qaSignatures := paSignatures p |}.
Definition NewPrecommitAggregatedFromProto (p : PPrecommitAggregated) : outcome PrecommitAggregated :=
  bv ← NewBitArrayFromByte (qaBitVector p);
  header ← deref (qaHeader p);
  Ret {| paVoteType := qaVoteType p; paCode := int8 (qaCode p); ValidatorBitVector := bv;
         paHeader := NewPartSetHeaderFromProto header; paBlockHeaderHash := qaBlockHeaderHash p;
         paSignatures := qaSignatures p |}.
Definition PA_Precommit (p : PrecommitAggregated) : Precommit :=
  let precommit := NewPrecommit (pshHeight (paHeader p)) (pshRound (paHeader p)) (paBlockHeaderHash p) (-1) in
  {| pcVoteType := pcVoteType precommit; pcCode := paCode p; pcHeight := pcHeight precommit;
     pcRound := pcRound precommit; pcBlockHeaderHash := pcBlockHeaderHash precommit;
     pcSignature := pcSignature precommit; pcValidatorIndex := pcValidatorIndex precommit |}.

(** ** Messages between shards *)
Definition CSB_ToProto (csb : CrossShardBlock) : PCrossShardBlock :=
  {| qbBlock := Some (Block_ToProto (csbBlock csb)); qbSignatures := Some (PA_ToProto (csbSignatures csb)) |}.
Definition NewCrossShardBlockFromProto (p : PCrossShardBlock) : outcome CrossShardBlock :=
  b ← (pb ← deref (qbBlock p); NewBlockFromProto pb);
  s ← (ps ← deref (qbSignatures p); NewPrecommitAggregatedFromProto ps);
  Ret {| csbBlock := b; csbSignatures := s |}.
Definition MA_ToProto (ma : MessageAccept) : PMessageAccept :=
  {| qmBlockHash := maBlockHash ma; qmSignatures := Some (PA_ToProto (maSignatures ma)) |}.
Definition NewMessageAcceptFromProto (p : PMessageAccept) : outcome MessageAccept :=
  s ← (ps ← deref (qmSignatures p); NewPrecommitAggregatedFromProto ps);
  Ret {| maBlockHash := qmBlockHash p; maSignatures := s |}.
Definition MAS_ToProto (mas : MessageAcceptSet) : PMessageAcceptSet :=
  {| qsBlockHash := masBlockHash mas; qsAccepts := map MA_ToProto (Accepts mas) |}.
Definition NewMessageAcceptSetFromProto (p : PMessageAcceptSet) : outcome MessageAcceptSet :=
  accepts ← mapM_out NewMessageAcceptFromProto (qsAccepts p);
  Ret {| Accepts := accepts; masBlockHash := qsBlockHash p |}.
Definition MC_ToProto (mc : MessageCommit) : PMessageCommit :=
  {| qtBlockHash := mcBlockHash mc; qtSignatures := Some (PA_ToProto (mcSignatures mc)) |}.
Definition NewMessageCommitFromProto (p : PMessageCommit) : outcome MessageCommit :=
  s ← (ps ← deref (qtSignatures p); NewPrecommitAggregatedFromProto ps);
  Ret {| mcBlockHash := qtBlockHash p; mcSignatures := s |}.
Definition MO_ToProto (m : MessageOK) : PMessageOK := {| qoChain_ID := SrcChain m; qoHeight := moHeight m |}.
Definition NewMessageOKFromProto (p : PMessageOK) : MessageOK :=
  {| moHeight := qoHeight p; SrcChain := qoChain_ID p |}.

(** [NewXFromBytes]: [None] when the bytes do not unmarshal; converting the
    message may panic. *)
Definition from_bytes {M A} `{ProtoCodec M} (conv : M → outcome A) (bz : bytes) : outcome (option A) :=
  match unmarshal bz with
  | None => Ret None
  | Some p => a ← conv p; Ret (Some a)
  end.

Section Votes.
Context {H : HashFn} {VW : PyrVoteWire}.

Definition Proposal_ProtoBytes (p : Proposal) : outcome bytes := MustProtoBytes (Proposal_ToProto p).
Definition Proposal_SignBytes (p : Proposal) : outcome bytes :=
  MustProtoBytes {| qrVoteType := prVoteType p; qrHeader := Some (PSH_ToProto (prHeader p));
    qrProposerIndex := int32 (ProposerIndex p); qrBlockHeaderHash := prBlockHeaderHash p;
    qrSignature := EmptyString |}.
Definition NewProposalFromBytes (bz : bytes) : outcome (option Proposal) := from_bytes NewProposalFromProto bz.
Definition Prevote_ProtoBytes (p : Prevote) : outcome bytes := MustProtoBytes (Prevote_ToProto p).
Definition Prevote_SignBytes (p : Prevote) : outcome bytes :=
  MustProtoBytes {| qvCode := int32 (pvCode p); qvVoteType := pvVoteType p; qvHeight := pvHeight p;
    qvRound := int32 (pvRound p); qvBlockHeaderHash := pvBlockHeaderHash p; qvSignature := EmptyString;
    qvValidatorIndex := -1 |}.
Definition NewPrevoteFromBytes (bz : bytes) : option Prevote := option_map NewPrevoteFromProto (unmarshal bz).
Definition Precommit_ProtoBytes (p : Precommit) : outcome bytes := MustProtoBytes (Precommit_ToProto p).
Definition Precommit_SignBytes (p : Precommit) : outcome bytes :=
  MustProtoBytes {| qcCode := int32 (pcCode p); qcVoteType := pcVoteType p; qcHeight := pcHeight p;
    qcRound := int32 (pcRound p); qcBlockHeaderHash := pcBlockHeaderHash p; qcSignature := EmptyString;
    qcValidatorIndex := -1 |}.
Definition NewPrecommitFromBytes (bz : bytes) : option Precommit := option_map NewPrecommitFromProto (unmarshal bz).
Definition PA_ProtoBytes (p : PrecommitAggregated) : outcome bytes := MustProtoBytes (PA_ToProto p).
Definition NewPrecommitAggregatedFromBytes (bz : bytes) : outcome (option PrecommitAggregated) :=
  from_bytes NewPrecommitAggregatedFromProto bz.
Definition CSB_ProtoBytes (csb : CrossShardBlock) : outcome bytes := MustProtoBytes (CSB_ToProto csb).
Definition NewCrossShardBlockFromBytes (bz : bytes) : outcome (option CrossShardBlock) :=
  from_bytes NewCrossShardBlockFromProto bz.
Definition MA_ProtoBytes (ma : MessageAccept) : outcome bytes := MustProtoBytes (MA_ToProto ma).
Definition NewMessageAcceptFromBytes (bz : bytes) : outcome (option MessageAccept) :=
  from_bytes NewMessageAcceptFromProto bz.
Definition MAS_ProtoBytes (mas : MessageAcceptSet) : outcome bytes := MustProtoBytes (MAS_ToProto mas).
Definition NewMessageAcceptSetFromBytes (bz : bytes) : outcome (option MessageAcceptSet) :=
  from_bytes NewMessageAcceptSetFromProto bz.
Definition MC_ProtoBytes (mc : MessageCommit) : outcome bytes := MustProtoBytes (MC_ToProto mc).
Definition NewMessageCommitFromBytes (bz : bytes) : outcome (option MessageCommit) :=
  from_bytes NewMessageCommitFromProto bz.
Definition MO_ProtoBytes (m : MessageOK) : outcome bytes := MustProtoBytes (MO_ToProto m).
Definition NewMessageOKFromBytes (bz : bytes) : option MessageOK := option_map NewMessageOKFromProto (unmarshal bz).

Context {B : BLS}.
Definition VerifySignatures (p : PrecommitAggregated) (verifier : option Verifier) (bitVectorBytes : bytes)
    : outcome bool :=
  match verifier with
  | None => Ret false
  | Some v =>
      msg ← Precommit_SignBytes (PA_Precommit p);
      VerifyAggregateSignature v (paSignatures p) msg bitVectorBytes
  end.

End Votes.

(** ** The vote set *)

(** The [Vote] interface. *)
Class Vote (V : Type) := {
  GetBlockHeaderHash : V → bytes;
  GetIndex : V → Z;
  IsOK : V → bool;
  GetSignature : V → string
}.
#[export] Instance Prevote_Vote : Vote Prevote :=
  {| GetBlockHeaderHash := pvBlockHeaderHash; GetIndex := pvValidatorIndex; IsOK := Prevote_IsOK;
     GetSignature := pvSignature |}.
#[export] Instance Precommit_Vote : Vote Precommit :=
  {| GetBlockHeaderHash := pcBlockHeaderHash; GetIndex := pcValidatorIndex; IsOK := Precommit_IsOK;
     GetSignature := pcSignature |}.

Inductive voteset_error := ErrAmbiguousVotes.

Section VoteSet.
Context {V : Type} {VV : Vote V} {B : BLS}.

(** A map entry holds the two counters, of accepting and of aborting votes. *)
Record VoteSet := {
  validatorNum : Z; totalVotes : Z; votes : list (option V); blockHeaderHashCnt : gmap bytes (Z * Z);
  bitVector : option BitVector; has_mj23 : bool; mj23_key : bytes; mj23_code : bool
}.

(** [make] panics on a negative length. *)
Definition NewVoteSet (n totalVotes : Z) : outcome VoteSet :=
  if n <? 0 then Panic
  else Ret {| validatorNum := n; totalVotes := totalVotes; votes := replicate (Z.to_nat n) None;
              blockHeaderHashCnt := ∅; bitVector := NewBitVector n; has_mj23 := false; mj23_key := [];
              mj23_code := false |}.

Definition count_of (ok : bool) (cnt : Z * Z) : Z := if ok then fst cnt else snd cnt.
Definition add_count (ok : bool) (cnt : Z * Z) (w : Z) : Z * Z :=
  if ok then (int32 (fst cnt + w), snd cnt) else (fst cnt, int32 (snd cnt + w)).

Definition AddVote (vs : VoteSet) (vote : V) (valVote : Z) : outcome (VoteSet * option voteset_error) :=
  let key := GetBlockHeaderHash vote in
  seen ← BitVector.GetIndex (bitVector vs) (GetIndex vote);
  if seen : bool then
    raw ← idx (votes vs) (GetIndex vote);
    rawVote ← deref raw;
    if bytes_Equal (GetBlockHeaderHash vote) (GetBlockHeaderHash rawVote) || negb (eqb (IsOK vote) (IsOK rawVote))
    then Ret (vs, Some ErrAmbiguousVotes) else Ret (vs, None)
  else
    '(bv, _) ← SetIndex (bitVector vs) (GetIndex vote) true;
    vts ← upd (votes vs) (GetIndex vote) (Some vote);
    let cnt := add_count (IsOK vote) (default (0, 0) (blockHeaderHashCnt vs !! key)) valVote in
    let vs' mj k c := {| validatorNum := validatorNum vs; totalVotes := totalVotes vs; votes := vts;
      blockHeaderHashCnt := <[key := cnt]> (blockHeaderHashCnt vs); bitVector := bv;
      has_mj23 := mj; mj23_key := k; mj23_code := c |} in
    if has_mj23 vs then Ret (vs' true (mj23_key vs) (mj23_code vs), None)
    else if Z.quot (int32 (2 * totalVotes vs)) 3 <? count_of (IsOK vote) cnt
    then Ret (vs' true key (IsOK vote), None)
    else Ret (vs' false (mj23_key vs) (mj23_code vs), None).

Definition HasMaj23 (vs : VoteSet) : bool := has_mj23 vs.
Definition GetMaj23 (vs : VoteSet) : bytes * bool := (mj23_key vs, mj23_code vs).

(** The loop of [GetMaj23AggreSig] over the validators from [i] on. *)
Fixpoint agg_loop (n : nat) (vs : VoteSet) (i : Z) (bv : option BitVector) (aggSigs : list string)
    : outcome (option BitVector * list string) :=
  match n with
  | O => Ret (bv, aggSigs)
  | S n' =>
      b ← BitVector.GetIndex (bitVector vs) i;
      if b : bool then
        v ← idx (votes vs) i;
        vote ← deref v;
        if eqb (IsOK vote) (mj23_code vs) && bytes_Equal (mj23_key vs) (GetBlockHeaderHash vote) then
          '(bv, _) ← SetIndex bv i true;
          agg_loop n' vs (i + 1) bv (aggSigs ++ [GetSignature vote])
        else agg_loop n' vs (i + 1) bv aggSigs
      else agg_loop n' vs (i + 1) bv aggSigs
  end.
Definition GetMaj23AggreSig (vs : VoteSet) : outcome (string * bytes) :=
  '(bv, aggSigs) ← agg_loop (Z.to_nat (validatorNum vs)) vs 0 (NewBitVector (validatorNum vs)) [];
  match AggregateSignatures aggSigs with
  | None => Panic
  | Some aggSig => Ret (aggSig, Byte bv)
  end.

End VoteSet.
Arguments VoteSet V : clear implicits.
