(* ===== verification/PyrVoteProofs.v ===== *)
(** * Pyramid votes: majorities and aggregates

    The invariant of the vote set of [PyrVotes]: its counters are the weights
    of the votes held, and it names a majority exactly when more than two thirds
    of the weight agree, on one block and one code only; and that the
    aggregated precommit it yields verifies. *)

From stdpp Require Import base list gmap strings numbers.
From Stdlib Require Import ZArith Lia.
From S2P Require Import Prelude Convert BitVector Hash Merkle Wire Signer PyrTypes PyrParts PyrVotes.

Section VoteSetProofs.
Context {V : Type} {VV : Vote V} {B : BLS}.
(** The weights of the validators. *)
Context (per : list Z).

Definition votes_for (k : bytes) (c : bool) (v : V) : bool := bytes_Equal (GetBlockHeaderHash v) k && eqb (IsOK v) c.
Definition tally (vs : VoteSet V) (k : bytes) (c : bool) : Z := weight (votes_for k c) (votes vs) per.
(** The threshold of the code. *)
Definition bound : Z := 2 * zsum per / 3.

Record weights_ok : Prop := {
  w_nonneg : Forall (λ w, 0 ≤ w) per;
  w_bound : 2 * zsum per < 2 ^ 31
}.

Record vs_inv (vs : VoteSet V) : Prop := {
  vi_num : validatorNum vs = zlen per;
  vi_total : totalVotes vs = zsum per;
  vi_len : length (votes vs) = length per;
  vi_bits : ∃ bv, bitVector vs = Some bv ∧ bv_wf bv ∧ Bits bv = zlen per ∧
    ∀ i, (i < length per)%nat → bv_bit bv (Z.of_nat i) = true ↔ ∃ v, votes vs !! i = Some (Some v);
  vi_index : ∀ i v, votes vs !! i = Some (Some v) → GetIndex v = Z.of_nat i;
  vi_count : ∀ k, default (0, 0) (blockHeaderHashCnt vs !! k) = (tally vs k true, tally vs k false);
  vi_maj : has_mj23 vs = true → bound < tally vs (mj23_key vs) (mj23_code vs);
  vi_none : has_mj23 vs = false → ∀ k c, tally vs k c ≤ bound
}.

Context (Hw : weights_ok).

Lemma bound_nonneg : 0 ≤ bound.
Proof. unfold bound. pose proof (zsum_nonneg per (w_nonneg Hw)). apply Z.div_pos; lia. Qed.

(** A majority is somebody's vote. *)
Lemma majority_vote vs : vs_inv vs → has_mj23 vs = true → ∃ i v, votes vs !! i = Some (Some v) ∧
  votes_for (mj23_key vs) (mj23_code vs) v = true.
Proof. intros I Hm. pose proof (vi_maj _ I Hm). pose proof bound_nonneg. apply (weight_pos _ _ per). unfold tally in *. lia. Qed.

Lemma tally_bounds vs k c : 0 ≤ tally vs k c ≤ zsum per.
Proof. unfold tally. destruct (weight_bounds (votes_for k c) (votes vs) per (w_nonneg Hw)) as (? & ? & ?). lia. Qed.

(** Two different candidates share no vote, so they cannot both pass. *)
Lemma majority_unique vs k c k' c' : bound < tally vs k c → bound < tally vs k' c' → k' = k ∧ c' = c.
Proof.
  intros H1 H2. assert ((k', c') = (k, c) ∨ (k', c') ≠ (k, c)) as [[= -> ->]|Hne]; [|done|exfalso].
  { destruct (decide ((k', c') = (k, c))); auto. }
  assert (tally vs k c + tally vs k' c' ≤ zsum per) as Hsum.
  { destruct (weight_bounds (votes_for k c) (votes vs) per (w_nonneg Hw)) as (_ & Hs & _).
    enough (tally vs k' c' ≤ weight (λ v, negb (votes_for k c v)) (votes vs) per) by (unfold tally in *; lia).
    apply weight_mono; [|apply Hw]. intros v Hv. unfold votes_for in *. apply andb_true_iff in Hv as [Hk Hc].
    bool_to_prop. apply eqb_prop in Hc. subst. apply negb_true_iff, andb_false_iff.
    destruct (bytes_Equal (GetBlockHeaderHash v) k) eqn:Ek; [right|by left]. bool_to_prop. subst k.
    destruct (IsOK v), c; try done; by destruct Hne. }
  unfold bound in *. pose proof (zsum_nonneg per (w_nonneg Hw)).
  pose proof (Z.div_mod (2 * zsum per) 3 ltac:(lia)). pose proof (Z.mod_pos_bound (2 * zsum per) 3 ltac:(lia)). lia.
Qed.

Lemma NewVoteSet_inv vs : NewVoteSet (zlen per) (zsum per) = Ret vs → vs_inv vs.
Proof.
  unfold NewVoteSet. destruct (Z.ltb_spec (zlen per) 0) as [|_]; [done|]. intros [= <-].
  assert (∀ k c, weight (votes_for k c) (replicate (Z.to_nat (zlen per)) None) per = 0) as Hz by (intros; apply weight_replicate).
  pose proof bound_nonneg as Hb.
  constructor; cbn; try done.
  - unfold zlen. by rewrite length_replicate, Nat2Z.id.
  - assert (0 ≤ zlen per) as Hn by apply zlen_nonneg. destruct (NewBitVector (zlen per)) as [bv|] eqn:E.
    2:{ unfold NewBitVector in E. destruct (Z.ltb_spec (zlen per) 0); [lia|done]. }
    destruct (NewBitVector_wf _ _ E) as (Hwf & Hbits & _ & Hz'). exists bv. split_and!; try done.
    intros i Hi. unfold bv_bit. rewrite Hz', andb_false_r. split; [done|]. intros [v Hv%lookup_replicate]. by destruct Hv.
  - intros i v Hv%lookup_replicate. by destruct Hv.
  - intros k. rewrite lookup_empty. unfold tally. cbn. by rewrite !Hz.
  - intros _ k c. unfold tally. cbn. by rewrite Hz.
Qed.

Lemma GetIndex_set vs i : vs_inv vs → (i < length per)%nat →
  ∃ o, votes vs !! i = Some o ∧ idx (votes vs) (Z.of_nat i) = Ret o ∧
    BitVector.GetIndex (bitVector vs) (Z.of_nat i) = Ret (bool_decide (is_Some o)).
Proof.
  intros I Hi. destruct (vi_bits _ I) as (bv & -> & Hwf & Hb & Hbit).
  destruct (lookup_lt_is_Some_2 (votes vs) i) as [o Ho]; [by rewrite (vi_len _ I)|].
  exists o. split_and!; [done|apply idx_Ret; rewrite Nat2Z.id; split; [lia|done]|].
  rewrite GetIndex_bit by (done || lia). f_equal. specialize (Hbit i Hi).
  destruct (bv_bit bv (Z.of_nat i)).
  - destruct Hbit as [[v Hv] _]; [done|]. rewrite Ho in Hv. injection Hv as ->. by rewrite bool_decide_true.
  - destruct o as [v|]; [|by rewrite bool_decide_false by (intros []; done)].
    destruct Hbit as [_ Hb']. discriminate Hb'. by exists v.
Qed.

(** What [AddVote] does with a vote of a validator of the set. *)
Definition noted (vs : VoteSet V) (vote : V) (bv : option BitVector) (i : nat) (w : Z) : VoteSet V :=
  {| validatorNum := validatorNum vs; totalVotes := totalVotes vs; votes := <[i := Some vote]> (votes vs);
     blockHeaderHashCnt := <[GetBlockHeaderHash vote := add_count (IsOK vote)
       (default (0, 0) (blockHeaderHashCnt vs !! GetBlockHeaderHash vote)) w]> (blockHeaderHashCnt vs);
     bitVector := bv;
     has_mj23 := has_mj23 vs || (bound <? tally vs (GetBlockHeaderHash vote) (IsOK vote) + w);
     mj23_key := if has_mj23 vs then mj23_key vs
       else if bound <? tally vs (GetBlockHeaderHash vote) (IsOK vote) + w then GetBlockHeaderHash vote else mj23_key vs;
     mj23_code := if has_mj23 vs then mj23_code vs
       else if bound <? tally vs (GetBlockHeaderHash vote) (IsOK vote) + w then IsOK vote else mj23_code vs |}.

Lemma tally_note vs vs' vote i w k c : votes vs !! i = Some None → per !! i = Some w →
  votes vs' = <[i := Some vote]> (votes vs) →
  tally vs' k c = tally vs k c + (if votes_for k c vote then w else 0).
Proof. intros Hn Hp E. unfold tally. rewrite E. by apply weight_insert. Qed.

Lemma weight_in i w : per !! i = Some w → 0 ≤ w.
Proof. intros Hi. eapply (Forall_lookup_1 (λ w, 0 ≤ w)); [apply Hw|done]. Qed.

(** The new tally of the vote's own candidate stays below the total. *)
Lemma tally_room vs vote i w : votes vs !! i = Some None → per !! i = Some w →
  tally vs (GetBlockHeaderHash vote) (IsOK vote) + w ≤ zsum per.
Proof.
  intros Hn Hp. set (vs' := {| validatorNum := 0; totalVotes := 0; votes := <[i := Some vote]> (votes vs);
    blockHeaderHashCnt := ∅; bitVector := None; has_mj23 := false; mj23_key := []; mj23_code := false |} : VoteSet V).
  destruct (tally_bounds vs' (GetBlockHeaderHash vote) (IsOK vote)) as [_ Ht].
  rewrite (tally_note vs vs' vote i w) in Ht by done.
  unfold votes_for in Ht. by rewrite bytes_Equal_refl, eqb_reflx in Ht.
Qed.

Lemma AddVote_new vs vote i w : vs_inv vs → GetIndex vote = Z.of_nat i → per !! i = Some w →
  votes vs !! i = Some None →
  ∃ bv, AddVote vs vote w = Ret (noted vs vote (Some bv) i w, None) ∧ bv_wf bv ∧ Bits bv = zlen per ∧
    ∀ j, 0 ≤ j → bv_bit bv j = (j =? Z.of_nat i) || match bitVector vs with Some b => bv_bit b j | None => false end.
Proof.
  intros I Hi Hp Hn. apply lookup_lt_Some in Hp as Hlt.
  destruct (GetIndex_set vs i I Hlt) as (o & Ho & _ & Eg). rewrite Hn in Ho. injection Ho as <-.
  unfold AddVote. rewrite Hi, Eg. rewrite bool_decide_false by (intros []; done). cbn [mbind outcome_bind].
  destruct (vi_bits _ I) as (bv & Ebv & Hwf & Hb & Hbit). rewrite Ebv.
  destruct (SetIndex_spec bv (Z.of_nat i) true Hwf) as [Hset _]; [lia|].
  destruct Hset as (bv' & Es & Hwf' & Hb' & Hel); [rewrite Hb; unfold zlen; lia|]. rewrite Es. cbn [mbind outcome_bind].
  assert (upd (votes vs) (Z.of_nat i) (Some vote) = Ret (<[i := Some vote]> (votes vs))) as ->.
  { unfold upd. pose proof (vi_len _ I). unfold zlen. destruct (Z.ltb_spec (Z.of_nat i) 0); [lia|].
    destruct (Z.leb_spec (Z.of_nat (length (votes vs))) (Z.of_nat i)); [lia|]. by rewrite Nat2Z.id. }
  cbn [mbind outcome_bind]. pose proof (tally_room vs vote i w Hn Hp). pose proof (weight_in i w Hp).
  pose proof (w_bound Hw). pose proof (zsum_nonneg per (w_nonneg Hw)).
  assert (count_of (IsOK vote) (add_count (IsOK vote) (default (0, 0) (blockHeaderHashCnt vs !! GetBlockHeaderHash vote)) w)
    = tally vs (GetBlockHeaderHash vote) (IsOK vote) + w) as Hcnt.
  { rewrite (vi_count _ I). pose proof (tally_bounds vs (GetBlockHeaderHash vote) (IsOK vote)).
    unfold add_count, count_of. destruct (IsOK vote); cbn; apply wrapS_small; lia. }
  rewrite Hcnt, (vi_total _ I), (wrapS_small 32) by lia. rewrite Z.quot_div_nonneg by lia. fold bound.
  exists bv'. split_and!; try done; [|congruence|].
  - unfold noted. rewrite (vi_total _ I). destruct (has_mj23 vs); [done|]. cbn [orb]. by destruct (_ <? _).
  - intros j Hj. unfold bv_bit. rewrite Hel, Hb', Hb by done. destruct (Z.leb_spec 0 j); [|lia]. cbn [andb].
    destruct (Z.eqb_spec j (Z.of_nat i)) as [->|]; [|done].
    destruct (Z.ltb_spec (Z.of_nat i) (zlen per)); [done|unfold zlen in *; lia].
Qed.

Lemma noted_inv vs vote i w bv : vs_inv vs → GetIndex vote = Z.of_nat i → per !! i = Some w →
  votes vs !! i = Some None → bv_wf bv → Bits bv = zlen per →
  (∀ j, 0 ≤ j → bv_bit bv j = (j =? Z.of_nat i) || match bitVector vs with Some b => bv_bit b j | None => false end) →
  vs_inv (noted vs vote (Some bv) i w).
Proof.
  intros I Hi Hp Hn Hwf Hb Hbit. pose proof (weight_in i w Hp) as Hw0. apply lookup_lt_Some in Hp as Hlt.
  assert (∀ k c, tally (noted vs vote (Some bv) i w) k c = tally vs k c + if votes_for k c vote then w else 0) as Ht
    by (intros; by apply (tally_note vs _ vote i)).
  assert (votes_for (GetBlockHeaderHash vote) (IsOK vote) vote = true) as Hself
    by (unfold votes_for; by rewrite bytes_Equal_refl, eqb_reflx).
  constructor; try apply I.
  - cbn. by rewrite length_insert, (vi_len _ I).
  - exists bv. split_and!; try done. intros j Hj. rewrite Hbit by lia.
    destruct (vi_bits _ I) as (b0 & -> & _ & _ & Hb0). cbn [votes noted]. specialize (Hb0 j Hj).
    destruct (Z.eqb_spec (Z.of_nat j) (Z.of_nat i)) as [Eji|Hne]; cbn [orb].
    + assert (j = i) as -> by lia. rewrite list_lookup_insert_eq by (by rewrite (vi_len _ I)). split; [by eexists|done].
    + rewrite list_lookup_insert_ne by (intros ->; lia). done.
  - intros j v. cbn [votes noted]. intros Hv. apply list_lookup_insert_Some in Hv as [(<- & [= <-] & _)|[_ Hv]]; [done|].
    by apply (vi_index _ I).
  - intros k. rewrite !Ht. cbn [noted blockHeaderHashCnt]. destruct (decide (k = GetBlockHeaderHash vote)) as [->|Hk].
    + rewrite lookup_insert_eq. cbn [default]. rewrite (vi_count _ I). unfold add_count, votes_for. rewrite bytes_Equal_refl.
      pose proof (tally_room vs vote i w Hn Hp) as Hr. pose proof (w_bound Hw).
      pose proof (tally_bounds vs (GetBlockHeaderHash vote) (IsOK vote)) as Hb0. pose proof (zsum_nonneg per (w_nonneg Hw)).
      clear Hself. revert Hr Hb0. unfold id. destruct (IsOK vote); cbn [eqb andb fst snd]; intros; rewrite (wrapS_small 32) by lia; f_equal; lia.
    + rewrite lookup_insert_ne by done. rewrite (vi_count _ I).
      assert (∀ c, votes_for k c vote = false) as Hf.
      { intros c. unfold votes_for. destruct (bytes_Equal (GetBlockHeaderHash vote) k) eqn:E; [|done]. bool_to_prop. congruence. }
      rewrite !Hf. f_equal; lia.
  - cbn [noted has_mj23 mj23_key mj23_code]. destruct (has_mj23 vs) eqn:Em; intros Hmaj.
    + cbn [orb]. rewrite Ht. pose proof (vi_maj _ I Em). clear -H Hw0. case_match; lia.
    + cbn [orb] in Hmaj. rewrite Hmaj. apply Z.ltb_lt in Hmaj. rewrite Ht, Hself. lia.
  - cbn [noted has_mj23]. intros [Em Hl]%orb_false_iff k c. apply Z.ltb_ge in Hl. pose proof (vi_none _ I Em k c).
    rewrite Ht. destruct (votes_for k c vote) eqn:Ef; [|lia]. unfold votes_for in Ef. apply andb_true_iff in Ef as [Ek Ec].
    bool_to_prop. apply eqb_prop in Ec. by subst.
Qed.

(** The behaviour of [AddVote] on a vote of validator [i]: the first vote is
    recorded and counted; a second one never changes the set, and is reported
    as ambiguous exactly when it is for the same block or has another code. *)
Lemma AddVote_spec vs vote i w : vs_inv vs → GetIndex vote = Z.of_nat i → per !! i = Some w →
  ∃ vs' e, AddVote vs vote w = Ret (vs', e) ∧ vs_inv vs' ∧
    match votes vs !! i with
    | Some (Some raw) => vs' = vs ∧
        (e = None ↔ GetBlockHeaderHash vote ≠ GetBlockHeaderHash raw ∧ IsOK vote = IsOK raw)
    | _ => e = None ∧ votes vs' = <[i := Some vote]> (votes vs)
    end ∧
    (has_mj23 vs = true → has_mj23 vs' = true ∧ mj23_key vs' = mj23_key vs ∧ mj23_code vs' = mj23_code vs).
Proof.
  intros I Hi Hp. apply lookup_lt_Some in Hp as Hlt. destruct (GetIndex_set vs i I Hlt) as ([raw|] & Ho & Ei & Eg).
  - unfold AddVote. rewrite Hi, Eg, bool_decide_true by done. cbn [mbind outcome_bind]. rewrite Ei. cbn [mbind outcome_bind deref].
    rewrite Ho. destruct (_ || _) eqn:Eb; eexists _, _; (split; [done|]); (split; [done|]); (split; [|done]); (split; [done|]).
    + split; [done|]. intros [Hne Hc]. apply orb_true_iff in Eb as [Eb|Eb]; bool_to_prop; [congruence|].
      by rewrite Hc, eqb_reflx in Eb.
    + split; [intros _|done]. apply orb_false_iff in Eb as [Eb Ec]. split; [by apply bytes_Equal_false|].
      apply negb_false_iff in Ec. by apply eqb_prop.
  - destruct (AddVote_new vs vote i w I Hi Hp Ho) as (bv & -> & Hwf & Hb & Hbit). eexists _, _. split; [done|].
    split; [by apply noted_inv|]. rewrite Ho. split; [done|]. intros Em. cbn [noted has_mj23 mj23_key mj23_code]. by rewrite Em.
Qed.

(** Any sequence of votes of validators of the set, each with its weight. *)
Inductive vs_reach : VoteSet V → Prop :=
| vs_new vs : NewVoteSet (zlen per) (zsum per) = Ret vs → vs_reach vs
| vs_add vs vote vs' w e : vs_reach vs → 0 ≤ GetIndex vote → per !! Z.to_nat (GetIndex vote) = Some w →
    AddVote vs vote w = Ret (vs', e) → vs_reach vs'.

Lemma vs_reach_inv vs : vs_reach vs → vs_inv vs.
Proof.
  induction 1 as [vs E|vs vote vs' w e _ IH Hi Hp E]; [by apply NewVoteSet_inv|].
  destruct (AddVote_spec vs vote (Z.to_nat (GetIndex vote)) w IH) as (vs1 & e1 & E1 & I1 & _); [lia|done|].
  rewrite E in E1. by injection E1 as <- <-.
Qed.

(** C11. In every vote set reached by votes of its validators, in whatever order and
    however often they vote: the counters are the exact weights of the votes
    held; the set has a majority exactly when some block and code has more than
    two thirds of the weight, and then it names the only one that has; adding
    another vote never panics, replaces no vote and keeps the majority. *)
Theorem VoteSet_majority vs (R : vs_reach vs) :
  (∀ k, default (0, 0) (blockHeaderHashCnt vs !! k) = (tally vs k true, tally vs k false)) ∧
  (HasMaj23 vs = true ↔ ∃ k c, bound < tally vs k c) ∧
  (HasMaj23 vs = true → ∀ k c, bound < tally vs k c ↔ (k, c) = GetMaj23 vs) ∧
  ∀ vote w, 0 ≤ GetIndex vote → per !! Z.to_nat (GetIndex vote) = Some w →
    ∃ vs' e, AddVote vs vote w = Ret (vs', e) ∧ vs_reach vs' ∧
      (∀ i v, votes vs !! i = Some (Some v) → votes vs' !! i = Some (Some v)) ∧
      (HasMaj23 vs = true → HasMaj23 vs' = true ∧ GetMaj23 vs' = GetMaj23 vs).
Proof.
  pose proof (vs_reach_inv vs R) as I. unfold HasMaj23, GetMaj23. split_and!.
  - apply I.
  - destruct (has_mj23 vs) eqn:Em; split; try done.
    + intros _. eexists _, _. by apply (vi_maj _ I).
    + intros (k & c & Hk). pose proof (vi_none _ I Em k c). lia.
  - intros Em k c. pose proof (vi_maj _ I Em). split; [|by intros [= -> ->]].
    intros Hk. destruct (majority_unique vs (mj23_key vs) (mj23_code vs) k c) as [-> ->]; done.
  - intros vote w Hi Hp. destruct (AddVote_spec vs vote (Z.to_nat (GetIndex vote)) w I) as (vs' & e & E & I' & Hv & Hm); [lia|done|].
    exists vs', e. split_and!; [done|by eapply vs_add| |].
    + intros i v Hiv. destruct (votes vs !! Z.to_nat (GetIndex vote)) as [[raw|]|] eqn:Eo; [by destruct Hv as [-> _]|..];
        destruct Hv as [_ ->]; rewrite list_lookup_insert_ne; [done|intros E'; rewrite E' in Eo; congruence|done|intros E'; rewrite E' in Eo; congruence].
    + intros (? & -> & ->)%Hm. done.
Qed.

End VoteSetProofs.

(** ** The aggregated signature *)

Section Aggregate.
Context {V : Type} {VV : Vote V} {B : BLS} (per : list Z).

(** The votes of the majority, by position. *)
Definition in_majority (vs : VoteSet V) (j : Z) : bool :=
  match votes vs !! Z.to_nat j with
  | Some (Some v) => votes_for (mj23_key vs) (mj23_code vs) v
  | _ => false
  end.

Lemma marked_sigs_ext sigs f g : ∀ i, (∀ j, i ≤ j → f j = g j) → marked_sigs sigs f i = marked_sigs sigs g i.
Proof.
  induction sigs as [|s sigs IH]; intros i Hfg; [done|]. cbn [marked_sigs]. rewrite (Hfg i) by lia.
  f_equal. apply IH. intros j Hj. apply Hfg. lia.
Qed.
Lemma marked_sigs_ne sigs f : ∀ i k x, sigs !! k = Some (Some x) → f (i + Z.of_nat k) = true →
  marked_sigs sigs f i ≠ [].
Proof.
  induction sigs as [|s sigs IH]; intros i [|k] x Hk Hf; cbn in Hk; try done; cbn [marked_sigs].
  - injection Hk as ->. rewrite Z.add_0_r in Hf. by rewrite Hf.
  - intros [_ E]%app_eq_nil. by apply (IH (i + 1) k x Hk); [rewrite <- Hf; f_equal; lia|].
Qed.

Lemma agg_loop_spec vs : vs_inv per vs → ∀ n i bv sigs, (i + n = length per)%nat → bv_wf bv → Bits bv = zlen per →
  ∃ bv', agg_loop n vs (Z.of_nat i) (Some bv) sigs =
      Ret (Some bv', sigs ++ marked_sigs (map (fmap GetSignature) (drop i (votes vs))) (in_majority vs) (Z.of_nat i)) ∧
    bv_wf bv' ∧ Bits bv' = zlen per ∧
    ∀ j, 0 ≤ j → elem_bit (Elems bv') j = elem_bit (Elems bv) j || ((Z.of_nat i <=? j) && in_majority vs j).
Proof.
  intros I. induction n as [|n IH]; intros i bv sigs Hn Hwf Hb.
  { exists bv. rewrite drop_ge by (rewrite (vi_len _ _ I); lia). cbn. rewrite app_nil_r. split_and!; try done.
    intros j Hj. unfold in_majority. destruct (Z.leb_spec (Z.of_nat i) j); [|by rewrite orb_false_r].
    rewrite lookup_ge_None_2 by (rewrite (vi_len _ _ I); lia). by rewrite orb_false_r. }
  destruct (GetIndex_set per vs i I) as (o & Ho & Ei & Eg); [lia|]. cbn [agg_loop]. rewrite Eg. cbn [mbind outcome_bind].
  rewrite (drop_S (votes vs) o i Ho). cbn [map marked_sigs]. replace (Z.of_nat i + 1) with (Z.of_nat (S i)) by lia.
  assert (in_majority vs (Z.of_nat i) = match o with Some v => votes_for (mj23_key vs) (mj23_code vs) v | None => false end) as Hm
    by (unfold in_majority; by rewrite Nat2Z.id, Ho).
  assert (∀ P : bool, (Z.of_nat i <=? Z.of_nat i) && P = P) as Hrefl by (intros; by rewrite Z.leb_refl).
  assert (∀ bv0 bv', (∀ j, 0 ≤ j → elem_bit (Elems bv') j = elem_bit (Elems bv0) j || ((Z.of_nat (S i) <=? j) && in_majority vs j)) →
    (∀ j, 0 ≤ j → elem_bit (Elems bv0) j = if j =? Z.of_nat i then in_majority vs (Z.of_nat i) || elem_bit (Elems bv) j else elem_bit (Elems bv) j) →
    ∀ j, 0 ≤ j → elem_bit (Elems bv') j = elem_bit (Elems bv) j || ((Z.of_nat i <=? j) && in_majority vs j)) as Hstep.
  { intros bv0 bv' H1 H2 j Hj. rewrite H1, H2 by done. destruct (Z.eqb_spec j (Z.of_nat i)) as [->|Hne].
    - rewrite Hrefl. destruct (Z.leb_spec (Z.of_nat (S i)) (Z.of_nat i)); [lia|]. cbn. by rewrite orb_false_r, orb_comm.
    - destruct (Z.leb_spec (Z.of_nat (S i)) j), (Z.leb_spec (Z.of_nat i) j); lia || done. }
  destruct o as [v|].
  2:{ rewrite bool_decide_false by (intros []; done). destruct (IH (S i) bv sigs) as (bv' & -> & Hwf' & Hb' & Hel); [lia|done..|].
      rewrite Hm. exists bv'. split_and!; try done. apply (Hstep bv); [done|]. intros j Hj. rewrite Hm. by destruct (_ =? _). }
  rewrite bool_decide_true by done. rewrite Ei. cbn [mbind outcome_bind deref]. rewrite Hm.
  assert (eqb (IsOK v) (mj23_code vs) && bytes_Equal (mj23_key vs) (GetBlockHeaderHash v) = votes_for (mj23_key vs) (mj23_code vs) v) as ->.
  { unfold votes_for. rewrite andb_comm. f_equal.
    destruct (bytes_Equal (mj23_key vs) _) eqn:E1, (bytes_Equal (GetBlockHeaderHash v) _) eqn:E2; bool_to_prop; congruence || done. }
  destruct (votes_for _ _ v) eqn:Ev.
  - destruct (SetIndex_spec bv (Z.of_nat i) true Hwf) as [Hset _]; [lia|].
    destruct Hset as (bv1 & Es & Hwf1 & Hb1 & Hel1); [rewrite Hb; unfold zlen; lia|]. rewrite Es. cbn [mbind outcome_bind].
    destruct (IH (S i) bv1 (sigs ++ [GetSignature v])) as (bv' & -> & Hwf' & Hb' & Hel); [lia|done|congruence|].
    exists bv'. rewrite <- app_assoc. split_and!; try done. apply (Hstep bv1); [done|]. intros j Hj. by rewrite Hel1, Hm by done.
  - destruct (IH (S i) bv sigs) as (bv' & -> & Hwf' & Hb' & Hel); [lia|done..|].
    exists bv'. split_and!; try done. apply (Hstep bv); [done|]. intros j Hj. rewrite Hm. by destruct (_ =? _).
Qed.

(** The aggregate of a set with a majority, all of whose majority votes sign
    one message: it exists, verifies on that message, and its bitmap marks
    exactly the majority. *)
Lemma GetMaj23AggreSig_spec vs (s : Verifier) msg : weights_ok per → vs_inv per vs → has_mj23 vs = true →
  Verifier_Size s = zlen per →
  (∀ i v, votes vs !! i = Some (Some v) → votes_for (mj23_key vs) (mj23_code vs) v = true →
     Verify s (GetSignature v) msg (Z.of_nat i) = Ret true) →
  ∃ agg bv, GetMaj23AggreSig vs = Ret (agg, Byte (Some bv)) ∧ bv_wf bv ∧
    (∀ j, 0 ≤ j → bv_bit bv j = in_majority vs j) ∧
    VerifyAggregateSignature s agg msg (Byte (Some bv)) = Ret true.
Proof.
  intros Hw I Hmaj Hs Hver. unfold GetMaj23AggreSig. rewrite (vi_num _ _ I). unfold zlen. rewrite Nat2Z.id.
  destruct (NewBitVector (Z.of_nat (length per))) as [bv0|] eqn:E0.
  2:{ unfold NewBitVector in E0. destruct (Z.ltb_spec (Z.of_nat (length per)) 0); [lia|done]. }
  destruct (NewBitVector_wf _ _ E0) as (Hwf0 & Hb0 & _ & Hz0).
  destruct (agg_loop_spec vs I (length per) 0 bv0 []) as (bv & E & Hwf & Hb & Hel); [lia|done|done|].
  change (Z.of_nat 0) with 0 in E. rewrite E. cbn [mbind outcome_bind app drop].
  assert (∀ j, 0 ≤ j → bv_bit bv j = in_majority vs j) as Hbit.
  { intros j Hj. unfold bv_bit. rewrite Hel, Hz0, Hb by done. change (Z.of_nat 0) with 0. destruct (Z.leb_spec 0 j); [|lia].
    cbn. destruct (Z.ltb_spec j (zlen per)); [done|]. unfold in_majority.
    by rewrite lookup_ge_None_2 by (rewrite (vi_len _ _ I); unfold zlen in *; lia). }
  rewrite drop_0. rewrite (marked_sigs_ext _ (in_majority vs) (bv_bit bv)) by (intros; symmetry; by apply Hbit).
  destruct (aggregate_complete s (map (fmap GetSignature) (votes vs)) bv msg Hwf) as (agg & Ea & Hv).
  - by rewrite Hb, <- Hs.
  - unfold Verifier_Size in Hs. rewrite Hs. unfold zlen. by rewrite length_map, (vi_len _ _ I).
  - intros k Hk. assert (0 ≤ k) as Hk0.
    { unfold bv_bit in Hk. destruct (Z.leb_spec 0 k); [done|discriminate]. }
    rewrite Hbit in Hk by done. unfold in_majority in Hk.
    destruct (votes vs !! Z.to_nat k) as [[v|]|] eqn:Ev; [|done..]. exists (GetSignature v).
    split; [by rewrite list_lookup_fmap, Ev|]. replace k with (Z.of_nat (Z.to_nat k)) by lia. by apply Hver.
  - destruct (majority_vote per Hw vs I Hmaj) as (i & v & Hi & Hv).
    apply (marked_sigs_ne _ _ 0 i (GetSignature v)); [by rewrite list_lookup_fmap, Hi|].
    rewrite Hbit by lia. unfold in_majority. by rewrite Z.add_0_l, Nat2Z.id, Hi.
  - exists agg, bv. by rewrite Ea.
Qed.
End Aggregate.
