(* ===== verification/PyrHeight.v ===== *)
(** * The data of a Pyramid height

    Models [source/pyramid/shardinfo/shardinfo.go],
    [source/pyramid/consensus/height_datas.go] and [round-step.go]: who the
    shards and validators are, and the proposal, parts and votes a node
    collects for its current height.  [None] of an error is nil. *)

From stdpp Require Import base list gmap strings numbers.
From Stdlib Require Import ZArith Lia.
From S2P Require Import Prelude Convert BitVector Hash Merkle MerkleProofs MerkleGen Wire Signer ShardInfo BlockPart PyrTypes PyrParts PyrVotes PyrVoteProofs.

(** ** Shard information *)

Record ShardInfo := {
  PeerList : gmap string (list Peer);
  RelatedShards : gmap string bool;
  PeerRelatedMap : gmap string (list string);
  ShardIdentity : Z;
  KeyRangeMap : gmap string string
}.
(** The messages [RepeatedPeers] and [RepeatedString] are lists. *)
Record PShardInfo := {
  piPeerList : gmap string (list PPeer);
  piRelatedShards : gmap string bool;
  piPeerRelatedMap : gmap string (list string);
  piShardIdentity : Z
}.

Definition set_identity (s : ShardInfo) (id : Z) : ShardInfo :=
  {| PeerList := PeerList s; RelatedShards := RelatedShards s; PeerRelatedMap := PeerRelatedMap s;
     ShardIdentity := id; KeyRangeMap := KeyRangeMap s |}.
Definition SetIShard (s : ShardInfo) : ShardInfo := set_identity s BLOCKTYPE_I.
Definition SetBShard (s : ShardInfo) : ShardInfo := set_identity s BLOCKTYPE_B.
Definition IsIShard (s : ShardInfo) : bool := ShardIdentity s =? BLOCKTYPE_I.
Definition IsBShard (s : ShardInfo) : bool := ShardIdentity s =? BLOCKTYPE_B.
Definition ShardInfo_ToProto (s : ShardInfo) : PShardInfo :=
  {| piPeerList := map Peer_ToProto <$> PeerList s; piRelatedShards := RelatedShards s;
     piPeerRelatedMap := PeerRelatedMap s; piShardIdentity := int32 (ShardIdentity s) |}.
(** [NewPeerFromProto] never returns an error. *)
Definition NewShardInfoFromProto (p : PShardInfo) : ShardInfo :=
  {| PeerList := map NewPeerFromProto <$> piPeerList p; RelatedShards := piRelatedShards p;
     PeerRelatedMap := piPeerRelatedMap p; ShardIdentity := int8 (piShardIdentity p); KeyRangeMap := ∅ |}.
Definition ShardInfo_ProtoBytes `{ProtoCodec PShardInfo} (s : ShardInfo) : outcome bytes :=
  MustProtoBytes (ShardInfo_ToProto s).
Definition NewShardInfoFromBytes `{ProtoCodec PShardInfo} (bz : bytes) : option ShardInfo :=
  option_map NewShardInfoFromProto (unmarshal bz).

(** A lookup in [RelatedShards]: an absent key reads false. *)
Definition related (s : ShardInfo) (chain : string) : bool := default false (RelatedShards s !! chain).

(** ** Round steps *)
Definition RoundStepNewHeight : Z := 1.
Definition RoundStepNewRound : Z := 2.
Definition RoundStepPropose : Z := 3.
Definition RoundStepPrevote : Z := 4.
Definition RoundStepPrecommit : Z := 5.
Definition RoundStepCommit : Z := 6.

Section Height.
Context {H : HashFn} {W : PyrWire} {VW : PyrVoteWire} {B : BLS}.

Inductive hd_error :=
| DoNothing | ErrProposer | ErrMyChain | ErrProposalSignature | ErrOtherShard | ErrAddPart (e : part_error)
| ErrGenerate (e : gen_error) | ErrVoter | ErrVoteSignature | ErrVotes (e : voteset_error).

Record HeightDataPackage := {
  hdHeight : Z; hdRound : Z; MyChainID : string; PassStep : Z;
  hdShardInfo : ShardInfo;
  ShardVotes : gmap string Z;
  AllValidatorSet : gmap string Verifier;
  hdProposal : option Proposal;
  Prevotes : VoteSet Prevote;
  Precommits : VoteSet Precommit;
  hdPartSet : option PartSet;
  hdBlock : option Block;
  randomHeaderBuffer : list Part
}.

(** ** Field updates *)
Definition set_pass (h : HeightDataPackage) (s : Z) : HeightDataPackage :=
  {| hdHeight := hdHeight h; hdRound := hdRound h; MyChainID := MyChainID h; PassStep := s;
     hdShardInfo := hdShardInfo h; ShardVotes := ShardVotes h; AllValidatorSet := AllValidatorSet h;
     hdProposal := hdProposal h; Prevotes := Prevotes h; Precommits := Precommits h; hdPartSet := hdPartSet h;
     hdBlock := hdBlock h; randomHeaderBuffer := randomHeaderBuffer h |}.
Definition set_proposal (h : HeightDataPackage) (p : option Proposal) (ps : option PartSet) (b : option Block)
    : HeightDataPackage :=
  {| hdHeight := hdHeight h; hdRound := hdRound h; MyChainID := MyChainID h; PassStep := PassStep h;
     hdShardInfo := hdShardInfo h; ShardVotes := ShardVotes h; AllValidatorSet := AllValidatorSet h;
     hdProposal := p; Prevotes := Prevotes h; Precommits := Precommits h; hdPartSet := ps;
     hdBlock := b; randomHeaderBuffer := randomHeaderBuffer h |}.
Definition set_prevotes (h : HeightDataPackage) (vs : VoteSet Prevote) : HeightDataPackage :=
  {| hdHeight := hdHeight h; hdRound := hdRound h; MyChainID := MyChainID h; PassStep := PassStep h;
     hdShardInfo := hdShardInfo h; ShardVotes := ShardVotes h; AllValidatorSet := AllValidatorSet h;
     hdProposal := hdProposal h; Prevotes := vs; Precommits := Precommits h; hdPartSet := hdPartSet h;
     hdBlock := hdBlock h; randomHeaderBuffer := randomHeaderBuffer h |}.
Definition set_precommits (h : HeightDataPackage) (vs : VoteSet Precommit) : HeightDataPackage :=
  {| hdHeight := hdHeight h; hdRound := hdRound h; MyChainID := MyChainID h; PassStep := PassStep h;
     hdShardInfo := hdShardInfo h; ShardVotes := ShardVotes h; AllValidatorSet := AllValidatorSet h;
     hdProposal := hdProposal h; Prevotes := Prevotes h; Precommits := vs; hdPartSet := hdPartSet h;
     hdBlock := hdBlock h; randomHeaderBuffer := randomHeaderBuffer h |}.
Definition buffer_part (h : HeightDataPackage) (p : Part) : HeightDataPackage :=
  {| hdHeight := hdHeight h; hdRound := hdRound h; MyChainID := MyChainID h; PassStep := PassStep h;
     hdShardInfo := hdShardInfo h; ShardVotes := ShardVotes h; AllValidatorSet := AllValidatorSet h;
     hdProposal := hdProposal h; Prevotes := Prevotes h; Precommits := Precommits h; hdPartSet := hdPartSet h;
     hdBlock := hdBlock h; randomHeaderBuffer := randomHeaderBuffer h ++ [p] |}.
Definition set_position (h : HeightDataPackage) (height round pass : Z) : HeightDataPackage :=
  {| hdHeight := height; hdRound := round; MyChainID := MyChainID h; PassStep := pass;
     hdShardInfo := hdShardInfo h; ShardVotes := ShardVotes h; AllValidatorSet := AllValidatorSet h;
     hdProposal := hdProposal h; Prevotes := Prevotes h; Precommits := Precommits h; hdPartSet := hdPartSet h;
     hdBlock := hdBlock h; randomHeaderBuffer := randomHeaderBuffer h |}.

(** ** Validator sets *)

(** The keys and votes of a shard's peers; the sum is a 64-bit integer. *)
Definition peer_votes (peers : list Peer) : Z := foldl (λ acc p, int64 (acc + PVotes p)) 0 peers.
(** The loop over the peer lists, in the iteration order [ids]; it stops at the
    first shard with an unreadable key.  The second part is whether it ended. *)
Fixpoint setKeys_loop (s : ShardInfo) (ids : list string) (sets : gmap string Verifier) (votes : gmap string Z)
    : gmap string Verifier * gmap string Z * bool :=
  match ids with
  | [] => (sets, votes, true)
  | id :: ids' =>
      let peers := default [] (PeerList s !! id) in
      match NewVerifier (map Pubkey peers) with
      | None => (sets, votes, false)
      | Some v => setKeys_loop s ids' (<[id := v]> sets) (<[id := peer_votes peers]> votes)
      end
  end.
(** The size and weight of the node's own shard; a shard without verifier is a
    nil dereference. *)
Definition own_verifier (h : HeightDataPackage) : outcome Verifier := deref (AllValidatorSet h !! MyChainID h).
Definition fresh_votes {V} (own : option Verifier) (total : Z) : outcome (VoteSet V) :=
  v ← deref own;
  NewVoteSet (Verifier_Size v) (int32 total).
Definition own_votes (votes : gmap string Z) (chain : string) : Z := default 0 (votes !! chain).

(** The error of [SetShardInfo] is not looked at. *)
Definition NewHeightData (mychainid : string) (height : Z) (si : ShardInfo) (ids : list string)
    : outcome HeightDataPackage :=
  let '(sets, svotes, _) := setKeys_loop si ids ∅ ∅ in
  prevotes ← fresh_votes (sets !! mychainid) (own_votes svotes mychainid);
  precommits ← fresh_votes (sets !! mychainid) (own_votes svotes mychainid);
  Ret {| hdHeight := height; hdRound := 0; MyChainID := mychainid; PassStep := RoundStepNewHeight;
         hdShardInfo := si; ShardVotes := svotes; AllValidatorSet := sets; hdProposal := None;
         Prevotes := prevotes; Precommits := precommits; hdPartSet := None; hdBlock := None;
         randomHeaderBuffer := [] |}.

Definition clearProposal (h : HeightDataPackage) : HeightDataPackage := set_proposal h None None None.
Definition clearPrevote (h : HeightDataPackage) : outcome HeightDataPackage :=
  vs ← fresh_votes (AllValidatorSet h !! MyChainID h) (own_votes (ShardVotes h) (MyChainID h));
  Ret (set_prevotes h vs).
Definition clearPrecommit (h : HeightDataPackage) : outcome HeightDataPackage :=
  vs ← fresh_votes (AllValidatorSet h !! MyChainID h) (own_votes (ShardVotes h) (MyChainID h));
  Ret (set_precommits h vs).
Definition clearAll (h : HeightDataPackage) : outcome HeightDataPackage :=
  h ← clearPrevote (clearProposal h);
  clearPrecommit h.
(** The buffer of early parts is kept. *)
Definition NextHeight (h : HeightDataPackage) : outcome HeightDataPackage :=
  clearAll (set_position h (int64 (hdHeight h + 1)) 0 RoundStepNewHeight).

(** ** Progress *)
Definition FinishProposal (h : HeightDataPackage) : outcome (HeightDataPackage * bool) :=
  if RoundStepPropose <=? PassStep h then Ret (h, true)
  else match hdProposal h, hdBlock h with
       | None, _ => Ret (h, false)
       | Some _, None => Ret (h, false)
       | Some _, Some _ =>
           ps ← deref (hdPartSet h);
           if negb (IsComplete ps) then Ret (h, false) else Ret (set_pass h RoundStepPropose, true)
       end.
Definition FinishPrevote (h : HeightDataPackage) : outcome (HeightDataPackage * bool) :=
  if RoundStepPrevote <=? PassStep h then Ret (h, true)
  else
    '(h, ok) ← FinishProposal h;
    if negb ok then Ret (h, false)
    else if negb (HasMaj23 (Prevotes h)) then Ret (h, false)
    else Ret (set_pass h RoundStepPrevote, true).
Definition FinishPrecommit (h : HeightDataPackage) : outcome (HeightDataPackage * bool) :=
  if RoundStepPrecommit <=? PassStep h then Ret (h, true)
  else
    '(h, ok) ← FinishPrevote h;
    if negb ok then Ret (h, false)
    else if negb (HasMaj23 (Precommits h)) then Ret (h, false)
    else Ret (set_pass h RoundStepPrecommit, true).

(** ** Messages *)
Definition AddPart (h : HeightDataPackage) (p : Part) : outcome (HeightDataPackage * option hd_error) :=
  if negb (hdHeight h =? ptHeight p) || negb (hdRound h =? ptRound p) then Ret (h, Some DoNothing)
  else if bool_decide (ptChainID p ≠ MyChainID h) then Ret (h, Some ErrOtherShard)
  else match hdPartSet h with
       | None => Ret (buffer_part h p, Some DoNothing)
       | Some ps =>
           '(ps, err) ← PyrParts.AddPart ps p;
           let h := set_proposal h (hdProposal h) (Some ps) (hdBlock h) in
           match err with
           | Some DuplicatedPartPassError => Ret (h, Some DoNothing)
           | Some e => Ret (h, Some (ErrAddPart e))
           | None =>
               if IsComplete ps then
                 '(block, err) ← GenBlock ps;
                 match err with
                 | Some e => Ret (h, Some (ErrGenerate e))
                 | None => Ret (set_proposal h (hdProposal h) (Some ps) block, None)
                 end
               else Ret (h, None)
           end
       end.
(** Replaying the buffered parts, whatever each of them returns. *)
Definition replay_parts (h : HeightDataPackage) (parts : list Part) : outcome HeightDataPackage :=
  foldM (λ h p, '(h', _) ← AddPart h p; Ret h') parts h.

Definition AddProposal (h : HeightDataPackage) (p : Proposal) (index : Z)
    : outcome (HeightDataPackage * option hd_error) :=
  match hdProposal h with
  | Some _ => Ret (h, Some DoNothing)
  | None =>
      if negb (hdHeight h =? pshHeight (prHeader p)) || negb (hdRound h =? pshRound (prHeader p))
      then Ret (h, Some DoNothing)
      else if negb (ProposerIndex p =? index) then Ret (h, Some ErrProposer)
      else if bool_decide (pshChainID (prHeader p) ≠ MyChainID h) then Ret (h, Some ErrMyChain)
      else
        v ← own_verifier h;
        msg ← Proposal_SignBytes p;
        ok ← Verify v (prSignature p) msg index;
        if negb ok then Ret (h, Some ErrProposalSignature)
        else
          ps ← NewPartSet (prHeader p) (prBlockHeaderHash p);
          h' ← replay_parts (set_proposal h (Some p) (Some ps) (hdBlock h)) (randomHeaderBuffer h);
          Ret (h', None)
  end.

(** The weight of a validator of the node's own shard. *)
Definition val_vote (h : HeightDataPackage) (i : Z) : outcome Z :=
  p ← idx (default [] (PeerList (hdShardInfo h) !! MyChainID h)) i; Ret (PVotes p).

Definition AddPrevote (h : HeightDataPackage) (p : Prevote) : outcome (HeightDataPackage * option hd_error) :=
  if negb (hdHeight h =? pvHeight p) || negb (hdRound h =? pvRound p) then Ret (h, Some DoNothing)
  else
    v ← own_verifier h;
    if (pvValidatorIndex p <? 0) || (Verifier_Size v <=? pvValidatorIndex p) then Ret (h, Some ErrVoter)
    else
      msg ← Prevote_SignBytes p;
      ok ← Verify v (pvSignature p) msg (pvValidatorIndex p);
      if negb ok then Ret (h, Some ErrVoteSignature)
      else
        w ← val_vote h (pvValidatorIndex p);
        '(vs, err) ← AddVote (Prevotes h) p w;
        Ret (set_prevotes h vs, option_map ErrVotes err).
Definition AddPrecommit (h : HeightDataPackage) (p : Precommit) : outcome (HeightDataPackage * option hd_error) :=
  if negb (hdHeight h =? pcHeight p) || negb (hdRound h =? pcRound p) then Ret (h, Some DoNothing)
  else
    v ← own_verifier h;
    if (pcValidatorIndex p <? 0) || (Verifier_Size v <=? pcValidatorIndex p) then Ret (h, Some ErrVoter)
    else
      msg ← Precommit_SignBytes p;
      ok ← Verify v (pcSignature p) msg (pcValidatorIndex p);
      if negb ok then Ret (h, Some ErrVoteSignature)
      else
        w ← val_vote h (pcValidatorIndex p);
        '(vs, err) ← AddVote (Precommits h) p w;
        Ret (set_precommits h vs, option_map ErrVotes err).

Definition GenerateAggregatePrecommitSignature (h : HeightDataPackage) : outcome PrecommitAggregated :=
  let '(hash, ok) := GetMaj23 (Precommits h) in
  '(sig, bv) ← GetMaj23AggreSig (Precommits h);
  prop ← deref (hdProposal h);
  pa ← NewPrecommitAggregated bv (prHeader prop) hash sig;
  Ret (PA_SetCode pa ok).

End Height.
