(* ===== verification/PyrHeightProofs.v ===== *)
(** * The data of a Pyramid height: invariant and certificates

    Every operation of [PyrHeight] keeps the votes, the part set and the block
    of the height consistent with one another, and the certificate generated
    from a majority of precommits verifies in every shard. *)

From stdpp Require Import base list gmap strings numbers.
From Stdlib Require Import ZArith Lia.
From S2P Require Import Prelude Convert BitVector Hash Merkle MerkleProofs MerkleGen Wire Signer ShardInfo BlockPart PyrTypes PyrParts PyrVotes PyrVoteProofs PyrHeight.

Section HeightProofs.
Context {H : HashFn} {W : PyrWire} {VW : PyrVoteWire} {B : BLS}.

(** The weights of the validators of the node's shard. *)
Definition own_weights (h : HeightDataPackage) : list Z :=
  map PVotes (default [] (PeerList (hdShardInfo h) !! MyChainID h)).
(** The verifier of the node's shard has the keys of its validators, and their
    weights add up without overflow. *)
Record config_ok (h : HeightDataPackage) : Prop := {
  cf_verifier : ∃ v, AllValidatorSet h !! MyChainID h = Some v ∧ Verifier_Size v = zlen (own_weights h);
  cf_keys : AllValidatorSet h !! MyChainID h =
    NewVerifier (map Pubkey (default [] (PeerList (hdShardInfo h) !! MyChainID h)));
  cf_total : own_votes (ShardVotes h) (MyChainID h) = zsum (own_weights h);
  cf_weights : weights_ok (own_weights h)
}.

(** A vote for the height and round, signed by the validator it names. *)
Definition prevote_ok (h : HeightDataPackage) (p : Prevote) : Prop :=
  pvHeight p = hdHeight h ∧ pvRound p = hdRound h ∧
  ∃ v msg, AllValidatorSet h !! MyChainID h = Some v ∧ Prevote_SignBytes p = Ret msg ∧
    Verify v (pvSignature p) msg (pvValidatorIndex p) = Ret true.
Definition precommit_ok (h : HeightDataPackage) (p : Precommit) : Prop :=
  pcHeight p = hdHeight h ∧ pcRound p = hdRound h ∧
  ∃ v msg, AllValidatorSet h !! MyChainID h = Some v ∧ Precommit_SignBytes p = Ret msg ∧
    Verify v (pcSignature p) msg (pcValidatorIndex p) = Ret true.

(** A proposal with its part set, and the block the parts gave. *)
Record proposal_ok (h : HeightDataPackage) (p : Proposal) (ps : PartSet) : Prop := {
  pk_header : psHeader ps = prHeader p;
  pk_hash : BlockHeaderHash ps = prBlockHeaderHash p;
  pk_valid : PSH_ValidateBasic (prHeader p) = None;
  pk_height : pshHeight (prHeader p) = hdHeight h;
  pk_round : pshRound (prHeader p) = hdRound h;
  pk_chain : pshChainID (prHeader p) = MyChainID h;
  pk_parts : BlockPart.ps_inv (urd_set ps);
  pk_block : ∀ b, hdBlock h = Some b → IsComplete ps = true ∧ Height (bHeader b) = hdHeight h ∧
    ChainID (bHeader b) = MyChainID h ∧ blockhash b = prBlockHeaderHash p
}.

(** The votes of a height, on their own and with the proposal. *)
Record hv_inv (h : HeightDataPackage) : Prop := {
  hi_config : config_ok h;
  hi_prevotes : vs_inv (own_weights h) (Prevotes h);
  hi_prevote : ∀ i p, votes (Prevotes h) !! i = Some (Some p) → prevote_ok h p;
  hi_precommits : vs_inv (own_weights h) (Precommits h);
  hi_precommit : ∀ i p, votes (Precommits h) !! i = Some (Some p) → precommit_ok h p
}.
Record hd_inv (h : HeightDataPackage) : Prop := {
  hi_votes :> hv_inv h;
  hi_proposal : match hdProposal h with
    | None => hdPartSet h = None ∧ hdBlock h = None
    | Some p => ∃ ps, hdPartSet h = Some ps ∧ proposal_ok h p ps
    end;
  hi_buffer : ∀ p, p ∈ randomHeaderBuffer h → 0 ≤ Part_Index p
}.

(** Updates of the votes leave the configuration and the proposal alone. *)
Ltac keeps_proposal Ipr :=
  constructor; try done; cbn;
  match goal with |- match ?p with _ => _ end => destruct p; [|done] end;
  let ps := fresh in let Hps := fresh in let P := fresh in
  destruct Ipr as (ps & Hps & P); exists ps; split; [done|by destruct P].
Lemma set_prevotes_votes h vs : hv_inv h → vs_inv (own_weights h) vs →
  (∀ i p, votes vs !! i = Some (Some p) → prevote_ok h p) → hv_inv (set_prevotes h vs).
Proof. intros [C Ip Ipo Ic Ico] Iv Hv. constructor; try done. by destruct C. Qed.
Lemma set_precommits_votes h vs : hv_inv h → vs_inv (own_weights h) vs →
  (∀ i p, votes vs !! i = Some (Some p) → precommit_ok h p) → hv_inv (set_precommits h vs).
Proof. intros [C Ip Ipo Ic Ico] Iv Hv. constructor; try done. by destruct C. Qed.
Lemma set_prevotes_inv h vs : hd_inv h → hv_inv (set_prevotes h vs) → hd_inv (set_prevotes h vs).
Proof. intros [Iv Ipr Ibf] Iv'. keeps_proposal Ipr. Qed.
Lemma set_precommits_inv h vs : hd_inv h → hv_inv (set_precommits h vs) → hd_inv (set_precommits h vs).
Proof. intros [Iv Ipr Ibf] Iv'. keeps_proposal Ipr. Qed.

(** The votes and what they are about. *)
Definition hd_votes (h : HeightDataPackage) :=
  (hdHeight h, hdRound h, MyChainID h, hdShardInfo h, AllValidatorSet h, ShardVotes h, Prevotes h, Precommits h).
Lemma hv_ext h h' : hd_votes h' = hd_votes h → hv_inv h → hv_inv h'.
Proof.
  unfold hd_votes. intros [= E1 E2 E3 E4 E5 E6 E7 E8] [[C1 C2 C3 C4] Ip Ipo Ic Ico].
  assert (own_weights h' = own_weights h) as Ew by (unfold own_weights; congruence).
  constructor; rewrite ?Ew, ?E7, ?E8; try done.
  - constructor; rewrite ?Ew, ?E3, ?E4, ?E5, ?E6; done.
  - intros i p Hp. destruct (Ipo i p Hp) as (? & ? & ?). unfold prevote_ok. rewrite E1, E2, E3, E5. done.
  - intros i p Hp. destruct (Ico i p Hp) as (? & ? & ?). unfold precommit_ok. rewrite E1, E2, E3, E5. done.
Qed.

Lemma set_pass_inv h s : hd_inv h → hd_inv (set_pass h s).
Proof. intros [Iv Ipr Ibf]. pose proof (hv_ext h (set_pass h s) eq_refl Iv) as Iv'. keeps_proposal Ipr. Qed.
Lemma buffer_part_inv h p : hd_inv h → 0 ≤ Part_Index p → hd_inv (buffer_part h p).
Proof.
  intros [Iv Ipr Ibf] Hp. constructor; [by apply (hv_ext h)| |].
  - cbn. destruct (hdProposal h); [|done]. destruct Ipr as (ps & Hps & P). exists ps. split; [done|by destruct P].
  - cbn. intros q [Hq| ->%list_elem_of_singleton]%elem_of_app; [by apply Ibf|done].
Qed.
Lemma set_proposal_inv h p ps b : hd_inv h → proposal_ok (set_proposal h (Some p) (Some ps) b) p ps →
  hd_inv (set_proposal h (Some p) (Some ps) b).
Proof. intros [Iv Ipr Ibf] P. constructor; [by apply (hv_ext h)|by exists ps|done]. Qed.

(** ** Fresh vote sets *)

Lemma fresh_votes_inv {V} {VV : Vote V} h (C : config_ok h) :
  ∃ vs : VoteSet V, fresh_votes (AllValidatorSet h !! MyChainID h) (own_votes (ShardVotes h) (MyChainID h)) = Ret vs ∧
    vs_inv (own_weights h) vs ∧ ∀ i v, votes vs !! i ≠ Some (Some v).
Proof.
  destruct (cf_verifier _ C) as (v & Hv & Hs). unfold fresh_votes. rewrite Hv. cbn [deref mbind outcome_bind].
  pose proof (cf_weights _ C) as Hw. pose proof (zsum_nonneg _ (w_nonneg _ Hw)). pose proof (w_bound _ Hw).
  rewrite Hs, (cf_total _ C), (wrapS_small 32) by lia.
  destruct (NewVoteSet (zlen (own_weights h)) (zsum (own_weights h))) as [vs|] eqn:E.
  - exists vs. split_and!; [done|by apply NewVoteSet_inv|]. unfold NewVoteSet in E. case_match; [done|].
    injection E as <-. intros i x Hx%lookup_replicate. by destruct Hx.
  - unfold NewVoteSet in E. pose proof (zlen_nonneg (own_weights h)). destruct (Z.ltb_spec (zlen (own_weights h)) 0); [lia|done].
Qed.

(** Entering the next height never fails and starts it empty. *)
Lemma NextHeight_votes h : config_ok h → ∃ h', NextHeight h = Ret h' ∧ hv_inv h' ∧
  hdHeight h' = int64 (hdHeight h + 1) ∧ hdRound h' = 0 ∧ hdProposal h' = None ∧ hdPartSet h' = None ∧ hdBlock h' = None ∧
  randomHeaderBuffer h' = randomHeaderBuffer h.
Proof.
  intros C. unfold NextHeight, clearAll, clearPrevote.
  set (h1 := clearProposal (set_position h (int64 (hdHeight h + 1)) 0 RoundStepNewHeight)).
  assert (config_ok h1) as C1 by (destruct C; by constructor).
  destruct (fresh_votes_inv (V := Prevote) h1 C1) as (vs1 & -> & I1 & N1). cbn [mbind outcome_bind].
  unfold clearPrecommit. destruct (fresh_votes_inv (V := Precommit) h1 C1) as (vs2 & E2 & I2 & N2).
  change (fresh_votes (AllValidatorSet (set_prevotes h1 vs1) !! MyChainID (set_prevotes h1 vs1))
    (own_votes (ShardVotes (set_prevotes h1 vs1)) (MyChainID (set_prevotes h1 vs1))))
    with (fresh_votes (V := Precommit) (AllValidatorSet h1 !! MyChainID h1) (own_votes (ShardVotes h1) (MyChainID h1))).
  rewrite E2. cbn [mbind outcome_bind]. eexists. split; [done|]. split_and!; try done.
  constructor; [by destruct C1; constructor|done|intros i p Hp; by destruct (N1 i p)|done|intros i p Hp; by destruct (N2 i p)].
Qed.
Lemma NextHeight_inv h : config_ok h → (∀ p, p ∈ randomHeaderBuffer h → 0 ≤ Part_Index p) → ∃ h', NextHeight h = Ret h' ∧ hd_inv h' ∧
  hdHeight h' = int64 (hdHeight h + 1) ∧ hdRound h' = 0 ∧ hdProposal h' = None ∧
  randomHeaderBuffer h' = randomHeaderBuffer h.
Proof.
  intros C Hbuf. destruct (NextHeight_votes h C) as (h' & E & I & Eh & Er & Ep & Eps & Eb & Ebuf). exists h'.
  split_and!; try done. constructor; [done|by rewrite Ep|by rewrite Ebuf].
Qed.

(** ** The first height *)

Lemma peer_votes_sum peers : weights_ok (map PVotes peers) → peer_votes peers = zsum (map PVotes peers).
Proof.
  intros [Hn Hb]. pose proof (zsum_nonneg _ Hn) as H0. unfold peer_votes. enough (∀ acc, 0 ≤ acc → acc + zsum (map PVotes peers) < 2 ^ 31 →
    foldl (λ acc p, int64 (acc + PVotes p)) acc peers = acc + zsum (map PVotes peers)) as Hs
    by (rewrite Hs; lia).
  clear Hb H0. induction peers as [|p peers IH]; intros acc Ha; cbn [map zsum foldl foldr] in *; [lia|].
  apply Forall_cons_1 in Hn as [Hp Hn]. pose proof (zsum_nonneg _ Hn). intros Hb. change (foldr Z.add 0) with zsum in *.
  rewrite (wrapS_small 64) by lia. rewrite IH by (done || lia). lia.
Qed.
Lemma setKeys_loop_keys s ids : ∀ sets votes,
  let known (sets : gmap string Verifier) (votes : gmap string Z) := ∀ id v, sets !! id = Some v →
    NewVerifier (map Pubkey (default [] (PeerList s !! id))) = Some v ∧
    votes !! id = Some (peer_votes (default [] (PeerList s !! id))) in
  known sets votes → known (setKeys_loop s ids sets votes).1.1 (setKeys_loop s ids sets votes).1.2.
Proof.
  induction ids as [|id ids IH]; intros sets votes known Hk; [done|]. cbn [setKeys_loop].
  destruct (NewVerifier _) as [v|] eqn:Ev; [|done]. refine (IH _ _ _). intros id' v' Hid.
  destruct (decide (id' = id)) as [->|Hne].
  - rewrite lookup_insert_eq in Hid. rewrite lookup_insert_eq. by simplify_eq.
  - rewrite lookup_insert_ne in Hid by done. rewrite lookup_insert_ne by done. by apply Hk.
Qed.
Lemma NewVerifier_size ks v : NewVerifier ks = Some v → Verifier_Size v = zlen ks.
Proof.
  unfold NewVerifier, Verifier_Size. destruct (verifier_keys ks) as [pks|] eqn:E; [|done]. intros [= <-]. cbn [publicKeys].
  unfold zlen. f_equal. revert pks E. induction ks as [|k ks IH]; intros pks; cbn [verifier_keys]; [by intros [= <-]|].
  intros E. repeat (case_match; simplify_option_eq); simpl; try done; by rewrite (IH _ eq_refl).
Qed.

(** A node whose own keys were readable starts in a consistent height. *)
Lemma NewHeightData_inv chain height si ids h : NewHeightData chain height si ids = Ret h →
  weights_ok (map PVotes (default [] (PeerList si !! chain))) → hd_inv h.
Proof.
  unfold NewHeightData. destruct (setKeys_loop si ids ∅ ∅) as [[sets vts] ok] eqn:El. intros E Hw. do 2 bind_inv E. injection E as <-.
  pose proof (setKeys_loop_keys si ids ∅ ∅) as Hk. rewrite El in Hk. cbn [fst snd] in Hk. unfold fresh_votes in Hx, Hx0.
  destruct (sets !! chain) as [v|] eqn:Ev; cbn [deref mbind outcome_bind] in Hx, Hx0; [|done].
  destruct (Hk ltac:(by intros id v'; rewrite lookup_empty) chain v Ev) as [Hnew Hvt]. clear Hk.
  pose proof (NewVerifier_size _ _ Hnew) as Hsz. unfold zlen in Hsz. rewrite length_map in Hsz.
  set (h := {| hdHeight := height; hdRound := 0; MyChainID := chain; PassStep := RoundStepNewHeight; hdShardInfo := si;
    ShardVotes := vts; AllValidatorSet := sets; hdProposal := None; Prevotes := x; Precommits := x0; hdPartSet := None;
    hdBlock := None; randomHeaderBuffer := [] |}).
  assert (config_ok h) as C.
  { constructor; unfold own_weights; cbn; rewrite ?Ev; [|done| |done].
    - exists v. split; [done|]. unfold zlen. by rewrite length_map.
    - unfold own_votes. rewrite Hvt. by apply peer_votes_sum. }
  destruct (fresh_votes_inv (V := Prevote) h C) as (vs1 & E1 & I1 & N1), (fresh_votes_inv (V := Precommit) h C) as (vs2 & E2 & I2 & N2).
  unfold fresh_votes in E1, E2. cbn [AllValidatorSet MyChainID ShardVotes h] in E1, E2. rewrite Ev in E1, E2. cbn [deref mbind outcome_bind] in E1, E2.
  rewrite Hx in E1. rewrite Hx0 in E2. injection E1 as <-. injection E2 as <-.
  constructor; [|done|by intros p Hp%elem_of_nil].
  constructor; [done|done|intros i p Hp; by destruct (N1 i p)|done|intros i p Hp; by destruct (N2 i p)].
Qed.

(** ** Votes *)

Lemma val_vote_own h i : config_ok h → 0 ≤ i < zlen (own_weights h) →
  ∃ w, val_vote h i = Ret w ∧ own_weights h !! Z.to_nat i = Some w.
Proof.
  intros C Hi. unfold val_vote, own_weights in *. set (peers := default [] _) in *.
  assert (zlen (map PVotes peers) = zlen peers) as Hl by (unfold zlen; by rewrite length_map).
  destruct (idx_in_range peers i) as (p & -> & Hp); [lia|]. cbn. exists (PVotes p). split; [done|].
  by rewrite list_lookup_fmap, Hp.
Qed.

Lemma AddVote_all {V} {VV : Vote V} (P : V → Prop) per vs p w : weights_ok per → vs_inv per vs →
  (∀ i q, votes vs !! i = Some (Some q) → P q) → P p → 0 ≤ GetIndex p → per !! Z.to_nat (GetIndex p) = Some w →
  ∃ vs' e, AddVote vs p w = Ret (vs', e) ∧ vs_inv per vs' ∧ ∀ i q, votes vs' !! i = Some (Some q) → P q.
Proof.
  intros Hw I HP Hp Hi Hper. destruct (AddVote_spec per Hw vs p (Z.to_nat (GetIndex p)) w I) as (vs' & e & E & I' & Hvs & _); [lia|done|].
  exists vs', e. split_and!; [done..|]. intros i q Hq.
  destruct (votes vs !! Z.to_nat (GetIndex p)) as [[raw|]|]; [destruct Hvs as [-> _]; by apply (HP i)|..];
    destruct Hvs as [_ Hvs]; rewrite Hvs in Hq;
    apply list_lookup_insert_Some in Hq as [(<- & [= <-] & _)|[_ Hq]]; [done|by apply (HP i)|done|by apply (HP i)].
Qed.

Lemma AddPrevote_votes h p : hv_inv h → ∃ h' e, AddPrevote h p = Ret (h', e) ∧ hv_inv h' ∧
  h' = set_prevotes h (Prevotes h').
Proof.
  intros I. destruct (cf_verifier _ (hi_config _ I)) as (v & Hv & Hs).
  assert (h = set_prevotes h (Prevotes h)) as Hself by (by destruct h).
  unfold AddPrevote. destruct (_ || _) eqn:Ehr; [by exists h, (Some DoNothing)|].
  apply orb_false_iff in Ehr as [Eh Er]. bool_to_prop.
  unfold own_verifier. rewrite Hv. cbn [deref mbind outcome_bind].
  destruct (_ || _) eqn:Ei; [by exists h, (Some ErrVoter)|]. apply orb_false_iff in Ei as [E0 E1].
  apply Z.ltb_ge in E0. apply Z.leb_gt in E1. rewrite Hs in E1.
  assert (∃ msg, Prevote_SignBytes p = Ret msg) as [msg Em].
  { unfold Prevote_SignBytes, MustProtoBytes. destruct (prevote_marshals {| qvCode := int32 (pvCode p);
      qvVoteType := pvVoteType p; qvHeight := pvHeight p; qvRound := int32 (pvRound p);
      qvBlockHeaderHash := pvBlockHeaderHash p; qvSignature := EmptyString; qvValidatorIndex := -1 |}) as [bz ->]; eauto. }
  rewrite Em. cbn [mbind outcome_bind].
  destruct (Verify v (pvSignature p) msg (pvValidatorIndex p)) as [ok|] eqn:Ev; [|apply Verify_panics in Ev; lia].
  cbn [mbind outcome_bind]. destruct ok; cbn [negb]; [|by exists h, (Some ErrVoteSignature)].
  destruct (val_vote_own h (pvValidatorIndex p) (hi_config _ I)) as (w & -> & Hw); [lia|]. cbn [mbind outcome_bind].
  destruct (AddVote_all (prevote_ok h) (own_weights h) (Prevotes h) p w) as (vs & e & E & I' & Hvs);
    [apply I|apply I|apply I|split_and!; [done..|by exists v, msg]|done|done|].
  rewrite E. cbn [mbind outcome_bind]. exists (set_prevotes h vs), (option_map ErrVotes e).
  split_and!; [done|by apply set_prevotes_votes|done].
Qed.
Lemma AddPrevote_inv h p : hd_inv h → ∃ h' e, AddPrevote h p = Ret (h', e) ∧ hd_inv h' ∧
  h' = set_prevotes h (Prevotes h').
Proof.
  intros I. destruct (AddPrevote_votes h p I) as (h' & e & E & I' & Hh'). exists h', e. split_and!; [done| |done].
  rewrite Hh' in *. by apply set_prevotes_inv.
Qed.

Lemma AddPrecommit_votes h p : hv_inv h → ∃ h' e, AddPrecommit h p = Ret (h', e) ∧ hv_inv h' ∧
  h' = set_precommits h (Precommits h').
Proof.
  intros I. destruct (cf_verifier _ (hi_config _ I)) as (v & Hv & Hs).
  assert (h = set_precommits h (Precommits h)) as Hself by (by destruct h).
  unfold AddPrecommit. destruct (_ || _) eqn:Ehr; [by exists h, (Some DoNothing)|].
  apply orb_false_iff in Ehr as [Eh Er]. bool_to_prop.
  unfold own_verifier. rewrite Hv. cbn [deref mbind outcome_bind].
  destruct (_ || _) eqn:Ei; [by exists h, (Some ErrVoter)|]. apply orb_false_iff in Ei as [E0 E1].
  apply Z.ltb_ge in E0. apply Z.leb_gt in E1. rewrite Hs in E1.
  assert (∃ msg, Precommit_SignBytes p = Ret msg) as [msg Em].
  { unfold Precommit_SignBytes, MustProtoBytes. destruct (precommit_marshals {| qcCode := int32 (pcCode p);
      qcVoteType := pcVoteType p; qcHeight := pcHeight p; qcRound := int32 (pcRound p);
      qcBlockHeaderHash := pcBlockHeaderHash p; qcSignature := EmptyString; qcValidatorIndex := -1 |}) as [bz ->]; eauto. }
  rewrite Em. cbn [mbind outcome_bind].
  destruct (Verify v (pcSignature p) msg (pcValidatorIndex p)) as [ok|] eqn:Ev; [|apply Verify_panics in Ev; lia].
  cbn [mbind outcome_bind]. destruct ok; cbn [negb]; [|by exists h, (Some ErrVoteSignature)].
  destruct (val_vote_own h (pcValidatorIndex p) (hi_config _ I)) as (w & -> & Hw); [lia|]. cbn [mbind outcome_bind].
  destruct (AddVote_all (precommit_ok h) (own_weights h) (Precommits h) p w) as (vs & e & E & I' & Hvs);
    [apply I|apply I|apply I|split_and!; [done..|by exists v, msg]|done|done|].
  rewrite E. cbn [mbind outcome_bind]. exists (set_precommits h vs), (option_map ErrVotes e).
  split_and!; [done|by apply set_precommits_votes|done].
Qed.
Lemma AddPrecommit_inv h p : hd_inv h → ∃ h' e, AddPrecommit h p = Ret (h', e) ∧ hd_inv h' ∧
  h' = set_precommits h (Precommits h').
Proof.
  intros I. destruct (AddPrecommit_votes h p I) as (h' & e & E & I' & Hh'). exists h', e. split_and!; [done| |done].
  rewrite Hh' in *. by apply set_precommits_inv.
Qed.

(** ** Parts and proposals *)

Lemma Block_Hash_block b b' hash : Block_Hash b = Ret (b', hash) →
  blockhash b' = hash ∧ header_fields (bHeader b') = header_fields (bHeader b) ∧
  bBody b' = bBody b ∧ bCross b' = bCross b ∧ bRelation b' = bRelation b.
Proof.
  unfold Block_Hash, fillHeader. intros E. bind_inv E. do 3 bind_inv Hx. injection Hx as <-. cbn in E.
  destruct (not_hash (blockhash b)); [|by injection E as <- <-]. bind_inv E. by injection E as <- <-.
Qed.

Lemma hd_GenBlock_ok ps ob : GenBlock ps = Ret (ob, None) → IsComplete ps = true →
  ∃ b, ob = Some b ∧ Height (bHeader b) = pshHeight (psHeader ps) ∧ ChainID (bHeader b) = pshChainID (psHeader ps) ∧
    blockhash b = BlockHeaderHash ps.
Proof.
  unfold GenBlock. intros E Hc. rewrite Hc in E. cbn [negb] in E. do 2 bind_inv E. destruct x0 as [b|]; [|done].
  destruct (bool_decide _) eqn:Eb; [done|]. apply bool_decide_eq_false in Eb. apply dec_stable in Eb.
  destruct (Z.eqb_spec (Height (bHeader b)) (pshHeight (psHeader ps))) as [Eh|]; [|done]. cbn [negb] in E.
  cbn [Block_ValidateBasic] in E. apply outcome_bind_Ret in E as ([b' hash] & Ebh & E).
  destruct (bytes_Equal hash (BlockHeaderHash ps)) eqn:Eq; cbn [negb] in E; [|done]. injection E as <-. bool_to_prop.
  destruct (Block_Hash_block _ _ _ Ebh) as (Hb & Hf & _). unfold header_fields in Hf.
  exists b'. split; [done|]. split_and!; congruence.
Qed.

Lemma PyrAddPart_inv ps p ps' e : BlockPart.ps_inv (urd_set ps) → zlen (pshRoot (psHeader ps)) = HashSize →
  0 ≤ Part_Index p → PyrParts.AddPart ps p = Ret (ps', e) →
  BlockPart.ps_inv (urd_set ps') ∧ psHeader ps' = psHeader ps ∧ BlockHeaderHash ps' = BlockHeaderHash ps ∧
  (e ≠ None → ps' = ps) ∧ (e = None → IsComplete ps = false).
Proof.
  intros I Hr Hi E. pose proof (AddPart_urd ps p) as Hu. rewrite E in Hu. destruct Hu as (e' & Eu & He & _).
  destruct (BlockPart.AddPart_inv (urd_set ps) (urd_part p) (urd_set ps') e' I Hr Hi Eu) as [I' Hh].
  destruct (AddPart_spec (urd_set ps) (urd_part p) I Hr Hi) as (er & Es & Hacc). rewrite Eu in Es.
  injection Es as Eps <-. split; [done|].
  assert (psHeader ps' = psHeader ps ∧ BlockHeaderHash ps' = BlockHeaderHash ps ∧ (e ≠ None → ps' = ps)) as (E1 & E2 & E3).
  { clear -E. unfold PyrParts.AddPart in E. bind_inv E. destruct x; [by injection E as <- <-|].
    case_match; [by injection E as <- <-|]. case_match; [by injection E as <- <-|]. bind_inv E.
    destruct x; cbn [negb] in E; [|by injection E as <- <-]. bind_inv E. by injection E as <- <-. }
  split_and!; try done. intros He0. destruct Hacc as [Hacc _]. destruct Hacc as [Hn _]; [by apply He|].
  destruct (IsComplete ps) eqn:Ec; [exfalso|done]. unfold IsComplete in Ec. apply Z.eqb_eq in Ec.
  pose proof (pi_count _ I) as Hcnt. pose proof (pi_total _ I) as Ht. cbn in Hcnt, Ht, Hn.
  apply lookup_lt_Some in Hn as Hlt. destruct (count_held_full (BlockPart.Parts (urd_set ps))) with (Z.to_nat (Part_Index p)) as (q & Hq);
    [cbn; by rewrite <- Hcnt, <- Ht|done|]. cbn in Hq. change (BlockPart.Part_Index (urd_part p)) with (Part_Index p) in Hn. congruence.
Qed.

Lemma PSH_valid p : PSH_ValidateBasic p = None → zlen (pshRoot p) = HashSize ∧ 0 ≤ pshTotal p.
Proof.
  unfold PSH_ValidateBasic. destruct (pshHeight p <? 0); [done|]. destruct (pshRound p <? 0); [done|].
  destruct (Z.ltb_spec (pshTotal p) 0); [done|]. destruct (bool_decide _); [done|].
  by destruct (Z.eqb_spec (zlen (pshRoot p)) HashSize).
Qed.

Lemma hd_AddPart_inv h p h' e : hd_inv h → 0 ≤ Part_Index p → AddPart h p = Ret (h', e) → hd_inv h' ∧
  hdHeight h' = hdHeight h ∧ hdRound h' = hdRound h ∧ hdProposal h' = hdProposal h ∧ config_ok h'.
Proof.
  intros I Hi. unfold AddPart. destruct (_ || _); [intros [= <- <-]; split_and!; done || apply I|].
  destruct (bool_decide _); [intros [= <- <-]; split_and!; done || apply I|].
  pose proof (hi_proposal _ I) as Ipr. destruct (hdPartSet h) as [ps|] eqn:Eps.
  2:{ intros [= <- <-]. pose proof (buffer_part_inv h p I Hi) as I'. split_and!; try done. apply I'. }
  destruct (hdProposal h) as [pr|] eqn:Epr; [|by destruct Ipr]. destruct Ipr as (ps0 & [= <-] & P).
  intros E. apply outcome_bind_Ret in E as ([ps' err] & Ea & E).
  assert (zlen (pshRoot (psHeader ps)) = HashSize) as Hr.
  { rewrite (pk_header _ _ _ P). by apply PSH_valid, (pk_valid _ _ _ P). }
  destruct (PyrAddPart_inv ps p ps' err (pk_parts _ _ _ P) Hr Hi Ea) as (I' & Hh & Hb & Hsame & Hnew).
  assert (∀ b, (hdBlock h = b ∨ ∃ b', b = Some b' ∧ IsComplete ps' = true ∧ Height (bHeader b') = hdHeight h ∧
      ChainID (bHeader b') = MyChainID h ∧ blockhash b' = prBlockHeaderHash pr) →
    hd_inv (set_proposal h (Some pr) (Some ps') b)) as Hset.
  { intros b Hcase. apply set_proposal_inv; [done|]. destruct P. constructor; cbn; try congruence.
    intros b' Hb'. destruct Hcase as [Hsb|(b1 & -> & Hc)]; [|by injection Hb' as <-].
    assert (err ≠ None) as Hne. { intros En. destruct (pk_block0 b') as [Hc _]; [congruence|]. by rewrite (Hnew En) in Hc. }
    rewrite (Hsame Hne). apply pk_block0. congruence. }
  assert (hd_inv (set_proposal h (Some pr) (Some ps') (hdBlock h))) as Ikeep by (apply Hset; by left).
  destruct err as [er|]; [destruct er; injection E as <- <-; split_and!; done || apply Ikeep|].
  destruct (IsComplete ps') eqn:Ec; [|injection E as <- <-; split_and!; done || apply Ikeep].
  apply outcome_bind_Ret in E as ([ob er] & Eg & E). destruct er; injection E as <- <-; [split_and!; done || apply Ikeep|].
  destruct (hd_GenBlock_ok ps' ob Eg Ec) as (b & -> & Hbh & Hbc & Hbb).
  assert (hd_inv (set_proposal h (Some pr) (Some ps') (Some b))) as Inew.
  { apply Hset. right. exists b. destruct P. split_and!; congruence. }
  cbn [set_proposal hdProposal]. split_and!; try done. apply Inew.
Qed.

Lemma replay_parts_inv parts : ∀ h h', hd_inv h → (∀ p, p ∈ parts → 0 ≤ Part_Index p) →
  replay_parts h parts = Ret h' → hd_inv h' ∧ hdHeight h' = hdHeight h ∧ hdRound h' = hdRound h.
Proof.
  unfold replay_parts. induction parts as [|p parts IH]; intros h h' I Hp; cbn [foldM]; [by intros [= <-]|].
  destruct (AddPart h p) as [[h1 e]|] eqn:E; cbn [mbind outcome_bind]; [|done].
  destruct (hd_AddPart_inv h p h1 e I) as (I1 & Hh & Hr & _); [apply Hp; by left|done|]. intros E'.
  destruct (IH h1 h' I1) as (? & -> & ->); [intros q Hq; apply Hp; by right|done|done].
Qed.

Lemma hd_NewPartSet_inv h hash : PSH_ValidateBasic h = None → ∃ ps, NewPartSet h hash = Ret ps ∧
  psHeader ps = h ∧ BlockHeaderHash ps = hash ∧ BlockPart.ps_inv (urd_set ps).
Proof.
  intros [_ Ht]%PSH_valid. pose proof (NewPartSet_urd h hash) as Hu. unfold NewPartSet in *.
  destruct (Z.ltb_spec (pshTotal h) 0); [lia|]. eexists. split_and!; [done..|]. by eapply BlockPart.NewPartSet_inv.
Qed.

Lemma AddProposal_inv h p index h' e : hd_inv h → PSH_ValidateBasic (prHeader p) = None →
  AddProposal h p index = Ret (h', e) → hd_inv h' ∧ hdHeight h' = hdHeight h ∧ hdRound h' = hdRound h.
Proof.
  intros I Hv. unfold AddProposal. destruct (hdProposal h) as [p0|] eqn:Ep; [by intros [= <- <-]|].
  destruct (_ || _) eqn:Ehr; [by intros [= <- <-]|]. apply orb_false_iff in Ehr as [Eh Er]. bool_to_prop.
  destruct (negb _); [by intros [= <- <-]|]. destruct (bool_decide _) eqn:Ec; [by intros [= <- <-]|].
  apply bool_decide_eq_false, dec_stable in Ec. intros E. do 3 bind_inv E. destruct x1; cbn [negb] in E; [|by injection E as <- <-].
  destruct (hd_NewPartSet_inv (prHeader p) (prBlockHeaderHash p) Hv) as (ps & Eps & Hh & Hb & Ips). rewrite Eps in E.
  cbn [mbind outcome_bind] in E. bind_inv E. injection E as <- <-. pose proof (hi_proposal _ I) as Ipr. rewrite Ep in Ipr.
  destruct (replay_parts_inv (randomHeaderBuffer h) (set_proposal h (Some p) (Some ps) (hdBlock h)) x1)
    as (I' & -> & ->); [|apply I|done|done].
  apply set_proposal_inv; [done|]. destruct Ipr as [_ Hnb]. constructor; cbn; try done. by rewrite Hnb.
Qed.

Lemma Finish_inv h : hd_inv h →
  (∃ h' b, FinishProposal h = Ret (h', b) ∧ hd_inv h') ∧ (∃ h' b, FinishPrevote h = Ret (h', b) ∧ hd_inv h') ∧
  (∃ h' b, FinishPrecommit h = Ret (h', b) ∧ hd_inv h').
Proof.
  intros I. assert (∃ h' b, FinishProposal h = Ret (h', b) ∧ hd_inv h') as (h1 & b1 & E1 & I1).
  { unfold FinishProposal. destruct (_ <=? _); [by eexists _, _|]. pose proof (hi_proposal _ I) as Ipr.
    destruct (hdProposal h); [|by eexists _, _]. destruct Ipr as (ps & -> & _). destruct (hdBlock h); [|by eexists _, _].
    cbn [deref mbind outcome_bind]. destruct (IsComplete ps); cbn [negb]; eexists _, _; (split; [done|]); [by apply set_pass_inv|done]. }
  assert (∃ h' b, FinishPrevote h = Ret (h', b) ∧ hd_inv h') as (h2 & b2 & E2 & I2).
  { unfold FinishPrevote. destruct (_ <=? _); [by eexists _, _|]. rewrite E1. cbn [mbind outcome_bind].
    destruct b1; cbn [negb]; [|by eexists _, _]. destruct (HasMaj23 _); cbn [negb]; [|by eexists _, _].
    eexists _, _. split; [done|by apply set_pass_inv]. }
  split_and!; [by exists h1, b1|by exists h2, b2|].
  unfold FinishPrecommit. destruct (_ <=? _); [by eexists _, _|]. rewrite E2. cbn [mbind outcome_bind].
  destruct b2; cbn [negb]; [|by eexists _, _]. destruct (HasMaj23 _); cbn [negb]; [|by eexists _, _].
  eexists _, _. split; [done|by apply set_pass_inv].
Qed.

(** One operation on the data of the height. *)
Inductive hd_step (h h' : HeightDataPackage) : Prop :=
| step_part p e : Part_ValidateBasic p = None → AddPart h p = Ret (h', e) → hd_step h h'
| step_proposal p index e : Proposal_ValidateBasic p = None → AddProposal h p index = Ret (h', e) → hd_step h h'
| step_prevote p e : AddPrevote h p = Ret (h', e) → hd_step h h'
| step_precommit p e : AddPrecommit h p = Ret (h', e) → hd_step h h'
| step_next : NextHeight h = Ret h' → hd_step h h'
| step_finish b : FinishPrecommit h = Ret (h', b) → hd_step h h'.

Lemma valid_part_index p : Part_ValidateBasic p = None → 0 ≤ Part_Index p.
Proof.
  unfold Part_ValidateBasic, Proof_ValidateBasic, Part_Index. do 4 (case_match; [done|]).
  case_match; [done|]. destruct (Z.ltb_spec (Index (ptProof p)) 0); [done|lia].
Qed.

(** C15. Whatever validated proposals, parts and votes a node receives for its
    height, in whatever order, and whenever it moves on: the vote sets keep the
    exact weights of their votes, every vote held is signed by the validator it
    names for this height and round, the part set belongs to the proposal, and
    the block has the height, the chain and the hash of the proposal.  Adding
    votes, moving to the next height and testing for progress never panic. *)
Theorem Height_invariant h (I : hd_inv h) :
  (∀ h', hd_step h h' → hd_inv h') ∧
  (∀ p, ∃ r, AddPrevote h p = Ret r) ∧ (∀ p, ∃ r, AddPrecommit h p = Ret r) ∧
  (∃ h', NextHeight h = Ret h') ∧ (∃ r, FinishPrecommit h = Ret r).
Proof.
  split_and!.
  - intros h' Hs. destruct Hs as [p e V E|p index e V E|p e E|p e E|E|b E].
    + by destruct (hd_AddPart_inv h p h' e I (valid_part_index p V) E).
    + unfold Proposal_ValidateBasic in V. do 3 (case_match; [done|]).
      destruct (PSH_ValidateBasic (prHeader p)) eqn:Ev; [done|]. by destruct (AddProposal_inv h p index h' e I Ev E).
    + destruct (AddPrevote_inv h p I) as (h1 & e1 & E1 & I1 & _). congruence.
    + destruct (AddPrecommit_inv h p I) as (h1 & e1 & E1 & I1 & _). congruence.
    + destruct (NextHeight_inv h (hi_config _ I) (hi_buffer _ I)) as (h1 & E1 & I1 & _). congruence.
    + destruct (Finish_inv h I) as (_ & _ & h1 & b1 & E1 & I1). congruence.
  - intros p. destruct (AddPrevote_inv h p I) as (h1 & e1 & E1 & _). eauto.
  - intros p. destruct (AddPrecommit_inv h p I) as (h1 & e1 & E1 & _). eauto.
  - destruct (NextHeight_inv h (hi_config _ I) (hi_buffer _ I)) as (h1 & E1 & _). eauto.
  - destruct (Finish_inv h I) as (_ & _ & h1 & b1 & E1 & _). eauto.
Qed.

(** ** Certificates *)

Lemma precommit_message (p : Precommit) pa : Precommit_ValidateBasic p = None →
  pcCode p = paCode pa → pcHeight p = pshHeight (paHeader pa) → pcRound p = pshRound (paHeader pa) →
  pcBlockHeaderHash p = paBlockHeaderHash pa → Precommit_SignBytes p = Precommit_SignBytes (PA_Precommit pa).
Proof.
  unfold Precommit_ValidateBasic. destruct (Z.eqb_spec (pcVoteType p) VoteTypePrecommit) as [Et|]; [|done].
  intros _ E1 E2 E3 E4. unfold Precommit_SignBytes, PA_Precommit. cbn. by rewrite Et, E1, E2, E3, E4.
Qed.

Lemma header_roundtrip h : - 2 ^ 31 ≤ pshRound h < 2 ^ 31 → NewPartSetHeaderFromProto (PSH_ToProto h) = h.
Proof. intros Hr. unfold NewPartSetHeaderFromProto, PSH_ToProto. cbn. rewrite (wrapS_small 32) by lia. by destruct h. Qed.

(** C16. The certificate of a height whose precommits have a majority: it is
    generated, and the shard that reads it from the network accepts it — it
    passes the basic validation and its aggregated signature verifies under the
    validators of the sending shard — with the block and the code of the
    majority, marking only validators that voted so.  The votes held passed the
    basic validation, as on receipt.  For an accepting majority nothing more is
    needed; for an aborting one the votes against must have the code of abort:
    any other code counts as abort and spoils the aggregate. *)
Theorem certificate_verifies h pr (I : hd_inv h) (Hm : HasMaj23 (Precommits h) = true)
    (Hp : hdProposal h = Some pr) (Hr : hdRound h < 2 ^ 31)
    (Hv : ∀ i p, votes (Precommits h) !! i = Some (Some p) → Precommit_ValidateBasic p = None)
    (Habort : snd (GetMaj23 (Precommits h)) = false → ∀ i p, votes (Precommits h) !! i = Some (Some p) →
       Precommit_IsOK p = false → pcCode p = CodeTypeAbort) :
  ∃ pa bv, GenerateAggregatePrecommitSignature h = Ret pa ∧
    NewPrecommitAggregatedFromProto (PA_ToProto pa) = Ret pa ∧ PA_ValidateBasic pa = None ∧
    (paBlockHeaderHash pa, PA_IsOK pa) = GetMaj23 (Precommits h) ∧
    VerifySignatures pa (AllValidatorSet h !! MyChainID h) (Byte (ValidatorBitVector pa)) = Ret true ∧
    ValidatorBitVector pa = Some bv ∧ ∀ j, 0 ≤ j → bv_bit bv j = in_majority (Precommits h) j.
Proof.
  destruct (cf_verifier _ (hi_config _ I)) as (v & Ev & Hs). pose proof (hi_precommits _ I) as Iv.
  pose proof (hi_proposal _ I) as Ipr. rewrite Hp in Ipr. destruct Ipr as (ps & _ & P).
  set (pa0 := λ bv sig, {| paVoteType := VoteTypePrecommitAggregated; paCode := code_of (mj23_code (Precommits h));
    ValidatorBitVector := bv; paHeader := prHeader pr; paBlockHeaderHash := mj23_key (Precommits h);
    paSignatures := sig |}).
  assert (∃ msg, Precommit_SignBytes (PA_Precommit (pa0 None EmptyString)) = Ret msg) as [msg Emsg].
  { unfold Precommit_SignBytes, MustProtoBytes. match goal with |- context [marshal ?m] => destruct (precommit_marshals m) as [bz ->] end; eauto. }
  assert (∀ i p, votes (Precommits h) !! i = Some (Some p) → votes_for (mj23_key (Precommits h)) (mj23_code (Precommits h)) p = true →
    zlen (pcBlockHeaderHash p) = HashSize ∧ pcBlockHeaderHash p = mj23_key (Precommits h) ∧
    Precommit_SignBytes p = Ret msg) as Hsame.
  { intros i p Hi Hf. pose proof (Hv i p Hi) as Hb. destruct (hi_precommit _ I i p Hi) as (Hh & Hrd & _).
    apply andb_true_iff in Hf as [Hk Hok]. bool_to_prop. apply eqb_prop in Hok. cbn in Hk, Hok.
    assert (pcCode p = code_of (mj23_code (Precommits h))) as Hc.
    { unfold GetMaj23 in Habort. cbn [snd] in Habort. destruct (mj23_code (Precommits h)); [|by eapply Habort].
      unfold Precommit_IsOK in Hok. by apply Z.eqb_eq in Hok. }
    rewrite <- Emsg. split_and!; [|done|].
    - unfold Precommit_ValidateBasic in Hb. case_match; [done|]. destruct (Z.eqb_spec (zlen (pcBlockHeaderHash p)) HashSize); done.
    - apply precommit_message; cbn; [done|congruence|by rewrite (pk_height _ _ _ P)|by rewrite (pk_round _ _ _ P)|done]. }
  destruct (GetMaj23AggreSig_spec (own_weights h) (Precommits h) v msg) as (agg & bv & Eg & Hwf & Hbit & Hver);
    [apply I|done|done|done| |].
  { intros i p Hi Hf. destruct (Hsame i p Hi Hf) as (_ & _ & Hmsg).
    destruct (hi_precommit _ I i p Hi) as (_ & _ & v' & msg' & Ev' & Em' & Hver).
    rewrite Ev in Ev'. injection Ev' as <-. rewrite Hmsg in Em'. injection Em' as <-.
    rewrite <- (vi_index _ _ Iv i p Hi). done. }
  exists (pa0 (Some bv) agg), bv. destruct (Byte_roundtrip bv Hwf) as [_ Hrt].
  assert (0 ≤ pshRound (prHeader pr)) as Hr0.
  { pose proof (pk_valid _ _ _ P) as V. unfold PSH_ValidateBasic in V. destruct (pshHeight _ <? 0); [done|].
    destruct (Z.ltb_spec (pshRound (prHeader pr)) 0); [done|lia]. }
  pose proof (pk_round _ _ _ P) as Hpr.
  assert (int8 (int32 (code_of (mj23_code (Precommits h)))) = code_of (mj23_code (Precommits h))) as Hcode by (by destruct (mj23_code _)).
  split_and!; try done.
  - unfold GenerateAggregatePrecommitSignature, GetMaj23. rewrite Eg. cbn [mbind outcome_bind]. rewrite Hp.
    cbn [deref mbind outcome_bind]. unfold NewPrecommitAggregated. by rewrite Hrt.
  - unfold NewPrecommitAggregatedFromProto, PA_ToProto. cbn [qaBitVector qaHeader qaVoteType qaCode qaBlockHeaderHash qaSignatures pa0
      ValidatorBitVector paHeader paVoteType paCode paBlockHeaderHash paSignatures].
    rewrite Hrt. cbn [mbind outcome_bind deref]. rewrite header_roundtrip by lia. by rewrite Hcode.
  - destruct (majority_vote _ (cf_weights _ (hi_config _ I)) _ Iv Hm) as (i & p & Hi & Hf).
    destruct (Hsame i p Hi Hf) as (Hz & Hk & _). unfold PA_ValidateBasic. cbn. rewrite (pk_valid _ _ _ P), <- Hk, Hz. done.
  - unfold GetMaj23. cbn. f_equal. by destruct (mj23_code _).
  - unfold VerifySignatures. rewrite Ev. change (Precommit_SignBytes (PA_Precommit (pa0 (Some bv) agg)))
      with (Precommit_SignBytes (PA_Precommit (pa0 None EmptyString))). rewrite Emsg. done.
Qed.

End HeightProofs.
