(* ===== verification/PyrBank.v ===== *)
(** * The Pyramid bank application

    Models [source/pyramid/abci/minibank]: the messages of [types.go], the
    account databases of [memdb.go] and the application of [application.go].
    The databases of one call share one [MemoryDB] over the application's
    store, which is an argument; so is the block store, which belongs to
    consensus.  Maps are iterated in some order: the loops below only touch
    one key per turn.  [NewApplication] and [SetBlockStore] store pointers,
    [StateLock] is a mutex, [Stop] closes the store. *)

From stdpp Require Import base list gmap strings numbers sorting.
From Stdlib Require Import ZArith Lia.
From S2P Require Import Prelude Convert Hash Merkle Wire Signer RangeTree Store Batch PyrTypes.

Definition initBalance : Z := 1000000.

(** [definition.TxTransfer] and [definition.TxInsert]. *)
Definition TxTransfer : Z := 12.
Definition TxInsert : Z := 13.

(** ** Messages *)

Record TransferTx := {
  From : list string; To : list string; FromMoney : list Z; ToMoney : list Z; Buffer : bytes;
  txTime : option PTimestamp
}.
Record InsertTx := { Account : string; Money : Z; iBuffer : bytes; iTime : option PTimestamp }.
Record BankData := { Keys : list string; OK : bool; Values : list Z }.

Class PyrBankWire := {
  pyr_transfer_codec :: ProtoCodec TransferTx;
  pyr_insert_codec :: ProtoCodec InsertTx;
  pyr_data_codec :: ProtoCodec BankData
}.

Inductive bank_error :=
| ErrLength | ErrTxKind | ErrDecode | ErrTxType | ErrMoneyLength | ErrMoneyEmpty | ErrMoneySum
| ErrLocked | ErrBalance | ErrOutOfRange | ErrNotProvided | ErrDB (e : db_error).

(** ** types.go *)

Section Types.
Context {BW : PyrBankWire}.

Definition TransferBytes (tx : TransferTx) : outcome bytes :=
  bz ← MustProtoBytes tx; Ret (Uint32ToBytes TxTransfer ++ bz).
Definition InsertBytes (tx : InsertTx) : outcome bytes :=
  bz ← MustProtoBytes tx; Ret (Uint32ToBytes TxInsert ++ bz).
Definition TransferTxSize (tx : TransferTx) : outcome Z := bz ← TransferBytes tx; Ret (zlen bz).
Definition InsertTxSize (tx : InsertTx) : outcome Z := bz ← InsertBytes tx; Ret (zlen bz).

Definition GenerateRandomBytes (n : Z) : bytes := replicate (Z.to_nat n) 48.
Definition NewTransferTx (froms : list string) (fromMoney : list Z) (tos : list string) (toMoney : list Z)
    (now : GoTime) : TransferTx :=
  {| From := froms; To := tos; FromMoney := fromMoney; ToMoney := toMoney; Buffer := [];
     txTime := Some (ThirdPartyProtoTime now) |}.
Definition NewTransferTxMustLen (froms : list string) (fromMoney : list Z) (tos : list string)
    (toMoney : list Z) (mustLen : Z) (now : GoTime) : outcome TransferTx :=
  let t := NewTransferTx froms fromMoney tos toMoney now in
  size ← TransferTxSize t;
  Ret (if 0 <? mustLen - size then
    {| From := From t; To := To t; FromMoney := FromMoney t; ToMoney := ToMoney t;
       Buffer := GenerateRandomBytes (mustLen - size); txTime := txTime t |} else t).
Definition NewInsertTx (account : string) (money : Z) (now : GoTime) : InsertTx :=
  {| Account := account; Money := money; iBuffer := []; iTime := Some (ThirdPartyProtoTime now) |}.
Definition NewInsertTxMustLen (account : string) (money mustLen : Z) (now : GoTime) : outcome InsertTx :=
  let t := NewInsertTx account money now in
  size ← InsertTxSize t;
  Ret (if 0 <? mustLen - size then
    {| Account := Account t; Money := Money t; iBuffer := GenerateRandomBytes (mustLen - size); iTime := iTime t |}
    else t).

Definition sum_uint32 (l : list Z) : Z := foldl (λ acc money, uint32 (acc + money)) 0 l.
Definition ValidateTransferTx (tx : TransferTx) : option bank_error :=
  if negb (zlen (From tx) =? zlen (FromMoney tx)) || negb (zlen (To tx) =? zlen (ToMoney tx))
  then Some ErrMoneyLength
  else if (zlen (From tx) =? 0) || (zlen (To tx) =? 0) then Some ErrMoneyEmpty
  else if negb (sum_uint32 (FromMoney tx) =? sum_uint32 (ToMoney tx)) then Some ErrMoneySum
  else None.

(** A later occurrence of a key overwrites an earlier one. *)
Fixpoint data_loop (i : Z) (keys : list string) (values : list Z) (m : gmap string Z) : outcome (gmap string Z) :=
  match keys with
  | [] => Ret m
  | key :: keys' => v ← idx values i; data_loop (i + 1) keys' values (<[key := v]> m)
  end.
(** [None] is the error. *)
Definition NewCrossShardDataFromBytes (bz : bytes) : outcome (option (gmap string Z * bool)) :=
  match unmarshal bz with
  | None => Ret None
  | Some bd => m ← data_loop 0 (Keys bd) (Values bd) ∅; Ret (Some (m, OK bd))
  end.
(** [sort.Strings] of the keys. *)
Definition sorted_keys (data : gmap string Z) : list string := merge_sort str_le (map fst (map_to_list data)).
Definition CrossShardDataBytes (data : gmap string Z) (ok : bool) : outcome bytes :=
  let keyList := sorted_keys data in
  MustProtoBytes {| Keys := keyList; OK := ok; Values := map (λ k, default 0 (data !! k)) keyList |}.
(** [tx[4:]] panics on a shorter slice. *)
Definition NewTransferTxFromBytes (tx : bytes) : outcome (TransferTx + bank_error) :=
  rest ← slice_from tx 4;
  Ret (match unmarshal rest with Some ptx => inl ptx | None => inr ErrDecode end).

End Types.

(** ** memdb.go *)

Record MemoryDB := { memDB : gmap string Z; writeBuffer : gmap string Z; readBuffer : gmap string Z }.

(** The [GetSetMemDB] interface: a view of the shared [MemoryDB] over the
    store of type [D]. *)
Class GetSetMemDB (D V : Type) := {
  Get : V → D → MemoryDB → string → outcome (MemoryDB * (Z + bank_error));
  Has : V → D → MemoryDB → string → outcome (MemoryDB * (bool + bank_error));
  Set_ : V → D → MemoryDB → string → Z → outcome (MemoryDB * option bank_error)
}.

(** [rangeTree.Search] through a pointer that may be nil. *)
Definition rt_search (rt : option RangeTree) (key : string) : outcome bool :=
  t ← deref rt; Ret (RT_Search t key).

Definition NewMemoryDB : MemoryDB := {| memDB := ∅; writeBuffer := ∅; readBuffer := ∅ |}.
Definition GetReadSet (m : MemoryDB) : gmap string Z := readBuffer m.
Definition GetWriteSet (m : MemoryDB) : gmap string Z := writeBuffer m.
Definition note_read (m : MemoryDB) (key : string) (v : Z) : MemoryDB :=
  {| memDB := memDB m; writeBuffer := writeBuffer m; readBuffer := <[key := v]> (readBuffer m) |}.
Definition MemoryDB_Set (m : MemoryDB) (key : string) (value : Z) : MemoryDB :=
  {| memDB := memDB m; writeBuffer := <[key := value]> (writeBuffer m); readBuffer := readBuffer m |}.
(** The write buffer wins over what was committed before. *)
Definition CommitWrite (m : MemoryDB) (do : bool) : MemoryDB :=
  {| memDB := if do then writeBuffer m ∪ memDB m else memDB m; writeBuffer := ∅; readBuffer := ∅ |}.
Definition clearMemory (m : MemoryDB) : MemoryDB :=
  {| memDB := ∅; writeBuffer := writeBuffer m; readBuffer := readBuffer m |}.

Section MemDB.
Context {D : Type} {KD : KVStore D}.

(** A key that is not stored reads the initial balance. *)
Definition MemoryDB_Get (db : D) (m : MemoryDB) (key : string) : outcome (MemoryDB * Z) :=
  match writeBuffer m !! key with
  | Some out => Ret (m, out)
  | None =>
  match readBuffer m !! key with
  | Some out => Ret (m, out)
  | None =>
  match memDB m !! key with
  | Some out => Ret (note_read m key out, out)
  | None =>
      match PrefixStore.Get db (str_bytes key) with
      | inr _ => Ret (note_read m key initBalance, initBalance)
      | inl bz =>
          if zlen (sbytes bz) =? 0 then Ret (note_read m key initBalance, initBalance)
          else
            amount ← BytesToUint32 (sbytes bz);
            Ret ({| memDB := <[key := amount]> (memDB m); writeBuffer := writeBuffer m;
                    readBuffer := <[key := amount]> (readBuffer m) |}, amount)
      end
  end end end.
Definition MemoryDB_Has (db : D) (m : MemoryDB) (key : string) : MemoryDB * (bool + bank_error) :=
  match writeBuffer m !! key with
  | Some _ => (m, inl true)
  | None =>
      match memDB m !! key with
      | Some _ => (if default 0 (readBuffer m !! key) =? 0 then note_read m key 0 else m, inl true)
      | None => (m, match PrefixStore.Has db (str_bytes key) with inl b => inl b | inr e => inr (ErrDB e) end)
      end
  end.

(** The batch of [Write]: the pairs of the map that [keep] selects. *)
Definition write_pairs (keep : string → outcome bool) (kvs : list (string * Z)) (b : memDBBatch)
    : outcome (memDBBatch * option db_error) :=
  foldM (λ acc kv,
    let '(b, err) := acc in
    match err with
    | Some e => Ret (b, Some e)
    | None =>
        k ← keep (fst kv);
        if k : bool then Ret (PB_Set b (str_bytes (fst kv)) (Some (Uint32ToBytes (snd kv)))) else Ret (b, None)
    end) kvs (b, None).
Definition write_db (keep : string → outcome bool) (db : D) (m : MemoryDB)
    : outcome (D * MemoryDB * option db_error) :=
  '(b, err) ← write_pairs keep (map_to_list (memDB m)) NewBatch;
  match err with
  | Some e => Ret (db, m, Some e)
  | None =>
      match PB_WriteSync db b with
      | (db', _, Some e) => Ret (db', m, Some e)
      | (db', _, None) => Ret (db', clearMemory m, None)
      end
  end.
Definition MemoryDB_Write (db : D) (m : MemoryDB) := write_db (λ _, Ret true) db m.

(** *** The three views *)

#[export] Instance MemoryDB_view : GetSetMemDB D unit := {|
  Get := λ _ db m key, '(m, v) ← MemoryDB_Get db m key; Ret (m, inl v);
  Has := λ _ db m key, Ret (MemoryDB_Has db m key);
  Set_ := λ _ db m key value, Ret (MemoryDB_Set m key value, None)
|}.

Record RangeDB := { rangeTree : option RangeTree }.
Definition NewRangeDB (rt : option RangeTree) : RangeDB := {| rangeTree := rt |}.
Definition RangeDB_Get (v : RangeDB) (db : D) (m : MemoryDB) (key : string) : outcome (MemoryDB * (Z + bank_error)) :=
  inside ← rt_search (rangeTree v) key;
  if negb inside then Ret (m, inr ErrOutOfRange)
  else '(m, out) ← MemoryDB_Get db m key; Ret (m, inl out).
Definition RangeDB_Has (v : RangeDB) (db : D) (m : MemoryDB) (key : string) : outcome (MemoryDB * (bool + bank_error)) :=
  inside ← rt_search (rangeTree v) key;
  if negb inside then Ret (m, inr ErrOutOfRange) else Ret (MemoryDB_Has db m key).
Definition RangeDB_Set (v : RangeDB) (db : D) (m : MemoryDB) (key : string) (value : Z)
    : outcome (MemoryDB * option bank_error) :=
  inside ← rt_search (rangeTree v) key;
  if negb inside then Ret (m, Some ErrOutOfRange) else Ret (MemoryDB_Set m key value, None).
Definition RangeDB_Write (v : RangeDB) (db : D) (m : MemoryDB) := write_db (rt_search (rangeTree v)) db m.
#[export] Instance RangeDB_view : GetSetMemDB D RangeDB :=
  {| Get := RangeDB_Get; Has := RangeDB_Has; Set_ := RangeDB_Set |}.

Record CrossShardDB := { crossShardData : gmap string Z }.
Definition NewCrossShardDB (data : gmap string Z) : CrossShardDB := {| crossShardData := data |}.
Definition CrossShardDB_Get (v : CrossShardDB) (db : D) (m : MemoryDB) (key : string)
    : outcome (MemoryDB * (Z + bank_error)) :=
  match writeBuffer m !! key with
  | Some out => Ret (m, inl out)
  | None => Ret (m, match crossShardData v !! key with None => inr ErrNotProvided | Some bz => inl bz end)
  end.
Definition CrossShardDB_Has (v : CrossShardDB) (db : D) (m : MemoryDB) (key : string)
    : outcome (MemoryDB * (bool + bank_error)) :=
  match writeBuffer m !! key with
  | Some _ => Ret (m, inl true)
  | None => Ret (m, inl (bool_decide (is_Some (crossShardData v !! key))))
  end.
Definition CrossShardDB_Set (v : CrossShardDB) (db : D) (m : MemoryDB) (key : string) (value : Z)
    : outcome (MemoryDB * option bank_error) := Ret (MemoryDB_Set m key value, None).
#[export] Instance CrossShardDB_view : GetSetMemDB D CrossShardDB :=
  {| Get := CrossShardDB_Get; Has := CrossShardDB_Has; Set_ := CrossShardDB_Set |}.

End MemDB.

(** ** application.go *)

Section Application.
Context {H : HashFn} {W : PyrWire} {BW : PyrBankWire} {D : Type} {KD : KVStore D}.

Record Application := {
  DBConn : D;
  KeyRangeTree : gmap string RangeTree;
  AllShardRangeTree : option RangeTree;
  IsI : bool;
  MyChainID : string;
  appStatus : bytes;
  LockedKeys : gmap string Z
}.
Definition NewApplication (db : D) (chain_id : string) (isI : bool) (keyRangeTree : option RangeTree)
    (relatedIKeyRangeTree : gmap string RangeTree) : Application :=
  {| DBConn := db; KeyRangeTree := relatedIKeyRangeTree; AllShardRangeTree := keyRangeTree; IsI := isI;
     MyChainID := chain_id; appStatus := str_bytes "minibank"; LockedKeys := ∅ |}.
Definition set_db (app : Application) (db : D) : Application :=
  {| DBConn := db; KeyRangeTree := KeyRangeTree app; AllShardRangeTree := AllShardRangeTree app; IsI := IsI app;
     MyChainID := MyChainID app; appStatus := appStatus app; LockedKeys := LockedKeys app |}.
Definition set_locks (app : Application) (locks : gmap string Z) : Application :=
  {| DBConn := DBConn app; KeyRangeTree := KeyRangeTree app; AllShardRangeTree := AllShardRangeTree app;
     IsI := IsI app; MyChainID := MyChainID app; appStatus := appStatus app; LockedKeys := locks |}.

Definition Commit (app : Application) : bytes := appStatus app.

(** *** Locks *)

Definition requireLock (app : Application) (key : string) : bool :=
  match LockedKeys app !! key with Some _ => false | None => true end.
Definition setLock (app : Application) (key : string) (value : Z) : Application * bool :=
  match LockedKeys app !! key with
  | Some _ => (app, false)
  | None => (set_locks app (<[key := value]> (LockedKeys app)), true)
  end.
(** The only batch passed is not nil. *)
Definition releaseLock (app : Application) (key : string) (batch : memDBBatch)
    : Application * memDBBatch * option db_error :=
  match LockedKeys app !! key with
  | None => (app, batch, None)
  | Some value =>
      let '(batch, err) := PB_Set batch (str_bytes key) (Some (Uint32ToBytes value)) in
      (set_locks app (delete key (LockedKeys app)), batch, err)
  end.
Definition undoLock (app : Application) (key : string) : Application :=
  set_locks app (delete key (LockedKeys app)).

(** The sets of keys; [appendRWSet] only fills the second one. *)
Definition appendRWSet (tx : TransferTx) (writeSet : gset string) : gset string :=
  list_to_set (To tx) ∪ (list_to_set (From tx) ∪ writeSet).
Definition getRWSet (tx : TransferTx) : gset string * gset string :=
  (appendRWSet tx ∅, appendRWSet tx ∅).

Definition unmarshalTransferTx (tx : bytes) : outcome (TransferTx + bank_error) :=
  if zlen tx <? 4 then Ret (inr ErrLength)
  else
    txType ← BytesToUint32 (take 4 tx);
    if negb (txType =? TxTransfer) then Ret (inr ErrTxKind) else NewTransferTxFromBytes tx.

(** The keys are required to be unlocked. *)
Definition all_unlocked (app : Application) (keys : gset string) : bool :=
  forallb (requireLock app) (elements keys).
Definition CheckLock (app : Application) (tx : bytes) : outcome bool :=
  ptx ← unmarshalTransferTx tx;
  match ptx with
  | inr _ => Ret true
  | inl ptx =>
      let '(rs, ws) := getRWSet ptx in
      Ret (all_unlocked app rs && all_unlocked app ws)
  end.

(** *** Transfers *)

Section View.
Context {V : Type} {GV : GetSetMemDB D V} (view : V).

(** One of the two reading loops of [doTransfer]: [f] computes the new balance
    from what was read ([None] on an error) and the money. *)
Fixpoint read_loop (f : option Z → Z → Z + bank_error) (app : Application) (keys : list string) (money : list Z)
    (m : MemoryDB) : outcome (MemoryDB * (list Z + bank_error)) :=
  match keys, money with
  | [], _ => Ret (m, inl [])
  | _ :: _, [] => Panic
  | key :: keys', x :: money' =>
      if negb (requireLock app key) then Ret (m, inr ErrLocked)
      else
        '(m, r) ← Get view (DBConn app) m key;
        match f (match r with inl balance => Some balance | inr _ => None end) x with
        | inr e => Ret (m, inr e)
        | inl new =>
            '(m, rest) ← read_loop f app keys' money' m;
            Ret (m, match rest with inl l => inl (new :: l) | inr e => inr e end)
        end
  end.
Fixpoint write_loop (app : Application) (keys : list string) (balances : list Z) (m : MemoryDB)
    : outcome (MemoryDB * option bank_error) :=
  match keys, balances with
  | [], _ => Ret (m, None)
  | _ :: _, [] => Panic
  | key :: keys', x :: balances' =>
      if negb (requireLock app key) then Ret (m, Some ErrLocked)
      else
        '(m, err) ← Set_ view (DBConn app) m key x;
        match err with
        | Some e => Ret (m, Some e)
        | None => write_loop app keys' balances' m
        end
  end.

(** An unreadable account counts as one with the initial balance. *)
Definition new_from (balance : option Z) (money : Z) : Z + bank_error :=
  match balance with
  | None => inl (uint32 (initBalance - money))
  | Some b => if b <? money then inr ErrBalance else inl (uint32 (b - money))
  end.
Definition new_to (balance : option Z) (money : Z) : Z + bank_error :=
  match balance with
  | None => inl (uint32 (initBalance + money))
  | Some b => inl (uint32 (b + money))
  end.

Definition doTransfer (app : Application) (tx : TransferTx) (m : MemoryDB) : outcome (MemoryDB * option bank_error) :=
  match ValidateTransferTx tx with
  | Some e => Ret (m, Some e)
  | None =>
      '(m, r) ← read_loop new_from app (From tx) (FromMoney tx) m;
      match r with
      | inr e => Ret (m, Some e)
      | inl fromBalance =>
          '(m, r) ← read_loop new_to app (To tx) (ToMoney tx) m;
          match r with
          | inr e => Ret (m, Some e)
          | inl toBalance =>
              '(m, err) ← write_loop app (From tx) fromBalance m;
              match err with
              | Some e => Ret (m, Some e)
              | None => write_loop app (To tx) toBalance m
              end
          end
      end
  end.

Definition execute (app : Application) (txBytes : bytes) (m : MemoryDB) : outcome (MemoryDB * option bank_error) :=
  if zlen txBytes <? 4 then Ret (m, Some ErrLength)
  else
    txType ← BytesToUint32 (take 4 txBytes);
    if txType =? TxTransfer then
      rest ← slice_from txBytes 4;
      match unmarshal rest with
      | None => Ret (m, Some ErrDecode)
      | Some tx => doTransfer app tx m
      end
    else Ret (m, Some ErrTxType).

End View.

Definition ok_error (err : option bank_error) : bool := match err with None => true | Some _ => false end.

(** *** Blocks *)

(** The log of a receipt is the text of the error, left out here. *)
Definition receipt (code : Z) : ABCIExecutionReceipt :=
  {| rCode := code; rLog := EmptyString; rInfo := EmptyString; rOptions := ∅ |}.

Context {S : Type} {KV : KVStore S}.

(** [blockDBConn.SetBlockByHeight(block.Height, block.ChainID, block)]; its
    error is not looked at. *)
Definition store_block (bs : S) (block : Block) : outcome S :=
  '(b, hs) ← Block_Hash block;
  bz ← Block_ProtoBytes b;
  Ret (fst (PrefixStore.SetBlockByHeight bs (Height (bHeader block)) (ChainID (bHeader block)) hs (Some bz))).

Definition inner_tx (app : Application) (view : RangeDB) (acc : MemoryDB * list ABCIExecutionReceipt) (tx : bytes)
    : outcome (MemoryDB * list ABCIExecutionReceipt) :=
  let '(m, receipts) := acc in
  '(m, err) ← execute view app tx m;
  Ret (CommitWrite m (ok_error err),
       receipts ++ [receipt (if ok_error err then CodeTypeOK else CodeTypeAbort)]).
Definition ExecutionInnerShard (app : Application) (bs : S) (block : Block)
    : outcome (Application * S * ABCIExecutionResponse * Z * Z * Z) :=
  if negb (BlockType (bHeader block) =? BLOCKTYPE_InnerShard) then Panic
  else
    let db := NewRangeDB (KeyRangeTree app !! ChainID (bHeader block)) in
    '(m, receipts) ← foldM (inner_tx app db) (BodyTxs (bBody block)) (NewMemoryDB, []);
    '(d, m, err) ← RangeDB_Write db (DBConn app) m;
    match err with
    | Some _ => Panic
    | None =>
        bs ← store_block bs block;
        Ret (set_db app d, bs, {| Receipts := receipts |}, Txs_Size (BodyTxs (bBody block)), 0, 0)
    end.

Definition fill_tx (app : Application) (view : RangeDB) (acc : MemoryDB * list bytes) (tx : bytes)
    : outcome (MemoryDB * list bytes) :=
  let '(m, csd) := acc in
  '(m, err) ← execute view app tx m;
  let readSet := if ok_error err then GetReadSet m else ∅ in
  bz ← CrossShardDataBytes readSet (ok_error err);
  Ret (CommitWrite m (ok_error err), csd ++ [bz]).
Definition FillData (app : Application) (block : Block) : outcome Block :=
  if IsI app then Panic
  else
    '(_, csd) ← foldM (fill_tx app (NewRangeDB (AllShardRangeTree app))) (CrossShardTxs (bCross block)) (NewMemoryDB, []);
    Ret {| bHeader := bHeader block; bBody := bBody block;
           bCross := {| CrossShardTxs := CrossShardTxs (bCross block); CrossShardDatas := csd |};
           bRelation := bRelation block; blockhash := blockhash block |}.

Definition PreExecutionB (app : Application) (block : Block) : ABCIPreExecutionResponseB :=
  {| pbCode := CodeTypeOK; pbDatas := CrossShardDatas (bCross block); pbErrors := [] |}.

(** The write set of a block's transactions; [None] when one of them cannot be
    decoded. *)
Fixpoint write_set (txs : list bytes) (ws : gset string) : outcome (option (gset string)) :=
  match txs with
  | [] => Ret (Some ws)
  | tx :: txs' =>
      ptx ← unmarshalTransferTx tx;
      match ptx with
      | inr _ => Ret None
      | inl ptx => write_set txs' (appendRWSet ptx ws)
      end
  end.
Definition abort_I : ABCIPreExecutionResponseI := {| piCode := CodeTypeAbort; piErrors := [true] |}.
(** Whether every provided value of a key of the shard is the stored one. *)
Fixpoint data_fresh (app : Application) (kvs : list (string * Z)) (m : MemoryDB) : outcome (MemoryDB * bool) :=
  match kvs with
  | [] => Ret (m, true)
  | (key, value) :: kvs' =>
      inside ← rt_search (AllShardRangeTree app) key;
      if inside : bool then
        '(m, v) ← MemoryDB_Get (DBConn app) m key;
        if negb (v =? value) then Ret (m, false) else data_fresh app kvs' m
      else data_fresh app kvs' m
  end.
(** The loop over the body transactions, from index [i] on. *)
Fixpoint pre_loop (app : Application) (datas : list bytes) (i : Z) (txs : list bytes) (m : MemoryDB)
    : outcome ABCIPreExecutionResponseI :=
  match txs with
  | [] => Ret {| piCode := CodeTypeOK; piErrors := [] |}
  | tx :: txs' =>
      bz ← idx datas i;
      csdb ← NewCrossShardDataFromBytes bz;
      match csdb with
      | None => Ret abort_I
      | Some (csdb, ok) =>
          '(m, fresh) ← data_fresh app (map_to_list csdb) m;
          if negb fresh then Ret abort_I
          else
            m ← (if ok : bool then
                   '(m, err) ← execute (NewCrossShardDB csdb) app tx m; Ret (CommitWrite m (ok_error err))
                 else Ret m);
            pre_loop app datas (i + 1) txs' m
      end
  end.
Definition PreExecutionI (app : Application) (block : Block) : outcome ABCIPreExecutionResponseI :=
  if negb (BlockType (bHeader block) =? BLOCKTYPE_CrossShard) then Panic
  else if negb (IsI app) then Panic
  else
    ws ← write_set (CrossShardTxs (bCross block)) ∅;
    match ws with
    | None => Ret abort_I
    | Some ws =>
        if negb (all_unlocked app ws) then Ret abort_I
        else pre_loop app (CrossShardDatas (bCross block)) 0 (BodyTxs (bBody block)) NewMemoryDB
    end.

(** Executing the cross-shard transactions, from index [i] on; nothing is
    written to the accounts. *)
Fixpoint cross_loop (app : Application) (datas : list bytes) (i : Z) (txs : list bytes) (m : MemoryDB)
    : outcome (MemoryDB * list ABCIExecutionReceipt) :=
  match txs with
  | [] => Ret (m, [])
  | tx :: txs' =>
      bz ← idx datas i;
      csd ← NewCrossShardDataFromBytes bz;
      '(m, code) ← (match csd with
        | Some (csd, true) =>
            '(m, err) ← execute (NewCrossShardDB csd) app tx m;
            Ret (CommitWrite m (ok_error err), if ok_error err then CodeTypeOK else CodeTypeUnknownError)
        | _ => Ret (m, CodeTypeEncodingError)
        end);
      '(m, rest) ← cross_loop app datas (i + 1) txs' m;
      Ret (m, receipt code :: rest)
  end.
(** The keys the successful transactions write; they decode, having been
    executed. *)
Fixpoint ok_write_set (txs : list bytes) (receipts : list ABCIExecutionReceipt) (ws : gset string)
    : outcome (gset string) :=
  match txs, receipts with
  | tx :: txs', r :: receipts' =>
      if negb (Receipt_IsOK r) then ok_write_set txs' receipts' ws
      else
        ptx ← unmarshalTransferTx tx;
        match ptx with
        | inr _ => Panic
        | inl ptx => ok_write_set txs' receipts' (appendRWSet ptx ws)
        end
  | _, _ => Ret ws
  end.
(** Locking the keys of the shard that the block writes, with their new values. *)
Definition lock_key (rt : option RangeTree) (acc : Application * MemoryDB) (key : string)
    : outcome (Application * MemoryDB) :=
  let '(app, m) := acc in
  inside ← rt_search rt key;
  if negb inside then Ret (app, m)
  else '(m, u) ← MemoryDB_Get (DBConn app) m key; Ret (fst (setLock app key u), m).
Definition AcceptCrossShard (app : Application) (bs : S) (block : Block) (chain_id : string) (ifcommit : bool)
    : outcome (Application * S * ABCIExecutionResponse * Z * Z * Z) :=
  if negb (BlockType (bHeader block) =? BLOCKTYPE_CrossShard) then Panic
  else
    '(app, receipts) ← (if ifcommit then
        let rt := KeyRangeTree app !! chain_id in
        '(m, receipts) ← cross_loop app (CrossShardDatas (bCross block)) 0 (CrossShardTxs (bCross block)) NewMemoryDB;
        ws ← ok_write_set (CrossShardTxs (bCross block)) receipts ∅;
        '(app, _) ← foldM (lock_key rt) (elements ws) (app, m);
        Ret (app, receipts)
      else Ret (app, []));
    '(b, hs) ← Block_Hash block;
    let bs := fst (PrefixStore.SetState bs hs (Some (str_bytes "ok"))) in
    bs ← store_block bs b;
    Ret (app, bs, {| Receipts := receipts |}, 1, 0, 0).

(** The write set of a committed block, transactions that do not decode being
    passed over. *)
Fixpoint commit_set (txs : list bytes) (ws : gset string) : outcome (gset string) :=
  match txs with
  | [] => Ret ws
  | tx :: txs' =>
      ptx ← unmarshalTransferTx tx;
      commit_set txs' (match ptx with inl ptx => appendRWSet ptx ws | inr _ => ws end)
  end.
Definition release_key (rt : option RangeTree) (commit : bool) (acc : Application * memDBBatch) (key : string)
    : outcome (Application * memDBBatch) :=
  let '(app, batch) := acc in
  inside ← rt_search rt key;
  if negb inside then Ret (app, batch)
  else if commit then let '(app, batch, _) := releaseLock app key batch in Ret (app, batch)
  else Ret (undoLock app key, batch).
Fixpoint commit_loop (bs : S) (rt : option RangeTree) (commits : list bool) (i : Z) (hashes : list bytes)
    (app : Application) (batch : memDBBatch)
    : outcome (Application * memDBBatch * list ABCIExecutionReceipt) :=
  match hashes with
  | [] => Ret (app, batch, [])
  | hs :: hashes' =>
      let blockBz := match PrefixStore.GetBlockByHash bs hs with inl bz => sbytes bz | inr _ => [] end in
      block ← NewBlockFromBytes blockBz;
      '(app, batch, code) ← (match block with
        | None => Ret (app, batch, CodeTypeAbort)
        | Some block =>
            match PrefixStore.GetState bs hs with
            | inr _ => Ret (app, batch, CodeTypeAbort)
            | inl icommit =>
                if negb (bytes_Equal (sbytes icommit) (str_bytes "ok")) then Ret (app, batch, CodeTypeAbort)
                else
                  ws ← commit_set (CrossShardTxs (bCross block)) ∅;
                  commit ← idx commits i;
                  '(app, batch) ← foldM (release_key rt commit) (elements ws) (app, batch);
                  Ret (app, batch, if commit : bool then CodeTypeOK else CodeTypeAbort)
            end
        end);
      '(app, batch, rest) ← commit_loop bs rt commits (i + 1) hashes' app batch;
      Ret (app, batch, receipt code :: rest)
  end.
Definition AcceptCommitShard (app : Application) (bs : S) (hashes : list bytes) (commits : list bool)
    (chain_id : string) : outcome (Application * S * ABCIExecutionResponse * Z * Z * Z) :=
  '(app, batch, receipts) ← commit_loop bs (KeyRangeTree app !! chain_id) commits 0 hashes app NewBatch;
  match PB_WriteSync (DBConn app) batch with
  | (_, _, Some _) => Panic
  | (d, _, None) => Ret (set_db app d, bs, {| Receipts := receipts |}, 1, 0, 0)
  end.

(** *** Mempool admission *)
Fixpoint all_inside (rt : option RangeTree) (keys : list string) : outcome bool :=
  match keys with
  | [] => Ret true
  | key :: keys' => inside ← rt_search rt key; if negb inside then Ret false else all_inside rt keys'
  end.
Definition ValidateTx (app : Application) (txBytes : bytes) (isCrossShard : bool) : outcome bool :=
  if zlen txBytes <? 4 then Ret false
  else if IsI app && isCrossShard then Ret false
  else
    let rangeTree := if IsI app || isCrossShard then AllShardRangeTree app else KeyRangeTree app !! MyChainID app in
    txType ← BytesToUint32 (take 4 txBytes);
    if txType =? TxTransfer then
      tx ← unmarshalTransferTx txBytes;
      match tx with
      | inr _ => Ret false
      | inl tx =>
          ok ← all_inside rangeTree (From tx);
          if negb ok then Ret false else all_inside rangeTree (To tx)
      end
    else Ret false.

End Application.
Arguments Application D : clear implicits.
