(* ===== verification/PyrBankProofs.v ===== *)
(** * The Pyramid bank as a ledger

    Executing a block through range databases, write buffers and batches
    ([PyrBank]) is executing its transfers one after the other, each of them
    completely or not at all, on a function from accounts to balances. *)

From stdpp Require Import base list gmap strings numbers sorting.
From Stdlib Require Import ZArith Lia.
From S2P Require Import Prelude Convert Hash Merkle Wire Signer RangeTree Store Batch PyrTypes PyrBank.

(** ** The ledger *)

Section Ledger.
Context {BW : PyrBankWire}.
(** The accounts that may be used: in the shard's range and not locked. *)
Context (usable : string → bool).

Definition ledger : Type := string → Z.
Definition set_account (l : ledger) (kv : string * Z) : ledger :=
  λ k, if decide (k = fst kv) then snd kv else l k.
Definition set_accounts (l : ledger) (kvs : list (string * Z)) : ledger := foldl set_account l kvs.

(** Every payer has the money, looked up before the transfer. *)
Definition transfer_ok (l : ledger) (tx : TransferTx) : bool :=
  match ValidateTransferTx tx with Some _ => false | None => true end
  && forallb usable (From tx) && forallb usable (To tx)
  && forallb (λ kx, snd kx <=? l (fst kx)) (zip (From tx) (FromMoney tx)).
(** The payees' balances, also looked up before, are written after the
    payers'. *)
Definition debits (l : ledger) (tx : TransferTx) : list (string * Z) :=
  zip (From tx) (zip_with (λ k x, uint32 (l k - x)) (From tx) (FromMoney tx)).
Definition credits (l : ledger) (tx : TransferTx) : list (string * Z) :=
  zip (To tx) (zip_with (λ k x, uint32 (l k + x)) (To tx) (ToMoney tx)).
Definition transfer (l : ledger) (tx : TransferTx) : ledger :=
  set_accounts l (debits l tx ++ credits l tx).

(** A transaction of a block: whether it succeeded, and the ledger after it. *)
Definition run_tx (l : ledger) (txBytes : bytes) : ledger * bool :=
  match unmarshalTransferTx txBytes with
  | Ret (inl tx) => if transfer_ok l tx then (transfer l tx, true) else (l, false)
  | _ => (l, false)
  end.
Fixpoint run_txs (l : ledger) (txs : list bytes) : ledger * list bool :=
  match txs with
  | [] => (l, [])
  | tx :: txs' => let '(l1, ok) := run_tx l tx in let '(l2, oks) := run_txs l1 txs' in (l2, ok :: oks)
  end.

(** *** Two ledgers with the same balances behave alike *)

#[global] Instance set_accounts_proper :
  Proper (pointwise_relation string eq ==> eq ==> pointwise_relation string eq) set_accounts.
Proof.
  intros l1 l2 E kvs ? <-. revert l1 l2 E. induction kvs as [|kv kvs IH]; intros l1 l2 E; [done|].
  apply IH. intros k. unfold set_account. by rewrite E.
Qed.
Lemma values_ext (g : Z → Z → Z) (l1 l2 : ledger) ks : (∀ k, l1 k = l2 k) → ∀ xs,
  zip_with (λ k x, g (l1 k) x) ks xs = zip_with (λ k x, g (l2 k) x) ks xs.
Proof. intros E. induction ks as [|k ks IH]; intros [|x xs]; cbn; [done..|]. by rewrite E, IH. Qed.
#[global] Instance transfer_proper :
  Proper (pointwise_relation string eq ==> eq ==> pointwise_relation string eq) transfer.
Proof.
  intros l1 l2 E tx ? <-. unfold transfer, debits, credits.
  rewrite (values_ext (λ b x, uint32 (b - x)) _ _ _ E), (values_ext (λ b x, uint32 (b + x)) _ _ _ E).
  by rewrite E.
Qed.
#[global] Instance transfer_ok_proper : Proper (pointwise_relation string eq ==> eq ==> eq) transfer_ok.
Proof.
  intros l1 l2 E tx ? <-. unfold transfer_ok. f_equal.
  induction (zip (From tx) (FromMoney tx)) as [|[k x] l IH]; cbn; [done|]. by rewrite E, IH.
Qed.
Lemma run_tx_ext l1 l2 tx : (∀ k, l1 k = l2 k) →
  (∀ k, fst (run_tx l1 tx) k = fst (run_tx l2 tx) k) ∧ snd (run_tx l1 tx) = snd (run_tx l2 tx).
Proof.
  intros E. unfold run_tx. destruct (unmarshalTransferTx tx) as [[t|]|]; try done.
  rewrite (transfer_ok_proper l1 l2 E t t eq_refl). destruct (transfer_ok l2 t); [|done].
  split; [|done]. by apply (transfer_proper l1 l2 E t t).
Qed.
Lemma run_txs_ext txs : ∀ l1 l2, (∀ k, l1 k = l2 k) →
  (∀ k, fst (run_txs l1 txs) k = fst (run_txs l2 txs) k) ∧ snd (run_txs l1 txs) = snd (run_txs l2 txs).
Proof.
  induction txs as [|tx txs IH]; intros l1 l2 E; [done|]. cbn [run_txs].
  destruct (run_tx_ext l1 l2 tx E) as [E1 E2].
  destruct (run_tx l1 tx) as [m1 o1], (run_tx l2 tx) as [m2 o2]. cbn [fst snd] in E1, E2. subst o2.
  destruct (IH m1 m2 E1) as [F1 F2].
  destruct (run_txs m1 txs), (run_txs m2 txs). cbn [fst snd] in *. split; [done|congruence].
Qed.

(** Accounts that may not be used keep their balance. *)
Lemma set_accounts_other l kvs k : k ∉ map fst kvs → set_accounts l kvs k = l k.
Proof.
  revert l. induction kvs as [|kv kvs IH]; intros l Hk; [done|]. cbn in *.
  rewrite IH by set_solver. unfold set_account. by rewrite decide_False by set_solver.
Qed.
Lemma zip_fst {A B} (ks : list A) (vs : list B) k : k ∈ map fst (zip ks vs) → k ∈ ks.
Proof.
  revert vs. induction ks as [|k' ks IH]; intros [|v vs]; cbn; [done..|by intros ?%elem_of_nil|].
  rewrite !elem_of_cons. intros [->|?]; [by left|right; by eapply IH].
Qed.
Lemma run_tx_unusable l tx k : usable k = false → fst (run_tx l tx) k = l k.
Proof.
  intros Hk. unfold run_tx. destruct (unmarshalTransferTx tx) as [[t|]|]; try done.
  destruct (transfer_ok l t) eqn:E; [|done]. cbn [fst]. unfold transfer_ok in E. bool_to_prop.
  match goal with H1 : forallb usable (From t) = true, H2 : forallb usable (To t) = true |- _ =>
    rewrite forallb_forall in H1, H2; rename H1 into HF, H2 into HT end.
  unfold transfer. apply set_accounts_other. rewrite map_app, elem_of_app. unfold debits, credits.
  intros [Hin|Hin]; apply zip_fst in Hin; apply list_elem_of_In in Hin; [apply HF in Hin|apply HT in Hin]; congruence.
Qed.
Lemma run_txs_unusable txs k : usable k = false → ∀ l, fst (run_txs l txs) k = l k.
Proof.
  intros Hk. induction txs as [|tx txs IH]; intros l; [done|]. cbn [run_txs].
  pose proof (run_tx_unusable l tx k Hk) as E. destruct (run_tx l tx) as [l1 o1]. cbn [fst] in E.
  specialize (IH l1). destruct (run_txs l1 txs). cbn [fst] in *. congruence.
Qed.
Lemma run_txs_length txs : ∀ l, length (snd (run_txs l txs)) = length txs.
Proof.
  induction txs as [|tx txs IH]; intros l; [done|]. cbn [run_txs]. destruct (run_tx l tx) as [l1 o].
  specialize (IH l1). destruct (run_txs l1 txs). cbn in *. by rewrite IH.
Qed.

End Ledger.

(** ** Stored balances *)

Section Accounts.
Context {D : Type} {KD : KVStore D}.

Definition stored (bz : bytes) : Z := if zlen bz =? 0 then initBalance else le_decode (take 4 bz).
Definition balance (db : D) : ledger := λ k, stored (sbytes (PrefixStore.datas db (str_bytes k))).
(** A stored value is empty or starts with four bytes. *)
Definition value_ok (bz : bytes) : Prop := bz = [] ∨ 4 ≤ zlen bz ∧ wf_bytes bz.
Definition accounts_wf (db : D) : Prop := ∀ k bz, PrefixStore.datas db k = Some bz → value_ok bz.

Lemma stored_range bz : value_ok bz → 0 ≤ stored bz < 2 ^ 32.
Proof.
  unfold stored. intros [->|[Hl Hw]]; [by vm_compute|]. destruct (Z.eqb_spec (zlen bz) 0); [lia|].
  pose proof (le_decode_range (take 4 bz)) as Hr. unfold zlen in *. rewrite length_take, Nat.min_l in Hr by lia.
  apply Hr. by apply Forall_take.
Qed.
Lemma stored_encoded v : 0 ≤ v < 2 ^ 32 → stored (Uint32ToBytes v) = v.
Proof.
  intros Hv. pose proof (BytesToUint32_Uint32ToBytes v Hv) as E. unfold BytesToUint32, le_uint in E. unfold stored.
  rewrite Uint32ToBytes_length in E. cbn in E. injection E as E. unfold zlen. rewrite Uint32ToBytes_length. done.
Qed.
Lemma value_ok_encoded v : value_ok (Uint32ToBytes v).
Proof. right. unfold zlen. rewrite Uint32ToBytes_length. split; [done|apply le_encode_wf]. Qed.

(** Reading through the cache. *)
Definition cached (db : D) (m : MemoryDB) : ledger :=
  λ k, match memDB m !! k with Some v => v | None => balance db k end.

(** ** The memory database *)

Context {BW : PyrBankWire} (app : Application D) (rt : RangeTree).
Let db := DBConn app.
Let view := {| rangeTree := Some rt |}.
Hypothesis (Hwf : accounts_wf db).

Definition usable (k : string) : bool := RT_Search rt k && requireLock app k.
(** What is cached may be used and has 32 bits. *)
Definition cache_ok (m : MemoryDB) : Prop := ∀ k v, memDB m !! k = Some v → usable k = true ∧ 0 ≤ v < 2 ^ 32.
(** Before a transaction writes: what it read is what is there. *)
Record reading (m : MemoryDB) : Prop := {
  rd_cache : cache_ok m;
  rd_buffer : writeBuffer m = ∅;
  rd_read : ∀ k v, readBuffer m !! k = Some v → v = cached db m k
}.
Definition same_ledger (m m' : MemoryDB) : Prop := ∀ k, cached db m' k = cached db m k.

Lemma cached_range m k : cache_ok m → 0 ≤ cached db m k < 2 ^ 32.
Proof using Hwf.
  intros Hc. unfold cached, balance. destruct (memDB m !! k) eqn:E; [apply Hc in E; apply E|].
  apply stored_range. destruct (PrefixStore.datas db (str_bytes k)) eqn:Ed; [exact (Hwf _ _ Ed)|by left].
Qed.

Lemma MemoryDB_Get_spec m k : reading m → usable k = true → ∃ m', MemoryDB_Get db m k = Ret (m', cached db m k) ∧
  reading m' ∧ same_ledger m m'.
Proof using Hwf.
  intros [Hc Hb Hr] Hu. unfold MemoryDB_Get. rewrite Hb, lookup_empty.
  assert (Hnote : ∀ v, v = cached db m k → reading (note_read m k v)).
  { intros v Ev. split; [done|done|]. cbn [readBuffer note_read]. intros j w [[<- <-]|[? Hj]]%lookup_insert_Some; [done|].
    by apply Hr. }
  destruct (readBuffer m !! k) eqn:Er; [apply Hr in Er as ->; by exists m|].
  destruct (memDB m !! k) as [v|] eqn:Em.
  { assert (v = cached db m k) as -> by (unfold cached; by rewrite Em). eexists. split; [reflexivity|]. split; [by apply Hnote|done]. }
  rewrite PrefixStore.Get_eq.
  assert (cached db m k = balance db k) as E by (unfold cached; by rewrite Em).
  destruct (PrefixStore.datas db (str_bytes k)) as [bz|] eqn:Ed; cbn [sbytes default id].
  2:{ change (zlen (A := Z) [] =? 0) with true. cbn [negb].
      assert (initBalance = cached db m k) as -> by (rewrite E; unfold balance; by rewrite Ed).
      eexists. split; [reflexivity|]. split; [by apply Hnote|done]. }
  destruct (Z.eqb_spec (zlen bz) 0) as [Ez|Ez].
  { assert (initBalance = cached db m k) as -> by (rewrite E; unfold balance, stored; rewrite Ed; cbn; by rewrite Ez).
    eexists. split; [reflexivity|]. split; [by apply Hnote|done]. }
  assert (stored bz = le_decode (take 4 bz)) as Es by (unfold stored; by destruct (Z.eqb_spec (zlen bz) 0)).
  destruct (Hwf _ _ Ed) as [->|[Hl Hw]]; [done|].
  unfold BytesToUint32, le_uint. destruct (Nat.ltb_spec (length bz) 4); [unfold zlen in Hl; lia|].
  cbn [mbind outcome_bind]. rewrite <- Es.
  assert (stored bz = cached db m k) as -> by (rewrite E; unfold balance; by rewrite Ed).
  assert (Hsame : ∀ rb, same_ledger m {| memDB := <[k := cached db m k]> (memDB m); writeBuffer := writeBuffer m; readBuffer := rb |}).
  { intros rb j. unfold cached at 1. cbn [memDB]. destruct (decide (j = k)) as [->|Hj];
      [by rewrite lookup_insert_eq|by rewrite lookup_insert_ne]. }
  eexists. split; [reflexivity|]. split; [|exact (Hsame (<[k := cached db m k]> (readBuffer m)))]. split; cbn [memDB writeBuffer readBuffer].
  - intros j v Hj. cbn [memDB] in Hj. apply lookup_insert_Some in Hj as [[<- <-]|[? Hj]]; [split; [done|by apply cached_range]|by apply Hc].
  - done.
  - intros j v [[<- <-]|[? Hj]]%lookup_insert_Some; (etrans; [|symmetry; exact (Hsame ∅ _)]); [done|by apply Hr].
Qed.

(** ** Transfers *)

(** What a reading loop computes, as a function of the balances. *)
Fixpoint pure_read (f : option Z → Z → Z + bank_error) (l : ledger) (keys : list string) (money : list Z)
    : option (list Z) :=
  match keys, money with
  | [], _ => Some []
  | key :: keys', x :: money' =>
      if requireLock app key then
        match f (if RT_Search rt key then Some (l key) else None) x with
        | inl new => cons new <$> pure_read f l keys' money'
        | inr _ => None
        end
      else None
  | _ :: _, [] => None
  end.
Lemma pure_read_ext f l l' keys : (∀ k, l k = l' k) → ∀ money, pure_read f l keys money = pure_read f l' keys money.
Proof. intros E. induction keys as [|k keys IH]; intros [|x money]; cbn; [done..|]. by rewrite E, IH. Qed.

Lemma read_loop_spec f keys : ∀ money m, length keys = length money → reading m → ∃ m' r,
  read_loop view f app keys money m = Ret (m', r) ∧ reading m' ∧ same_ledger m m' ∧
  pure_read f (cached db m) keys money = match r with inl l => Some l | inr _ => None end.
Proof using Hwf.
  induction keys as [|k keys IH]; intros [|x money] m Hl Hm; try done.
  { exists m, (inl []). done. }
  cbn [read_loop pure_read]. destruct (requireLock app k) eqn:Eu; cbn [negb].
  2:{ exists m, (inr ErrLocked). done. }
  cbn [Get RangeDB_view]. unfold RangeDB_Get. cbn [rangeTree view rt_search deref mbind outcome_bind].
  assert (∃ m1 r1, (if negb (RT_Search rt k) then Ret (m, inr ErrOutOfRange)
      else '(m, out) ← MemoryDB_Get db m k; Ret (m, inl out)) = Ret (m1, r1) ∧ reading m1 ∧ same_ledger m m1 ∧
      (if RT_Search rt k then Some (cached db m k) else None) = match r1 with inl b => Some b | inr _ => None end)
    as (m1 & r1 & E1 & Hm1 & S1 & ->).
  { destruct (RT_Search rt k) eqn:Er; cbn [negb]; [|by eexists _, _].
    destruct (MemoryDB_Get_spec m k) as (m1 & -> & Hm1 & S1); [done|by unfold usable; rewrite Er, Eu|].
    eexists _, _. split; [reflexivity|done]. }
  unfold db in E1. rewrite E1. cbn [mbind outcome_bind].
  destruct (f _ x) as [new|e]; [|by exists m1, (inr e)].
  destruct (IH money m1) as (m2 & r2 & -> & Hm2 & S2 & P2); [by injection Hl|done|]. cbn [mbind outcome_bind].
  rewrite (pure_read_ext f _ _ keys S1) in P2. exists m2, (match r2 with inl l => inl (new :: l) | inr e => inr e end).
  split; [done|]. split; [done|]. split; [intros j; by rewrite S2|]. rewrite P2. by destruct r2.
Qed.

(** A successful reading loop over keys of the shard. *)
Lemma pure_read_Some f g l keys : ∀ money vals, length keys = length money →
  (∀ b x v, f (Some b) x = inl v → v = g b x) → forallb (RT_Search rt) keys = true →
  pure_read f l keys money = Some vals ↔
  forallb (requireLock app) keys = true ∧
  (∀ k x, (k, x) ∈ zip keys money → ∃ v, f (Some (l k)) x = inl v) ∧
  vals = zip_with (λ k x, g (l k) x) keys money.
Proof.
  induction keys as [|k keys IH]; intros [|x money] vals Hl Hf Hin; try done.
  { cbn. split; [intros [= <-]; split_and!; [done|by intros ? ? ?%elem_of_nil|done]|by intros (_ & _ & ->)]. }
  cbn [forallb] in Hin. apply andb_true_iff in Hin as [Hk Hin]. cbn [pure_read forallb zip_with zip]. rewrite Hk.
  injection Hl as Hl. destruct (requireLock app k); cbn [andb]; [|naive_solver].
  destruct (f (Some (l k)) x) as [v|e] eqn:Ef.
  - pose proof (Hf _ _ _ Ef) as ->. rewrite fmap_Some. split.
    + intros (vs & E & ->). apply IH in E as (H1 & H2 & ->); [|done..]. split_and!; [done| |done].
      intros k' x' [[= -> ->]|Hz]%elem_of_cons; [eauto|by apply H2].
    + intros (H1 & H2 & ->). eexists. split; [|done]. apply IH; [done..|]. split_and!; [done| |done].
      intros k' x' Hz. apply H2. by right.
  - split; [done|]. intros (_ & H2 & _). destruct (H2 k x) as [v Ev]; [by left|]. congruence.
Qed.
Lemma pure_read_length f l keys : ∀ money vals, pure_read f l keys money = Some vals →
  length vals = length keys ∧ forallb (requireLock app) keys = true.
Proof.
  induction keys as [|k keys IH]; intros [|x money] vals; cbn [pure_read forallb]; try done; try (by intros [= <-]).
  destruct (requireLock app k); [|done]. destruct (f _ x); [|done].
  rewrite fmap_Some. intros (vs & E & ->). apply IH in E as [E1 E2]. cbn. by rewrite E1.
Qed.

(** The writing loops fill the write buffer, or end in an error when a key is
    not in the shard's range. *)
Definition buffered (wb : gmap string Z) (kvs : list (string * Z)) : gmap string Z :=
  foldl (λ wb kv, <[fst kv := snd kv]> wb) wb kvs.
Lemma write_loop_spec keys : ∀ vals m, length keys = length vals → ∃ m' err,
  write_loop view app keys vals m = Ret (m', err) ∧ memDB m' = memDB m ∧
  (err = None ↔ forallb usable keys = true) ∧
  (err = None → writeBuffer m' = buffered (writeBuffer m) (zip keys vals)).
Proof.
  induction keys as [|k keys IH]; intros [|x vals] m Hl; try done.
  { exists m, None. done. }
  injection Hl as Hl. cbn [write_loop forallb]. unfold usable at 1. destruct (requireLock app k); cbn [negb andb].
  2:{ rewrite andb_false_r. cbn [andb]. exists m, (Some ErrLocked). split_and!; done. }
  cbn [Set_ RangeDB_view]. unfold RangeDB_Set. cbn [rangeTree view rt_search deref mbind outcome_bind].
  destruct (RT_Search rt k); cbn [negb andb mbind outcome_bind]; [|by exists m, (Some ErrOutOfRange)].
  destruct (IH vals (MemoryDB_Set m k x) Hl) as (m' & err & -> & Em & Ee & Eb).
  exists m', err. split_and!; [done|done|done|]. intros E. by rewrite Eb.
Qed.

(** The buffer on top of a ledger. *)
Definition over (wb : gmap string Z) (l : ledger) : ledger := λ k, default (l k) (wb !! k).
Lemma over_buffered kvs l : ∀ wb k, over (buffered wb kvs) l k = set_accounts (over wb l) kvs k.
Proof.
  induction kvs as [|[a v] kvs IH]; intros wb k; [done|]. cbn [buffered foldl set_accounts fst snd]. fold (buffered (<[a:=v]> wb) kvs).
  rewrite IH. apply set_accounts_proper; [|done]. intros j. unfold over, set_account. cbn [fst snd].
  destruct (decide (j = a)) as [->|Hj]; [by rewrite lookup_insert_eq|by rewrite lookup_insert_ne].
Qed.
Lemma buffered_app wb k1 k2 : buffered wb (k1 ++ k2) = buffered (buffered wb k1) k2.
Proof. apply foldl_app. Qed.
Lemma buffered_Some kvs k v : ∀ wb, buffered wb kvs !! k = Some v → wb !! k = Some v ∨ (k, v) ∈ kvs.
Proof.
  induction kvs as [|[a w] kvs IH]; intros wb E; [by left|]. cbn in E. apply IH in E as [E|E]; [|right; by right].
  apply lookup_insert_Some in E as [[-> ->]|[_ E]]; [right; by left|by left].
Qed.

Lemma commit_cached m wb : cache_ok m → (∀ k v, wb !! k = Some v → usable k = true ∧ 0 ≤ v < 2 ^ 32) →
  let m' := {| memDB := wb ∪ memDB m; writeBuffer := ∅; readBuffer := ∅ |} in
  cache_ok m' ∧ ∀ k, cached db m' k = over wb (cached db m) k.
Proof.
  intros Hc Hw. split.
  - intros k v E. cbn [memDB] in E. apply lookup_union_Some_raw in E as [E|[_ E]]; [by apply Hw|by apply Hc].
  - intros k. unfold cached, over. cbn [memDB]. rewrite lookup_union. by destruct (wb !! k), (memDB m !! k).
Qed.

Lemma zip_with_range (g : Z → Z → Z) (l : ledger) ks xs k v : (∀ b x, 0 ≤ g b x < 2 ^ 32) →
  (k, v) ∈ zip ks (zip_with (λ k x, g (l k) x) ks xs) → k ∈ ks ∧ 0 ≤ v < 2 ^ 32.
Proof.
  intros Hg. revert xs. induction ks as [|k' ks IH]; intros [|x xs]; cbn; try by intros ?%elem_of_nil.
  intros [[= -> ->]|Hin]%elem_of_cons; [split; [by left|apply Hg]|]. apply IH in Hin as [? ?]. split; [by right|done].
Qed.
Lemma writes_range l tx k v : forallb usable (From tx) = true → forallb usable (To tx) = true →
  (k, v) ∈ debits l tx ++ credits l tx → usable k = true ∧ 0 ≤ v < 2 ^ 32.
Proof.
  rewrite !forallb_forall. intros H1 H2 [Hin|Hin]%elem_of_app.
  - apply (zip_with_range (λ b x, uint32 (b - x))) in Hin as [Hk Hv]; [|intros; by apply wrapU_range].
    split; [|done]. apply H1. by apply list_elem_of_In.
  - apply (zip_with_range (λ b x, uint32 (b + x))) in Hin as [Hk Hv]; [|intros; by apply wrapU_range].
    split; [|done]. apply H2. by apply list_elem_of_In.
Qed.

Lemma usable_both keys : forallb usable keys = forallb (RT_Search rt) keys && forallb (requireLock app) keys.
Proof.
  induction keys as [|k keys IH]; [done|]. cbn. rewrite IH. unfold usable.
  by destruct (RT_Search rt k), (requireLock app k), (forallb (RT_Search rt) keys), (forallb (requireLock app) keys).
Qed.

Lemma validated tx : ValidateTransferTx tx = None →
  length (From tx) = length (FromMoney tx) ∧ length (To tx) = length (ToMoney tx).
Proof.
  unfold ValidateTransferTx, zlen. destruct (_ || _) eqn:E; [done|]. intros _. bool_to_prop. lia.
Qed.

(** Both reading loops succeed on usable accounts exactly when the payers have
    the money. *)
Lemma reads_ok l tx v1 v2 : ValidateTransferTx tx = None →
  forallb usable (From tx) = true → forallb usable (To tx) = true →
  (pure_read new_from l (From tx) (FromMoney tx) = Some v1 ∧ pure_read new_to l (To tx) (ToMoney tx) = Some v2 ↔
   transfer_ok usable l tx = true ∧ zip (From tx) v1 = debits l tx ∧ zip (To tx) v2 = credits l tx ∧
   length v1 = length (From tx) ∧ length v2 = length (To tx)).
Proof.
  intros Hv U1 U2. destruct (validated tx Hv) as [L1 L2].
  pose proof U1 as U1'. pose proof U2 as U2'. rewrite usable_both in U1', U2'. bool_to_prop.
  rewrite (pure_read_Some new_from (λ b x, uint32 (b - x))), (pure_read_Some new_to (λ b x, uint32 (b + x)));
    [|done|by intros ? ? ? [= <-]|done|done|intros b x v; cbn; destruct (b <? x); [done|by intros [= <-]]|done].
  unfold transfer_ok. rewrite Hv, U1, U2. cbn [andb].
  assert (∀ (ks : list string) (vs ws : list Z), length vs = length ks → length ws = length ks → zip ks vs = zip ks ws → vs = ws) as Hzip.
  { intros ks. induction ks as [|k ks IH]; intros [|v vs] [|w ws]; cbn; try done. intros ? ? [= -> E]. f_equal. by apply IH; [lia|lia|]. }
  assert (∀ (g : string → Z → Z) ks xs, length ks = length xs → length (zip_with g ks xs) = length ks) as Hlen.
  { intros. rewrite length_zip_with. lia. }
  split.
  - intros [(_ & M1 & ->) (_ & _ & ->)]. split_and!; [|done|done|by apply Hlen|by apply Hlen].
    apply forallb_forall. intros [k x] Hin%list_elem_of_In. destruct (M1 k x Hin) as [v Ev]. cbn in *. destruct (Z.ltb_spec (l k) x); [done|]. by apply Z.leb_le.
  - intros (M1 & E1 & E2 & N1 & N2). rewrite forallb_forall in M1. split; split_and!; try done.
    + intros k x Hin%list_elem_of_In. specialize (M1 _ Hin). cbn in *. destruct (Z.ltb_spec (l k) x); [apply Z.leb_le in M1; lia|eauto].
    + unfold debits in E1. eapply Hzip; [..|exact E1]; [done|by apply Hlen].
    + intros k x _. cbn. eauto.
    + unfold credits in E2. eapply Hzip; [..|exact E2]; [done|by apply Hlen].
Qed.

(** The state after a transaction, as [CommitWrite] leaves it. *)
Definition settled (m m' : MemoryDB) (l : ledger) : Prop :=
  reading m' ∧ ∀ k, cached db m' k = l k.
Lemma reading_fresh m : cache_ok m → writeBuffer m = ∅ → readBuffer m = ∅ → reading m.
Proof. intros Hc Hw Hr. split; [done|done|]. intros k v. by rewrite Hr, lookup_empty. Qed.
Lemma discard m m1 : reading m → reading m1 → same_ledger m m1 → ∀ m2, memDB m2 = memDB m1 →
  settled m (CommitWrite m2 false) (cached db m).
Proof.
  intros Hm Hm1 S1 m2 E. split.
  - apply reading_fresh; [intros k v; cbn; rewrite E; by apply Hm1|done|done].
  - intros k. rewrite <- S1. unfold cached. cbn. by rewrite E.
Qed.

Lemma pyr_transfer_spec tx m : reading m → ∃ m' err, doTransfer view app tx m = Ret (m', err) ∧
  ok_error err = transfer_ok usable (cached db m) tx ∧
  settled m (CommitWrite m' (ok_error err))
    (if transfer_ok usable (cached db m) tx then transfer (cached db m) tx else cached db m).
Proof using Hwf.
  intros Hm. unfold doTransfer. destruct (ValidateTransferTx tx) as [e|] eqn:Hv.
  { exists m, (Some e). split; [done|]. assert (transfer_ok usable (cached db m) tx = false) as ->
      by (unfold transfer_ok; by rewrite Hv). split; [done|]. by apply (discard m m). }
  destruct (validated tx Hv) as [L1 L2].
  destruct (read_loop_spec new_from (From tx) (FromMoney tx) m L1 Hm) as (m1 & r1 & -> & Hm1 & S1 & P1).
  cbn [mbind outcome_bind].
  assert (Hfail : ∀ e m2, reading m1 → memDB m2 = memDB m1 → transfer_ok usable (cached db m) tx = false →
    ∃ m' err, Ret (m2, Some e) = Ret (m', err) ∧ ok_error err = transfer_ok usable (cached db m) tx ∧
      settled m (CommitWrite m' (ok_error err))
        (if transfer_ok usable (cached db m) tx then transfer (cached db m) tx else cached db m)).
  { intros e m2 _ Em ->. exists m2, (Some e). split_and!; [done|done|]. by apply (discard m m1). }
  assert (Hneed : transfer_ok usable (cached db m) tx = true →
    forallb usable (From tx) = true ∧ forallb usable (To tx) = true ∧ ∃ v1 v2,
      pure_read new_from (cached db m) (From tx) (FromMoney tx) = Some v1 ∧
      pure_read new_to (cached db m) (To tx) (ToMoney tx) = Some v2).
  { intros Hok. pose proof Hok as Hok'. unfold transfer_ok in Hok'. rewrite Hv in Hok'. bool_to_prop. split_and!; [done|done|].
    exists (zip_with (λ k x, uint32 (cached db m k - x)) (From tx) (FromMoney tx)),
      (zip_with (λ k x, uint32 (cached db m k + x)) (To tx) (ToMoney tx)).
    apply reads_ok; try done. split_and!; try done; rewrite length_zip_with; lia. }
  destruct r1 as [v1|e]; [|apply Hfail; [done|done|]; apply not_true_is_false; intros (_ & _ & ? & ? & ? & _)%Hneed; congruence].
  destruct (read_loop_spec new_to (To tx) (ToMoney tx) m1 L2 Hm1) as (m2 & r2 & -> & Hm2 & S2 & P2).
  cbn [mbind outcome_bind]. rewrite (pure_read_ext _ _ _ _ S1) in P2.
  assert (Hfail2 : ∀ e m3, memDB m3 = memDB m2 → transfer_ok usable (cached db m) tx = false →
    ∃ m' err, Ret (m3, Some e) = Ret (m', err) ∧ ok_error err = transfer_ok usable (cached db m) tx ∧
      settled m (CommitWrite m' (ok_error err))
        (if transfer_ok usable (cached db m) tx then transfer (cached db m) tx else cached db m)).
  { intros e m3 Em ->. exists m3, (Some e). split_and!; [done|done|]. apply (discard m m2); [done|done| |done].
    intros k. by rewrite S2. }
  clear Hfail. destruct r2 as [v2|e]; [|apply Hfail2; [done|]; apply not_true_is_false; intros (_ & _ & ? & ? & _ & ?)%Hneed; congruence].
  destruct (pure_read_length _ _ _ _ _ P1) as [N1 _], (pure_read_length _ _ _ _ _ P2) as [N2 _].
  destruct (write_loop_spec (From tx) v1 m2 (eq_sym N1)) as (m3 & err3 & -> & M3 & U3 & B3). cbn [mbind outcome_bind].
  destruct err3 as [e|]; [apply Hfail2; [done|]; apply not_true_is_false; intros (? & _)%Hneed; naive_solver|].
  destruct (write_loop_spec (To tx) v2 m3 (eq_sym N2)) as (m4 & err4 & -> & M4 & U4 & B4).
  destruct err4 as [e|]; [apply Hfail2; [congruence|]; apply not_true_is_false; intros (_ & ? & _)%Hneed; naive_solver|].
  destruct (reads_ok (cached db m) tx v1 v2 Hv) as [Hr _]; [by apply U3|by apply U4|].
  destruct Hr as (Hok & Z1 & Z2 & _); [done|]. exists m4, None. rewrite Hok. split_and!; [done|done|].
  cbn [ok_error CommitWrite]. unfold CommitWrite. rewrite B4, B3, (rd_buffer m2 Hm2), <- buffered_app, Z1, Z2, M4, M3 by done.
  destruct (commit_cached m2 (buffered ∅ (debits (cached db m) tx ++ credits (cached db m) tx))) as [C1 C2]; [apply Hm2| |].
  { intros k v [E|E]%buffered_Some; [by rewrite lookup_empty in E|]. eapply writes_range; [..|exact E]; naive_solver. }
  split; [by apply reading_fresh|].
  intros k. rewrite C2, over_buffered. apply set_accounts_proper; [|done]. intros j. unfold over. rewrite lookup_empty.
  cbn. by rewrite S2, S1.
Qed.

(** ** Blocks *)

Lemma pyr_execute_spec tx m : reading m → ∃ m' err, execute view app tx m = Ret (m', err) ∧
  ok_error err = snd (run_tx usable (cached db m) tx) ∧
  settled m (CommitWrite m' (ok_error err)) (fst (run_tx usable (cached db m) tx)).
Proof using Hwf.
  intros Hm. unfold execute, run_tx, unmarshalTransferTx, NewTransferTxFromBytes.
  assert (Hbad : ∀ e, ∃ m' err, Ret (m, Some e) = Ret (m', err) ∧ ok_error err = false ∧
    settled m (CommitWrite m' (ok_error err)) (cached db m)).
  { intros e. exists m, (Some e). split_and!; [done|done|]. by apply (discard m m). }
  destruct (Z.ltb_spec (zlen tx) 4); [apply Hbad|]. unfold zlen in *.
  unfold BytesToUint32, le_uint. destruct (Nat.ltb_spec (length (take 4 tx)) 4); [rewrite length_take in *; lia|].
  cbn [mbind outcome_bind]. destruct (Z.eqb_spec (le_decode (take 4 (take 4 tx))) TxTransfer); cbn [negb]; [|apply Hbad].
  rewrite slice_from_in_range by (unfold zlen; lia). cbn [mbind outcome_bind].
  destruct (unmarshal _) as [t|]; [|apply Hbad].
  destruct (pyr_transfer_spec t m Hm) as (m' & err & E & Ee & Hs). exists m', err. split; [done|].
  by destruct (transfer_ok usable (cached db m) t).
Qed.

Definition receipt_of (ok : bool) : ABCIExecutionReceipt := receipt (if ok then CodeTypeOK else CodeTypeAbort).
Lemma inner_loop_spec txs : ∀ m rs, reading m → ∃ m',
  foldM (inner_tx app view) txs (m, rs) = Ret (m', rs ++ map receipt_of (snd (run_txs usable (cached db m) txs))) ∧
  settled m m' (fst (run_txs usable (cached db m) txs)).
Proof using Hwf.
  induction txs as [|tx txs IH]; intros m rs Hm.
  { exists m. cbn. by rewrite app_nil_r. }
  cbn [foldM run_txs]. unfold inner_tx at 1. destruct (pyr_execute_spec tx m Hm) as (m1 & err & -> & Ee & Hm1 & S1).
  cbn [mbind outcome_bind]. destruct (run_tx usable (cached db m) tx) as [l1 ok]. cbn [fst snd] in *. subst ok.
  destruct (IH (CommitWrite m1 (ok_error err)) (rs ++ [receipt_of (ok_error err)]) Hm1) as (m' & E & Hm' & S').
  destruct (run_txs_ext usable txs _ _ S1) as [X1 X2].
  exists m'. unfold receipt_of in E at 1. rewrite E. destruct (run_txs usable l1 txs) as [l2 oks]. cbn [fst snd] in *.
  split; [by rewrite X2, <- app_assoc|]. split; [done|]. intros k. by rewrite S', X1.
Qed.

(** Writing the cache back. *)
Lemma write_pairs_all kvs : (∀ k v, (k, v) ∈ kvs → RT_Search rt k = true) → ∀ l,
  write_pairs (rt_search (Some rt)) kvs {| ops := Some l |} =
  Ret ({| ops := Some (l ++ set_ops (map (λ kv, (str_bytes (fst kv), Uint32ToBytes (snd kv))) kvs)) |}, None).
Proof.
  unfold write_pairs. induction kvs as [|[k v] kvs IH]; intros Hk l; [cbn; by rewrite app_nil_r|].
  cbn [foldM fst snd rt_search deref mbind outcome_bind]. rewrite (Hk k v) by (by left). rewrite PB_Set_open.
  rewrite IH by (intros k' v' ?; apply (Hk k' v'); by right). cbn [map set_ops fst snd]. by rewrite <- app_assoc.
Qed.
Lemma write_db_spec m : cache_ok m → ∃ d m', RangeDB_Write view db m = Ret (d, m', None) ∧ accounts_wf d ∧
  (∀ k, balance d k = cached db m k) ∧
  (∀ k, usable k = false → PrefixStore.datas d (str_bytes k) = PrefixStore.datas db (str_bytes k)).
Proof using Hwf.
  intros Hc. unfold RangeDB_Write, write_db. change NewBatch with ({| ops := Some [] |}). cbn [rangeTree view].
  rewrite write_pairs_all by (intros k v E%elem_of_map_to_list; apply Hc in E as [E _]; unfold usable in E; by bool_to_prop).
  cbn [mbind outcome_bind]. unfold PB_WriteSync, Batch_WriteSync, Batch_Write. cbn [ops Datatypes.app].
  set (kvs := map _ _). destruct (set_ops_spec kvs db) as (E1 & _ & _).
  eexists _, _. split; [reflexivity|].
  assert (Hin : ∀ k v, memDB m !! k = Some v → ∀ o, last_value (str_bytes k) kvs o = Some (Uint32ToBytes v)).
  { intros k v E. apply last_value_in.
    - unfold kvs. rewrite map_map. cbn [fst]. rewrite <- (map_map fst str_bytes). apply NoDup_fmap_2;
        [intros ? ?; apply str_bytes_inj|apply NoDup_fst_map_to_list].
    - unfold kvs. apply list_elem_of_In, in_map_iff. exists (k, v). split; [done|]. by apply list_elem_of_In, elem_of_map_to_list. }
  assert (Hout : ∀ k, (∀ j, k = str_bytes j → memDB m !! j = None) → ∀ o, last_value k kvs o = o).
  { intros k Hk o. apply last_value_ne. unfold kvs. rewrite map_map. cbn [fst]. intros Hi%list_elem_of_In.
    apply in_map_iff in Hi as ([j v] & <- & Hi%list_elem_of_In%elem_of_map_to_list). cbn [fst] in Hk.
    rewrite (Hk j eq_refl) in Hi. done. }
  split_and!.
  - intros k bz. rewrite E1. intros E.
    destruct (decide (k ∈ map fst kvs)) as [Hk|Hk]; [|rewrite last_value_ne in E by done; by apply (Hwf k)].
    unfold kvs in Hk. rewrite map_map in Hk. apply list_elem_of_In, in_map_iff in Hk as ([j v] & <- & Hj).
    apply list_elem_of_In, elem_of_map_to_list in Hj. cbn [fst] in E. rewrite (Hin j v Hj) in E. injection E as <-.
    apply value_ok_encoded.
  - intros k. unfold balance at 1. rewrite E1. unfold cached. destruct (memDB m !! k) as [v|] eqn:Ek.
    + rewrite (Hin k v Ek). cbn. apply stored_encoded. by apply Hc in Ek as [_ ?].
    + rewrite Hout; [done|]. by intros j ->%str_bytes_inj.
  - intros k Hu. rewrite E1. apply Hout. intros j ->%str_bytes_inj. destruct (memDB m !! j) eqn:Ej; [|done].
    apply Hc in Ej as [? _]. congruence.
Qed.
End Accounts.

Section Theorems.
Context {H : HashFn} {W : PyrWire} {BW : PyrBankWire} {D : Type} {KD : KVStore D} {S : Type} {KV : KVStore S}.

Lemma store_block_spec (bs : S) block b hs bz : Block_Hash block = Ret (b, hs) → Block_ProtoBytes b = Ret bz →
  ∃ bs', store_block bs block = Ret bs' ∧ PrefixStore.GetBlockByHash bs' hs = inl (Some bz) ∧
    (∀ k, k ≠ PrefixStore.height_key (Height (bHeader block)) (ChainID (bHeader block)) →
       PrefixStore.GetState bs' k = PrefixStore.GetState bs k).
Proof.
  intros Hh Hb. unfold store_block. rewrite Hh. cbn [mbind outcome_bind]. rewrite Hb. cbn [mbind outcome_bind].
  eexists. split; [reflexivity|]. unfold PrefixStore.SetBlockByHeight.
  destruct (PrefixStore.SetState_eq bs (PrefixStore.height_key (Height (bHeader block)) (ChainID (bHeader block))) hs)
    as (p1 & -> & S1 & _ & _).
  unfold PrefixStore.SetBlockByHash. destruct (PrefixStore.Set_eq p1 hs bz) as (p2 & -> & D2 & S2 & _). cbn [fst].
  split; [unfold PrefixStore.GetBlockByHash; by rewrite PrefixStore.Get_eq, D2, decide_True|].
  intros k Hk. rewrite !PrefixStore.GetState_eq, S2, S1. by rewrite decide_False.
Qed.

Section Inner.
Context (app : Application D) (bs : S) (block : Block) (rt : RangeTree) (b : Block) (hs bz : bytes).
Context (Htype : BlockType (bHeader block) = BLOCKTYPE_InnerShard)
  (Hrt : KeyRangeTree app !! ChainID (bHeader block) = Some rt) (Hwf : accounts_wf (DBConn app))
  (Hhash : Block_Hash block = Ret (b, hs)) (Hbz : Block_ProtoBytes b = Ret bz).

Lemma inner_shard_spec :
  let '(l, oks) := run_txs (usable app rt) (balance (DBConn app)) (BodyTxs (bBody block)) in
  ∃ app' bs', ExecutionInnerShard app bs block =
      Ret (app', bs', {| Receipts := map receipt_of oks |}, zlen (BodyTxs (bBody block)), 0, 0) ∧
    accounts_wf (DBConn app') ∧ LockedKeys app' = LockedKeys app ∧
    (∀ k, balance (DBConn app') k = l k) ∧
    (∀ k, usable app rt k = false →
       PrefixStore.datas (DBConn app') (str_bytes k) = PrefixStore.datas (DBConn app) (str_bytes k)) ∧
    PrefixStore.GetBlockByHash bs' hs = inl (Some bz).
Proof.
  destruct (inner_loop_spec app rt Hwf (BodyTxs (bBody block)) NewMemoryDB []) as (m & E & Hm & S1).
  { apply reading_fresh; [|done..]. intros k v E. cbn [memDB NewMemoryDB] in E. by rewrite lookup_empty in E. }
  destruct (run_txs_ext (usable app rt) (BodyTxs (bBody block)) (cached (DBConn app) NewMemoryDB) (balance (DBConn app)))
    as [X1 X2]; [done|].
  destruct (run_txs (usable app rt) (balance (DBConn app)) (BodyTxs (bBody block))) as [l oks]. cbn [fst snd] in *.
  destruct (write_db_spec app rt Hwf m) as (d & m' & Ew & Wd & Bd & Ud); [apply Hm|].
  destruct (store_block_spec bs block b hs bz Hhash Hbz) as (bs' & Es & Eb & _).
  exists (set_db app d), bs'. unfold ExecutionInnerShard. rewrite Htype. cbn [Z.eqb Pos.eqb negb BLOCKTYPE_InnerShard].
  unfold NewRangeDB. rewrite Hrt, E. cbn [mbind outcome_bind Datatypes.app]. rewrite Ew. cbn [mbind outcome_bind].
  rewrite Es. cbn [mbind outcome_bind]. split_and!; [by rewrite X2|done|done| |done|done].
  intros k. cbn. by rewrite Bd, S1, X1.
Qed.

(** C13. Executing an inner-shard block is executing its transactions in order on
    the ledger of the shard, each completely or not at all: the receipts tell
    which ones succeeded, the stored balances are those of the ledger, the
    accounts that are locked or outside the shard are not written, the locks
    stay, and the block can be read back by its hash. *)
Theorem ExecutionInnerShard_refines :
  let '(l, oks) := run_txs (usable app rt) (balance (DBConn app)) (BodyTxs (bBody block)) in
  ∃ app' bs', ExecutionInnerShard app bs block =
      Ret (app', bs', {| Receipts := map receipt_of oks |}, zlen (BodyTxs (bBody block)), 0, 0) ∧
    accounts_wf (DBConn app') ∧ LockedKeys app' = LockedKeys app ∧
    (∀ k, balance (DBConn app') k = l k) ∧
    (∀ k, usable app rt k = false →
       PrefixStore.datas (DBConn app') (str_bytes k) = PrefixStore.datas (DBConn app) (str_bytes k)) ∧
    PrefixStore.GetBlockByHash bs' hs = inl (Some bz).
Proof. exact inner_shard_spec. Qed.
End Inner.
End Theorems.
