(* ===== verification/PyrMoney.v ===== *)
(** * Money in the Pyramid bank

    What transfers do to the sum of all balances: [PyrBankProofs] reduces the
    execution of a block to a ledger, here the ledger's total is followed. *)

From stdpp Require Import base list gmap strings numbers sorting.
From Stdlib Require Import ZArith Lia.
From S2P Require Import Prelude Convert Hash Wire Signer RangeTree Store Batch PyrTypes PyrBank PyrBankProofs.


Definition total (accounts : list string) (l : ledger) : Z := zsum (map l accounts).

Lemma total_set accounts : ∀ l k v, NoDup accounts → k ∈ accounts →
  total accounts (set_account l (k, v)) = total accounts l + v - l k.
Proof.
  unfold total, zsum. induction accounts as [|a accounts IH]; intros l k v Hn Hk; [by apply elem_of_nil in Hk|].
  inversion Hn as [|? ? Ha Hn']; subst. cbn [map foldr]. apply elem_of_cons in Hk as [->|Hk].
  - assert (map (set_account l (a, v)) accounts = map l accounts) as Hm.
    { apply map_ext_in. intros b Hb%list_elem_of_In. unfold set_account. cbn. by rewrite decide_False by (intros ->; done). }
    rewrite Hm. unfold set_account at 1. cbn [fst snd]. rewrite decide_True by done. lia.
  - rewrite (IH l k v Hn' Hk). unfold set_account at 1. cbn [fst snd].
    rewrite decide_False by (intros ->; done). lia.
Qed.
Lemma total_set_all accounts kvs : NoDup accounts → NoDup (map fst kvs) → (∀ k, k ∈ map fst kvs → k ∈ accounts) → ∀ l,
  total accounts (set_accounts l kvs) = total accounts l + zsum (map (λ kv, snd kv - l (fst kv)) kvs).
Proof.
  intros Ha. induction kvs as [|[k v] kvs IH]; intros Hn Hin l; [cbn; lia|]. cbn [map fst] in Hn, Hin.
  inversion Hn as [|? ? Hk Hn']; subst. cbn [set_accounts foldl]. fold (set_accounts (set_account l (k, v)) kvs).
  rewrite IH by (try done; intros; apply Hin; by right). rewrite total_set by (done || (apply Hin; by left)).
  unfold zsum. cbn [map foldr fst snd].
  assert (map (λ kv, snd kv - set_account l (k, v) (fst kv)) kvs = map (λ kv, snd kv - l (fst kv)) kvs) as ->.
  { apply map_ext_in. intros kv Hkv%list_elem_of_In. unfold set_account. cbn. rewrite decide_False; [done|].
    intros E. apply Hk. rewrite <- E. by apply list_elem_of_fmap_2. }
  lia.
Qed.
Lemma zip_fst_eq {A B} (ks : list A) : ∀ vs : list B, length vs = length ks → map fst (zip ks vs) = ks.
Proof. induction ks as [|k ks IH]; intros [|v vs] Hl; try done. cbn. f_equal. apply IH. by injection Hl. Qed.
Lemma change_sum (g : Z → Z → Z) (sgn : Z) (l : ledger) ks : ∀ xs, length ks = length xs →
  (∀ k x, (k, x) ∈ zip ks xs → g (l k) x = l k + sgn * x) →
  zsum (map (λ kv, snd kv - l (fst kv)) (zip ks (zip_with (λ k x, g (l k) x) ks xs))) = sgn * zsum xs.
Proof.
  induction ks as [|k ks IH]; intros [|x xs] Hl Hg; try done; [cbn; lia|]. unfold zsum. cbn [zip_with zip map foldr fst snd].
  rewrite (Hg k x) by (by left). assert (IH' := IH xs ltac:(by injection Hl) ltac:(intros; apply Hg; by right)).
  unfold zsum in IH'. rewrite IH'. lia.
Qed.

(** A transfer between distinct accounts moves money and neither makes nor
    loses any, when the sums of the transaction are really equal and no payee
    overflows.  A payer that is also a payee gets the money without paying:
    its new balance as payee is computed before it pays and written last. *)
Lemma transfer_conserves {BW : PyrBankWire} (u : string → bool) (l : ledger) (tx : TransferTx) (accounts : list string)
    (Hok : transfer_ok u l tx = true) (Hacc : NoDup accounts) (Hall : ∀ k, k ∈ From tx ++ To tx → k ∈ accounts)
    (Hbal : ∀ k, 0 ≤ l k < 2 ^ 32) (Hpay : Forall (λ x, 0 ≤ x) (FromMoney tx)) (Hget : Forall (λ x, 0 ≤ x) (ToMoney tx))
    (Hover : ∀ k x, (k, x) ∈ zip (To tx) (ToMoney tx) → l k + x < 2 ^ 32)
    (Hsum : zsum (FromMoney tx) = zsum (ToMoney tx)) :
  (NoDup (From tx ++ To tx) → total accounts (transfer l tx) = total accounts l) ∧
  (∀ a x, From tx = [a] → To tx = [a] → ToMoney tx = [x] → total accounts (transfer l tx) = total accounts l + x).
Proof.
  unfold transfer_ok in Hok. destruct (ValidateTransferTx tx) eqn:Hv; [done|]. bool_to_prop.
  destruct (validated tx Hv) as [L1 L2].
  match goal with Hm : forallb (λ kx, snd kx <=? _) _ = true |- _ => rewrite forallb_forall in Hm; rename Hm into Henough end.
  assert (Hnn : ∀ k x (ks : list string) xs, Forall (λ x, 0 ≤ x) xs → (k, x) ∈ zip ks xs → 0 ≤ x).
  { intros k x ks xs Hf Hin. apply elem_of_zip_r in Hin. by rewrite Forall_forall in Hf; apply Hf. }
  assert (Hdeb : ∀ k x, (k, x) ∈ zip (From tx) (FromMoney tx) → uint32 (l k - x) = l k + -1 * x).
  { intros k x Hin. pose proof (Hnn _ _ _ _ Hpay Hin). apply list_elem_of_In, Henough in Hin. cbn in Hin. bool_to_prop.
    specialize (Hbal k). rewrite wrapU_small; lia. }
  assert (Hcre : ∀ k x, (k, x) ∈ zip (To tx) (ToMoney tx) → uint32 (l k + x) = l k + 1 * x).
  { intros k x Hin. pose proof (Hnn _ _ _ _ Hget Hin). apply Hover in Hin. specialize (Hbal k). rewrite wrapU_small; lia. }
  assert (Hfst : map fst (debits l tx ++ credits l tx) = From tx ++ To tx).
  { unfold debits, credits. rewrite map_app, !zip_fst_eq; [done|rewrite length_zip_with; lia..]. }
  split.
  - intros Hnd. unfold transfer. rewrite total_set_all by (rewrite ?Hfst; done). rewrite map_app, zsum_app.
    unfold debits, credits. rewrite (change_sum (λ b x, uint32 (b - x)) (-1)), (change_sum (λ b x, uint32 (b + x)) 1) by done. lia.
  - intros a x EF ET EM. rewrite ET, EM in Hover, Hcre. rewrite EF, ET in Hall.
    destruct (FromMoney tx) as [|y [|]] eqn:EFM; try (rewrite EF in L1; done).
    unfold transfer, debits, credits. rewrite EF, ET, EM, EFM. cbn [zip_with zip Datatypes.app set_accounts foldl].
    rewrite total_set by (try done; apply Hall; by left). rewrite total_set by (try done; apply Hall; by left).
    unfold set_account. cbn [fst snd]. rewrite decide_True by done. rewrite (Hcre a x) by (by left). lia.
Qed.

(** ** Blocks *)

Lemma zsum_perm l k : l ≡ₚ k → zsum l = zsum k.
Proof. unfold zsum. induction 1; cbn; lia. Qed.
Lemma part_of_total accounts ks (l : ledger) : (∀ k, 0 ≤ l k) → NoDup ks → (∀ k, k ∈ ks → k ∈ accounts) →
  zsum (map l ks) ≤ total accounts l.
Proof.
  intros Hl Hn Hin. destruct (submseteq_Permutation ks accounts) as [rest Hp]; [by apply NoDup_submseteq|].
  unfold total. change (map l accounts) with (l <$> accounts). change (map l ks) with (l <$> ks). rewrite (zsum_perm _ _ (fmap_Permutation l _ _ Hp)).
  rewrite fmap_app, zsum_app. assert (0 ≤ zsum (l <$> rest)); [|lia].
  apply zsum_nonneg, Forall_forall. intros x Hx. apply list_elem_of_fmap in Hx as (k & -> & _). apply Hl.
Qed.
Lemma zsum_le_pointwise (f : string → Z) ks : ∀ xs, length ks = length xs →
  (∀ k x, (k, x) ∈ zip ks xs → x ≤ f k) → zsum xs ≤ zsum (map f ks).
Proof.
  unfold zsum. induction ks as [|k ks IH]; intros [|x xs] Hlen Hle; try done. cbn.
  pose proof (Hle k x ltac:(by left)). specialize (IH xs ltac:(by injection Hlen) ltac:(intros; apply Hle; by right)). lia.
Qed.
Lemma zsum_member (x : Z) xs : Forall (λ y, 0 ≤ y) xs → x ∈ xs → x ≤ zsum xs.
Proof.
  unfold zsum. induction 1 as [|y xs Hy Hf IH]; [by intros Hn%elem_of_nil|]. intros Hin. apply elem_of_cons in Hin as [->|Hin]; cbn.
  - pose proof (zsum_nonneg xs Hf) as Hz. unfold zsum in Hz. lia.
  - specialize (IH Hin). lia.
Qed.

(** A transaction that is not a transfer, or a transfer between different
    accounts of a list that pays out what it takes in. *)
Definition honest {BW : PyrBankWire} (accounts : list string) (txBytes : bytes) : Prop :=
  ∀ tx, unmarshalTransferTx txBytes = Ret (inl tx) →
    NoDup (From tx ++ To tx) ∧ (∀ k, k ∈ From tx ++ To tx → k ∈ accounts) ∧
    Forall (λ x, 0 ≤ x) (FromMoney tx) ∧ Forall (λ x, 0 ≤ x) (ToMoney tx) ∧ zsum (FromMoney tx) = zsum (ToMoney tx).

Section Block.
Context {BW : PyrBankWire} (u : string → bool) (accounts : list string) (Hacc : NoDup accounts).

(** All the money there is fits in 32 bits, so no payee overflows. *)
Lemma no_overflow (l : ledger) tx k x : (∀ k, 0 ≤ l k) → total accounts l < 2 ^ 32 → transfer_ok u l tx = true →
  NoDup (From tx ++ To tx) → (∀ k, k ∈ From tx ++ To tx → k ∈ accounts) → Forall (λ x, 0 ≤ x) (ToMoney tx) →
  zsum (FromMoney tx) = zsum (ToMoney tx) → (k, x) ∈ zip (To tx) (ToMoney tx) → l k + x < 2 ^ 32.
Proof.
  intros Hl Ht Hok Hn Hin Hf Hs Hkx. unfold transfer_ok in Hok. destruct (ValidateTransferTx tx) eqn:Hv; [done|].
  bool_to_prop. destruct (validated tx Hv) as [L1 L2].
  match goal with Hm : forallb (λ kx, snd kx <=? _) _ = true |- _ => rewrite forallb_forall in Hm; rename Hm into Henough end.
  assert (zsum (FromMoney tx) ≤ zsum (map l (From tx))) as Hfrom.
  { apply zsum_le_pointwise; [lia|]. intros k' x' Hin'%list_elem_of_In%Henough. cbn in Hin'. by bool_to_prop. }
  assert (x ≤ zsum (ToMoney tx)) as Hx by (apply zsum_member; [done|by apply elem_of_zip_r in Hkx]).
  assert (k ∈ To tx) as Hk by (by apply elem_of_zip_l in Hkx).
  assert (zsum (map l (From tx ++ [k])) ≤ total accounts l) as Hsub.
  { apply part_of_total; [done| |].
    - apply NoDup_app in Hn as (Hn1 & Hn2 & _). apply NoDup_app. split_and!; [done| |apply NoDup_singleton].
      intros j Hj Hjk. apply list_elem_of_singleton in Hjk as ->. by apply (Hn2 k).
    - intros j Hj. apply Hin. rewrite elem_of_app in *. destruct Hj as [Hj|Hj]; [by left|right].
      by apply list_elem_of_singleton in Hj as ->. }
  rewrite map_app, zsum_app in Hsub. cbn in Hsub. lia.
Qed.
Lemma transfer_range l tx : (∀ k, 0 ≤ l k < 2 ^ 32) → ∀ k, 0 ≤ transfer l tx k < 2 ^ 32.
Proof.
  unfold transfer. assert (Forall (λ kv, 0 ≤ snd kv < 2 ^ 32) (debits l tx ++ credits l tx)) as Hf.
  { apply Forall_app; split; apply Forall_forall; intros [k v] Hin%elem_of_zip_r; cbn;
      apply elem_of_lookup_zip_with in Hin as (i & a & c & -> & _); apply (wrapU_range 32); lia. }
  revert Hf. generalize (debits l tx ++ credits l tx). intros kvs Hf. revert l.
  induction Hf as [|[a v] kvs Hv _ IH]; intros l Hl; [done|]. cbn [set_accounts foldl]. apply IH. intros j. unfold set_account. cbn [fst snd]. by destruct (decide _).
Qed.
Lemma run_txs_conserves txs : Forall (honest accounts) txs → ∀ l, (∀ k, 0 ≤ l k < 2 ^ 32) → total accounts l < 2 ^ 32 →
  total accounts (fst (run_txs u l txs)) = total accounts l.
Proof.
  induction 1 as [|txb txs Hh _ IH]; intros l Hl Ht; [done|]. cbn [run_txs].
  assert (total accounts (fst (run_tx u l txb)) = total accounts l ∧ ∀ k, 0 ≤ fst (run_tx u l txb) k < 2 ^ 32) as [E1 E2].
  { unfold run_tx. destruct (unmarshalTransferTx txb) as [[tx|]|] eqn:Eu; [|done..].
    destruct (transfer_ok u l tx) eqn:Eok; [|done]. cbn [fst]. destruct (Hh tx Eu) as (Hn & Hin & Hf & Hto & Hs).
    split; [|by apply transfer_range]. apply (transfer_conserves u l tx accounts); try done.
    intros k x Hkx. eapply no_overflow; try done. intros j. apply Hl. }
  destruct (run_tx u l txb) as [l1 ok]. cbn [fst] in E1, E2. specialize (IH l1 E2 ltac:(lia)).
  destruct (run_txs u l1 txs). cbn [fst] in *. lia.
Qed.
End Block.

(** C14. Executing an inner-shard block neither makes nor loses money: when every
    transfer of the block is between different accounts and pays out what it
    takes in, and all the money fits in 32 bits, the sum of the stored balances
    is the same after the block, whichever transactions succeed. *)
Theorem ExecutionInnerShard_conserves {H : HashFn} {W : PyrWire} {BW : PyrBankWire} {D} {KD : KVStore D} {S} {KV : KVStore S}
    (app : Application D) (bs : S) block rt b hs bz accounts
    (Htype : BlockType (bHeader block) = BLOCKTYPE_InnerShard)
    (Hrt : KeyRangeTree app !! ChainID (bHeader block) = Some rt) (Hwf : accounts_wf (DBConn app))
    (Hhash : Block_Hash block = Ret (b, hs)) (Hbz : Block_ProtoBytes b = Ret bz)
    (Hacc : NoDup accounts) (Htx : Forall (honest accounts) (BodyTxs (bBody block)))
    (Htot : total accounts (balance (DBConn app)) < 2 ^ 32) :
  ∃ app' bs' resp n, ExecutionInnerShard app bs block = Ret (app', bs', resp, n, 0, 0) ∧
    total accounts (balance (DBConn app')) = total accounts (balance (DBConn app)).
Proof.
  pose proof (inner_shard_spec app bs block rt b hs bz Htype Hrt Hwf Hhash Hbz) as Hx.
  destruct (run_txs _ _ _) as [l oks] eqn:Er. destruct Hx as (app' & bs' & E & _ & _ & Hl & _).
  exists app', bs'. eexists _, _. split; [exact E|].
  assert (total accounts (balance (DBConn app')) = total accounts l) as ->
    by (unfold total; f_equal; by apply map_ext).
  change l with (fst (l, oks)). rewrite <- Er. apply run_txs_conserves; try done.
  intros k. unfold balance. destruct (PrefixStore.datas _ _) eqn:Ed; cbn; [|by vm_compute]. apply stored_range. by eapply Hwf.
Qed.
