(* ===== verification/PyrCommit.v ===== *)
(** * Cross-shard blocks in the Pyramid bank

    A cross-shard block is accepted ([AcceptCrossShard]: its results become
    locks) and later committed or aborted ([AcceptCommitShard]: the locks are
    written or dropped).  This file states what the two phases do to locks and
    accounts, what the vote of a shard ([PreExecutionI]) looks at, and the
    round trip of the data that travels with the block. *)

From stdpp Require Import base list gmap strings numbers sorting.
From Stdlib Require Import ZArith Lia.
From S2P Require Import Prelude Convert Hash Merkle Wire Signer RangeTree Store Batch PyrTypes PyrBank PyrBankProofs.

(** ** The data of a block *)

Lemma data_loop_spec (f : string → Z) keys : ∀ pre m,
  ∃ m', data_loop (zlen pre) keys (pre ++ map f keys) m = Ret m' ∧
    ∀ k, m' !! k = if decide (k ∈ keys) then Some (f k) else m !! k.
Proof.
  induction keys as [|key keys IH]; intros pre m.
  { exists m. split; [done|]. intros k. by rewrite decide_False by (by intros ?%elem_of_nil). }
  cbn [data_loop map]. assert (idx (pre ++ f key :: map f keys) (zlen pre) = Ret (f key)) as ->.
  { apply idx_Ret. unfold zlen. rewrite Nat2Z.id. split; [lia|]. by rewrite list_lookup_middle. }
  cbn [mbind outcome_bind]. destruct (IH (pre ++ [f key]) (<[key := f key]> m)) as (m' & E & Hm').
  rewrite zlen_app, <- app_assoc in E. change (zlen [f key]) with 1 in E. cbn [Datatypes.app] in E. rewrite E. exists m'. split; [done|]. intros k. rewrite Hm'.
  destruct (decide (k ∈ keys)); [by rewrite decide_True by (by right)|].
  destruct (decide (k = key)) as [->|Hne]; [by rewrite lookup_insert_eq, decide_True by (by left)|].
  rewrite lookup_insert_ne by done. rewrite decide_False; [done|]. by intros [?|?]%elem_of_cons.
Qed.

(** What [CrossShardDataBytes] writes, [NewCrossShardDataFromBytes] reads
    back: the same values for the same keys, and the same flag. *)
Theorem CrossShardData_roundtrip {BW : PyrBankWire} (data : gmap string Z) (ok : bool) bz
    (Hbz : CrossShardDataBytes data ok = Ret bz) :
  NewCrossShardDataFromBytes bz = Ret (Some (data, ok)).
Proof.
  unfold CrossShardDataBytes, MustProtoBytes in Hbz. unfold NewCrossShardDataFromBytes.
  set (msg := {| Keys := _; OK := _; Values := _ |}) in Hbz. destruct (marshal msg) as [bz'|] eqn:Em; [|done].
  injection Hbz as <-. rewrite (unmarshal_marshal _ _ Em). cbn [Keys Values OK msg].
  destruct (data_loop_spec (λ k, default 0 (data !! k)) (sorted_keys data) [] ∅) as (m' & E & Hm').
  cbn [zlen length Datatypes.app] in E. change (zlen []) with 0 in E. rewrite E. cbn [mbind outcome_bind].
  do 3 f_equal. apply map_eq. intros k. rewrite Hm', lookup_empty. unfold sorted_keys.
  assert (k ∈ merge_sort str_le (map fst (map_to_list data)) ↔ is_Some (data !! k)) as Hk.
  { rewrite merge_sort_Permutation. rewrite list_elem_of_fmap. split.
    - intros ([j v] & -> & Hj%elem_of_map_to_list). by exists v.
    - intros [v Hv]. exists (k, v). by rewrite elem_of_map_to_list. }
  destruct (decide _) as [Hin|Hin].
  - apply Hk in Hin as [v ->]. done.
  - destruct (data !! k) eqn:Ed; [|done]. exfalso. apply Hin, Hk. eauto.
Qed.

Section Commit.
Context {H : HashFn} {W : PyrWire} {BW : PyrBankWire} {D : Type} {KD : KVStore D} {S : Type} {KV : KVStore S}.
Implicit Types (app : Application D) (bs : S).

Lemma unmarshalTransferTx_total tx : ∃ r, unmarshalTransferTx tx = Ret r.
Proof.
  unfold unmarshalTransferTx, NewTransferTxFromBytes. destruct (Z.ltb_spec (zlen tx) 4); [eauto|]. unfold zlen in *.
  unfold BytesToUint32, le_uint. destruct (Nat.ltb_spec (length (take 4 tx)) 4); [rewrite length_take in *; lia|].
  cbn [mbind outcome_bind]. case_match; [eauto|]. rewrite slice_from_in_range by (unfold zlen; lia). cbn. eauto.
Qed.

(** The keys of the transactions of a list that decode. *)
Fixpoint keys_of (txs : list bytes) : gset string :=
  match txs with
  | [] => ∅
  | tx :: txs' => match unmarshalTransferTx tx with Ret (inl t) => appendRWSet t ∅ | _ => ∅ end ∪ keys_of txs'
  end.
Lemma appendRWSet_union t ws : appendRWSet t ws = appendRWSet t ∅ ∪ ws.
Proof. unfold appendRWSet. apply leibniz_equiv. set_solver. Qed.
Lemma commit_set_spec txs : ∀ ws, commit_set txs ws = Ret (keys_of txs ∪ ws).
Proof.
  induction txs as [|tx txs IH]; intros ws; cbn [commit_set keys_of]; [f_equal; apply leibniz_equiv; set_solver|].
  destruct (unmarshalTransferTx_total tx) as [r Er]. rewrite Er. cbn [mbind outcome_bind]. rewrite IH. f_equal.
  destruct r as [t|e]; [rewrite (appendRWSet_union t ws)|]; apply leibniz_equiv; set_solver.
Qed.
Definition decodes (tx : bytes) : bool :=
  match unmarshalTransferTx tx with Ret (inl _) => true | _ => false end.
Lemma write_set_spec txs : ∀ ws, write_set txs ws = Ret (if forallb decodes txs then Some (keys_of txs ∪ ws) else None).
Proof.
  induction txs as [|tx txs IH]; intros ws; cbn [write_set keys_of forallb]; [do 2 f_equal; apply leibniz_equiv; set_solver|].
  unfold decodes at 1. destruct (unmarshalTransferTx_total tx) as [[t|e] Er]; rewrite Er; cbn [mbind outcome_bind andb]; [|done].
  rewrite IH. destruct (forallb decodes txs); [|done]. do 2 f_equal. rewrite (appendRWSet_union t ws).
  apply leibniz_equiv. set_solver.
Qed.

(** ** The vote of a shard *)

Definition with_datas (b : Block) (datas : list bytes) : Block :=
  {| bHeader := bHeader b; bBody := bBody b;
     bCross := {| CrossShardTxs := CrossShardTxs (bCross b); CrossShardDatas := datas |};
     bRelation := bRelation b; blockhash := blockhash b |}.

(** On a cross-shard block, which has no body transactions, the vote of an I
    shard is to accept exactly when all its transactions decode and none of
    their keys is locked.  The data the block was executed with is not looked
    at, however stale: the check runs over the body transactions. *)
Theorem PreExecutionI_ignores_data app block
    (Htype : BlockType (bHeader block) = BLOCKTYPE_CrossShard) (HI : IsI app = true)
    (Hbody : BodyTxs (bBody block) = []) :
  ∃ resp, (∀ datas, PreExecutionI app (with_datas block datas) = Ret resp) ∧
    RespI_IsOK resp = forallb decodes (CrossShardTxs (bCross block)) &&
                      all_unlocked app (keys_of (CrossShardTxs (bCross block))).
Proof.
  unfold PreExecutionI. cbn [with_datas bHeader bBody bCross CrossShardTxs]. rewrite Htype, HI, write_set_spec, Hbody.
  cbn [negb Z.eqb Pos.eqb BLOCKTYPE_CrossShard mbind outcome_bind pre_loop].
  assert (keys_of (CrossShardTxs (bCross block)) ∪ ∅ = keys_of (CrossShardTxs (bCross block))) as Eu
    by (apply leibniz_equiv; set_solver). rewrite Eu.
  destruct (forallb decodes _); cbn [andb]; [|by exists abort_I].
  destruct (all_unlocked app _); cbn [negb]; [by eexists|by exists abort_I].
Qed.

(** ** Committing *)

(** The keys of a block that belong to the shard. *)
Definition touches (rt : RangeTree) (txs : list bytes) (k : string) : bool :=
  RT_Search rt k && bool_decide (k ∈ keys_of txs).

(** What releasing the keys of a list does to locks and batch. *)
Lemma release_loop rt c ks : ∀ app l, NoDup ks → ∃ app' kvs,
  foldM (release_key (Some rt) c) ks (app, {| ops := Some l |}) = Ret (app', {| ops := Some (l ++ set_ops kvs) |}) ∧
  DBConn app' = DBConn app ∧
  (∀ k, LockedKeys app' !! k = if RT_Search rt k && bool_decide (k ∈ ks) then None else LockedKeys app !! k) ∧
  (∀ k o, last_value (str_bytes k) kvs o =
     if c && (RT_Search rt k && bool_decide (k ∈ ks)) then match LockedKeys app !! k with Some v => Some (Uint32ToBytes v) | None => o end
     else o).
Proof.
  induction ks as [|key ks IH]; intros app l Hnd.
  { exists app, []. cbn. rewrite app_nil_r. split_and!; [done|done|..]; intros; rewrite (bool_decide_false (_ ∈ [])) by apply not_elem_of_nil;
      by rewrite ?andb_false_r. }
  inversion Hnd as [|? ? Hk Hnd']; subst. cbn [foldM].
  assert (Hin : ∀ k, bool_decide (k ∈ key :: ks) = bool_decide (k = key) || bool_decide (k ∈ ks)).
  { intros k. rewrite <- bool_decide_or. apply bool_decide_ext, elem_of_cons. }
  assert (∃ app1 kv1, release_key (Some rt) c (app, {| ops := Some l |}) key = Ret (app1, {| ops := Some (l ++ set_ops kv1) |}) ∧
    DBConn app1 = DBConn app ∧
    (∀ k, LockedKeys app1 !! k = if RT_Search rt k && bool_decide (k = key) then None else LockedKeys app !! k) ∧
    (∀ k kvs o, last_value (str_bytes k) (kv1 ++ kvs) o = last_value (str_bytes k) kvs
      (if c && (RT_Search rt k && bool_decide (k = key)) then match LockedKeys app !! k with Some v => Some (Uint32ToBytes v) | None => o end
       else o))) as (app1 & kv1 & -> & D1 & L1 & V1).
  { unfold release_key. cbn [rt_search deref mbind outcome_bind].
    assert (Hsk : ∀ k, RT_Search rt key = false → RT_Search rt k && bool_decide (k = key) = false).
    { intros k Hs. case_bool_decide; [subst; by rewrite Hs|by rewrite andb_false_r]. }
    destruct (RT_Search rt key) eqn:Es; cbn [negb].
    2:{ exists app, []. cbn. rewrite app_nil_r. split_and!; [done|done|..]; intros; by rewrite Hsk, ?andb_false_r. }
    assert (Hdel : ∀ k, delete key (LockedKeys app) !! k = if RT_Search rt k && bool_decide (k = key) then None else LockedKeys app !! k).
    { intros k. case_bool_decide; [subst; rewrite Es; apply lookup_delete_eq|]. rewrite andb_false_r. by apply lookup_delete_ne. }
    destruct c.
    - unfold releaseLock. destruct (LockedKeys app !! key) as [v|] eqn:El.
      + rewrite PB_Set_open. eexists _, [(str_bytes key, Uint32ToBytes v)]. split; [reflexivity|].
        split_and!; [done|exact Hdel|]. intros k kvs o. cbn [Datatypes.app last_value andb].
        case_bool_decide as Ek; [subst; rewrite Es, decide_True, El by done; done|].
        rewrite andb_false_r, decide_False; [done|]. by intros ?%str_bytes_inj.
      + exists app, []. cbn [set_ops map Datatypes.app]. rewrite app_nil_r. split_and!; [done|done|..].
        * intros k. case_bool_decide; [subst; by rewrite Es|by rewrite andb_false_r].
        * intros k kvs o. case_bool_decide; [subst; by rewrite Es, El|by rewrite andb_false_r].
    - exists (undoLock app key), []. cbn [set_ops map Datatypes.app andb]. rewrite app_nil_r. split_and!; [done|done|exact Hdel|done]. }
  destruct (IH app1 (l ++ set_ops kv1) Hnd') as (app' & kvs & -> & D2 & L2 & V2).
  exists app', (kv1 ++ kvs). split_and!.
  - unfold set_ops. by rewrite map_app, <- app_assoc.
  - congruence.
  - intros k. rewrite L2, L1, Hin. destruct (RT_Search rt k); cbn [andb]; [|done].
    by destruct (bool_decide (k = key)), (bool_decide (k ∈ ks)).
  - intros k o. rewrite V1, V2, L1, Hin. destruct c; cbn [andb]; [|done]. destruct (RT_Search rt k); cbn [andb]; [|done].
    destruct (decide (k = key)) as [->|Hne]; [|by rewrite (bool_decide_false (k = key))].
    by rewrite (bool_decide_true (key = key)), (bool_decide_false (key ∈ ks)).
Qed.

(** Committing or aborting one accepted block: every lock on a key of the
    block in the shard is dropped, and on commit the locked values are written
    to the accounts; nothing else changes. *)
Lemma AcceptCommitShard_spec app bs rt chain hs bz block c :
  KeyRangeTree app !! chain = Some rt →
  PrefixStore.GetBlockByHash bs hs = inl (Some bz) → NewBlockFromBytes bz = Ret (Some block) →
  PrefixStore.GetState bs hs = inl (Some (str_bytes "ok")) →
  let t := touches rt (CrossShardTxs (bCross block)) in
  ∃ app', AcceptCommitShard app bs [hs] [c] chain = Ret (app', bs, {| Receipts := [receipt_of c] |}, 1, 0, 0) ∧
    (∀ k, LockedKeys app' !! k = if t k then None else LockedKeys app !! k) ∧
    (∀ k, PrefixStore.datas (DBConn app') (str_bytes k) =
       match LockedKeys app !! k with
       | Some v => if c && t k then Some (Uint32ToBytes v) else PrefixStore.datas (DBConn app) (str_bytes k)
       | None => PrefixStore.datas (DBConn app) (str_bytes k)
       end).
Proof.
  intros Hrt Hget Hblk Hst t. unfold AcceptCommitShard. cbn [commit_loop]. rewrite Hrt, Hget. cbn [sbytes default id].
  rewrite Hblk. cbn [mbind outcome_bind]. rewrite Hst. cbn [sbytes default id]. rewrite bytes_Equal_refl. cbn [negb].
  rewrite commit_set_spec. cbn [mbind outcome_bind]. change (idx [c] 0) with (Ret c). cbn [mbind outcome_bind].
  change NewBatch with ({| ops := Some [] |}).
  destruct (release_loop rt c (elements (keys_of (CrossShardTxs (bCross block)) ∪ ∅)) app []) as (app' & kvs & -> & D1 & L1 & V1);
    [apply NoDup_elements|].
  assert (Ht : ∀ k, RT_Search rt k && bool_decide (k ∈ elements (keys_of (CrossShardTxs (bCross block)) ∪ ∅)) = t k).
  { intros k. unfold t, touches. f_equal. apply bool_decide_ext. rewrite elem_of_elements. set_solver. }
  cbn [mbind outcome_bind]. unfold PB_WriteSync, Batch_WriteSync, Batch_Write. cbn [ops Datatypes.app].
  destruct (set_ops_spec kvs (DBConn app')) as (E1 & _ & _).
  eexists. split; [destruct c; reflexivity|]. split; intros k; cbn [DBConn LockedKeys set_db]; [by rewrite L1, Ht|].
  rewrite E1, V1, Ht, D1. by destruct c, (t k), (LockedKeys app !! k).
Qed.

(** ** Accepting *)

(** Between two transactions the buffers are empty. *)
Definition clean (m : MemoryDB) : Prop := writeBuffer m = ∅ ∧ readBuffer m = ∅.

Lemma cross_read csd f app keys : ∀ money m, length keys = length money →
  ∃ r, read_loop (NewCrossShardDB csd) f app keys money m = Ret (m, r) ∧
    ∀ l, r = inl l → length l = length keys ∧ forallb (requireLock app) keys = true.
Proof.
  induction keys as [|k keys IH]; intros [|x money] m Hl; try done.
  { exists (inl []). split; [done|]. by intros l [= <-]. }
  cbn [read_loop forallb]. destruct (requireLock app k); cbn [negb andb]; [|by exists (inr ErrLocked)].
  cbn [Get CrossShardDB_view]. unfold CrossShardDB_Get.
  assert (∃ r, (match writeBuffer m !! k with
    | Some out => Ret (m, inl out)
    | None => Ret (m, match crossShardData (NewCrossShardDB csd) !! k with Some bz => inl bz | None => inr ErrNotProvided end)
    end) = Ret (m, r)) as [r ->] by (destruct (writeBuffer m !! k); eauto).
  cbn [mbind outcome_bind]. destruct (f _ x) as [new|e]; [|by exists (inr e)].
  destruct (IH money m) as (r2 & -> & H2); [by injection Hl|]. cbn [mbind outcome_bind].
  destruct r2 as [l2|e]; eexists; (split; [reflexivity|]); [|done].
  intros l [= <-]. destruct (H2 l2 eq_refl) as [E1 E2]. cbn. by rewrite E1, E2.
Qed.
Lemma cross_write csd app keys : ∀ vals m, length vals = length keys → forallb (requireLock app) keys = true →
  ∃ m', write_loop (NewCrossShardDB csd) app keys vals m = Ret (m', None) ∧ memDB m' = memDB m ∧
    dom (writeBuffer m') = list_to_set keys ∪ dom (writeBuffer m).
Proof.
  induction keys as [|k keys IH]; intros [|x vals] m Hl Hu; try done.
  { exists m. split_and!; [done|done|]. apply leibniz_equiv. set_solver. }
  cbn [forallb] in Hu. apply andb_true_iff in Hu as [Hk Hu]. cbn [write_loop]. rewrite Hk.
  cbn [negb Set_ CrossShardDB_view CrossShardDB_Set mbind outcome_bind].
  destruct (IH vals (MemoryDB_Set m k x)) as (m' & -> & Em & Ed); [by injection Hl|done|].
  exists m'. split_and!; [done|done|]. rewrite Ed. cbn [writeBuffer MemoryDB_Set list_to_set]. rewrite dom_insert_L.
  apply leibniz_equiv. set_solver.
Qed.

(** A transaction with its data: it writes nothing but the buffer, and when it
    succeeds the buffer holds exactly its keys. *)
Lemma cross_execute csd app tx m : clean m → ∃ m' err, execute (NewCrossShardDB csd) app tx m = Ret (m', err) ∧
  memDB m' = memDB m ∧ (ok_error err = true → ∃ t, unmarshalTransferTx tx = Ret (inl t) ∧ dom (writeBuffer m') = appendRWSet t ∅).
Proof.
  intros [Hw Hr]. unfold execute, unmarshalTransferTx, NewTransferTxFromBytes.
  destruct (Z.ltb_spec (zlen tx) 4); [by exists m, (Some ErrLength)|]. unfold zlen in *.
  unfold BytesToUint32, le_uint. destruct (Nat.ltb_spec (length (take 4 tx)) 4); [rewrite length_take in *; lia|].
  cbn [mbind outcome_bind]. destruct (_ =? TxTransfer); cbn [negb]; [|by exists m, (Some ErrTxType)].
  rewrite slice_from_in_range by (unfold zlen; lia). cbn [mbind outcome_bind].
  destruct (unmarshal _) as [t|]; [|by exists m, (Some ErrDecode)].
  unfold doTransfer. destruct (ValidateTransferTx t) eqn:Hv; [by eexists _, _|]. destruct (validated t Hv) as [L1 L2].
  destruct (cross_read csd new_from app (From t) (FromMoney t) m L1) as (r1 & -> & R1). cbn [mbind outcome_bind].
  destruct r1 as [v1|e]; [|by eexists _, _]. destruct (R1 v1 eq_refl) as [N1 U1].
  destruct (cross_read csd new_to app (To t) (ToMoney t) m L2) as (r2 & -> & R2). cbn [mbind outcome_bind].
  destruct r2 as [v2|e]; [|by eexists _, _]. destruct (R2 v2 eq_refl) as [N2 U2].
  destruct (cross_write csd app (From t) v1 m N1 U1) as (m1 & -> & M1 & D1). cbn [mbind outcome_bind].
  destruct (cross_write csd app (To t) v2 m1 N2 U2) as (m2 & -> & M2 & D2).
  exists m2, None. split_and!; [done|congruence|]. intros _. exists t. split; [done|].
  rewrite D2, D1, Hw, dom_empty_L. unfold appendRWSet. done.
Qed.

Definition data_ok (bz : bytes) : Prop := ∃ r, NewCrossShardDataFromBytes bz = Ret r.

(** The execution loop: it writes no account; the keys of the successful
    transactions are those it has a value for. *)
Lemma cross_loop_spec app txs : ∀ pre datas m, length datas = length txs → Forall data_ok datas → clean m →
  ∃ m' rs new, cross_loop app (pre ++ datas) (zlen pre) txs m = Ret (m', rs) ∧ clean m' ∧
    dom (memDB m') = new ∪ dom (memDB m) ∧ new ⊆ keys_of txs ∧ ∀ ws, ok_write_set txs rs ws = Ret (new ∪ ws).
Proof.
  induction txs as [|tx txs IH]; intros pre [|bz datas] m Hl Hok Hm; try done.
  { exists m, [], ∅. cbn. split_and!; [done|exact Hm|..]; try intros; try f_equal; try apply leibniz_equiv; set_solver. }
  apply Forall_cons_1 in Hok as [[r Er] Hok]. cbn [cross_loop keys_of].
  assert (idx (pre ++ bz :: datas) (zlen pre) = Ret bz) as ->.
  { apply idx_Ret. unfold zlen. rewrite Nat2Z.id. split; [lia|]. by rewrite list_lookup_middle. }
  cbn [mbind outcome_bind]. rewrite Er. cbn [mbind outcome_bind].
  assert (∃ m1 code new1, (match r with
      | Some (csd, true) => '(m, err) ← execute (NewCrossShardDB csd) app tx m;
          Ret (CommitWrite m (ok_error err), if ok_error err then CodeTypeOK else CodeTypeUnknownError)
      | _ => Ret (m, CodeTypeEncodingError) end) = Ret (m1, code) ∧ clean m1 ∧ dom (memDB m1) = new1 ∪ dom (memDB m) ∧
      (if code =? CodeTypeOK then ∃ t, unmarshalTransferTx tx = Ret (inl t) ∧ new1 = appendRWSet t ∅ else new1 = ∅))
    as (m1 & code & new1 & -> & Hm1 & Dm1 & Hn1).
  { assert (∃ m1 code new1, Ret (m, CodeTypeEncodingError) = Ret (m1, code) ∧ clean m1 ∧ dom (memDB m1) = new1 ∪ dom (memDB m) ∧
      (if code =? CodeTypeOK then ∃ t, unmarshalTransferTx tx = Ret (inl t) ∧ new1 = appendRWSet t ∅ else new1 = ∅)) as Hskip.
    { exists m, CodeTypeEncodingError, ∅. split_and!; [done|exact Hm| |done]. apply leibniz_equiv. set_solver. }
    destruct r as [[csd [|]]|]; [|exact Hskip..]. clear Hskip.
    destruct (cross_execute csd app tx m Hm) as (m1 & err & -> & M1 & Ht). cbn [mbind outcome_bind].
    destruct (ok_error err) eqn:Eo.
    - destruct (Ht eq_refl) as (t & Et & Dt). eexists _, _, _. split; [reflexivity|]. split; [done|].
      split; [|exists t; by split]. cbn [memDB CommitWrite]. by rewrite dom_union_L, Dt, M1.
    - eexists _, _, ∅. split; [reflexivity|]. split_and!; [done| |done]. cbn [memDB CommitWrite]. rewrite M1.
      apply leibniz_equiv. set_solver. }
  cbn [mbind outcome_bind]. injection Hl as Hl.
  destruct (IH (pre ++ [bz]) datas m1 Hl Hok Hm1) as (m' & rs & new & E & Hm' & Dm' & Hsub & Hws).
  rewrite zlen_app, <- app_assoc in E. change (zlen [bz]) with 1 in E. cbn [Datatypes.app] in E. rewrite E.
  cbn [mbind outcome_bind]. exists m', (receipt code :: rs), (new ∪ new1).
  split_and!; [done|exact Hm'|rewrite Dm', Dm1; apply leibniz_equiv; set_solver|..].
  - destruct (code =? CodeTypeOK); [destruct Hn1 as (t & -> & ->)|subst new1]; set_solver.
  - intros ws. cbn [ok_write_set]. unfold Receipt_IsOK. cbn [rCode receipt].
    destruct (code =? CodeTypeOK); cbn [negb].
    + destruct Hn1 as (t & -> & ->). cbn [mbind outcome_bind]. rewrite Hws, (appendRWSet_union t ws). f_equal. apply leibniz_equiv. set_solver.
    + subst new1. rewrite Hws. f_equal. apply leibniz_equiv. set_solver.
Qed.

(** Locking keys that have a value. *)
Lemma lock_loop rt vals ks : ∀ app m, memDB m = vals → writeBuffer m = ∅ →
  (∀ k v, readBuffer m !! k = Some v → vals !! k = Some v) → (∀ k, k ∈ ks → is_Some (vals !! k)) →
  ∃ app' m', foldM (lock_key (Some rt)) ks (app, m) = Ret (app', m') ∧
    DBConn app' = DBConn app ∧ KeyRangeTree app' = KeyRangeTree app ∧
    ∀ k, LockedKeys app' !! k =
      if RT_Search rt k && bool_decide (k ∈ ks) then
        match LockedKeys app !! k with Some v => Some v | None => vals !! k end
      else LockedKeys app !! k.
Proof.
  induction ks as [|key ks IH]; intros app m Hm Hw Hr Hks.
  { exists app, m. split_and!; [done..|]. intros k. rewrite (bool_decide_false (_ ∈ [])) by apply not_elem_of_nil.
    by rewrite andb_false_r. }
  cbn [foldM]. unfold lock_key at 1. cbn [rt_search deref mbind outcome_bind].
  assert (Hin : ∀ k, bool_decide (k ∈ key :: ks) = bool_decide (k = key) || bool_decide (k ∈ ks)).
  { intros k. rewrite <- bool_decide_or. apply bool_decide_ext, elem_of_cons. }
  destruct (RT_Search rt key) eqn:Es; cbn [negb].
  2:{ destruct (IH app m Hm Hw Hr) as (app' & m' & -> & E1 & E2 & E3); [intros; apply Hks; by right|].
      exists app', m'. split_and!; [done..|]. intros k. rewrite E3, Hin.
      destruct (decide (k = key)) as [->|Hne]; [by rewrite Es|by rewrite (bool_decide_false (k = key))]. }
  destruct (Hks key) as [v Hv]; [by left|].
  assert (∃ m1, MemoryDB_Get (DBConn app) m key = Ret (m1, v) ∧ memDB m1 = vals ∧ writeBuffer m1 = ∅ ∧
    (∀ k v, readBuffer m1 !! k = Some v → vals !! k = Some v)) as (m1 & -> & M1 & W1 & R1).
  { unfold MemoryDB_Get. rewrite Hw, lookup_empty. destruct (readBuffer m !! key) eqn:Er.
    - pose proof (Hr _ _ Er) as E. rewrite Hv in E. injection E as ->. by exists m.
    - rewrite Hm, Hv. eexists. split; [reflexivity|]. split_and!; [done|done|]. cbn [readBuffer note_read].
      intros j w [[<- <-]|[_ E]]%lookup_insert_Some; [done|by apply Hr]. }
  cbn [mbind outcome_bind].
  destruct (IH (fst (setLock app key v)) m1 M1 W1 R1) as (app' & m' & -> & E1 & E2 & E3); [intros; apply Hks; by right|].
  exists app', m'. unfold setLock in *. destruct (LockedKeys app !! key) as [u|] eqn:El; cbn [fst set_locks DBConn KeyRangeTree LockedKeys] in *;
    (split_and!; [done..|]); intros k; rewrite E3, Hin; (destruct (decide (k = key)) as [->|Hne];
      [rewrite (bool_decide_true (key = key)), Es by done|by rewrite (bool_decide_false (k = key)), ?lookup_insert_ne by done]);
    cbn [andb orb].
  - rewrite El. by destruct (bool_decide _).
  - rewrite lookup_insert_eq, El, Hv. by destruct (bool_decide _).
Qed.

(** ** The hash of a hashed block *)

Lemma HashFromByteSlices_is_hash l h : HashFromByteSlices l = Ret h → not_hash h = false.
Proof. intros E. unfold not_hash. by rewrite (root_size l h E). Qed.
Lemma Block_Hash_idem b0 b hs : Block_Hash b0 = Ret (b, hs) → Block_Hash b = Ret (b, hs).
Proof.
  unfold Block_Hash. intros (b1 & E1 & E)%outcome_bind_Ret.
  assert (fillHeader b1 = Ret b1 ∧ ∀ h, fillHeader {| bHeader := bHeader b1; bBody := bBody b1; bCross := bCross b1; bRelation := bRelation b1; blockhash := h |} =
    Ret {| bHeader := bHeader b1; bBody := bBody b1; bCross := bCross b1; bRelation := bRelation b1; blockhash := h |}) as [F1 F2].
  { unfold fillHeader in E1. apply outcome_bind_Ret in E1 as (body & X1 & E1). apply outcome_bind_Ret in E1 as (rc & X2 & E1).
    apply outcome_bind_Ret in E1 as (cr & X3 & E1). injection E1 as <-.
    assert (not_hash body = false) as N1.
    { destruct (not_hash (BodyRoot (bHeader b0))) eqn:En; [by apply HashFromByteSlices_is_hash in X1|by injection X1 as <-]. }
    assert (not_hash cr = false) as N3.
    { destruct (not_hash (CrossShardBodyRoot (bHeader b0))) eqn:En; [|by injection X3 as <-].
      unfold CrossShardBody_Hash in X3. apply outcome_bind_Ret in X3 as (? & _ & X3). apply outcome_bind_Ret in X3 as (? & _ & X3).
      by apply HashFromByteSlices_is_hash in X3. }
    assert ((if not_hash (RelationRoot (bHeader b0)) then Relation_Hash (bRelation b0) else Ret rc) = Ret rc) as X2'.
    { by destruct (not_hash (RelationRoot (bHeader b0))). }
    unfold fillHeader. cbn [bHeader bBody bCross bRelation with_roots BodyRoot CrossShardBodyRoot RelationRoot ReceiptRoot].
    rewrite N1, N3. cbn [mbind outcome_bind]. rewrite X2'. cbn [mbind outcome_bind]. done. }
  destruct (not_hash (blockhash b1)) eqn:En.
  - apply outcome_bind_Ret in E as (h & Eh & E). injection E as <- <-. rewrite F2. cbn [mbind outcome_bind blockhash bHeader bBody bCross bRelation].
    rewrite Eh. cbn [mbind outcome_bind]. by destruct (not_hash h).
  - injection E as <- <-. rewrite F1. cbn [mbind outcome_bind]. by rewrite En.
Qed.
Lemma Block_Hash_body b0 b hs : Block_Hash b0 = Ret (b, hs) → bCross b = bCross b0 ∧ bBody b = bBody b0 ∧
  Height (bHeader b) = Height (bHeader b0) ∧ ChainID (bHeader b) = ChainID (bHeader b0) ∧
  BlockType (bHeader b) = BlockType (bHeader b0).
Proof.
  unfold Block_Hash, fillHeader. intros (b1 & E1 & E)%outcome_bind_Ret.
  apply outcome_bind_Ret in E1 as (body & X1 & E1). apply outcome_bind_Ret in E1 as (rc & X2 & E1).
  apply outcome_bind_Ret in E1 as (cr & X3 & E1). injection E1 as <-.
  cbn [blockhash] in E. destruct (not_hash (blockhash b0)); [apply outcome_bind_Ret in E as (h & Eh & E)|]; by injection E as <- <-.
Qed.
Lemma block_read_back b bz : Block_ProtoBytes b = Ret bz → ∃ b', NewBlockFromBytes bz = Ret (Some b') ∧ bCross b' = bCross b.
Proof.
  unfold Block_ProtoBytes, MustProtoBytes, NewBlockFromBytes. destruct (marshal _) as [x|] eqn:Em; [|done]. intros [= <-].
  rewrite (unmarshal_marshal _ _ Em). eexists. split; [reflexivity|]. cbn. by destruct (bCross b).
Qed.

(** Commits never change the key ranges. *)
Lemma release_ranges rt c ks : ∀ app b app' b', foldM (release_key rt c) ks (app, b) = Ret (app', b') →
  KeyRangeTree app' = KeyRangeTree app.
Proof.
  induction ks as [|k ks IH]; intros app b app' b'; cbn [foldM]; [by intros [= <- _]|].
  destruct (release_key rt c (app, b) k) as [[app1 b1]|] eqn:E; [|done]. intros Ef. rewrite (IH _ _ _ _ Ef).
  unfold release_key in E. apply outcome_bind_Ret in E as (i & _ & E). destruct i; cbn [negb] in E; [|by injection E as <- _].
  destruct c; [|by injection E as <- _]. unfold releaseLock in E. destruct (LockedKeys app !! k).
  - destruct (PB_Set _ _ _). by injection E as <- _.
  - by injection E as <- _.
Qed.
Lemma AcceptCommitShard_ranges app bs hs c chain app' bs' r :
  AcceptCommitShard app bs [hs] [c] chain = Ret (app', bs', r, 1, 0, 0) → KeyRangeTree app' = KeyRangeTree app.
Proof.
  unfold AcceptCommitShard. cbn [commit_loop]. intros ([[app1 b1] rs] & E & E')%outcome_bind_Ret.
  assert (KeyRangeTree app1 = KeyRangeTree app) as <-.
  { apply outcome_bind_Ret in E as (blk & _ & E). apply outcome_bind_Ret in E as ([[app2 b2] code] & E2 & E).
    cbn [mbind outcome_bind] in E. injection E as -> _ _. destruct blk as [blk|]; [|by injection E2 as <- _ _].
    destruct (PrefixStore.GetState bs hs) as [st|]; [|by injection E2 as <- _ _].
    destruct (negb _); [by injection E2 as <- _ _|]. apply outcome_bind_Ret in E2 as (ws & _ & E2).
    apply outcome_bind_Ret in E2 as (cm & _ & E2). apply outcome_bind_Ret in E2 as ([app3 b3] & E3 & E2).
    injection E2 as -> _ _. by eapply release_ranges. }
  destruct (PB_WriteSync _ _) as [[d b2] [e|]]; [done|]. by injection E' as <- _ _.
Qed.

(** ** The two phases *)

Section TwoPhases.
Context (app : Application D) (bs : S) (block : Block) (chain : string) (rt : RangeTree) (b : Block) (hs bz : bytes).
Context (Htype : BlockType (bHeader block) = BLOCKTYPE_CrossShard) (Hrt : KeyRangeTree app !! chain = Some rt)
  (Hlen : length (CrossShardDatas (bCross block)) = length (CrossShardTxs (bCross block)))
  (Hdata : Forall data_ok (CrossShardDatas (bCross block)))
  (Hfree : all_unlocked app (keys_of (CrossShardTxs (bCross block))) = true)
  (Hhash : Block_Hash block = Ret (b, hs)) (Hbz : Block_ProtoBytes b = Ret bz)
  (Hkey : hs ≠ PrefixStore.height_key (Height (bHeader block)) (ChainID (bHeader block))).

(** What the block's keys are locked with after the first phase. *)
Definition locked_by (m : MemoryDB) (k : string) : option Z :=
  match memDB m !! k with
  | Some v => if RT_Search rt k then Some v else LockedKeys app !! k
  | None => LockedKeys app !! k
  end.

Lemma keys_free k : k ∈ keys_of (CrossShardTxs (bCross block)) → LockedKeys app !! k = None.
Proof.
  intros Hk. unfold all_unlocked in Hfree. rewrite forallb_forall in Hfree.
  assert (requireLock app k = true) as Hq by (by apply Hfree, list_elem_of_In, elem_of_elements).
  unfold requireLock in Hq. by destruct (LockedKeys app !! k).
Qed.

(** The first phase: locks, and what the second phase finds in the store. *)
Lemma accept_phase : ∃ m rs app1 bs1 b',
  cross_loop app (CrossShardDatas (bCross block)) 0 (CrossShardTxs (bCross block)) NewMemoryDB = Ret (m, rs) ∧
  AcceptCrossShard app bs block chain true = Ret (app1, bs1, {| Receipts := rs |}, 1, 0, 0) ∧
  DBConn app1 = DBConn app ∧ KeyRangeTree app1 = KeyRangeTree app ∧ (∀ k, LockedKeys app1 !! k = locked_by m k) ∧
  (∀ k v, memDB m !! k = Some v → k ∈ keys_of (CrossShardTxs (bCross block))) ∧
  PrefixStore.GetBlockByHash bs1 hs = inl (Some bz) ∧ PrefixStore.GetState bs1 hs = inl (Some (str_bytes "ok")) ∧
  NewBlockFromBytes bz = Ret (Some b') ∧ bCross b' = bCross block.
Proof.
  destruct (cross_loop_spec app (CrossShardTxs (bCross block)) [] (CrossShardDatas (bCross block)) NewMemoryDB Hlen Hdata)
    as (m & rs & new & E & [Hw Hr] & Dm & Hsub & Hws); [done|].
  cbn [Datatypes.app] in E. change (zlen []) with 0 in E. cbn [memDB NewMemoryDB] in Dm. rewrite dom_empty_L in Dm.
  destruct (lock_loop rt (memDB m) (elements (new ∪ ∅)) app m) as (app1 & m' & El & D1 & K1 & L1); [done|done|..].
  { intros k v. by rewrite Hr, lookup_empty. }
  { intros k Hk. apply elem_of_dom. rewrite Dm. set_solver. }
  assert (Hnew : ∀ k, bool_decide (k ∈ elements (new ∪ ∅)) = bool_decide (is_Some (memDB m !! k))).
  { intros k. apply bool_decide_ext. rewrite elem_of_elements, <- elem_of_dom, Dm. done. }
  assert (Hin : ∀ k v, memDB m !! k = Some v → k ∈ keys_of (CrossShardTxs (bCross block))).
  { intros k v Hk. apply Hsub. assert (k ∈ dom (memDB m)) by (apply elem_of_dom; eauto). set_solver. }
  destruct (PrefixStore.SetState_eq bs hs (str_bytes "ok")) as (bs0 & Es & S0 & _ & _).
  destruct (Block_Hash_body _ _ _ Hhash) as (Hc & _ & Hh & Hch & _).
  destruct (store_block_spec bs0 b b hs bz (Block_Hash_idem _ _ _ Hhash) Hbz) as (bs1 & Est & Egb & Ekeep).
  destruct (block_read_back b bz Hbz) as (b' & Eb' & Hb'). rewrite Hc in Hb'.
  exists m, rs, app1, bs1, b'. split_and!; try done.
  - unfold AcceptCrossShard. rewrite Htype. cbn [Z.eqb Pos.eqb negb BLOCKTYPE_CrossShard]. rewrite Hrt, E.
    cbn [mbind outcome_bind]. rewrite Hws. cbn [mbind outcome_bind]. rewrite El. cbn [mbind outcome_bind].
    rewrite Hhash. cbn [mbind outcome_bind]. rewrite Es. cbn [fst]. rewrite Est. done.
  - intros k. rewrite L1, Hnew. unfold locked_by. destruct (memDB m !! k) as [v|] eqn:Ek.
    + rewrite bool_decide_true, andb_true_r by eauto. by rewrite (keys_free k (Hin k v Ek)).
    + rewrite bool_decide_false, andb_false_r by (by intros []). done.
  - rewrite Ekeep by (by rewrite Hh, Hch). by rewrite PrefixStore.GetState_eq, S0, decide_True.
Qed.

(** C12. A cross-shard block none of whose keys is locked, accepted and then
    committed or aborted.  Accepting writes no account and locks exactly the
    shard's keys that the successful transactions wrote, with their new
    values.  After the second phase the locks are what they were before the
    block; on commit those values are in the accounts, on abort no account has
    changed. *)
Theorem two_phase_commit (c : bool) :
  ∃ m rs app1 bs1 app2,
    cross_loop app (CrossShardDatas (bCross block)) 0 (CrossShardTxs (bCross block)) NewMemoryDB = Ret (m, rs) ∧
    AcceptCrossShard app bs block chain true = Ret (app1, bs1, {| Receipts := rs |}, 1, 0, 0) ∧
    DBConn app1 = DBConn app ∧
    (∀ k, LockedKeys app1 !! k = match memDB m !! k with
       | Some v => if RT_Search rt k then Some v else LockedKeys app !! k
       | None => LockedKeys app !! k end) ∧
    AcceptCommitShard app1 bs1 [hs] [c] chain = Ret (app2, bs1, {| Receipts := [receipt_of c] |}, 1, 0, 0) ∧
    LockedKeys app2 = LockedKeys app ∧
    (∀ k, PrefixStore.datas (DBConn app2) (str_bytes k) = match memDB m !! k with
       | Some v => if c && RT_Search rt k then Some (Uint32ToBytes v) else PrefixStore.datas (DBConn app) (str_bytes k)
       | None => PrefixStore.datas (DBConn app) (str_bytes k) end).
Proof.
  destruct accept_phase as (m & rs & app1 & bs1 & b' & E & E1 & D1 & K1 & L1 & Hin & Egb & Hok & Eb' & Hb').
  destruct (AcceptCommitShard_spec app1 bs1 rt chain hs bz b' c) as (app2 & E2 & L2 & V2); [by rewrite K1|done..|].
  rewrite Hb' in L2, V2. exists m, rs, app1, bs1, app2. split_and!; try done.
  - apply map_eq. intros k. rewrite L2, L1. unfold touches, locked_by. destruct (memDB m !! k) as [v|] eqn:Ek.
    + rewrite (bool_decide_true _ (Hin k v Ek)), andb_true_r, (keys_free k (Hin k v Ek)). by destruct (RT_Search rt k).
    + destruct (RT_Search rt k && bool_decide (k ∈ keys_of _)) eqn:Et; [|done]. bool_to_prop. by rewrite keys_free.
  - intros k. rewrite V2, L1, D1. unfold touches, locked_by. destruct (memDB m !! k) as [v|] eqn:Ek.
    + rewrite (bool_decide_true _ (Hin k v Ek)), andb_true_r, (keys_free k (Hin k v Ek)). destruct (RT_Search rt k); [done|].
      by rewrite andb_false_r.
    + destruct (LockedKeys app !! k) as [v|] eqn:Elk; [|done].
      rewrite (bool_decide_false (k ∈ keys_of _)), !andb_false_r; [done|]. intros Hk%keys_free. congruence.
Qed.
End TwoPhases.

(** Aborting a block drops the locks of other blocks: when block A has locked
    an account and block B, which also uses the account and was therefore
    voted down, is aborted first, the commit of A leaves the account as it was
    before A; without B it writes A's value. *)
Theorem abort_drops_foreign_lock app bs rt chain hA bzA blockA hB bzB blockB k v
    (Hrt : KeyRangeTree app !! chain = Some rt)
    (HA : PrefixStore.GetBlockByHash bs hA = inl (Some bzA)) (HA' : NewBlockFromBytes bzA = Ret (Some blockA))
    (HB : PrefixStore.GetBlockByHash bs hB = inl (Some bzB)) (HB' : NewBlockFromBytes bzB = Ret (Some blockB))
    (HokA : PrefixStore.GetState bs hA = inl (Some (str_bytes "ok")))
    (HokB : PrefixStore.GetState bs hB = inl (Some (str_bytes "ok")))
    (Hlock : LockedKeys app !! k = Some v)
    (HkA : touches rt (CrossShardTxs (bCross blockA)) k = true)
    (HkB : touches rt (CrossShardTxs (bCross blockB)) k = true) :
  (∃ app1 app2 r1 r2, AcceptCommitShard app bs [hB] [false] chain = Ret (app1, bs, r1, 1, 0, 0) ∧
     LockedKeys app1 !! k = None ∧
     AcceptCommitShard app1 bs [hA] [true] chain = Ret (app2, bs, r2, 1, 0, 0) ∧
     PrefixStore.datas (DBConn app2) (str_bytes k) = PrefixStore.datas (DBConn app) (str_bytes k)) ∧
  (∃ app3 r3, AcceptCommitShard app bs [hA] [true] chain = Ret (app3, bs, r3, 1, 0, 0) ∧
     PrefixStore.datas (DBConn app3) (str_bytes k) = Some (Uint32ToBytes v)).
Proof.
  destruct (AcceptCommitShard_spec app bs rt chain hB bzB blockB false) as (app1 & E1 & L1 & V1); [done..|].
  destruct (AcceptCommitShard_spec app bs rt chain hA bzA blockA true) as (app3 & E3 & L3 & V3); [done..|].
  assert (KeyRangeTree app1 = KeyRangeTree app) as K1 by (by eapply AcceptCommitShard_ranges).
  destruct (AcceptCommitShard_spec app1 bs rt chain hA bzA blockA true) as (app2 & E2 & L2 & V2); [by rewrite K1|done..|].
  split; [exists app1, app2; eexists _, _|exists app3; eexists].
  - split; [exact E1|]. split; [by rewrite L1, HkB|]. split; [exact E2|].
    rewrite V2, L1, HkB, V1, Hlock. done.
  - split; [exact E3|]. by rewrite V3, Hlock, HkA.
Qed.
End Commit.
