(* ===== verification/BlockData.v ===== *)
(** * Block data of the consensus state

    Models [source/urd/consensus/block_datas.go]: the part sets collected per
    view and round, the parts that arrived before their proposal, and the
    cross-shard messages of the current and the two previous views.  The maps
    are allocated by [NewBlockData] and never set to nil again; pruning treats
    every key on its own, so the iteration order of the maps is immaterial.
    The logging helpers at the end of the file are left out. *)

From stdpp Require Import base list gmap strings numbers.
From Stdlib Require Import ZArith Lia.
From S2P Require Import Prelude Hash Merkle Wire Signer HotStuff UrdTypes BlockProofs CrossShard BlockPart.

Abbreviation CSMs := (gmap string CrossShardMessage).

Record BlockData := {
  retainView : Z;
  retainRound : Z;
  blocks : gmap Z (gmap Z PartSet);
  retainBlockParts : gmap Z (gmap Z (list Part));
  lastHash : gmap string bytes;
  finished : CSMs;
  j_1finished : CSMs;
  j_2finished : CSMs;
  j_cross_shard_txs : list Txs;
  j_1_cross_shard_txs : list Txs;
  j_2_cross_shard_txs : list Txs
}.

Inductive bd_error :=
| ErrOld | ErrExists | ErrNoPartSet | ErrNoBlock | ErrPart (e : part_error) | ErrGen (e : gen_error).

Definition NewBlockData (view round : Z) (last : gmap string bytes) (fin : CSMs) : BlockData :=
  {| retainView := view; retainRound := round; blocks := ∅; retainBlockParts := ∅; lastHash := last;
     finished := fin; j_1finished := ∅; j_2finished := ∅; j_cross_shard_txs := [];
     j_1_cross_shard_txs := []; j_2_cross_shard_txs := [] |}.

Definition old (bd : BlockData) (v r : Z) : bool :=
  (v <? retainView bd) || ((v =? retainView bd) && (r <? retainRound bd)).

(** [m[v][r]] and [m[v][r] = x], which allocates the inner map. *)
Definition get2 {A} (m : gmap Z (gmap Z A)) (v r : Z) : option A := m !! v ≫= λ mv, mv !! r.
Definition set2 {A} (m : gmap Z (gmap Z A)) (v r : Z) (x : A) : gmap Z (gmap Z A) :=
  <[v := <[r := x]> (default ∅ (m !! v))]> m.

Definition with_blocks (bd : BlockData) (bs : gmap Z (gmap Z PartSet)) : BlockData :=
  {| retainView := retainView bd; retainRound := retainRound bd; blocks := bs;
     retainBlockParts := retainBlockParts bd; lastHash := lastHash bd; finished := finished bd;
     j_1finished := j_1finished bd; j_2finished := j_2finished bd; j_cross_shard_txs := j_cross_shard_txs bd;
     j_1_cross_shard_txs := j_1_cross_shard_txs bd; j_2_cross_shard_txs := j_2_cross_shard_txs bd |}.
Definition with_retained (bd : BlockData) (ps : gmap Z (gmap Z (list Part))) : BlockData :=
  {| retainView := retainView bd; retainRound := retainRound bd; blocks := blocks bd;
     retainBlockParts := ps; lastHash := lastHash bd; finished := finished bd;
     j_1finished := j_1finished bd; j_2finished := j_2finished bd; j_cross_shard_txs := j_cross_shard_txs bd;
     j_1_cross_shard_txs := j_1_cross_shard_txs bd; j_2_cross_shard_txs := j_2_cross_shard_txs bd |}.

Definition append_part (bd : BlockData) (part : Part) : BlockData :=
  if old bd (ptView part) (ptRound part) then bd
  else with_retained bd (set2 (retainBlockParts bd) (ptView part) (ptRound part)
         (default [] (get2 (retainBlockParts bd) (ptView part) (ptRound part)) ++ [part])).

Definition isCrossShardMessageComplete (bd : BlockData) : bool :=
  Z.of_nat (size (finished bd)) =? Z.of_nat (size (lastHash bd)).

Section BlockData.
Context {H : HashFn} {W : UrdWire}.

Definition addPart (bd : BlockData) (part : Part) : outcome (BlockData * option bd_error) :=
  if old bd (ptView part) (ptRound part) then Ret (bd, Some ErrOld)
  else
    match get2 (blocks bd) (ptView part) (ptRound part) with
    | None => Ret (append_part bd part, Some ErrNoPartSet)
    | Some ps =>
        '(ps', err) ← AddPart ps part;
        Ret (with_blocks bd (set2 (blocks bd) (ptView part) (ptRound part) ps'), option_map ErrPart err)
    end.

(** The errors of the parts that arrived in advance are printed only. *)
Definition replay (bd : BlockData) (parts : list Part) : outcome BlockData :=
  foldM (λ bd part, fst <$> addPart bd part) parts bd.

Definition addPartSetHeader (bd : BlockData) (header : PartSetHeader) (headerHash : bytes)
    : outcome (BlockData * option bd_error) :=
  if old bd (pshView header) (pshRound header) then Ret (bd, Some ErrOld)
  else
    match get2 (blocks bd) (pshView header) (pshRound header) with
    | Some _ => Ret (bd, Some ErrExists)
    | None =>
        ps ← NewPartSet header headerHash;
        bd' ← replay (with_blocks bd (set2 (blocks bd) (pshView header) (pshRound header) ps))
                (default [] (get2 (retainBlockParts bd) (pshView header) (pshRound header)));
        Ret (bd', None)
    end.

Definition addPartSet (bd : BlockData) (parts : PartSet) : BlockData * option bd_error :=
  let v := pshView (psHeader parts) in
  let r := pshRound (psHeader parts) in
  if old bd v r then (bd, Some ErrOld)
  else
    match get2 (blocks bd) v r with
    | Some _ => (bd, Some ErrExists)
    | None => (with_blocks bd (set2 (blocks bd) v r parts), None)
    end.

(** [None] when the block cannot be split, see [PartSetFromBlock]. *)
Definition addBlock (bd : BlockData) (block : Block) (size round : Z)
    : outcome (option (BlockData * Block * PartSet * option bd_error)) :=
  p ← PartSetFromBlock block size round;
  match p with
  | None => Ret None
  | Some (block, parts) => let '(bd', err) := addPartSet bd parts in Ret (Some (bd', block, parts, err))
  end.

Definition isComplete (bd : BlockData) (view round : Z) : bool :=
  match get2 (blocks bd) view round with None => false | Some ps => IsComplete ps end.

(** [(nil, err)], [(block, nil)], or both. *)
Definition getBlock (bd : BlockData) (view round : Z) : outcome (option Block * option bd_error) :=
  match get2 (blocks bd) view round with
  | Some ps =>
      if IsComplete ps then '(b, err) ← GenBlock ps; Ret (b, option_map ErrGen err)
      else Ret (None, Some ErrNoBlock)
  | None => Ret (None, Some ErrNoBlock)
  end.

End BlockData.

(** One key of the outer map: what is left of it below [(view, round)]. *)
Definition prune_view {A} (view round v : Z) (m : gmap Z A) : option (gmap Z A) :=
  if v <? view then None
  else if v =? view then
    let m' := filter (λ '(r, _), ¬ (r < round)) m in
    if (size m' =? 0)%nat then None else Some m'
  else Some m.
Definition prune_map {A} (view round : Z) (m : gmap Z (gmap Z A)) : gmap Z (gmap Z A) :=
  map_imap (prune_view view round) m.

Definition prune (bd : BlockData) (view round : Z) : BlockData :=
  with_retained (with_blocks bd (prune_map view round (blocks bd)))
    (prune_map view round (retainBlockParts bd)).

Definition next (bd : BlockData) (view round : Z) : BlockData :=
  let bd := prune bd view round in
  {| retainView := view; retainRound := round; blocks := blocks bd; retainBlockParts := retainBlockParts bd;
     lastHash := lastHash bd; finished := ∅; j_1finished := finished bd; j_2finished := j_1finished bd;
     j_cross_shard_txs := []; j_1_cross_shard_txs := j_cross_shard_txs bd;
     j_2_cross_shard_txs := j_1_cross_shard_txs bd |}.

(** ** Lookup *)

Lemma get2_set2 {A} (m : gmap Z (gmap Z A)) v r x v' r' :
  get2 (set2 m v r x) v' r' = if decide (v' = v ∧ r' = r) then Some x else get2 m v' r'.
Proof.
  unfold get2, set2. destruct (decide (v' = v)) as [->|Hv].
  - rewrite lookup_insert_eq. cbn. destruct (decide (r' = r)) as [->|Hr].
    + rewrite lookup_insert_eq. by rewrite decide_True by done.
    + rewrite lookup_insert_ne by done. rewrite decide_False by (intros [_ ?]; done).
      destruct (m !! v) as [mv|]; cbn; [done|apply lookup_empty].
  - rewrite lookup_insert_ne by done. by rewrite decide_False by (intros [? _]; done).
Qed.

Lemma get2_set2_eq {A} (m : gmap Z (gmap Z A)) v r x : get2 (set2 m v r x) v r = Some x.
Proof. rewrite get2_set2. by rewrite decide_True. Qed.

Lemma set2_set2 {A} (m : gmap Z (gmap Z A)) v r x y : set2 (set2 m v r x) v r y = set2 m v r y.
Proof. unfold set2. rewrite lookup_insert_eq. cbn. by rewrite !insert_insert_eq. Qed.

Lemma get2_prune {A} (m : gmap Z (gmap Z A)) view round v r :
  get2 (prune_map view round m) v r =
    if (v <? view) || ((v =? view) && (r <? round)) then None else get2 m v r.
Proof.
  unfold get2, prune_map. rewrite map_lookup_imap. destruct (m !! v) as [mv|]; cbn.
  2:{ by destruct (_ || _). }
  unfold prune_view. destruct (Z.ltb_spec v view); [done|]. destruct (Z.eqb_spec v view) as [->|]; [|done].
  cbn [orb andb]. set (m' := filter (λ '(r0, _), ¬ r0 < round) mv).
  assert (m' !! r = if r <? round then None else mv !! r) as Hm'.
  { destruct (Z.ltb_spec r round).
    - apply map_lookup_filter_None. right. intros x _. lia.
    - destruct (mv !! r) as [x|] eqn:E; [|apply map_lookup_filter_None; by left].
      apply map_lookup_filter_Some. split; [done|lia]. }
  destruct (Nat.eqb_spec (size m') 0) as [E|]; cbn [mbind option_bind]; [|done].
  rewrite <- Hm'. apply map_size_empty_iff in E. by rewrite E, lookup_empty.
Qed.

(** ** Invariant

    Part sets and early parts are filed under their own view and round, none is
    older than the retained position, and part sets satisfy their invariant. *)
Section Invariant.
Context {H : HashFn} {W : UrdWire}.

Record set_ok (ps : PartSet) : Prop := {
  so_inv : ps_inv ps;
  so_root : zlen (pshRoot (psHeader ps)) = HashSize
}.

Record bd_inv (bd : BlockData) : Prop := {
  bi_blocks : ∀ v r ps, get2 (blocks bd) v r = Some ps →
    pshView (psHeader ps) = v ∧ pshRound (psHeader ps) = r ∧ old bd v r = false ∧ set_ok ps;
  bi_parts : ∀ v r l p, get2 (retainBlockParts bd) v r = Some l → p ∈ l →
    ptView p = v ∧ ptRound p = r ∧ old bd v r = false ∧ Part_ValidateBasic p = None
}.

Lemma get2_empty {A} v r : get2 (∅ : gmap Z (gmap Z A)) v r = None.
Proof. unfold get2. by rewrite lookup_empty. Qed.

Lemma NewBlockData_inv view round last fin : bd_inv (NewBlockData view round last fin).
Proof. constructor; intros v r x; cbn; rewrite get2_empty; done. Qed.

Lemma old_with_blocks bd bs v r : old (with_blocks bd bs) v r = old bd v r.
Proof. done. Qed.

Lemma with_blocks_inv bd v r ps : bd_inv bd → old bd v r = false → set_ok ps →
  pshView (psHeader ps) = v → pshRound (psHeader ps) = r → bd_inv (with_blocks bd (set2 (blocks bd) v r ps)).
Proof.
  intros I Ho Hs Hv Hr. constructor; cbn; [|apply I].
  intros v' r' ps'. rewrite get2_set2. case_decide as Hd; [|apply I].
  intros [= <-]. destruct Hd as [-> ->]. done.
Qed.

Lemma append_part_inv bd p : bd_inv bd → Part_ValidateBasic p = None → bd_inv (append_part bd p).
Proof.
  intros I Hp. unfold append_part. destruct (old bd _ _) eqn:Ho; [done|]. constructor; cbn; [apply I|].
  intros v r l q. rewrite get2_set2. case_decide as Hd; [|apply I].
  destruct Hd as [-> ->]. intros [= <-] [Hq| ->%list_elem_of_singleton]%elem_of_app; [|done].
  destruct (get2 (retainBlockParts bd) (ptView p) (ptRound p)) as [l0|] eqn:E; [|by apply not_elem_of_nil in Hq].
  by apply (bi_parts _ I _ _ _ _ E).
Qed.

Lemma addPart_inv bd p : bd_inv bd → Part_ValidateBasic p = None →
  ∃ bd' err, addPart bd p = Ret (bd', err) ∧ bd_inv bd' ∧ retainView bd' = retainView bd ∧
    retainRound bd' = retainRound bd.
Proof.
  intros I Hp. unfold addPart. destruct (old bd _ _) eqn:Ho; [by eexists _, _|].
  destruct (get2 (blocks bd) _ _) as [ps|] eqn:E.
  - destruct (bi_blocks _ I _ _ _ E) as (Hv & Hr & _ & [Hi Hroot]).
    destruct (AddPart_spec ps p Hi Hroot) as (err & Ea & _); [by apply Part_ValidateBasic_index|].
    rewrite Ea. cbn [mbind outcome_bind]. eexists _, _. split; [done|].
    split; [|done]. apply Part_ValidateBasic_index in Hp.
    destruct (AddPart_inv _ _ _ _ Hi Hroot Hp Ea) as [Hi' Hh].
    apply with_blocks_inv; try done; [|congruence..]. by constructor; [|rewrite Hh].
  - eexists _, _. split; [done|]. split; [by apply append_part_inv|]. unfold append_part. by rewrite Ho.
Qed.

Lemma replay_inv parts : ∀ bd, bd_inv bd → (∀ p, p ∈ parts → Part_ValidateBasic p = None) →
  ∃ bd', replay bd parts = Ret bd' ∧ bd_inv bd' ∧ retainView bd' = retainView bd ∧
    retainRound bd' = retainRound bd.
Proof.
  induction parts as [|p parts IH]; intros bd I Hp; [by exists bd|]. unfold replay. cbn [foldM].
  destruct (addPart_inv bd p I) as (bd1 & err & E & I1 & V1 & R1); [apply Hp; by left|]. rewrite E.
  cbn [fmap outcome_fmap fst]. destruct (IH bd1 I1) as (bd' & E' & I' & V' & R'); [intros; apply Hp; by right|].
  exists bd'. split; [done|]. split; [done|]. split; congruence.
Qed.

Lemma NewPartSet_ok h hash : PSH_ValidateBasic h = None →
  ∃ ps, NewPartSet h hash = Ret ps ∧ set_ok ps ∧ psHeader ps = h.
Proof.
  unfold PSH_ValidateBasic, NewPartSet. destruct (pshView h <? 0), (pshRound h <? 0); try done.
  destruct (pshTotal h <? 0) eqn:Et; [done|]. case_match; [done|].
  destruct (Z.eqb_spec (zlen (pshRoot h)) HashSize); [|done]. intros _. eexists. split; [done|].
  split; [|done]. constructor; [|done]. eapply (NewPartSet_inv h hash). unfold NewPartSet. by rewrite Et.
Qed.

Lemma addPartSetHeader_inv bd h hash : bd_inv bd → PSH_ValidateBasic h = None →
  ∃ bd' err, addPartSetHeader bd h hash = Ret (bd', err) ∧ bd_inv bd' ∧
    retainView bd' = retainView bd ∧ retainRound bd' = retainRound bd.
Proof.
  intros I Hh. unfold addPartSetHeader. destruct (old bd _ _) eqn:Ho; [by eexists _, _|].
  destruct (get2 (blocks bd) _ _) as [ps|] eqn:E; [by eexists _, _|].
  destruct (NewPartSet_ok h hash Hh) as (ps & -> & Hs & Hph). cbn [mbind outcome_bind].
  edestruct (replay_inv (default [] (get2 (retainBlockParts bd) (pshView h) (pshRound h))))
    as (bd' & -> & I' & V' & R'); [apply with_blocks_inv; [exact I|exact Ho|exact Hs|congruence..]|..].
  - intros p Hp. destruct (get2 (retainBlockParts bd) _ _) as [l|] eqn:El; [|by apply not_elem_of_nil in Hp].
    by apply (bi_parts _ I _ _ _ _ El).
  - cbn [mbind outcome_bind]. by eexists _, _.
Qed.

Lemma next_inv bd view round : bd_inv bd →
  bd_inv (next bd view round).
Proof.
  intros I. constructor; cbn; intros v r x; rewrite get2_prune;
    destruct ((v <? view) || ((v =? view) && (r <? round))) eqn:Ho; try done.
  - intros Hx. destruct (bi_blocks _ I v r x Hx) as (? & ? & _ & ?). done.
  - intros p Hx Hin. destruct (bi_parts _ I v r x p Hx Hin) as (? & ? & _ & ?). done.
Qed.

(** ** A proposal and its parts in any order *)

Lemma set2_id {A} (m : gmap Z (gmap Z A)) v r x : get2 m v r = Some x → set2 m v r x = m.
Proof.
  unfold get2, set2. destruct (m !! v) as [mv|] eqn:E; cbn; [|done]. intros Hx.
  rewrite (insert_id mv) by done. by apply insert_id.
Qed.

Lemma with_blocks_id bd : with_blocks bd (blocks bd) = bd.
Proof. by destruct bd. Qed.

Lemma replay_cons bd p parts : replay bd (p :: parts) = (r ← addPart bd p; replay (fst r) parts).
Proof. unfold replay. cbn [foldM]. by destruct (addPart bd p). Qed.

(** With the part set in place the parts go to it. *)
Lemma replay_present v r parts : (∀ p, p ∈ parts → ptView p = v ∧ ptRound p = r) → ∀ bd ps,
  old bd v r = false → get2 (blocks bd) v r = Some ps →
  replay bd parts = ps' ← deliver ps parts; Ret (with_blocks bd (set2 (blocks bd) v r ps')).
Proof.
  intros Hp. induction parts as [|p parts IH]; intros bd ps Ho E.
  { cbn. by rewrite set2_id, with_blocks_id. }
  destruct (Hp p) as [Hv Hr]; [by left|]. rewrite replay_cons. unfold addPart, deliver. cbn [foldM]. rewrite Hv, Hr, Ho, E.
  destruct (AddPart ps p) as [[ps1 err]|]; cbn [mbind outcome_bind fmap outcome_fmap fst]; [|done].
  rewrite (IH ltac:(intros; apply Hp; by right) _ ps1); [|done|cbn; apply get2_set2_eq]. fold (deliver ps1 parts).
  destruct (deliver ps1 parts) as [ps2|]; cbn; [|done]. by rewrite set2_set2.
Qed.

(** Without it they are kept. *)
Lemma replay_absent v r parts : (∀ p, p ∈ parts → ptView p = v ∧ ptRound p = r) → ∀ bd,
  old bd v r = false → get2 (blocks bd) v r = None →
  ∃ bd', replay bd parts = Ret bd' ∧ blocks bd' = blocks bd ∧ retainView bd' = retainView bd ∧
    retainRound bd' = retainRound bd ∧
    default [] (get2 (retainBlockParts bd') v r) = default [] (get2 (retainBlockParts bd) v r) ++ parts.
Proof.
  intros Hp. induction parts as [|p parts IH]; intros bd Ho E.
  { exists bd. by rewrite app_nil_r. }
  destruct (Hp p) as [Hv Hr]; [by left|]. rewrite replay_cons. unfold addPart. rewrite Hv, Hr, Ho, E.
  cbn [fmap outcome_fmap mbind outcome_bind fst].
  destruct (IH ltac:(intros; apply Hp; by right) (append_part bd p)) as (bd' & E' & B' & V' & R' & D');
    [unfold append_part; by rewrite Hv, Hr, Ho..|]. exists bd'. split; [done|].
  unfold append_part in B', V', R', D'. rewrite Hv, Hr, Ho in B', V', R', D'. cbn in B', V', R', D'.
  rewrite get2_set2_eq in D'. cbn in D'. rewrite <- app_assoc in D'. done.
Qed.

(** One message of a proposer: its proposal, or a part. *)
Lemma addPartSetHeader_new bd h hash ps : old bd (pshView h) (pshRound h) = false →
  get2 (blocks bd) (pshView h) (pshRound h) = None → NewPartSet h hash = Ret ps →
  (∀ p, p ∈ default [] (get2 (retainBlockParts bd) (pshView h) (pshRound h)) →
     ptView p = pshView h ∧ ptRound p = pshRound h) →
  addPartSetHeader bd h hash =
    ps' ← deliver ps (default [] (get2 (retainBlockParts bd) (pshView h) (pshRound h)));
    Ret (with_blocks bd (set2 (blocks bd) (pshView h) (pshRound h) ps'), None).
Proof.
  intros Ho E En Hp. unfold addPartSetHeader. rewrite Ho, E, En. cbn [mbind outcome_bind].
  rewrite (replay_present (pshView h) (pshRound h) _ Hp _ ps); [|done|cbn; apply get2_set2_eq].
  destruct (deliver ps _) as [ps'|]; cbn; [|done]. by rewrite set2_set2.
Qed.

Lemma deliver_app ps l1 l2 : deliver ps (l1 ++ l2) = deliver ps l1 ≫= λ ps', deliver ps' l2.
Proof. unfold deliver. apply foldM_app. Qed.

(** C21. The order in which a proposal and its parts arrive does not matter: whatever
    parts come before the proposal and whatever parts after it, every handler
    returns and the part set of the view and round is the one that results
    from receiving the proposal first and all parts then, in their order; the
    other part sets are not touched. *)
Theorem proposal_order_irrelevant bd h hash early late
  (I : bd_inv bd) (Hh : PSH_ValidateBasic h = None) (Ho : old bd (pshView h) (pshRound h) = false)
  (Hnew : get2 (blocks bd) (pshView h) (pshRound h) = None)
  (Hparts : ∀ p, p ∈ early ++ late →
     ptView p = pshView h ∧ ptRound p = pshRound h ∧ Part_ValidateBasic p = None) :
  ∃ bd1 bd2 bd3 bd2' bd3' ps,
    replay bd early = Ret bd1 ∧ addPartSetHeader bd1 h hash = Ret (bd2, None) ∧ replay bd2 late = Ret bd3 ∧
    addPartSetHeader bd h hash = Ret (bd2', None) ∧ replay bd2' (early ++ late) = Ret bd3' ∧
    blocks bd3 = blocks bd3' ∧ blocks bd3 = set2 (blocks bd) (pshView h) (pshRound h) ps.
Proof.
  set (v := pshView h) in *. set (r := pshRound h) in *.
  destruct (NewPartSet_ok h hash Hh) as (ps & En & Hs & Hph).
  destruct (replay_absent v r early) with (bd := bd) as (bd1 & E1 & B1 & V1 & R1 & D1); [|done..|].
  { intros p Hp. destruct (Hparts p) as (? & ? & _); [apply elem_of_app; by left|]. done. }
  set (l0 := default [] (get2 (retainBlockParts bd) v r)) in *.
  assert (∀ p, p ∈ l0 → ptView p = v ∧ ptRound p = r ∧ Part_ValidateBasic p = None) as Hl0.
  { intros p Hp. unfold l0 in Hp. destruct (get2 (retainBlockParts bd) v r) as [l|] eqn:El; [|by apply not_elem_of_nil in Hp].
    destruct (bi_parts _ I _ _ _ _ El Hp) as (? & ? & _ & ?). done. }
  assert (∃ psf, deliver ps (l0 ++ early ++ late) = Ret psf) as [psf Ef].
  { assert (∀ l ps, set_ok ps → (∀ p, p ∈ l → Part_ValidateBasic p = None) → ∃ ps', deliver ps l = Ret ps') as Hd.
    { induction l as [|p l IH]; intros q [Hi Hr] Hl; [by exists q|]. unfold deliver. cbn [foldM].
      destruct (AddPart_spec q p Hi Hr) as (err & Ea & _); [apply Part_ValidateBasic_index, Hl; by left|].
      rewrite Ea. cbn [mbind outcome_bind fst]. apply IH; [|intros; apply Hl; by right].
      destruct (AddPart_inv _ _ _ _ Hi Hr ltac:(apply Part_ValidateBasic_index, Hl; by left) Ea) as [Hi' Hh'].
      constructor; [exact Hi'|by rewrite Hh']. }
    apply Hd; [done|]. intros p [Hp|Hp]%elem_of_app; [by apply Hl0|by apply Hparts]. }
  rewrite !deliver_app in Ef.
  destruct (deliver ps l0) as [psa|] eqn:Ea; [|done]. cbn [mbind outcome_bind] in Ef.
  rewrite deliver_app in Ef. destruct (deliver psa early) as [psb|] eqn:Eb; [|done]. cbn [mbind outcome_bind] in Ef.
  assert (addPartSetHeader bd1 h hash = Ret (with_blocks bd1 (set2 (blocks bd1) v r psb), None)) as E2.
  { rewrite (addPartSetHeader_new bd1 h hash ps); fold v r; [|by unfold old in *; rewrite V1, R1|by rewrite B1|done|].
    - rewrite D1, deliver_app, Ea. cbn [mbind outcome_bind]. by rewrite Eb.
    - rewrite D1. intros p [Hp|Hp]%elem_of_app; [by destruct (Hl0 p Hp) as (? & ? & _)|].
      destruct (Hparts p) as (? & ? & _); [apply elem_of_app; by left|]. done. }
  assert (addPartSetHeader bd h hash = Ret (with_blocks bd (set2 (blocks bd) v r psa), None)) as E2'.
  { rewrite (addPartSetHeader_new bd h hash ps); fold v r; [|done..|].
    - fold l0. by rewrite Ea.
    - fold l0. intros p Hp. by destruct (Hl0 p Hp) as (? & ? & _). }
  eexists bd1, _, _, _, _, psf. split; [done|]. split; [exact E2|].
  rewrite (replay_present v r late) with (ps := psb).
  - rewrite Ef. cbn [mbind outcome_bind]. split; [done|]. split; [exact E2'|].
    rewrite (replay_present v r (early ++ late)) with (ps := psa); [|by intros p Hp; destruct (Hparts p Hp) as (? & ? & _)|done|apply get2_set2_eq].
    rewrite deliver_app, Eb. cbn [mbind outcome_bind]. rewrite Ef. cbn. split; [done|].
    rewrite !set2_set2, B1. done.
  - intros p Hp. destruct (Hparts p) as (? & ? & _); [apply elem_of_app; by right|]. done.
  - by unfold old in *; cbn; rewrite V1, R1.
  - cbn. apply get2_set2_eq.
Qed.

(** ** Every sequence of operations *)

Inductive bd_op :=
| OpPart (p : Part)
| OpHeader (h : PartSetHeader) (hash : bytes)
| OpSet (ps : PartSet)
| OpNext (view round : Z).

(** What reaches the block data: messages that passed [ValidateBasic], and the
    node's own part sets. *)
Definition op_ok (op : bd_op) : Prop :=
  match op with
  | OpPart p => Part_ValidateBasic p = None
  | OpHeader h _ => PSH_ValidateBasic h = None
  | OpSet ps => set_ok ps
  | OpNext _ _ => True
  end.
Definition bd_run (bd : BlockData) (op : bd_op) : outcome BlockData :=
  match op with
  | OpPart p => fst <$> addPart bd p
  | OpHeader h hash => fst <$> addPartSetHeader bd h hash
  | OpSet ps => Ret (fst (addPartSet bd ps))
  | OpNext view round => Ret (next bd view round)
  end.

Lemma addPartSet_inv bd ps : bd_inv bd → set_ok ps → bd_inv (fst (addPartSet bd ps)).
Proof.
  intros I Hs. unfold addPartSet. destruct (old bd _ _) eqn:Ho; [done|].
  destruct (get2 (blocks bd) _ _); [done|]. by apply with_blocks_inv.
Qed.

Lemma bd_run_inv bd op : bd_inv bd → op_ok op → ∃ bd', bd_run bd op = Ret bd' ∧ bd_inv bd'.
Proof.
  intros I. destruct op as [p|h hash|ps|view round]; cbn; intros Hok.
  - destruct (addPart_inv bd p I Hok) as (bd' & err & -> & ? & _). by exists bd'.
  - destruct (addPartSetHeader_inv bd h hash I Hok) as (bd' & err & -> & ? & _). by exists bd'.
  - eexists. split; [done|]. by apply addPartSet_inv.
  - eexists. split; [done|]. by apply next_inv.
Qed.

Lemma bd_runs_inv ops : ∀ bd, bd_inv bd → (∀ op, op ∈ ops → op_ok op) →
  ∃ bd', foldM bd_run ops bd = Ret bd' ∧ bd_inv bd'.
Proof.
  induction ops as [|op ops IH]; intros bd I Hok; [by exists bd|]. cbn [foldM].
  destruct (bd_run_inv bd op I) as (bd1 & -> & I1); [apply Hok; by left|]. apply IH; [done|]. intros; apply Hok; by right.
Qed.

Lemma Block_Hash_keeps b b1 hash : Block_Hash b = Ret (b1, hash) →
  hdView (bHeader b1) = hdView (bHeader b) ∧ ChainID (bHeader b1) = ChainID (bHeader b) ∧
  hd_hash (bHeader b1) = hash.
Proof.
  intros E. destruct (decide (hd_hash (bHeader b) = [])) as [N|N].
  - destruct (Block_Hash_inv b b1 hash N E) as (f & ? & ? & F & _ & _ & _ & ->). cbn.
    by rewrite (fl_view _ _ F), (fl_chain _ _ F).
  - unfold Block_Hash in E. destruct (Z.eqb_spec (zlen (hd_hash (bHeader b))) 0) as [Hz|_]; [by apply zlen_nil_inv in Hz|].
    cbn [mbind outcome_bind] in E. by injection E as <- <-.
Qed.

(** A regenerated block is the proposed one: its view, chain and hash are those
    of the part set, and its hash is cached. *)
Lemma GenBlock_ok ps b : GenBlock ps = Ret (Some b, None) →
  hdView (bHeader b) = pshView (psHeader ps) ∧ ChainID (bHeader b) = pshChainID (psHeader ps) ∧
  hd_hash (bHeader b) = BlockHeaderHash ps ∧
  ∃ b0, Block_ValidateBasic b0 = Ret None ∧ Block_Hash b0 = Ret (b, BlockHeaderHash ps).
Proof.
  unfold GenBlock. destruct (negb (IsComplete ps)); [done|]. destruct (joined ps) as [bz|]; [|done].
  cbn [mbind outcome_bind]. destruct (NewBlockFromBytes bz) as [[b0|]|]; cbn [mbind outcome_bind]; try done.
  destruct (bool_decide_reflect (ChainID (bHeader b0) ≠ pshChainID (psHeader ps))) as [|Hc]; [done|].
  destruct (Z.eqb_spec (hdView (bHeader b0)) (pshView (psHeader ps))) as [Hv|]; [|done]. cbn [negb].
  destruct (Block_ValidateBasic b0) as [[e|]|] eqn:Ev; cbn [mbind outcome_bind]; try done.
  destruct (Block_Hash b0) as [[b1 hash]|] eqn:Eh; cbn [mbind outcome_bind]; [|done].
  destruct (bytes_Equal hash (BlockHeaderHash ps)) eqn:Eb; cbn [negb]; [|done].
  intros [= <-]. apply bytes_Equal_true in Eb as ->. apply dec_stable in Hc.
  destruct (Block_Hash_keeps b0 b1 _ Eh) as (Hv' & Hc' & Hh').
  split; [congruence|]. split; [congruence|]. split; [done|]. by exists b0.
Qed.

(** Whatever valid proposals, parts, own blocks and view changes a node
    processes, in whatever order, no operation on the block data panics, part
    sets and early parts stay filed under their own view and round with the
    part set invariant, nothing older than the retained position is kept, and a
    block handed to the state machine has the view it was asked for and the
    hash of the proposal. *)
Theorem BlockData_invariant view round last fin ops
  (Hops : ∀ op, op ∈ ops → op_ok op) :
  ∃ bd, foldM bd_run ops (NewBlockData view round last fin) = Ret bd ∧ bd_inv bd ∧
    (∀ v r, old bd v r = true → get2 (blocks bd) v r = None ∧ isComplete bd v r = false) ∧
    ∀ v r b, getBlock bd v r = Ret (Some b, None) →
      ∃ ps, get2 (blocks bd) v r = Some ps ∧ hdView (bHeader b) = v ∧
        hd_hash (bHeader b) = BlockHeaderHash ps.
Proof.
  destruct (bd_runs_inv ops (NewBlockData view round last fin)) as (bd & E & I); [apply NewBlockData_inv|done|].
  exists bd. split; [done|]. split; [done|]. split.
  - intros v r Ho. unfold isComplete. destruct (get2 (blocks bd) v r) as [ps|] eqn:Eg; [|done].
    destruct (bi_blocks _ I _ _ _ Eg) as (_ & _ & Ho' & _). congruence.
  - intros v r b. unfold getBlock. destruct (get2 (blocks bd) v r) as [ps|] eqn:Eg; [|done].
    destruct (IsComplete ps); [|done]. destruct (GenBlock ps) as [[b' err]|] eqn:Egen; cbn [mbind outcome_bind]; [|done].
    destruct err; [done|]. intros [= ->]. destruct (GenBlock_ok ps b Egen) as (Hv & _ & Hh & _).
    destruct (bi_blocks _ I _ _ _ Eg) as (Hv' & _). exists ps. split; [done|]. split; [congruence|done].
Qed.

End Invariant.
