(* ===== verification/UrdDemo.v ===== *)
(** * Concrete blocks

    Instances of the wire interfaces by the structural codec of [Signer], a
    cheap hash, and two consecutive blocks of a one-shard system: [block5] with
    a prepared transaction and an output, and [block6], which commits it.  The
    witnesses of the block theorems run on them. *)

From stdpp Require Import base list gmap strings numbers.
From Stdlib Require Import ZArith Lia.
From S2P Require Import Prelude Convert BitVector Hash Merkle MerkleProofs MerkleGen Wire Signer HotStuff HotStuffProofs UrdTypes BlockProofs CrossShard BlockWire BlockPart.

(** ** Codecs *)
#[local] Instance pproof_ser : Ser PProof.
Proof.
  refine (iso_ser (λ m, (pTotal m, pIndex m, pLeafHash m, pAunts m))
    (λ '(a, b, c, d), {| pTotal := a; pIndex := b; pLeafHash := c; pAunts := d |}) _). by intros [].
Defined.
#[local] Instance ptxs_ser : Ser PTxs.
Proof. refine (iso_ser pTxs Build_PTxs _). by intros []. Defined.
#[local] Instance ptime_ser : Ser PTimestamp.
Proof. refine (iso_ser (λ m, (Seconds m, Nanos m)) (λ '(a, b), {| Seconds := a; Nanos := b |}) _). by intros []. Defined.
#[local] Instance potp_ser : Ser POutputTxsProof.
Proof.
  refine (iso_ser (λ m, (pBlockProof m, pOPTProof m)) (λ '(a, b), {| pBlockProof := a; pOPTProof := b |}) _).
  by intros [].
Defined.
#[local] Instance pagg_ser : Ser PAggregatedVote.
Proof. refine (iso_ser Demo.agg_tuple Demo.tuple_agg _). by intros []. Defined.
#[local] Instance pci_ser : Ser PCommitIntention.
Proof.
  refine (iso_ser (λ m, (pIntentionHash m, pAggregatedSignatures m))
    (λ '(a, b), {| pIntentionHash := a; pAggregatedSignatures := b |}) _). by intros [].
Defined.
#[local] Instance ppoi_ser : Ser PProofOfIntention.
Proof.
  refine (iso_ser (λ m, (pIntentionHashProof m, pRightHash m))
    (λ '(a, b), {| pIntentionHashProof := a; pRightHash := b |}) _). by intros [].
Defined.
#[local] Instance pcore_ser : Ser PCommitCertificateCore.
Proof.
  refine (iso_ser (λ m, (pcHash m, pcMKProof m, pcIntentionBrief m))
    (λ '(a, b, c), {| pcHash := a; pcMKProof := b; pcIntentionBrief := c |}) _). by intros [].
Defined.
#[local] Instance pcc_ser : Ser PCommitCertificate.
Proof. refine (iso_ser pCores Build_PCommitCertificate _). by intros []. Defined.
#[local] Instance pheader_ser : Ser PHeader.
Proof.
  refine (iso_ser (λ m, (phHashPointer m, phChainID m, phView m, phRound m, phTime m, phPrepareRoot m,
      (phOutputTxsRoot m, phLastAggSigRoot m, phCommitIntentionRoot m, phCommitCertificateRoot m,
       phCommitTxsRoot m, phStateRoot m)))
    (λ '(a, b, c, d, e, f, (g, h, i, j, k, l)), Build_PHeader a b c d e f g h i j k l) _). by intros [].
Defined.
#[local] Instance pblock_ser : Ser PBlock.
Proof.
  refine (iso_ser (λ m, (pbHeader m, pbPrepareTxs m, pbCrossShardTxs m, pbOPT m, pbAggSigVote m,
      (pbCI m, pbCC m, pbCTXS m, pbCTXSProof m)))
    (λ '(a, b, c, d, e, (f, g, h, i)), Build_PBlock a b c d e f g h i) _). by intros [].
Defined.
#[local] Instance pcsm_ser : Ser PCrossShardMessage.
Proof.
  refine (iso_ser (λ m, (pSourceChain m, pcsAggVote m, pcsIntentionBrief m, pProofOfIntention m, pOPTTxs m,
      pOutputTxsProof m))
    (λ '(a, b, c, d, e, f), Build_PCrossShardMessage a b c d e f) _). by intros [].
Defined.
#[local] Instance ppart_ser : Ser PPart.
Proof.
  refine (iso_ser (λ m, (ppView m, ppRound m, ppBytes m, ppProof m, ppChainID m))
    (λ '(a, b, c, d, e), Build_PPart a b c d e) _). by intros [].
Defined.
#[local] Instance ppsh_ser : Ser PPartSetHeader.
Proof.
  refine (iso_ser (λ m, (qshTotal m, qshRoot m, qshView m, qshRound m, qshChainID m))
    (λ '(a, b, c, d, e), Build_PPartSetHeader a b c d e) _). by intros [].
Defined.
#[local] Instance pproposal_ser : Ser PProposal.
Proof.
  refine (iso_ser (λ m, (qrHeader m, qrProposerIndex m, qrBlockHeaderHash m, qrSignature m))
    (λ '(a, b, c, d), Build_PProposal a b c d) _). by intros [].
Defined.

Definition demo_urd_wire : UrdWire := {|
  urd_votes := Demo.demo_wire; time_codec := ser_codec PTimestamp; block_codec := ser_codec PBlock;
  csm_codec := ser_codec PCrossShardMessage; ci_codec := ser_codec PCommitIntention;
  poi_codec := ser_codec PProofOfIntention |}.
Definition demo_part_wire : PartWire := {|
  part_codec := ser_codec PPart; psh_codec := ser_codec PPartSetHeader;
  proposal_codec := ser_codec PProposal |}.

(** A cheap hash. *)
Definition cheap_hash : HashFn.
Proof.
  refine {| Sum := λ bz, le_encode 32 (foldr (λ b acc, (b + 257 * acc) mod 1099511627689) 1 bz) |}.
  intros bz. unfold zlen. by rewrite length_le_encode.
Defined.

#[local] Existing Instance demo_urd_wire.
#[local] Existing Instance demo_part_wire.
#[local] Existing Instance cheap_hash.

(** ** Blocks *)
Definition get {A} (d : A) (m : outcome A) : A := match m with Ret a => a | Panic => d end.
Lemma get_Ret {A} (d : A) m : match m with Ret _ => true | Panic => false end = true → m = Ret (get d m).
Proof. by destruct m. Qed.

Definition outs5 : Txs := Some [[3; 1]; [4]].
Definition header_of (view : Z) (last : bytes) : Header :=
  {| HashPointer := last; ChainID := "s1"; hdView := view; hdRound := 0; hdTime := {| unix := 1700000000; nsec := 5 |};
     PrepareRoot := []; CrossShardRoot := []; OutputTxsRoot := []; LastAggSigRoot := []; CommitIntentionRoot := [];
     CommitCertificateRoot := []; CommitTxsListRoot := []; StateRoot := [7]; hd_hash := []; mkproof := [] |}.
Definition vote_for (last : bytes) : AggregatedVote :=
  {| aCode := 1; aView := 5; aRound := 0; aForHash := [8]; aForNecessaryData := [last]; aSign := "sig";
     aSignerIndexer := Some bv10 |}.
Definition ci5 : CommitIntention :=
  {| IntentionHash := [[9]]; AggregatedSignatures := [vote_for [9]]; ci_leftHash := []; ci_rightHash := [] |}.
(** The forged output is a prepared transaction. *)
Definition forged : Txs := Some [[66]; [66]].
Definition block5 : Block :=
  {| bHeader := header_of 5 [1]; PTXS := Some [[5; 5]; get [] (Txs_Hash forged)]; CrossShardTxs := None;
     OPT := [get [] (Txs_Hash outs5)]; AggSigVote := None; CI := Some ci5; CC := []; CTXS := []; CTXSProof := [] |}.
Definition hashed5 : Block * bytes := get (block5, []) (Block_Hash block5).
Definition hash5 : bytes := snd hashed5.
Definition ci5' : CommitIntention := match CI (fst hashed5) with Some ci => ci | None => ci5 end.
Definition poi5 : ProofOfIntention :=
  get {| IntentionHashProof := None; RightHash := [] |} (intention_proof (fst hashed5) ci5').
Definition otp5 : OutputTxsProof :=
  snd (get (block5, {| BlockProof := None; OPTProof := None |}) (GetOutputTxsProofOf (fst hashed5) 0)).

Definition block6 : Block :=
  {| bHeader := header_of 6 hash5; PTXS := None; CrossShardTxs := None; OPT := []; AggSigVote := Some (vote_for hash5);
     CI := Some {| IntentionHash := [hash5]; AggregatedSignatures := [vote_for hash5]; ci_leftHash := []; ci_rightHash := [] |};
     CC := [{| coreHash := hash5; MKProof := poi5; coreBrief := [[9]] |}];
     CTXS := [outs5]; CTXSProof := [Some otp5] |}.

Definition is_ret {A} (m : outcome A) : bool := match m with Ret _ => true | Panic => false end.
Definition is_ok {A} (m : outcome (option A)) : bool := match m with Ret None => true | _ => false end.
Lemma is_ok_eq {A} (m : outcome (option A)) : is_ok m = true → m = Ret None.
Proof. by destruct m as [[]|]. Qed.

Lemma hashed5_eq : Block_Hash block5 = Ret (fst hashed5, hash5).
Proof.
  unfold hash5, hashed5. rewrite <- surjective_pairing. apply get_Ret. vm_compute. reflexivity.
Qed.
Lemma block5_fresh : fresh block5.
Proof. constructor; try done. by intros ci [= <-]. Qed.
Lemma header_wf5 : header_wf (bHeader block5).
Proof. by split_and!. Qed.

Example block6_valid : Block_ValidateBasic block6 = Ret None.
Proof. apply is_ok_eq. vm_compute. reflexivity. Qed.

(** ** The witnesses *)
Definition crossed5 : Block := with_cross block5 (Some [[1; 2; 3]]).
Definition hashed5x : Block * bytes := get (crossed5, []) (Block_Hash crossed5).
Lemma hashed5x_eq : Block_Hash crossed5 = Ret (fst hashed5x, hash5).
Proof.
  assert (hash5 = snd hashed5x) as -> by (vm_compute; reflexivity).
  unfold hashed5x. rewrite <- surjective_pairing. apply get_Ret. vm_compute. reflexivity.
Qed.
Lemma crossed5_fresh : fresh crossed5.
Proof. constructor; try done. by intros ci [= <-]. Qed.

Lemma Block_Hash_binds_header_witness :
  BlockProofs.committed (bHeader (fst hashed5)) = BlockProofs.committed (bHeader (fst hashed5x)) ∨
  CollisionIn (block_hashed (fst hashed5)) (block_hashed (fst hashed5x)).
Proof.
  exact (Block_Hash_binds_header block5 crossed5 _ _ hash5 eq_refl eq_refl header_wf5 header_wf5
    hashed5_eq hashed5x_eq).
Defined.

Lemma Block_Hash_binds_content_witness :
  PTXS block5 = PTXS crossed5 ∨ CollisionIn (block_hashed (fst hashed5)) (block_hashed (fst hashed5x)).
Proof.
  destruct (Block_Hash_binds_content block5 crossed5 _ _ hash5 block5_fresh crossed5_fresh header_wf5 header_wf5
    hashed5_eq hashed5x_eq) as [(E & _)|E]; [left|right]; exact E.
Defined.

(** One header with two bodies. *)
Definition rooted5 : Block :=
  {| bHeader := {| HashPointer := [1]; ChainID := "s1"; hdView := 5; hdRound := 0; hdTime := {| unix := 0; nsec := 0 |};
       PrepareRoot := [1]; CrossShardRoot := []; OutputTxsRoot := [2]; LastAggSigRoot := [3]; CommitIntentionRoot := [4];
       CommitCertificateRoot := [5]; CommitTxsListRoot := [6]; StateRoot := [7]; hd_hash := []; mkproof := [] |};
     PTXS := Some [[255]]; CrossShardTxs := None; OPT := []; AggSigVote := None; CI := None; CC := []; CTXS := [];
     CTXSProof := [] |}.
Definition emptied5 : Block :=
  {| bHeader := bHeader rooted5; PTXS := None; CrossShardTxs := None; OPT := [[1]]; AggSigVote := None; CI := Some ci5;
     CC := []; CTXS := []; CTXSProof := [] |}.

Lemma Block_Hash_ignores_body_witness :
  snd <$> Block_Hash rooted5 = snd <$> Block_Hash emptied5 ∧ PTXS rooted5 ≠ PTXS emptied5.
Proof.
  split; [|discriminate]. apply (Block_Hash_ignores_body rooted5 emptied5 eq_refl). by split_and!.
Defined.

Definition bp5 : MerkleProof := match BlockProof otp5 with Some p => p | None => {| Total := 0; Index := 0; LeafHash := None; Aunts := [] |} end.
Definition op5 : MerkleProof := match OPTProof otp5 with Some p => p | None => {| Total := 0; Index := 0; LeafHash := None; Aunts := [] |} end.

Lemma OTP_Verify_sound_witness :
  (∃ t, [outs5] !! Z.to_nat (Index op5) = Some t ∧ txs_list t = txs_list outs5) ∨
  CollisionIn (otp_hashed bp5 op5 outs5) (outputs_hashed (fst hashed5) [outs5]).
Proof.
  apply (OTP_Verify_sound block5 (fst hashed5) hash5 [outs5] bp5 op5 outs5 eq_refl eq_refl);
    [vm_compute; reflexivity|exact hashed5_eq|vm_compute; reflexivity..].
Defined.

Lemma OTP_Verify_forgeable_witness : ∃ otp, OTP_Verify (Some otp) hash5 forged = Ret None.
Proof.
  apply (OTP_Verify_forgeable block5 (fst hashed5) hash5 [[5; 5]; get [] (Txs_Hash forged)] 1 forged
    (get [] (Txs_Hash forged)) eq_refl eq_refl eq_refl); [vm_compute; reflexivity|reflexivity|exact hashed5_eq].
Defined.

Definition sp5 : MerkleProof := match IntentionHashProof poi5 with Some p => p | None => bp5 end.
Definition left5 : bytes := get [] (IB_Hash [[9]]).

Lemma POI_Verify_sound_witness :
  [[9]] = IntentionHash ci5 ∨
  CollisionIn (poi_hashed sp5 [[9]] left5 (RightHash poi5)) (block_hashed (fst hashed5)).
Proof.
  apply (POI_Verify_sound block5 (fst hashed5) hash5 ci5 sp5 (RightHash poi5) [[9]] left5 block5_fresh eq_refl
    hashed5_eq); vm_compute; reflexivity.
Defined.

Lemma CSM_honest_accepted_witness :
  ∃ ci1 poi otp, CI (fst hashed5) = Some ci1 ∧ intention_proof (fst hashed5) ci1 = Ret poi ∧
    GetOutputTxsProofOf (fst hashed5) 0 = Ret (fst hashed5, otp) ∧
    CSM_ValidateBasic {| SourceChain := "s1"; csmAggVote := Some (vote_for hash5); csmBrief := GetBrief ci1;
      csmPOI := Some poi; OPTXs := outs5; csmOTP := Some otp |} = Ret None.
Proof.
  apply (CSM_honest_accepted block5 (fst hashed5) hash5 ci5 (vote_for hash5) "s1" 0 outs5 (get [] (Txs_Hash outs5))
    block5_fresh eq_refl hashed5_eq eq_refl); [vm_compute; reflexivity|reflexivity].
Defined.

Lemma Block_ValidateBasic_sound_witness :
  ∃ ci, CI block6 = Some ci ∧ zlen (IntentionHash ci) = zlen (CC block6) ∧ position_ok block6 ci 0.
Proof.
  destruct (Block_ValidateBasic_sound block6 eq_refl block6_valid) as (ci & Hci & Hl & _ & _ & _ & Hp).
  exists ci. split; [exact Hci|]. split; [exact Hl|]. apply Hp. cbn. lia.
Defined.

Lemma block6_wf : block_wf block6.
Proof.
  assert (agg_wf (vote_for hash5)) as Ha by (split; [by split|exists bv10; split; [done|apply bv10_wf]]).
  constructor.
  - by split_and!.
  - intros v [= <-]. exact Ha.
  - intros ci [= <-]. exact (Forall_cons agg_wf _ _ Ha (Forall_nil _)).
  - refine (Forall_cons _ _ _ _ (Forall_nil _)). exists sp5. split; vm_compute; [reflexivity|discriminate].
  - refine (Forall_cons _ _ _ _ (Forall_nil _)). exists bp5, op5. split_and!; vm_compute; [reflexivity|discriminate..].
Qed.

(** The block as its proposer has it, with its hash. *)
Definition hashed6 : Block * bytes := get (block6, []) (Block_Hash block6).
Lemma hashed6_eq : Block_Hash block6 = Ret (fst hashed6, snd hashed6).
Proof. unfold hashed6. rewrite <- surjective_pairing. apply get_Ret. vm_compute. reflexivity. Qed.
Definition made6 : Block := fst hashed6.
Lemma made6_computed : hash_computed made6.
Proof. right. exists block6, (snd hashed6). split; [reflexivity|exact hashed6_eq]. Qed.
Lemma made6_wf : block_wf made6.
Proof.
  destruct (Block_Hash_inv block6 made6 (snd hashed6) eq_refl hashed6_eq) as (f & ls & ps & F & _ & _ & _ & ->).
  pose proof (filled_block_wf block6 f F block6_wf) as [? ? ? ? ?]. by constructor.
Qed.
Definition sent6 : Block * bytes := get (made6, []) (Block_ProtoBytes made6).
Lemma sent6_eq : Block_ProtoBytes made6 = Ret (fst sent6, snd sent6).
Proof. unfold sent6. rewrite <- surjective_pairing. apply get_Ret. vm_compute. reflexivity. Qed.

Lemma Block_wire_roundtrip_witness : NewBlockFromBytes (snd sent6) = Ret (Some (wire_image (fst sent6))) ∧
  ∃ b2, Block_Hash (wire_image (fst sent6)) = Ret (b2, hd_hash (bHeader made6)).
Proof.
  destruct (Block_wire_roundtrip made6 _ _ made6_wf made6_computed sent6_eq) as (_ & Hd & _ & Hh).
  split; [exact Hd|]. apply Hh. vm_compute. discriminate.
Defined.

(** ** Parts of the second block *)
Definition split6 : option (Block * PartSet) := get None (PartSetFromBlock made6 1500 0).
Definition set6 : PartSet :=
  match split6 with
  | Some (_, ps) => ps
  | None => {| psHeader := {| pshView := 0; pshRound := 0; pshTotal := 0; pshRoot := []; pshChainID := "" |};
               Parts := []; psCount := 0; BlockHeaderHash := [] |}
  end.
Definition sender6 : Block := match split6 with Some (b, _) => b | None => block6 end.
Definition split_ok (m : outcome (option (Block * PartSet))) : bool :=
  match m with Ret (Some _) => true | _ => false end.
Lemma split_ok_eq m b0 ps0 : split_ok m = true →
  m = Ret (Some (match get None m with Some (b, _) => b | None => b0 end,
                 match get None m with Some (_, ps) => ps | None => ps0 end)).
Proof. by destruct m as [[[]|]|]. Qed.
Lemma split6_eq : PartSetFromBlock made6 1500 0 = Ret (Some (sender6, set6)).
Proof. unfold sender6, set6, split6. apply split_ok_eq. vm_compute. reflexivity. Qed.
(** The parts in the reverse order. *)
Definition parts6 : list Part := reverse (omap id (Parts set6)).

Lemma parts6_elem p : p ∈ parts6 ↔ Some p ∈ Parts set6.
Proof.
  unfold parts6. rewrite elem_of_reverse, list_elem_of_omap. unfold id. split; [by intros (? & ? & ->)|].
  intros Hp. by exists (Some p).
Qed.
Lemma image6_valid b' bz : Block_ProtoBytes made6 = Ret (b', bz) → Block_ValidateBasic (wire_image b') = Ret None.
Proof.
  rewrite sent6_eq. intros E. assert (b' = fst sent6) as -> by congruence. apply is_ok_eq. vm_compute. reflexivity.
Qed.

Lemma PartSet_delivery_witness :
  (2 <= length parts6)%nat ∧ ∃ ps0 ps, NewPartSet (psHeader set6) (BlockHeaderHash set6) = Ret ps0 ∧
    deliver ps0 parts6 = Ret ps ∧ IsComplete ps = true.
Proof.
  split; [vm_compute; lia|].
  destruct (PartSet_delivery made6 1500 0 sender6 set6 parts6 ltac:(lia) made6_wf made6_computed split6_eq
    (λ p, proj1 (parts6_elem p)) (λ p, proj2 (parts6_elem p)) image6_valid)
    as (ps0 & ps & b' & bz & block & E0 & E1 & _ & E2 & _).
  exists ps0, ps. split; [exact E0|]. split; [exact E1|exact E2].
Defined.

Definition chunks6 : list bytes := map (λ p, match p with Some p => ptBytes p | None => [] end) (Parts set6).
Definition received6 : PartSet := get set6 (NewPartSet (psHeader set6) (BlockHeaderHash set6)).
Lemma PartSet_sound_witness : ps_inv received6.
Proof.
  refine (proj1 (PartSet_sound (psHeader set6) (BlockHeaderHash set6) received6 chunks6 _ _ _));
    [vm_compute; reflexivity..|].
  apply reach_new. apply get_Ret. vm_compute. reflexivity.
Defined.
