(* ===== verification/CList.v ===== *)
(** * The concurrent list

    Models [source/libs/clist/clist.go].  Elements live in a heap: an element's
    address is its position, and the pointers between elements are addresses.
    A wait group together with its channel is one flag: released (done and
    closed) or not; releasing it twice panics, as [WaitGroup.Done] below zero
    and closing a closed channel do.  Every operation runs under the list's or
    the element's lock, so operations are atomic steps; a blocking operation is
    modelled by one turn of its loop, which returns or waits on the flag. *)

From stdpp Require Import base list gmap strings numbers.
From Stdlib Require Import ZArith Lia.
From S2P Require Import Prelude.

Section CList.
Context {A : Type}.

Record CElement := {
  prev : option nat;
  prevDone : bool;
  next : option nat;
  nextDone : bool;
  removed : bool;
  Value : A
}.

Record CList := {
  elems : list CElement;
  head : option nat;
  tail : option nat;
  clen : Z;
  maxLen : Z;
  waitDone : bool
}.

Definition MaxLength : Z := 2 ^ 63 - 1.

Definition with_elems (l : CList) (es : list CElement) : CList :=
  {| elems := es; head := head l; tail := tail l; clen := clen l; maxLen := maxLen l; waitDone := waitDone l |}.

(** Release a wait group and close its channel. *)
Definition release (done : bool) : outcome bool := if done then Panic else Ret true.

(** ** Elements *)

Definition elem_at (l : CList) (e : nat) : outcome CElement := deref (elems l !! e).
Definition Next (l : CList) (e : nat) : outcome (option nat) := el ← elem_at l e; Ret (next el).
Definition Prev (l : CList) (e : nat) : outcome (option nat) := el ← elem_at l e; Ret (prev el).
Definition Removed (l : CList) (e : nat) : outcome bool := el ← elem_at l e; Ret (removed el).

(** One turn of the waiting loops: [None] waits for the flag. *)
Definition NextWait (l : CList) (e : nat) : outcome (option (option nat)) :=
  el ← elem_at l e;
  if bool_decide (is_Some (next el)) || removed el then Ret (Some (next el)) else Ret None.
Definition PrevWait (l : CList) (e : nat) : outcome (option (option nat)) :=
  el ← elem_at l e;
  if bool_decide (is_Some (prev el)) || removed el then Ret (Some (prev el)) else Ret None.

Definition DetachNext (l : CList) (e : nat) : outcome CList :=
  el ← elem_at l e;
  if negb (removed el) then Panic
  else Ret (with_elems l (<[e := {| prev := prev el; prevDone := prevDone el; next := None;
    nextDone := nextDone el; removed := removed el; Value := Value el |}]> (elems l))).
Definition DetachPrev (l : CList) (e : nat) : outcome CList :=
  el ← elem_at l e;
  if negb (removed el) then Panic
  else Ret (with_elems l (<[e := {| prev := None; prevDone := prevDone el; next := next el;
    nextDone := nextDone el; removed := removed el; Value := Value el |}]> (elems l))).

(** The flag of a pointer that changes from [old] to [new]. *)
Definition regate (old new : option nat) (done : bool) : outcome bool :=
  match old, new with
  | Some _, None => Ret false
  | None, Some _ => release done
  | _, _ => Ret done
  end.

Definition SetNext (l : CList) (e : nat) (newNext : option nat) : outcome CList :=
  el ← elem_at l e;
  d ← regate (next el) newNext (nextDone el);
  Ret (with_elems l (<[e := {| prev := prev el; prevDone := prevDone el; next := newNext;
    nextDone := d; removed := removed el; Value := Value el |}]> (elems l))).
Definition SetPrev (l : CList) (e : nat) (newPrev : option nat) : outcome CList :=
  el ← elem_at l e;
  d ← regate (prev el) newPrev (prevDone el);
  Ret (with_elems l (<[e := {| prev := newPrev; prevDone := d; next := next el;
    nextDone := nextDone el; removed := removed el; Value := Value el |}]> (elems l))).

Definition SetRemoved (l : CList) (e : nat) : outcome CList :=
  el ← elem_at l e;
  pd ← (match prev el with None => release (prevDone el) | Some _ => Ret (prevDone el) end);
  nd ← (match next el with None => release (nextDone el) | Some _ => Ret (nextDone el) end);
  Ret (with_elems l (<[e := {| prev := prev el; prevDone := pd; next := next el;
    nextDone := nd; removed := true; Value := Value el |}]> (elems l))).

(** ** The list *)

Definition newWithMax (maxLength : Z) : CList :=
  {| elems := []; head := None; tail := None; clen := 0; maxLen := maxLength; waitDone := false |}.
Definition New : CList := newWithMax MaxLength.
Definition Init (l : CList) : CList :=
  {| elems := elems l; head := None; tail := None; clen := 0; maxLen := maxLen l; waitDone := false |}.

Definition Len (l : CList) : Z := clen l.
Definition Front (l : CList) : option nat := head l.
Definition Back (l : CList) : option nat := tail l.
Definition FrontWait (l : CList) : option nat := head l.
Definition BackWait (l : CList) : option nat := tail l.

Definition new_elem (v : A) : CElement :=
  {| prev := None; prevDone := false; next := None; nextDone := false; removed := false; Value := v |}.

Definition PushBack (l : CList) (v : A) : outcome (CList * nat) :=
  let e := length (elems l) in
  w ← (if clen l =? 0 then release (waitDone l) else Ret (waitDone l));
  if maxLen l <=? clen l then Panic
  else
    let l1 := {| elems := elems l ++ [new_elem v]; head := head l; tail := tail l;
                 clen := clen l + 1; maxLen := maxLen l; waitDone := w |} in
    match tail l with
    | None =>
        Ret ({| elems := elems l1; head := Some e; tail := Some e; clen := clen l1; maxLen := maxLen l1;
                waitDone := w |}, e)
    | Some t =>
        l2 ← SetPrev l1 e (Some t);
        l3 ← SetNext l2 t (Some e);
        Ret ({| elems := elems l3; head := head l3; tail := Some e; clen := clen l3; maxLen := maxLen l3;
                waitDone := w |}, e)
    end.

Definition Remove (l : CList) (e : nat) : outcome (CList * A) :=
  p ← Prev l e;
  n ← Next l e;
  if bool_decide (head l = None) || bool_decide (tail l = None) then Panic
  else if bool_decide (p = None) && bool_decide (head l ≠ Some e) then Panic
  else if bool_decide (n = None) && bool_decide (tail l ≠ Some e) then Panic
  else
    let l1 := {| elems := elems l; head := head l; tail := tail l; clen := clen l - 1; maxLen := maxLen l;
                 waitDone := if clen l =? 1 then false else waitDone l |} in
    l2 ← (match p with
          | None => Ret {| elems := elems l1; head := n; tail := tail l1; clen := clen l1;
                           maxLen := maxLen l1; waitDone := waitDone l1 |}
          | Some p' => SetNext l1 p' n
          end);
    l3 ← (match n with
          | None => Ret {| elems := elems l2; head := head l2; tail := p; clen := clen l2;
                           maxLen := maxLen l2; waitDone := waitDone l2 |}
          | Some n' => SetPrev l2 n' p
          end);
    l4 ← SetRemoved l3 e;
    el ← elem_at l4 e;
    Ret (l4, Value el).

(** Following the next pointers from the front. *)
Fixpoint walk_from (fuel : nat) (l : CList) (e : option nat) : outcome (list A) :=
  match e, fuel with
  | None, _ => Ret []
  | Some _, O => Panic
  | Some a, S fuel' => el ← elem_at l a; rest ← walk_from fuel' l (next el); Ret (Value el :: rest)
  end.

(** ** Specification

    [rep l addrs]: the chain of [l] runs through the elements [addrs]. *)
Definition prev_at (addrs : list nat) (i : nat) : option nat :=
  match i with O => None | S j => addrs !! j end.

Record linked (addrs : list nat) (i : nat) (el : CElement) : Prop := {
  lk_prev : prev el = prev_at addrs i;
  lk_next : next el = addrs !! S i;
  lk_live : removed el = false
}.

(** No wake-up is lost: a flag is released exactly when the wait is over. *)
Definition gates_ok (el : CElement) : Prop :=
  nextDone el = bool_decide (is_Some (next el)) || removed el ∧
  prevDone el = bool_decide (is_Some (prev el)) || removed el.

Record rep (l : CList) (addrs : list nat) : Prop := {
  rep_head : head l = list.head addrs;
  rep_tail : tail l = list.last addrs;
  rep_len : clen l = zlen addrs;
  rep_wait : waitDone l = bool_decide (addrs ≠ []);
  rep_max : zlen addrs ≤ maxLen l;
  rep_nodup : base.NoDup addrs;
  rep_linked : ∀ i e, addrs !! i = Some e → ∃ el, elems l !! e = Some el ∧ linked addrs i el;
  rep_gone : ∀ e el, elems l !! e = Some el → e ∉ addrs → removed el = true;
  rep_gates : ∀ e el, elems l !! e = Some el → gates_ok el
}.

(** The value stored at an address never changes. *)
Definition same_values (l l' : CList) : Prop :=
  ∀ e el, elems l !! e = Some el → ∃ el', elems l' !! e = Some el' ∧ Value el' = Value el.

Lemma same_values_refl l : same_values l l.
Proof. intros e el He. by exists el. Qed.

Lemma same_values_trans l1 l2 l3 : same_values l1 l2 → same_values l2 l3 → same_values l1 l3.
Proof.
  intros H1 H2 e el He. destruct (H1 e el He) as (el' & He' & Hv). destruct (H2 e el' He') as (el'' & ? & ?).
  exists el''. split; [done|congruence].
Qed.

Lemma same_values_insert l e el el' : elems l !! e = Some el → Value el' = Value el →
  same_values l (with_elems l (<[e := el']> (elems l))).
Proof.
  intros He Hv x el0 Hx. cbn. destruct (decide (x = e)) as [->|Hne].
  - exists el'. rewrite list_lookup_insert_eq by (by eapply lookup_lt_Some). split; [done|congruence].
  - exists el0. by rewrite list_lookup_insert_ne by done.
Qed.

Lemma rep_new m : 0 ≤ m → rep (newWithMax m) [].
Proof. intros Hm. constructor; cbn; try done; constructor. Qed.

Lemma rep_lookup l addrs i e : rep l addrs → addrs !! i = Some e →
  ∃ el, elems l !! e = Some el ∧ linked addrs i el ∧ gates_ok el.
Proof. intros R Hi. destruct (rep_linked _ _ R i e Hi) as (el & He & Hl). exists el. eauto using rep_gates. Qed.

Lemma gates_next el : gates_ok el → removed el = false → nextDone el = bool_decide (is_Some (next el)).
Proof. intros [-> _] ->. by rewrite orb_false_r. Qed.
Lemma gates_prev el : gates_ok el → removed el = false → prevDone el = bool_decide (is_Some (prev el)).
Proof. intros [_ ->] ->. by rewrite orb_false_r. Qed.

(** Redirecting a pointer of a live element keeps its flag right. *)
Lemma regate_ok old new : regate old new (bool_decide (is_Some old)) = Ret (bool_decide (is_Some new)).
Proof. by destruct old, new. Qed.

Lemma SetNext_live l e el n : elems l !! e = Some el → gates_ok el → removed el = false →
  ∃ el', SetNext l e n = Ret (with_elems l (<[e := el']> (elems l))) ∧ gates_ok el' ∧
    prev el' = prev el ∧ next el' = n ∧ removed el' = false ∧ Value el' = Value el.
Proof.
  intros He G Hr. unfold SetNext, elem_at. rewrite He. cbn [deref mbind outcome_bind].
  rewrite (gates_next el G Hr), regate_ok. cbn [mbind outcome_bind]. eexists. split; [done|].
  split_and!; try done. split; cbn; [by rewrite Hr, orb_false_r|apply G].
Qed.

Lemma SetPrev_live l e el p : elems l !! e = Some el → gates_ok el → removed el = false →
  ∃ el', SetPrev l e p = Ret (with_elems l (<[e := el']> (elems l))) ∧ gates_ok el' ∧
    prev el' = p ∧ next el' = next el ∧ removed el' = false ∧ Value el' = Value el.
Proof.
  intros He G Hr. unfold SetPrev, elem_at. rewrite He. cbn [deref mbind outcome_bind].
  rewrite (gates_prev el G Hr), regate_ok. cbn [mbind outcome_bind]. eexists. split; [done|].
  split_and!; try done. split; cbn; [apply G|by rewrite Hr, orb_false_r].
Qed.

Lemma SetRemoved_live l e el : elems l !! e = Some el → gates_ok el → removed el = false →
  ∃ el', SetRemoved l e = Ret (with_elems l (<[e := el']> (elems l))) ∧ gates_ok el' ∧
    removed el' = true ∧ Value el' = Value el.
Proof.
  intros He G Hr. unfold SetRemoved, elem_at. rewrite He. cbn [deref mbind outcome_bind].
  rewrite (gates_prev el G Hr), (gates_next el G Hr).
  destruct (prev el) as [p|] eqn:Ep, (next el) as [n|] eqn:En; cbn; eexists; (split; [done|]);
    (split; [split; cbn; by rewrite ?orb_true_r|done]).
Qed.

(** The chain after a push, from the heap's lookups: the old tail [t] points to
    the new element [e], everything else is as before. *)
Lemma rep_push l l' addrs k t t0 t1 n1 : rep l addrs → length addrs = S k → addrs !! k = Some t →
  let e := length (elems l) in
  elems l !! t = Some t0 → elems l' !! t = Some t1 → elems l' !! e = Some n1 →
  (∀ x, x ≠ t → x ≠ e → elems l' !! x = elems l !! x) →
  prev t1 = prev t0 → next t1 = Some e → removed t1 = false → gates_ok t1 →
  linked (addrs ++ [e]) (S k) n1 → gates_ok n1 →
  head l' = head l → tail l' = Some e → clen l' = zlen addrs + 1 → waitDone l' = true →
  zlen addrs < maxLen l' → rep l' (addrs ++ [e]).
Proof.
  intros R Hk Et e Ht0 Ht1 He Hother Pt Nt Rt Gt Ln Gn Hh Htl Hc Hw Hm.
  assert (e ∉ addrs) as Hfresh.
  { intros [i Hi]%list_elem_of_lookup. destruct (rep_linked _ _ R i e Hi) as (el & Hel & _).
    apply lookup_lt_Some in Hel. unfold e in Hel. lia. }
  constructor.
  - rewrite Hh, (rep_head _ _ R). by destruct addrs.
  - by rewrite last_snoc.
  - by rewrite Hc, zlen_app.
  - rewrite Hw. by destruct addrs.
  - rewrite zlen_app. change (zlen [e]) with 1. lia.
  - apply list.NoDup_app. split; [apply R|]. split; [|apply NoDup_singleton].
    intros x Hx Hx'%list_elem_of_singleton. by subst.
  - intros i x Hx. destruct (decide (i = S k)) as [->|Hik].
    { rewrite lookup_app_r, Hk, Nat.sub_diag in Hx by lia. injection Hx as <-. by exists n1. }
    apply lookup_app_Some in Hx as [Hx|[? Hx]]; [|destruct (i - length addrs)%nat eqn:Ej; [lia|done]].
    apply lookup_lt_Some in Hx as Hlt.
    destruct (rep_linked _ _ R i x Hx) as (ex & Hex & [Xp Xn Xr]).
    assert (prev_at (addrs ++ [e]) i = prev_at addrs i) as Epr.
    { destruct i as [|i]; [done|]. cbn. by rewrite lookup_app_l by lia. }
    destruct (decide (i = k)) as [->|Hi].
    + rewrite Et in Hx. injection Hx as <-. rewrite Ht0 in Hex. injection Hex as <-. exists t1.
      split; [done|]. constructor; [congruence| |done]. by rewrite Nt, lookup_app_r, Hk, Nat.sub_diag by lia.
    + exists ex. split; [rewrite Hother; [done| |]|].
      * intros ->. apply Hi. by eapply NoDup_lookup; [apply R|..].
      * intros ->. apply Hfresh. by eapply list_elem_of_lookup_2.
      * constructor; [congruence| |done]. by rewrite lookup_app_l by lia.
  - intros x ex Hx Hnin. rewrite elem_of_app, list_elem_of_singleton in Hnin.
    rewrite Hother in Hx; [apply (rep_gone _ _ R x ex Hx); tauto| |tauto].
    intros ->. apply Hnin. left. by eapply list_elem_of_lookup_2.
  - intros x ex Hx. destruct (decide (x = t)) as [->|Hxt]; [rewrite Ht1 in Hx; by injection Hx as <-|].
    destruct (decide (x = e)) as [->|Hxe]; [rewrite He in Hx; by injection Hx as <-|].
    rewrite Hother in Hx by done. by apply (rep_gates _ _ R x).
Qed.

(** The first push. *)
Lemma rep_push_empty l l' v : rep l [] → 0 < maxLen l' → let e := length (elems l) in
  elems l' = elems l ++ [new_elem v] → head l' = Some e → tail l' = Some e → clen l' = 1 →
  waitDone l' = true → rep l' [e].
Proof.
  intros R Hm e He Hh Ht Hc Hw. constructor; try done.
  - change (zlen [e]) with 1. lia.
  - apply NoDup_singleton.
  - intros [|i] x Hx; [|done]. injection Hx as <-. exists (new_elem v).
    split; [|by constructor]. rewrite He, lookup_app_r, Nat.sub_diag by (unfold e; lia). done.
  - intros x ex Hx Hnin. rewrite He in Hx. apply lookup_app_Some in Hx as [Hx|[? Hx]].
    + apply (rep_gone _ _ R x ex Hx). by apply not_elem_of_nil.
    + destruct (x - length (elems l))%nat eqn:Ex; [|done]. exfalso. apply Hnin, list_elem_of_singleton. unfold e. lia.
  - intros x ex Hx. rewrite He in Hx. apply lookup_app_Some in Hx as [Hx|[_ Hx]]; [by apply (rep_gates _ _ R x)|].
    destruct (x - length (elems l))%nat; [|done]. injection Hx as <-. done.
Qed.

Lemma PushBack_spec l addrs v : rep l addrs → zlen addrs < maxLen l →
  ∃ l', PushBack l v = Ret (l', length (elems l)) ∧ rep l' (addrs ++ [length (elems l)]) ∧
    same_values l l' ∧ maxLen l' = maxLen l ∧
    ∃ el, elems l' !! length (elems l) = Some el ∧ Value el = v.
Proof.
  intros R Hmax. set (e := length (elems l)). unfold PushBack. fold e.
  assert ((if clen l =? 0 then release (waitDone l) else Ret (waitDone l)) = Ret true) as ->.
  { rewrite (rep_len _ _ R), (rep_wait _ _ R). destruct addrs as [|a addrs]; [done|].
    rewrite zlen_cons. pose proof (zlen_nonneg addrs). destruct (Z.eqb_spec (1 + zlen addrs) 0); [lia|].
    by rewrite bool_decide_true. }
  cbn [mbind outcome_bind]. rewrite (rep_len _ _ R). destruct (Z.leb_spec (maxLen l) (zlen addrs)); [lia|].
  rewrite (rep_tail _ _ R).
  assert ((elems l ++ [new_elem v]) !! e = Some (new_elem v)) as Hnew.
  { rewrite lookup_app_r, Nat.sub_diag by (unfold e; lia). done. }
  destruct (list.last addrs) as [t|] eqn:Et.
  2:{ apply last_None in Et. subst addrs. eexists. split; [done|].
      split; [by eapply rep_push_empty|]. split; [|split; [done|by exists (new_elem v)]].
      intros x ex Hx. exists ex. cbn. split; [by apply lookup_app_l_Some|done]. }
  rewrite last_lookup in Et. set (k := Init.Nat.pred (length addrs)) in *.
  apply lookup_lt_Some in Et as Hk. assert (length addrs = S k) as Hk' by (unfold k in *; lia).
  destruct (rep_lookup _ _ _ _ R Et) as (el & Hel & [Lp Ln Lr] & G).
  assert (t < length (elems l))%nat as Htlt by (by eapply lookup_lt_Some).
  assert (e ≠ t) as Hne by (unfold e; lia).
  set (l1 := {| elems := elems l ++ [new_elem v]; head := head l; tail := Some t; clen := zlen addrs + 1;
                maxLen := maxLen l; waitDone := true |}).
  destruct (SetPrev_live l1 e (new_elem v) (Some t)) as (n1 & -> & Gn1 & Np & Nn & Nr & Nv); [done|by split|done|].
  cbn [mbind outcome_bind].
  destruct (SetNext_live (with_elems l1 (<[e:=n1]> (elems l1))) t el (Some e)) as (t1 & -> & Gt1 & Tp & Tn & Tr & Tv);
    [|done|done|]. { cbn. rewrite list_lookup_insert_ne by done. by apply lookup_app_l_Some. }
  cbn [mbind outcome_bind with_elems elems head tail clen maxLen waitDone l1].
  set (es := <[t:=t1]> (<[e:=n1]> (elems l ++ [new_elem v]))).
  assert (es !! t = Some t1) as Est.
  { unfold es. rewrite list_lookup_insert_eq; [done|]. rewrite length_insert, length_app. simpl. lia. }
  assert (es !! e = Some n1) as Ese.
  { unfold es. rewrite list_lookup_insert_ne, list_lookup_insert_eq; [done| |done].
    rewrite length_app. simpl. unfold e. lia. }
  assert (∀ x, x ≠ t → x ≠ e → es !! x = elems l !! x) as Eso.
  { intros x H1 H2. unfold es. rewrite !list_lookup_insert_ne by done.
    destruct (decide (x < length (elems l))%nat); [by rewrite lookup_app_l|].
    rewrite !lookup_ge_None_2; [done|lia|]. rewrite length_app. simpl. unfold e in H2. lia. }
  eexists. split; [done|]. split; [|split; [|split; [done|exists n1; done]]].
  - eapply (rep_push l); try done. constructor; [|by rewrite Nn, lookup_ge_None_2 by (rewrite length_app; simpl; lia)|done].
    cbn. rewrite Np, lookup_app_l by lia. done.
  - intros x ex Hx. cbn [elems]. destruct (decide (x = t)) as [->|Hxt].
    { exists t1. split; [done|]. rewrite Hel in Hx. injection Hx as <-. done. }
    assert (x ≠ e) by (apply lookup_lt_Some in Hx; unfold e; lia). exists ex. by rewrite Eso.
Qed.

(** The chain after the element at position [i] is taken out: its neighbours
    point to each other. *)
Lemma rep_remove l l' addrs i e : rep l addrs → addrs !! i = Some e →
  (∀ j x, addrs !! j = Some x → j ≠ i → ∃ el el', elems l !! x = Some el ∧ elems l' !! x = Some el' ∧
     prev el' = (if decide (j = S i) then prev_at addrs i else prev el) ∧
     next el' = (if decide (S j = i) then addrs !! S i else next el) ∧
     removed el' = false ∧ gates_ok el') →
  (∃ el', elems l' !! e = Some el' ∧ removed el' = true ∧ gates_ok el') →
  (∀ x, x ∉ addrs → elems l' !! x = elems l !! x) →
  head l' = list.head (delete i addrs) → tail l' = list.last (delete i addrs) →
  clen l' = zlen addrs - 1 → waitDone l' = bool_decide (delete i addrs ≠ []) → maxLen l' = maxLen l →
  rep l' (delete i addrs).
Proof.
  intros R Hi Hlive (e' & He' & Hr' & Ge') Hother Hh Ht Hc Hw Hm.
  apply lookup_lt_Some in Hi as Hlt. assert (zlen (delete i addrs) = zlen addrs - 1) as Hz.
  { unfold zlen. rewrite length_delete by (by exists e). lia. }
  assert (∀ j' x, delete i addrs !! j' = Some x → ∃ j, addrs !! j = Some x ∧ j ≠ i ∧
    j = if decide (j' < i)%nat then j' else S j') as Hidx.
  { intros j' x Hx. case_decide.
    - rewrite list_lookup_delete_lt in Hx by done. exists j'. split; [done|]. split; [lia|done].
    - rewrite list_lookup_delete_ge in Hx by lia. exists (S j'). split; [done|]. split; [lia|done]. }
  constructor; try done.
  - by rewrite Hz.
  - rewrite Hz, Hm. pose proof (rep_max _ _ R). lia.
  - eapply sublist_NoDup; [apply R|apply sublist_delete].
  - intros j' x Hx. destruct (Hidx j' x Hx) as (j & Hj & Hji & Ej).
    destruct (Hlive j x Hj Hji) as (el & el' & Hel & Hel' & Hp & Hn & Hr & _).
    destruct (rep_linked _ _ R j x Hj) as (el0 & Hel0 & [Lp Ln _]). rewrite Hel in Hel0. injection Hel0 as <-.
    exists el'. split; [done|]. constructor; [| |done].
    + rewrite Hp. destruct (decide (j' < i)%nat); subst j.
      * rewrite decide_False, Lp by lia. destruct j' as [|j']; [done|]. cbn. by rewrite list_lookup_delete_lt by lia.
      * destruct (decide (j' = i)) as [->|Hne].
        -- rewrite decide_True by done. destruct i as [|i]; [done|]. cbn. by rewrite list_lookup_delete_lt by lia.
        -- rewrite decide_False, Lp by lia. destruct j' as [|j']; [lia|]. cbn. by rewrite list_lookup_delete_ge by lia.
    + rewrite Hn. destruct (decide (j' < i)%nat); subst j.
      * destruct (decide (S j' = i)) as [Hs|Hs]; [by rewrite Hs, list_lookup_delete_ge by lia|].
        by rewrite Ln, list_lookup_delete_lt by lia.
      * by rewrite decide_False, Ln, list_lookup_delete_ge by lia.
  - intros x ex Hx Hnin. destruct (decide (x ∈ addrs)) as [[j Hj]%list_elem_of_lookup|Hno].
    + destruct (decide (j = i)) as [->|Hji].
      { rewrite Hi in Hj. injection Hj as <-. rewrite He' in Hx. by injection Hx as <-. }
      exfalso. apply Hnin. destruct (decide (j < i)%nat).
      * apply (list_elem_of_lookup_2 _ j). by rewrite list_lookup_delete_lt.
      * destruct j as [|j]; [lia|]. apply (list_elem_of_lookup_2 _ j). by rewrite list_lookup_delete_ge by lia.
    + rewrite Hother in Hx by done. by apply (rep_gone _ _ R x).
  - intros x ex Hx. destruct (decide (x ∈ addrs)) as [[j Hj]%list_elem_of_lookup|Hno].
    + destruct (decide (j = i)) as [->|Hji].
      { rewrite Hi in Hj. injection Hj as <-. rewrite He' in Hx. by injection Hx as <-. }
      destruct (Hlive j x Hj Hji) as (? & el' & _ & Hel' & _ & _ & _ & G). rewrite Hel' in Hx. by injection Hx as <-.
    + rewrite Hother in Hx by done. by apply (rep_gates _ _ R x).
Qed.

Lemma head_delete (addrs : list nat) i : list.head (delete i addrs) =
  if decide (i = 0)%nat then addrs !! 1%nat else list.head addrs.
Proof.
  destruct i as [|i]; [by destruct addrs as [|? [|? ?]]|]. rewrite decide_False by lia. by destruct addrs.
Qed.

Lemma last_delete (addrs : list nat) i : (i < length addrs)%nat → list.last (delete i addrs) =
  if decide (S i = length addrs) then prev_at addrs i else list.last addrs.
Proof.
  intros Hi. rewrite !last_lookup, length_delete by (by apply lookup_lt_is_Some). case_decide.
  - destruct i as [|i]; [|cbn].
    + destruct addrs as [|? [|]]; done.
    + rewrite list_lookup_delete_lt by lia. f_equal. lia.
  - rewrite list_lookup_delete_ge by lia. f_equal. lia.
Qed.

(** The element taken out and its two neighbours are three different addresses. *)
Lemma neighbours_distinct l addrs i j x y : rep l addrs → addrs !! i = Some x → addrs !! j = Some y →
  i ≠ j → x ≠ y.
Proof. intros R Hx Hy Hij ->. apply Hij. by eapply NoDup_lookup; [apply R|..]. Qed.

(** The heap after [Remove] has redirected the neighbours and marked [e]. *)
Definition cut (es : list CElement) (p n : option nat) (p1 n1 : CElement) (e : nat) (e1 : CElement)
    : list CElement :=
  let es1 := match p with Some a => <[a := p1]> es | None => es end in
  let es2 := match n with Some b => <[b := n1]> es1 | None => es1 end in
  <[e := e1]> es2.

Lemma cut_other es p n p1 n1 e e1 x : x ≠ e → p ≠ Some x → n ≠ Some x →
  cut es p n p1 n1 e e1 !! x = es !! x.
Proof.
  intros He Hp Hn. unfold cut. rewrite list_lookup_insert_ne by done.
  destruct n as [b|]; [rewrite list_lookup_insert_ne by congruence|];
    (destruct p as [a|]; [by rewrite list_lookup_insert_ne by congruence|done]).
Qed.

Lemma length_cut es p n p1 n1 e e1 : length (cut es p n p1 n1 e e1) = length es.
Proof. unfold cut. destruct n, p; cbn; by rewrite !length_insert. Qed.

Definition live (l : CList) (x : nat) (el : CElement) : Prop :=
  elems l !! x = Some el ∧ gates_ok el ∧ removed el = false.

(** The new contents of the neighbours [p1], [n1] of [e] and of [e] itself. *)
Record cut_ok (l : CList) (el p1 n1 e1 : CElement) : Prop := {
  co_prev : ∀ a a0, prev el = Some a → elems l !! a = Some a0 → prev p1 = prev a0 ∧ next p1 = next el ∧
    removed p1 = false ∧ gates_ok p1 ∧ Value p1 = Value a0;
  co_next : ∀ b b0, next el = Some b → elems l !! b = Some b0 → prev n1 = prev el ∧ next n1 = next b0 ∧
    removed n1 = false ∧ gates_ok n1 ∧ Value n1 = Value b0;
  co_removed : removed e1 = true;
  co_gates : gates_ok e1;
  co_value : Value e1 = Value el
}.

(** [Remove] as one update of the heap, for neighbours [p] and [n] of [e]. *)
Lemma Remove_cut l e el : live l e el → head l ≠ None → tail l ≠ None →
  (prev el = None → head l = Some e) → (next el = None → tail l = Some e) →
  (∀ a, prev el = Some a → a ≠ e ∧ ∃ a0, live l a a0) →
  (∀ b, next el = Some b → b ≠ e ∧ prev el ≠ Some b ∧ ∃ b0, live l b b0) →
  ∃ p1 n1 e1, Remove l e = Ret
      ({| elems := cut (elems l) (prev el) (next el) p1 n1 e e1;
          head := match prev el with None => next el | Some _ => head l end;
          tail := match next el with None => prev el | Some _ => tail l end;
          clen := clen l - 1; maxLen := maxLen l;
          waitDone := if clen l =? 1 then false else waitDone l |}, Value el) ∧
    cut_ok l el p1 n1 e1.
Proof.
  intros (He & G & Hr) Hh Ht Hp Hn La Lb. unfold Remove, Prev, Next, elem_at. rewrite He.
  cbn [deref mbind outcome_bind].
  rewrite !bool_decide_false by done. cbn [orb].
  assert (bool_decide (prev el = None) && bool_decide (head l ≠ Some e) = false) as ->.
  { destruct (prev el); [done|]. rewrite Hp by done. by rewrite (bool_decide_false (Some e ≠ Some e)) by (intros []; done). }
  assert (bool_decide (next el = None) && bool_decide (tail l ≠ Some e) = false) as ->.
  { destruct (next el); [done|]. rewrite Hn by done. by rewrite (bool_decide_false (Some e ≠ Some e)) by (intros []; done). }
  set (l1 := {| elems := elems l; head := head l; tail := tail l; clen := clen l - 1; maxLen := maxLen l;
                waitDone := if clen l =? 1 then false else waitDone l |}).
  (* the predecessor *)
  assert (∃ p1, (match prev el with
      | None => Ret {| elems := elems l1; head := next el; tail := tail l1; clen := clen l1;
                       maxLen := maxLen l1; waitDone := waitDone l1 |}
      | Some p' => SetNext l1 p' (next el)
      end) = Ret {| elems := match prev el with Some a => <[a := p1]> (elems l) | None => elems l end;
                    head := match prev el with None => next el | Some _ => head l end; tail := tail l;
                    clen := clen l - 1; maxLen := maxLen l; waitDone := waitDone l1 |} ∧
    ∀ a a0, prev el = Some a → elems l !! a = Some a0 → prev p1 = prev a0 ∧ next p1 = next el ∧
       removed p1 = false ∧ gates_ok p1 ∧ Value p1 = Value a0) as (p1 & -> & Hp1).
  { destruct (prev el) as [a|]; [|by exists el]. destruct (La a eq_refl) as (_ & a0 & Ha & Ga & Ra).
    destruct (SetNext_live l1 a a0 (next el) Ha Ga Ra) as (p1 & -> & ?). exists p1. split; [done|].
    intros ? a0' [= <-] Ha'. rewrite Ha in Ha'. injection Ha' as <-. tauto. }
  cbn [mbind outcome_bind].
  set (l2 := {| elems := match prev el with Some a => <[a := p1]> (elems l) | None => elems l end |}).
  assert (∀ x, prev el ≠ Some x → elems l2 !! x = elems l !! x) as Hl2.
  { intros x Hx. cbn. destruct (prev el) as [a|]; [|done]. by rewrite list_lookup_insert_ne by congruence. }
  (* the successor *)
  assert (∃ n1, (match next el with
      | None => Ret {| elems := elems l2; head := head l2; tail := prev el; clen := clen l2;
                       maxLen := maxLen l2; waitDone := waitDone l2 |}
      | Some n' => SetPrev l2 n' (prev el)
      end) = Ret {| elems := match next el with Some b => <[b := n1]> (elems l2) | None => elems l2 end;
                    head := head l2; tail := match next el with None => prev el | Some _ => tail l end;
                    clen := clen l - 1; maxLen := maxLen l; waitDone := waitDone l1 |} ∧
    ∀ b b0, next el = Some b → elems l !! b = Some b0 → prev n1 = prev el ∧ next n1 = next b0 ∧
       removed n1 = false ∧ gates_ok n1 ∧ Value n1 = Value b0) as (n1 & -> & Hn1).
  { destruct (next el) as [b|]; [|by exists el]. destruct (Lb b eq_refl) as (_ & Hpb & b0 & Hb & Gb & Rb).
    destruct (SetPrev_live l2 b b0 (prev el)) as (n1 & -> & ?); [by rewrite Hl2|done|done|].
    exists n1. split; [done|]. intros ? b0' [= <-] Hb'. rewrite Hb in Hb'. injection Hb' as <-. tauto. }
  cbn [mbind outcome_bind].
  set (l3 := {| elems := match next el with Some b => <[b := n1]> (elems l2) | None => elems l2 end |}).
  assert (elems l3 !! e = Some el) as He3.
  { assert (elems l2 !! e = Some el) as He2.
    { rewrite Hl2; [done|]. intros Hpe. by destruct (La e Hpe). }
    cbn. destruct (next el) as [b|]; [|done]. rewrite list_lookup_insert_ne; [done|]. by destruct (Lb b eq_refl). }
  destruct (SetRemoved_live l3 e el He3 G Hr) as (e1 & -> & Ge1 & Re1 & Ve1). cbn [mbind outcome_bind with_elems elems].
  rewrite list_lookup_insert_eq by (by eapply lookup_lt_Some). cbn [deref mbind outcome_bind].
  exists p1, n1, e1. split; [by rewrite Ve1|by constructor].
Qed.

Lemma rep_live l addrs i e : rep l addrs → addrs !! i = Some e →
  ∃ el, live l e el ∧ prev el = prev_at addrs i ∧ next el = addrs !! S i.
Proof.
  intros R Hi. destruct (rep_lookup _ _ _ _ R Hi) as (el & Hel & [Lp Ln Lr] & G). by exists el.
Qed.

(** The heap after the cut, at the other elements of the chain, at [e] and elsewhere. *)
Lemma cut_chain l addrs i e el p1 n1 e1 j x : rep l addrs → addrs !! i = Some e →
  prev el = prev_at addrs i → next el = addrs !! S i → cut_ok l el p1 n1 e1 →
  addrs !! j = Some x → j ≠ i → ∃ el0 el', elems l !! x = Some el0 ∧
    cut (elems l) (prev el) (next el) p1 n1 e e1 !! x = Some el' ∧
    prev el' = (if decide (j = S i) then prev_at addrs i else prev el0) ∧
    next el' = (if decide (S j = i) then addrs !! S i else next el0) ∧
    removed el' = false ∧ gates_ok el' ∧ Value el' = Value el0.
Proof.
  intros R Hi Ep En C Hj Hji. destruct (rep_live _ _ _ _ R Hj) as (x0 & (Hx0 & Gx & Rx) & Xp & Xn).
  apply lookup_lt_Some in Hx0 as Hxlt.
  assert (x ≠ e) as Hxe by (by eapply neighbours_distinct).
  exists x0. destruct (decide (j = S i)) as [->|Hnj]; [|destruct (decide (S j = i)) as [<-|Hnj']].
  - exists n1. rewrite decide_False by lia. rewrite <- En in Hj.
    destruct (co_next _ _ _ _ _ C x x0 Hj Hx0) as (? & ? & ? & ? & ?).
    split; [done|]. split; [|split_and!; congruence].
    unfold cut. rewrite Hj, list_lookup_insert_ne by done. apply list_lookup_insert_eq.
    destruct (prev el); rewrite ?length_insert; done.
  - exists p1. cbn in Ep. rewrite Hj in Ep. destruct (co_prev _ _ _ _ _ C x x0 Ep Hx0) as (? & ? & ? & ? & ?).
    split; [done|]. split; [|split_and!; congruence].
    unfold cut. rewrite Ep, list_lookup_insert_ne by done.
    destruct (next el) as [b|] eqn:Eb; [|by apply list_lookup_insert_eq].
    rewrite list_lookup_insert_ne; [by apply list_lookup_insert_eq|].
    symmetry in En. apply not_eq_sym. by eapply (neighbours_distinct l addrs j (S (S j))); [..|lia].
  - exists x0. split; [done|]. split; [|done]. rewrite cut_other; [done|done| |].
    + rewrite Ep. intros Hc. destruct i as [|i]; [done|]. cbn in Hc.
      apply Hnj'. f_equal. eapply NoDup_lookup; [apply R|done..].
    + rewrite En. intros Hc. apply Hnj. eapply NoDup_lookup; [apply R|done..].
Qed.

Lemma cut_self es p n p1 n1 e e1 : (e < length es)%nat → cut es p n p1 n1 e e1 !! e = Some e1.
Proof. intros He. unfold cut. apply list_lookup_insert_eq. destruct p, n; by rewrite ?length_insert. Qed.

Lemma cut_outside addrs i e el es p1 n1 e1 x : addrs !! i = Some e →
  prev el = prev_at addrs i → next el = addrs !! S i → x ∉ addrs →
  cut es (prev el) (next el) p1 n1 e e1 !! x = es !! x.
Proof.
  intros Hi Ep En Hx. apply cut_other; [intros ->; apply Hx; by eapply list_elem_of_lookup_2| |].
  - rewrite Ep. intros Hc. destruct i as [|i]; [done|]. apply Hx. by eapply list_elem_of_lookup_2.
  - rewrite En. intros Hc. apply Hx. by eapply list_elem_of_lookup_2.
Qed.

(** The ends and the waiting flag after the cut. *)
Lemma cut_ends l addrs i e : rep l addrs → addrs !! i = Some e →
  match prev_at addrs i with None => addrs !! S i | Some _ => head l end = list.head (delete i addrs) ∧
  match addrs !! S i with None => prev_at addrs i | Some _ => tail l end = list.last (delete i addrs) ∧
  (if clen l =? 1 then false else waitDone l) = bool_decide (delete i addrs ≠ []).
Proof.
  intros R Hi. apply lookup_lt_Some in Hi as Hlt. split_and!.
  - rewrite head_delete, (rep_head _ _ R). destruct i as [|i]; [done|].
    rewrite decide_False by lia. cbn. by destruct (lookup_lt_is_Some_2 addrs i ltac:(lia)) as [? ->].
  - rewrite last_delete, (rep_tail _ _ R) by done. case_decide.
    + by rewrite lookup_ge_None_2 by lia.
    + by destruct (lookup_lt_is_Some_2 addrs (S i) ltac:(lia)) as [? ->].
  - rewrite (rep_len _ _ R), (rep_wait _ _ R). destruct (Z.eqb_spec (zlen addrs) 1) as [H1|H1].
    + rewrite bool_decide_false; [done|]. intros Hd. apply Hd, nil_length_inv.
      rewrite length_delete by (by exists e). unfold zlen in H1. lia.
    + rewrite !bool_decide_true; [done| |by destruct addrs].
      intros Hd%(f_equal length). rewrite length_delete in Hd by (by exists e). simpl in Hd. unfold zlen in H1. lia.
Qed.

(** The neighbours of a chained element meet the conditions of [Remove_cut]. *)
Lemma Remove_chained l addrs i e el : rep l addrs → addrs !! i = Some e → live l e el →
  prev el = prev_at addrs i → next el = addrs !! S i →
  ∃ p1 n1 e1, Remove l e = Ret
      ({| elems := cut (elems l) (prev el) (next el) p1 n1 e e1;
          head := match prev el with None => next el | Some _ => head l end;
          tail := match next el with None => prev el | Some _ => tail l end;
          clen := clen l - 1; maxLen := maxLen l;
          waitDone := if clen l =? 1 then false else waitDone l |}, Value el) ∧ cut_ok l el p1 n1 e1.
Proof.
  intros R Hi Lel Ep En. apply lookup_lt_Some in Hi as Hlt.
  assert (∀ j x, addrs !! j = Some x → j ≠ i → x ≠ e) as Hdist by (intros; by eapply neighbours_distinct).
  apply Remove_cut; [done|..].
  - rewrite (rep_head _ _ R). by destruct addrs.
  - rewrite (rep_tail _ _ R). intros ->%last_None. done.
  - rewrite Ep, (rep_head _ _ R). destruct i as [|i]; [by destruct addrs|]. cbn. intros Hn%lookup_ge_None_1. lia.
  - rewrite En, (rep_tail _ _ R), last_lookup. intros Hn%lookup_ge_None_1. rewrite <- Hi. f_equal. lia.
  - rewrite Ep. intros a Ha. destruct i as [|i]; [done|]. cbn in Ha.
    split; [apply (Hdist i); [done|lia]|]. destruct (rep_live _ _ _ _ R Ha) as (a0 & ? & _). by exists a0.
  - rewrite Ep, En. intros b Hb. split; [apply (Hdist (S i)); [done|lia]|]. split.
    + destruct i as [|i]; [done|]. cbn. intros Ha. eapply (neighbours_distinct l addrs i (S (S i)) b b R Ha Hb); [lia|done].
    + destruct (rep_live _ _ _ _ R Hb) as (b0 & ? & _). by exists b0.
Qed.

Lemma Remove_spec l addrs i e : rep l addrs → addrs !! i = Some e →
  ∃ l' el, elems l !! e = Some el ∧ Remove l e = Ret (l', Value el) ∧ rep l' (delete i addrs) ∧
    same_values l l' ∧ maxLen l' = maxLen l.
Proof.
  intros R Hi. destruct (rep_live _ _ _ _ R Hi) as (el & Lel & Ep & En).
  destruct (Remove_chained l addrs i e el R Hi Lel Ep En) as (p1 & n1 & e1 & E & C).
  destruct (cut_ends l addrs i e R Hi) as (Eh & Et & Ew).
  eexists _, el. split; [apply Lel|]. split; [exact E|].
  destruct Lel as [Hel _]. apply lookup_lt_Some in Hel as Helt.
  split; [|split; [|done]].
  - eapply (rep_remove l); cbn [elems head tail clen waitDone maxLen]; try done.
    + intros j x Hj Hji.
      destruct (cut_chain _ _ _ _ _ _ _ _ j x R Hi Ep En C Hj Hji) as (el0 & el' & ? & ? & ? & ? & ? & ? & _).
      by exists el0, el'.
    + exists e1. split; [by apply cut_self|]. split; apply C.
    + intros x Hx. by eapply cut_outside.
    + by rewrite Ep, En.
    + by rewrite Ep, En.
    + by rewrite (rep_len _ _ R).
  - intros x ex Hx. cbn [elems]. destruct (decide (x ∈ addrs)) as [[j Hj]%list_elem_of_lookup|Hno];
      [|exists ex; split; [by erewrite cut_outside|done]].
    destruct (decide (j = i)) as [->|Hji].
    + rewrite Hi in Hj. injection Hj as <-. exists e1. rewrite Hel in Hx. injection Hx as <-.
      split; [by apply cut_self|apply C].
    + destruct (cut_chain _ _ _ _ _ _ _ _ j x R Hi Ep En C Hj Hji) as (el0 & el' & Hel0 & ? & _ & _ & _ & _ & ?).
      rewrite Hel0 in Hx. injection Hx as <-. by exists el'.
Qed.

(** A removed element may be detached. *)
Lemma rep_detach l addrs e el el' : rep l addrs → elems l !! e = Some el → removed el = true →
  removed el' = true → gates_ok el' → rep (with_elems l (<[e := el']> (elems l))) addrs.
Proof.
  intros R He Hr Hr' G'.
  assert (e ∉ addrs) as Hno.
  { intros [i Hi]%list_elem_of_lookup. destruct (rep_lookup _ _ _ _ R Hi) as (x & Hx & [_ _ Lr] & _). congruence. }
  apply lookup_lt_Some in He as Hlt. destruct R as [R1 R2 R3 R4 R5 R6 R7 R8 R9].
  constructor; cbn; try done.
  - intros i x Hx. destruct (R7 i x Hx) as (ex & Hex & Lx). exists ex. split; [|done].
    rewrite list_lookup_insert_ne; [done|]. intros ->. apply Hno. by eapply list_elem_of_lookup_2.
  - intros x ex Hx Hnin. apply list_lookup_insert_Some in Hx as [(_ & -> & _)|[_ Hx]]; [done|by apply (R8 x)].
  - intros x ex Hx. apply list_lookup_insert_Some in Hx as [(_ & -> & _)|[_ Hx]]; [done|by apply (R9 x)].
Qed.

Lemma DetachNext_rep l addrs e l' : rep l addrs → DetachNext l e = Ret l' →
  rep l' addrs ∧ same_values l l'.
Proof.
  unfold DetachNext, elem_at. intros R E. destruct (elems l !! e) as [el|] eqn:He; [|done].
  cbn [deref mbind outcome_bind] in E. destruct (removed el) eqn:Hr; [|done]. injection E as <-.
  split; [eapply rep_detach; [done..|]|by eapply same_values_insert].
  destruct (rep_gates _ _ R e el He) as [G1 G2]. rewrite Hr, !orb_true_r in *. split; cbn; by rewrite ?orb_true_r.
Qed.

Lemma DetachPrev_rep l addrs e l' : rep l addrs → DetachPrev l e = Ret l' →
  rep l' addrs ∧ same_values l l'.
Proof.
  unfold DetachPrev, elem_at. intros R E. destruct (elems l !! e) as [el|] eqn:He; [|done].
  cbn [deref mbind outcome_bind] in E. destruct (removed el) eqn:Hr; [|done]. injection E as <-.
  split; [eapply rep_detach; [done..|]|by eapply same_values_insert].
  destruct (rep_gates _ _ R e el He) as [G1 G2]. rewrite Hr, !orb_true_r in *. split; cbn; by rewrite ?orb_true_r.
Qed.

(** ** The list against its abstract contents

    The contents are the addresses and values in order. *)
Definition contents (l : CList) (xs : list (nat * A)) : Prop :=
  rep l (map fst xs) ∧ ∀ e v, (e, v) ∈ xs → ∃ el, elems l !! e = Some el ∧ Value el = v.

Lemma contents_same l l' (xs : list (nat * A)) : same_values l l' →
  (∀ e v, (e, v) ∈ xs → ∃ el, elems l !! e = Some el ∧ Value el = v) →
  ∀ e v, (e, v) ∈ xs → ∃ el, elems l' !! e = Some el ∧ Value el = v.
Proof.
  intros S Hv e v Hin. destruct (Hv e v Hin) as (el & He & <-). destruct (S e el He) as (el' & ? & ?). by exists el'.
Qed.

Lemma map_fst_delete (xs : list (nat * A)) i : map fst (delete i xs) = delete i (map fst xs).
Proof. revert i; induction xs as [|x xs IH]; intros [|i]; cbn; [done..|]. by rewrite IH. Qed.

Lemma contents_push l xs v : contents l xs → zlen xs < maxLen l →
  ∃ l', PushBack l v = Ret (l', length (elems l)) ∧ contents l' (xs ++ [(length (elems l), v)]) ∧
    maxLen l' = maxLen l.
Proof.
  intros [R Hv] Hm. destruct (PushBack_spec l (map fst xs) v R) as (l' & E & R' & S & M & el & He & Hval).
  { unfold zlen. by rewrite length_map. }
  exists l'. split; [done|]. split; [|done]. split; [by rewrite map_app|].
  intros e w [Hin|Hin%list_elem_of_singleton]%elem_of_app; [by eapply contents_same|].
  injection Hin as -> ->. by exists el.
Qed.

Lemma contents_remove l xs i e v : contents l xs → xs !! i = Some (e, v) →
  ∃ l', Remove l e = Ret (l', v) ∧ contents l' (delete i xs) ∧ maxLen l' = maxLen l.
Proof.
  intros [R Hv] Hi. destruct (Remove_spec l (map fst xs) i e R) as (l' & el & He & E & R' & S & M).
  { change (map fst xs) with (fst <$> xs). by rewrite list_lookup_fmap, Hi. }
  destruct (Hv e v) as (el' & He' & Hval); [by eapply list_elem_of_lookup_2|].
  rewrite He in He'. injection He' as <-. exists l'. split; [by rewrite E, Hval|]. split; [|done].
  split; [by rewrite map_fst_delete|].
  intros x w Hin. eapply contents_same; [done|done|]. eapply elem_of_submseteq; [done|].
  apply sublist_submseteq, sublist_delete.
Qed.

Lemma walk_spec l xs : contents l xs →
  walk_from (length xs) l (Front l) = Ret (map snd xs).
Proof.
  intros [R Hv]. unfold Front. rewrite (rep_head _ _ R).
  cut (∀ ys zs, xs = zs ++ ys → walk_from (length ys) l (map fst xs !! length zs) = Ret (map snd ys)).
  { intros Hg. specialize (Hg xs [] eq_refl). cbn in Hg. by destruct (map fst xs). }
  assert (∀ zs ys : list (nat * A), map fst (zs ++ ys) !! length zs = list.head (map fst ys)) as Hhead.
  { intros zs ys. rewrite map_app, lookup_app_r, length_map, Nat.sub_diag by (by rewrite length_map). by destruct ys. }
  induction ys as [|[e v] ys IH]; intros zs E; rewrite E, Hhead; [done|]. cbn [map list.head walk_from length fst].
  assert (xs !! length zs = Some (e, v)) as Hx by (by rewrite E, lookup_app_r, Nat.sub_diag by lia).
  destruct (rep_linked _ _ R (length zs) e) as (el & He & [_ Ln _]).
  { change (map fst xs) with (fst <$> xs). by rewrite list_lookup_fmap, Hx. }
  destruct (Hv e v) as (el' & He' & Hval); [by eapply list_elem_of_lookup_2|].
  rewrite He in He'. injection He' as <-. unfold elem_at. rewrite He. cbn [deref mbind outcome_bind].
  rewrite Ln. specialize (IH (zs ++ [(e, v)])). rewrite length_app, Nat.add_1_r in IH.
  rewrite IH by (by rewrite E, <- app_assoc). cbn. by rewrite Hval.
Qed.

(** The states a list reaches, with its abstract contents: pushes, removals of
    listed elements and detaching of removed ones. *)
Inductive clist_reach : CList → list (nat * A) → Prop :=
| cr_new m : 0 ≤ m → clist_reach (newWithMax m) []
| cr_push l xs v l' e : clist_reach l xs → PushBack l v = Ret (l', e) → clist_reach l' (xs ++ [(e, v)])
| cr_remove l xs i e v w l' : clist_reach l xs → xs !! i = Some (e, v) → Remove l e = Ret (l', w) →
    clist_reach l' (delete i xs)
| cr_detach_next l xs e l' : clist_reach l xs → DetachNext l e = Ret l' → clist_reach l' xs
| cr_detach_prev l xs e l' : clist_reach l xs → DetachPrev l e = Ret l' → clist_reach l' xs.

Lemma PushBack_max l xs v l' e : contents l xs → PushBack l v = Ret (l', e) → zlen xs < maxLen l.
Proof.
  intros [R _] E. unfold PushBack in E. rewrite (rep_len _ _ R) in E.
  destruct (if zlen (map fst xs) =? 0 then _ else _); [|done]. cbn [mbind outcome_bind] in E.
  destruct (Z.leb_spec (maxLen l) (zlen (map fst xs))) as [|Hm]; [done|]. unfold zlen in Hm. by rewrite length_map in Hm.
Qed.

Lemma clist_reach_contents l xs : clist_reach l xs → contents l xs.
Proof.
  induction 1 as [m Hm|l xs v l' e _ C E|l xs i e v w l' _ C Hi E|l xs e l' _ [R Hv] E|l xs e l' _ [R Hv] E].
  - split; [by apply rep_new|]. intros e v Hin. by apply not_elem_of_nil in Hin.
  - destruct (contents_push l xs v C) as (l1 & E1 & C1 & _); [by eapply PushBack_max|].
    rewrite E in E1. injection E1 as -> ->. done.
  - destruct (contents_remove l xs i e v C Hi) as (l1 & E1 & C1 & _). rewrite E in E1. by injection E1 as <- _.
  - destruct (DetachNext_rep l _ e l' R E) as [? ?]. split; [done|by eapply contents_same].
  - destruct (DetachPrev_rep l _ e l' R E) as [? ?]. split; [done|by eapply contents_same].
Qed.

(** C26. In every reachable list, following the next pointers from the front visits
    exactly the abstract contents in order; a push below the maximal length
    appends (and panics exactly at it), removing any listed element succeeds
    and returns its value; and no wake-up is lost: the flag a waiter of an
    element (or of the list) sleeps on is released exactly when its wait is
    over. *)
Theorem CList_refines_list l xs (Hr : clist_reach l xs) :
  walk_from (length xs) l (Front l) = Ret (map snd xs) ∧ Len l = zlen xs ∧
  (∀ v, if decide (zlen xs < maxLen l)
        then ∃ l' e, PushBack l v = Ret (l', e) ∧ clist_reach l' (xs ++ [(e, v)])
        else PushBack l v = Panic) ∧
  (∀ i e v, xs !! i = Some (e, v) → ∃ l', Remove l e = Ret (l', v) ∧ clist_reach l' (delete i xs)) ∧
  (∀ e el, elems l !! e = Some el → (nextDone el = false ↔ NextWait l e = Ret None) ∧
     (prevDone el = false ↔ PrevWait l e = Ret None)) ∧
  (waitDone l = false ↔ FrontWait l = None) ∧ (waitDone l = false ↔ BackWait l = None).
Proof.
  pose proof (clist_reach_contents l xs Hr) as C. pose proof C as [R _].
  split; [by apply walk_spec|]. split; [unfold Len; rewrite (rep_len _ _ R); unfold zlen; by rewrite length_map|].
  split; [|split; [|split]].
  - intros v. case_decide as Hm.
    + destruct (contents_push l xs v C Hm) as (l' & E & _). eexists _, _. split; [done|by eapply cr_push].
    + destruct (PushBack l v) as [[l' e]|] eqn:E; [|done]. by apply (PushBack_max l xs v l' e C) in E.
  - intros i e v Hi. destruct (contents_remove l xs i e v C Hi) as (l' & E & _). exists l'.
    split; [done|by eapply cr_remove].
  - intros e el He. destruct (rep_gates _ _ R e el He) as [-> ->]. unfold NextWait, PrevWait, elem_at.
    rewrite He. cbn [deref mbind outcome_bind].
    split; [destruct (bool_decide (is_Some (next el)) || removed el)|
            destruct (bool_decide (is_Some (prev el)) || removed el)]; done.
  - unfold FrontWait, BackWait. rewrite (rep_wait _ _ R), (rep_head _ _ R), (rep_tail _ _ R), bool_decide_eq_false, last_None.
    destruct (map fst xs); naive_solver.
Qed.

End CList.

Arguments CList : clear implicits.
Arguments CElement : clear implicits.

Lemma CList_refines_list_witness :
  match PushBack (newWithMax 3) 7 with
  | Ret (l, e) => clist_reach l [(e, 7)] ∧ walk_from 1 l (Front l) = Ret [7]
  | Panic => False
  end.
Proof.
  assert (clist_reach (newWithMax 3) (@nil (nat * Z))) as H0 by (by apply cr_new).
  destruct (PushBack (newWithMax 3) 7) as [[l e]|] eqn:E; [|by vm_compute in E].
  pose proof (cr_push _ _ _ _ _ H0 E) as H1. split; [exact H1|].
  exact (proj1 (CList_refines_list l _ H1)).
Defined.
