(* ===== verification/Mempool.v ===== *)
(** * Mempools

    Models [source/urd/mempool/mempool.go] and [source/pyramid/mempool/mempool.go]:
    a concurrent list of transactions and a map from transaction keys to list
    elements.  The two differ in the key of a transaction, in what [ReapTx]
    collects and in [Update]; the shared operations are generic in the key.  The
    application is a parameter: [ValidateTx] and [CheckLock] of [ABCIConn]. *)

From stdpp Require Import base list gmap strings numbers.
From Stdlib Require Import ZArith Lia.
From S2P Require Import Prelude BitVector Hash CList Receipt.

(** [hex.EncodeToString]. *)
Definition hex_digit (n : Z) : Ascii.ascii :=
  Ascii.ascii_of_N (Z.to_N (if n <? 10 then 48 + n else 87 + n)).
Fixpoint hex_encode (bz : bytes) : string :=
  match bz with
  | [] => EmptyString
  | b :: rest => String (hex_digit (b / 16)) (String (hex_digit (b mod 16)) (hex_encode rest))
  end.

(** [types.TxKey] of [source/urd/types/txs.go]. *)
Definition TxKey {H : HashFn} (tx : bytes) : string := hex_encode (TxHash tx).
(** [Tx.Key] of [source/pyramid/types/tx.go]. *)
Definition Tx_Key (tx : bytes) : string := bytes_str tx.

Record Mempool := {
  txs : CList bytes;
  txsMap : gmap string nat;
  isCrossShardMempool : bool
}.

Definition NewMempool (isCrossShard : bool) : Mempool :=
  {| txs := New; txsMap := ∅; isCrossShardMempool := isCrossShard |}.

Section Mempool.
Context (key : bytes → string).

(** [true] is a nil error. *)
Definition add_tx (ValidateTx : bytes → bool → outcome bool) (mpl : Mempool) (tx : bytes) : outcome (Mempool * bool) :=
  ok ← ValidateTx tx (isCrossShardMempool mpl);
  if negb ok then Ret (mpl, false)
  else
    '(l, e) ← PushBack (txs mpl) tx;
    Ret ({| txs := l; txsMap := <[key tx := e]> (txsMap mpl);
            isCrossShardMempool := isCrossShardMempool mpl |}, true).

Definition remove_tx (mpl : Mempool) (tx : bytes) : outcome Mempool :=
  match txsMap mpl !! key tx with
  | None => Ret mpl
  | Some u =>
      '(l, _) ← Remove (txs mpl) u;
      Ret {| txs := l; txsMap := delete (key tx) (txsMap mpl);
             isCrossShardMempool := isCrossShardMempool mpl |}
  end.

Definition remove_txs (mpl : Mempool) (l : list bytes) : outcome Mempool := foldM remove_tx l mpl.

(** ** Specification

    The pool holds the transactions [xs] (with their list elements) in order;
    the index points to listed elements with the right key. *)
Record pool (mpl : Mempool) (xs : list (nat * bytes)) : Prop := {
  pool_list : contents (txs mpl) xs;
  pool_map : ∀ k e, txsMap mpl !! k = Some e → ∃ tx, (e, tx) ∈ xs ∧ key tx = k
}.
(** Every transaction held is indexed, so no two have the same key. *)
Definition indexed (mpl : Mempool) (xs : list (nat * bytes)) : Prop :=
  ∀ e tx, (e, tx) ∈ xs → txsMap mpl !! key tx = Some e.

Lemma pool_new isCross : pool (NewMempool isCross) [].
Proof.
  constructor; [|intros k e He; change ((∅ : gmap string nat) !! k = Some e) in He; by apply lookup_empty_Some in He].
  split; [by apply rep_new|]. intros e v Hin. by apply not_elem_of_nil in Hin.
Qed.

Lemma contents_NoDup (l : CList bytes) xs : contents l xs → base.NoDup (map fst xs).
Proof. intros [R _]. apply R. Qed.

Lemma contents_unique (l : CList bytes) xs e tx tx' : contents l xs → (e, tx) ∈ xs → (e, tx') ∈ xs → tx = tx'.
Proof.
  intros [_ Hv] H1 H2. destruct (Hv e tx H1) as (el & He & <-). destruct (Hv e tx' H2) as (el' & He' & <-).
  rewrite He in He'. by injection He' as <-.
Qed.

Lemma contents_fresh (l : CList bytes) xs : contents l xs → length (elems l) ∉ map fst xs.
Proof.
  intros C Hin. apply list_elem_of_fmap in Hin as ([e v] & Hl & Hin). destruct C as [_ Hv].
  destruct (Hv e v Hin) as (el & He & _). apply lookup_lt_Some in He. cbn in Hl. lia.
Qed.

Lemma add_tx_spec ValidateTx mpl xs tx ok : pool mpl xs → zlen xs < maxLen (txs mpl) →
  ValidateTx tx (isCrossShardMempool mpl) = Ret ok →
  ∃ mpl', add_tx ValidateTx mpl tx = Ret (mpl', ok) ∧ maxLen (txs mpl') = maxLen (txs mpl) ∧
    if ok then ∃ e, pool mpl' (xs ++ [(e, tx)]) ∧ txsMap mpl' = <[key tx := e]> (txsMap mpl) ∧
                 e ∉ map fst xs
    else mpl' = mpl.
Proof.
  intros P Hm Hok. unfold add_tx. rewrite Hok. cbn [mbind outcome_bind]. destruct ok; cbn [negb].
  2:{ exists mpl. done. }
  destruct (contents_push (txs mpl) xs tx (pool_list _ _ P) Hm) as (l & E & C & M). rewrite E.
  cbn [mbind outcome_bind]. eexists. split; [done|]. split; [done|]. exists (length (elems (txs mpl))).
  split; [|split; [done|apply contents_fresh, P]].
  constructor; [done|]. cbn. intros k e He. apply lookup_insert_Some in He as [[<- <-]|[_ He]].
  - exists tx. split; [apply elem_of_app; right; by left|done].
  - destruct (pool_map _ _ P k e He) as (tx' & Hin & ?). exists tx'. split; [apply elem_of_app; by left|done].
Qed.

Lemma remove_tx_spec mpl xs tx : pool mpl xs →
  match txsMap mpl !! key tx with
  | None => remove_tx mpl tx = Ret mpl
  | Some e => ∃ mpl' i tx', xs !! i = Some (e, tx') ∧ key tx' = key tx ∧ remove_tx mpl tx = Ret mpl' ∧
      pool mpl' (delete i xs) ∧ txsMap mpl' = delete (key tx) (txsMap mpl) ∧
      maxLen (txs mpl') = maxLen (txs mpl)
  end.
Proof.
  intros P. unfold remove_tx. destruct (txsMap mpl !! key tx) as [e|] eqn:He; [|done].
  destruct (pool_map _ _ P _ e He) as (tx' & Hin & Hk). apply list_elem_of_lookup in Hin as [i Hi].
  destruct (contents_remove _ xs i e tx' (pool_list _ _ P) Hi) as (l & E & C & M). rewrite E.
  eexists _, i, tx'. split_and!; try done.
  constructor; [done|]. cbn. intros k e' He'. apply lookup_delete_Some in He' as [Hne He'].
  destruct (pool_map _ _ P k e' He') as (tx2 & Hin2 & Hk2). exists tx2. split; [|done].
  apply list_elem_of_lookup in Hin2 as [j Hj]. assert (j ≠ i) as Hji.
  { intros ->. rewrite Hi in Hj. injection Hj as <- <-. congruence. }
  destruct (decide (j < i)%nat).
  - apply (list_elem_of_lookup_2 _ j). by rewrite list_lookup_delete_lt.
  - destruct j as [|j]; [lia|]. apply (list_elem_of_lookup_2 _ j). by rewrite list_lookup_delete_ge by lia.
Qed.

Lemma indexed_push mpl mpl' xs e tx : indexed mpl xs → txsMap mpl' = <[key tx := e]> (txsMap mpl) →
  key tx ∉ map (key ∘ snd) xs → indexed mpl' (xs ++ [(e, tx)]).
Proof.
  intros I Hmap Hnew e' tx' [Hin|Hin%list_elem_of_singleton]%elem_of_app; rewrite Hmap.
  - rewrite lookup_insert_ne; [by apply I|]. intros E. apply Hnew. rewrite E.
    change (map (key ∘ snd) xs) with (key ∘ snd <$> xs). apply list_elem_of_fmap. by exists (e', tx').
  - injection Hin as -> ->. apply lookup_insert_eq.
Qed.

Lemma filter_all {B} (P : B → Prop) `{∀ x, Decision (P x)} (xs : list B) :
  (∀ j x, xs !! j = Some x → P x) → filter P xs = xs.
Proof.
  induction xs as [|x xs IH]; intros Hp; [done|]. rewrite filter_cons, decide_True by (by apply (Hp O)).
  f_equal. apply IH. intros j y Hj. by apply (Hp (S j)).
Qed.

Lemma filter_delete {B} (P : B → Prop) `{∀ x, Decision (P x)} (xs : list B) i :
  (∀ j x, xs !! j = Some x → P x ↔ j ≠ i) → (i < length xs)%nat → filter P xs = delete i xs.
Proof.
  revert i; induction xs as [|x xs IH]; intros i Hp Hi; [simpl in Hi; lia|].
  rewrite filter_cons. destruct i as [|i]; cbn [delete list_delete].
  - rewrite decide_False by (rewrite (Hp O x eq_refl); lia).
    apply filter_all. intros j y Hj. apply (Hp (S j) y Hj). lia.
  - rewrite decide_True by (apply (Hp O x eq_refl); lia). f_equal. apply IH; [|simpl in Hi; lia].
    intros j y Hj. rewrite (Hp (S j) y Hj). lia.
Qed.

Lemma indexed_key mpl xs i j e e' tx tx' : pool mpl xs → indexed mpl xs →
  xs !! i = Some (e, tx) → xs !! j = Some (e', tx') → key tx = key tx' → i = j.
Proof.
  intros P I Hi Hj Hk.
  pose proof (I e tx (list_elem_of_lookup_2 _ _ _ Hi)) as H1.
  pose proof (I e' tx' (list_elem_of_lookup_2 _ _ _ Hj)) as H2. rewrite <- Hk, H1 in H2. injection H2 as <-.
  eapply (NoDup_lookup (map fst xs)); [by eapply contents_NoDup, P|..];
    change (map fst xs) with (fst <$> xs); rewrite list_lookup_fmap, ?Hi, ?Hj; done.
Qed.

Lemma elem_of_delete {B} (xs : list B) i x : x ∈ delete i xs → x ∈ xs.
Proof. intros Hx. eapply elem_of_submseteq; [done|apply sublist_submseteq, sublist_delete]. Qed.

(** Removing by key from an indexed pool. *)
Lemma remove_tx_indexed mpl xs tx : pool mpl xs → indexed mpl xs →
  ∃ mpl', remove_tx mpl tx = Ret mpl' ∧ maxLen (txs mpl') = maxLen (txs mpl) ∧
    pool mpl' (filter (λ x, key (snd x) ≠ key tx) xs) ∧ indexed mpl' (filter (λ x, key (snd x) ≠ key tx) xs).
Proof.
  intros P I. pose proof (remove_tx_spec mpl xs tx P) as S.
  destruct (txsMap mpl !! key tx) as [e|] eqn:He.
  - destruct S as (mpl' & i & tx' & Hi & Hk & E & P' & Hmap & M). exists mpl'.
    rewrite (filter_delete _ xs i); [|intros j [e2 tx2] Hj; cbn|by eapply lookup_lt_Some].
    2:{ split; [intros Hne ->; rewrite Hi in Hj; injection Hj as <- <-; done|].
        intros Hne Hk2. apply Hne. eapply (indexed_key mpl xs j i); try done. congruence. }
    split_and!; try done. intros e2 tx2 Hin. rewrite Hmap. apply lookup_delete_Some. split.
    + intros Hk2. apply list_elem_of_lookup in Hin as [j Hj].
      assert (∃ j', xs !! j' = Some (e2, tx2) ∧ j' ≠ i) as (j' & Hj' & Hne).
      { destruct (decide (j < i)%nat).
        - exists j. rewrite list_lookup_delete_lt in Hj by done. split; [done|lia].
        - exists (S j). rewrite list_lookup_delete_ge in Hj by lia. split; [done|lia]. }
      apply Hne. eapply (indexed_key mpl xs j' i); try done. congruence.
    + apply I. by eapply elem_of_delete.
  - exists mpl. assert (filter (λ x, key (snd x) ≠ key tx) xs = xs) as ->; [|by split_and!].
    apply filter_all. intros j [e2 tx2] Hj Hk2.
    pose proof (I e2 tx2 (list_elem_of_lookup_2 _ _ _ Hj)) as Hx. cbn in Hk2. rewrite Hk2, He in Hx. done.
Qed.

Lemma remove_txs_indexed l : ∀ mpl xs, pool mpl xs → indexed mpl xs →
  ∃ mpl', remove_txs mpl l = Ret mpl' ∧ maxLen (txs mpl') = maxLen (txs mpl) ∧
    pool mpl' (filter (λ x, key (snd x) ∉ map key l) xs) ∧
    indexed mpl' (filter (λ x, key (snd x) ∉ map key l) xs).
Proof.
  unfold remove_txs. induction l as [|tx l IH]; intros mpl xs P I; cbn [foldM map].
  - exists mpl. assert (filter (λ x : nat * bytes, key (snd x) ∉ []) xs = xs) as ->; [|done].
    apply filter_all. intros j x _. apply not_elem_of_nil.
  - destruct (remove_tx_indexed mpl xs tx P I) as (mpl1 & E & M & P1 & I1). rewrite E.
    destruct (IH mpl1 _ P1 I1) as (mpl' & E' & M' & P' & I'). exists mpl'.
    rewrite list_filter_filter in P', I'.
    assert (filter (λ x, (key (snd x) ∉ map key l) ∧ key (snd x) ≠ key tx) xs =
            filter (λ x, key (snd x) ∉ key tx :: map key l) xs) as Ef.
    { apply list_filter_iff. intros x. rewrite not_elem_of_cons. tauto. }
    rewrite Ef in P', I'. split; [done|]. split; [congruence|done].
Qed.

(** An entry that the index does not point to is never removed. *)
Definition stale (mpl : Mempool) (xs : list (nat * bytes)) (e : nat) (tx : bytes) : Prop :=
  (e, tx) ∈ xs ∧ txsMap mpl !! key tx ≠ Some e.

Lemma remove_txs_stale l : ∀ mpl xs e tx, pool mpl xs → stale mpl xs e tx →
  ∃ mpl' xs', remove_txs mpl l = Ret mpl' ∧ pool mpl' xs' ∧ stale mpl' xs' e tx.
Proof.
  unfold remove_txs. induction l as [|t l IH]; intros mpl xs e tx P [Hin Hst]; cbn [foldM]; [by exists mpl, xs|].
  pose proof (remove_tx_spec mpl xs t P) as S. destruct (txsMap mpl !! key t) as [e'|] eqn:He.
  2:{ rewrite S. by eapply (IH mpl xs). }
  destruct S as (mpl' & i & tx' & Hi & Hk & -> & P' & Hmap & _). apply (IH mpl' (delete i xs)); [done|].
  assert (e' ≠ e) as Hne.
  { intros ->. apply Hst. assert (tx' = tx) as ->; [|by rewrite Hk].
    eapply (contents_unique _ xs e); [apply P|by eapply list_elem_of_lookup_2|done]. }
  split.
  - apply list_elem_of_lookup in Hin as [j Hj]. assert (j ≠ i) by congruence.
    destruct (decide (j < i)%nat).
    + apply (list_elem_of_lookup_2 _ j). by rewrite list_lookup_delete_lt.
    + destruct j as [|j]; [lia|]. apply (list_elem_of_lookup_2 _ j). by rewrite list_lookup_delete_ge by lia.
  - rewrite Hmap. intros [_ Hd]%lookup_delete_Some. done.
Qed.

End Mempool.

(** ** Walking the list *)
Section Walk.
Context {S : Type} (body : S → bytes → outcome (S * bool)).

(** [for e := l.Front(); e != nil; e = e.Next()]: the body returns the new
    loop state and whether to go on. *)
Fixpoint for_each (fuel : nat) (l : CList bytes) (e : option nat) (s : S) : outcome S :=
  match e, fuel with
  | None, _ => Ret s
  | Some _, O => Panic
  | Some a, Datatypes.S fuel' =>
      el ← elem_at l a;
      '(s', go) ← body s (Value el);
      if go : bool then n ← Next l a; for_each fuel' l n s' else Ret s'
  end.

(** The same loop over an ordinary list. *)
Fixpoint for_list (xs : list bytes) (s : S) : outcome S :=
  match xs with
  | [] => Ret s
  | x :: xs' => '(s', go) ← body s x; if go : bool then for_list xs' s' else Ret s'
  end.

Lemma contents_elem l (xs : list (nat * bytes)) i e v : contents l xs → xs !! i = Some (e, v) →
  ∃ el, elem_at l e = Ret el ∧ Value el = v ∧ next el = map fst xs !! Datatypes.S i.
Proof.
  intros [R Hv] Hi. destruct (rep_linked _ _ R i e) as (el & He & [_ Ln _]).
  { change (map fst xs) with (fst <$> xs). by rewrite list_lookup_fmap, Hi. }
  destruct (Hv e v) as (el' & He' & Hval); [by eapply list_elem_of_lookup_2|].
  rewrite He in He'. injection He' as <-. exists el. unfold elem_at. by rewrite He.
Qed.

Lemma for_each_list l xs s : contents l xs →
  for_each (Z.to_nat (Len l)) l (Front l) s = for_list (map snd xs) s.
Proof.
  intros C. assert (Z.to_nat (Len l) = length xs) as ->.
  { unfold Len. destruct C as [R _]. rewrite (rep_len _ _ R). unfold zlen. rewrite length_map. lia. }
  assert (Front l = map fst xs !! O) as ->.
  { unfold Front. destruct C as [R _]. rewrite (rep_head _ _ R). by destruct (map fst xs). }
  cut (∀ n i s, (i + n = length xs)%nat →
         for_each n l (map fst xs !! i) s = for_list (map snd (drop i xs)) s).
  { intros Hg. by rewrite (Hg _ O). }
  induction n as [|n IH]; intros i s' Hn.
  - rewrite drop_ge by lia. rewrite lookup_ge_None_2 by (rewrite length_map; lia). done.
  - destruct (lookup_lt_is_Some_2 xs i) as [[e v] Hi]; [lia|].
    destruct (contents_elem l xs i e v C Hi) as (el & He & Hv & Hnext).
    rewrite (drop_S _ _ _ Hi). change (map fst xs) with (fst <$> xs) in *.
    rewrite list_lookup_fmap, Hi. cbn [fmap option_fmap option_map fst for_each map snd for_list].
    unfold Next. rewrite He. cbn [mbind outcome_bind]. rewrite Hv.
    destruct (body s' v) as [[s1 go]|]; cbn [mbind outcome_bind]; [|done].
    destruct go; [|done]. rewrite Hnext. apply IH. lia.
Qed.
End Walk.

Definition size (l : list bytes) : Z := foldr (λ tx n, zlen tx + n) 0 l.

(** ** [source/urd/mempool/mempool.go] *)
Module UrdPool.
Section UrdPool.
Context {H : HashFn} (ValidateTx : bytes → bool → outcome bool).

Definition AddTx := add_tx TxKey ValidateTx.
Definition Receive (mpl : Mempool) (chID : Z) (message : bytes) (messageType : Z) := AddTx mpl message.
Definition RemoveTx := remove_tx TxKey.

Definition ReapTx_body (maxTxsBz : Z) (s : list bytes * Z) (memTx : bytes) : outcome (list bytes * Z * bool) :=
  let '(acc, current) := s in
  let current := current + zlen memTx in
  if maxTxsBz <=? current then Ret (acc, current, false)
  else Ret (acc ++ [memTx], current, true).

Definition ReapTx (mpl : Mempool) (maxTxsBz : Z) : outcome (list bytes * Z) :=
  '(acc, _) ← for_each (ReapTx_body maxTxsBz) (Z.to_nat (Len (txs mpl))) (txs mpl) (Front (txs mpl)) ([], 0);
  Ret (acc, zlen acc).

Definition Update (mpl : Mempool) (l : list bytes) (commitStatus : slice) : outcome Mempool :=
  if zlen l =? 0 then Ret mpl else foldM RemoveTx l mpl.

Lemma Update_all mpl l cs : Update mpl l cs = remove_txs TxKey mpl l.
Proof.
  unfold Update. destruct (Z.eqb_spec (zlen l) 0) as [E|]; [|done]. by rewrite (zlen_nil_inv l E).
Qed.

Lemma ReapTx_list max xs : ∀ acc cur, ∃ n cur', (n ≤ length xs)%nat ∧
  for_list (ReapTx_body max) xs (acc, cur) = Ret (acc ++ take n xs, cur') ∧
  ∀ m, (m ≤ length xs)%nat → (m ≤ n)%nat ↔ m = O ∨ cur + size (take m xs) < max.
Proof.
  induction xs as [|x xs IH]; intros acc cur; cbn [for_list length].
  { exists O, cur. rewrite take_0, app_nil_r. split; [done|]. split; [done|]. intros m Hm. split; [left; lia|lia]. }
  cbn [ReapTx_body mbind outcome_bind].
  assert (∀ m, 0 ≤ size (take m xs)) as Hpos.
  { intros m. induction (take m xs) as [|y ys IHy]; cbn; [lia|]. unfold size in IHy. pose proof (zlen_nonneg y). lia. }
  destruct (Z.leb_spec max (cur + zlen x)) as [Hle|Hlt].
  - exists O, (cur + zlen x). rewrite take_0, app_nil_r. split; [lia|]. split; [done|]. intros [|m] Hm; cbn; [split; [by left|lia]|].
    specialize (Hpos m). unfold size in *. split; [lia|]. intros [?|?]; lia.
  - destruct (IH (acc ++ [x]) (cur + zlen x)) as (n & cur' & Hn & E & Hm). exists (Datatypes.S n), cur'.
    split; [lia|]. split; [cbn [mbind outcome_bind]; rewrite E; by rewrite <- app_assoc|]. intros [|m] Hm'; [split; [by left|lia]|].
    rewrite <- Nat.succ_le_mono, Hm by lia. cbn [take size foldr]. unfold size in *. split.
    + intros [->|?]; right; [rewrite take_0; cbn; lia|lia].
    + intros [?|?]; [done|right; lia].
Qed.

Lemma ReapTx_prefix mpl xs max : pool TxKey mpl xs → ∃ n, (n ≤ length xs)%nat ∧
  ReapTx mpl max = Ret (take n (map snd xs), Z.of_nat n) ∧
  ∀ m, (m ≤ length xs)%nat → (m ≤ n)%nat ↔ m = O ∨ size (take m (map snd xs)) < max.
Proof.
  intros P. unfold ReapTx. rewrite (for_each_list _ _ xs) by apply P.
  destruct (ReapTx_list max (map snd xs) [] 0) as (n & cur & Hn & E & Hm). exists n.
  rewrite length_map in Hn, Hm. rewrite E. split; [done|]. split; [|done].
  cbn [mbind outcome_bind app]. unfold zlen. rewrite length_take, length_map, Nat.min_l by done. done.
Qed.

(** C35. For a pool in which no key was added twice: [ReapTx] returns the longest
    prefix of the pool, in arrival order, whose total size is below the
    budget (none when even the first transaction reaches it); an accepted
    transaction goes to the end, a rejected one leaves the pool as it was; and
    [Update] with any committed block removes exactly the transactions whose
    key occurs in the block. *)
Theorem Mempool_reap_update mpl xs max tx l cs ok
  (P : pool TxKey mpl xs) (I : indexed TxKey mpl xs) (Hroom : zlen xs < maxLen (txs mpl))
  (Hok : ValidateTx tx (isCrossShardMempool mpl) = Ret ok) :
  (∃ n, (n ≤ length xs)%nat ∧ ReapTx mpl max = Ret (take n (map snd xs), Z.of_nat n) ∧
     ∀ m, (m ≤ length xs)%nat → (m ≤ n)%nat ↔ m = O ∨ size (take m (map snd xs)) < max) ∧
  (∃ mpl', AddTx mpl tx = Ret (mpl', ok) ∧
     if ok then ∃ e, pool TxKey mpl' (xs ++ [(e, tx)]) ∧
                  (TxKey tx ∉ map (TxKey ∘ snd) xs → indexed TxKey mpl' (xs ++ [(e, tx)]))
     else mpl' = mpl) ∧
  (∃ mpl', Update mpl l cs = Ret mpl' ∧
     pool TxKey mpl' (filter (λ x, TxKey (snd x) ∉ map TxKey l) xs) ∧
     indexed TxKey mpl' (filter (λ x, TxKey (snd x) ∉ map TxKey l) xs)).
Proof.
  split; [by apply ReapTx_prefix|]. split.
  - destruct (add_tx_spec TxKey ValidateTx mpl xs tx ok P Hroom Hok) as (mpl' & E & _ & Hcase).
    exists mpl'. split; [done|]. destruct ok; [|done]. destruct Hcase as (e & P' & Hmap & Hf).
    exists e. split; [done|]. intros Hnew. by eapply indexed_push.
  - rewrite Update_all. destruct (remove_txs_indexed TxKey l mpl xs P I) as (mpl' & E & _ & P' & I'). by exists mpl'.
Qed.

(** A copy of a transaction submitted twice never leaves the pool: whatever
    blocks are committed, [Update] succeeds and the earlier copy stays, to be
    proposed again. *)
Theorem Mempool_duplicate_stays mpl xs tx blocks
  (P : pool TxKey mpl xs) (Hroom : zlen xs + 1 < maxLen (txs mpl))
  (Hok : ∀ c, ValidateTx tx c = Ret true) :
  ∃ m1 m2 mpl' xs', AddTx mpl tx = Ret (m1, true) ∧ AddTx m1 tx = Ret (m2, true) ∧
    foldM (λ m l, Update m l None) blocks m2 = Ret mpl' ∧ pool TxKey mpl' xs' ∧ tx ∈ map snd xs'.
Proof.
  destruct (add_tx_spec TxKey ValidateTx mpl xs tx true P ltac:(lia) (Hok _)) as (m1 & E1 & M1 & e1 & P1 & H1 & _).
  destruct (add_tx_spec TxKey ValidateTx m1 _ tx true P1 ltac:(rewrite zlen_app; unfold zlen at 2; simpl; lia) (Hok _))
    as (m2 & E2 & _ & e2 & P2 & H2 & Hfresh).
  assert (stale TxKey m2 ((xs ++ [(e1, tx)]) ++ [(e2, tx)]) e1 tx) as Hst.
  { split; [rewrite !elem_of_app; left; right; by left|]. rewrite H2, lookup_insert_eq. intros [= ->].
    apply Hfresh. rewrite map_app. apply elem_of_app. right. by left. }
  exists m1, m2. cut (∃ mpl' xs', foldM (λ m l, Update m l None) blocks m2 = Ret mpl' ∧ pool TxKey mpl' xs' ∧
    stale TxKey mpl' xs' e1 tx).
  { intros (mpl' & xs' & E & P' & [Hin _]). exists mpl', xs'. split_and!; try done.
    change (map snd xs') with (snd <$> xs'). apply list_elem_of_fmap. by exists (e1, tx). }
  generalize m2 as m, ((xs ++ [(e1, tx)]) ++ [(e2, tx)]) as ys, P2, Hst.
  induction blocks as [|l blocks IH]; intros m ys Pm Sm; cbn [foldM]; [by exists m, ys|].
  rewrite Update_all. destruct (remove_txs_stale TxKey l m ys e1 tx Pm Sm) as (m' & ys' & -> & Pm' & Sm').
  by eapply IH.
Qed.

End UrdPool.
End UrdPool.

(** ** [source/pyramid/mempool/mempool.go] *)
Module PyramidPool.
Section PyramidPool.
Context (ValidateTx : bytes → bool → outcome bool) (CheckLock : bytes → outcome bool).

Definition AddTx := add_tx Tx_Key ValidateTx.
Definition Receive (mpl : Mempool) (chID : Z) (message : bytes) (messageType : Z) := AddTx mpl message.
Definition RemoveTx := remove_tx Tx_Key.

Definition ReapTx_body (maxTxs : Z) (acc : list bytes) (memTx : bytes) : outcome (list bytes * bool) :=
  unlocked ← CheckLock memTx;
  if negb unlocked then Ret (acc, true)
  else let acc := acc ++ [memTx] in Ret (acc, negb (maxTxs <=? zlen acc)).

(** [make(types.Txs, 0, maxTxs)] panics on a negative capacity. *)
Definition ReapTx (mpl : Mempool) (maxTxs : Z) : outcome (list bytes * Z) :=
  if maxTxs <? 0 then Panic
  else
    acc ← for_each (ReapTx_body maxTxs) (Z.to_nat (Len (txs mpl))) (txs mpl) (Front (txs mpl)) [];
    Ret (acc, zlen acc).

(** [for i, tx := range txs] with the commit bitmap. *)
Fixpoint Update_loop (bv : option BitVector) (i : Z) (l : list bytes) (mpl : Mempool) : outcome Mempool :=
  match l with
  | [] => Ret mpl
  | tx :: l' =>
      b ← GetIndex bv i;
      mpl' ← (if b : bool then RemoveTx mpl tx else Ret mpl);
      Update_loop bv (i + 1) l' mpl'
  end.

Definition Update (mpl : Mempool) (l : list bytes) (commitStatus : slice) : outcome Mempool :=
  if zlen l =? 0 then Ret mpl
  else
    match commitStatus with
    | Some cs =>
        if isCrossShardMempool mpl then bv ← NewBitArrayFromByte cs; Update_loop bv 0 l mpl
        else foldM RemoveTx l mpl
    | None => foldM RemoveTx l mpl
    end.

(** The transactions of [l] whose bit is set, [i] being the index of the first. *)
Fixpoint committed (bv : BitVector) (i : Z) (l : list bytes) : list bytes :=
  match l with
  | [] => []
  | tx :: l' => (if bv_bit bv i then [tx] else []) ++ committed bv (i + 1) l'
  end.

Lemma Update_loop_spec bv l : bv_wf bv → ∀ i mpl, 0 ≤ i →
  Update_loop (Some bv) i l mpl = remove_txs Tx_Key mpl (committed bv i l).
Proof.
  intros Hwf. induction l as [|tx l IH]; intros i mpl Hi; cbn [Update_loop committed]; [done|].
  rewrite GetIndex_bit by done. cbn [mbind outcome_bind]. destruct (bv_bit bv i); cbn [app].
  - unfold remove_txs. cbn [foldM]. unfold RemoveTx. destruct (remove_tx Tx_Key mpl tx) as [m|]; [|done].
    cbn [mbind outcome_bind]. apply IH. lia.
  - cbn [mbind outcome_bind]. apply IH. lia.
Qed.

Lemma ReapTx_unlocked (unlocked : bytes → bool) max l : (∀ tx, CheckLock tx = Ret (unlocked tx)) → ∀ acc,
  zlen acc < Z.max 1 max →
  for_list (ReapTx_body max) l acc = Ret (acc ++ take (Z.to_nat (Z.max 1 max - zlen acc)) (filter (λ tx, unlocked tx = true) l)).
Proof.
  intros Hl. induction l as [|tx l IH]; intros acc Hacc; cbn [for_list]; [by rewrite filter_nil, take_nil, app_nil_r|].
  assert (ReapTx_body max acc tx = if unlocked tx then Ret (acc ++ [tx], negb (max <=? zlen (acc ++ [tx])))
                                   else Ret (acc, true)) as ->.
  { unfold ReapTx_body. rewrite Hl. cbn [mbind outcome_bind]. by destruct (unlocked tx). }
  rewrite filter_cons. destruct (unlocked tx) eqn:E; cbn [mbind outcome_bind].
  2:{ rewrite decide_False by congruence. by apply IH. }
  rewrite decide_True by done. rewrite (zlen_app acc [tx]). change (zlen [tx]) with 1.
  replace (Z.to_nat (Z.max 1 max - zlen acc)) with (Datatypes.S (Z.to_nat (Z.max 1 max - zlen (acc ++ [tx]))))
    by (rewrite zlen_app; change (zlen [tx]) with 1; lia).
  cbn [take]. destruct (Z.leb_spec max (zlen acc + 1)); cbn [negb].
  - pose proof (zlen_nonneg acc). rewrite zlen_app. change (zlen [tx]) with 1.
    replace (Z.to_nat _) with O by lia. by rewrite take_0.
  - rewrite IH by (rewrite zlen_app; change (zlen [tx]) with 1; lia). by rewrite <- app_assoc.
Qed.

(** The pyramid pool: [ReapTx] returns the first [max] unlocked transactions in
    arrival order (one, not none, when [max] is 0) and panics on a negative
    [max]; in a pool without duplicate keys [Update] removes exactly the
    transactions of the block whose bit of the commit bitmap is set, for a
    cross-shard pool with a bitmap, and all of them otherwise. *)
Theorem PyramidPool_reap_update mpl xs max l bv (unlocked : bytes → bool)
  (P : pool Tx_Key mpl xs) (I : indexed Tx_Key mpl xs) (Hwf : bv_wf bv)
  (Hlock : ∀ tx, CheckLock tx = Ret (unlocked tx)) :
  (if max <? 0 then ReapTx mpl max = Panic
   else let r := take (Z.to_nat (Z.max 1 max)) (filter (λ tx, unlocked tx = true) (map snd xs)) in
        ReapTx mpl max = Ret (r, zlen r)) ∧
  (∃ mpl', Update mpl l (Some (Byte (Some bv))) = Ret mpl' ∧
     let gone := if isCrossShardMempool mpl then committed bv 0 l else l in
     pool Tx_Key mpl' (filter (λ x, Tx_Key (snd x) ∉ map Tx_Key gone) xs) ∧
     indexed Tx_Key mpl' (filter (λ x, Tx_Key (snd x) ∉ map Tx_Key gone) xs)) ∧
  (∃ mpl', Update mpl l None = Ret mpl' ∧
     pool Tx_Key mpl' (filter (λ x, Tx_Key (snd x) ∉ map Tx_Key l) xs)).
Proof.
  split; [|split].
  - unfold ReapTx. destruct (Z.ltb_spec max 0); [done|]. cbn zeta.
    rewrite (for_each_list _ _ xs) by apply P. rewrite (ReapTx_unlocked unlocked) by (done || (unfold zlen; simpl; lia)).
    cbn [mbind outcome_bind app]. by rewrite Z.sub_0_r.
  - unfold Update. destruct (Z.eqb_spec (zlen l) 0) as [E|_].
    + rewrite (zlen_nil_inv l E). exists mpl. cbn. destruct (isCrossShardMempool mpl); cbn;
        rewrite filter_all by (intros j x _; apply not_elem_of_nil); done.
    + destruct (Byte_roundtrip bv Hwf) as [_ ->]. cbn [mbind outcome_bind].
      rewrite Update_loop_spec by (done || lia). cbn zeta.
      destruct (isCrossShardMempool mpl);
        match goal with |- context [map Tx_Key ?g] =>
          destruct (remove_txs_indexed Tx_Key g mpl xs P I) as (mpl' & E & _ & ? & ?) end; by exists mpl'.
  - assert (Update mpl l None = remove_txs Tx_Key mpl l) as ->.
    { unfold Update. destruct (Z.eqb_spec (zlen l) 0) as [E|]; [|done]. by rewrite (zlen_nil_inv l E). }
    destruct (remove_txs_indexed Tx_Key l mpl xs P I) as (mpl' & E & _ & ? & _). by exists mpl'.
Qed.

End PyramidPool.
End PyramidPool.

(** ** Witnesses *)
#[local] Existing Instance sha256_HashFn.
Definition accept_all (tx : bytes) (isCrossShard : bool) : outcome bool := Ret true.

Lemma indexed_new key isCross : indexed key (NewMempool isCross) [].
Proof. intros e tx Hin. by apply not_elem_of_nil in Hin. Qed.

(** A pool with one transaction. *)
Lemma pool_one key isCross tx : ∃ mpl e, add_tx key accept_all (NewMempool isCross) tx = Ret (mpl, true) ∧
  pool key mpl [(e, tx)] ∧ indexed key mpl [(e, tx)] ∧ maxLen (txs mpl) = MaxLength.
Proof.
  destruct (add_tx_spec key accept_all (NewMempool isCross) [] tx true (pool_new key isCross) eq_refl eq_refl)
    as (mpl & E & M & e & P & Hmap & _).
  exists mpl, e. split_and!; try done. eapply (indexed_push key _ mpl []); [apply (indexed_new key isCross)|done|].
  apply not_elem_of_nil.
Qed.

Lemma Mempool_reap_update_witness :
  ∃ mpl, UrdPool.AddTx accept_all (NewMempool false) [1; 2] = Ret (mpl, true) ∧
    ∃ n, (n ≤ 1)%nat ∧ UrdPool.ReapTx mpl 3 = Ret (take n [[1; 2]], Z.of_nat n) ∧ (1 ≤ n)%nat.
Proof.
  destruct (pool_one TxKey false [1; 2]) as (mpl & e & E & P & I & M). exists mpl. split; [exact E|].
  destruct (UrdPool.Mempool_reap_update accept_all mpl _ 3 [5] [[1; 2]] None true P I
    ltac:(rewrite M; reflexivity) eq_refl) as ((n & Hn & Er & Hm) & _).
  exists n. split; [exact Hn|]. split; [exact Er|]. apply (Hm 1%nat); [cbn; lia|]. right. reflexivity.
Defined.

Lemma Mempool_duplicate_stays_witness :
  ∃ m1 m2 mpl' xs', UrdPool.AddTx accept_all (NewMempool false) [1; 2] = Ret (m1, true) ∧
    UrdPool.AddTx accept_all m1 [1; 2] = Ret (m2, true) ∧
    foldM (λ m l, UrdPool.Update m l None) [[[1; 2]]; [[1; 2]]] m2 = Ret mpl' ∧ pool TxKey mpl' xs' ∧
    [1; 2] ∈ map snd xs'.
Proof.
  apply (UrdPool.Mempool_duplicate_stays accept_all (NewMempool false) [] [1; 2] [[[1; 2]]; [[1; 2]]]
    (pool_new TxKey false) ltac:(reflexivity) (λ _, eq_refl)).
Defined.

Lemma PyramidPool_reap_update_witness :
  ∃ mpl, PyramidPool.AddTx accept_all (NewMempool true) [1; 2] = Ret (mpl, true) ∧
    PyramidPool.ReapTx (λ _, Ret true) mpl 0 = Ret ([[1; 2]], 1).
Proof.
  destruct (pool_one Tx_Key true [1; 2]) as (mpl & e & E & P & I & M). exists mpl. split; [exact E|].
  exact (proj1 (PyramidPool.PyramidPool_reap_update (λ _, Ret true) mpl _ 0 [] bv10 (λ _, true) P I
    bv10_wf (λ _, eq_refl))).
Defined.
