(* ===== verification/PyrNode.v ===== *)
(** * Configuring and starting a Pyramid node

    Models [source/pyramid/main/config.go], the records of [json-file.go] and, of
    [start.go], [createKeyRangeTree], [createMempool], [createP2p] and the
    registration of the reactors in [InitNode].  Addresses and peers are made as
    in the URD generator ([NodeConfig.v]).  Reading and writing the files, the
    rates of the load generator (floating-point numbers) and waiting are left
    out. *)

From stdpp Require Import base list gmap strings numbers pretty sorting.
From Stdlib Require Import ZArith Lia.
From S2P Require Import Prelude Convert BitVector Hash Signer RangeList RangeTree Receipt Text CList Mempool ShardInfo Network NodeConfig NodeStart PyrTypes PyrHeight.

(** ** Descriptions *)

Record PyrShardEntry := { peChainID : string; pePeerNum : Z; peRelatedShards : list string; peIsI : bool; peKeyRange : string }.
Record PyrShardConfig := { pyrIPInUse : gmap string Z; pyrShards : list PyrShardEntry }.
Record Config := {
  NodeName : string; DirRoot : string; ChainID : string; IsI : bool; BShardNum : Z; IShardNum : Z;
  LocalIP : string; LocalPort : Z; Protocal : string; MinBlockInterval : string; MaxPartSize : Z; MaxBlockTxNum : Z;
  SignerIndex : Z; ABCIApp : string
}.
(** The fields shared with URD's description. *)
Definition plain (si : PyrShardEntry) : ShardEntry := {| seChainID := peChainID si; sePeerNum := pePeerNum si; seKeyRange := peKeyRange si |}.
Definition pyr_nodes (shards : list PyrShardEntry) : list (PyrShardEntry * Z) := si ← shards; (si,.) <$> seqZ 0 (pePeerNum si).
(** The numbers of I shards and of B shards. *)
Definition inum (shards : list PyrShardEntry) : Z := foldl (λ n si, if peIsI si then n + 1 else n) 0 shards.
Definition bnum (shards : list PyrShardEntry) : Z := foldl (λ n si, if peIsI si then n else n + 1) 0 shards.

(** ** The generator *)

Section Generate.
Context {B : BLS} (SetByCSPRNG : nat → SecretKey).

Definition related_map (shards : list PyrShardEntry) : gmap string (list string) :=
  foldl (λ m si, <[peChainID si := peRelatedShards si]> m) ∅ shards.
Definition related_set (l : list string) : gmap string bool := foldl (λ m shard, <[shard := true]> m) ∅ l.
Definition shard_info (sc : PyrShardConfig) (PeerList : gmap string (list Peer)) (si : PyrShardEntry) : ShardInfo :=
  let info := {| PeerList := ∅; RelatedShards := ∅; PeerRelatedMap := ∅; ShardIdentity := 0; KeyRangeMap := ∅ |} in
  let info := if peIsI si then SetIShard info else SetBShard info in
  {| PeerList := PeerList; RelatedShards := related_set (peRelatedShards si); PeerRelatedMap := related_map (pyrShards sc);
     ShardIdentity := ShardIdentity info; KeyRangeMap := keyRangeMap (map plain (pyrShards sc)) |}.
(** One entry per validator, the same object for the validators of a shard. *)
Definition shardInfoList (sc : PyrShardConfig) (PeerList : gmap string (list Peer)) : list ShardInfo :=
  si ← pyrShards sc; replicate (Z.to_nat (pePeerNum si)) (shard_info sc PeerList si).
Definition make_config (sc : PyrShardConfig) (store_dir : string) (addrs : list (string * Z)) (count : nat) (n : PyrShardEntry * Z)
    : outcome Config :=
  let '(si, i) := n in
  '(ip, port) ← idx addrs (Z.of_nat count);
  let nodeName := String.append "node" (pretty (Z.of_nat count + 1)) in
  Ret {| DirRoot := node_dir store_dir ip nodeName; NodeName := nodeName; ChainID := peChainID si; IsI := peIsI si;
         LocalIP := ip; LocalPort := port; Protocal := "pyramid"; MinBlockInterval := "10ms"; MaxPartSize := 1024 * 200;
         MaxBlockTxNum := 4096; SignerIndex := i; ABCIApp := "minibank";
         IShardNum := inum (pyrShards sc); BShardNum := bnum (pyrShards sc) |}.
Definition GenerateConfigFiles (sc : PyrShardConfig) (store_dir : string) : outcome (list (string * Z) * list ShardInfo * list Config) :=
  let shards := map plain (pyrShards sc) in
  keyPairs ← generate_keys SetByCSPRNG (Z.to_nat (totalNodes shards));
  addrs ← assign (Z.to_nat (totalNodes shards)) (IPGun (pyrIPInUse sc)) (new_wheel (pyrIPInUse sc));
  PeerList ← make_peers keyPairs addrs 0 (nodes shards) ∅;
  configList ← make_all (make_config sc store_dir addrs) 0 (pyr_nodes (pyrShards sc));
  Ret (addrs, shardInfoList sc PeerList, configList).
End Generate.

(** ** Start-up *)

Section Start.

(** [ids]: the order in which the related shards are visited. *)
Definition add_related (si : ShardInfo) (acc : RangeTree * gmap string RangeTree) (shard : string) : outcome (RangeTree * gmap string RangeTree) :=
  let '(keyRangeTree, forest) := acc in
  t ← NewRangeTreeFromString (default EmptyString (KeyRangeMap si !! shard));
  keyRangeTree ← RT_Add keyRangeTree t;
  Ret (keyRangeTree, <[shard := t]> forest).
Definition createKeyRangeTree (cfg : Config) (si : ShardInfo) (ids : list string) : outcome (RangeTree * gmap string RangeTree) :=
  keyRangeTree ← NewRangeTreeFromString (default EmptyString (KeyRangeMap si !! ChainID cfg));
  own ← NewRangeTreeFromString (default EmptyString (KeyRangeMap si !! ChainID cfg));
  let forest := {[ChainID cfg := own]} in
  if IsI cfg then Ret (keyRangeTree, forest) else foldM (add_related si) ids (keyRangeTree, forest).
(** [None] is the nil mempool of an I shard. *)
Definition createMempool (cfg : Config) : Mempool * option Mempool :=
  if IsI cfg then (NewMempool false, None) else (NewMempool false, Some (NewMempool true)).
Definition createP2p {Conn R : Type} (cfg : Config) (si : ShardInfo) (ids : list string) : Sender (Conn := Conn) * Receiver (R := R) :=
  let sender := NewSender (address (LocalIP cfg) (LocalPort cfg)) in
  let sender := foldl (λ s shard, foldl AddPeer s (default [] (PeerList si !! shard))) sender ids in
  (foldl AddPeer sender (default [] (PeerList si !! ChainID cfg)), NewReceiver (LocalIP cfg) (LocalPort cfg) false).
(** The reactors of the node; calling a method of a nil interface panics. *)
Definition reactor_of {R} (reactor : option (Reactor (R := R))) : Reactor (R := R) :=
  match reactor with Some f => f | None => λ _ _ _ _, Panic end.
Definition add_channels {R} (receiver : Receiver (R := R)) (consensus mempool : Reactor (R := R)) (cross_shard_mempool : option (Reactor (R := R)))
    : Receiver (R := R) :=
  let receiver := AddChennel receiver consensus ChannelIDConsensusState in
  let receiver := AddChennel receiver mempool ChannelIDMempool in
  AddChennel receiver (reactor_of cross_shard_mempool) ChannelIDCrossShardMempool.

(** ** Key ranges *)

Lemma NewRangeTreeFromString_wf s t : NewRangeTreeFromString s = Ret t → rt_wf t.
Proof.
  unfold NewRangeTreeFromString. intros (ps & _ & E)%outcome_bind_Ret. assert (rt_wf NewRangeTree) as Hwf by done. revert E Hwf.
  generalize NewRangeTree. induction ps as [|pair ps IH]; intros t0 E Hwf; [by injection E as <-|]. cbn [foldM] in E.
  destruct (a ← idx pair 0; b ← idx pair 1; RT_AddRange t0 a b) as [t1|] eqn:E1; [|done]. apply (IH t1 E).
  apply outcome_bind_Ret in E1 as (a & _ & (b & _ & E1)%outcome_bind_Ret). destruct (RT_AddRange_spec t0 a b Hwf) as (t' & E' & Hw & _).
  rewrite E' in E1. by injection E1 as <-.
Qed.
(** The tree a shard's text describes, of an absent shard the empty text. *)
Definition tree_of (si : ShardInfo) (shard : string) : outcome RangeTree :=
  NewRangeTreeFromString (default EmptyString (KeyRangeMap si !! shard)).
Definition owned_by (si : ShardInfo) (shard key : string) : Prop := ∃ t, tree_of si shard = Ret t ∧ RT_Search t key = true.

Lemma add_related_spec si ids : (∀ shard, shard ∈ ids → ∃ t, tree_of si shard = Ret t) → ∀ t forest, rt_wf t →
  ∃ t' forest', foldM (add_related si) ids (t, forest) = Ret (t', forest') ∧ rt_wf t' ∧
    (∀ key, RT_Search t' key = true ↔ RT_Search t key = true ∨ ∃ shard, shard ∈ ids ∧ owned_by si shard key) ∧
    ∀ shard, (shard ∈ ids → ∃ u, forest' !! shard = Some u ∧ tree_of si shard = Ret u) ∧ (shard ∉ ids → forest' !! shard = forest !! shard).
Proof.
  induction ids as [|shard ids IH]; intros Hall t forest Hwf; cbn [foldM].
  { exists t, forest. split_and!; [done..| |].
    - intros key. split; [by left|]. by intros [|(? & []%elem_of_nil & _)].
    - intros shard. split; [by intros ?%elem_of_nil|done]. }
  destruct (Hall shard) as [u Eu]; [by left|]. unfold add_related at 1. fold (tree_of si shard). rewrite Eu. cbn [mbind outcome_bind].
  destruct (RT_Add_union t u Hwf) as (t1 & -> & W1 & S1); [by eapply NewRangeTreeFromString_wf|]. cbn [mbind outcome_bind].
  destruct (IH (λ s Hs, Hall s (list_elem_of_further _ _ _ Hs)) t1 (<[shard := u]> forest) W1) as (t' & forest' & -> & W' & S' & F').
  exists t', forest'. split_and!; [done..| |].
  - intros key. rewrite S', S1, orb_true_iff. setoid_rewrite elem_of_cons. unfold owned_by at 2. split.
    + intros [[?|?]|(s & ? & ?)]; [by left|right; exists shard; split; [by left|by exists u]|right; exists s; split; [by right|done]].
    + intros [?|(s & [->|?] & Ho)]; [left; by left| |right; by exists s]. destruct Ho as (u' & Eu' & ?). rewrite Eu in Eu'. injection Eu' as <-.
      left; by right.
  - intros s. rewrite not_elem_of_cons. destruct (F' s) as [F1 F2]. split.
    + intros Hs. destruct (decide (s ∈ ids)) as [Hin|Hin]; [by apply F1|]. apply elem_of_cons in Hs as [->|]; [|done].
      exists u. rewrite F2 by done. by rewrite lookup_insert_eq.
    + intros [Hne Hin]. rewrite F2 by done. by rewrite lookup_insert_ne.
Qed.

(** The keys a node serves: an I shard those of its own range, a B shard those of
    its own range and of every related shard, whatever the order in which they
    are visited; and a B shard keeps the range of each of these shards apart. *)
Theorem createKeyRangeTree_owns (cfg : Config) (si : ShardInfo) (ids : list string) (Hids : range_of (RelatedShards si) ids)
    (Hread : ∀ shard, shard = ChainID cfg ∨ shard ∈ ids → ∃ t, tree_of si shard = Ret t) :
  ∃ t forest, createKeyRangeTree cfg si ids = Ret (t, forest) ∧
    (∀ key, RT_Search t key = true ↔
       owned_by si (ChainID cfg) key ∨ IsI cfg = false ∧ ∃ shard, is_Some (RelatedShards si !! shard) ∧ owned_by si shard key) ∧
    ∀ shard u, forest !! shard = Some u ↔
      tree_of si shard = Ret u ∧ (shard = ChainID cfg ∨ IsI cfg = false ∧ is_Some (RelatedShards si !! shard)).
Proof.
  unfold createKeyRangeTree. fold (tree_of si (ChainID cfg)). destruct (Hread (ChainID cfg)) as [own Eown]; [by left|]. rewrite Eown. cbn [mbind outcome_bind].
  assert (∀ key, RT_Search own key = true ↔ owned_by si (ChainID cfg) key) as Ho.
  { intros key. unfold owned_by. rewrite Eown. split; [by eexists|]. by intros (? & [= <-] & ?). }
  setoid_rewrite <- (range_elem _ _ _ Hids). destruct (IsI cfg) eqn:EI.
  - eexists _, _. split; [done|]. split; [intros key; rewrite Ho; naive_solver|]. intros shard u. rewrite lookup_singleton_Some. split.
    + intros [<- <-]. split; [done|by left].
    + intros [Eu [->|[? _]]]; [|done]. rewrite Eown in Eu. by injection Eu as <-.
  - destruct (add_related_spec si ids (λ s Hs, Hread s (or_intror Hs)) own {[ChainID cfg := own]}) as (t & forest & -> & _ & S & F);
      [by eapply NewRangeTreeFromString_wf|]. exists t, forest. split; [done|]. split; [intros key; rewrite S, Ho; naive_solver|].
    intros shard u. destruct (F shard) as [F1 F2]. destruct (decide (shard ∈ ids)) as [Hin|Hin].
    + destruct (F1 Hin) as (u' & -> & ->). split; [intros [= ->]; split; [done|by right]|by intros [[= ->] _]].
    + rewrite F2, lookup_singleton_Some by done. split; [intros [<- <-]; split; [done|by left]|].
      intros [Eu [->|[_ ?]]]; [|done]. rewrite Eown in Eu. by injection Eu as <-.
Qed.
End Start.

(** ** An I shard has no cross-shard mempool *)

(** Its receiver panics on any message for the channel of that mempool. *)
Theorem I_shard_cross_message_panics {JC : JsonCodec} {R} (receiver : Receiver (R := R)) (consensus mempool cross : Reactor (R := R))
    (cfg : Config) (st : R) (e : Envelop) bz (HI : IsI cfg = true) (Hbz : json_unmarshal bz = Some e) (Hch : Channel_id e = ChannelIDCrossShardMempool) :
  dispatch (add_channels receiver consensus mempool ((λ _, cross) <$> snd (createMempool cfg))) st bz = Panic.
Proof. unfold dispatch, createMempool. rewrite Hbz, Hch, HI. cbn [channelMap add_channels AddChennel]. by rewrite lookup_insert_eq. Qed.

(** ** The generated network *)

Lemma pyr_nodes_plain shards : nodes (map plain shards) = (λ n, (plain (fst n), snd n)) <$> pyr_nodes shards.
Proof.
  induction shards as [|si shards IH]; [done|]. cbn [map]. rewrite nodes_cons, IH. unfold pyr_nodes. rewrite bind_cons, fmap_app, <- list_fmap_compose. done.
Qed.
Lemma shardInfoList_nodes sc peers : shardInfoList sc peers = (λ n, shard_info sc peers (fst n)) <$> pyr_nodes (pyrShards sc).
Proof.
  unfold shardInfoList, pyr_nodes. generalize (shard_info sc peers). intros f. induction (pyrShards sc) as [|si shards IH]; [done|].
  rewrite !bind_cons, fmap_app, IH, <- list_fmap_compose. f_equal. unfold compose. cbn [fst].
  rewrite (const_fmap _ _ (f si)) by done. by rewrite length_seqZ.
Qed.
Lemma related_set_spec l d : default false (related_set l !! d) = true ↔ d ∈ l.
Proof.
  unfold related_set. assert (∀ m : gmap string bool, default false (foldl (λ m shard, <[shard := true]> m) m l !! d) = true ↔
    default false (m !! d) = true ∨ d ∈ l) as Hall; [|rewrite Hall, lookup_empty; cbn; naive_solver].
  induction l as [|s l IH]; intros m; cbn [foldl]; [set_solver|]. rewrite IH, elem_of_cons.
  destruct (decide (s = d)) as [->|Hne]; [rewrite lookup_insert_eq; cbn; naive_solver|rewrite lookup_insert_ne by done; naive_solver].
Qed.
Lemma shard_info_identity sc peers si : IsIShard (shard_info sc peers si) = peIsI si ∧ IsBShard (shard_info sc peers si) = negb (peIsI si).
Proof. unfold IsIShard, IsBShard, shard_info. by destruct (peIsI si). Qed.
Lemma related_set_dom l d : is_Some (related_set l !! d) ↔ d ∈ l.
Proof.
  rewrite <- (related_set_spec l d). assert (∀ b, related_set l !! d = Some b → b = true) as Hb.
  { unfold related_set. assert (∀ (m : gmap string bool) b, (∀ b, m !! d = Some b → b = true) → foldl (λ m shard, <[shard := true]> m) m l !! d = Some b → b = true) as Hall;
      [|intros b; by apply Hall].
    induction l as [|s l IH]; intros m b Hm; cbn [foldl]; [apply Hm|]. apply IH. intros b'. destruct (decide (s = d)) as [->|Hne];
      [rewrite lookup_insert_eq; congruence|rewrite lookup_insert_ne by done; apply Hm]. }
  split; [intros [b Eb]; rewrite Eb; cbn; by apply Hb|]. destruct (related_set l !! d); [by eexists|done].
Qed.
(** The peers a node adds to its sender. *)
Definition known_peers (cfg : Config) (si : ShardInfo) (ids : list string) : list Peer :=
  (ids ≫= λ shard, default [] (PeerList si !! shard)) ++ default [] (PeerList si !! ChainID cfg).
Lemma createP2p_peers {Conn R} cfg si ids : fst (createP2p (Conn := Conn) (R := R) cfg si ids) =
  foldl AddPeer (NewSender (address (LocalIP cfg) (LocalPort cfg))) (known_peers cfg si ids).
Proof.
  unfold createP2p, known_peers. cbn [fst]. rewrite foldl_app. f_equal. generalize (NewSender (Conn := Conn) (address (LocalIP cfg) (LocalPort cfg))).
  induction ids as [|shard ids IH]; intros s; [done|]. cbn [foldl]. rewrite bind_cons, foldl_app. apply IH.
Qed.
Lemma known_peers_elem cfg si ids p : range_of (RelatedShards si) ids →
  p ∈ known_peers cfg si ids ↔ ∃ shard, (shard = ChainID cfg ∨ is_Some (RelatedShards si !! shard)) ∧ p ∈ default [] (PeerList si !! shard).
Proof.
  intros Hr. unfold known_peers. rewrite elem_of_app, list_elem_of_bind. setoid_rewrite (range_elem _ _ _ Hr). naive_solver.
Qed.

Lemma pyr_config_at sc store_dir addrs k n c : make_config sc store_dir addrs k n = Ret c →
  addrs !! k = Some (LocalIP c, LocalPort c) ∧ ChainID c = peChainID (fst n) ∧ SignerIndex c = snd n ∧ IsI c = peIsI (fst n).
Proof.
  destruct n as [si i]. unfold make_config. intros ([ip port] & Hi & [= <-])%outcome_bind_Ret. apply idx_Ret in Hi as [_ Hi]. by rewrite Nat2Z.id in Hi.
Qed.

Section Network.
Context {B : BLS} (SetByCSPRNG : nat → SecretKey).

Lemma pyr_generated (sc : PyrShardConfig) (store_dir : string) : IPGun (pyrIPInUse sc) ≠ [] → Forall (λ si, 0 ≤ pePeerNum si) (pyrShards sc) →
  ∃ keyPairs addrs peers configs, generate_keys SetByCSPRNG (length (pyr_nodes (pyrShards sc))) = Ret keyPairs ∧
    GenerateConfigFiles SetByCSPRNG sc store_dir = Ret (addrs, shardInfoList sc peers, configs) ∧ NoDup addrs ∧
    length addrs = length (pyr_nodes (pyrShards sc)) ∧ length configs = length (pyr_nodes (pyrShards sc)) ∧
    (∀ c, default [] (peers !! c) = peers_of keyPairs addrs 0 c (nodes (map plain (pyrShards sc)))) ∧
    ∀ k c, configs !! k = Some c → ∃ n, pyr_nodes (pyrShards sc) !! k = Some n ∧ addrs !! k = Some (LocalIP c, LocalPort c) ∧
      ChainID c = peChainID (fst n) ∧ SignerIndex c = snd n ∧ IsI c = peIsI (fst n).
Proof.
  intros Hany Hnum. unfold GenerateConfigFiles.
  assert (Forall (λ si, 0 ≤ sePeerNum si) (map plain (pyrShards sc))) as Hnum' by (by apply list.Forall_fmap).
  destruct (generate_keys_spec SetByCSPRNG (Z.to_nat (totalNodes (map plain (pyrShards sc))))) as (keyPairs & Ek & Hkl & _).
  destruct (assign_peers_spec keyPairs (pyrIPInUse sc) (map plain (pyrShards sc)) Hany Hnum' Hkl) as (addrs & peers & -> & E & Hnd & Hl & Hp).
  rewrite Ek. rewrite totalNodes_length in Ek by done. unfold zlen in Ek. rewrite Nat2Z.id, pyr_nodes_plain, length_fmap in Ek.
  cbn [mbind outcome_bind]. rewrite E. cbn [mbind outcome_bind]. rewrite pyr_nodes_plain, length_fmap in Hl.
  destruct (make_all_spec (make_config sc store_dir addrs) (pyr_nodes (pyrShards sc)) 0) as (configs & -> & Hlc & Hc).
  { intros k [si i] Hk%lookup_lt_Some. unfold make_config. destruct (idx_nat addrs k) as ([ip port] & Ei & _); [lia|]. cbn [Nat.add]. rewrite Ei. by eexists. }
  cbn [mbind outcome_bind]. exists keyPairs, addrs, peers, configs. split_and!; [done..|]. intros k c Hk. destruct (Hc k c Hk) as (n & Hn & Hmk).
  exists n. split; [done|]. by apply pyr_config_at in Hmk.
Qed.
Lemma pyr_config_of (sc : PyrShardConfig) (addrs : list (string * Z)) (configs : list Config) j m : length configs = length (pyr_nodes (pyrShards sc)) →
  (∀ k c, configs !! k = Some c → ∃ n, pyr_nodes (pyrShards sc) !! k = Some n ∧ addrs !! k = Some (LocalIP c, LocalPort c) ∧
      ChainID c = peChainID (fst n) ∧ SignerIndex c = snd n ∧ IsI c = peIsI (fst n)) → nodes (map plain (pyrShards sc)) !! j = Some m →
  ∃ c, c ∈ configs ∧ ChainID c = seChainID (fst m) ∧ addrs !! j = Some (LocalIP c, LocalPort c).
Proof.
  intros Hl Hc. rewrite pyr_nodes_plain, list_lookup_fmap. intros (n & Hj & ->)%fmap_Some.
  destruct (lookup_lt_is_Some_2 configs j) as [c Hcj]; [rewrite Hl; by eapply lookup_lt_Some|].
  destruct (Hc j c Hcj) as (n' & Hn' & Ha & Hch & _). rewrite Hj in Hn'. injection Hn' as <-. exists c. split_and!; [by eapply list_elem_of_lookup_2|done|done].
Qed.

(** A generated Pyramid network is consistent.  Generation succeeds, and there
    is a configuration and a shard information for every validator.  A node's
    information has the kind its configuration says and lists, under its own
    shard and at the index it signs with, its own address and public key; its
    sender knows exactly the nodes of its own shard and of the related ones, each
    once. *)
Theorem pyr_network_consistent {Conn R : Type} (sc : PyrShardConfig) (store_dir : string) (Hany : IPGun (pyrIPInUse sc) ≠ [])
    (Hids : NoDup (map peChainID (pyrShards sc))) (Hnum : Forall (λ si, 0 ≤ pePeerNum si) (pyrShards sc)) :
  ∃ addrs infos configs, GenerateConfigFiles SetByCSPRNG sc store_dir = Ret (addrs, infos, configs) ∧ length infos = length configs ∧
    NoDup (map (λ c, address (LocalIP c) (LocalPort c)) configs) ∧
    ∀ k c si, configs !! k = Some c → infos !! k = Some si →
      IsIShard si = IsI c ∧ IsBShard si = negb (IsI c) ∧
      (∃ p, default [] (PeerList si !! ChainID c) !! Z.to_nat (SignerIndex c) = Some p ∧
         ShardInfo.GetIP p = address (LocalIP c) (LocalPort c) ∧
         ∃ priv, NewBLSKeyPair SetByCSPRNG BaseCurve k = Some (priv, PubkeyStr p)) ∧
      ∀ ids d, range_of (RelatedShards si) ids → let s := fst (createP2p (Conn := Conn) (R := R) c si ids) in
        NoDup (peer_ips (shardMap s) d) ∧
        ∀ ip, ip ∈ peer_ips (shardMap s) d ↔
          (d = ChainID c ∨ related si d = true) ∧ ∃ c', c' ∈ configs ∧ ChainID c' = d ∧ ip = address (LocalIP c') (LocalPort c').
Proof.
  destruct (pyr_generated sc store_dir Hany Hnum) as (keyPairs & addrs & peers & configs & Ek & E & Hnd & Hla & Hlc & Hp & Hc).
  exists addrs, (shardInfoList sc peers), configs. split; [done|]. rewrite shardInfoList_nodes, length_fmap. split; [done|]. split.
  { rewrite (addresses_of_configs LocalIP LocalPort addrs configs); [by apply addresses_text_NoDup|lia|]. intros k c Hk. by destruct (Hc k c Hk) as (? & _ & ? & _). }
  intros k c si Hk Hsi. destruct (Hc k c Hk) as (n & Hn & Ha & Hch & Hidx & HI). rewrite list_lookup_fmap, Hn in Hsi. injection Hsi as <-.
  destruct (shard_info_identity sc peers (fst n)) as [-> ->]. rewrite HI. split; [done|]. split; [done|]. split.
  - assert (nodes (map plain (pyrShards sc)) !! k = Some (plain (fst n), snd n)) as Hn' by (by rewrite pyr_nodes_plain, list_lookup_fmap, Hn).
    destruct (nodes_rank (map plain (pyrShards sc))) with k (plain (fst n)) (snd n) as [Hrk Hi]; [by rewrite map_map|done|].
    exists (peer_at keyPairs addrs k (plain (fst n))). cbn [PeerList shard_info]. rewrite Hp, Hidx, <- Hrk, Hch. cbn [seChainID plain].
    split_and!; [by eapply peers_of_place|by apply peer_at_address|]. unfold generate_keys in Ek. apply mapM_out_Ret in Ek.
    destruct (Forall2_lookup_l _ _ _ k k Ek) as (kp & Hkp & Ekp); [apply lookup_seq; split; [done|by eapply lookup_lt_Some]|].
    unfold peer_at. rewrite Ha, Hkp. cbn. destruct (NewBLSKeyPair SetByCSPRNG BaseCurve k) as [[priv pub]|]; [|done]. injection Ekp as <-. by exists priv.
  - intros ids d Hr s. subst s. rewrite createP2p_peers.
    destruct (AddPeer_addresses (NewSender (address (LocalIP c) (LocalPort c)) : Sender (Conn := Conn)) (known_peers c (shard_info sc peers (fst n)) ids) d)
      as [Hn' Hin]; [apply NoDup_nil_2|]. split; [exact Hn'|]. intros ip. rewrite Hin. setoid_rewrite (known_peers_elem c _ ids _ Hr).
    unfold related. cbn [PeerList RelatedShards shard_info]. setoid_rewrite related_set_dom. rewrite related_set_spec. setoid_rewrite Hp. split.
    + intros [[]%elem_of_nil|(p & (shard & Hs & Hpe) & Hd & <-)]. apply peers_of_elem in Hpe as (j & m & Hj & <- & ->). apply peer_at_chain in Hd as ->.
      split; [done|]. apply (pyr_config_of sc addrs configs j m Hlc Hc) in Hj as (c' & Hc' & Hin' & Ha'). exists c'. split_and!; [done|done|by apply peer_at_address].
    + intros [Hd (c' & [j Hj]%list_elem_of_lookup & <- & ->)]. destruct (Hc j c' Hj) as (m & Hm & Ha' & Hch' & _). right.
      exists (peer_at keyPairs addrs j (plain (fst m))). split_and!; [|by apply peer_at_chain|by apply peer_at_address].
      exists (ChainID c'). split; [done|]. apply peers_of_elem. exists j, (plain (fst m), snd m). split_and!; [by rewrite pyr_nodes_plain, list_lookup_fmap, Hm|done|done].
Qed.
End Network.

(** ** A network

    An I shard and a B shard related to it. *)
Module PyrNodeDemo.
Definition demo_net : PyrShardConfig :=
  {| pyrIPInUse := <["10.0.0.1" := 2]> {["10.0.0.2" := 1]};
     pyrShards := [{| peChainID := "i1"; pePeerNum := 2; peRelatedShards := ["b1"]; peIsI := true; peKeyRange := "[a,m]" |};
                   {| peChainID := "b1"; pePeerNum := 1; peRelatedShards := ["i1"]; peIsI := false; peKeyRange := "[m,z]" |}] |}.
#[local] Existing Instance LinearBLS.linear_BLS.
Definition demo_secret (i : nat) : SecretKey (BLS := LinearBLS.linear_BLS) := (Z.of_nat i + 1)%Z.
Definition demo_info : ShardInfo := shard_info demo_net ∅ {| peChainID := "b1"; pePeerNum := 1; peRelatedShards := ["i1"]; peIsI := false; peKeyRange := "[m,z]" |}.
Definition demo_cfg (isI : bool) : Config :=
  {| NodeName := "node3"; DirRoot := "net"; ChainID := if isI then "i1" else "b1"; IsI := isI; BShardNum := 1; IShardNum := 1; LocalIP := "10.0.0.1";
     LocalPort := 26602; Protocal := "pyramid"; MinBlockInterval := "10ms"; MaxPartSize := 204800; MaxBlockTxNum := 4096; SignerIndex := 0; ABCIApp := "minibank" |}.

Lemma createKeyRangeTree_owns_witness : ∃ t forest, createKeyRangeTree (demo_cfg false) demo_info ["i1"] = Ret (t, forest) ∧
  RT_Search t "c" = true ∧ RT_Search t "q" = true.
Proof.
  destruct (createKeyRangeTree_owns (demo_cfg false) demo_info ["i1"]) as (t & forest & E & Hs & _).
  - unfold range_of. vm_compute. reflexivity.
  - intros shard [E|E%list_elem_of_singleton]; subst shard; eexists; vm_compute; reflexivity.
  - exists t, forest. split; [exact E|]. split; apply Hs.
    + right. split; [reflexivity|]. exists "i1". split; [by eexists|]. eexists. split; vm_compute; reflexivity.
    + left. eexists. split; vm_compute; reflexivity.
Defined.
Lemma pyr_network_consistent_witness : ∃ addrs infos configs, GenerateConfigFiles demo_secret demo_net "net" = Ret (addrs, infos, configs) ∧
  NoDup (map (λ c, address (LocalIP c) (LocalPort c)) configs).
Proof.
  destruct (pyr_network_consistent (Conn := nat) (R := nat) demo_secret demo_net "net") as (addrs & infos & configs & E & _ & Hn & _);
    [vm_compute; discriminate|refine (bool_decide_unpack _ _); vm_compute; exact I|refine (bool_decide_unpack _ _); vm_compute; exact I|].
  exists addrs, infos, configs. split; [exact E|exact Hn].
Defined.
(** What the node of the B shard, and one of the I shard, know. *)
Definition pyr_start_check : bool :=
  match GenerateConfigFiles demo_secret demo_net "net" with
  | Ret (_, [i1; _; b1], [c1; _; c3]) =>
      let ips c si ids := (λ d, peer_ips (shardMap (fst (createP2p (Conn := nat) (R := nat) c si ids))) d) in
      bool_decide (ips c3 b1 ["i1"] "i1" = ["10.0.0.1:26601"; "10.0.0.2:26601"]) && bool_decide (ips c3 b1 ["i1"] "b1" = ["10.0.0.1:26602"]) &&
      bool_decide (ips c1 i1 ["b1"] "b1" = ["10.0.0.1:26602"]) && IsI c1 && IsBShard b1
  | _ => false
  end.
Example pyr_start_check_ok : pyr_start_check = true.
Proof. vm_compute. reflexivity. Qed.
Lemma I_shard_cross_message_panics_witness `{JsonCodec} bz : json_unmarshal bz = Some (NewEnvelop ChannelIDCrossShardMempool [1] 0) →
  dispatch (add_channels (NewReceiver "10.0.0.1" 26601 false) (λ st _ _ _, Ret (st, true)) (λ st _ _ _, Ret (st, true))
    ((λ _, λ st _ _ _, Ret (st, true)) <$> snd (createMempool (demo_cfg true)))) 0 bz = Panic.
Proof. intros E. by eapply I_shard_cross_message_panics. Qed.
End PyrNodeDemo.
