(* ===== verification/PyrConsensus.v ===== *)
(** * The Pyramid consensus state machine

    Models [source/pyramid/consensus/main.go]: one Tendermint instance per
    shard, with the cross-shard protocol on top.  B shards propose blocks of
    cross-shard transactions, the related I shards accept or refuse them in a
    block of their own, and the B shard commits or aborts them with a third
    block.

    The application, the database, the clock, random numbers and the order in
    which maps are iterated are parameters.  Messages sent are appended to
    [sent], also those a goroutine sends later: it works on values nobody
    changes.  [None] of a result means that the code does not return: a loop
    that does not end, or the fuel that bounds the mutual recursion of
    [handleStateTransition], [doMessage] and [enterNewRound] ran out.
    Logging, locking and [Stop] are left out. *)

From stdpp Require Import base list gmap strings numbers.
From Stdlib Require Import ZArith Lia.
From S2P Require Import Prelude Convert BitVector Hash Merkle MerkleProofs MerkleGen Wire Signer Store ShardInfo CList Mempool PyrTypes PyrParts PyrVotes PyrHeight.

(** What consensus uses of the application ([pyramid/definition/module.go]).
    The application writes blocks to the store of consensus. *)
Class ABCIConn (X S : Type) := {
  PreExecutionB : X → Block → outcome ABCIPreExecutionResponseB;
  PreExecutionI : X → Block → outcome ABCIPreExecutionResponseI;
  ExecutionInnerShard : X → S → Block → outcome (X * S * ABCIExecutionResponse * Z * Z * Z);
  AcceptCrossShard : X → S → Block → string → bool → outcome (X * S * ABCIExecutionResponse * Z * Z * Z);
  AcceptCommitShard : X → S → list bytes → list bool → string → outcome (X * S * ABCIExecutionResponse * Z * Z * Z);
  AppCommit : X → bytes;
  FillData : X → Block → outcome Block;
  CheckLock : X → bytes → outcome bool
}.

(** [pyramid/definition/message.go]. *)
Definition TagPart : Z := 1.
Definition TendermintProposal : Z := 4.
Definition TendermintPrevote : Z := 5.
Definition TendermintPrecommit : Z := 6.
Definition TagMessageAccept : Z := 8.
Definition TagMessageCommit : Z := 9.
Definition TagMessageOK : Z := 10.
Definition TagCrossShardBlock : Z := 11.

Inductive Message :=
| MPart (p : Part) | MProposal (p : Proposal) | MPrevote (p : Prevote) | MPrecommit (p : Precommit)
| MCrossShardBlock (m : CrossShardBlock) | MAccept (m : MessageAccept) | MCommit (m : MessageCommit)
| MOK (m : MessageOK).

(** A message to all nodes of a shard. *)
Record Envelope := { toShard : string; payload : bytes; messageType : Z }.

Inductive cs_error :=
| ErrHeight (e : hd_error) | ErrNotRelated | ErrBlockSignature | ErrAcceptToI | ErrAcceptSignature
| ErrCommitToB | ErrCommitSignature | ErrUnmarshal | ErrPart (e : part_error) | ErrVote (e : vote_error)
| ErrBlock | ErrUnknownMessage.

(** ** Results that may not come *)

Definition run (A : Type) : Type := outcome (option A).
Definition rbind {A B} (m : run A) (k : A → run B) : run B :=
  match m with Ret (Some a) => k a | Ret None => Ret None | Panic => Panic end.
Definition rlift {A} (m : outcome A) : run A := match m with Ret a => Ret (Some a) | Panic => Panic end.
Definition returns {A} (a : A) : run A := Ret (Some a).
Notation "'let*' p := m 'in' k" := (rbind m (λ x, match x with p => k end))
  (at level 10, p pattern, m at level 100, k at level 200).

(** ** Time *)
Definition time_add (t : GoTime) (d : Z) : GoTime :=
  {| unix := unix t + (nsec t + d) / 10 ^ 9; nsec := (nsec t + d) mod 10 ^ 9 |}.
Definition time_before (t u : GoTime) : bool :=
  (unix t <? unix u) || ((unix t =? unix u) && (nsec t <? nsec u)).

Section Consensus.
Context {H : HashFn} {B : BLS} {W : PyrWire} {PW : PyrPartWire} {VW : PyrVoteWire}.
Context {S : Type} {KV : KVStore S} {X : Type} {App : ABCIConn X S}.
(** The clock, [rand.Intn], and the orders of iteration over maps. *)
Context (now : nat → GoTime) (rand_Intn : nat → Z → Z).
Context (order_bz : gset bytes → list bytes) (order_str : gset string → list string).

(** ** State

    The fields of [ConsensusState], grouped by what uses them. *)

Record Position := { Height_ : Z; Round_ : Z; Step_ : Z }.
Record Config := {
  signer : Signer; signerIndex : Z; MinBlockInterval : Z; MaxPartSize : Z; maxBlockTxNum : Z
}.
Record Backend := { mempool : Mempool; cross_shard_mempool : Mempool; abci : X; store : S }.
Record LastBlock := {
  LastBlockTime : GoTime; LastBlockHash : bytes; LastReceiptRoot : bytes; LastStateRoot : bytes;
  BlockHash_ : bytes
}.
(** [committed] holds the keys with value true; [bseen] is nil until an I
    shard enters a height. *)
Record IShard := {
  crossShardBlockPool : gmap bytes CrossShardBlock; commitPool : gmap bytes MessageCommit;
  committed : gset bytes; bcount : Z; bseen : option (gset string)
}.
(** [maPool] is nil unless a cross-shard block is pending. *)
Record BShard := {
  pendingCrossShardBlockHash : bytes; pendingBlockSize : Z; maCount : Z;
  maPool : option (gmap string MessageAccept); shardHeight : gmap string Z
}.
Record ConsensusState := {
  pos : Position; cfg : Config; backend : Backend; lastBlock : LastBlock; ishard : IShard; bshard : BShard;
  heightDatas : HeightDataPackage; relayMessageChannel : gmap Z (gmap Z (list Message));
  sent : list Envelope; ticks : nat
}.

Definition set_pos (cs : ConsensusState) (p : Position) : ConsensusState :=
  {| pos := p; cfg := cfg cs; backend := backend cs; lastBlock := lastBlock cs; ishard := ishard cs;
     bshard := bshard cs; heightDatas := heightDatas cs; relayMessageChannel := relayMessageChannel cs;
     sent := sent cs; ticks := ticks cs |}.
Definition set_backend (cs : ConsensusState) (b : Backend) : ConsensusState :=
  {| pos := pos cs; cfg := cfg cs; backend := b; lastBlock := lastBlock cs; ishard := ishard cs;
     bshard := bshard cs; heightDatas := heightDatas cs; relayMessageChannel := relayMessageChannel cs;
     sent := sent cs; ticks := ticks cs |}.
Definition set_last (cs : ConsensusState) (l : LastBlock) : ConsensusState :=
  {| pos := pos cs; cfg := cfg cs; backend := backend cs; lastBlock := l; ishard := ishard cs;
     bshard := bshard cs; heightDatas := heightDatas cs; relayMessageChannel := relayMessageChannel cs;
     sent := sent cs; ticks := ticks cs |}.
Definition set_ishard (cs : ConsensusState) (i : IShard) : ConsensusState :=
  {| pos := pos cs; cfg := cfg cs; backend := backend cs; lastBlock := lastBlock cs; ishard := i;
     bshard := bshard cs; heightDatas := heightDatas cs; relayMessageChannel := relayMessageChannel cs;
     sent := sent cs; ticks := ticks cs |}.
Definition set_bshard (cs : ConsensusState) (b : BShard) : ConsensusState :=
  {| pos := pos cs; cfg := cfg cs; backend := backend cs; lastBlock := lastBlock cs; ishard := ishard cs;
     bshard := b; heightDatas := heightDatas cs; relayMessageChannel := relayMessageChannel cs;
     sent := sent cs; ticks := ticks cs |}.
Definition set_hd (cs : ConsensusState) (h : HeightDataPackage) : ConsensusState :=
  {| pos := pos cs; cfg := cfg cs; backend := backend cs; lastBlock := lastBlock cs; ishard := ishard cs;
     bshard := bshard cs; heightDatas := h; relayMessageChannel := relayMessageChannel cs;
     sent := sent cs; ticks := ticks cs |}.
Definition set_relay (cs : ConsensusState) (r : gmap Z (gmap Z (list Message))) : ConsensusState :=
  {| pos := pos cs; cfg := cfg cs; backend := backend cs; lastBlock := lastBlock cs; ishard := ishard cs;
     bshard := bshard cs; heightDatas := heightDatas cs; relayMessageChannel := r;
     sent := sent cs; ticks := ticks cs |}.
Definition send (cs : ConsensusState) (ms : list Envelope) : ConsensusState :=
  {| pos := pos cs; cfg := cfg cs; backend := backend cs; lastBlock := lastBlock cs; ishard := ishard cs;
     bshard := bshard cs; heightDatas := heightDatas cs; relayMessageChannel := relayMessageChannel cs;
     sent := sent cs ++ ms; ticks := ticks cs |}.
Definition tick (cs : ConsensusState) : ConsensusState :=
  {| pos := pos cs; cfg := cfg cs; backend := backend cs; lastBlock := lastBlock cs; ishard := ishard cs;
     bshard := bshard cs; heightDatas := heightDatas cs; relayMessageChannel := relayMessageChannel cs;
     sent := sent cs; ticks := Datatypes.S (ticks cs) |}.
Definition set_step (cs : ConsensusState) (s : Z) : ConsensusState :=
  set_pos cs {| Height_ := Height_ (pos cs); Round_ := Round_ (pos cs); Step_ := s |}.
Definition set_app (cs : ConsensusState) (x : X) (s : S) : ConsensusState :=
  set_backend cs {| mempool := mempool (backend cs); cross_shard_mempool := cross_shard_mempool (backend cs);
                    abci := x; store := s |}.
Definition set_pools (cs : ConsensusState) (mp cmp : Mempool) : ConsensusState :=
  set_backend cs {| mempool := mp; cross_shard_mempool := cmp; abci := abci (backend cs); store := store (backend cs) |}.

Definition csHeight (cs : ConsensusState) : Z := Height_ (pos cs).
Definition csRound (cs : ConsensusState) : Z := Round_ (pos cs).
Definition csStep (cs : ConsensusState) : Z := Step_ (pos cs).
Definition shardInfo (cs : ConsensusState) : ShardInfo := hdShardInfo (heightDatas cs).
Definition csIsIShard (cs : ConsensusState) : bool := IsIShard (shardInfo cs).
Definition csIsBShard (cs : ConsensusState) : bool := IsBShard (shardInfo cs).
Definition myChain (cs : ConsensusState) : string := MyChainID (heightDatas cs).
(** The keys of [RelatedShards], whatever their value. *)
Definition related_keys (cs : ConsensusState) : list string := order_str (dom (RelatedShards (shardInfo cs))).
Definition related_count (cs : ConsensusState) : Z := Z.of_nat (base.size (RelatedShards (shardInfo cs))).

(** The peers are read in the order [ids]; the store starts empty or not. *)
Definition NewConsensusState (chain_id : string) (si : ShardInfo) (ids : list string) (sg : Signer) (index : Z)
    (mp cmp : Mempool) (app : X) (db : S) (minBlockInterval maxPartSize maxTxNum : Z)
    : outcome ConsensusState :=
  hd ← NewHeightData chain_id 0 si ids;
  Ret {| pos := {| Height_ := 0; Round_ := 0; Step_ := RoundStepNewHeight |};
         cfg := {| signer := sg; signerIndex := index; MinBlockInterval := minBlockInterval;
                   MaxPartSize := maxPartSize; maxBlockTxNum := maxTxNum |};
         backend := {| mempool := mp; cross_shard_mempool := cmp; abci := app; store := db |};
         lastBlock := {| LastBlockTime := now 0; LastBlockHash := []; LastReceiptRoot := [];
                         LastStateRoot := []; BlockHash_ := [] |};
         ishard := {| crossShardBlockPool := ∅; commitPool := ∅; committed := ∅; bcount := 0; bseen := None |};
         bshard := {| pendingCrossShardBlockHash := []; pendingBlockSize := 0; maCount := -1; maPool := None;
                      shardHeight := ∅ |};
         heightDatas := hd; relayMessageChannel := ∅; sent := []; ticks := 1%nat |}.

(** ** Sending *)
Definition SendTo (cs : ConsensusState) (shardID : string) (bz : bytes) (t : Z) : ConsensusState :=
  send cs [{| toShard := shardID; payload := bz; messageType := t |}].
Definition SendInternal (cs : ConsensusState) (bz : bytes) (t : Z) : ConsensusState := SendTo cs (myChain cs) bz t.
Definition SendToRelatedShards (cs : ConsensusState) (bz : bytes) (t : Z) : ConsensusState :=
  foldl (λ cs shard, SendTo cs shard bz t) cs (related_keys cs).
Definition SendToRelatedShardsExcept (cs : ConsensusState) (bz : bytes) (t : Z) (exception : string) : ConsensusState :=
  foldl (λ cs shard, if bool_decide (shard = exception) then cs else SendTo cs shard bz t) cs (related_keys cs).

(** ** Messages from the future *)

(** A message for a later height or round is kept.  The result is false when
    it is the first one of its height. *)
Definition addRelayMessageIfOverTime (cs : ConsensusState) (height round : Z) (msg : Message)
    : ConsensusState * bool :=
  if (csHeight cs <? height) || ((csHeight cs =? height) && (csRound cs <? round)) then
    match relayMessageChannel cs !! height with
    | Some u => (set_relay cs (<[height := <[round := default [] (u !! round) ++ [msg]]> u]> (relayMessageChannel cs)), true)
    | None => (set_relay cs (<[height := {[round := [msg]]}]> (relayMessageChannel cs)), false)
    end
  else (cs, false).

Definition Next (cs : ConsensusState) : ConsensusState :=
  if csStep cs =? RoundStepCommit then
    set_pos (set_relay cs (delete (csHeight cs) (relayMessageChannel cs)))
      {| Height_ := int64 (csHeight cs + 1); Round_ := 0; Step_ := RoundStepNewHeight |}
  else set_step cs (int8 (csStep cs + 1)).

Definition calculateProposer (cs : ConsensusState) : outcome Z :=
  v ← own_verifier (heightDatas cs);
  if Verifier_Size v =? 0 then Panic else Ret (Z.rem (int64 (csHeight cs + csRound cs)) (Verifier_Size v)).
Definition isProposer (cs : ConsensusState) : outcome bool :=
  p ← calculateProposer cs; Ret (p =? signerIndex (cfg cs)).

(** [VerifySignatures] with the validators of the shard the header names. *)
Definition verify_collective (cs : ConsensusState) (p : PrecommitAggregated) : outcome bool :=
  VerifySignatures p (AllValidatorSet (heightDatas cs) !! pshChainID (paHeader p)) (Byte (ValidatorBitVector p)).
Definition from_related (cs : ConsensusState) (p : PrecommitAggregated) : bool :=
  related (shardInfo cs) (pshChainID (paHeader p)).

(** ** Creating blocks *)

Definition new_block (type : Z) (body cross : list bytes) : Block :=
  {| bHeader := {| BlockType := type; HashPointer := []; ChainID := EmptyString; Height := 0;
       Time := {| unix := - 62135596800; nsec := 0 |}; BodyRoot := []; CrossShardBodyRoot := [];
       StateRoot := []; ReceiptRoot := []; RelationRoot := [] |};
     bBody := {| BodyTxs := body |}; bCross := {| CrossShardTxs := cross; CrossShardDatas := [] |};
     bRelation := {| RelatedCommitStatus := []; RelatedHash := []; MyCommitStatus := [] |}; blockhash := [] |}.

Definition reap (cs : ConsensusState) (mp : Mempool) : outcome (list bytes * Z) :=
  PyramidPool.ReapTx (CheckLock (abci (backend cs))) mp (maxBlockTxNum (cfg cs)).

Definition createIBlockTxs (cs : ConsensusState) : outcome (ConsensusState * Block) :=
  let pool := crossShardBlockPool (ishard cs) in
  let commits := commitPool (ishard cs) in
  let b := Z.of_nat (base.size pool) in
  if 0 <? b then
    key ← idx (order_bz (dom pool)) (rand_Intn (ticks cs) b);
    csb ← deref (pool !! key);
    bz ← CSB_ProtoBytes csb;
    Ret (tick cs, new_block BLOCKTYPE_IAcceptBlock [bz] [])
  else if 0 <? Z.of_nat (base.size commits) then
    bzs ← mapM_out (λ key, mc ← deref (commits !! key); MC_ProtoBytes mc) (order_bz (dom commits));
    Ret (cs, new_block BLOCKTYPE_ICommitBlock bzs [])
  else
    '(txs, _) ← reap cs (mempool (backend cs));
    Ret (cs, new_block BLOCKTYPE_InnerShard txs []).

(** The block of a B shard without pending cross-shard block or with one that
    waits for answers. *)
Definition inner_block (cs : ConsensusState) : outcome Block :=
  '(txs, _) ← reap cs (mempool (backend cs));
  Ret (new_block BLOCKTYPE_InnerShard txs []).
Definition createBBlockTxs (cs : ConsensusState) : outcome Block :=
  '(txs, n) ← (if maCount (bshard cs) =? -1 then reap cs (cross_shard_mempool (backend cs)) else Ret ([], 0));
  if 0 <? n then FillData (abci (backend cs)) (new_block BLOCKTYPE_CrossShard [] txs)
  else if maCount (bshard cs) =? 0 then
    let pool := default ∅ (maPool (bshard cs)) in
    mas ← mapM_out (λ key, deref (pool !! key)) (order_str (dom pool));
    bz ← MAS_ProtoBytes {| Accepts := mas; masBlockHash := pendingCrossShardBlockHash (bshard cs) |};
    Ret (new_block BLOCKTYPE_BCommitBlock [bz] [])
  else inner_block cs.

Definition with_header (b : Block) (cs : ConsensusState) (t : GoTime) : Block :=
  {| bHeader := {| BlockType := BlockType (bHeader b); HashPointer := LastBlockHash (lastBlock cs);
       ChainID := myChain cs; Height := csHeight cs; Time := t; BodyRoot := []; CrossShardBodyRoot := [];
       StateRoot := LastStateRoot (lastBlock cs); ReceiptRoot := LastReceiptRoot (lastBlock cs);
       RelationRoot := [] |};
     bBody := bBody b; bCross := bCross b; bRelation := bRelation b; blockhash := blockhash b |}.

(** The time of a block is at least the minimal interval after the last one. *)
Definition createBlockAndBroadcast (cs : ConsensusState) : run ConsensusState :=
  let* (cs, block) := rlift (if csIsBShard cs then b ← createBBlockTxs cs; Ret (cs, b) else createIBlockTxs cs) in
  let interval_dst := time_add (LastBlockTime (lastBlock cs)) (MinBlockInterval (cfg cs)) in
  let t := now (Datatypes.S (ticks cs)) in
  let cs := tick (tick cs) in
  let block := with_header block cs (if time_before t interval_dst then interval_dst else t) in
  let* (block, part_set) := PartSetFromBlock block (MaxPartSize (cfg cs)) (csRound cs) in
  let proposal := NewProposal (psHeader part_set) (signerIndex (cfg cs)) (BlockHeaderHash part_set) in
  rlift (
    msg ← Proposal_SignBytes proposal;
    let proposal := {| prVoteType := prVoteType proposal; prHeader := prHeader proposal;
      ProposerIndex := ProposerIndex proposal; prBlockHeaderHash := prBlockHeaderHash proposal;
      prSignature := Signer_Sign (signer (cfg cs)) msg |} in
    let cs := set_hd cs (set_proposal (heightDatas cs) (Some proposal) (Some part_set) (Some block)) in
    bz ← Proposal_ProtoBytes proposal;
    let cs := SendInternal cs bz TendermintProposal in
    foldM (λ cs p, part ← deref p; bz ← Part_ProtoBytes part; Ret (SendInternal cs bz TagPart)) (Parts part_set) cs).

(** ** Executing blocks *)

Definition updateIState (cs : ConsensusState) (block : Block) (cross_shard_block_hash : bytes) : outcome ConsensusState :=
  let i := ishard cs in
  if BlockType (bHeader block) =? BLOCKTYPE_InnerShard then
    mp ← PyramidPool.Update (mempool (backend cs)) (BodyTxs (bBody block)) None;
    Ret (set_pools cs mp (cross_shard_mempool (backend cs)))
  else if BlockType (bHeader block) =? BLOCKTYPE_IAcceptBlock then
    Ret (set_ishard cs {| crossShardBlockPool := delete cross_shard_block_hash (crossShardBlockPool i);
      commitPool := commitPool i; committed := committed i; bcount := bcount i; bseen := bseen i |})
  else if BlockType (bHeader block) =? BLOCKTYPE_ICommitBlock then
    Ret (set_ishard cs {| crossShardBlockPool := crossShardBlockPool i;
      commitPool := delete cross_shard_block_hash (commitPool i);
      committed := {[cross_shard_block_hash]} ∪ committed i; bcount := bcount i; bseen := bseen i |})
  else Ret cs.

Definition updateBState (cs : ConsensusState) (block : Block) (cross_shard_block_hash : bytes) (ifcommit : bool)
    : outcome ConsensusState :=
  let b := bshard cs in
  if BlockType (bHeader block) =? BLOCKTYPE_InnerShard then
    mp ← PyramidPool.Update (mempool (backend cs)) (BodyTxs (bBody block)) None;
    Ret (set_pools cs mp (cross_shard_mempool (backend cs)))
  else if BlockType (bHeader block) =? BLOCKTYPE_CrossShard then
    Ret (set_bshard cs {| pendingCrossShardBlockHash := cross_shard_block_hash;
      pendingBlockSize := Txs_Size (CrossShardTxs (bCross block)); maCount := related_count cs; maPool := Some ∅;
      shardHeight := shardHeight b |})
  else if BlockType (bHeader block) =? BLOCKTYPE_BCommitBlock then
    cs ← (if ifcommit then
            match PrefixStore.GetBlockByHash (store (backend cs)) cross_shard_block_hash with
            | inr _ => Panic
            | inl ublockBz =>
                u ← NewBlockFromBytes (sbytes ublockBz);
                ublock ← deref u;
                cmp ← PyramidPool.Update (cross_shard_mempool (backend cs)) (CrossShardTxs (bCross ublock)) None;
                Ret (set_pools cs (mempool (backend cs)) cmp)
            end
          else Ret cs);
    Ret (set_bshard cs {| pendingCrossShardBlockHash := []; pendingBlockSize := pendingBlockSize b; maCount := -1;
      maPool := None; shardHeight := shardHeight b |})
  else Ret cs.

(** The commit messages of a block: their block hashes and outcomes. *)
Definition commit_message (tx : bytes) : outcome (bytes * bool) :=
  mc ← NewMessageCommitFromBytes tx;
  mc ← deref mc;
  Ret (mcBlockHash mc, PA_IsOK (mcSignatures mc)).

(** An I shard's block, executed by its own shard at the end of a consensus
    round, or by a B shard that follows the I shard. *)
Definition processIBlock (cs : ConsensusState) (block : Block) (chain_id : string) (isConsensusRound isok : bool)
    : outcome (ConsensusState * ABCIExecutionResponse * Z * Z * Z) :=
  '(cs, aggSig) ← (if isConsensusRound then
      aggSig ← GenerateAggregatePrecommitSignature (heightDatas cs);
      prop ← isProposer cs;
      cs ← (if prop : bool then
              bz ← CSB_ProtoBytes {| csbBlock := block; csbSignatures := aggSig |};
              Ret (SendToRelatedShards cs bz TagCrossShardBlock)
            else Ret cs);
      Ret (cs, Some aggSig)
    else Ret (cs, None));
  if BlockType (bHeader block) =? BLOCKTYPE_InnerShard then
    '(x, s, resp, c1, c2, c3) ← ExecutionInnerShard (abci (backend cs)) (store (backend cs)) block;
    let cs := set_app cs x s in
    cs ← (if isConsensusRound then '(_, h) ← Block_Hash block; updateIState cs block h else Ret cs);
    Ret (cs, resp, c1, c2, c3)
  else if BlockType (bHeader block) =? BLOCKTYPE_IAcceptBlock then
    tx ← idx (BodyTxs (bBody block)) 0;
    blocks ← NewCrossShardBlockFromBytes tx;
    blocks ← deref blocks;
    let accept := match aggSig with Some a => PA_IsOK a | None => isok end in
    '(x, s, resp, c1, c2, c3) ← AcceptCrossShard (abci (backend cs)) (store (backend cs)) (csbBlock blocks) chain_id accept;
    let cs := set_app cs x s in
    '(_, hs) ← Block_Hash (csbBlock blocks);
    prop ← isProposer cs;
    cs ← (match aggSig with
          | Some a =>
              cs ← (if prop : bool then
                      bz ← MA_ProtoBytes {| maBlockHash := hs; maSignatures := a |};
                      Ret (SendTo cs (ChainID (bHeader (csbBlock blocks))) bz TagMessageAccept)
                    else Ret cs);
              updateIState cs block hs
          | None => Ret cs
          end);
    Ret (cs, resp, c1, c2, c3)
  else if BlockType (bHeader block) =? BLOCKTYPE_ICommitBlock then
    hcs ← mapM_out commit_message (BodyTxs (bBody block));
    '(x, s, resp, c1, c2, c3) ← AcceptCommitShard (abci (backend cs)) (store (backend cs)) (map fst hcs) (map snd hcs) chain_id;
    let cs := set_app cs x s in
    cs ← (if isConsensusRound then foldM (λ cs hs, updateIState cs block hs) (map fst hcs) cs else Ret cs);
    Ret (cs, resp, c1, c2, c3)
  else Panic.

(** One receipt for a block without transactions of its own. *)
Definition one_receipt : ABCIExecutionResponse :=
  {| Receipts := [{| rCode := CodeTypeOK; rLog := EmptyString; rInfo := EmptyString; rOptions := ∅ |}] |}.

Definition processBBlock (cs : ConsensusState) (block : Block) (isConsensusRound : bool)
    : outcome (ConsensusState * ABCIExecutionResponse * Z * Z * Z) :=
  if BlockType (bHeader block) =? BLOCKTYPE_InnerShard then
    '(x, s, resp, c1, c2, c3) ← ExecutionInnerShard (abci (backend cs)) (store (backend cs)) block;
    let cs := set_app cs x s in
    cs ← (if isConsensusRound then '(_, h) ← Block_Hash block; updateBState cs block h false else Ret cs);
    Ret (cs, resp, c1, c2, c3)
  else if BlockType (bHeader block) =? BLOCKTYPE_CrossShard then
    aggSig ← GenerateAggregatePrecommitSignature (heightDatas cs);
    prop ← isProposer cs;
    cs ← (if prop && isConsensusRound then
            bz ← CSB_ProtoBytes {| csbBlock := block; csbSignatures := aggSig |};
            Ret (SendToRelatedShards cs bz TagCrossShardBlock)
          else Ret cs);
    cs ← (if isConsensusRound then '(_, h) ← Block_Hash block; updateBState cs block h false else Ret cs);
    Ret (cs, one_receipt, 1, 0, 0)
  else if BlockType (bHeader block) =? BLOCKTYPE_BCommitBlock then
    aggSig ← GenerateAggregatePrecommitSignature (heightDatas cs);
    let pending := pendingCrossShardBlockHash (bshard cs) in
    prop ← isProposer cs;
    cs ← (if prop && isConsensusRound then
            bz ← MC_ProtoBytes {| mcBlockHash := pending; mcSignatures := aggSig |};
            Ret (SendToRelatedShards cs bz TagMessageCommit)
          else Ret cs);
    cs ← (if isConsensusRound then updateBState cs block pending true else Ret cs);
    let n := pendingBlockSize (bshard cs) in
    let b := bshard cs in
    let cs := set_bshard cs {| pendingCrossShardBlockHash := pendingCrossShardBlockHash b; pendingBlockSize := 0;
      maCount := maCount b; maPool := maPool b; shardHeight := shardHeight b |} in
    Ret (cs, one_receipt, 1, if PA_IsOK aggSig then n else 0, n)
  else Panic.

(** ** The steps of a round *)

Definition set_vote_hash (cs : ConsensusState) (hash : bytes) : ConsensusState :=
  let l := lastBlock cs in
  set_last cs {| LastBlockTime := LastBlockTime l; LastBlockHash := LastBlockHash l;
    LastReceiptRoot := LastReceiptRoot l; LastStateRoot := LastStateRoot l; BlockHash_ := hash |}.

(** The answers in a commit block: [None] when one of them is not genuine,
    otherwise whether all of them accept. *)
Fixpoint check_accepts (cs : ConsensusState) (mas : list MessageAccept) (pvote : bool) : outcome (option bool) :=
  match mas with
  | [] => Ret (Some pvote)
  | ma :: mas' =>
      if negb (from_related cs (maSignatures ma)) then Ret None
      else
        ok ← verify_collective cs (maSignatures ma);
        if negb ok then Ret None
        else check_accepts cs mas' (pvote && PA_IsOK (maSignatures ma))
  end.
Fixpoint check_commits (cs : ConsensusState) (txs : list bytes) : outcome bool :=
  match txs with
  | [] => Ret true
  | tx :: txs' =>
      mc ← NewMessageCommitFromBytes tx;
      match mc with
      | None => Ret false
      | Some mc =>
          if negb (from_related cs (mcSignatures mc)) then Ret false
          else ok ← verify_collective cs (mcSignatures mc); if negb ok then Ret false else check_commits cs txs'
      end
  end.

(** The vote on a proposed block: [None] is [flag = false], a panic in the
    code, otherwise [pvote]. *)
Definition judge_B (cs : ConsensusState) (block : Block) : outcome (option bool) :=
  let type := BlockType (bHeader block) in
  if type =? BLOCKTYPE_InnerShard then Ret (Some true)
  else if type =? BLOCKTYPE_CrossShard then
    resp ← PreExecutionB (abci (backend cs)) block;
    Ret (if RespB_IsOK resp then Some true else None)
  else if type =? BLOCKTYPE_BCommitBlock then
    match BodyTxs (bBody block) with
    | [tx] =>
        ba ← NewMessageAcceptSetFromBytes tx;
        match ba with
        | None => Ret None
        | Some ba =>
            if negb (bytes_Equal (pendingCrossShardBlockHash (bshard cs)) (masBlockHash ba)) then Ret None
            else if negb (zlen (Accepts ba) =? related_count cs) then Ret None
            else check_accepts cs (Accepts ba) true
        end
    | _ => Ret None
    end
  else Ret None.
Definition judge_I (cs : ConsensusState) (block : Block) : outcome (option bool) :=
  let type := BlockType (bHeader block) in
  if type =? BLOCKTYPE_InnerShard then Ret (Some true)
  else if type =? BLOCKTYPE_IAcceptBlock then
    match BodyTxs (bBody block) with
    | [tx] =>
        csb ← NewCrossShardBlockFromBytes tx;
        match csb with
        | None => Ret None
        | Some csb =>
            if negb (from_related cs (csbSignatures csb)) then Ret None
            else
              ok ← verify_collective cs (csbSignatures csb);
              if negb ok then Ret None
              else resp ← PreExecutionI (abci (backend cs)) (csbBlock csb); Ret (Some (RespI_IsOK resp))
        end
    | _ => Ret None
    end
  else if type =? BLOCKTYPE_ICommitBlock then
    ok ← check_commits cs (BodyTxs (bBody block)); Ret (if ok : bool then Some true else None)
  else Ret None.

Definition doPropose (cs : ConsensusState) : outcome ConsensusState :=
  block ← deref (hdBlock (heightDatas cs));
  '(block, hash) ← Block_Hash block;
  let cs := set_hd cs (set_proposal (heightDatas cs) (hdProposal (heightDatas cs)) (hdPartSet (heightDatas cs)) (Some block)) in
  let cs := set_vote_hash cs hash in
  j ← (if csIsBShard cs then judge_B cs block else judge_I cs block);
  match j with
  | None => Panic
  | Some pvote =>
      let vote := Prevote_SetOK (NewPrevote (csHeight cs) (csRound cs) hash (signerIndex (cfg cs))) pvote in
      msg ← Prevote_SignBytes vote;
      let vote := {| pvVoteType := pvVoteType vote; pvCode := pvCode vote; pvHeight := pvHeight vote;
        pvRound := pvRound vote; pvBlockHeaderHash := pvBlockHeaderHash vote;
        pvSignature := Signer_Sign (signer (cfg cs)) msg; pvValidatorIndex := pvValidatorIndex vote |} in
      '(hd, _) ← AddPrevote (heightDatas cs) vote;
      bz ← Prevote_ProtoBytes vote;
      Ret (Next (SendInternal (set_hd cs hd) bz TendermintPrevote))
  end.

Definition doPrevote (cs : ConsensusState) : outcome ConsensusState :=
  let '(bz, ok) := GetMaj23 (Prevotes (heightDatas cs)) in
  let vote := Precommit_SetOK (NewPrecommit (csHeight cs) (csRound cs) bz (signerIndex (cfg cs))) ok in
  msg ← Precommit_SignBytes vote;
  let vote := {| pcVoteType := pcVoteType vote; PyrVotes.pcCode := PyrVotes.pcCode vote; pcHeight := pcHeight vote;
    pcRound := pcRound vote; pcBlockHeaderHash := pcBlockHeaderHash vote;
    pcSignature := Signer_Sign (signer (cfg cs)) msg; pcValidatorIndex := pcValidatorIndex vote |} in
  '(hd, _) ← AddPrecommit (heightDatas cs) vote;
  bz ← Precommit_ProtoBytes vote;
  Ret (Next (SendInternal (set_hd cs hd) bz TendermintPrecommit)).

Definition doPrecommit (cs : ConsensusState) : outcome ConsensusState :=
  block ← deref (hdBlock (heightDatas cs));
  '(cs, resp, c1, c2, c3) ← (if csIsIShard cs then processIBlock cs block (myChain cs) true false
                             else processBBlock cs block true);
  bzz ← mapM_out Receipt_ProtoBytes (Receipts resp);
  '(respRoot, _) ← ProofsFromByteSlices bzz;
  '(block, hash) ← Block_Hash block;
  let cs := set_last cs {| LastBlockTime := Time (bHeader block); LastBlockHash := hash; LastReceiptRoot := respRoot;
    LastStateRoot := AppCommit (abci (backend cs)); BlockHash_ := BlockHash_ (lastBlock cs) |} in
  bz ← Block_ProtoBytes block;
  let s := fst (PrefixStore.SetBlockByHeight (store (backend cs)) (Height (bHeader block)) (ChainID (bHeader block)) hash (Some bz)) in
  Ret (Next (set_app cs (abci (backend cs)) s)).

(** ** Entering heights and rounds, and messages

    [handle] is the [handleStateTransition] these functions call. *)
Section Handlers.
Context (handle : ConsensusState → run (ConsensusState * option cs_error)).

(** What the vote and part handlers do with the result of the height's data. *)
Definition after_add (cs : ConsensusState) (r : outcome (HeightDataPackage * option hd_error))
    : run (ConsensusState * option cs_error) :=
  let* (hd, err) := rlift r in
  match err with
  | Some DoNothing => returns (set_hd cs hd, None)
  | Some e => returns (set_hd cs hd, Some (ErrHeight e))
  | None => handle (set_hd cs hd)
  end.

(** A B shard executes the stored blocks of an I shard from height [i0] on, as
    far as there are any; [fuel] bounds their number. *)
Fixpoint follow (fuel : nat) (cs : ConsensusState) (chain_id : string) (i0 : Z) (isok : bool) : run ConsensusState :=
  match fuel with
  | O => Ret None
  | Datatypes.S fuel' =>
      match PrefixStore.GetBlockByHeight (store (backend cs)) i0 chain_id with
      | inr _ | inl None => returns cs
      | inl (Some blockBz) =>
          let* r := rlift (b ← NewBlockFromBytes blockBz; iblock ← deref b;
                           processIBlock cs iblock chain_id false isok) in
          let '(cs, _, _, _, _) := r in
          let b := bshard cs in
          let cs := set_bshard cs {| pendingCrossShardBlockHash := pendingCrossShardBlockHash b;
            pendingBlockSize := pendingBlockSize b; maCount := maCount b; maPool := maPool b;
            shardHeight := <[chain_id := i0]> (shardHeight b) |} in
          follow fuel' cs chain_id (int64 (i0 + 1)) isok
      end
  end.

Definition do_cross_shard_block (fuel : nat) (cs : ConsensusState) (m : CrossShardBlock)
    : run (ConsensusState * option cs_error) :=
  let sigs := csbSignatures m in
  let chain_id := pshChainID (paHeader sigs) in
  if negb (from_related cs sigs) then returns (cs, Some ErrNotRelated)
  else
    let* (block, hash) := rlift (Block_Hash (csbBlock m)) in
    if match PrefixStore.Has (store (backend cs)) hash with inl b => b | inr _ => false end then returns (cs, None)
    else
      let* ok := rlift (verify_collective cs sigs) in
      if negb ok then returns (cs, Some ErrBlockSignature)
      else if csIsIShard cs then
        let i := ishard cs in
        handle (set_ishard cs {| crossShardBlockPool := <[hash := {| csbBlock := block; csbSignatures := sigs |}]> (crossShardBlockPool i);
          commitPool := commitPool i; committed := committed i; bcount := bcount i; bseen := bseen i |})
      else
        let* bz := rlift (Block_ProtoBytes block) in
        let s := fst (PrefixStore.SetBlockByHeight (store (backend cs)) (pshHeight (paHeader sigs)) chain_id hash (Some bz)) in
        let cs := set_app cs (abci (backend cs)) s in
        let* cs := follow fuel cs chain_id (int64 (default 0 (shardHeight (bshard cs) !! chain_id) + 1)) (PA_IsOK sigs) in
        handle cs.

Definition do_accept (cs : ConsensusState) (m : MessageAccept) : run (ConsensusState * option cs_error) :=
  let chain_id := pshChainID (paHeader (maSignatures m)) in
  let b := bshard cs in
  if csIsIShard cs then returns (cs, Some ErrAcceptToI)
  else if negb (bytes_Equal (maBlockHash m) (pendingCrossShardBlockHash b)) then returns (cs, None)
  else
    let* ok := rlift (verify_collective cs (maSignatures m)) in
    if negb ok then returns (cs, Some ErrAcceptSignature)
    else match maPool b with
    | None => Panic (* assignment to a nil map *)
    | Some pool =>
        match pool !! chain_id with
        | Some _ => returns (cs, None)
        | None =>
            handle (set_bshard cs {| pendingCrossShardBlockHash := pendingCrossShardBlockHash b;
              pendingBlockSize := pendingBlockSize b; maCount := maCount b - 1; maPool := Some (<[chain_id := m]> pool);
              shardHeight := shardHeight b |})
        end
    end.

Definition do_commit_message (cs : ConsensusState) (m : MessageCommit) : run (ConsensusState * option cs_error) :=
  let i := ishard cs in
  if csIsBShard cs then returns (cs, Some ErrCommitToB)
  else if bool_decide (mcBlockHash m ∈ committed i) then returns (cs, None)
  else
    let* ok := rlift (verify_collective cs (mcSignatures m)) in
    if negb ok then returns (cs, Some ErrCommitSignature)
    else handle (set_ishard cs {| crossShardBlockPool := crossShardBlockPool i;
           commitPool := <[mcBlockHash m := m]> (commitPool i); committed := committed i; bcount := bcount i;
           bseen := bseen i |}).

Definition do_ok (cs : ConsensusState) (m : MessageOK) : run (ConsensusState * option cs_error) :=
  let i := ishard cs in
  if moHeight m <? csHeight cs then returns (cs, None)
  else if bool_decide (SrcChain m ∈ default ∅ (bseen i)) then returns (cs, None)
  else match bseen i with
  | None => Panic (* assignment to a nil map *)
  | Some seen =>
      handle (set_ishard cs {| crossShardBlockPool := crossShardBlockPool i; commitPool := commitPool i;
        committed := committed i; bcount := bcount i - 1; bseen := Some ({[SrcChain m]} ∪ seen) |})
  end.

(** Runs [k] unless the message was put aside. *)
Definition unless_relayed (cs : ConsensusState) (height round : Z) (msg : Message)
    (k : ConsensusState → run (ConsensusState * option cs_error)) : run (ConsensusState * option cs_error) :=
  let '(cs, relayed) := addRelayMessageIfOverTime cs height round msg in
  if relayed : bool then returns (cs, None) else k cs.

Definition doMessage (fuel : nat) (cs : ConsensusState) (msg : Message) : run (ConsensusState * option cs_error) :=
  match msg with
  | MPart m => unless_relayed cs (ptHeight m) (ptRound m) msg
      (λ cs, after_add cs (AddPart (heightDatas cs) m))
  | MProposal m => unless_relayed cs (pshHeight (prHeader m)) (pshRound (prHeader m)) msg
      (λ cs, after_add cs (p ← calculateProposer cs; AddProposal (heightDatas cs) m p))
  | MPrevote m => unless_relayed cs (pvHeight m) (pvRound m) msg
      (λ cs, after_add cs (AddPrevote (heightDatas cs) m))
  | MPrecommit m => unless_relayed cs (pcHeight m) (pcRound m) msg
      (λ cs, after_add cs (AddPrecommit (heightDatas cs) m))
  | MCrossShardBlock m => do_cross_shard_block fuel cs m
  | MAccept m => do_accept cs m
  | MCommit m => do_commit_message cs m
  | MOK m => unless_relayed cs (moHeight m) 0 msg (λ cs, do_ok cs m)
  end.

(** The kept messages of a round, whatever each of them returns. *)
Fixpoint replay (fuel : nat) (msgs : list Message) (cs : ConsensusState) : run ConsensusState :=
  match msgs with
  | [] => returns cs
  | msg :: msgs' => let* (cs, _) := doMessage fuel cs msg in replay fuel msgs' cs
  end.

Definition enterNewRound (fuel : nat) (cs : ConsensusState) : run ConsensusState :=
  let cs := set_step cs RoundStepPropose in
  let* prop := rlift (isProposer cs) in
  let* cs := (if prop : bool then createBlockAndBroadcast cs else returns cs) in
  match relayMessageChannel cs !! csHeight cs with
  | None => returns cs
  | Some relay_height => replay fuel (default [] (relay_height !! csRound cs)) cs
  end.

Definition enterNewHeight (fuel : nat) (cs : ConsensusState) : run ConsensusState :=
  let cs := set_step cs RoundStepCommit in
  let i := ishard cs in
  let cs := if csIsIShard cs then
      set_ishard cs {| crossShardBlockPool := crossShardBlockPool i; commitPool := commitPool i;
        committed := committed i; bcount := related_count cs; bseen := Some ∅ |} else cs in
  let cs := Next cs in
  let* hd := rlift (NextHeight (heightDatas cs)) in
  enterNewRound fuel (set_hd cs hd).

Definition doCommit (fuel : nat) (cs : ConsensusState) : run ConsensusState :=
  let* prop := rlift (isProposer cs) in
  let* cs := rlift (if prop && csIsBShard cs then
      bz ← MO_ProtoBytes {| moHeight := csHeight cs; SrcChain := myChain cs |};
      Ret (SendToRelatedShards cs bz TagMessageOK)
    else Ret cs) in
  enterNewHeight fuel cs.

(** Whether the commit step is over: an I shard has heard of every related
    shard, a B shard has followed every related shard up to its height. *)
Definition may_commit (cs : ConsensusState) : bool :=
  if csIsIShard cs then bcount (ishard cs) =? 0
  else forallb (λ cid, negb (default 0 (shardHeight (bshard cs) !! cid) <? csHeight cs)) (related_keys cs).

(** The step a state can make; false when it waits. *)
Definition step_once (fuel : nat) (cs : ConsensusState) : run (ConsensusState * bool) :=
  if csStep cs =? RoundStepPropose then
    let* (hd, ok) := rlift (FinishProposal (heightDatas cs)) in
    let cs := set_hd cs hd in
    if ok : bool then let* cs := rlift (doPropose cs) in returns (cs, true) else returns (cs, false)
  else if csStep cs =? RoundStepPrevote then
    let* (hd, ok) := rlift (FinishPrevote (heightDatas cs)) in
    let cs := set_hd cs hd in
    if ok : bool then let* cs := rlift (doPrevote cs) in returns (cs, true) else returns (cs, false)
  else if csStep cs =? RoundStepPrecommit then
    let* (hd, ok) := rlift (FinishPrecommit (heightDatas cs)) in
    let cs := set_hd cs hd in
    if ok : bool then let* cs := rlift (doPrecommit cs) in returns (cs, true) else returns (cs, false)
  else if csStep cs =? RoundStepCommit then
    if may_commit cs then let* cs := doCommit fuel cs in returns (cs, true) else returns (cs, false)
  else returns (cs, false).
End Handlers.

(** The error is always nil. *)
Fixpoint handleStateTransition (fuel : nat) (cs : ConsensusState) : run (ConsensusState * option cs_error) :=
  match fuel with
  | O => Ret None
  | Datatypes.S fuel' =>
      let* (cs, moved) := step_once (handleStateTransition fuel') fuel' cs in
      if moved : bool then handleStateTransition fuel' cs else returns (cs, None)
  end.

Definition Start (fuel : nat) (cs : ConsensusState) : run ConsensusState :=
  if csHeight cs =? 0 then enterNewHeight (handleStateTransition fuel) fuel cs
  else let* (cs, _) := handleStateTransition fuel cs in returns cs.

(** Decoding: [None] is the error of the decoder. *)
Definition decode {A} (cs : ConsensusState) (r : outcome (option A)) (check : A → option cs_error)
    (k : A → run (ConsensusState * option cs_error)) : run (ConsensusState * option cs_error) :=
  let* o := rlift r in
  match o with
  | None => returns (cs, Some ErrUnmarshal)
  | Some a => match check a with Some e => returns (cs, Some e) | None => k a end
  end.
Definition Receive (fuel : nat) (cs : ConsensusState) (bz : bytes) (messageType : Z)
    : run (ConsensusState * option cs_error) :=
  let handle := handleStateTransition fuel in
  if messageType =? TagPart then
    decode cs (NewPartFromBytes bz) (λ p, ErrPart <$> Part_ValidateBasic p) (λ p, doMessage handle fuel cs (MPart p))
  else if messageType =? TendermintProposal then
    decode cs (NewProposalFromBytes bz) (λ p, ErrVote <$> Proposal_ValidateBasic p)
      (λ p, doMessage handle fuel cs (MProposal p))
  else if messageType =? TendermintPrevote then
    decode cs (Ret (NewPrevoteFromBytes bz)) (λ p, ErrVote <$> Prevote_ValidateBasic p)
      (λ p, doMessage handle fuel cs (MPrevote p))
  else if messageType =? TendermintPrecommit then
    decode cs (Ret (NewPrecommitFromBytes bz)) (λ p, ErrVote <$> Precommit_ValidateBasic p)
      (λ p, doMessage handle fuel cs (MPrecommit p))
  else if messageType =? TagCrossShardBlock then
    decode cs (NewCrossShardBlockFromBytes bz)
      (λ m, match Block_ValidateBasic (csbBlock m) with
            | Some _ => Some ErrBlock
            | None => ErrVote <$> PA_ValidateBasic (csbSignatures m)
            end)
      (λ m, doMessage handle fuel cs (MCrossShardBlock m))
  else if messageType =? TagMessageAccept then
    decode cs (NewMessageAcceptFromBytes bz) (λ m, ErrVote <$> PA_ValidateBasic (maSignatures m))
      (λ m, doMessage handle fuel cs (MAccept m))
  else if messageType =? TagMessageCommit then
    decode cs (NewMessageCommitFromBytes bz) (λ m, ErrVote <$> PA_ValidateBasic (mcSignatures m))
      (λ m, doMessage handle fuel cs (MCommit m))
  else if messageType =? TagMessageOK then
    decode cs (Ret (NewMessageOKFromBytes bz)) (λ _, None) (λ m, doMessage handle fuel cs (MOK m))
  else returns (cs, Some ErrUnknownMessage).

End Consensus.
