(* ===== verification/PyrConsensusProofs.v ===== *)
(** * What Pyramid consensus keeps

    An invariant of every state a node reaches ([cs_inv]): its heights, the
    votes it holds, the votes it has sent, and the answers it waits for. *)

From stdpp Require Import base list gmap strings numbers.
From Stdlib Require Import ZArith Lia.
From S2P Require Import Prelude Convert BitVector Hash Merkle MerkleProofs MerkleGen Wire Signer Store ShardInfo CList Mempool PyrTypes PyrParts PyrVotes PyrVoteProofs PyrHeight PyrHeightProofs PyrConsensus.

(** ** Inverting results *)

Lemma rbind_Some {A B} (m : run A) (k : A → run B) b :
  rbind m k = Ret (Some b) ↔ ∃ a, m = Ret (Some a) ∧ k a = Ret (Some b).
Proof. unfold rbind. destruct m as [[a|]|]; naive_solver. Qed.
Lemma rlift_Some {A} (m : outcome A) a : rlift m = Ret (Some a) ↔ m = Ret a.
Proof. unfold rlift. destruct m; naive_solver. Qed.
Lemma returns_Some {A} (a b : A) : returns a = Ret (Some b) ↔ a = b.
Proof. unfold returns. naive_solver. Qed.

(** Inverts [rbind m k = Ret (Some _)] and [m ≫= f = Ret _]. *)
Ltac run_inv E :=
  let x := fresh "x" in let Ex := fresh "Ex" in
  first [apply rbind_Some in E as (x & Ex & E); try apply (proj1 (rlift_Some _ _)) in Ex
        | apply outcome_bind_Ret in E as (x & Ex & E)].

Section Proofs.
Context {H : HashFn} {B : BLS} {W : PyrWire} {PW : PyrPartWire} {VW : PyrVoteWire}.
Context {S : Type} {KV : KVStore S} {X : Type} {App : ABCIConn X S}.
Context (now : nat → GoTime) (rand_Intn : nat → Z → Z).
Context (order_bz : gset bytes → list bytes) (order_str : gset string → list string).
Abbreviation CS := (ConsensusState (S:=S) (X:=X)).

(** ** The data of a height keeps its identity *)

Definition hd_key (h : HeightDataPackage) : Z * Z * string * ShardInfo * gmap string Verifier :=
  (hdHeight h, hdRound h, MyChainID h, hdShardInfo h, AllValidatorSet h).

Lemma AddPart_key h p h' e : AddPart h p = Ret (h', e) → hd_votes h' = hd_votes h.
Proof.
  unfold AddPart. destruct (_ || _); [by intros [= <- _]|]. destruct (bool_decide _); [by intros [= <- _]|].
  destruct (hdPartSet h) as [ps|]; [|by intros [= <- _]]. intros E. run_inv E. destruct x as [ps' [[]|]];
    try (by injection E as <- _). destruct (IsComplete ps'); [|by injection E as <- _].
  run_inv E. destruct x as [b [|]]; by injection E as <- _.
Qed.
Lemma replay_parts_key parts : ∀ h h', replay_parts h parts = Ret h' → hd_votes h' = hd_votes h.
Proof.
  unfold replay_parts. induction parts as [|p parts IH]; intros h h'; cbn [foldM]; [by intros [= <-]|].
  destruct (AddPart h p) as [[h1 e]|] eqn:E; cbn [mbind outcome_bind]; [|done]. intros E'.
  rewrite (IH _ _ E'). by eapply AddPart_key.
Qed.
Lemma AddProposal_key h p i h' e : AddProposal h p i = Ret (h', e) → hd_votes h' = hd_votes h.
Proof.
  unfold AddProposal. destruct (hdProposal h); [by intros [= <- _]|]. destruct (_ || _); [by intros [= <- _]|].
  destruct (negb _); [by intros [= <- _]|]. destruct (bool_decide _); [by intros [= <- _]|].
  intros E. do 3 run_inv E. destruct (negb x1); [by injection E as <- _|]. do 2 run_inv E. injection E as <- _.
  by rewrite (replay_parts_key _ _ _ Ex3).
Qed.
Lemma AddPrevote_key h p h' e : AddPrevote h p = Ret (h', e) → hd_key h' = hd_key h.
Proof.
  unfold AddPrevote. destruct (_ || _); [by intros [= <- _]|]. intros E. run_inv E.
  destruct (_ || _); [by injection E as <- _|]. do 2 run_inv E. destruct (negb x1); [by injection E as <- _|].
  do 2 run_inv E. destruct x3. by injection E as <- _.
Qed.
Lemma AddPrecommit_key h p h' e : AddPrecommit h p = Ret (h', e) → hd_key h' = hd_key h.
Proof.
  unfold AddPrecommit. destruct (_ || _); [by intros [= <- _]|]. intros E. run_inv E.
  destruct (_ || _); [by injection E as <- _|]. do 2 run_inv E. destruct (negb x1); [by injection E as <- _|].
  do 2 run_inv E. destruct x3. by injection E as <- _.
Qed.
Lemma FinishProposal_key h h' ok : FinishProposal h = Ret (h', ok) → hd_votes h' = hd_votes h.
Proof.
  unfold FinishProposal. destruct (_ <=? _); [by intros [= <- _]|]. destruct (hdProposal h); [|by intros [= <- _]].
  destruct (hdBlock h); [|by intros [= <- _]]. intros E. run_inv E. by destruct (negb _); injection E as <- _.
Qed.
Lemma FinishPrevote_key h h' ok : FinishPrevote h = Ret (h', ok) → hd_votes h' = hd_votes h.
Proof.
  unfold FinishPrevote. destruct (_ <=? _); [by intros [= <- _]|]. intros E. run_inv E. destruct x as [h1 o].
  apply FinishProposal_key in Ex. destruct (negb o); [injection E as <- _; done|].
  by destruct (negb _); injection E as <- _.
Qed.
Lemma FinishPrecommit_key h h' ok : FinishPrecommit h = Ret (h', ok) → hd_votes h' = hd_votes h.
Proof.
  unfold FinishPrecommit. destruct (_ <=? _); [by intros [= <- _]|]. intros E. run_inv E. destruct x as [h1 o].
  apply FinishPrevote_key in Ex. destruct (negb o); [injection E as <- _; done|].
  by destruct (negb _); injection E as <- _.
Qed.
Lemma NextHeight_key h h' : NextHeight h = Ret h' → hd_key h' =
  (int64 (hdHeight h + 1), 0, MyChainID h, hdShardInfo h, AllValidatorSet h).
Proof.
  unfold NextHeight, clearAll, clearPrevote, clearPrecommit. intros E. run_inv E. run_inv Ex. injection Ex as <-.
  run_inv E. by injection E as <-.
Qed.

(** What the operations on a height may do: they stay at the height, and keep
    its votes consistent. *)
Definition hd_ok (h h' : HeightDataPackage) : Prop := hd_key h' = hd_key h ∧ (hv_inv h → hv_inv h').
#[local] Instance hd_ok_preorder : PreOrder hd_ok.
Proof. split; [by intros h|]. intros a b c [K1 V1] [K2 V2]. split; [congruence|auto]. Qed.
Lemma votes_ok h h' : hd_votes h' = hd_votes h → hd_ok h h'.
Proof. intros E. split; [|by apply hv_ext]. unfold hd_votes in E. unfold hd_key. by injection E as -> -> -> -> -> _ _ _. Qed.
Lemma AddPrevote_ok h p h' e : AddPrevote h p = Ret (h', e) → hd_ok h h'.
Proof. intros E. split; [by eapply AddPrevote_key|]. intros I. destruct (AddPrevote_votes h p I) as (h1 & e1 & E1 & I1 & _). congruence. Qed.
Lemma AddPrecommit_ok h p h' e : AddPrecommit h p = Ret (h', e) → hd_ok h h'.
Proof. intros E. split; [by eapply AddPrecommit_key|]. intros I. destruct (AddPrecommit_votes h p I) as (h1 & e1 & E1 & I1 & _). congruence. Qed.
Lemma key_fields h h' : hd_key h' = hd_key h → hdHeight h' = hdHeight h ∧ hdRound h' = hdRound h ∧
  MyChainID h' = MyChainID h ∧ hdShardInfo h' = hdShardInfo h ∧ AllValidatorSet h' = AllValidatorSet h.
Proof. unfold hd_key. intros [=]. done. Qed.

(** ** The votes a node has sent *)

(** A vote of validator [i], for height [h], sent to its own shard. *)
Definition prevote_sent (chain : string) (sg : Signer) (i h : Z) (e : Envelope) : Prop :=
  toShard e = chain ∧ ∃ v msg, Prevote_ProtoBytes v = Ret (payload e) ∧ Prevote_SignBytes v = Ret msg ∧
    pvSignature v = Signer_Sign sg msg ∧ pvHeight v = h ∧ pvRound v = 0 ∧ pvValidatorIndex v = i.
Definition precommit_sent (chain : string) (sg : Signer) (i h : Z) (e : Envelope) : Prop :=
  toShard e = chain ∧ ∃ v msg, Precommit_ProtoBytes v = Ret (payload e) ∧ Precommit_SignBytes v = Ret msg ∧
    pcSignature v = Signer_Sign sg msg ∧ pcHeight v = h ∧ pcRound v = 0 ∧ pcValidatorIndex v = i.
Definition sent_of (t : Z) (es : list Envelope) : list Envelope := filter (λ e, messageType e = t) es.
(** The node has sent one prevote for each height up to [np], one precommit
    for each height up to [nc], in this order, and no other vote. *)
Definition log_at (cs : CS) (np nc : Z) : Prop :=
  Forall2 (λ k, prevote_sent (myChain cs) (signer (cfg cs)) (signerIndex (cfg cs)) (int64 k)) (seqZ 1 np)
    (sent_of TendermintPrevote (sent cs)) ∧
  Forall2 (λ k, precommit_sent (myChain cs) (signer (cfg cs)) (signerIndex (cfg cs)) (int64 k)) (seqZ 1 nc)
    (sent_of TendermintPrecommit (sent cs)).
(** The last height with a vote of step [t], at step [s] of height [n]. *)
Definition votes_due (n t s : Z) : Z := if t <? s then n else n - 1.

(** ** The invariant *)

(** An answer in the pool of a B shard: genuine, and for the pending block. *)
Definition accept_ok (cs : CS) (chain : string) (m : MessageAccept) : Prop :=
  chain = pshChainID (paHeader (maSignatures m)) ∧ maBlockHash m = pendingCrossShardBlockHash (bshard cs) ∧
  verify_collective cs (maSignatures m) = Ret true.

(** The shard, its configuration, the signer and the index the node started
    with. *)
Context (me : string * ShardInfo * Signer * Z).
(** These never change; consensus and the data of its height agree on height
    and round; the round is always 0; the votes of the height are consistent if the weights of the
    shard are; an I shard counts the shards it has not heard of; a B shard has
    either no pending block, or counts the shards whose answer is missing. *)
Record core_inv (cs : CS) : Prop := {
  ci_ident : (myChain cs, shardInfo cs, signer (cfg cs), signerIndex (cfg cs)) = me;
  ci_height : hdHeight (heightDatas cs) = csHeight cs;
  ci_hround : hdRound (heightDatas cs) = 0;
  ci_round : csRound cs = 0;
  ci_step : RoundStepNewHeight ≤ csStep cs ≤ RoundStepCommit;
  ci_votes : weights_ok (own_weights (heightDatas cs)) → hv_inv (heightDatas cs);
  ci_bseen : match bseen (ishard cs) with
    | None => True
    | Some seen => csIsIShard cs = true ∧ bcount (ishard cs) = related_count cs - Z.of_nat (base.size seen)
    end;
  ci_pool : match maPool (bshard cs) with
    | None => maCount (bshard cs) = -1 ∧ pendingCrossShardBlockHash (bshard cs) = []
    | Some pool => maCount (bshard cs) = related_count cs - Z.of_nat (base.size pool) ∧
        map_Forall (accept_ok cs) pool
    end
}.
(** Once started, the node has voted in every step it left, and in no other. *)
Record cs_inv (cs : CS) : Prop := {
  ci_core :> core_inv cs;
  ci_log : ∃ n, 1 ≤ n ∧ csHeight cs = int64 n ∧
    log_at cs (votes_due n RoundStepPropose (csStep cs)) (votes_due n RoundStepPrevote (csStep cs))
}.

(** What most operations leave alone. *)
Record core_frame (cs cs' : CS) : Prop := {
  fr_pos : pos cs' = pos cs;
  fr_cfg : cfg cs' = cfg cs;
  fr_hd : hd_ok (heightDatas cs) (heightDatas cs');
  fr_bseen : bseen (ishard cs') = bseen (ishard cs);
  fr_bcount : bcount (ishard cs') = bcount (ishard cs);
  fr_pool : maPool (bshard cs') = maPool (bshard cs);
  fr_count : maCount (bshard cs') = maCount (bshard cs);
  fr_pending : pendingCrossShardBlockHash (bshard cs') = pendingCrossShardBlockHash (bshard cs)
}.
Definition is_vote (t : Z) : Prop := t = TendermintPrevote ∨ t = TendermintPrecommit.
Record frame (cs cs' : CS) : Prop := {
  fr_core :> core_frame cs cs';
  fr_log : ∀ t, is_vote t → sent_of t (sent cs') = sent_of t (sent cs)
}.
#[local] Instance core_frame_preorder : PreOrder core_frame.
Proof. split; [by intros cs|]. intros a b c [] []. split; first [congruence|by etrans]. Qed.
#[local] Instance frame_preorder : PreOrder frame.
Proof. split; [by intros cs|]. intros a b c [F1 L1] [F2 L2]. split; [by etrans|]. intros t Ht. by rewrite L2, L1. Qed.

Lemma core_keep cs cs' : core_inv cs → core_frame cs cs' → core_inv cs'.
Proof.
  intros [I0 I1 I2 I3 I4 IV I5 I6] [F1 F8 [F2 FV] F3 F4 F5 F6 F7]. destruct (key_fields _ _ F2) as (K1 & K2 & K3 & K4 & K5).
  assert (own_weights (heightDatas cs') = own_weights (heightDatas cs)) as Kw by (unfold own_weights; congruence).
  unfold myChain, csHeight, csRound, csStep, csIsIShard, related_count, shardInfo in *.
  split; unfold myChain, csHeight, csRound, csStep, csIsIShard, related_count, shardInfo; rewrite ?F1, ?F8, ?K3, ?F3, ?F4, ?F5, ?F6, ?F7, ?K4; try done; [congruence..|rewrite Kw; auto|].
  destruct (maPool (bshard cs)); [|done]. destruct I6 as [I6 I7]. split; [done|]. intros c m Hm.
  destruct (I7 c m Hm) as (E1 & E2 & E3). split_and!; [done|congruence|]. unfold verify_collective in *. by rewrite K5.
Qed.
Lemma log_keep cs cs' np nc : frame cs cs' → log_at cs np nc → log_at cs' np nc.
Proof.
  intros F. pose proof (fr_log _ _ F) as FL. destruct (fr_hd _ _ F) as [F3 _]. destruct (key_fields _ _ F3) as (_ & _ & K & _).
  unfold log_at, myChain. rewrite (fr_cfg _ _ F), K, (FL TendermintPrevote), (FL TendermintPrecommit) by (unfold is_vote; auto). done.
Qed.
Lemma cs_inv_frame cs cs' : cs_inv cs → frame cs cs' → cs_inv cs'.
Proof.
  intros [I (n & Hn & Eh & L)] F. split; [by apply (core_keep cs cs' I F)|]. exists n. unfold csHeight, csStep in *.
  rewrite (fr_pos _ _ F). split_and!; [done..|]. by eapply log_keep.
Qed.
Lemma core_step cs s : core_inv cs → RoundStepNewHeight ≤ s ≤ RoundStepCommit → core_inv (set_step cs s).
Proof. intros [I0 I1 I2 I3 I4 IV I5 I6] Hs. by split. Qed.
Lemma Next_inv cs n : core_inv cs → csStep cs < RoundStepCommit → 1 ≤ n → csHeight cs = int64 n →
  log_at cs (votes_due n RoundStepPropose (csStep cs + 1)) (votes_due n RoundStepPrevote (csStep cs + 1)) → cs_inv (Next cs).
Proof.
  intros I Hs Hn Eh L. pose proof (ci_step _ I). unfold Next. destruct (Z.eqb_spec (csStep cs) RoundStepCommit); [lia|].
  unfold RoundStepCommit, RoundStepNewHeight in *. rewrite wrapS_small by lia. split; [|by exists n].
  apply core_step; [done|]. unfold RoundStepNewHeight, RoundStepCommit. lia.
Qed.

(** Sending the vote of a height. *)
Lemma sent_of_snoc t es e : sent_of t (es ++ [e]) = sent_of t es ++ (if bool_decide (messageType e = t) then [e] else []).
Proof. unfold sent_of. rewrite list.filter_app, list.filter_cons. f_equal. by destruct (decide (messageType e = t)); [rewrite bool_decide_true|rewrite bool_decide_false]. Qed.
Lemma seqZ_last n : 1 ≤ n → seqZ 1 n = seqZ 1 (n - 1) ++ [n].
Proof. intros Hn. replace (seqZ 1 n) with (seqZ 1 ((n - 1) + 1)) by (f_equal; lia). rewrite seqZ_app by lia. f_equal. rewrite seqZ_cons by lia. cbn. f_equal; lia. Qed.
Lemma core_frame_names cs cs' : core_frame cs cs' → myChain cs' = myChain cs ∧ cfg cs' = cfg cs.
Proof. intros F. destruct (fr_hd _ _ F) as [F3 _]. destruct (key_fields _ _ F3) as (_ & _ & K & _). split; [done|apply F]. Qed.
Lemma log_prevote cs cs' e n nc : core_frame cs cs' → sent cs' = sent cs ++ [e] → messageType e = TendermintPrevote → 1 ≤ n →
  prevote_sent (myChain cs) (signer (cfg cs)) (signerIndex (cfg cs)) (int64 n) e →
  log_at cs (n - 1) nc → log_at cs' n nc.
Proof.
  intros [E1 E2]%core_frame_names Es Et Hn He [L1 L2]. unfold log_at. rewrite E1, E2, Es, !sent_of_snoc, Et.
  rewrite bool_decide_true, bool_decide_false, app_nil_r by done. split; [|done]. rewrite seqZ_last by done. by apply Forall2_app; [|constructor].
Qed.
Lemma log_precommit cs cs' e n np : core_frame cs cs' → sent cs' = sent cs ++ [e] → messageType e = TendermintPrecommit → 1 ≤ n →
  precommit_sent (myChain cs) (signer (cfg cs)) (signerIndex (cfg cs)) (int64 n) e →
  log_at cs np (n - 1) → log_at cs' np n.
Proof.
  intros [E1 E2]%core_frame_names Es Et Hn He [L1 L2]. unfold log_at. rewrite E1, E2, Es, !sent_of_snoc, Et.
  rewrite bool_decide_false, bool_decide_true, app_nil_r by done. split; [done|]. rewrite seqZ_last by done. by apply Forall2_app; [|constructor].
Qed.

(** ** Operations inside the frame *)

Lemma frame_hd cs h : hd_ok (heightDatas cs) h → frame cs (set_hd cs h).
Proof. intros Hh. by constructor; [constructor|]. Qed.
Lemma send_frame cs shard bz t : ¬ is_vote t → frame cs (SendTo cs shard bz t).
Proof.
  intros Ht. constructor; [by constructor|]. intros t' Ht'. cbn [sent send SendTo]. rewrite sent_of_snoc.
  rewrite bool_decide_false by (cbn; by intros ->). apply app_nil_r.
Qed.
Lemma related_frame cs bz t : ¬ is_vote t → frame cs (SendToRelatedShards order_str cs bz t).
Proof.
  intros Ht. unfold SendToRelatedShards. generalize (related_keys order_str cs). intros l. revert cs.
  induction l as [|s l IH]; intros cs; [done|]. cbn [foldl]. etrans; [by apply send_frame|apply IH].
Qed.
Lemma no_vote t : negb ((t =? TendermintPrevote) || (t =? TendermintPrecommit)) = true → ¬ is_vote t.
Proof. intros Ht [-> | ->]; done. Qed.
Lemma updateIState_frame cs b h cs' : updateIState cs b h = Ret cs' → frame cs cs'.
Proof.
  unfold updateIState. destruct (_ =? _); [intros E; run_inv E; injection E as <-; by split|].
  destruct (_ =? _); [by intros [= <-]|]. destruct (_ =? _); by intros [= <-].
Qed.
Lemma updateIState_loop_frame b hs : ∀ cs cs', foldM (λ cs h, updateIState cs b h) hs cs = Ret cs' → frame cs cs'.
Proof.
  induction hs as [|h hs IH]; intros cs cs'; cbn [foldM]; [by intros [= <-]|].
  destruct (updateIState cs b h) as [cs1|] eqn:E; [|done]. intros E'. etrans; [by eapply updateIState_frame|by apply IH].
Qed.

Lemma processIBlock_frame cs block chain c isok cs' resp c1 c2 c3 :
  processIBlock order_str cs block chain c isok = Ret (cs', resp, c1, c2, c3) → frame cs cs'.
Proof.
  unfold processIBlock. intros E. run_inv E. destruct x as [cs1 agg].
  assert (frame cs cs1) as F1.
  { destruct c; [|by injection Ex as <- _]. do 3 run_inv Ex. injection Ex as <- _.
    destruct x0; [run_inv Ex2; injection Ex2 as <-; by apply related_frame, no_vote|by injection Ex2 as <-]. }
  etrans; [exact F1|]. clear Ex F1.
  destruct (_ =? BLOCKTYPE_InnerShard).
  { run_inv E. destruct x as [[[[[x s] r] d1] d2] d3]. run_inv E. injection E as <- _ _ _ _.
    transitivity (set_app cs1 x s); [by split|]. destruct c; [|by injection Ex0 as <-].
    run_inv Ex0. destruct x1. by eapply updateIState_frame. }
  destruct (_ =? BLOCKTYPE_IAcceptBlock).
  { do 4 run_inv E. destruct x2 as [[[[[x2 s] r] d1] d2] d3]. run_inv E. destruct x3 as [b3 hs]. do 2 run_inv E. injection E as <- _ _ _ _.
    transitivity (set_app cs1 x2 s); [by split|]. destruct agg as [a|]; [|by injection Ex5 as <-].
    run_inv Ex5. etrans; [|by eapply updateIState_frame]. destruct x3; [run_inv Ex6; injection Ex6 as <-; by apply send_frame, no_vote|by injection Ex6 as <-]. }
  destruct (_ =? BLOCKTYPE_ICommitBlock); [|done].
  do 2 run_inv E. destruct x0 as [[[[[x0 s] r] d1] d2] d3]. run_inv E. injection E as <- _ _ _ _.
  transitivity (set_app cs1 x0 s); [by split|]. destruct c; [|by injection Ex1 as <-]. by eapply updateIState_loop_frame.
Qed.

(** Executing a B block keeps the invariant and the position. *)
Lemma set_bshard_inv cs b : cs_inv cs →
  match maPool b with
  | None => maCount b = -1 ∧ pendingCrossShardBlockHash b = []
  | Some pool => maCount b = related_count cs - Z.of_nat (base.size pool) ∧ map_Forall (accept_ok (set_bshard cs b)) pool
  end → cs_inv (set_bshard cs b).
Proof. intros [[I0 I1 I2 I3 I4 IV I5 I6] L] Hb. split; [by split|done]. Qed.
Lemma updateBState_inv cs block h c cs' : cs_inv cs → updateBState cs block h c = Ret cs' →
  cs_inv cs' ∧ pos cs' = pos cs ∧ hd_key (heightDatas cs') = hd_key (heightDatas cs).
Proof.
  intros I. unfold updateBState. destruct (_ =? BLOCKTYPE_InnerShard).
  { intros E. run_inv E. injection E as <-. split; [|done]. apply (cs_inv_frame cs); [done|by split]. }
  destruct (_ =? BLOCKTYPE_CrossShard).
  { intros [= <-]. split; [|done]. apply set_bshard_inv; [done|]. cbn [maPool maCount]. split; [|by apply map_Forall_empty].
    replace (base.size (∅ : gmap string MessageAccept)) with 0%nat by done. lia. }
  destruct (_ =? BLOCKTYPE_BCommitBlock); [|by intros [= <-]].
  intros E. run_inv E. injection E as <-.
  assert (cs_inv x ∧ pos x = pos cs ∧ hd_key (heightDatas x) = hd_key (heightDatas cs)) as (Ix & P & K).
  { destruct c; [|by injection Ex as <-]. destruct (PrefixStore.GetBlockByHash _ _); [|done]. do 3 run_inv Ex. injection Ex as <-.
    split; [|done]. apply (cs_inv_frame cs); [done|by split]. }
  split; [|done]. by apply set_bshard_inv.
Qed.
Lemma processBBlock_inv cs block cs' resp c1 c2 c3 : cs_inv cs →
  processBBlock order_str cs block true = Ret (cs', resp, c1, c2, c3) → cs_inv cs' ∧ pos cs' = pos cs.
Proof.
  intros I. unfold processBBlock. destruct (_ =? BLOCKTYPE_InnerShard).
  { intros E. run_inv E. destruct x as [[[[[x s] r] d1] d2] d3]. run_inv E. injection E as <- _ _ _ _. run_inv Ex0. destruct x1.
    edestruct (updateBState_inv (set_app cs x s)) as (I' & P & _); [|exact Ex0|done].
    apply (cs_inv_frame cs); [done|by split]. }
  destruct (_ =? BLOCKTYPE_CrossShard).
  { intros E. do 4 run_inv E. injection E as <- _ _ _ _. run_inv Ex2. destruct x3.
    assert (frame cs x1) as F.
    { destruct (x0 && true); [run_inv Ex1; injection Ex1 as <-; by apply related_frame, no_vote|by injection Ex1 as <-]. }
    edestruct (updateBState_inv x1) as (I' & P & _); [by eapply cs_inv_frame|exact Ex2|]. split; [done|]. by rewrite P, (fr_pos _ _ F). }
  destruct (_ =? BLOCKTYPE_BCommitBlock); [|done].
  intros E. do 4 run_inv E. injection E as <- _ _ _ _.
  assert (frame cs x1) as F.
  { destruct (x0 && true); [run_inv Ex1; injection Ex1 as <-; by apply related_frame, no_vote|by injection Ex1 as <-]. }
  edestruct (updateBState_inv x1) as (I' & P & _); [by eapply cs_inv_frame|exact Ex2|].
  split; [|cbn; by rewrite P, (fr_pos _ _ F)]. by apply (cs_inv_frame x2).
Qed.

(** ** The steps *)

Lemma cs_propose_inv cs cs' : cs_inv cs → csStep cs = RoundStepPropose → doPropose cs = Ret cs' → cs_inv cs'.
Proof.
  intros I Hs. unfold doPropose. intros E. do 2 run_inv E. destruct x0 as [blk hash]. run_inv E.
  destruct x0 as [pvote|]; [|done]. do 2 run_inv E. destruct x1 as [hd e]. run_inv E. injection E as <-.
  destruct (ci_log _ I) as (n & Hn & Eh & L). rewrite Hs in L. pose proof (AddPrevote_ok _ _ _ _ Ex3) as Hhd.
  match goal with |- cs_inv (Next ?c) => assert (core_frame cs c) as F end.
  { constructor; try done. etrans; [|exact Hhd]. by apply votes_ok. }
  apply (Next_inv _ n); [apply (core_keep cs); [apply I|done]|..]; unfold csStep in *; cbn [pos SendInternal SendTo send set_hd set_vote_hash set_last] in *;
    [by rewrite Hs|done|done|]. rewrite Hs. eapply log_prevote; [exact F|done|done|done| |exact L].
  destruct (core_frame_names _ _ F) as [Ec _]. split; [by rewrite <- Ec|]. eexists _, _. split; [exact Ex4|]. split; [exact Ex2|].
  split; [done|]. cbn. split_and!; [exact Eh|apply I|done].
Qed.
Lemma doPrevote_inv cs cs' : cs_inv cs → csStep cs = RoundStepPrevote → doPrevote cs = Ret cs' → cs_inv cs'.
Proof.
  intros I Hs. unfold doPrevote. destruct (GetMaj23 _) as [bz ok]. intros E. do 2 run_inv E. destruct x0 as [hd e].
  run_inv E. injection E as <-. destruct (ci_log _ I) as (n & Hn & Eh & L). rewrite Hs in L. pose proof (AddPrecommit_ok _ _ _ _ Ex0) as Hhd.
  match goal with |- cs_inv (Next ?c) => assert (core_frame cs c) as F by (constructor; done) end.
  apply (Next_inv _ n); [apply (core_keep cs); [apply I|done]|..]; unfold csStep in *; cbn [pos SendInternal SendTo send set_hd] in *;
    [by rewrite Hs|done|done|]. rewrite Hs. eapply log_precommit; [exact F|done|done|done| |exact L].
  destruct (core_frame_names _ _ F) as [Ec _]. split; [by rewrite <- Ec|]. eexists _, _. split; [exact Ex1|]. split; [exact Ex|].
  split; [done|]. cbn. split_and!; [exact Eh|apply I|done].
Qed.
Lemma doPrecommit_inv cs cs' : cs_inv cs → csStep cs = RoundStepPrecommit → doPrecommit order_str cs = Ret cs' → cs_inv cs'.
Proof.
  intros I Hs. unfold doPrecommit. intros E. do 2 run_inv E. destruct x0 as [[[[cs1 resp] c1] c2] c3].
  assert (cs_inv cs1 ∧ pos cs1 = pos cs) as [I1 P1].
  { destruct (csIsIShard cs).
    - apply processIBlock_frame in Ex0. split; [by eapply cs_inv_frame|apply Ex0].
    - by eapply processBBlock_inv. }
  run_inv E. run_inv E. destruct x1. run_inv E. destruct x1 as [blk hash]. run_inv E. injection E as <-.
  match goal with |- cs_inv (Next ?c) => assert (cs_inv c) as [I2 (n & Hn & Eh & L)] by (apply (cs_inv_frame cs1); [done|by split]) end.
  assert (csStep cs1 = RoundStepPrecommit) as Hs1 by (unfold csStep in *; by rewrite P1).
  match goal with |- cs_inv (Next ?c) => change (csStep cs1) with (csStep c) in Hs1 end. rewrite Hs1 in L.
  apply (Next_inv _ n); rewrite ?Hs1; done.
Qed.
Lemma create_frame cs cs' : createBlockAndBroadcast now rand_Intn order_bz order_str cs = Ret (Some cs') → frame cs cs'.
Proof.
  unfold createBlockAndBroadcast. intros E. run_inv E. destruct x as [cs1 block].
  assert (frame cs cs1) as F1.
  { destruct (csIsBShard cs); [run_inv Ex; by simplify_eq|]. unfold createIBlockTxs in Ex.
    destruct (0 <? _); [do 3 run_inv Ex; injection Ex as <- _; by split|].
    destruct (0 <? _); [run_inv Ex; by injection Ex as <- _|]. run_inv Ex. destruct x. by injection Ex as <- _. }
  etrans; [exact F1|]. clear Ex F1. run_inv E. destruct x as [blk ps]. apply (proj1 (rlift_Some _ _)) in E. do 2 run_inv E.
  assert (Hparts : ∀ l a b, foldM (λ cs p, part ← deref p; bz ← Part_ProtoBytes part; Ret (SendInternal cs bz TagPart)) l a = Ret b → frame a b).
  { induction l as [|p l IH]; intros a b; cbn [foldM]; [by intros [= <-]|].
    destruct (deref p) as [q|]; cbn [mbind outcome_bind]; [|done]. destruct (Part_ProtoBytes q) as [bz|]; cbn [mbind outcome_bind]; [|done].
    intros Ef. etrans; [|by apply IH]. by apply send_frame, no_vote. }
  etrans; [|by eapply Hparts]. etrans; [|by apply send_frame, no_vote]. constructor; [constructor; try done|done]. by apply votes_ok.
Qed.

(** ** Messages *)

Lemma addRelay_frame cs h r msg : frame cs (fst (addRelayMessageIfOverTime cs h r msg)).
Proof. unfold addRelayMessageIfOverTime. destruct (_ || _); [|done]. by destruct (relayMessageChannel cs !! h). Qed.
Lemma follow_inv fuel : ∀ cs chain i isok cs', cs_inv cs → follow order_str fuel cs chain i isok = Ret (Some cs') → cs_inv cs'.
Proof.
  induction fuel as [|fuel IH]; intros cs chain i isok cs' I; cbn [follow]; [done|].
  destruct (PrefixStore.GetBlockByHeight _ _ _) as [[bz|]|]; [|by intros [= <-]..]. intros E. run_inv E.
  destruct x as [[[[cs1 r] d1] d2] d3]. eapply IH; [|exact E]. do 2 run_inv Ex. apply processIBlock_frame in Ex.
  apply (cs_inv_frame cs); [done|]. etrans; [exact Ex|]. by split.
Qed.
Lemma set_ishard_core cs i : core_inv cs →
  match bseen i with
  | None => True
  | Some seen => csIsIShard cs = true ∧ bcount i = related_count cs - Z.of_nat (base.size seen)
  end → core_inv (set_ishard cs i).
Proof. intros [I0 I1 I2 I3 I4 IV I5 I6] Hi. by split. Qed.
Lemma set_ishard_inv cs i : cs_inv cs →
  match bseen i with
  | None => True
  | Some seen => csIsIShard cs = true ∧ bcount i = related_count cs - Z.of_nat (base.size seen)
  end → cs_inv (set_ishard cs i).
Proof. intros [I L] Hi. split; [by apply set_ishard_core|done]. Qed.

Section Handlers.
Context (handle : CS → run (CS * option cs_error)).
Hypothesis (Hhandle : ∀ cs cs' e, cs_inv cs → handle cs = Ret (Some (cs', e)) → cs_inv cs').

Lemma after_add_inv cs r cs' e : cs_inv cs → (∀ hd er, r = Ret (hd, er) → hd_ok (heightDatas cs) hd) →
  after_add handle cs r = Ret (Some (cs', e)) → cs_inv cs'.
Proof using Hhandle.
  intros I Hr. unfold after_add. intros E. run_inv E. destruct x as [hd er].
  assert (cs_inv (set_hd cs hd)) as I1 by (apply (cs_inv_frame cs); [done|by apply frame_hd, (Hr hd er)]).
  destruct er as [[]|]; try (by injection E as <- _). by eapply Hhandle.
Qed.
Lemma do_cross_shard_block_inv fuel cs m cs' e : cs_inv cs →
  do_cross_shard_block order_str handle fuel cs m = Ret (Some (cs', e)) → cs_inv cs'.
Proof using Hhandle.
  intros I. unfold do_cross_shard_block. destruct (negb _); [by intros [= <- _]|]. intros E. run_inv E. destruct x as [blk hash].
  destruct (match PrefixStore.Has _ _ with inl b => b | inr _ => false end); [by injection E as <- _|]. run_inv E.
  destruct (negb x); [by injection E as <- _|]. destruct (csIsIShard cs).
  - eapply Hhandle; [|exact E]. apply set_ishard_inv; [done|]. apply I.
  - do 2 run_inv E. eapply Hhandle; [|exact E]. eapply follow_inv; [|exact Ex2]. apply (cs_inv_frame cs); [done|by split].
Qed.
Lemma do_accept_inv cs m cs' e : cs_inv cs → do_accept handle cs m = Ret (Some (cs', e)) → cs_inv cs'.
Proof using Hhandle.
  intros I. unfold do_accept. destruct (csIsIShard cs); [by intros [= <- _]|].
  destruct (bytes_Equal _ _) eqn:Eb; cbn [negb]; [|by intros [= <- _]]. intros E. run_inv E.
  destruct x; cbn [negb] in E; [|by injection E as <- _]. destruct (maPool (bshard cs)) as [pool|] eqn:Ep; [|done].
  destruct (pool !! _) eqn:Ek; [by injection E as <- _|]. eapply Hhandle; [|exact E]. bool_to_prop.
  apply set_bshard_inv; [done|]. cbn [maPool maCount]. pose proof (ci_pool _ I) as Ip. rewrite Ep in Ip. destruct Ip as [Ec Ef].
  split; [rewrite map_size_insert_None by done; lia|]. apply map_Forall_insert_2; [by split_and!|exact Ef].
Qed.
Lemma do_commit_message_inv cs m cs' e : cs_inv cs → do_commit_message handle cs m = Ret (Some (cs', e)) → cs_inv cs'.
Proof using Hhandle.
  intros I. unfold do_commit_message. destruct (csIsBShard cs); [by intros [= <- _]|].
  destruct (bool_decide _); [by intros [= <- _]|]. intros E. run_inv E. destruct (negb x); [by injection E as <- _|].
  eapply Hhandle; [|exact E]. apply set_ishard_inv; [done|]. apply I.
Qed.
Lemma do_ok_inv cs m cs' e : cs_inv cs → do_ok handle cs m = Ret (Some (cs', e)) → cs_inv cs'.
Proof using Hhandle.
  intros I. unfold do_ok. destruct (_ <? _); [by intros [= <- _]|].
  destruct (bool_decide _) eqn:Ed; [by intros [= <- _]|]. destruct (bseen (ishard cs)) as [seen|] eqn:Es; [|done].
  intros E. eapply Hhandle; [|exact E]. pose proof (ci_bseen _ I) as Ib. rewrite Es in Ib. destruct Ib as [Ii Ib].
  apply set_ishard_inv; [done|]. cbn [bseen bcount]. split; [done|]. bool_to_prop. cbn in Ed.
  rewrite size_union, size_singleton by set_solver. lia.
Qed.

Lemma unless_relayed_inv cs h r msg k cs' e : cs_inv cs →
  (∀ cs1, cs_inv cs1 → k cs1 = Ret (Some (cs', e)) → cs_inv cs') →
  unless_relayed cs h r msg k = Ret (Some (cs', e)) → cs_inv cs'.
Proof.
  intros I Hk. unfold unless_relayed. pose proof (addRelay_frame cs h r msg) as F.
  destruct (addRelayMessageIfOverTime cs h r msg) as [cs1 [|]]; cbn [fst] in F; intros E;
    [injection E as <- _; by eapply cs_inv_frame|]. eapply Hk; [by eapply cs_inv_frame|done].
Qed.
Lemma doMessage_inv fuel cs msg cs' e : cs_inv cs → doMessage order_str handle fuel cs msg = Ret (Some (cs', e)) → cs_inv cs'.
Proof using Hhandle.
  intros I. destruct msg as [m|m|m|m|m|m|m|m]; cbn [doMessage].
  - apply unless_relayed_inv; [done|]. intros cs1 I1. apply after_add_inv; [done|]. intros; by eapply votes_ok, AddPart_key.
  - apply unless_relayed_inv; [done|]. intros cs1 I1. apply after_add_inv; [done|]. intros hd er E. run_inv E. by eapply votes_ok, AddProposal_key.
  - apply unless_relayed_inv; [done|]. intros cs1 I1. apply after_add_inv; [done|]. intros; by eapply AddPrevote_ok.
  - apply unless_relayed_inv; [done|]. intros cs1 I1. apply after_add_inv; [done|]. intros; by eapply AddPrecommit_ok.
  - by apply do_cross_shard_block_inv.
  - by apply do_accept_inv.
  - by apply do_commit_message_inv.
  - apply unless_relayed_inv; [done|]. intros cs1 I1. by apply do_ok_inv.
Qed.
Lemma cs_replay_inv fuel msgs : ∀ cs cs', cs_inv cs → replay order_str handle fuel msgs cs = Ret (Some cs') → cs_inv cs'.
Proof using Hhandle.
  induction msgs as [|msg msgs IH]; intros cs cs' I; cbn [replay]; [by intros [= <-]|]. intros E. run_inv E. destruct x as [cs1 e].
  eapply IH; [|exact E]. by eapply doMessage_inv.
Qed.

(** ** Rounds *)

(** All votes of the height are sent. *)
Definition complete (cs : CS) : Prop := ∃ n, 0 ≤ n ∧ csHeight cs = int64 n ∧ log_at cs n n.

Lemma enterNewRound_inv fuel cs cs' n : core_inv cs → 1 ≤ n → csHeight cs = int64 n → log_at cs (n - 1) (n - 1) →
  enterNewRound now rand_Intn order_bz order_str handle fuel cs = Ret (Some cs') → cs_inv cs'.
Proof using Hhandle.
  intros I Hn Eh L. unfold enterNewRound. intros E. run_inv E. run_inv E.
  assert (cs_inv (set_step cs RoundStepPropose)) as I1 by (split; [by apply core_step|by exists n]).
  assert (cs_inv x0) as I2.
  { destruct x; [eapply cs_inv_frame; [exact I1|by eapply create_frame]|]. by injection Ex0 as <-. }
  destruct (_ !! _); [by eapply cs_replay_inv|]. by injection E as <-.
Qed.
(** The votes of the next height are consistent again. *)
Lemma NextHeight_hv h h' : NextHeight h = Ret h' → hv_inv h → hv_inv h'.
Proof. intros E I. destruct (NextHeight_votes h (hi_config _ I)) as (h1 & E1 & I1 & _). congruence. Qed.
(** The height moves on in both places. *)
Lemma enterNewHeight_inv fuel cs cs' : core_inv cs → complete cs →
  enterNewHeight now rand_Intn order_bz order_str handle fuel cs = Ret (Some cs') → cs_inv cs'.
Proof using Hhandle.
  intros I (n & Hn & Eh & L). unfold enterNewHeight. set (cs1 := if csIsIShard _ then _ else _).
  assert (core_inv cs1 ∧ csStep cs1 = RoundStepCommit ∧ csHeight cs1 = int64 n ∧ log_at cs1 n n) as (I1 & S1 & H1 & L1).
  { assert (core_inv (set_step cs RoundStepCommit)) as Ic by (by apply core_step). subst cs1.
    destruct (csIsIShard (set_step cs RoundStepCommit)) eqn:Ei; [|done]. split; [|done]. apply set_ishard_core; [done|].
    cbn [bseen bcount]. split; [done|]. replace (base.size (∅ : gset string)) with 0%nat by done. lia. }
  clearbody cs1. intros E. run_inv E. pose proof (NextHeight_hv _ _ Ex) as Hv. apply NextHeight_key in Ex.
  unfold Next in *. rewrite S1 in *. cbn [Z.eqb Pos.eqb RoundStepCommit] in *. cbn [heightDatas set_pos set_relay] in Ex, Hv.
  destruct I1 as [J0 J1 J2 J3 J4 JV J5 J6]. unfold hd_key in Ex. injection Ex as K1 K2 K3 K4 K5.
  assert (own_weights x = own_weights (heightDatas cs1)) as Kw by (unfold own_weights; congruence).
  eapply (enterNewRound_inv _ _ _ (n + 1)); [|lia| | |exact E].
  - unfold myChain, csIsIShard, related_count, shardInfo in *.
    split; unfold myChain, csIsIShard, related_count, shardInfo; cbn -[wrapS]; rewrite ?K3, ?K4, ?Kw; try done; [by rewrite K1, J1|auto|].
    destruct (maPool (bshard cs1)); [|done]. destruct J6 as [J6 J7]. split; [done|]. intros c m Hm.
    destruct (J7 c m Hm) as (E1 & E2 & E3). split_and!; [done|done|]. unfold verify_collective in *. cbn. by rewrite K5.
  - change (int64 (csHeight cs1 + 1) = int64 (n + 1)). by rewrite H1, wrapS_add_l.
  - replace (n + 1 - 1) with n by lia. unfold log_at, myChain in *. cbn. by rewrite K3.
Qed.
Lemma doCommit_inv fuel cs cs' : cs_inv cs → csStep cs = RoundStepCommit →
  doCommit now rand_Intn order_bz order_str handle fuel cs = Ret (Some cs') → cs_inv cs'.
Proof using Hhandle.
  intros I Hs. unfold doCommit. intros E. run_inv E. run_inv E.
  assert (cs_inv x0 ∧ csStep x0 = RoundStepCommit) as [I0 S0].
  { destruct (x && csIsBShard cs); [|by injection Ex0 as <-]. run_inv Ex0. injection Ex0 as <-.
    match goal with |- cs_inv ?c ∧ _ => assert (frame cs c) as F by (by apply related_frame, no_vote) end.
    split; [by eapply cs_inv_frame|]. unfold csStep in *. by rewrite (fr_pos _ _ F). }
  destruct (ci_log _ I0) as (n & Hn & Eh & L). rewrite S0 in L.
  eapply enterNewHeight_inv; [exact (ci_core _ I0)| |exact E]. exists n. split_and!; [lia|done|exact L].
Qed.
Lemma step_once_inv fuel cs cs' b : cs_inv cs →
  step_once now rand_Intn order_bz order_str handle fuel cs = Ret (Some (cs', b)) → cs_inv cs'.
Proof using Hhandle.
  intros I. unfold step_once.
  assert (Hfin : ∀ hd, hd_votes hd = hd_votes (heightDatas cs) → cs_inv (set_hd cs hd)).
  { intros hd Hk. apply (cs_inv_frame cs); [done|]. by apply frame_hd, votes_ok. }
  destruct (Z.eqb_spec (csStep cs) RoundStepPropose) as [Es|_].
  { intros E. run_inv E. destruct x as [hd [|]]; apply FinishProposal_key, Hfin in Ex; [|by injection E as <- _].
    run_inv E. injection E as <- _. eapply cs_propose_inv; [exact Ex| |exact Ex0].
    exact Es. }
  destruct (Z.eqb_spec (csStep cs) RoundStepPrevote) as [Es|_].
  { intros E. run_inv E. destruct x as [hd [|]]; apply FinishPrevote_key, Hfin in Ex; [|by injection E as <- _].
    run_inv E. injection E as <- _. eapply doPrevote_inv; [exact Ex| |exact Ex0].
    exact Es. }
  destruct (Z.eqb_spec (csStep cs) RoundStepPrecommit) as [Es|_].
  { intros E. run_inv E. destruct x as [hd [|]]; apply FinishPrecommit_key, Hfin in Ex; [|by injection E as <- _].
    run_inv E. injection E as <- _. eapply doPrecommit_inv; [exact Ex| |exact Ex0].
    exact Es. }
  destruct (Z.eqb_spec (csStep cs) RoundStepCommit) as [Es|_]; [|by intros [= <- _]].
  destruct (may_commit order_str cs); [|by intros [= <- _]]. intros E. run_inv E. injection E as <- _.
  by eapply doCommit_inv.
Qed.
End Handlers.

Lemma handle_inv fuel : ∀ cs cs' e, cs_inv cs →
  handleStateTransition now rand_Intn order_bz order_str fuel cs = Ret (Some (cs', e)) → cs_inv cs'.
Proof.
  induction fuel as [|fuel IH]; intros cs cs' e I; cbn [handleStateTransition]; [done|]. intros E. run_inv E.
  destruct x as [cs1 [|]]; apply step_once_inv in Ex; try done; [by eapply IH|]. by injection E as <- _.
Qed.

(** ** Runs *)

Lemma NewConsensusState_inv chain si ids sg i mp cmp app db t p n cs : me = (chain, si, sg, i) →
  NewConsensusState now chain si ids sg i mp cmp app db t p n = Ret cs → core_inv cs ∧ complete cs ∧ csHeight cs = 0.
Proof.
  unfold NewConsensusState. intros Hme E. run_inv E. injection E as <-. pose proof (NewHeightData_inv _ _ _ _ _ Ex) as Hv.
  unfold NewHeightData in Ex. destruct (setKeys_loop _ _ _ _) as [[sets vts] ok]. do 2 run_inv Ex. injection Ex as <-.
  split_and!; [|exists 0; split_and!; [done..|by split]|done]. split; try done. intros Hw. by apply Hv.
Qed.

(** A run of a node: it starts, then receives messages, whatever they are. *)
Fixpoint receive_all (fuel : nat) (msgs : list (bytes * Z)) (cs : CS) : run CS :=
  match msgs with
  | [] => returns cs
  | (bz, t) :: msgs' =>
      let* (cs, _) := Receive now rand_Intn order_bz order_str fuel cs bz t in
      receive_all fuel msgs' cs
  end.

Lemma Receive_inv fuel cs bz t cs' e : cs_inv cs →
  Receive now rand_Intn order_bz order_str fuel cs bz t = Ret (Some (cs', e)) → cs_inv cs'.
Proof.
  intros I. unfold Receive.
  assert (Hdec : ∀ {A} (r : outcome (option A)) check (msg : A → Message),
    decode cs r check (λ a, doMessage order_str (handleStateTransition now rand_Intn order_bz order_str fuel) fuel cs (msg a)) = Ret (Some (cs', e)) → cs_inv cs').
  { intros A r check msg E. unfold decode in E. run_inv E. destruct x as [a|]; [|by injection E as <- _].
    destruct (check a); [by injection E as <- _|]. eapply doMessage_inv; [|exact I|exact E]. intros; by eapply handle_inv. }
  repeat (destruct (_ =? _); [apply Hdec|]). by intros [= <- _].
Qed.

Lemma reachable_inv chain si ids sg i mp cmp app db t p n fuel msgs cs0 cs1 cs
    (Hme : me = (chain, si, sg, i))
    (H0 : NewConsensusState now chain si ids sg i mp cmp app db t p n = Ret cs0)
    (H1 : Start now rand_Intn order_bz order_str fuel cs0 = Ret (Some cs1))
    (H2 : receive_all fuel msgs cs1 = Ret (Some cs)) : cs_inv cs.
Proof.
  assert (cs_inv cs1) as I1.
  { destruct (NewConsensusState_inv _ _ _ _ _ _ _ _ _ _ _ _ _ Hme H0) as (Ic & Hc & Hz). unfold Start in H1. rewrite Hz in H1. cbn [Z.eqb] in H1.
    eapply enterNewHeight_inv; [|exact Ic|exact Hc|exact H1]. intros; by eapply handle_inv. }
  clear H0 H1. revert cs1 I1 H2. induction msgs as [|[bz ty] msgs IH]; intros cs1 I1; cbn [receive_all]; [by intros [= <-]|].
  intros E. run_inv E. destruct x as [cs2 e]. eapply IH; [|exact E]. by eapply Receive_inv.
Qed.
End Proofs.
