(* ===== verification/PyrConsensusTheorems.v ===== *)
(** * Theorems of Pyramid consensus

    The invariant of every reachable state, and the behaviours of the message
    handlers that follow from it or contradict their intent. *)

From stdpp Require Import base list gmap strings numbers.
From Stdlib Require Import ZArith Lia.
From S2P Require Import Prelude Convert BitVector Hash Merkle MerkleProofs MerkleGen Wire Signer Store ShardInfo CList Mempool PyrTypes PyrParts PyrVotes PyrVoteProofs PyrHeight PyrHeightProofs PyrConsensus PyrConsensusProofs.

Section Theorems.
Context {H : HashFn} {B : BLS} {W : PyrWire} {PW : PyrPartWire} {VW : PyrVoteWire}.
Context {S : Type} {KV : KVStore S} {X : Type} {App : ABCIConn X S}.
Context (now : nat → GoTime) (rand_Intn : nat → Z → Z).
Context (order_bz : gset bytes → list bytes) (order_str : gset string → list string).
Abbreviation CS := (ConsensusState (S:=S) (X:=X)).

(** C5. Whatever messages a node receives after it started, in whatever order:
    its shard, keys and index never change; consensus and the data of its
    height are at the same height and in round 0; the votes it holds are
    consistent (if the weights of the shard are) and it has sent exactly the
    votes of the steps it left; only an I shard counts reports, down from the
    number of related shards by one per shard it heard of; a B shard without
    pending block holds no answers, and with one it holds genuine answers for
    that block only, one per shard, and counts the missing ones. *)
Theorem PyrConsensus_invariant chain si ids sg i mp cmp app db t p n fuel msgs cs0 cs1 cs
    (H0 : NewConsensusState now chain si ids sg i mp cmp app db t p n = Ret cs0)
    (H1 : Start now rand_Intn order_bz order_str fuel cs0 = Ret (Some cs1))
    (H2 : receive_all now rand_Intn order_bz order_str fuel msgs cs1 = Ret (Some cs)) : cs_inv (chain, si, sg, i) cs.
Proof. by eapply reachable_inv. Qed.

(** A report that the runtime delivers to a B shard stops the node: reports
    are counted in a map that only an I shard creates, and nothing looks at
    the sender.  The report may be for the current height, or for a later one
    if it is the first of its height. *)
Theorem OK_message_stops_B_shard handle fuel me cs m
    (I : cs_inv me cs) (HB : csIsIShard cs = false) (Hh : csHeight cs ≤ moHeight m)
    (Hfirst : csHeight cs < moHeight m → relayMessageChannel cs !! moHeight m = None) :
  doMessage order_str handle fuel cs (MOK m) = Panic.
Proof.
  cbn [doMessage]. unfold unless_relayed, addRelayMessageIfOverTime.
  assert (bseen (ishard cs) = None) as Hs.
  { pose proof (ci_bseen _ _ I) as Ib. destruct (bseen (ishard cs)); [|done]. destruct Ib. congruence. }
  pose proof (ci_round _ _ I) as Hr. rewrite Hr. rewrite Z.ltb_irrefl, andb_false_r, orb_false_r.
  assert (∀ cs', ishard cs' = ishard cs → csHeight cs' = csHeight cs → do_ok handle cs' m = Panic) as Hok.
  { intros cs' E1 E2. unfold do_ok. rewrite E1, E2, Hs. destruct (Z.ltb_spec (moHeight m) (csHeight cs)); [lia|]. done. }
  destruct (Z.ltb_spec (csHeight cs) (moHeight m)) as [Hlt|Hge]; [rewrite Hfirst by done|]; by apply Hok.
Qed.

(** The first early report of a height counts at once and again later: an I
    shard that misses one report at its height takes a report for a later
    height as the missing one and leaves the commit step, and keeps the report
    to count it once more at its own height. *)
Theorem early_OK_counts_twice handle fuel me cs m seen
    (I : cs_inv me cs) (HI : csIsIShard cs = true) (Hs : bseen (ishard cs) = Some seen) (Hnew : SrcChain m ∉ seen)
    (Hh : csHeight cs < moHeight m) (Hfirst : relayMessageChannel cs !! moHeight m = None) :
  ∃ cs', doMessage order_str handle fuel cs (MOK m) = handle cs' ∧
    bcount (ishard cs') = bcount (ishard cs) - 1 ∧
    relayMessageChannel cs' !! moHeight m = Some {[0 := [MOK m]]} ∧
    (bcount (ishard cs) = 1 → may_commit order_str cs' = true) ∧ csHeight cs' = csHeight cs.
Proof.
  cbn [doMessage]. unfold unless_relayed, addRelayMessageIfOverTime.
  destruct (Z.ltb_spec (csHeight cs) (moHeight m)); [|lia]. cbn [orb]. rewrite Hfirst. unfold do_ok.
  change (csHeight (set_relay cs _)) with (csHeight cs). destruct (Z.ltb_spec (moHeight m) (csHeight cs)); [lia|].
  cbn [ishard set_relay]. rewrite Hs. cbn [default id]. rewrite bool_decide_false by done.
  eexists. split; [reflexivity|]. cbn [ishard set_ishard bcount relayMessageChannel set_relay].
  split; [done|]. split; [apply lookup_insert_eq|]. split; [|done]. intros Hb. unfold may_commit.
  change (csIsIShard _) with (csIsIShard cs). rewrite HI. cbn [ishard set_ishard bcount]. apply Z.eqb_eq. lia.
Qed.

(** A B shard leaves the pending state only with an answer per related shard:
    when no answer is missing, the pool holds as many answers as there are
    related shards, from different shards, all of them genuine and for the
    pending block. *)
Lemma no_answer_missing me (cs : CS) : cs_inv me cs → maCount (bshard cs) = 0 →
  ∃ pool, maPool (bshard cs) = Some pool ∧ Z.of_nat (base.size pool) = related_count cs ∧ map_Forall (accept_ok cs) pool.
Proof.
  intros I Hc. pose proof (ci_pool _ _ I) as Ip. destruct (maPool (bshard cs)) as [pool|]; [|destruct Ip; lia].
  destruct Ip as [E F]. exists pool. split_and!; [done|lia|done].
Qed.

Lemma check_accepts_foreign (cs : CS) mas : ∀ pvote m v, m ∈ mas → from_related cs (maSignatures m) = false →
  check_accepts cs mas pvote ≠ Ret (Some v).
Proof.
  induction mas as [|ma mas IH]; intros pvote m v Hin Hr; [by apply elem_of_nil in Hin|]. cbn [check_accepts].
  apply elem_of_cons in Hin as [<-|Hin]; [by rewrite Hr|]. destruct (negb _); [done|].
  destruct (verify_collective cs (maSignatures ma)) as [[|]|]; cbn [mbind outcome_bind negb]; [|done..]. by eapply IH.
Qed.

(** An answer for the pending block counts whatever shard signed it and
    whatever the signatures are about: they do not cover the block that is
    answered.  A commit block that carries the answer of a shard that is not
    related stops every node of the shard that votes on it. *)
Theorem foreign_accept_stops_shard handle fuel cs m pool
    (HB : csIsIShard cs = false) (Hb : csIsBShard cs = true) (Hpool : maPool (bshard cs) = Some pool)
    (Hhash : maBlockHash m = pendingCrossShardBlockHash (bshard cs))
    (Hsig : verify_collective cs (maSignatures m) = Ret true)
    (Hnew : pool !! pshChainID (paHeader (maSignatures m)) = None)
    (Hforeign : from_related cs (maSignatures m) = false) :
  (∃ cs', doMessage order_str handle fuel cs (MAccept m) = handle cs' ∧ maCount (bshard cs') = maCount (bshard cs) - 1 ∧
     maPool (bshard cs') = Some (<[pshChainID (paHeader (maSignatures m)) := m]> pool)) ∧
  (∀ block tx ba cs2, hdBlock (heightDatas cs) = Some block → BlockType (bHeader block) = BLOCKTYPE_BCommitBlock →
     BodyTxs (bBody block) = [tx] → NewMessageAcceptSetFromBytes tx = Ret (Some ba) → m ∈ Accepts ba →
     doPropose cs ≠ Ret cs2).
Proof.
  split.
  - cbn [doMessage]. unfold do_accept. rewrite HB, Hhash, bytes_Equal_refl. cbn [negb]. rewrite Hsig. cbn [rlift rbind negb].
    rewrite Hpool, Hnew. eexists. split; [reflexivity|]. done.
  - intros block tx ba cs2 Eb Et Etx Eba Hm E. unfold doPropose in E. rewrite Eb in E. cbn [deref mbind outcome_bind] in E.
    run_inv E. destruct x as [blk hash]. destruct (Block_Hash_block _ _ _ Ex) as (_ & Hf & Hbody & _).
    change (csIsBShard (set_vote_hash _ _)) with (csIsBShard cs) in E. rewrite Hb in E. run_inv E. destruct x as [v|]; [|done].
    unfold judge_B in Ex0. injection Hf as Hty _. 
    assert (BlockType (bHeader blk) = BLOCKTYPE_BCommitBlock) as Hty' by congruence. rewrite Hty' in Ex0.
    cbn [Z.eqb Pos.eqb BLOCKTYPE_BCommitBlock BLOCKTYPE_InnerShard BLOCKTYPE_CrossShard] in Ex0.
    rewrite Hbody, Etx, Eba in Ex0. cbn [mbind outcome_bind] in Ex0. destruct (negb _); [done|]. destruct (negb _); [done|].
    eapply (check_accepts_foreign _ _ _ m v Hm); [|exact Ex0]. exact Hforeign.
Qed.

(** C9. At the end of the prevote step a node precommits a block and a code that
    more than two thirds of the shard's weight has prevoted, and no other: it
    records the precommit, sends it to its shard and moves on. *)
Theorem precommit_follows_prevotes (cs cs' : CS)
    (I : hv_inv (heightDatas cs)) (Hmaj : HasMaj23 (Prevotes (heightDatas cs)) = true)
    (Hstep : csStep cs = RoundStepPrevote) (E : doPrevote cs = Ret cs') :
  ∃ vote bz, Precommit_ProtoBytes vote = Ret bz ∧
    sent cs' = sent cs ++ [{| toShard := myChain cs'; payload := bz; messageType := TendermintPrecommit |}] ∧
    csStep cs' = RoundStepPrecommit ∧
    pcHeight vote = csHeight cs ∧ pcRound vote = csRound cs ∧ pcValidatorIndex vote = signerIndex (cfg cs) ∧
    2 * zsum (own_weights (heightDatas cs)) / 3 <
      tally (own_weights (heightDatas cs)) (Prevotes (heightDatas cs)) (pcBlockHeaderHash vote) (Precommit_IsOK vote) ∧
    ∀ k c, 2 * zsum (own_weights (heightDatas cs)) / 3 < tally (own_weights (heightDatas cs)) (Prevotes (heightDatas cs)) k c →
      k = pcBlockHeaderHash vote ∧ c = Precommit_IsOK vote.
Proof.
  unfold doPrevote, GetMaj23 in E. do 2 run_inv E. destruct x0 as [hd e]. run_inv E. injection E as <-.
  eexists _, _. split; [exact Ex1|]. split; [unfold Next; by destruct (_ =? _)|].
  split. { unfold Next. change (csStep (SendInternal _ _ _)) with (csStep cs). rewrite Hstep. done. }
  split; [done|]. split; [done|]. split; [done|].
  assert (Precommit_IsOK {| pcVoteType := VoteTypePrecommit; PyrVotes.pcCode := code_of (mj23_code (Prevotes (heightDatas cs)));
    pcHeight := csHeight cs; pcRound := csRound cs; pcBlockHeaderHash := mj23_key (Prevotes (heightDatas cs));
    pcSignature := Signer_Sign (signer (cfg cs)) x; pcValidatorIndex := signerIndex (cfg cs) |} =
    mj23_code (Prevotes (heightDatas cs))) as Hc by (by destruct (mj23_code (Prevotes (heightDatas cs)))).
  pose proof (vi_maj _ _ (hi_prevotes _ I) Hmaj) as Hb. unfold bound in Hb.
  split; [cbn [pcBlockHeaderHash]; by rewrite <- Hc in Hb|]. intros k c Hk.
  destruct (majority_unique _ (cf_weights _ (hi_config _ I)) _ _ _ _ _ Hb Hk) as [-> ->]. done.
Qed.

(** The transactions of a cross-shard block leave the pool of the B shard when
    the block is decided, also when it is aborted: the decision is not looked
    at. *)
Theorem abort_forgets_transactions (cs : CS) block bz ublock cmp agg prop
    (Htype : BlockType (bHeader block) = BLOCKTYPE_BCommitBlock)
    (Hagg : GenerateAggregatePrecommitSignature (heightDatas cs) = Ret agg) (Hab : PA_IsOK agg = false)
    (Hprop : isProposer cs = Ret prop) (Hmc : is_Some (marshal (MC_ToProto {| mcBlockHash := pendingCrossShardBlockHash (bshard cs); mcSignatures := agg |})))
    (Hget : PrefixStore.GetBlockByHash (store (backend cs)) (pendingCrossShardBlockHash (bshard cs)) = inl (Some bz))
    (Hblk : NewBlockFromBytes bz = Ret (Some ublock))
    (Hupd : PyramidPool.Update (cross_shard_mempool (backend cs)) (CrossShardTxs (bCross ublock)) None = Ret cmp) :
  ∃ cs', processBBlock order_str cs block true = Ret (cs', one_receipt, 1, 0, pendingBlockSize (bshard cs)) ∧
    cross_shard_mempool (backend cs') = cmp ∧ maPool (bshard cs') = None ∧ maCount (bshard cs') = -1.
Proof.
  unfold processBBlock. rewrite Htype. cbn [Z.eqb Pos.eqb BLOCKTYPE_BCommitBlock BLOCKTYPE_InnerShard BLOCKTYPE_CrossShard].
  rewrite Hagg. cbn [mbind outcome_bind]. rewrite Hprop. cbn [mbind outcome_bind]. rewrite andb_true_r.
  set (pending := pendingCrossShardBlockHash (bshard cs)) in *.
  assert (∃ cs1, (if prop then bz ← MC_ProtoBytes {| mcBlockHash := pending; mcSignatures := agg |};
      Ret (SendToRelatedShards order_str cs bz TagMessageCommit) else Ret cs) = Ret cs1 ∧
      backend cs1 = backend cs ∧ bshard cs1 = bshard cs) as (cs1 & -> & Eb & Ec).
  { destruct prop; [|by exists cs]. destruct Hmc as [m Hm]. unfold MC_ProtoBytes, MustProtoBytes. rewrite Hm.
    cbn [mbind outcome_bind]. eexists. split; [reflexivity|]. unfold SendToRelatedShards.
    generalize (related_keys order_str cs). intros l. clear. revert cs. induction l as [|s l IH]; intros cs; [done|]. cbn [foldl].
    destruct (IH (SendTo cs s m TagMessageCommit)) as [-> ->]. done. }
  cbn [mbind outcome_bind]. unfold updateBState. rewrite Htype.
  cbn [Z.eqb Pos.eqb BLOCKTYPE_BCommitBlock BLOCKTYPE_InnerShard BLOCKTYPE_CrossShard].
  rewrite Eb, Hget. cbn [sbytes default id]. rewrite Hblk. cbn [mbind outcome_bind deref]. rewrite Hupd. cbn [mbind outcome_bind].
  rewrite Hab. eexists. split; [cbn; by rewrite Ec|]. done.
Qed.
End Theorems.
