(* ===== verification/PyrAgreement.v ===== *)
(** * Agreement in a Pyramid shard

    What the votes of consensus guarantee across nodes: a node votes once per
    height and step; two nodes of a shard that see majorities of precommits for
    different outcomes of one height hold proof that more than a third of the
    weight of the shard signed twice; and if less is faulty they never do. *)

From stdpp Require Import base list gmap strings numbers.
From Stdlib Require Import ZArith Lia.
From S2P Require Import Prelude Convert BitVector Hash Merkle Wire Signer Store ShardInfo CList Mempool PyrTypes PyrParts PyrVotes PyrVoteProofs PyrHeight PyrHeightProofs PyrConsensus PyrConsensusProofs.

(** ** Overlapping votes *)

Definition both {V V'} (xs : list (option V)) (ys : list (option V')) : list (option (V * V')) :=
  zip_with (λ a b, x ← a; y ← b; Some (x, y)) xs ys.
Lemma both_lookup {V V'} (xs : list (option V)) (ys : list (option V')) i x y :
  both xs ys !! i = Some (Some (x, y)) → xs !! i = Some (Some x) ∧ ys !! i = Some (Some y).
Proof.
  unfold both. rewrite lookup_zip_with. destruct (xs !! i) as [[a|]|], (ys !! i) as [[b|]|]; try done.
  cbn. by intros [= <- <-].
Qed.

(** Two groups heavier together than everybody overlap by the difference. *)
Lemma weight_overlap {V V'} (p : V → bool) (q : V' → bool) (r : V * V' → bool) xs :
  (∀ x y, p x = true → q y = true → r (x, y) = true) → ∀ ys per, Forall (λ w, 0 ≤ w) per →
  length xs = length per → length ys = length per →
  weight p xs per + weight q ys per ≤ zsum per + weight r (both xs ys) per.
Proof.
  intros Hr. induction xs as [|x xs IH]; intros [|y ys] [|w per] Hper Hx Hy; try done. injection Hx as Hx. injection Hy as Hy.
  apply Forall_cons_1 in Hper as [Hw Hper]. specialize (IH ys per Hper Hx Hy).
  change (zsum (w :: per)) with (w + zsum per). change (both (x :: xs) (y :: ys)) with ((a ← x; b ← y; Some (a, b)) :: both xs ys).
  cbn [weight]. destruct x as [x|], y as [y|]; cbn [mbind option_bind].
  - specialize (Hr x y). destruct (p x), (q y), (r (x, y)); lia.
  - destruct (p x); lia.
  - destruct (q y); lia.
  - lia.
Qed.

(** The weight of the validators that satisfy [f]. *)
Definition weight_of (f : nat → bool) (per : list Z) : Z := weight f (map Some (seq 0 (length per))) per.
(** A group of votes and a group of validators heavier than everybody meet. *)
Lemma weight_meet {V} (p : V → bool) (f : nat → bool) xs per : Forall (λ w, 0 ≤ w) per → length xs = length per →
  zsum per < weight p xs per + weight_of f per → ∃ j x, xs !! j = Some (Some x) ∧ p x = true ∧ f j = true.
Proof.
  intros Hper Hx Hlt. set (js := map Some (seq 0 (length per))).
  pose proof (weight_overlap p f (λ xj, p (fst xj) && f (snd xj)) xs ltac:(intros x y; cbn; by intros -> ->) js per Hper Hx
    ltac:(unfold js; by rewrite length_map, length_seq)) as Ho.
  destruct (weight_pos (λ xj, p (fst xj) && f (snd xj)) (both xs js) per) as (k & [x j] & Hk & Hc); [unfold weight_of, js in *; lia|].
  apply both_lookup in Hk as [Hxk Hj]. unfold js in Hj. rewrite list_lookup_fmap in Hj.
  destruct (seq 0 (length per) !! k) as [j'|] eqn:Es; [|done]. injection Hj as ->. apply lookup_seq in Es as [-> _].
  apply andb_true_iff in Hc as [Hp Hf]. by exists k, x.
Qed.

(** Two majorities for different candidates: more than a third voted twice. *)
Definition conflicting {V} {VV : Vote V} (vw : V * V) : bool :=
  negb (bytes_Equal (GetBlockHeaderHash (fst vw)) (GetBlockHeaderHash (snd vw)) && eqb (IsOK (fst vw)) (IsOK (snd vw))).
Lemma majorities_overlap {V} {VV : Vote V} per (vs1 vs2 : VoteSet V) : weights_ok per → vs_inv per vs1 → vs_inv per vs2 →
  HasMaj23 vs1 = true → HasMaj23 vs2 = true → GetMaj23 vs1 ≠ GetMaj23 vs2 →
  zsum per < 3 * weight conflicting (both (votes vs1) (votes vs2)) per.
Proof.
  intros Hw I1 I2 M1 M2 Hne. pose proof (vi_maj _ _ I1 M1) as B1. pose proof (vi_maj _ _ I2 M2) as B2. unfold tally in B1, B2.
  enough (weight (votes_for (mj23_key vs1) (mj23_code vs1)) (votes vs1) per + weight (votes_for (mj23_key vs2) (mj23_code vs2)) (votes vs2) per
    ≤ zsum per + weight conflicting (both (votes vs1) (votes vs2)) per) as Ho.
  { unfold bound in *. pose proof (Z.div_mod (2 * zsum per) 3 ltac:(lia)). pose proof (Z.mod_pos_bound (2 * zsum per) 3 ltac:(lia)). lia. }
  apply weight_overlap; [|apply Hw|apply I1|apply I2]. intros x y Hx Hy. unfold votes_for in *.
  apply andb_true_iff in Hx as [Kx Cx], Hy as [Ky Cy]. bool_to_prop. apply eqb_prop in Cx, Cy.
  unfold conflicting. cbn [fst snd]. apply negb_true_iff, andb_false_iff.
  destruct (bytes_Equal (GetBlockHeaderHash x) (GetBlockHeaderHash y)) eqn:Ek; [right|by left]. bool_to_prop.
  apply eqb_false_iff. intros Ec. destruct Hne. unfold GetMaj23. f_equal; congruence.
Qed.

Section Agreement.
Context {H : HashFn} {B : BLS} {W : PyrWire} {PW : PyrPartWire} {VW : PyrVoteWire}.
Context {S : Type} {KV : KVStore S} {X : Type} {App : ABCIConn X S}.
Abbreviation CS := (ConsensusState (S:=S) (X:=X)).

(** ** Runs of the nodes of a shard *)

(** [cs] is a state of validator [i] of a shard, whatever its clock, its
    random choices, its mempools, application and store, and whatever messages
    it received. *)
Definition node_run (chain : string) (si : PyrHeight.ShardInfo) (sg : Signer) (i : Z) (cs : CS) : Prop :=
  ∃ now rand order_bz order_str ids mp cmp app db t p n fuel msgs cs0 cs1,
    NewConsensusState now chain si ids sg i mp cmp app db t p n = Ret cs0 ∧
    Start now rand order_bz order_str fuel cs0 = Ret (Some cs1) ∧
    receive_all now rand order_bz order_str fuel msgs cs1 = Ret (Some cs).
Lemma node_run_inv chain si sg i cs : node_run chain si sg i cs → cs_inv (chain, si, sg, i) cs.
Proof.
  intros (now & rand & order_bz & order_str & ids & mp & cmp & app & db & t & p & n & fuel & msgs & cs0 & cs1 & E0 & E1 & E2).
  by eapply reachable_inv.
Qed.

Definition shard_weights (chain : string) (si : PyrHeight.ShardInfo) : list Z := map PVotes (default [] (PeerList si !! chain)).
Definition shard_verifier (chain : string) (si : PyrHeight.ShardInfo) : option Verifier :=
  NewVerifier (map Pubkey (default [] (PeerList si !! chain))).
Definition precommits (cs : CS) : VoteSet Precommit := Precommits (heightDatas cs).

Lemma run_votes chain si sg i cs : node_run chain si sg i cs → weights_ok (shard_weights chain si) →
  hv_inv (heightDatas cs) ∧ own_weights (heightDatas cs) = shard_weights chain si ∧
  AllValidatorSet (heightDatas cs) !! MyChainID (heightDatas cs) = shard_verifier chain si ∧
  hdHeight (heightDatas cs) = csHeight cs ∧ hdRound (heightDatas cs) = 0.
Proof.
  intros R Hw. apply node_run_inv in R as I. pose proof (ci_ident _ _ I) as Hid. injection Hid as Ec Es _ _.
  unfold myChain, shardInfo in Ec, Es.
  assert (own_weights (heightDatas cs) = shard_weights chain si) as Ew by (unfold own_weights, shard_weights; by rewrite Ec, Es).
  assert (hv_inv (heightDatas cs)) as Iv by (apply (ci_votes _ _ I); by rewrite Ew).
  pose proof (cf_keys _ (hi_config _ Iv)) as Hk. rewrite Ec, Es in Hk. rewrite Ec. split_and!; [done..| |]; apply I.
Qed.

(** ** A node votes once *)

Lemma run_log chain si sg i cs : node_run chain si sg i cs → zlen (sent cs) < 2 ^ 63 - 1 →
  1 ≤ csHeight cs < 2 ^ 63 ∧
  Forall2 (prevote_sent chain sg i) (seqZ 1 (votes_due (csHeight cs) RoundStepPropose (csStep cs)))
    (sent_of TendermintPrevote (sent cs)) ∧
  Forall2 (precommit_sent chain sg i) (seqZ 1 (votes_due (csHeight cs) RoundStepPrevote (csStep cs)))
    (sent_of TendermintPrecommit (sent cs)).
Proof.
  intros R Hl. apply node_run_inv in R as [Ic (n & Hn & Eh & L1 & L2)]. pose proof (ci_ident _ _ Ic) as Hid.
  injection Hid as Ec _ Esg Ei. rewrite Ec, Esg, Ei in L1, L2.
  assert (n < 2 ^ 63) as Hb.
  { apply Forall2_length in L1. rewrite length_seqZ in L1.
    assert (length (sent_of TendermintPrevote (sent cs)) ≤ length (sent cs))%nat by apply length_filter.
    unfold zlen, votes_due in *. destruct (_ <? _); lia. }
  rewrite (wrapS_small 64) in Eh by lia. rewrite Eh.
  assert (∀ (P : Z → Envelope → Prop) t es, Forall2 (λ k, P (int64 k)) (seqZ 1 (votes_due n t (csStep cs))) es →
    Forall2 P (seqZ 1 (votes_due n t (csStep cs))) es) as Hk.
  { intros P t es. rewrite !Forall2_same_length_lookup. intros [El HP]. split; [done|]. intros j k e Hj He.
    specialize (HP j k e Hj He). apply list_elem_of_lookup_2, elem_of_seqZ in Hj. rewrite wrapS_small in HP; [done|done|].
    unfold votes_due in Hj. destruct (_ <? _); lia. }
  split; [done|]. split; by apply Hk.
Qed.

(** C6. However a node is run, and whatever it receives: it has sent exactly one
    prevote for each height it has left the propose step of, and exactly one
    precommit for each height it has left the prevote step of, in the order of
    the heights, to its own shard, in round 0, signed with its key under its
    index; and no other vote.  In particular it never votes twice in a step of
    a height.  (The bound is on the number of messages ever sent: after 2^63 of
    them heights may repeat.) *)
Theorem node_votes_once chain si sg i cs (R : node_run chain si sg i cs) (Hl : zlen (sent cs) < 2 ^ 63 - 1) :
  Forall2 (prevote_sent chain sg i)
    (seqZ 1 (if RoundStepPropose <? csStep cs then csHeight cs else csHeight cs - 1))
    (filter (λ e, messageType e = TendermintPrevote) (sent cs)) ∧
  Forall2 (precommit_sent chain sg i)
    (seqZ 1 (if RoundStepPrevote <? csStep cs then csHeight cs else csHeight cs - 1))
    (filter (λ e, messageType e = TendermintPrecommit) (sent cs)).
Proof. by destruct (run_log chain si sg i cs R Hl) as (_ & L1 & L2). Qed.

(** ** Conflicts can be attributed *)

(** A precommit that validator [j] signed for height [h]. *)
Definition signed_for (v : Verifier) (h : Z) (j : nat) (p : Precommit) : Prop :=
  pcHeight p = h ∧ pcRound p = 0 ∧ pcValidatorIndex p = Z.of_nat j ∧
  ∃ msg, Precommit_SignBytes p = Ret msg ∧ Verify v (pcSignature p) msg (Z.of_nat j) = Ret true.

Lemma held_signed chain si sg i cs v : node_run chain si sg i cs → weights_ok (shard_weights chain si) →
  shard_verifier chain si = Some v → ∀ j p, votes (precommits cs) !! j = Some (Some p) → signed_for v (csHeight cs) j p.
Proof.
  intros R Hw Hv j p Hj. destruct (run_votes chain si sg i cs R Hw) as (I & Ew & Ek & Eh & Er).
  pose proof (vi_index _ _ (hi_precommits _ I) j p Hj) as Hi. change (GetIndex p) with (pcValidatorIndex p) in Hi.
  destruct (hi_precommit _ I j p Hj) as (H1 & H2 & v' & msg & Ev & Em & Hver).
  assert (v' = v) as -> by congruence. unfold signed_for. rewrite <- Hi. split_and!; [congruence..|by exists msg].
Qed.
Lemma run_verifier chain si sg i cs : node_run chain si sg i cs → weights_ok (shard_weights chain si) →
  ∃ v, shard_verifier chain si = Some v.
Proof.
  intros R Hw. destruct (run_votes chain si sg i cs R Hw) as (I & _ & Ek & _). destruct (cf_verifier _ (hi_config _ I)) as (v & Ev & _).
  exists v. congruence.
Qed.
Lemma run_overlap chain si sg1 i1 cs1 sg2 i2 cs2 : node_run chain si sg1 i1 cs1 → node_run chain si sg2 i2 cs2 →
  weights_ok (shard_weights chain si) → HasMaj23 (precommits cs1) = true → HasMaj23 (precommits cs2) = true →
  GetMaj23 (precommits cs1) ≠ GetMaj23 (precommits cs2) →
  zsum (shard_weights chain si) < 3 * weight conflicting (both (votes (precommits cs1)) (votes (precommits cs2))) (shard_weights chain si).
Proof.
  intros R1 R2 Hw M1 M2 Hne. destruct (run_votes _ _ _ _ _ R1 Hw) as (I1 & E1 & _), (run_votes _ _ _ _ _ R2 Hw) as (I2 & E2 & _).
  apply majorities_overlap; try done; [rewrite <- E1; apply I1|rewrite <- E2; apply I2].
Qed.

(** C8. Two nodes of a shard at the same height whose precommits have majorities
    for different blocks or different codes hold between them the proof of
    guilt of more than a third of the weight of the shard: two precommits of
    each of these validators for different outcomes of the height, both signed
    with the validator's key. *)
Theorem conflict_attributable chain si sg1 i1 cs1 sg2 i2 cs2
    (R1 : node_run chain si sg1 i1 cs1) (R2 : node_run chain si sg2 i2 cs2)
    (Hw : weights_ok (shard_weights chain si)) (Hh : csHeight cs1 = csHeight cs2)
    (M1 : HasMaj23 (precommits cs1) = true) (M2 : HasMaj23 (precommits cs2) = true)
    (Hne : GetMaj23 (precommits cs1) ≠ GetMaj23 (precommits cs2)) :
  ∃ v, shard_verifier chain si = Some v ∧
    zsum (shard_weights chain si) <
      3 * weight conflicting (both (votes (precommits cs1)) (votes (precommits cs2))) (shard_weights chain si) ∧
    ∀ j p q, both (votes (precommits cs1)) (votes (precommits cs2)) !! j = Some (Some (p, q)) →
      signed_for v (csHeight cs1) j p ∧ signed_for v (csHeight cs1) j q.
Proof.
  destruct (run_verifier _ _ _ _ _ R1 Hw) as [v Hv]. exists v. split_and!; [done|by eapply run_overlap|].
  intros j p q [Hp Hq]%both_lookup. split; [by eapply held_signed|rewrite Hh; by eapply held_signed].
Qed.

(** ** Agreement *)

(** The node sent a precommit for the height, block and code of [p]. *)
Definition has_sent (cs : CS) (chain : string) (p : Precommit) : Prop :=
  ∃ bz q, {| toShard := chain; payload := bz; messageType := TendermintPrecommit |} ∈ sent cs ∧
    NewPrecommitFromBytes bz = Some q ∧ pcHeight q = pcHeight p ∧ pcBlockHeaderHash q = pcBlockHeaderHash p ∧
    Precommit_IsOK q = Precommit_IsOK p.

(** A node sends one precommit per height. *)
Lemma sent_once chain si sg i cs p q : node_run chain si sg i cs → zlen (sent cs) < 2 ^ 63 - 1 →
  has_sent cs chain p → has_sent cs chain q → pcHeight p = pcHeight q →
  pcBlockHeaderHash p = pcBlockHeaderHash q ∧ Precommit_IsOK p = Precommit_IsOK q.
Proof.
  intros R Hl (b1 & p' & In1 & D1 & Eh1 & Ek1 & Ec1) (b2 & q' & In2 & D2 & Eh2 & Ek2 & Ec2) Hh.
  destruct (run_log chain si sg i cs R Hl) as (_ & _ & L).
  assert (∀ bz r, {| toShard := chain; payload := bz; messageType := TendermintPrecommit |} ∈ sent cs →
    NewPrecommitFromBytes bz = Some r → ∃ j, sent_of TendermintPrecommit (sent cs) !! j =
      Some {| toShard := chain; payload := bz; messageType := TendermintPrecommit |} ∧ pcHeight r = 1 + Z.of_nat j) as Hat.
  { intros bz r Hin Hd. assert ({| toShard := chain; payload := bz; messageType := TendermintPrecommit |} ∈
      sent_of TendermintPrecommit (sent cs)) as Hin' by (by apply list_elem_of_filter).
    apply list_elem_of_lookup in Hin' as [j Hj]. exists j. split; [done|].
    destruct (Forall2_lookup_r _ _ _ _ _ L Hj) as (k & Hk & _ & v & msg & Ep & _ & _ & Ev & _).
    apply lookup_seqZ in Hk as [Hk _]. unfold Precommit_ProtoBytes, MustProtoBytes in Ep.
    destruct (marshal (Precommit_ToProto v)) as [bz'|] eqn:Em; [|done]. injection Ep as ->. apply unmarshal_marshal in Em.
    unfold NewPrecommitFromBytes in Hd. cbn in Em. rewrite Em in Hd. injection Hd as <-. cbn. lia. }
  destruct (Hat _ _ In1 D1) as (j1 & L1 & H1), (Hat _ _ In2 D2) as (j2 & L2 & H2).
  assert (j1 = j2) as -> by lia. rewrite L1 in L2. injection L2 as ->. rewrite D1 in D2. injection D2 as ->. split; congruence.
Qed.

(** C3. Agreement: if validators with at least two thirds of the weight of a
    shard run this code, under whatever scheduling, clocks and messages, and
    every precommit of one of them that two nodes hold was sent by it, the two
    nodes never see majorities for different outcomes of a height. *)
Theorem shard_agreement chain si sg1 i1 cs1 sg2 i2 cs2 (honest : nat → bool) (node : nat → CS) (sgs : nat → Signer)
    (R1 : node_run chain si sg1 i1 cs1) (R2 : node_run chain si sg2 i2 cs2)
    (Hw : weights_ok (shard_weights chain si)) (Hh : csHeight cs1 = csHeight cs2)
    (M1 : HasMaj23 (precommits cs1) = true) (M2 : HasMaj23 (precommits cs2) = true)
    (Hhonest : 2 * zsum (shard_weights chain si) ≤ 3 * weight_of honest (shard_weights chain si))
    (Hrun : ∀ j, honest j = true → node_run chain si (sgs j) (Z.of_nat j) (node j) ∧ zlen (sent (node j)) < 2 ^ 63 - 1)
    (Hsent : ∀ j p, honest j = true →
       votes (precommits cs1) !! j = Some (Some p) ∨ votes (precommits cs2) !! j = Some (Some p) → has_sent (node j) chain p) :
  GetMaj23 (precommits cs1) = GetMaj23 (precommits cs2).
Proof.
  destruct (decide (GetMaj23 (precommits cs1) = GetMaj23 (precommits cs2))) as [|Hne]; [done|exfalso].
  pose proof (run_overlap _ _ _ _ _ _ _ _ R1 R2 Hw M1 M2 Hne) as Ho. destruct (run_verifier _ _ _ _ _ R1 Hw) as [v Hv].
  destruct (run_votes _ _ _ _ _ R1 Hw) as (I1 & E1 & _), (run_votes _ _ _ _ _ R2 Hw) as (I2 & E2 & _).
  pose proof (vi_len _ _ (hi_precommits _ I1)) as Len1. pose proof (vi_len _ _ (hi_precommits _ I2)) as Len2. rewrite E1 in Len1. rewrite E2 in Len2.
  destruct (weight_meet conflicting honest (both (votes (precommits cs1)) (votes (precommits cs2))) (shard_weights chain si))
    as (j & [p q] & Hj & Hc & Hhon); [apply Hw|unfold both; rewrite length_zip_with; unfold precommits; lia|lia|].
  apply both_lookup in Hj as [Hp Hq]. destruct (Hrun j Hhon) as [Rj Lj].
  destruct (held_signed _ _ _ _ _ v R1 Hw Hv j p Hp) as [Hhp _], (held_signed _ _ _ _ _ v R2 Hw Hv j q Hq) as [Hhq _].
  destruct (sent_once _ _ _ _ _ p q Rj Lj) as [Ek Ec]; [by apply Hsent; auto..|congruence|].
  unfold conflicting in Hc. cbn in Hc. by rewrite Ek, bytes_Equal_refl, Ec, eqb_reflx in Hc.
Qed.
End Agreement.
