(* ===== verification/PyrDemo.v ===== *)
(** * A concrete Pyramid system

    Instances of Pyramid's wire interfaces by the structural codec of
    [Signer], the bank as the application of consensus, and a small system: a
    B shard [b1] and an I shard [i1].  The witnesses of the theorems about
    Pyramid run on it. *)

From stdpp Require Import base list gmap strings numbers sorting.
From Stdlib Require Import ZArith Lia.
From S2P Require Import Prelude Convert BitVector Hash Merkle MerkleProofs MerkleGen Wire Signer RangeTree Store Batch ShardInfo PyrTypes PyrParts PyrVotes PyrVoteProofs PyrHeight PyrHeightProofs PyrBank PyrBankProofs PyrMoney PyrCommit UrdDemo CList Mempool PyrConsensus PyrConsensusProofs PyrConsensusTheorems.

(** ** Codecs *)

#[local] Instance proof_ser : Ser PProof.
Proof.
  refine (iso_ser (λ m, (pTotal m, pIndex m, pLeafHash m, pAunts m))
    (λ '(a, b, c, d), {| pTotal := a; pIndex := b; pLeafHash := c; pAunts := d |}) _). by intros [].
Defined.
#[local] Instance time_ser : Ser PTimestamp.
Proof. refine (iso_ser (λ m, (Seconds m, Nanos m)) (λ '(a, b), {| Seconds := a; Nanos := b |}) _). by intros []. Defined.
#[local] Instance gotime_ser : Ser GoTime.
Proof. refine (iso_ser (λ m, (unix m, nsec m)) (λ '(a, b), {| unix := a; nsec := b |}) _). by intros []. Defined.
#[local] Instance smap_ser : Ser (gmap string string).
Proof.
  refine (iso_ser (λ m : gmap string string, map_to_list m) (λ l : list (string * string), list_to_map l) _).
  apply list_to_map_to_list.
Defined.
#[local] Instance header_ser : Ser PHeader.
Proof.
  refine (iso_ser (λ m, (phBlockType m, phHashPointer m, phChainID m, phHeight m, phTime m,
      (phBodyRoot m, phCrossShardBodyRoot m, phStateRoot m, phReceiptRoot m, phRelationRoot m)))
    (λ '(a, b, c, d, e, (f, g, h, i, j)), Build_PHeader a b c d e f g h i j) _). by intros [].
Defined.
#[local] Instance cross_ser : Ser PCrossShardBody.
Proof. refine (iso_ser (λ m, (pcTxs m, pcDatas m)) (λ '(a, b), Build_PCrossShardBody a b) _). by intros []. Defined.
#[local] Instance body_ser : Ser PBody.
Proof. refine (iso_ser pbTxs Build_PBody _). by intros []. Defined.
#[local] Instance relation_ser : Ser PRelation.
Proof.
  refine (iso_ser (λ m, (prRelatedCommitStatus m, prRelatedHash m, prMyCommitStatus m))
    (λ '(a, b, c), Build_PRelation a b c) _). by intros [].
Defined.
#[local] Instance commit_ser : Ser PCommit.
Proof.
  refine (iso_ser (λ m, (pcmHeight m, pcmRound m, pcmBlockHash m, pcmSigs m))
    (λ '(a, b, c, d), Build_PCommit a b c d) _). by intros [].
Defined.
#[local] Instance block_ser : Ser PBlock.
Proof.
  refine (iso_ser (λ m, (pkHeader m, pkBody m, pkCross m, pkRelation m))
    (λ '(a, b, c, d), Build_PBlock a b c d) _). by intros [].
Defined.
#[local] Instance receipt_ser : Ser PReceipt.
Proof.
  refine (iso_ser (λ m, (PyrTypes.pcCode m, pcLog m, pcInfo m, pcOptions m))
    (λ '(a, b, c, d), Build_PReceipt a b c d) _). by intros [].
Defined.
#[local] Instance part_ser : Ser PPart.
Proof.
  refine (iso_ser (λ m, (ppHeight m, ppRound m, ppBytes m, ppProof m, ppChainID m))
    (λ '(a, b, c, d, e), Build_PPart a b c d e) _). by intros [].
Defined.
#[local] Instance psh_ser : Ser PPartSetHeader.
Proof.
  refine (iso_ser (λ m, (qshTotal m, qshRoot m, qshHeight m, qshRound m, qshChainID m))
    (λ '(a, b, c, d, e), Build_PPartSetHeader a b c d e) _). by intros [].
Defined.
#[local] Instance proposal_ser : Ser PProposal.
Proof.
  refine (iso_ser (λ m, (qrVoteType m, qrHeader m, qrProposerIndex m, qrBlockHeaderHash m, qrSignature m))
    (λ '(a, b, c, d, e), Build_PProposal a b c d e) _). by intros [].
Defined.
#[local] Instance prevote_ser : Ser PPrevote.
Proof.
  refine (iso_ser (λ m, (qvCode m, qvVoteType m, qvHeight m, qvRound m, qvBlockHeaderHash m, qvSignature m,
      qvValidatorIndex m)) (λ '(a, b, c, d, e, f, g), Build_PPrevote a b c d e f g) _). by intros [].
Defined.
#[local] Instance precommit_ser : Ser PPrecommit.
Proof.
  refine (iso_ser (λ m, (qcCode m, qcVoteType m, qcHeight m, qcRound m, qcBlockHeaderHash m, qcSignature m,
      qcValidatorIndex m)) (λ '(a, b, c, d, e, f, g), Build_PPrecommit a b c d e f g) _). by intros [].
Defined.
#[local] Instance aggregated_ser : Ser PPrecommitAggregated.
Proof.
  refine (iso_ser (λ m, (qaVoteType m, qaCode m, qaBitVector m, qaHeader m, qaBlockHeaderHash m, qaSignatures m))
    (λ '(a, b, c, d, e, f), Build_PPrecommitAggregated a b c d e f) _). by intros [].
Defined.
#[local] Instance csb_ser : Ser PCrossShardBlock.
Proof. refine (iso_ser (λ m, (qbBlock m, qbSignatures m)) (λ '(a, b), Build_PCrossShardBlock a b) _). by intros []. Defined.
#[local] Instance accept_ser : Ser PMessageAccept.
Proof. refine (iso_ser (λ m, (qmBlockHash m, qmSignatures m)) (λ '(a, b), Build_PMessageAccept a b) _). by intros []. Defined.
#[local] Instance accept_set_ser : Ser PMessageAcceptSet.
Proof. refine (iso_ser (λ m, (qsBlockHash m, qsAccepts m)) (λ '(a, b), Build_PMessageAcceptSet a b) _). by intros []. Defined.
#[local] Instance mcommit_ser : Ser PMessageCommit.
Proof. refine (iso_ser (λ m, (qtBlockHash m, qtSignatures m)) (λ '(a, b), Build_PMessageCommit a b) _). by intros []. Defined.
#[local] Instance ok_ser : Ser PMessageOK.
Proof. refine (iso_ser (λ m, (qoChain_ID m, qoHeight m)) (λ '(a, b), Build_PMessageOK a b) _). by intros []. Defined.
#[local] Instance transfer_ser : Ser TransferTx.
Proof.
  refine (iso_ser (λ m, (From m, To m, FromMoney m, ToMoney m, Buffer m, txTime m))
    (λ '(a, b, c, d, e, f), Build_TransferTx a b c d e f) _). by intros [].
Defined.
#[local] Instance insert_ser : Ser InsertTx.
Proof.
  refine (iso_ser (λ m, (Account m, Money m, iBuffer m, iTime m)) (λ '(a, b, c, d), Build_InsertTx a b c d) _).
  by intros [].
Defined.
#[local] Instance data_ser : Ser BankData.
Proof. refine (iso_ser (λ m, (Keys m, OK m, Values m)) (λ '(a, b, c), Build_BankData a b c) _). by intros []. Defined.

Definition pyr_wire : PyrWire.
Proof.
  refine {| pyr_header_codec := ser_codec PHeader; pyr_relation_codec := ser_codec PRelation;
    pyr_commit_codec := ser_codec PCommit; pyr_block_codec := ser_codec PBlock;
    pyr_receipt_codec := ser_codec PReceipt; StdTimeMarshal := λ t, Some (ser t) |}.
  intros t t' bz E E'. pose proof (deser_ser_nil t) as E1. pose proof (deser_ser_nil t') as E1'. congruence.
Defined.
Definition pyr_part_wire : PyrPartWire :=
  {| pyr_part_codec := ser_codec PPart; pyr_psh_codec := ser_codec PPartSetHeader |}.
Definition pyr_vote_wire : PyrVoteWire.
Proof.
  refine {| proposal_codec := ser_codec PProposal; prevote_codec := ser_codec PPrevote;
    precommit_codec := ser_codec PPrecommit; aggregated_codec := ser_codec PPrecommitAggregated;
    csb_codec := ser_codec PCrossShardBlock; accept_codec := ser_codec PMessageAccept;
    accept_set_codec := ser_codec PMessageAcceptSet; commit_codec := ser_codec PMessageCommit;
    ok_codec := ser_codec PMessageOK |}; by eexists.
Defined.
Definition pyr_bank_wire : PyrBankWire :=
  {| pyr_transfer_codec := ser_codec TransferTx; pyr_insert_codec := ser_codec InsertTx;
     pyr_data_codec := ser_codec BankData |}.

#[local] Existing Instance pyr_wire.
#[local] Existing Instance pyr_part_wire.
#[local] Existing Instance pyr_vote_wire.
#[local] Existing Instance pyr_bank_wire.
#[local] Existing Instance cheap_hash.
#[local] Existing Instance LinearBLS.linear_BLS.
#[local] Existing Instance map_store.

(** ** Blocks *)

Definition tx_of (from to : string) (x : Z) : bytes :=
  get [] (TransferBytes {| From := [from]; To := [to]; FromMoney := [x]; ToMoney := [x]; Buffer := []; txTime := None |}).
Definition header_at (type h : Z) (chain : string) : Header :=
  {| BlockType := type; HashPointer := [1]; ChainID := chain; Height := h; Time := {| unix := 1700000000; nsec := 5 |};
     BodyRoot := []; CrossShardBodyRoot := []; StateRoot := [7]; ReceiptRoot := []; RelationRoot := [] |}.
Definition block_of (type h : Z) (chain : string) (body cross datas : list bytes) : Block :=
  {| bHeader := header_at type h chain; bBody := {| BodyTxs := body |};
     bCross := {| CrossShardTxs := cross; CrossShardDatas := datas |};
     bRelation := {| RelatedCommitStatus := []; RelatedHash := []; MyCommitStatus := [] |}; blockhash := [] |}.

(** An inner-shard block of [i1] with two transfers, the second of which
    nobody can pay. *)
Definition inner3 : Block :=
  block_of BLOCKTYPE_InnerShard 3 "i1" [tx_of "a1" "b1" 5; tx_of "b1" "a1" 5000000] [] [].
Definition hashed3 : Block * bytes := get (inner3, []) (Block_Hash inner3).
Lemma hashed3_eq : Block_Hash inner3 = Ret (fst hashed3, snd hashed3).
Proof. unfold hashed3. rewrite <- surjective_pairing. apply get_Ret. vm_compute. reflexivity. Qed.
Lemma inner3_fresh : fresh inner3.
Proof. split; done. Qed.

Lemma PyrBlock_Hash_binds_witness :
  snd hashed3 ≠ [] ∧ (bBody inner3 = bBody inner3 ∨ CollisionIn (block_hashed inner3) (block_hashed inner3)).
Proof.
  assert (snd hashed3 ≠ []) as Hne by (vm_compute; discriminate). split; [exact Hne|].
  destruct (PyrBlock_Hash_binds inner3 inner3 _ _ _ inner3_fresh inner3_fresh Hne hashed3_eq hashed3_eq)
    as [(_ & E & _)|E]; [left|right]; exact E.
Defined.

Definition split3 : option (Block * PartSet) := get None (PartSetFromBlock inner3 100 0).
Definition sender3 : Block := match split3 with Some (b, _) => b | None => inner3 end.
Definition set3 : PartSet :=
  match split3 with
  | Some (_, ps) => ps
  | None => {| psHeader := {| pshHeight := 0; pshRound := 0; pshTotal := 0; pshRoot := []; pshChainID := "" |};
               Parts := []; psCount := 0; BlockHeaderHash := [] |}
  end.
Definition is_Ret_Some {A} (m : outcome (option A)) : bool := match m with Ret (Some _) => true | _ => false end.
Lemma split3_eq : PartSetFromBlock inner3 100 0 = Ret (Some (sender3, set3)).
Proof.
  assert (is_Ret_Some (PartSetFromBlock inner3 100 0) = true) as E by (vm_compute; reflexivity).
  unfold sender3, set3, split3. by destruct (PartSetFromBlock inner3 100 0) as [[[]|]|].
Qed.
(** The parts in the reverse order. *)
Definition parts3 : list Part := reverse (omap id (Parts set3)).
Lemma parts3_elem p : p ∈ parts3 ↔ Some p ∈ Parts set3.
Proof.
  unfold parts3. rewrite elem_of_reverse, list_elem_of_omap. unfold id. split; [by intros (? & ? & ->)|].
  intros Hp. by exists (Some p).
Qed.
Lemma PyrPartSet_delivery_witness :
  (2 <= length parts3)%nat ∧ ∃ ps0 ps, NewPartSet (psHeader set3) (BlockHeaderHash set3) = Ret ps0 ∧
    deliver ps0 parts3 = Ret ps ∧ GenBlock ps = Ret (Some sender3, None).
Proof.
  split; [vm_compute; lia|].
  destruct (PyrPartSet_delivery inner3 100 0 sender3 set3 parts3 ltac:(lia) ltac:(split_and!; done) eq_refl split3_eq parts3_elem)
    as (ps0 & ps & E0 & E1 & _ & _ & _ & E2).
  exists ps0, ps. split; [exact E0|]. split; [exact E1|exact E2].
Defined.

(** ** The bank *)

Abbreviation DB := (gmap bytes bytes).
Definition keys_az : RangeTree := get NewRangeTree (RT_AddRange NewRangeTree "a" "z").
Definition bank_at (chain : string) (isI : bool) : Application DB :=
  NewApplication ∅ chain isI (Some keys_az) {["i1" := keys_az]}.
Definition bank_i : Application DB := bank_at "i1" true.
Lemma bank_i_wf : accounts_wf (DBConn bank_i).
Proof. intros k bz E. unfold PrefixStore.datas in E. cbn in E. by rewrite lookup_empty in E. Qed.
Lemma written {A} (f : A → outcome bytes) a : is_ret (f a) = true → ∃ bz, f a = Ret bz.
Proof. destruct (f a) as [bz|]; [by exists bz|done]. Qed.
Definition sent3 : bytes := get [] (Block_ProtoBytes (fst hashed3)).
Lemma sent3_eq : Block_ProtoBytes (fst hashed3) = Ret sent3.
Proof. apply get_Ret. vm_compute. reflexivity. Qed.

(** The first transfer succeeds, the second does not. *)
Lemma ExecutionInnerShard_refines_witness :
  snd (run_txs (usable bank_i keys_az) (balance (DBConn bank_i)) (BodyTxs (bBody inner3))) = [true; false] ∧
  ∃ app' bs', PyrBank.ExecutionInnerShard bank_i (∅ : DB) inner3 =
      Ret (app', bs', {| Receipts := map receipt_of [true; false] |}, 2, 0, 0) ∧
    balance (DBConn app') "a1" = 999995 ∧ balance (DBConn app') "b1" = 1000005.
Proof.
  assert (snd (run_txs (usable bank_i keys_az) (balance (DBConn bank_i)) (BodyTxs (bBody inner3))) = [true; false] ∧
    fst (run_txs (usable bank_i keys_az) (balance (DBConn bank_i)) (BodyTxs (bBody inner3))) "a1" = 999995 ∧
    fst (run_txs (usable bank_i keys_az) (balance (DBConn bank_i)) (BodyTxs (bBody inner3))) "b1" = 1000005)
    as (E1 & E2 & E3) by (vm_compute; done).
  split; [exact E1|].
  pose proof (ExecutionInnerShard_refines bank_i (∅ : DB) inner3 keys_az _ _ _ eq_refl eq_refl bank_i_wf hashed3_eq sent3_eq) as Hx.
  destruct (run_txs (usable bank_i keys_az) (balance (DBConn bank_i)) (BodyTxs (bBody inner3))) as [l oks].
  cbn [fst snd] in E1, E2, E3. subst oks. destruct Hx as (app' & bs' & E & _ & _ & Hl & _).
  exists app', bs'. split; [exact E|]. rewrite !Hl. split; [exact E2|exact E3].
Defined.

Definition decoded (bz : bytes) : TransferTx :=
  match unmarshalTransferTx bz with
  | Ret (inl tx) => tx
  | _ => {| From := []; To := []; FromMoney := []; ToMoney := []; Buffer := []; txTime := None |}
  end.
Definition honest_b (accounts : list string) (bz : bytes) : bool :=
  let tx := decoded bz in
  bool_decide (NoDup (From tx ++ To tx)) && bool_decide (Forall (.∈ accounts) (From tx ++ To tx)) &&
  bool_decide (Forall (λ x, 0 ≤ x) (FromMoney tx)) && bool_decide (Forall (λ x, 0 ≤ x) (ToMoney tx)) &&
  (zsum (FromMoney tx) =? zsum (ToMoney tx)).
Lemma honest_b_spec accounts bz : honest_b accounts bz = true → honest accounts bz.
Proof.
  unfold honest_b, honest, decoded. intros E tx Et. rewrite Et in E. bool_to_prop.
  split_and!; try done. match goal with Hf : Forall _ (From tx ++ To tx) |- _ => by apply Forall_forall end.
Qed.
Lemma ExecutionInnerShard_conserves_witness :
  total ["a1"; "b1"] (balance (DBConn bank_i)) = 2000000 ∧
  ∃ app' bs' resp n, PyrBank.ExecutionInnerShard bank_i (∅ : DB) inner3 = Ret (app', bs', resp, n, 0, 0) ∧
    total ["a1"; "b1"] (balance (DBConn app')) = 2000000.
Proof.
  assert (total ["a1"; "b1"] (balance (DBConn bank_i)) = 2000000) as Et by (vm_compute; reflexivity). split; [exact Et|].
  destruct (ExecutionInnerShard_conserves bank_i (∅ : DB) inner3 keys_az _ _ _ ["a1"; "b1"] eq_refl eq_refl bank_i_wf
    hashed3_eq sent3_eq) as (app' & bs' & resp & n & E & Hc).
  - apply (bool_decide_eq_true_1 (NoDup ["a1"; "b1"])). vm_compute. reflexivity.
  - repeat (apply Forall_cons_2; [apply honest_b_spec; vm_compute; reflexivity|]). apply Forall_nil_2.
  - rewrite Et. lia.
  - exists app', bs', resp, n. split; [exact E|]. rewrite Hc. exact Et.
Defined.

(** ** Two phases *)

Definition bank_b : Application DB := bank_at "b1" false.
(** A cross-shard block with the data its proposer fills in. *)
Definition cross_block (h : Z) (txs : list bytes) : Block :=
  get inner3 (PyrBank.FillData bank_b (block_of BLOCKTYPE_CrossShard h "b1" [] txs [])).
Definition cross4 : Block := cross_block 4 [tx_of "a1" "b1" 7].
Definition hashed_pair (b : Block) : Block * bytes := get (b, []) (Block_Hash b).
Lemma hashed_pair_eq b : is_ret (Block_Hash b) = true → Block_Hash b = Ret (fst (hashed_pair b), snd (hashed_pair b)).
Proof. intros E. unfold hashed_pair. rewrite <- surjective_pairing. apply get_Ret. by destruct (Block_Hash b). Qed.
Definition sent_of (b : Block) : bytes := get [] (Block_ProtoBytes (fst (hashed_pair b))).
Lemma sent_of_eq b : is_ret (Block_ProtoBytes (fst (hashed_pair b))) = true →
  Block_ProtoBytes (fst (hashed_pair b)) = Ret (sent_of b).
Proof. intros E. unfold sent_of. by destruct (Block_ProtoBytes _). Qed.
Lemma data_ok_b bz : is_ret (NewCrossShardDataFromBytes bz) = true → data_ok bz.
Proof. intros E. unfold data_ok. destruct (NewCrossShardDataFromBytes bz) as [r|]; [by exists r|done]. Qed.

Lemma two_phase_commit_witness :
  ∃ m rs app1 bs1 app2,
    cross_loop bank_i (CrossShardDatas (bCross cross4)) 0 (CrossShardTxs (bCross cross4)) NewMemoryDB = Ret (m, rs) ∧
    PyrBank.AcceptCrossShard bank_i (∅ : DB) cross4 "i1" true = Ret (app1, bs1, {| Receipts := rs |}, 1, 0, 0) ∧
    PyrBank.AcceptCommitShard app1 bs1 [snd (hashed_pair cross4)] [true] "i1" =
      Ret (app2, bs1, {| Receipts := [receipt_of true] |}, 1, 0, 0) ∧
    LockedKeys app2 = ∅.
Proof.
  destruct (two_phase_commit bank_i (∅ : DB) cross4 "i1" keys_az (fst (hashed_pair cross4)) (snd (hashed_pair cross4))
    (sent_of cross4)) with (c := true) as (m & rs & app1 & bs1 & app2 & E1 & E2 & _ & _ & E3 & E4 & _).
  - vm_compute. reflexivity.
  - reflexivity.
  - vm_compute. reflexivity.
  - assert (length (CrossShardDatas (bCross cross4)) = 1%nat) as Hl by (vm_compute; reflexivity).
    assert (is_ret (NewCrossShardDataFromBytes (List.hd [] (CrossShardDatas (bCross cross4)))) = true) as Hd
      by (vm_compute; reflexivity).
    destruct (CrossShardDatas (bCross cross4)) as [|d [|]]; [discriminate Hl| |discriminate Hl].
    apply Forall_cons_2; [apply data_ok_b; exact Hd|apply Forall_nil_2].
  - vm_compute. reflexivity.
  - apply hashed_pair_eq. vm_compute. reflexivity.
  - apply sent_of_eq. vm_compute. reflexivity.
  - vm_compute. discriminate.
  - exists m, rs, app1, bs1, app2. split; [exact E1|]. split; [exact E2|]. split; [exact E3|exact E4].
Defined.

(** Block A locks [a1] and [b1]; block B, on the same accounts, is voted down
    and stored. *)
Definition cross5 : Block := cross_block 5 [tx_of "a1" "b1" 9].
Definition accepted (app : Application DB) (bs : DB) (b : Block) (ok : bool) : Application DB * DB :=
  match PyrBank.AcceptCrossShard app bs b "i1" ok with Ret (app, bs, _, _, _, _) => (app, bs) | Panic => (app, bs) end.
Definition locked4 : Application DB * DB := accepted bank_i ∅ cross4 true.
Definition refused5 : Application DB * DB := accepted (fst locked4) (snd locked4) cross5 false.
Definition found (r : slice + db_error) : bytes := match r with inl (Some bz) => bz | _ => [] end.
Lemma found_eq r : match r with inl (Some _) => true | _ => false end = true → r = inl (Some (found r)).
Proof. by destruct r as [[]|]. Qed.
Definition read_block (bz : bytes) : Block := match NewBlockFromBytes bz with Ret (Some b) => b | _ => inner3 end.
Lemma read_block_eq bz : is_Ret_Some (NewBlockFromBytes bz) = true → NewBlockFromBytes bz = Ret (Some (read_block bz)).
Proof. unfold read_block. by destruct (NewBlockFromBytes bz) as [[]|]. Qed.

Lemma abort_drops_foreign_lock_witness :
  LockedKeys (fst refused5) !! "a1" = Some 999993 ∧
  (∃ app1 app2 r1 r2,
     PyrBank.AcceptCommitShard (fst refused5) (snd refused5) [snd (hashed_pair cross5)] [false] "i1" =
       Ret (app1, snd refused5, r1, 1, 0, 0) ∧
     PyrBank.AcceptCommitShard app1 (snd refused5) [snd (hashed_pair cross4)] [true] "i1" =
       Ret (app2, snd refused5, r2, 1, 0, 0) ∧
     PrefixStore.datas (DBConn app2) (str_bytes "a1") = PrefixStore.datas (DBConn (fst refused5)) (str_bytes "a1")).
Proof.
  assert (LockedKeys (fst refused5) !! "a1" = Some 999993) as Hlock by (vm_compute; reflexivity). split; [exact Hlock|].
  set (bs := snd refused5). set (hA := snd (hashed_pair cross4)). set (hB := snd (hashed_pair cross5)).
  destruct (abort_drops_foreign_lock (fst refused5) bs keys_az "i1"
    hA (found (PrefixStore.GetBlockByHash bs hA)) (read_block (found (PrefixStore.GetBlockByHash bs hA)))
    hB (found (PrefixStore.GetBlockByHash bs hB)) (read_block (found (PrefixStore.GetBlockByHash bs hB))) "a1" 999993)
    as [(app1 & app2 & r1 & r2 & E1 & _ & E2 & E3) _].
  - vm_compute. reflexivity.
  - apply found_eq. vm_compute. reflexivity.
  - apply read_block_eq. vm_compute. reflexivity.
  - apply found_eq. vm_compute. reflexivity.
  - apply read_block_eq. vm_compute. reflexivity.
  - vm_compute. reflexivity.
  - vm_compute. reflexivity.
  - exact Hlock.
  - vm_compute. reflexivity.
  - vm_compute. reflexivity.
  - exists app1, app2, r1, r2. split; [exact E1|]. split; [exact E2|exact E3].
Defined.

(** ** Votes and heights *)

Definition out {A} (m : outcome A) : is_ret m = true → A :=
  match m with Ret a => λ _, a | Panic => λ E, False_rect A (diff_false_true E) end.
Lemma out_eq {A} (m : outcome A) E : m = Ret (out m E).
Proof. by destruct m. Qed.

Definition peer_of (sk : Z) : Peer := NewPeer "10.0.0.1" ∅ (LinearBLS.ser sk) 1.
Definition signer_of (sk : Z) : Signer := @Build_Signer LinearBLS.linear_BLS sk.
(** Four validators in the I shard, one in the B shard. *)
Definition sks : list Z := [3; 5; 7; 11].
Definition info (id : Z) (other : string) : PyrHeight.ShardInfo :=
  {| PeerList := {["i1" := map peer_of sks; "b1" := [peer_of 13]]}; RelatedShards := {[other := true]};
     PeerRelatedMap := ∅; ShardIdentity := id; KeyRangeMap := ∅ |}.

Definition h0 : HeightDataPackage.
Proof. refine (out (NewHeightData "i1" 0 (info BLOCKTYPE_I "b1") ["b1"; "i1"]) _). vm_compute. reflexivity. Defined.
Lemma info_weights id other : weights_ok (map PVotes (default [] (PeerList (info id other) !! "i1"))).
Proof. constructor; [|vm_compute; reflexivity]. apply (bool_decide_eq_true_1 (Forall _ _)). vm_compute. reflexivity. Qed.
Lemma h0_config : config_ok h0.
Proof. exact (hi_config _ (NewHeightData_inv "i1" 0 (info BLOCKTYPE_I "b1") ["b1"; "i1"] h0 (out_eq _ _) (info_weights _ _))). Qed.
Definition h1 : HeightDataPackage.
Proof. refine (out (NextHeight h0) _). vm_compute. reflexivity. Defined.
Lemma h1_inv : hd_inv h1.
Proof.
  destruct (NextHeight_inv h0 h0_config) as (h' & E & I & _); [by intros p Hp%elem_of_nil|].
  assert (NextHeight h0 = Ret h1) as E1 by apply out_eq. congruence.
Qed.

(** A proposal of validator 1 at height 1, and the votes of validators 0 to 2. *)
Definition inner1 : Block := block_of BLOCKTYPE_InnerShard 1 "i1" [tx_of "a1" "b1" 5] [] [].
Definition set1 : PartSet := match get None (PartSetFromBlock inner1 400 0) with Some (_, ps) => ps | None => set3 end.
Definition proposal1 : Proposal :=
  let p := NewProposal (psHeader set1) 1 (BlockHeaderHash set1) in
  {| prVoteType := prVoteType p; prHeader := prHeader p; ProposerIndex := ProposerIndex p;
     prBlockHeaderHash := prBlockHeaderHash p; prSignature := Signer_Sign (signer_of 5) (get [] (Proposal_SignBytes p)) |}.
Definition prevote1 (i sk : Z) : Prevote :=
  let v := NewPrevote 1 0 (BlockHeaderHash set1) i in
  {| pvVoteType := pvVoteType v; pvCode := pvCode v; pvHeight := pvHeight v; pvRound := pvRound v;
     pvBlockHeaderHash := pvBlockHeaderHash v; pvSignature := Signer_Sign (signer_of sk) (get [] (Prevote_SignBytes v));
     pvValidatorIndex := pvValidatorIndex v |}.
Definition precommit1 (i sk : Z) : Precommit :=
  let v := NewPrecommit 1 0 (BlockHeaderHash set1) i in
  {| pcVoteType := pcVoteType v; PyrVotes.pcCode := PyrVotes.pcCode v; pcHeight := pcHeight v; pcRound := pcRound v;
     pcBlockHeaderHash := pcBlockHeaderHash v; pcSignature := Signer_Sign (signer_of sk) (get [] (Precommit_SignBytes v));
     pcValidatorIndex := pcValidatorIndex v |}.

Definition proposed : HeightDataPackage * option hd_error.
Proof. refine (out (AddProposal h1 proposal1 1) _). vm_compute. reflexivity. Defined.
Definition h2 : HeightDataPackage := fst proposed.
Lemma h2_inv : hd_inv h2.
Proof.
  assert (AddProposal h1 proposal1 1 = Ret (h2, snd proposed)) as E.
  { unfold h2. rewrite <- surjective_pairing. apply out_eq. }
  eapply (AddProposal_inv h1 proposal1 1 h2 _); [exact h1_inv| |exact E]. vm_compute. reflexivity.
Qed.
Definition prevoted (h : HeightDataPackage) (p : Prevote) : HeightDataPackage := fst (get (h, None) (AddPrevote h p)).
Definition precommitted (h : HeightDataPackage) (p : Precommit) : HeightDataPackage := fst (get (h, None) (AddPrecommit h p)).
Lemma prevoted_inv h p : hd_inv h → hd_inv (prevoted h p).
Proof. intros I. destruct (AddPrevote_inv h p I) as (h' & e & E & I' & _). unfold prevoted. by rewrite E. Qed.
Lemma precommitted_inv h p : hd_inv h → hd_inv (precommitted h p).
Proof. intros I. destruct (AddPrecommit_inv h p I) as (h' & e & E & I' & _). unfold precommitted. by rewrite E. Qed.
Definition h3 : HeightDataPackage := prevoted (prevoted (prevoted h2 (prevote1 0 3)) (prevote1 1 5)) (prevote1 2 7).
Definition h4 : HeightDataPackage :=
  precommitted (precommitted (precommitted h3 (precommit1 0 3)) (precommit1 1 5)) (precommit1 2 7).
Lemma h3_inv : hd_inv h3.
Proof. unfold h3. do 3 apply prevoted_inv. exact h2_inv. Qed.
Lemma h4_inv : hd_inv h4.
Proof. unfold h4. do 3 apply precommitted_inv. exact h3_inv. Qed.

Lemma Height_invariant_witness : HasMaj23 (Prevotes h3) = true ∧ HasMaj23 (Precommits h4) = true ∧ ∃ h', NextHeight h4 = Ret h'.
Proof.
  split; [vm_compute; reflexivity|]. split; [vm_compute; reflexivity|].
  destruct (Height_invariant h4 h4_inv) as (_ & _ & _ & E & _). exact E.
Defined.

(** The votes held, checked one by one. *)
Definition valid_votes (vs : VoteSet Precommit) : bool :=
  forallb (λ o, match o with Some p => bool_decide (Precommit_ValidateBasic p = None) | None => true end) (votes vs).
#[local] Instance vote_error_dec : EqDecision vote_error.
Proof. intros [] []; try (left; done); try (right; done). destruct e as [], e0 as []; try (left; done); right; congruence. Defined.
Lemma valid_votes_spec vs : valid_votes vs = true → ∀ i p, votes vs !! i = Some (Some p) → Precommit_ValidateBasic p = None.
Proof.
  unfold valid_votes. rewrite forallb_forall. intros Hf i p Hi. apply list_elem_of_lookup_2, list_elem_of_In in Hi.
  specialize (Hf _ Hi). cbn in Hf. by apply bool_decide_eq_true in Hf.
Qed.
Lemma certificate_verifies_witness :
  ∃ pa bv, GenerateAggregatePrecommitSignature h4 = Ret pa ∧
    (paBlockHeaderHash pa, PA_IsOK pa) = GetMaj23 (Precommits h4) ∧
    VerifySignatures pa (AllValidatorSet h4 !! PyrHeight.MyChainID h4) (Byte (ValidatorBitVector pa)) = Ret true ∧
    ValidatorBitVector pa = Some bv ∧ bv_bit bv 2 = true ∧ bv_bit bv 3 = false.
Proof.
  destruct (certificate_verifies h4 proposal1 h4_inv) as (pa & bv & E1 & _ & _ & E2 & E3 & E4 & E5).
  - vm_compute. reflexivity.
  - vm_compute. reflexivity.
  - vm_compute. reflexivity.
  - apply valid_votes_spec. vm_compute. reflexivity.
  - intros Hno. exfalso. apply (diff_true_false (eq_trans (eq_sym (eq_refl true <: snd (GetMaj23 (Precommits h4)) = true)) Hno)).
  - exists pa, bv. split; [exact E1|]. split; [exact E2|]. split; [exact E3|]. split; [exact E4|].
    rewrite !E5 by lia. vm_compute. split; reflexivity.
Defined.

(** Three validators sign precommits with a code that is neither accept nor
    abort.  The votes pass the basic validation and are held; they make a
    majority for abort, whose certificate has the code of abort and does not
    verify. *)
Definition odd_precommit (i sk : Z) : Precommit :=
  let v := {| pcVoteType := VoteTypePrecommit; PyrVotes.pcCode := 7; pcHeight := 1; pcRound := 0;
     pcBlockHeaderHash := BlockHeaderHash set1; pcSignature := EmptyString; pcValidatorIndex := i |} in
  {| pcVoteType := pcVoteType v; PyrVotes.pcCode := PyrVotes.pcCode v; pcHeight := pcHeight v; pcRound := pcRound v;
     pcBlockHeaderHash := pcBlockHeaderHash v; pcSignature := Signer_Sign (signer_of sk) (get [] (Precommit_SignBytes v));
     pcValidatorIndex := pcValidatorIndex v |}.
Definition h4_odd : HeightDataPackage :=
  precommitted (precommitted (precommitted h3 (odd_precommit 0 3)) (odd_precommit 1 5)) (odd_precommit 2 7).
Theorem odd_code_spoils_certificate :
  valid_votes (Precommits h4_odd) = true ∧ HasMaj23 (Precommits h4_odd) = true ∧ snd (GetMaj23 (Precommits h4_odd)) = false ∧
  match GenerateAggregatePrecommitSignature h4_odd with
  | Ret pa => PA_ValidateBasic pa = None ∧
      VerifySignatures pa (AllValidatorSet h4_odd !! PyrHeight.MyChainID h4_odd) (Byte (ValidatorBitVector pa)) = Ret false
  | Panic => False
  end.
Proof. vm_compute. split_and!; reflexivity. Qed.

Definition vs0 : VoteSet Prevote.
Proof. refine (out (NewVoteSet 4 4) _). vm_compute. reflexivity. Defined.
Definition voted (vs : VoteSet Prevote) (p : Prevote) : VoteSet Prevote := fst (get (vs, None) (AddVote vs p 1)).
Lemma voted_reach vs p : vs_reach [1; 1; 1; 1] vs → 0 ≤ pvValidatorIndex p →
  [1; 1; 1; 1] !! Z.to_nat (pvValidatorIndex p) = Some 1 → is_ret (AddVote vs p 1) = true → vs_reach [1; 1; 1; 1] (voted vs p).
Proof.
  intros R Hi Hp E. unfold voted. destruct (AddVote vs p 1) as [[vs' e]|] eqn:Ea; [|done]. by eapply (vs_add _ vs p vs' 1 e).
Qed.
Definition vs3 : VoteSet Prevote := voted (voted (voted vs0 (prevote1 0 3)) (prevote1 1 5)) (prevote1 2 7).
Lemma VoteSet_majority_witness :
  HasMaj23 vs3 = true ∧ bound [1; 1; 1; 1] < tally [1; 1; 1; 1] vs3 (BlockHeaderHash set1) true ∧
  ∀ k c, bound [1; 1; 1; 1] < tally [1; 1; 1; 1] vs3 k c → (k, c) = GetMaj23 vs3.
Proof.
  assert (HasMaj23 vs3 = true) as Hm by (vm_compute; reflexivity). split; [exact Hm|]. split; [vm_compute; reflexivity|].
  destruct (VoteSet_majority (V := Prevote) [1; 1; 1; 1]) with (vs := vs3) as (_ & _ & Hu & _).
  - constructor; [|vm_compute; reflexivity]. apply (bool_decide_eq_true_1 (Forall _ _)). vm_compute. reflexivity.
  - unfold vs3. do 3 (apply voted_reach; [|vm_compute; discriminate|vm_compute; reflexivity|vm_compute; reflexivity]).
    apply vs_new. exact (out_eq _ _).
  - intros k c Hk. apply (Hu Hm). exact Hk.
Defined.

(** ** Consensus runs

    The bank is the application of consensus, as [main/start.go] wires it. *)
#[export] Instance bank_abci {D S} `{KVStore D} `{KVStore S} : ABCIConn (Application D) S := {|
  PreExecutionB := λ x b, Ret (PyrBank.PreExecutionB x b);
  PreExecutionI := PyrBank.PreExecutionI;
  ExecutionInnerShard := PyrBank.ExecutionInnerShard;
  AcceptCrossShard := PyrBank.AcceptCrossShard;
  AcceptCommitShard := PyrBank.AcceptCommitShard;
  AppCommit := PyrBank.Commit;
  FillData := PyrBank.FillData;
  CheckLock := PyrBank.CheckLock
|}.

Definition noon : nat → GoTime := λ _, {| unix := 1700000000; nsec := 0 |}.
Definition pick (_ : nat) (_ : Z) : Z := 0.
Definition order_bz (s : gset bytes) : list bytes := elements s.
Definition order_str (s : gset string) : list string := elements s.

(** An I shard with one validator, and a B shard with another. *)
Definition info1 (id : Z) (other : string) : PyrHeight.ShardInfo :=
  {| PeerList := {["i1" := [peer_of 11]; "b1" := [peer_of 13]; "i2" := [peer_of 17]]}; RelatedShards := {[other := true]};
     PeerRelatedMap := ∅; ShardIdentity := id; KeyRangeMap := ∅ |}.
Abbreviation Node := (ConsensusState (S := DB) (X := Application DB)).
Definition node_i0 : Node.
Proof.
  refine (out (NewConsensusState noon "i1" (info1 BLOCKTYPE_I "b1") ["b1"; "i1"; "i2"] (signer_of 11) 0 (NewMempool false)
    (NewMempool true) bank_i (∅ : DB) 1000 400 10) _). vm_compute. reflexivity.
Defined.
Definition the {A} (d : A) (m : outcome (option A)) : A := match m with Ret (Some a) => a | _ => d end.
Lemma the_eq {A} (d : A) m : is_Ret_Some m = true → m = Ret (Some (the d m)).
Proof. by destruct m as [[]|]. Qed.
Definition node_i1 : Node := the node_i0 (Start noon pick order_bz order_str 10 node_i0).
Lemma node_i1_eq : Start noon pick order_bz order_str 10 node_i0 = Ret (Some node_i1).
Proof. apply the_eq. vm_compute. reflexivity. Qed.
(** The report of the B shard, after which the node decides height 1. *)
Definition report (h : Z) : MessageOK := {| moHeight := h; SrcChain := "b1" |}.
Definition report1 : bytes * Z := (get [] (MO_ProtoBytes (report 1)), TagMessageOK).
Definition node_i2 : Node := the node_i0 (receive_all noon pick order_bz order_str 10 [report1] node_i1).
Lemma node_i2_eq : receive_all noon pick order_bz order_str 10 [report1] node_i1 = Ret (Some node_i2).
Proof. apply the_eq. vm_compute. reflexivity. Qed.

Lemma PyrConsensus_invariant_witness : csHeight node_i2 = 2 ∧ csStep node_i2 = RoundStepCommit ∧
  cs_inv ("i1", info1 BLOCKTYPE_I "b1", signer_of 11, 0) node_i2.
Proof.
  split; [vm_compute; reflexivity|]. split; [vm_compute; reflexivity|].
  exact (PyrConsensus_invariant noon pick order_bz order_str "i1" (info1 BLOCKTYPE_I "b1") ["b1"; "i1"; "i2"] (signer_of 11) 0
    (NewMempool false) (NewMempool true) bank_i ∅ 1000 400 10 10 [report1] node_i0 node_i1 node_i2
    (out_eq _ _) node_i1_eq node_i2_eq).
Defined.

Lemma node_i2_inv : cs_inv ("i1", info1 BLOCKTYPE_I "b1", signer_of 11, 0) node_i2.
Proof. eapply reachable_inv; [done|apply out_eq|exact node_i1_eq|exact node_i2_eq]. Qed.
(** The report for height 3 that arrives at height 2 ends height 2. *)
Lemma early_OK_counts_twice_witness : ∃ cs',
  doMessage order_str (handleStateTransition noon pick order_bz order_str 10) 10 node_i2 (MOK (report 3)) =
    handleStateTransition noon pick order_bz order_str 10 cs' ∧
  may_commit order_str cs' = true ∧ csHeight cs' = 2 ∧ relayMessageChannel cs' !! 3 = Some {[0 := [MOK (report 3)]]}.
Proof.
  destruct (early_OK_counts_twice order_str (handleStateTransition noon pick order_bz order_str 10) 10 _ node_i2 (report 3) ∅ node_i2_inv)
    as (cs' & E1 & _ & E2 & E3 & E4).
  - vm_compute. reflexivity.
  - vm_compute. reflexivity.
  - apply not_elem_of_empty.
  - vm_compute. reflexivity.
  - vm_compute. reflexivity.
  - exists cs'. split; [exact E1|]. split; [apply E3; vm_compute; reflexivity|]. split; [rewrite E4; vm_compute; reflexivity|exact E2].
Defined.

(** The B shard has a cross-shard transaction to propose; it follows the I
    shard by the blocks that shard sent. *)
Definition pool_b : Mempool :=
  match PyramidPool.AddTx (PyrBank.ValidateTx bank_b) (NewMempool true) (tx_of "a1" "b1" 7) with
  | Ret (mp, _) => mp
  | Panic => NewMempool true
  end.
Definition node_b0 : Node.
Proof.
  refine (out (NewConsensusState noon "b1" (info1 BLOCKTYPE_B "i1") ["b1"; "i1"; "i2"] (signer_of 13) 0 (NewMempool false)
    pool_b bank_b (∅ : DB) 1000 400 10) _). vm_compute. reflexivity.
Defined.
Definition node_b1 : Node := the node_b0 (Start noon pick order_bz order_str 10 node_b0).
Definition to_b : list (bytes * Z) :=
  map (λ e, (payload e, messageType e)) (filter (λ e, toShard e = "b1") (sent node_i2)).
Definition node_b2 : Node := the node_b0 (receive_all noon pick order_bz order_str 10 to_b node_b1).
(** The cross-shard block of height 1 is pending. *)
Example node_b2_pending : csHeight node_b2 = 3 ∧ maCount (bshard node_b2) = 1 ∧ maPool (bshard node_b2) = Some ∅ ∧
  pendingBlockSize (bshard node_b2) = 1 ∧ zlen (pendingCrossShardBlockHash (bshard node_b2)) = HashSize.
Proof. vm_compute. done. Qed.

(** An answer signed by a shard that is not related. *)
Definition foreign : MessageAccept :=
  let header := {| pshHeight := 1; pshRound := 0; pshTotal := 1; pshRoot := []; pshChainID := "i2" |} in
  let unsigned := {| paVoteType := VoteTypePrecommitAggregated; paCode := CodeTypeOK; ValidatorBitVector := None;
    paHeader := header; paBlockHeaderHash := [9]; paSignatures := EmptyString |} in
  {| maBlockHash := pendingCrossShardBlockHash (bshard node_b2);
     maSignatures := {| paVoteType := paVoteType unsigned; paCode := paCode unsigned;
       ValidatorBitVector := Some {| Elems := [1]; Bits := 1 |}; paHeader := header; paBlockHeaderHash := [9];
       paSignatures := Signer_Sign (signer_of 17) (get [] (Precommit_SignBytes (PA_Precommit unsigned))) |} |}.
Lemma foreign_accept_stops_shard_witness : ∃ cs',
  doMessage order_str (handleStateTransition noon pick order_bz order_str 10) 10 node_b2 (MAccept foreign) =
    handleStateTransition noon pick order_bz order_str 10 cs' ∧ maCount (bshard cs') = 0.
Proof.
  destruct (foreign_accept_stops_shard order_str (handleStateTransition noon pick order_bz order_str 10) 10 node_b2 foreign ∅)
    as [(cs' & E1 & E2 & _) _].
  - vm_compute. reflexivity.
  - vm_compute. reflexivity.
  - vm_compute. reflexivity.
  - reflexivity.
  - vm_compute. reflexivity.
  - reflexivity.
  - vm_compute. reflexivity.
  - exists cs'. split; [exact E1|]. rewrite E2. vm_compute. reflexivity.
Defined.

(** A node of the four that has seen three prevotes. *)
Definition node_v0 : Node.
Proof.
  refine (out (NewConsensusState noon "i1" (info BLOCKTYPE_I "b1") ["b1"; "i1"] (signer_of 3) 0 (NewMempool false)
    (NewMempool true) bank_i (∅ : DB) 1000 400 10) _). vm_compute. reflexivity.
Defined.
Definition node_v3 : Node :=
  set_pos (set_hd node_v0 h3) {| Height_ := 1; Round_ := 0; Step_ := RoundStepPrevote |}.
Definition node_v4 : Node := get node_v3 (doPrevote node_v3).
Lemma precommit_follows_prevotes_witness : ∃ vote bz, Precommit_ProtoBytes vote = Ret bz ∧
  sent node_v4 = [{| toShard := "i1"; payload := bz; messageType := TendermintPrecommit |}] ∧
  pcHeight vote = 1 ∧ pcBlockHeaderHash vote = BlockHeaderHash set1 ∧ Precommit_IsOK vote = true.
Proof.
  destruct (precommit_follows_prevotes node_v3 node_v4) as (vote & bz & E1 & E2 & _ & E3 & _ & _ & _ & E4).
  - exact (hi_votes _ h3_inv).
  - vm_compute. reflexivity.
  - reflexivity.
  - apply get_Ret. vm_compute. reflexivity.
  - exists vote, bz. split; [exact E1|]. destruct (E4 (BlockHeaderHash set1) true) as [E5 E6]; [vm_compute; reflexivity|].
    split; [|split; [exact E3|split; symmetry; [exact E5|exact E6]]].
    rewrite E2. assert (myChain node_v4 = "i1") as -> by (vm_compute; reflexivity). reflexivity.
Defined.
