(* ===== verification/PyrShardDemo.v ===== *)
(** * A Pyramid shard of four validators

    Four nodes run the model of consensus on the bank and exchange their
    messages: they agree on the first block.  The runs are the concrete inputs
    of the theorems of [PyrAgreement]. *)

From stdpp Require Import base list gmap strings numbers.
From Stdlib Require Import ZArith Lia.
From S2P Require Import Prelude Convert BitVector Hash Merkle MerkleProofs MerkleGen Wire Signer RangeTree Store Batch ShardInfo PyrTypes PyrParts PyrVotes PyrVoteProofs PyrHeight PyrHeightProofs PyrBank UrdDemo CList Mempool PyrConsensus PyrConsensusProofs PyrAgreement PyrDemo.
Open Scope string_scope.
Open Scope Z_scope.

#[local] Existing Instance pyr_wire.
#[local] Existing Instance pyr_part_wire.
#[local] Existing Instance pyr_vote_wire.
#[local] Existing Instance pyr_bank_wire.
#[local] Existing Instance cheap_hash.
#[local] Existing Instance LinearBLS.linear_BLS.
#[local] Existing Instance map_store.

Abbreviation shard := (info BLOCKTYPE_I "b1").
Definition sk_of (j : nat) : Z := nth j sks 0.

Definition fresh (j : nat) : outcome Node :=
  NewConsensusState noon "i1" shard ["b1"; "i1"] (signer_of (sk_of j)) (Z.of_nat j) (NewMempool false)
    (NewMempool true) bank_i (∅ : DB) 1000 400 10.
Definition started (j : nat) : run Node :=
  match fresh j with Ret cs => Start noon pick order_bz order_str 20 cs | Panic => Panic end.
Definition after (j : nat) (msgs : list (bytes * Z)) : run Node :=
  match started j with
  | Ret (Some cs) => receive_all noon pick order_bz order_str 20 msgs cs
  | r => r
  end.
Definition outbox (t : Z → bool) (r : run Node) : list (bytes * Z) :=
  match r with
  | Ret (Some cs) => map (λ e, (payload e, messageType e)) (filter (λ e, t (messageType e) = true) (sent cs))
  | _ => []
  end.

Lemma after_run j msgs cs : after j msgs = Ret (Some cs) → node_run "i1" shard (signer_of (sk_of j)) (Z.of_nat j) cs.
Proof.
  unfold after, started. destruct (fresh j) as [cs0|] eqn:E0; [|done].
  destruct (Start noon pick order_bz order_str 20 cs0) as [[cs1|]|] eqn:E1; [|done..]. intros E2.
  exists noon, pick, order_bz, order_str, ["b1"; "i1"], (NewMempool false), (NewMempool true), bank_i, (∅ : DB), 1000, 400, 10, 20%nat, msgs, cs0, cs1.
  by split_and!.
Qed.

(** Validator 1 proposes; the others prevote its block; all precommit it. *)
Definition proposal_msgs : list (bytes * Z) := Eval vm_compute in outbox (λ _, true) (started 1).
Definition prevote_msgs : list (bytes * Z) := Eval vm_compute in
  concat (map (λ j, outbox (Z.eqb TendermintPrevote) (after j proposal_msgs)) [0%nat; 2%nat; 3%nat]).
Definition precommit_msgs : list (bytes * Z) := Eval vm_compute in
  concat (map (λ j, outbox (Z.eqb TendermintPrecommit) (after j (proposal_msgs ++ prevote_msgs))) [0%nat; 1%nat; 2%nat; 3%nat]).
Definition final (j : nat) : run Node := after j (proposal_msgs ++ prevote_msgs ++ precommit_msgs).
Example shard_decides : forallb (λ j, match final j with
  | Ret (Some cs) => (csHeight cs =? 1) && (csStep cs =? RoundStepCommit) && HasMaj23 (precommits cs)
  | _ => false
  end) [0%nat; 1%nat; 2%nat; 3%nat] = true.
Proof. vm_compute. reflexivity. Qed.
Definition node (j : nat) : Node := the node_v0 (final j).
Lemma node_eq j : (j < 4)%nat → final j = Ret (Some (node j)).
Proof. intros Hj. apply the_eq. do 4 (destruct j as [|j]; [vm_compute; reflexivity|]). lia. Qed.
Lemma node_is_run j : (j < 4)%nat → node_run "i1" shard (signer_of (sk_of j)) (Z.of_nat j) (node j).
Proof. intros Hj. apply (after_run j _ _ (node_eq j Hj)). Qed.

Lemma node_votes_once_witness : ∃ e, filter (λ e, messageType e = TendermintPrecommit) (sent (node 2)) = [e] ∧
  precommit_sent "i1" (signer_of 7) 2 1 e.
Proof.
  destruct (node_votes_once "i1" shard (signer_of (sk_of 2)) (Z.of_nat 2) (node 2)) as [_ L].
  - apply node_is_run. lia.
  - vm_compute. reflexivity.
  - assert (seqZ 1 (if RoundStepPrevote <? csStep (node 2) then csHeight (node 2) else csHeight (node 2) - 1) = [1]) as E
      by (vm_compute; reflexivity).
    rewrite E in L. apply Forall2_cons_inv_l in L as (e & l & He & Hl & El). apply Forall2_nil_inv_l in Hl. subst l.
    exists e. split; [exact El|exact He].
Defined.

(** A node's precommits, looked up in what another node sent. *)
Definition sent_b (cs : Node) (p : Precommit) : bool :=
  existsb (λ e, bool_decide (toShard e = "i1") && (messageType e =? TendermintPrecommit) &&
    match NewPrecommitFromBytes (payload e) with
    | Some q => (pcHeight q =? pcHeight p) && bool_decide (pcBlockHeaderHash q = pcBlockHeaderHash p) &&
        eqb (Precommit_IsOK q) (Precommit_IsOK p)
    | None => false
    end) (sent cs).
Lemma sent_b_spec cs p : sent_b cs p = true → has_sent cs "i1" p.
Proof.
  unfold sent_b. rewrite existsb_exists. intros ([s bz t] & Hin & Hb). cbn in Hb.
  destruct (NewPrecommitFromBytes bz) as [q|] eqn:Eq; [|by rewrite andb_false_r in Hb].
  apply andb_true_iff in Hb as [Hb1 Hb2]. apply andb_true_iff in Hb1 as [Hs Ht]. apply andb_true_iff in Hb2 as [Hb2 Hc].
  apply andb_true_iff in Hb2 as [Hh Hk]. apply bool_decide_eq_true in Hs, Hk. apply Z.eqb_eq in Ht, Hh. apply eqb_prop in Hc. subst.
  exists bz, q. split_and!; try done. by apply list_elem_of_In.
Qed.
Definition all_sent (cs : Node) : bool :=
  forallb (λ j, match votes (precommits cs) !! j with Some (Some p) => sent_b (node j) p | _ => true end) [0%nat; 1%nat; 2%nat; 3%nat].
Lemma all_sent_spec cs j p : all_sent cs = true → (j < 4)%nat → votes (precommits cs) !! j = Some (Some p) → has_sent (node j) "i1" p.
Proof.
  unfold all_sent. rewrite forallb_forall. intros Hf Hj Hp. specialize (Hf j). rewrite Hp in Hf. apply sent_b_spec, Hf.
  do 4 (destruct j as [|j]; [cbn; tauto|]). lia.
Qed.
Lemma all_sent0 : all_sent (node 0) = true.
Proof. vm_compute. reflexivity. Qed.
Lemma all_sent3 : all_sent (node 3) = true.
Proof. vm_compute. reflexivity. Qed.
Lemma shard_agreement_witness : HasMaj23 (precommits (node 0)) = true ∧
  GetMaj23 (precommits (node 0)) = GetMaj23 (precommits (node 3)).
Proof.
  split; [vm_compute; reflexivity|].
  apply (shard_agreement "i1" shard (signer_of (sk_of 0)) 0 (node 0) (signer_of (sk_of 3)) 3 (node 3)
    (λ j, Nat.ltb j 4) node (λ j, signer_of (sk_of j))).
  - apply (node_is_run 0). lia.
  - apply (node_is_run 3). lia.
  - exact (info_weights _ _).
  - vm_compute. reflexivity.
  - vm_compute. reflexivity.
  - vm_compute. reflexivity.
  - vm_compute. discriminate.
  - intros j Hj%Nat.ltb_lt. split; [by apply node_is_run|]. do 4 (destruct j as [|j]; [vm_compute; reflexivity|]). lia.
  - intros j p Hj%Nat.ltb_lt [Hp|Hp].
    + exact (all_sent_spec _ j p all_sent0 Hj Hp).
    + exact (all_sent_spec _ j p all_sent3 Hj Hp).
Defined.

(** ** Faulty validators *)

Definition signed_precommit (hash : bytes) (j : nat) : bytes * Z :=
  let v := NewPrecommit 1 0 hash (Z.of_nat j) in
  (get [] (Precommit_ProtoBytes {| pcVoteType := pcVoteType v; PyrVotes.pcCode := PyrVotes.pcCode v; pcHeight := pcHeight v;
     pcRound := pcRound v; pcBlockHeaderHash := pcBlockHeaderHash v;
     pcSignature := Signer_Sign (signer_of (sk_of j)) (get [] (Precommit_SignBytes v));
     pcValidatorIndex := pcValidatorIndex v |}), TendermintPrecommit).
Definition signed_prevote (hash : bytes) (j : nat) : bytes * Z :=
  let v := NewPrevote 1 0 hash (Z.of_nat j) in
  (get [] (Prevote_ProtoBytes {| pvVoteType := pvVoteType v; pvCode := pvCode v; pvHeight := pvHeight v;
     pvRound := pvRound v; pvBlockHeaderHash := pvBlockHeaderHash v;
     pvSignature := Signer_Sign (signer_of (sk_of j)) (get [] (Prevote_SignBytes v));
     pvValidatorIndex := pvValidatorIndex v |}), TendermintPrevote).
Definition hash_a : bytes := Eval vm_compute in replicate 32 7.
Definition hash_b : bytes := Eval vm_compute in replicate 32 9.

(** Validators 1 and 2 precommit one block to node 0 and another to node 3. *)
Definition split0 : Node := the node_v0 (after 0 (map (signed_precommit hash_a) [0%nat; 1%nat; 2%nat])).
Definition split3 : Node := the node_v0 (after 3 (map (signed_precommit hash_b) [1%nat; 2%nat; 3%nat])).
Lemma split0_run : node_run "i1" shard (signer_of (sk_of 0)) (Z.of_nat 0) split0.
Proof. apply (after_run 0 (map (signed_precommit hash_a) [0%nat; 1%nat; 2%nat])), the_eq. vm_compute. reflexivity. Qed.
Lemma split3_run : node_run "i1" shard (signer_of (sk_of 3)) (Z.of_nat 3) split3.
Proof. apply (after_run 3 (map (signed_precommit hash_b) [1%nat; 2%nat; 3%nat])), the_eq. vm_compute. reflexivity. Qed.
Lemma conflict_attributable_witness :
  weight conflicting (both (votes (precommits split0)) (votes (precommits split3))) (shard_weights "i1" shard) = 2 ∧
  ∃ v, shard_verifier "i1" shard = Some v ∧ zsum (shard_weights "i1" shard) <
    3 * weight conflicting (both (votes (precommits split0)) (votes (precommits split3))) (shard_weights "i1" shard).
Proof.
  split; [vm_compute; reflexivity|].
  destruct (conflict_attributable "i1" shard (signer_of (sk_of 0)) (Z.of_nat 0) split0 (signer_of (sk_of 3)) (Z.of_nat 3) split3
    split0_run split3_run (info_weights _ _)) as (v & Hv & Ho & _).
  - vm_compute. reflexivity.
  - vm_compute. reflexivity.
  - vm_compute. reflexivity.
  - vm_compute. discriminate.
  - exists v. split; [exact Hv|exact Ho].
Defined.

(** A node that holds the proposed block executes and stores it although the
    majority precommitted another one: the hash of the majority is not
    compared with the block. *)
Example executes_undecided_block : ∃ cs, node_run "i1" shard (signer_of (sk_of 0)) 0 cs ∧
  csStep cs = RoundStepCommit ∧ GetMaj23 (precommits cs) = (hash_b, true) ∧
  zlen (LastBlockHash (lastBlock cs)) = HashSize ∧ LastBlockHash (lastBlock cs) ≠ hash_b.
Proof.
  set (msgs := (proposal_msgs ++ map (signed_prevote hash_b) [1%nat; 2%nat; 3%nat] ++ map (signed_precommit hash_b) [1%nat; 2%nat; 3%nat])%list).
  exists (the node_v0 (after 0 msgs)). split.
  - apply (after_run 0 msgs), the_eq. vm_compute. reflexivity.
  - split_and!; [vm_compute; reflexivity..|vm_compute; discriminate].
Qed.
