(* ===== verification/Consensus.v ===== *)
(** * The URD consensus state machine

    Models [source/urd/consensus/state.go], [state_transition.go] and
    [reactor.go]: a leader collects votes for its block, exchanges cross-shard
    messages with the other leaders and proposes the next block; a validator
    validates proposed blocks and votes.

    The application, the database and the clock are parameters.  Messages sent
    are appended to [sent] (a network error is only printed), in the order of
    the shard list where the code starts one goroutine per shard: the
    goroutines share nothing but the own shard's entry, which one of them
    writes.  Blocks in the pool are shared pointers, so the hash caches that
    [Hash] and the proofs fill are written back to the pool.  Logging,
    bandwidth counters and sleeping are left out; [Stop] ends in a panic.  The
    recursion of [handle_state_transition] runs on fuel: [None] means that the
    fuel ran out. *)

From stdpp Require Import base list gmap strings numbers.
From Stdlib Require Import ZArith Lia.
From S2P Require Import Prelude Convert BitVector Hash Merkle Wire Signer HotStuff Store Receipt UrdTypes CrossShard ShardInfo BlockPart BlockData CList Mempool.

(** What consensus uses of the application: executing a block's transactions,
    cross-shard transactions and committed outputs gives the new outputs per
    shard. *)
Class ABCIConn (X : Type) :=
  Execution : X → list bytes → list bytes → list (list bytes) → outcome (X * list (list bytes)).

(** The channel messages. *)
Inductive MessageType := MPart | MProposal | MCrossShardMessage | MVote.
Inductive Envelope :=
| ToShard (shard : string) (bz : bytes) (t : MessageType)
| ToPeer (shard : string) (index : Z) (bz : bytes) (t : MessageType).

Inductive Step := STEP_NONE | STEP_VALIDATOR | STEP_LEADER_VOTE | STEP_LEADER_WAIT.

Inductive verify_error := ErrHashJ2 | ErrHashJ1 | ErrIntentionSize | ErrCertificateSize.
Inductive cs_error :=
| ErrBlockData (e : bd_error) | ErrVote (e : vote_error) | ErrMaj (e : maj_error) | ErrStore (e : db_error)
| ErrCSMDecode | ErrDuplicatedCSM | ErrNoShard | ErrChain | ErrProposalSign
| ErrUnmarshal | ErrBasicPart (e : part_error) | ErrBasicCSM (e : csm_error)
| ErrBasicProposal (e : proposal_error) | ErrBasicVote (e : vote_error) | ErrUnknownMessage.

#[export] Instance Step_eq_dec : EqDecision Step.
Proof. solve_decision. Defined.

Definition max_part_size : Z := 40960.

(** A list of transactions built by appending: nil when nothing was appended. *)
Definition appended (l : list bytes) : Txs := match l with [] => None | _ => Some l end.

Section Consensus.
Context {H : HashFn} {B : BLS} {W : UrdWire} {PW : PartWire}.
Context {S : Type} {KV : KVStore S} {X : Type} {App : ABCIConn X}.
(** The clock, and the order in which the runtime iterates over a map. *)
Context (now : nat → GoTime) (range : gmap string bytes → list string).

Record State := {
  EnablePipelineFlag : bool;
  HotStuffState : HotStuff.State;
  mempool : Mempool;
  cross_shard_mempool : Mempool;
  abci : X;
  store : S;
  step : Step;
  signer : Signer;
  signerIndex : Z;
  proposerIndex : Z;
  sverifier : Verifier;
  block_data : BlockData;
  shard_info : ShardInfo;
  chain_id : string;
  block_pool : list Block;
  max_bytes : Z;
  max_cross_shard_bytes : Z;
  sent : list Envelope;
  ticks : nat
}.

(** The error is an unreadable public key. *)
Definition NewState (view round : Z) (sg : Signer) (signer_index : Z) (info : ShardInfo) (chain : string)
    (mp cmp : Mempool) (app : X) (db : S) (maxb maxc : Z) : outcome (option State) :=
  shard ← deref (Shards info !! chain);
  match NewVerifier (map Pubkey (PeerList shard)) with
  | None => Ret None
  | Some validators =>
      Ret (Some {| EnablePipelineFlag := false;
        HotStuffState := HotStuff.NewState view round signer_index validators (map PVotes (PeerList shard));
        mempool := mp; cross_shard_mempool := cmp; abci := app; store := db; step := STEP_NONE; signer := sg;
        signerIndex := signer_index; proposerIndex := LeaderIndex shard; sverifier := validators;
        block_data := NewBlockData view round (list_to_map (map (λ id, (id, [])) (ShardIDList info))) ∅;
        shard_info := info; chain_id := chain; block_pool := []; max_bytes := maxb;
        max_cross_shard_bytes := maxc; sent := []; ticks := O |})
  end.

(** ** Field updates *)

Definition set_hotstuff (st : State) (h : HotStuff.State) : State :=
  {| EnablePipelineFlag := EnablePipelineFlag st; HotStuffState := h; mempool := mempool st;
     cross_shard_mempool := cross_shard_mempool st; abci := abci st; store := store st; step := step st;
     signer := signer st; signerIndex := signerIndex st; proposerIndex := proposerIndex st;
     sverifier := sverifier st; block_data := block_data st; shard_info := shard_info st;
     chain_id := chain_id st; block_pool := block_pool st; max_bytes := max_bytes st;
     max_cross_shard_bytes := max_cross_shard_bytes st; sent := sent st; ticks := ticks st |}.
Definition set_mempools (st : State) (mp cmp : Mempool) : State :=
  {| EnablePipelineFlag := EnablePipelineFlag st; HotStuffState := HotStuffState st; mempool := mp;
     cross_shard_mempool := cmp; abci := abci st; store := store st; step := step st;
     signer := signer st; signerIndex := signerIndex st; proposerIndex := proposerIndex st;
     sverifier := sverifier st; block_data := block_data st; shard_info := shard_info st;
     chain_id := chain_id st; block_pool := block_pool st; max_bytes := max_bytes st;
     max_cross_shard_bytes := max_cross_shard_bytes st; sent := sent st; ticks := ticks st |}.
Definition set_abci (st : State) (app : X) : State :=
  {| EnablePipelineFlag := EnablePipelineFlag st; HotStuffState := HotStuffState st; mempool := mempool st;
     cross_shard_mempool := cross_shard_mempool st; abci := app; store := store st; step := step st;
     signer := signer st; signerIndex := signerIndex st; proposerIndex := proposerIndex st;
     sverifier := sverifier st; block_data := block_data st; shard_info := shard_info st;
     chain_id := chain_id st; block_pool := block_pool st; max_bytes := max_bytes st;
     max_cross_shard_bytes := max_cross_shard_bytes st; sent := sent st; ticks := ticks st |}.
Definition set_store (st : State) (db : S) : State :=
  {| EnablePipelineFlag := EnablePipelineFlag st; HotStuffState := HotStuffState st; mempool := mempool st;
     cross_shard_mempool := cross_shard_mempool st; abci := abci st; store := db; step := step st;
     signer := signer st; signerIndex := signerIndex st; proposerIndex := proposerIndex st;
     sverifier := sverifier st; block_data := block_data st; shard_info := shard_info st;
     chain_id := chain_id st; block_pool := block_pool st; max_bytes := max_bytes st;
     max_cross_shard_bytes := max_cross_shard_bytes st; sent := sent st; ticks := ticks st |}.
Definition set_step (st : State) (s : Step) : State :=
  {| EnablePipelineFlag := EnablePipelineFlag st; HotStuffState := HotStuffState st; mempool := mempool st;
     cross_shard_mempool := cross_shard_mempool st; abci := abci st; store := store st; step := s;
     signer := signer st; signerIndex := signerIndex st; proposerIndex := proposerIndex st;
     sverifier := sverifier st; block_data := block_data st; shard_info := shard_info st;
     chain_id := chain_id st; block_pool := block_pool st; max_bytes := max_bytes st;
     max_cross_shard_bytes := max_cross_shard_bytes st; sent := sent st; ticks := ticks st |}.
Definition set_data (st : State) (bd : BlockData) : State :=
  {| EnablePipelineFlag := EnablePipelineFlag st; HotStuffState := HotStuffState st; mempool := mempool st;
     cross_shard_mempool := cross_shard_mempool st; abci := abci st; store := store st; step := step st;
     signer := signer st; signerIndex := signerIndex st; proposerIndex := proposerIndex st;
     sverifier := sverifier st; block_data := bd; shard_info := shard_info st;
     chain_id := chain_id st; block_pool := block_pool st; max_bytes := max_bytes st;
     max_cross_shard_bytes := max_cross_shard_bytes st; sent := sent st; ticks := ticks st |}.
Definition set_pool (st : State) (pool : list Block) : State :=
  {| EnablePipelineFlag := EnablePipelineFlag st; HotStuffState := HotStuffState st; mempool := mempool st;
     cross_shard_mempool := cross_shard_mempool st; abci := abci st; store := store st; step := step st;
     signer := signer st; signerIndex := signerIndex st; proposerIndex := proposerIndex st;
     sverifier := sverifier st; block_data := block_data st; shard_info := shard_info st;
     chain_id := chain_id st; block_pool := pool; max_bytes := max_bytes st;
     max_cross_shard_bytes := max_cross_shard_bytes st; sent := sent st; ticks := ticks st |}.
Definition send (st : State) (ms : list Envelope) : State :=
  {| EnablePipelineFlag := EnablePipelineFlag st; HotStuffState := HotStuffState st; mempool := mempool st;
     cross_shard_mempool := cross_shard_mempool st; abci := abci st; store := store st; step := step st;
     signer := signer st; signerIndex := signerIndex st; proposerIndex := proposerIndex st;
     sverifier := sverifier st; block_data := block_data st; shard_info := shard_info st;
     chain_id := chain_id st; block_pool := block_pool st; max_bytes := max_bytes st;
     max_cross_shard_bytes := max_cross_shard_bytes st; sent := sent st ++ ms; ticks := ticks st |}.
Definition tick (st : State) : State :=
  {| EnablePipelineFlag := EnablePipelineFlag st; HotStuffState := HotStuffState st; mempool := mempool st;
     cross_shard_mempool := cross_shard_mempool st; abci := abci st; store := store st; step := step st;
     signer := signer st; signerIndex := signerIndex st; proposerIndex := proposerIndex st;
     sverifier := sverifier st; block_data := block_data st; shard_info := shard_info st;
     chain_id := chain_id st; block_pool := block_pool st; max_bytes := max_bytes st;
     max_cross_shard_bytes := max_cross_shard_bytes st; sent := sent st; ticks := Datatypes.S (ticks st) |}.

Definition SendToShard (st : State) (shard : string) (bz : bytes) (t : MessageType) : State :=
  send st [ToShard shard bz t].
Definition SendTo (st : State) (shard : string) (index : Z) (bz : bytes) (t : MessageType) : State :=
  send st [ToPeer shard index bz t].

(** ** The block pool *)

Definition view_of (st : State) : Z := sView (HotStuffState st).
Definition round_of (st : State) : Z := sRound (HotStuffState st).

Definition block_pool_size (st : State) : Z := zlen (block_pool st).
Definition fetch_block (st : State) (pre_index : Z) : outcome (option Block) :=
  if block_pool_size st <? pre_index then Ret None
  else b ← idx (block_pool st) (block_pool_size st - pre_index); Ret (Some b).
(** Writing the caches of a fetched block back. *)
Definition update_block (st : State) (pre_index : Z) (b : Block) : outcome State :=
  pool ← upd (block_pool st) (block_pool_size st - pre_index) b; Ret (set_pool st pool).
(** [state.fetch_block(i).Hash()]: the hash of a nil block is nil. *)
Definition fetch_hash (st : State) (pre_index : Z) : outcome (State * bytes) :=
  b ← fetch_block st pre_index;
  match b with
  | None => Ret (st, [])
  | Some b => '(b, h) ← Block_Hash b; st ← update_block st pre_index b; Ret (st, h)
  end.
Definition append_block (st : State) (block : Block) : State :=
  if block_pool_size st =? 7 then set_pool st (drop 1 (block_pool st) ++ [block])
  else set_pool st (block_pool st ++ [block]).

(** ** Steps *)

Definition isProposer (st : State) : bool := proposerIndex st =? signerIndex st.
Definition next_step (st : State) : outcome Step :=
  if negb (isProposer st) then Ret STEP_VALIDATOR
  else q ← IsQuorum (HotStuffState st); Ret (if q : bool then STEP_LEADER_WAIT else STEP_LEADER_VOTE).

Definition enterNextView (st : State) : State :=
  let st := set_data st (BlockData.next (block_data st) (int64 (view_of st + 1)) 0) in
  set_hotstuff st (EnterNewView (HotStuffState st)).

(** The outputs of the executed block; none when there is no block to execute. *)
Definition commit_and_execution_j_2 (st : State) : outcome (State * list (list bytes)) :=
  b ← fetch_block st 2;
  match b with
  | None => Ret (st, [])
  | Some b =>
      '(app, opts) ← Execution (abci st) (txs_list (PTXS b)) (txs_list (CrossShardTxs b)) (map txs_list (CTXS b));
      Ret (set_abci st app, opts)
  end.

Definition generate_vote_for_block (block : Block) (last : bytes) (ok : bool) (index : Z) (sr : Signer)
    : outcome (Block * Vote) :=
  '(block, hash) ← Block_Hash block;
  let vote := NewVote (hdView (bHeader block)) (hdRound (bHeader block)) hash [] index in
  let vote := if ok then SetOK vote else SetReject vote in
  let vote := SetLastHashOfVote vote last in
  msg ← Vote_SignBytes vote;
  Ret (block, {| Code := Code vote; View := View vote; Round := Round vote; ForHash := ForHash vote;
    ForNecessaryData := ForNecessaryData vote; Sign := Signer_Sign sr msg; ValidatorIndex := ValidatorIndex vote |}).

Definition verify_block (st : State) (block : Block) : outcome (State * option verify_error) :=
  if hdView (bHeader block) <? 5 then Ret (st, None)
  else
    '(st, h2) ← fetch_hash st 2;
    aggSig ← deref (AggSigVote block);
    if negb (bytes_Equal h2 (GetLastHashOfAggVote aggSig)) then Ret (st, Some ErrHashJ2)
    else
      '(st, h1) ← fetch_hash st 1;
      if negb (bytes_Equal h1 (aForHash aggSig)) then Ret (st, Some ErrHashJ1)
      else
        ci ← deref (CI block);
        if negb (zlen (IntentionHash ci) =? zlen (ShardIDList (shard_info st))) then Ret (st, Some ErrIntentionSize)
        else if negb (zlen (CC block) =? zlen (ShardIDList (shard_info st))) then Ret (st, Some ErrCertificateSize)
        else Ret (st, None).

Definition doValidate (st : State) (block : Block) : outcome State :=
  '(st, blockErr) ← verify_block st block;
  '(st, last) ← fetch_hash st 1;
  '(block, vote) ← generate_vote_for_block block last (bool_decide (blockErr = None)) (signerIndex st) (signer st);
  st ← (if IsOK vote then
          '(st, _) ← commit_and_execution_j_2 st;
          Ret (append_block (enterNextView st) block)
        else Ret st);
  bz ← Vote_ProtoBytes vote;
  Ret (SendTo st (chain_id st) (proposerIndex st) bz MVote).

(** ** Proposing *)

(** The messages of the previous view for every shard of the list. *)
Definition previous_csms (st : State) : outcome (list CrossShardMessage) :=
  mapM_out (λ id, deref (j_1finished (block_data st) !! id)) (ShardIDList (shard_info st)).

Definition intention_entry (csm : CrossShardMessage) : outcome (AggregatedVote * bytes) :=
  v ← deref (csmAggVote csm); h ← CSM_GetLastHash csm; Ret (v, h).
Definition certificate_entry (csm : CrossShardMessage) : outcome CommitCertificateCore :=
  h ← CSM_GetLastHash csm;
  poi ← deref (csmPOI csm);
  Ret {| coreHash := h; MKProof := poi; coreBrief := csmBrief csm |}.

Definition set_outputs (bd : BlockData) (opts : list Txs) : BlockData :=
  {| retainView := retainView bd; retainRound := retainRound bd; blocks := blocks bd;
     retainBlockParts := retainBlockParts bd; lastHash := lastHash bd; finished := finished bd;
     j_1finished := j_1finished bd; j_2finished := j_2finished bd; j_cross_shard_txs := j_cross_shard_txs bd;
     j_1_cross_shard_txs := opts; j_2_cross_shard_txs := j_2_cross_shard_txs bd |}.

(** The transactions a block takes from the pools: every view with pipelining,
    every sixth without. *)
Definition reap (st : State) : outcome (Txs * Txs) :=
  if EnablePipelineFlag st || (Z.rem (view_of st) 6 =? 0) then
    '(txs, _) ← UrdPool.ReapTx (mempool st) (max_bytes st);
    '(ctxs, _) ← UrdPool.ReapTx (cross_shard_mempool st) (max_cross_shard_bytes st);
    Ret (Some txs, Some ctxs)
  else Ret (None, None).

Definition make_block (st : State) (opts : list (list bytes)) : outcome (State * Block) :=
  '(st, last) ← fetch_hash st 1;
  let time := now (ticks st) in
  let st := tick st in
  agg ← (if 1 <=? block_pool_size st
         then csm ← deref (j_1finished (block_data st) !! chain_id st); Ret (csmAggVote csm)
         else Ret None);
  '(ptxs, ctxs) ← reap st;
  opt ← mapM_out (λ txs, Txs_Hash (appended txs)) opts;
  let st := set_data st (set_outputs (block_data st) (map appended opts)) in
  ci ← (if 2 <=? block_pool_size st
        then csms ← previous_csms st; es ← mapM_out intention_entry csms;
             Ret (Some {| IntentionHash := map snd es; AggregatedSignatures := map fst es;
                          ci_leftHash := []; ci_rightHash := [] |})
        else Ret None);
  cc ← (if 4 <=? block_pool_size st then csms ← previous_csms st; mapM_out certificate_entry csms else Ret []);
  committed ← (if 4 <=? block_pool_size st then previous_csms st else Ret []);
  let block :=
    {| bHeader := {| HashPointer := last; ChainID := chain_id st; hdView := view_of st; hdRound := round_of st;
         hdTime := time; PrepareRoot := []; CrossShardRoot := []; OutputTxsRoot := []; LastAggSigRoot := [];
         CommitIntentionRoot := []; CommitCertificateRoot := []; CommitTxsListRoot := []; StateRoot := [];
         hd_hash := []; mkproof := [] |};
       PTXS := ptxs; CrossShardTxs := ctxs; OPT := opt; AggSigVote := agg; CI := ci; CC := cc;
       CTXS := map OPTXs committed; CTXSProof := map csmOTP committed |} in
  '(block, _) ← Block_Hash block;
  Ret (st, block).

(** The proposal and the parts go to the whole shard. *)
Definition part_message (st : State) (p : option Part) : outcome Envelope :=
  part ← deref p; bz ← Part_ProtoBytes part; Ret (ToShard (chain_id st) bz MPart).

Definition doPropose (st : State) : outcome (State * option cs_error) :=
  '(st, opts) ← commit_and_execution_j_2 st;
  let st := enterNextView st in
  '(st, new_block) ← make_block st opts;
  added ← addBlock (block_data st) new_block max_part_size (round_of st);
  match added with
  | None => Panic (* the part size is positive *)
  | Some (bd, new_block, partset, err) =>
      let st := set_data st bd in
      match err with
      | Some e => Ret (st, Some (ErrBlockData e))
      | None =>
          '(new_block, hash) ← Block_Hash new_block;
          let st := set_hotstuff st (SetHash (HotStuffState st) hash) in
          let proposal := NewProposal (psHeader partset) (signerIndex st) (BlockHeaderHash partset) in
          msg ← Proposal_SignBytes proposal;
          let proposal := {| prHeader := prHeader proposal; ProposerIndex := ProposerIndex proposal;
            prBlockHeaderHash := prBlockHeaderHash proposal; Signature := Signer_Sign (signer st) msg |} in
          proposalBz ← Proposal_ProtoBytes proposal;
          parts ← mapM_out (part_message st) (Parts partset);
          let st := SendToShard st (chain_id st) proposalBz MProposal in
          let st := send st parts in
          '(new_block, vote) ← generate_vote_for_block new_block (HashPointer (bHeader new_block)) true
             (signerIndex st) (signer st);
          '(hs, err) ← AddVote (HotStuffState st) vote;
          let st := set_hotstuff st hs in
          match err with
          | Some e => Ret (st, Some (ErrVote e))
          | None =>
              let st := append_block st new_block in
              mp ← UrdPool.Update (mempool st) (txs_list (PTXS new_block)) None;
              cmp ← UrdPool.Update (cross_shard_mempool st) (txs_list (CrossShardTxs new_block)) None;
              Ret (set_mempools st mp cmp, None)
          end
      end
  end.

(** ** Cross-shard messages *)

Definition extend_data (bd : BlockData) (msg : CrossShardMessage) (hash : bytes) : BlockData :=
  {| retainView := retainView bd; retainRound := retainRound bd; blocks := blocks bd;
     retainBlockParts := retainBlockParts bd; lastHash := <[SourceChain msg := hash]> (lastHash bd);
     finished := <[SourceChain msg := msg]> (finished bd);
     j_1finished := j_1finished bd; j_2finished := j_2finished bd; j_cross_shard_txs := j_cross_shard_txs bd;
     j_1_cross_shard_txs := j_1_cross_shard_txs bd; j_2_cross_shard_txs := j_2_cross_shard_txs bd |}.
Definition extendHash (st : State) (msg : CrossShardMessage) : outcome State :=
  v ← deref (csmAggVote msg);
  Ret (set_data st (extend_data (block_data st) msg (aForHash v))).

(** [fmt.Sprintf("%s:%s", chain, hash)]. *)
Definition csm_key (chain : string) (hash : bytes) : bytes := str_bytes chain ++ [58] ++ hash.

(** The loop of [redo_CrossShardMessage] over the shards [ids]; a hash is read
    when its key is reached. *)
Fixpoint redo_loop (ids : list string) (st : State) : outcome (State * option cs_error) :=
  match ids with
  | [] => Ret (st, None)
  | shard :: ids' =>
      if bool_decide (shard = chain_id st) then redo_loop ids' st
      else
        let hash := default [] (lastHash (block_data st) !! shard) in
        match PrefixStore.GetSpecial (store st) (csm_key shard hash) with
        | inr e => Ret (st, Some (ErrStore e))
        | inl bz =>
            if zlen (sbytes bz) =? 0 then redo_loop ids' st
            else
              csm ← NewCrossShardMessageFromBytes (sbytes bz);
              match csm with
              | None => Ret (st, Some ErrCSMDecode)
              | Some csm => st ← extendHash st csm; redo_loop ids' st
              end
        end
  end.
Definition redo_CrossShardMessage (st : State) : outcome (State * option cs_error) :=
  redo_loop (range (lastHash (block_data st))) st.

(** What all messages of a view share: with four blocks in the pool, the
    intention of the block before the last one. *)
Definition model_csm (st : State) (sig : AggregatedVote) : outcome (State * CrossShardMessage) :=
  if 4 <=? block_pool_size st then
    b ← fetch_block st 2;
    b ← deref b;
    ci ← deref (CI b);
    '(b, p) ← GetCommitIntentionProof b;
    ci' ← deref (CI b);
    '(ci', r) ← RrightHash ci';
    let b := {| bHeader := bHeader b; PTXS := PTXS b; CrossShardTxs := CrossShardTxs b; OPT := OPT b;
                AggSigVote := AggSigVote b; CI := Some ci'; CC := CC b; CTXS := CTXS b; CTXSProof := CTXSProof b |} in
    st ← update_block st 2 b;
    Ret (st, {| SourceChain := chain_id st; csmAggVote := Some sig; csmBrief := GetBrief ci;
                csmPOI := Some {| IntentionHashProof := p; RightHash := r |}; OPTXs := None; csmOTP := None |})
  else Ret (st, {| SourceChain := chain_id st; csmAggVote := Some sig; csmBrief := []; csmPOI := None;
                   OPTXs := None; csmOTP := None |}).

Definition broadcastFunc (model : CrossShardMessage) (st : State) (index : Z) : outcome State :=
  '(st, csm) ← (if 4 <=? block_pool_size st then
      txs ← idx (j_2_cross_shard_txs (block_data st)) index;
      b ← fetch_block st 2;
      b ← deref b;
      '(b, proof) ← GetOutputTxsProofOf b index;
      st ← update_block st 2 b;
      Ret (st, {| SourceChain := SourceChain model; csmAggVote := csmAggVote model; csmBrief := csmBrief model;
                  csmPOI := csmPOI model; OPTXs := txs; csmOTP := Some proof |})
    else Ret (st, model));
  id ← idx (ShardIDList (shard_info st)) index;
  if bool_decide (id = chain_id st) then extendHash st csm
  else
    bz ← CSM_ProtoBytes csm;
    shard ← deref (Shards (shard_info st) !! id);
    Ret (SendTo st id (LeaderIndex shard) bz MCrossShardMessage).

Definition CrossShardCommunicate (st : State) : outcome (State * option cs_error) :=
  '(st, err) ← redo_CrossShardMessage st;
  match err with
  | Some e => Ret (st, Some e)
  | None =>
      '(hs, r) ← GetMaj23 (HotStuffState st);
      let st := set_hotstuff st hs in
      match r with
      | inr e => Ret (st, Some (ErrMaj e))
      | inl sig =>
          '(st, model) ← model_csm st sig;
          st ← foldM (broadcastFunc model) (map Z.of_nat (seq 0 (length (ShardIDList (shard_info st))))) st;
          Ret (st, None)
      end
  end.

(** ** Transitions *)

(** One turn of [handle_state_transition]: [None] when it is over, with an
    error or without; otherwise the state in which it calls itself again. *)
Definition transition (st : State) : outcome (State * option (option cs_error)) :=
  '(st, res) ← (match step st with
    | STEP_VALIDATOR =>
        if isComplete (block_data st) (view_of st) (round_of st) then
          '(b, err) ← getBlock (block_data st) (view_of st) (round_of st);
          match err with
          | Some e => Ret (st, Some (Some (ErrBlockData e)))
          | None => b ← deref b; st ← doValidate st b; Ret (st, None)
          end
        else Ret (st, Some None)
    | STEP_LEADER_WAIT =>
        if isCrossShardMessageComplete (block_data st) then
          '(st, err) ← doPropose st;
          Ret (st, match err with Some e => Some (Some e) | None => None end)
        else Ret (st, Some None)
    | STEP_LEADER_VOTE =>
        q ← IsQuorum (HotStuffState st);
        if q : bool then
          '(st, err) ← CrossShardCommunicate st;
          Ret (st, match err with Some e => Some (Some e) | None => None end)
        else Ret (st, Some None)
    | STEP_NONE => Ret (st, None)
    end);
  match res with
  | Some r => Ret (st, Some r)
  | None =>
      s ← next_step st;
      let st := set_step st s in
      if isProposer st && ((EnablePipelineFlag st && (100 <? view_of st)) || (600 <? view_of st)) then Panic
      else Ret (st, None)
  end.

Fixpoint handle_state_transition (fuel : nat) (st : State) : outcome (option (State * option cs_error)) :=
  match fuel with
  | O => Ret None
  | Datatypes.S fuel' =>
      '(st, res) ← transition st;
      match res with
      | Some err => Ret (Some (st, err))
      | None => handle_state_transition fuel' st
      end
  end.

(** An error of [doPropose] is a panic at the start. *)
Definition Start (fuel : nat) (st : State) : outcome (option State) :=
  if view_of st =? 0 then
    if isProposer st then
      '(st, err) ← doPropose st;
      match err with Some _ => Panic | None => Ret (Some (set_step st STEP_LEADER_VOTE)) end
    else Ret (Some (set_step (enterNextView st) STEP_VALIDATOR))
  else r ← handle_state_transition fuel st; Ret (option_map fst r).

(** ** Messages *)

Inductive Message := GotPart (p : Part) | GotProposal (p : Proposal) | GotCSM (m : CrossShardMessage) | GotVote (v : Vote).

(** The state change of a message before [handle_state_transition] runs. *)
Definition accept_csm (st : State) (msg : CrossShardMessage) : outcome (State * option cs_error) :=
  last ← CSM_GetLastHash msg;
  let key := csm_key (SourceChain msg) last in
  match Shards (shard_info st) !! SourceChain msg with
  | None => Ret (st, Some ErrNoShard)
  | Some _ =>
      match PrefixStore.HasSpecial (store st) key with
      | inr e => Ret (st, Some (ErrStore e))
      | inl true => Ret (st, Some ErrDuplicatedCSM)
      | inl false =>
          bz ← CSM_ProtoBytes msg;
          match PrefixStore.SetSpecial (store st) key (Some bz) with
          | (db, Some e) => Ret (set_store st db, Some (ErrStore e))
          | (db, None) =>
              let st := set_store st db in
              match finished (block_data st) !! SourceChain msg with
              | Some _ => Ret (st, None)
              | None =>
                  if bytes_Equal (default [] (lastHash (block_data st) !! SourceChain msg)) last
                  then st ← extendHash st msg; Ret (st, None)
                  else Ret (st, None)
              end
          end
      end
  end.

Definition accept (st : State) (msg : Message) : outcome (State * option cs_error) :=
  match msg with
  | GotPart p =>
      if bool_decide (ptChainID p ≠ chain_id st) then Ret (st, Some ErrChain)
      else '(bd, err) ← addPart (block_data st) p; Ret (set_data st bd, option_map ErrBlockData err)
  | GotProposal p =>
      if bool_decide (pshChainID (prHeader p) ≠ chain_id st) then Ret (st, Some ErrChain)
      else
        bz ← Proposal_SignBytes p;
        ok ← Verify (sverifier st) (Signature p) bz (ProposerIndex p);
        if negb ok then Ret (st, Some ErrProposalSign)
        else '(bd, err) ← addPartSetHeader (block_data st) (prHeader p) (prBlockHeaderHash p);
             Ret (set_data st bd, option_map ErrBlockData err)
  | GotCSM m => accept_csm st m
  | GotVote v =>
      '(hs, err) ← AddVote (HotStuffState st) v;
      Ret (set_hotstuff st hs, option_map ErrVote err)
  end.

Definition doMessage (fuel : nat) (st : State) (msg : Message) : outcome (option (State * option cs_error)) :=
  '(st, err) ← accept st msg;
  match err with
  | Some e => Ret (Some (st, Some e))
  | None => handle_state_transition fuel st
  end.

(** Decoding and basic validation of a received message. *)
Definition decode (bz : bytes) (t : option MessageType) : outcome (Message + cs_error) :=
  match t with
  | Some MPart =>
      p ← NewPartFromBytes bz;
      Ret (match p with
           | None => inr ErrUnmarshal
           | Some p => match Part_ValidateBasic p with Some e => inr (ErrBasicPart e) | None => inl (GotPart p) end
           end)
  | Some MCrossShardMessage =>
      m ← NewCrossShardMessageFromBytes bz;
      match m with
      | None => Ret (inr ErrUnmarshal)
      | Some m =>
          err ← CSM_ValidateBasic m;
          Ret (match err with Some e => inr (ErrBasicCSM e) | None => inl (GotCSM m) end)
      end
  | Some MProposal =>
      p ← NewProposalFromBytes bz;
      Ret (match p with
           | None => inr ErrUnmarshal
           | Some p => match Proposal_ValidateBasic p with
                       | Some e => inr (ErrBasicProposal e) | None => inl (GotProposal p) end
           end)
  | Some MVote =>
      Ret (match NewVoteFromBytes bz with
           | None => inr ErrUnmarshal
           | Some v => match Vote_ValidateBasic v with Some e => inr (ErrBasicVote e) | None => inl (GotVote v) end
           end)
  | None => Ret (inr ErrUnknownMessage)
  end.

Definition Receive (fuel : nat) (st : State) (bz : bytes) (t : option MessageType)
    : outcome (option (State * option cs_error)) :=
  m ← decode bz t;
  match m with
  | inr e => Ret (Some (st, Some e))
  | inl msg => doMessage fuel st msg
  end.

End Consensus.
