(* ===== verification/ConsensusProofs.v ===== *)
(** * Consensus: invariants, votes and termination

    The invariant of the state machine of [Consensus] over every message and
    every turn of [handle_state_transition], what a validator's vote says, when
    the handler returns and when it does not. *)

From stdpp Require Import base list gmap strings numbers.
From Stdlib Require Import ZArith Lia.
From S2P Require Import Prelude Convert BitVector Hash Merkle MerkleProofs MerkleGen Wire Signer HotStuff HotStuffProofs Store Receipt UrdTypes BlockProofs CrossShard ShardInfo BlockWire BlockPart BlockData CList Mempool Consensus.

Section ConsensusProofs.
Context {H : HashFn} {B : BLS} {W : UrdWire} {PW : PartWire}.
Context {S : Type} {KV : KVStore S} {X : Type} {App : ABCIConn X}.
Context (now : nat → GoTime) (range : gmap string bytes → list string).
Abbreviation St := (State (S := S) (X := X)).

(** ** The block pool *)

Definition cached (b : Block) : Prop := hd_hash (bHeader b) ≠ [].
Definition hash_at (st : St) (k : Z) : bytes :=
  match fetch_block st k with Ret (Some b) => hd_hash (bHeader b) | _ => [] end.

Lemma fetch_block_total (st : St) k : 1 ≤ k → ∃ ob, fetch_block st k = Ret ob ∧
  ∀ b, ob = Some b → k ≤ block_pool_size st ∧ block_pool st !! Z.to_nat (block_pool_size st - k) = Some b.
Proof.
  intros Hk. unfold fetch_block. destruct (Z.ltb_spec (block_pool_size st) k); [by exists None|].
  destruct (idx_in_range (block_pool st) (block_pool_size st - k)) as (b & -> & Hb); [unfold block_pool_size in *; lia|].
  exists (Some b). split; [done|]. by intros ? [= <-].
Qed.

Lemma set_pool_id (st : St) : set_pool st (block_pool st) = st.
Proof. by destruct st. Qed.

Lemma Block_Hash_cached b : cached b → Block_Hash b = Ret (b, hd_hash (bHeader b)).
Proof.
  intros Hc. unfold Block_Hash. destruct (Z.eqb_spec (zlen (hd_hash (bHeader b))) 0) as [E|]; [|done].
  by apply zlen_nil_inv in E.
Qed.

Lemma Block_Hash_caches b b' h : Block_Hash b = Ret (b', h) → cached b' ∧ hd_hash (bHeader b') = h.
Proof.
  intros E. split; [|by destruct (Block_Hash_keeps b b' h E) as (_ & _ & ?)].
  destruct (decide (cached b)) as [Hc|Hc].
  - rewrite (Block_Hash_cached b Hc) in E. by injection E as <- _.
  - apply dec_stable in Hc. destruct (Block_Hash_inv b b' h Hc E) as (f & ls & ps & _ & _ & _ & Er & ->).
    exact (HashFromByteSlices_ne _ _ Er).
Qed.

Lemma fetch_hash_cached (st : St) k : 1 ≤ k → Forall cached (block_pool st) → fetch_hash st k = Ret (st, hash_at st k).
Proof.
  intros Hk Hp. unfold fetch_hash, hash_at. destruct (fetch_block_total st k Hk) as ([b|] & -> & Hb); [|done].
  destruct (Hb b eq_refl) as [Hle Hl]. cbn [mbind outcome_bind].
  rewrite Block_Hash_cached by (by eapply Forall_lookup_1 in Hl). cbn [mbind outcome_bind]. unfold update_block.
  rewrite upd_in_range by (unfold block_pool_size in *; lia). cbn [mbind outcome_bind].
  by rewrite list_insert_id, set_pool_id.
Qed.

(** ** What a validator checks *)

Definition block_ok (st : St) (b : Block) : option verify_error :=
  if hdView (bHeader b) <? 5 then None
  else
    match AggSigVote b with
    | None => None
    | Some agg =>
        if negb (bytes_Equal (hash_at st 2) (GetLastHashOfAggVote agg)) then Some ErrHashJ2
        else if negb (bytes_Equal (hash_at st 1) (aForHash agg)) then Some ErrHashJ1
        else
          match CI b with
          | None => None
          | Some ci =>
              if negb (zlen (IntentionHash ci) =? zlen (ShardIDList (shard_info st))) then Some ErrIntentionSize
              else if negb (zlen (CC b) =? zlen (ShardIDList (shard_info st))) then Some ErrCertificateSize
              else None
          end
    end.

Lemma verify_block_spec (st : St) b : Forall cached (block_pool st) →
  verify_block st b = Ret (st, block_ok st b) ∨
  (verify_block st b = Panic ∧ block_ok st b = None ∧ (AggSigVote b = None ∨ CI b = None)).
Proof.
  intros Hp. unfold verify_block, block_ok. destruct (Z.ltb_spec (hdView (bHeader b)) 5); [by left|].
  rewrite fetch_hash_cached by (done || lia). cbn [mbind outcome_bind].
  destruct (AggSigVote b) as [agg|]; cbn [deref mbind outcome_bind]; [|right; split_and!; try done; by left].
  destruct (negb _); [by left|]. rewrite fetch_hash_cached by (done || lia). cbn [mbind outcome_bind].
  destruct (negb _); [by left|].
  destruct (CI b) as [ci|]; cbn [deref mbind outcome_bind]; [|right; split_and!; try done; by right].
  destruct (negb (zlen (IntentionHash ci) =? _)); [by left|]. destruct (negb (zlen (CC b) =? _)); by left.
Qed.

(** ** The vote of a validator *)

Record vote_for (st : St) (b : Block) (last : bytes) (ok : bool) (v : Vote) : Prop := {
  vf_view : View v = hdView (bHeader b);
  vf_round : Round v = hdRound (bHeader b);
  vf_hash : ForHash v = hd_hash (bHeader b);
  vf_last : ForNecessaryData v = [last];
  vf_index : ValidatorIndex v = signerIndex st;
  vf_ok : IsOK v = ok;
  vf_sign : ∃ msg, Vote_SignBytes v = Ret msg ∧ Sign v = Signer_Sign (signer st) msg
}.

Lemma generate_vote_spec (st : St) b last ok : cached b →
  (∃ v, generate_vote_for_block b last ok (signerIndex st) (signer st) = Ret (b, v) ∧ vote_for st b last ok v) ∨
  generate_vote_for_block b last ok (signerIndex st) (signer st) = Panic.
Proof.
  intros Hc. unfold generate_vote_for_block. rewrite Block_Hash_cached by done. cbn [mbind outcome_bind].
  match goal with |- context [Vote_SignBytes ?v] => destruct (Vote_SignBytes v) as [msg|] eqn:Em end;
    cbn [mbind outcome_bind]; [left|by right]. eexists. split; [done|].
  destruct ok; constructor; try done; exists msg; (split; [exact Em|done]).
Qed.

Lemma enterNextView_pool (st : St) : block_pool (enterNextView st) = block_pool st.
Proof. done. Qed.

Definition trimmed (pool : list Block) (b : Block) : list Block :=
  (if zlen pool =? 7 then drop 1 pool else pool) ++ [b].
Lemma append_block_pool (st : St) b : block_pool (append_block st b) = trimmed (block_pool st) b.
Proof. unfold append_block, trimmed, block_pool_size. by destruct (zlen _ =? 7). Qed.
Lemma append_block_frame (st : St) b : HotStuffState (append_block st b) = HotStuffState st ∧
  block_data (append_block st b) = block_data st ∧ sent (append_block st b) = sent st ∧
  chain_id (append_block st b) = chain_id st ∧ proposerIndex (append_block st b) = proposerIndex st ∧
  signerIndex (append_block st b) = signerIndex st ∧ step (append_block st b) = step st ∧
  shard_info (append_block st b) = shard_info st.
Proof. unfold append_block. by destruct (_ =? 7). Qed.

(** What executing the second last block changes: the application only. *)
Lemma commit_frame (st : St) st' opts : commit_and_execution_j_2 st = Ret (st', opts) → st' = set_abci st (abci st').
Proof.
  unfold commit_and_execution_j_2. destruct (fetch_block st 2) as [[b|]|]; cbn [mbind outcome_bind]; [| |done].
  - destruct (Execution _ _ _ _) as [[app o]|]; cbn [mbind outcome_bind]; [|done]. by intros [= <- _].
  - intros [= <- _]. by destruct st.
Qed.

Lemma doValidate_spec (st : St) b st' : Forall cached (block_pool st) → cached b → doValidate st b = Ret st' →
  ∃ v bz, vote_for st b (hash_at st 1) (bool_decide (block_ok st b = None)) v ∧ Vote_ProtoBytes v = Ret bz ∧
    sent st' = sent st ++ [ToPeer (chain_id st) (proposerIndex st) bz MVote] ∧
    step st' = step st ∧ shard_info st' = shard_info st ∧ signerIndex st' = signerIndex st ∧
    proposerIndex st' = proposerIndex st ∧ chain_id st' = chain_id st ∧
    (block_ok st b = None →
       HotStuffState st' = EnterNewView (HotStuffState st) ∧
       block_data st' = BlockData.next (block_data st) (int64 (view_of st + 1)) 0 ∧
       block_pool st' = trimmed (block_pool st) b) ∧
    (block_ok st b ≠ None → st' = send st [ToPeer (chain_id st) (proposerIndex st) bz MVote]).
Proof.
  intros Hp Hc. unfold doValidate.
  destruct (verify_block_spec st b Hp) as [->|(-> & _)]; [|done]. cbn [mbind outcome_bind].
  rewrite fetch_hash_cached by (done || lia). cbn [mbind outcome_bind].
  destruct (generate_vote_spec st b (hash_at st 1) (bool_decide (block_ok st b = None)) Hc) as [(v & -> & Hv)| ->]; [|done].
  cbn [mbind outcome_bind]. rewrite (vf_ok _ _ _ _ _ Hv).
  destruct (bool_decide_reflect (block_ok st b = None)) as [Eb|Eb].
  - destruct (commit_and_execution_j_2 st) as [[st1 opts]|] eqn:Ec; cbn [mbind outcome_bind]; [|done].
    apply commit_frame in Ec. rewrite Ec. destruct (Vote_ProtoBytes v) as [bz|] eqn:Ez; cbn [mbind outcome_bind]; [|done].
    intros [= <-]. exists v, bz. unfold SendTo.
    destruct (append_block_frame (enterNextView (set_abci st (abci st1))) b) as (Fh & Fd & Fs & Fc & Fp & Fi & Ft & Fn).
    cbn [send sent chain_id proposerIndex signerIndex step shard_info HotStuffState block_data block_pool].
    rewrite Fh, Fd, Fs, Fc, Fp, Fi, Ft, Fn, append_block_pool. split_and!; done.
  - destruct (Vote_ProtoBytes v) as [bz|] eqn:Ez; cbn [mbind outcome_bind]; [|done]. intros [= <-].
    exists v, bz. split_and!; done.
Qed.

(** What an accepted block of view five or later contains. *)
Record consistent (st : St) (b : Block) : Prop := {
  cn_vote : ∃ agg, AggSigVote b = Some agg ∧ GetLastHashOfAggVote agg = hash_at st 2 ∧ aForHash agg = hash_at st 1;
  cn_intention : ∃ ci, CI b = Some ci ∧ zlen (IntentionHash ci) = zlen (ShardIDList (shard_info st));
  cn_certificate : zlen (CC b) = zlen (ShardIDList (shard_info st))
}.

Lemma block_ok_consistent (st : St) b r : Forall cached (block_pool st) → 5 ≤ hdView (bHeader b) →
  verify_block st b = Ret r → block_ok st b = None ↔ consistent st b.
Proof.
  intros Hp Hv. unfold verify_block, block_ok. destruct (Z.ltb_spec (hdView (bHeader b)) 5); [lia|].
  rewrite fetch_hash_cached by (done || lia). cbn [mbind outcome_bind].
  destruct (AggSigVote b) as [agg|] eqn:Ea; cbn [deref mbind outcome_bind]; [|done].
  destruct (bytes_Equal (hash_at st 2) _) eqn:E2; cbn [negb].
  2:{ intros _. split; [done|]. intros [(agg' & Ea' & Hl & _) _ _]. rewrite Ea in Ea'. injection Ea' as <-.
      rewrite Hl, bytes_Equal_refl in E2. done. }
  rewrite fetch_hash_cached by (done || lia). cbn [mbind outcome_bind].
  destruct (bytes_Equal (hash_at st 1) _) eqn:E1; cbn [negb].
  2:{ intros _. split; [done|]. intros [(agg' & Ea' & _ & Hl) _ _]. rewrite Ea in Ea'. injection Ea' as <-.
      rewrite Hl, bytes_Equal_refl in E1. done. }
  apply bytes_Equal_true in E1, E2.
  destruct (CI b) as [ci|] eqn:Ec; cbn [deref mbind outcome_bind]; [|done].
  destruct (Z.eqb_spec (zlen (IntentionHash ci)) (zlen (ShardIDList (shard_info st)))) as [Hi|Hi]; cbn [negb].
  2:{ intros _. split; [done|]. intros [_ (ci' & Ec' & Hl) _]. congruence. }
  destruct (Z.eqb_spec (zlen (CC b)) (zlen (ShardIDList (shard_info st)))) as [Hc|Hc]; cbn [negb].
  2:{ intros _. split; [done|]. by intros [_ _ Hl]. }
  intros _. split; [intros _|done]. constructor; [by exists agg|by exists ci|done].
Qed.

(** C7. A validator answers a proposed block with exactly one message, its signed
    vote to the leader: the vote names the block's view and hash and the hash
    of the last block of the pool.  It accepts every block of a view before the
    fifth, and from then on exactly the blocks that carry an aggregated vote
    for the last two blocks of the pool and one intention and one certificate
    per shard.  Accepting moves to the next view and appends the block to the
    pool, rejecting changes nothing but the messages sent. *)
Theorem validator_vote (st : St) b st'
  (Hp : Forall cached (block_pool st)) (Hc : cached b) (E : doValidate st b = Ret st') :
  ∃ v bz ok, vote_for st b (hash_at st 1) ok v ∧ Vote_ProtoBytes v = Ret bz ∧
    sent st' = sent st ++ [ToPeer (chain_id st) (proposerIndex st) bz MVote] ∧
    (ok = true ↔ hdView (bHeader b) < 5 ∨ consistent st b) ∧
    if ok then view_of st' = int64 (view_of st + 1) ∧ block_pool st' = trimmed (block_pool st) b
    else st' = send st [ToPeer (chain_id st) (proposerIndex st) bz MVote].
Proof.
  destruct (doValidate_spec st b st' Hp Hc E) as (v & bz & Hvote & Hbz & Hs & _ & _ & _ & _ & _ & Hok & Hbad).
  exists v, bz, (bool_decide (block_ok st b = None)). split_and!; try done.
  - rewrite bool_decide_eq_true. destruct (Z.lt_ge_cases (hdView (bHeader b)) 5) as [Hv|Hv].
    + split; [by left|]. intros _. unfold block_ok. destruct (Z.ltb_spec (hdView (bHeader b)) 5); [done|lia].
    + unfold doValidate in E. apply outcome_bind_Ret in E as (r & Er & _).
      rewrite (block_ok_consistent st b r Hp Hv Er). split; [by right|]. intros [?|?]; [lia|done].
  - case_bool_decide as Eb; [|by apply Hbad]. destruct (Hok Eb) as (Eh & _ & ->). unfold view_of. by rewrite Eh.
Qed.

(** ** When a validator's handler returns *)

Definition turn (st st' : St) : Prop := transition now range st = Ret (st', None).

(** A validator whose current proposal is complete, decodes, and fails
    verification. *)
Record stuck (st : St) : Prop := {
  sk_step : step st = STEP_VALIDATOR;
  sk_validator : isProposer st = false;
  sk_pool : Forall cached (block_pool st);
  sk_block : ∃ b, cached b ∧ isComplete (block_data st) (view_of st) (round_of st) = true ∧
    getBlock (block_data st) (view_of st) (round_of st) = Ret (Some b, None) ∧ block_ok st b ≠ None
}.

(** [proto.Marshal] writes a vote whose only string, the signature, is ASCII. *)
Definition votes_marshal : Prop := ∀ m : PVote, is_ascii (pSign m) = true → is_Some (marshal m).
Lemma vote_marshals (m : PVote) : votes_marshal → is_ascii (pSign m) = true → ∃ bz, MustProtoBytes m = Ret bz.
Proof. intros Hm Ha. destruct (Hm m Ha) as [bz E]. exists bz. unfold MustProtoBytes. by rewrite E. Qed.

Lemma stuck_step (st : St) : votes_marshal → stuck st → ∃ st' bz, turn st st' ∧ stuck st' ∧
  sent st' = sent st ++ [ToPeer (chain_id st) (proposerIndex st) bz MVote].
Proof.
  intros Hm [Hs Hv Hp (b & Hc & Hcomp & Hg & Hbad)].
  assert (∃ bz, doValidate st b = Ret (send st [ToPeer (chain_id st) (proposerIndex st) bz MVote])) as [bz Ed].
  { unfold doValidate. destruct (verify_block_spec st b Hp) as [->|(_ & ? & _)]; [|done]. cbn [mbind outcome_bind].
    rewrite fetch_hash_cached by (done || lia). cbn [mbind outcome_bind]. rewrite bool_decide_false by done.
    destruct (generate_vote_spec st b (hash_at st 1) false Hc) as [(v & -> & Hvote)|Ep].
    - cbn [mbind outcome_bind]. rewrite (vf_ok _ _ _ _ _ Hvote). cbn [mbind outcome_bind].
      destruct (vote_marshals (Vote_ToProto v) Hm) as [bz Ez].
      { destruct (vf_sign _ _ _ _ _ Hvote) as (msg & _ & Es). cbn [pSign Vote_ToProto]. rewrite Es. apply sig_hex. }
      exists bz. unfold Vote_ProtoBytes. rewrite Ez. done.
    - exfalso. unfold generate_vote_for_block in Ep. rewrite Block_Hash_cached in Ep by done.
      cbn [mbind outcome_bind] in Ep. unfold Vote_SignBytes in Ep.
      match type of Ep with context [MustProtoBytes ?m] => destruct (vote_marshals m Hm eq_refl) as [z Ez]; rewrite Ez in Ep end. done. }
  exists (set_step (send st [ToPeer (chain_id st) (proposerIndex st) bz MVote]) STEP_VALIDATOR), bz. split; [|split; [|done]].
  - unfold turn, transition. rewrite Hs, Hcomp, Hg. cbn [mbind outcome_bind deref]. rewrite Ed. cbn [mbind outcome_bind].
    unfold next_step. change (isProposer (send st _)) with (isProposer st). rewrite Hv. cbn [negb mbind outcome_bind].
    change (isProposer (set_step _ _)) with (isProposer st). by rewrite Hv.
  - constructor; try done. by exists b.
Qed.

Lemma stuck_diverges (st : St) : votes_marshal → stuck st → ∀ fuel, handle_state_transition now range fuel st = Ret None.
Proof.
  intros Hm Hst fuel. revert st Hst. induction fuel as [|fuel IH]; intros st Hst; [done|].
  destruct (stuck_step st Hm Hst) as (st' & bz & Ht & Hst' & _). cbn [handle_state_transition]. unfold turn in Ht.
  rewrite Ht. cbn [mbind outcome_bind]. by apply IH.
Qed.

Record validator (st : St) : Prop := {
  vl_step : step st = STEP_VALIDATOR;
  vl_proposer : isProposer st = false;
  vl_pool : Forall cached (block_pool st);
  vl_view : 0 ≤ view_of st ∧ view_of st + Z.of_nat (base.size (blocks (block_data st))) < 2 ^ 63 - 1
}.

Lemma prune_map_size {A} (m : gmap Z (gmap Z A)) v : is_Some (m !! v) → (base.size (prune_map (v + 1) 0 m) < base.size m)%nat.
Proof.
  intros Hv. rewrite <- !(size_dom (D := gset Z)). apply subset_size. split; [apply dom_imap_subseteq|].
  intros Hsub. assert (v ∈ dom (prune_map (v + 1) 0 m)) as Hin by (apply Hsub; by apply elem_of_dom).
  apply elem_of_dom in Hin as [x Hx]. unfold prune_map in Hx. rewrite map_lookup_imap in Hx.
  destruct (m !! v); cbn in Hx; [|done]. unfold prune_view in Hx. destruct (Z.ltb_spec v (v + 1)); [done|lia].
Qed.

Lemma trimmed_cached pool b : Forall cached pool → cached b → Forall cached (trimmed pool b).
Proof.
  intros Hp Hb. unfold trimmed. apply Forall_app. split; [|by repeat constructor].
  destruct (_ =? 7); [|done]. by apply Forall_drop.
Qed.

(** A turn of a validator either is rejecting or moves to the next view with
    fewer views of part sets left. *)
Lemma validator_turn (st st' : St) : validator st → turn st st' → stuck st ∨
  (validator st' ∧ view_of st' = view_of st + 1 ∧
   (base.size (blocks (block_data st')) < base.size (blocks (block_data st)))%nat).
Proof.
  intros [Hs Hv Hp Hview]. unfold turn, transition. rewrite Hs.
  destruct (isComplete _ _ _) eqn:Hcomp; [|done]. destruct (getBlock _ _ _) as [[b err]|] eqn:Hg; cbn [mbind outcome_bind]; [|done].
  destruct err; [done|]. destruct b as [b|]; cbn [deref mbind outcome_bind]; [|done].
  assert (∃ ps, get2 (blocks (block_data st)) (view_of st) (round_of st) = Some ps ∧ cached b) as (ps & Hps & Hc).
  { unfold getBlock in Hg. destruct (get2 _ _ _) as [ps|]; [|done]. exists ps. split; [done|].
    destruct (IsComplete ps); [|done]. destruct (GenBlock ps) as [[ob e]|] eqn:Eg; cbn [mbind outcome_bind] in Hg; [|done].
    destruct e; [done|]. injection Hg as ->. destruct (GenBlock_ok ps b Eg) as (_ & _ & _ & b0 & _ & Eh).
    by apply Block_Hash_caches in Eh as [? _]. }
  destruct (doValidate st b) as [st1|] eqn:Ed; cbn [mbind outcome_bind]; [|done].
  destruct (doValidate_spec st b st1 Hp Hc Ed) as (v & bz & _ & _ & _ & F1 & F2 & F3 & F4 & F5 & Hok & Hbad).
  unfold next_step. assert (isProposer st1 = false) as Hv1 by (unfold isProposer in *; congruence).
  rewrite Hv1. cbn [negb mbind outcome_bind]. change (isProposer (set_step st1 _)) with (isProposer st1).
  rewrite Hv1. cbn [andb]. intros [= <-].
  destruct (decide (block_ok st b = None)) as [Eb|Eb]; [right|left; constructor; try done; by exists b].
  destruct (Hok Eb) as (Eh & Ebd & Epool).
  assert (view_of (set_step st1 STEP_VALIDATOR) = view_of st + 1) as Ev.
  { unfold view_of in *. cbn. rewrite Eh. cbn. rewrite (wrapS_small 64) by lia. done. }
  assert (base.size (blocks (block_data st1)) < base.size (blocks (block_data st)))%nat as Hsz.
  { rewrite Ebd. cbn. rewrite (wrapS_small 64) by lia. apply prune_map_size.
    unfold get2 in Hps. destruct (blocks (block_data st) !! view_of st); [by eexists|done]. }
  split; [|done]. constructor; try done.
  - cbn. rewrite Epool. by apply trimmed_cached.
  - rewrite Ev. cbn. lia.
Qed.

Lemma validator_returns n : ∀ st : St, validator st → (base.size (blocks (block_data st)) < n)%nat →
  handle_state_transition now range n st ≠ Ret None ∨ ∃ st', rtc turn st st' ∧ stuck st'.
Proof.
  induction n as [|n IH]; intros st Hv Hn; [lia|]. cbn [handle_state_transition].
  destruct (transition now range st) as [[st' res]|] eqn:Et; cbn [mbind outcome_bind]; [|by left].
  destruct res as [r|]; [by left|].
  destruct (validator_turn st st' Hv Et) as [Hst|(Hv' & _ & Hsz)]; [right; by exists st|].
  destruct (IH st' Hv') as [Hr|(st2 & Hrt & Hst)]; [lia|by left|].
  right. exists st2. split; [|done]. by eapply rtc_l.
Qed.

(** C24. The handler of a validator runs forever exactly when some proposal it
    reaches, complete and regenerated, fails verification: it then rejects the
    same block again and again (every turn sends one more vote and leaves the
    state as it was).  Otherwise it ends, with a result or a panic, after at
    most one turn per view it holds part sets for, and one more.  Votes with
    ASCII signatures, as the signer makes them, are assumed to marshal. *)
Theorem validator_diverges_iff (st : St) (Hv : validator st) (Hm : votes_marshal) :
  ((∀ fuel, handle_state_transition now range fuel st = Ret None) ↔ ∃ st', rtc turn st st' ∧ stuck st') ∧
  ((¬ ∃ st', rtc turn st st' ∧ stuck st') →
     handle_state_transition now range (base.size (blocks (block_data st)) + 1) st ≠ Ret None).
Proof.
  assert (∀ st' : St, rtc turn st st' → stuck st' → ∀ fuel, handle_state_transition now range fuel st = Ret None) as Hd.
  { clear Hv. induction 1 as [st|st st1 st2 Ht _ IH]; intros Hst fuel; [by apply stuck_diverges|].
    destruct fuel as [|fuel]; [done|]. cbn [handle_state_transition]. unfold turn in Ht. rewrite Ht.
    cbn [mbind outcome_bind]. by apply IH. }
  split; [split|].
  - intros Hdiv. destruct (validator_returns (Datatypes.S (base.size (blocks (block_data st)))) st Hv) as [Hr|]; [lia| |done].
    by destruct Hr.
  - intros (st' & Hrt & Hst). by eapply Hd.
  - intros Hn. destruct (validator_returns (base.size (blocks (block_data st)) + 1) st Hv) as [|Hr]; [lia|done|by destruct Hn].
Qed.

(** ** What the operations of a leader leave alone *)

(** The configuration of a node. *)
Definition ident (st : St) :=
  (EnablePipelineFlag st, signerIndex st, proposerIndex st, chain_id st, shard_info st, step st).
(** The exchange of the current view. *)
Definition exchange (st : St) := (finished (block_data st), lastHash (block_data st)).

Lemma fetch_hash_frame (st st' : St) k h : fetch_hash st k = Ret (st', h) → st' = set_pool st (block_pool st').
Proof.
  unfold fetch_hash. destruct (fetch_block st k) as [[b|]|]; cbn [mbind outcome_bind]; [| |done].
  - destruct (Block_Hash b) as [[b1 h1]|]; cbn [mbind outcome_bind]; [|done]. unfold update_block.
    destruct (upd _ _ _) as [pool|]; cbn [mbind outcome_bind]; [|done]. by intros [= <- _].
  - intros [= <- _]. by rewrite set_pool_id.
Qed.

Lemma make_block_frame (st st' : St) opts b : make_block now st opts = Ret (st', b) →
  ident st' = ident st ∧ exchange st' = exchange st ∧ HotStuffState st' = HotStuffState st ∧
  blocks (block_data st') = blocks (block_data st) ∧ retainView (block_data st') = retainView (block_data st) ∧
  retainRound (block_data st') = retainRound (block_data st) ∧
  retainBlockParts (block_data st') = retainBlockParts (block_data st) ∧
  hdView (bHeader b) = view_of st ∧ cached b ∧ ∃ st1 h, fetch_hash st 1 = Ret (st1, h) ∧ block_pool st' = block_pool st1.
Proof.
  unfold make_block. destruct (fetch_hash st 1) as [[st1 last]|] eqn:Ef; cbn [mbind outcome_bind]; [|done].
  apply fetch_hash_frame in Ef as Eq. intros E.
  apply outcome_bind_Ret in E as (agg & _ & E). apply outcome_bind_Ret in E as ([ptxs ctxs] & _ & E).
  apply outcome_bind_Ret in E as (opt & _ & E). apply outcome_bind_Ret in E as (ci & _ & E).
  apply outcome_bind_Ret in E as (cc & _ & E). apply outcome_bind_Ret in E as (cm & _ & E).
  destruct (Block_Hash _) as [[b1 h1]|] eqn:Eh; [|done]. cbn [mbind outcome_bind] in E. injection E as <- <-.
  destruct (Block_Hash_caches _ _ _ Eh) as [Hc _]. destruct (Block_Hash_keeps _ _ _ Eh) as (Hv & _).
  split_and!; try done; [by rewrite Eq..|by rewrite Hv, Eq|]. by exists st1, last.
Qed.

(** The proposer's block has its hash cached, computed from the block itself:
    [Block_wire_roundtrip] and [PartSet_delivery] apply to it. *)
Lemma make_block_computed (st st' : St) opts b : make_block now st opts = Ret (st', b) → hash_computed b ∧ cached b.
Proof.
  unfold make_block. intros E. apply outcome_bind_Ret in E as ([st1 last] & _ & E).
  apply outcome_bind_Ret in E as (agg & _ & E). apply outcome_bind_Ret in E as ([ptxs ctxs] & _ & E).
  apply outcome_bind_Ret in E as (opt & _ & E). apply outcome_bind_Ret in E as (ci & _ & E).
  apply outcome_bind_Ret in E as (cc & _ & E). apply outcome_bind_Ret in E as (cm & _ & E).
  destruct (Block_Hash _) as [[b1 h1]|] eqn:Eh; [|done]. cbn [mbind outcome_bind] in E. injection E as _ <-.
  split; [|by apply Block_Hash_caches in Eh as [? _]]. right. eexists _, h1. split; [|exact Eh]. done.
Qed.

Lemma doPropose_frame (st st' : St) err : doPropose now st = Ret (st', err) →
  ident st' = ident st ∧ exchange st' = (∅, lastHash (block_data st)) ∧ view_of st' = int64 (view_of st + 1).
Proof.
  unfold doPropose. destruct (commit_and_execution_j_2 st) as [[st1 opts]|] eqn:Ec; cbn [mbind outcome_bind]; [|done].
  apply commit_frame in Ec. destruct (make_block now (enterNextView st1) opts) as [[st2 b]|] eqn:Em; cbn [mbind outcome_bind]; [|done].
  destruct (make_block_frame _ _ _ _ Em) as (Ei & Ex & Eh & _).
  assert (ident st2 = ident st) as Ei2 by (rewrite Ei, Ec; done).
  assert (exchange st2 = (∅, lastHash (block_data st))) as Ex2 by (rewrite Ex, Ec; done).
  assert (view_of st2 = int64 (view_of st + 1)) as Ev2 by (unfold view_of; rewrite Eh, Ec; done).
  clear Ei Ex Eh Em Ec. unfold addBlock. destruct (PartSetFromBlock _ _ _) as [[[b1 ps]|]|]; cbn [mbind outcome_bind]; try done.
  destruct (addPartSet (block_data st2) ps) as [bd e] eqn:Ea. cbn [mbind outcome_bind].
  assert (finished bd = finished (block_data st2) ∧ lastHash bd = lastHash (block_data st2)) as [F1 F2].
  { unfold addPartSet in Ea. destruct (old _ _ _); [by injection Ea as <- _|].
    destruct (get2 _ _ _); by injection Ea as <- _. }
  assert (exchange (set_data st2 bd) = (∅, lastHash (block_data st))) as Ex3.
  { unfold exchange in *. cbn. by rewrite F1, F2. }
  destruct e; [by intros [= <- _]|].
  destruct (Block_Hash b1) as [[b2 h2]|]; cbn [mbind outcome_bind]; [|done].
  destruct (Proposal_SignBytes _) as [msg|]; cbn [mbind outcome_bind]; [|done].
  destruct (Proposal_ProtoBytes _) as [pbz|]; cbn [mbind outcome_bind]; [|done].
  destruct (mapM_out _ _) as [parts|]; cbn [mbind outcome_bind]; [|done].
  destruct (generate_vote_for_block _ _ _ _ _) as [[b3 v]|]; cbn [mbind outcome_bind]; [|done].
  destruct (AddVote _ _) as [[hs e]|] eqn:Eav; cbn [mbind outcome_bind]; [|done].
  assert (sView hs = view_of st2) as Ehs.
  { unfold AddVote in Eav. destruct (heightDatas _) as [hd|] eqn:Ehd; [|done].
    destruct (addVote hd v) as [r|]; [|done]. cbn in Eav. injection Eav as <- _. done. }
  destruct e as [e|]; [intros [= <- _]; split_and!; [done|done|]; unfold view_of in *; cbn; congruence|].
  match goal with |- context [append_block ?s b3] => set (s3 := s); pose proof (append_block_frame s3 b3) as Fa;
    change (append_block s b3) with (append_block s3 b3) end.
  intros (mp & _ & (cmp & _ & [= <- _])%outcome_bind_Ret)%outcome_bind_Ret. unfold ident, exchange, view_of in *.
  cbn [set_mempools EnablePipelineFlag signerIndex proposerIndex chain_id shard_info step block_data HotStuffState].
  destruct Fa as (Fh & Fd & _ & Fc & Fp & Fi & Ft & Fn). rewrite Fh, Fd, Fc, Fp, Fi, Ft, Fn.
  assert (EnablePipelineFlag (append_block s3 b3) = EnablePipelineFlag s3) as ->
    by (unfold append_block; by destruct (_ =? 7)).
  split_and!; [done|done|]. cbn. congruence.
Qed.

Lemma extendHash_frame (st st' : St) m : extendHash st m = Ret st' → ∃ v, csmAggVote m = Some v ∧
  st' = set_data st (extend_data (block_data st) m (aForHash v)).
Proof. unfold extendHash. destruct (csmAggVote m) as [v|]; [|done]. intros [= <-]. by exists v. Qed.

(** A block before and after its caches were filled. *)
Definition similar (b c : Block) : Prop := hdView (bHeader c) = hdView (bHeader b) ∧ (cached b → cached c).
Lemma similar_refl b : similar b b.
Proof. done. Qed.
Lemma similar_trans a b c : similar a b → similar b c → similar a c.
Proof. intros [] []. split; [congruence|auto]. Qed.
Lemma similar_pool_refl pool : Forall2 similar pool pool.
Proof. induction pool; constructor; [apply similar_refl|done]. Qed.
Lemma similar_pool_trans p1 p2 p3 : Forall2 similar p1 p2 → Forall2 similar p2 p3 → Forall2 similar p1 p3.
Proof.
  intros H1. revert p3. induction H1 as [|a b l1 l2 Hab _ IH]; intros p3; inversion 1; subst; constructor;
    [by eapply similar_trans|by apply IH].
Qed.

Lemma ProofOfIndex_similar b b' i p : ProofOfIndex b i = Ret (b', p) → similar b b'.
Proof.
  unfold ProofOfIndex. intros (b1 & E & E')%outcome_bind_Ret.
  assert (b1 = b') as <- by (destruct (_ && _); [by apply outcome_bind_Ret in E' as (? & _ & [= -> _])|by injection E' as -> _]).
  destruct (_ =? 0); [|injection E as <-; apply similar_refl]. unfold calBlockHashAndProof in E.
  apply outcome_bind_Ret in E as (bf & Ef & (ls & _ & ([hash proofs] & Ep & [= <-])%outcome_bind_Ret)%outcome_bind_Ret).
  apply fillInHeader_filled in Ef. split; [apply (fl_view _ _ Ef)|]. intros _.
  destruct (proofs_spec ls) as (root & ? & Ep' & Er & _). rewrite Ep in Ep'. injection Ep' as -> _.
  exact (HashFromByteSlices_ne _ _ Er).
Qed.

(** Operations that only touch the block data, the pool and the messages sent. *)
Record same_machine (st st' : St) : Prop := {
  sm_ident : ident st' = ident st;
  sm_hotstuff : HotStuffState st' = HotStuffState st;
  sm_shards : dom (lastHash (block_data st)) ⊆ dom (lastHash (block_data st'));
  sm_blocks : bd_inv (block_data st) → bd_inv (block_data st');
  sm_retain : retainView (block_data st') = retainView (block_data st) ∧
              retainRound (block_data st') = retainRound (block_data st);
  sm_pool : Forall2 similar (block_pool st) (block_pool st')
}.
Lemma same_machine_refl st : same_machine st st.
Proof. constructor; try done. apply similar_pool_refl. Qed.
Lemma same_machine_trans st1 st2 st3 : same_machine st1 st2 → same_machine st2 st3 → same_machine st1 st3.
Proof.
  intros [? ? ? ? [] ?] [? ? ? ? [] ?].
  constructor; [congruence..|set_solver|auto|split; congruence|by eapply similar_pool_trans].
Qed.

Lemma extend_frame (st : St) m hash : same_machine st (set_data st (extend_data (block_data st) m hash)).
Proof.
  constructor; try done; cbn; [rewrite dom_insert; set_solver| |apply similar_pool_refl].
  intros [I1 I2]. by constructor.
Qed.

Lemma redo_frame ids : ∀ (st st' : St) e, redo_loop ids st = Ret (st', e) → same_machine st st'.
Proof.
  induction ids as [|id ids IH]; intros st st' e; cbn [redo_loop]; [intros [= <- _]; apply same_machine_refl|].
  destruct (bool_decide _); [apply IH|]. destruct (PrefixStore.GetSpecial _ _) as [bz|]; [|intros [= <- _]; apply same_machine_refl].
  destruct (_ =? 0); [apply IH|]. intros ([csm|] & _ & E)%outcome_bind_Ret; [|injection E as <- _; apply same_machine_refl].
  apply outcome_bind_Ret in E as (st1 & E1 & E). apply IH in E. eapply same_machine_trans; [|done].
  apply extendHash_frame in E1 as (v & _ & ->). apply extend_frame.
Qed.

Lemma update_block_frame (st st' : St) k b b' : fetch_block st k = Ret (Some b) → similar b b' →
  update_block st k b' = Ret st' → same_machine st st'.
Proof.
  unfold fetch_block, update_block. destruct (_ <? k); [done|]. intros (b0 & Hb & [= ->])%outcome_bind_Ret Hsim.
  intros (pool & Hu & [= <-])%outcome_bind_Ret. constructor; try done. cbn.
  apply idx_Ret in Hb as [_ Hb]. apply upd_Ret in Hu as [_ ->].
  apply Forall2_same_length_lookup_2; [by rewrite length_insert|]. intros i x y Hx Hy.
  apply list_lookup_insert_Some in Hy as [(<- & <- & _)|[_ Hy]]; [congruence|].
  rewrite Hx in Hy. injection Hy as <-. apply similar_refl.
Qed.

Lemma deref_Ret {A} (o : option A) x : deref o = Ret x → o = Some x.
Proof. destruct o; [by intros [= ->]|done]. Qed.

Lemma model_csm_frame (st st' : St) sig m : model_csm st sig = Ret (st', m) → same_machine st st'.
Proof.
  unfold model_csm. destruct (4 <=? _); [|intros [= <- _]; apply same_machine_refl].
  intros (ob & Ef & (b & ->%deref_Ret & (ci & _ & ([b1 p] & Ep & E)%outcome_bind_Ret)%outcome_bind_Ret)%outcome_bind_Ret)%outcome_bind_Ret.
  apply outcome_bind_Ret in E as (ci1 & _ & ([ci2 r] & _ & (st1 & E & [= <- _])%outcome_bind_Ret)%outcome_bind_Ret).
  eapply update_block_frame; [exact Ef| |exact E]. exact (ProofOfIndex_similar _ _ _ _ Ep).
Qed.

Lemma broadcast_frame model (st st' : St) i : broadcastFunc model st i = Ret st' → same_machine st st'.
Proof.
  unfold broadcastFunc. intros ([st1 csm] & E1 & E)%outcome_bind_Ret.
  assert (same_machine st st1) as F1.
  { destruct (4 <=? _); [|injection E1 as <- _; apply same_machine_refl].
    apply outcome_bind_Ret in E1 as (txs & _ & (ob & Ef & (b & ->%deref_Ret & ([b1 pf] & Ep & (st2 & E2 & [= <- _])%outcome_bind_Ret)%outcome_bind_Ret)%outcome_bind_Ret)%outcome_bind_Ret).
    eapply update_block_frame; [exact Ef| |exact E2]. unfold GetOutputTxsProofOf in Ep.
    apply outcome_bind_Ret in Ep as ([b2 bp] & Ep & ([h pfs] & _ & (op & _ & [= <- _])%outcome_bind_Ret)%outcome_bind_Ret).
    exact (ProofOfIndex_similar _ _ _ _ Ep). }
  eapply same_machine_trans; [exact F1|]. apply outcome_bind_Ret in E as (id & _ & E). destruct (bool_decide _).
  - apply extendHash_frame in E as (v & _ & ->). apply extend_frame.
  - apply outcome_bind_Ret in E as (bz & _ & (sh & _ & [= <-])%outcome_bind_Ret). constructor; try done. apply similar_pool_refl.
Qed.

Lemma broadcasts_frame model js : ∀ st st' : St, foldM (broadcastFunc model) js st = Ret st' → same_machine st st'.
Proof.
  induction js as [|i js IH]; intros st st'; cbn [foldM]; [intros [= <-]; apply same_machine_refl|].
  destruct (broadcastFunc model st i) as [st1|] eqn:E; [|done]. intros E'. apply IH in E'.
  eapply same_machine_trans; [by eapply broadcast_frame|done].
Qed.

(** Exchanging messages changes the votes only by caching the aggregate. *)
Lemma communicate_frame (st st' : St) e : CrossShardCommunicate range st = Ret (st', e) →
  same_machine (set_hotstuff st (HotStuffState st')) st' ∧ sView (HotStuffState st') = view_of st ∧
  sRound (HotStuffState st') = round_of st ∧ IsQuorum (HotStuffState st') = IsQuorum (HotStuffState st).
Proof.
  unfold CrossShardCommunicate. intros ([st1 e1] & E1 & E)%outcome_bind_Ret. apply redo_frame in E1.
  destruct e1 as [e1|]; [injection E as <- _; unfold view_of, round_of; rewrite (sm_hotstuff _ _ E1)|].
  { split; [|done]. destruct E1. by constructor. }
  apply outcome_bind_Ret in E as ([hs r] & Em & E).
  assert (sView hs = view_of st ∧ sRound hs = round_of st ∧ IsQuorum hs = IsQuorum (HotStuffState st)) as (V2 & R2 & Q2).
  { unfold view_of, round_of. rewrite <- (sm_hotstuff _ _ E1). unfold GetMaj23 in Em.
    destruct (heightDatas (HotStuffState st1)) as [hd|] eqn:Eh; [|done].
    destruct (getMaj23 hd) as [[hd' r']|] eqn:Eg; [|done]. cbn in Em. injection Em as <- _. split_and!; [done..|].
    unfold IsQuorum. rewrite Eh. cbn. destruct (getMaj23_agg hd hd' r' Eg) as [agg ->]. done. }
  assert (same_machine (set_hotstuff st hs) (set_hotstuff st1 hs)) as F1 by (destruct E1; by constructor).
  destruct r as [sig|e2]; [|injection E as <- _; by split_and!].
  apply outcome_bind_Ret in E as ([st2 m] & E2 & E). apply model_csm_frame in E2.
  apply outcome_bind_Ret in E as (st3 & E3 & E). apply broadcasts_frame in E3. injection E as <- _.
  assert (HotStuffState st3 = hs) as Eh by (rewrite (sm_hotstuff _ _ E3), (sm_hotstuff _ _ E2); done).
  rewrite Eh. split_and!; try done. by eapply same_machine_trans, same_machine_trans.
Qed.

(** ** When a leader's handler returns *)

Lemma transition_wait (st : St) : step st = STEP_LEADER_WAIT → isCrossShardMessageComplete (block_data st) = false →
  transition now range st = Ret (st, Some None).
Proof. intros Hs Hc. unfold transition. by rewrite Hs, Hc. Qed.

Lemma transition_vote (st : St) : step st = STEP_LEADER_VOTE → IsQuorum (HotStuffState st) = Ret false →
  transition now range st = Ret (st, Some None).
Proof. intros Hs Hq. unfold transition. by rewrite Hs, Hq. Qed.

(** The end of a turn of a leader. *)
Lemma leader_next (st st' : St) r : isProposer st = true →
  (s ← next_step st; (if isProposer (set_step st s) && ((EnablePipelineFlag (set_step st s) && (100 <? view_of (set_step st s))) ||
     (600 <? view_of (set_step st s))) then Panic else Ret (set_step st s, @None (option cs_error)))) = Ret (st', r) →
  r = None ∧ ∃ q, IsQuorum (HotStuffState st) = Ret q ∧
    st' = set_step st (if q : bool then STEP_LEADER_WAIT else STEP_LEADER_VOTE).
Proof.
  intros Hp. unfold next_step. rewrite Hp. cbn [negb]. intros (s1 & E1 & E)%outcome_bind_Ret.
  apply outcome_bind_Ret in E1 as (q & Hq & [= <-]). destruct (_ && _); [done|]. injection E as <- <-.
  split; [done|]. by exists q.
Qed.

Definition quiet (st : St) : Prop :=
  (step st = STEP_LEADER_WAIT ∧ isCrossShardMessageComplete (block_data st) = false) ∨
  (step st = STEP_LEADER_VOTE ∧ IsQuorum (HotStuffState st) = Ret false).

Lemma quiet_returns (st : St) fuel : quiet st → handle_state_transition now range (Datatypes.S fuel) st = Ret (Some (st, None)).
Proof.
  intros [[Hs Hc]|[Hs Hq]]; cbn [handle_state_transition].
  - by rewrite transition_wait.
  - by rewrite transition_vote.
Qed.

Lemma isProposer_ident (st st' : St) : ident st' = ident st → isProposer st' = isProposer st.
Proof. unfold ident, isProposer. by intros [= _ -> -> _ _ _]. Qed.

(** After a waiting leader's turn nothing is left to do. *)
Lemma wait_turn (st st' : St) : isProposer st = true → step st = STEP_LEADER_WAIT →
  lastHash (block_data st) ≠ ∅ → turn st st' → isProposer st' = true ∧ quiet st' ∧
  view_of st' = int64 (view_of st + 1).
Proof.
  intros Hp Hs Hl. unfold turn, transition. rewrite Hs. destruct (isCrossShardMessageComplete _); [|done].
  destruct (doPropose now st) as [[st1 e]|] eqn:Ed; cbn [mbind outcome_bind]; [|done].
  destruct e as [e|]; [done|]. destruct (doPropose_frame st st1 None Ed) as (Hi & He & Hv).
  assert (isProposer st1 = true) as Hp1 by (by rewrite (isProposer_ident st st1 Hi)).
  intros E. apply leader_next in E as (_ & q & Hq & ->); [|done]. split; [done|]. split; [|done].
  destruct q; [left|right; done]. split; [done|]. unfold exchange in He. cbn [block_data set_step].
  injection He as Hf Hlast. unfold isCrossShardMessageComplete. rewrite Hf, Hlast, map_size_empty.
  apply Z.eqb_neq. intros Hz. apply Hl. apply map_size_empty_iff. lia.
Qed.

Lemma vote_turn (st st' : St) : isProposer st = true → step st = STEP_LEADER_VOTE → turn st st' →
  isProposer st' = true ∧ step st' = STEP_LEADER_WAIT ∧ dom (lastHash (block_data st)) ⊆ dom (lastHash (block_data st')).
Proof.
  intros Hp Hs. unfold turn, transition. rewrite Hs.
  destruct (IsQuorum (HotStuffState st)) as [q|] eqn:Hq; cbn [mbind outcome_bind]; [|done]. destruct q; [|done].
  destruct (CrossShardCommunicate range st) as [[st1 e]|] eqn:Ed; cbn [mbind outcome_bind]; [|done].
  destruct e as [e|]; [done|]. destruct (communicate_frame st st1 None Ed) as (Hi & _ & _ & Hq1).
  assert (isProposer st1 = true) as Hp1 by (by rewrite (isProposer_ident st st1 (sm_ident _ _ Hi))).
  intros E. apply leader_next in E as (_ & q & Hq' & ->); [|done]. split; [done|]. rewrite Hq1, Hq in Hq'.
  injection Hq' as <-. split; [done|]. apply (sm_shards _ _ Hi).
Qed.

Lemma none_turn (st st' : St) : isProposer st = true → step st = STEP_NONE → turn st st' →
  isProposer st' = true ∧ (step st' = STEP_LEADER_WAIT ∨ quiet st') ∧ block_data st' = block_data st.
Proof.
  intros Hp Hs. unfold turn, transition. rewrite Hs. cbn [mbind outcome_bind]. intros E.
  apply leader_next in E as (_ & q & Hq & ->); [|done]. split; [done|]. split; [|done].
  destruct q; [by left|right; by right].
Qed.

Lemma handle_turn (st st' : St) fuel : turn st st' →
  handle_state_transition now range (Datatypes.S fuel) st = handle_state_transition now range fuel st'.
Proof. unfold turn. intros Ht. cbn [handle_state_transition]. by rewrite Ht. Qed.

Lemma handle_end (st : St) fuel : (∀ st', ¬ turn st st') → handle_state_transition now range (Datatypes.S fuel) st ≠ Ret None.
Proof.
  intros Hn. cbn [handle_state_transition]. destruct (transition now range st) as [[st' [r|]]|] eqn:E; cbn; try done.
  by destruct (Hn st').
Qed.

Lemma turn_dec (st : St) : (∃ st', turn st st') ∨ ∀ st', ¬ turn st st'.
Proof.
  unfold turn. destruct (transition now range st) as [[st' [r|]]|]; [right|left|right]; try (by intros st'').
  by exists st'.
Qed.

Lemma wait_returns (st : St) fuel : isProposer st = true → step st = STEP_LEADER_WAIT →
  lastHash (block_data st) ≠ ∅ → handle_state_transition now range (2 + fuel) st ≠ Ret None.
Proof.
  intros Hp Hs Hl. cbn [plus]. destruct (turn_dec st) as [[st' Ht]|Hn]; [|by apply handle_end].
  rewrite (handle_turn st st') by done. destruct (wait_turn st st' Hp Hs Hl Ht) as (_ & Hq & _).
  by rewrite quiet_returns.
Qed.

Lemma vote_returns (st : St) fuel : isProposer st = true → step st = STEP_LEADER_VOTE →
  lastHash (block_data st) ≠ ∅ → handle_state_transition now range (3 + fuel) st ≠ Ret None.
Proof.
  intros Hp Hs Hl. cbn [plus]. destruct (turn_dec st) as [[st' Ht]|Hn]; [|by apply handle_end].
  rewrite (handle_turn st st') by done. destruct (vote_turn st st' Hp Hs Ht) as (Hp' & Hs' & Hd).
  apply (wait_returns st' fuel); [done..|]. intros Hx. apply Hl. apply (dom_empty_inv_L (D := gset string)).
  rewrite Hx, dom_empty_L in Hd. set_solver.
Qed.

(** C25. The handler of a leader always ends: whatever state the leader is in, at most
    four turns of [handle_state_transition] lead to a result (or a panic) — it
    exchanges cross-shard messages at most once and proposes at most once. *)
Theorem leader_terminates (st : St) fuel
  (Hp : isProposer st = true) (Hs : step st ≠ STEP_VALIDATOR) (Hl : lastHash (block_data st) ≠ ∅) :
  handle_state_transition now range (4 + fuel) st ≠ Ret None.
Proof.
  destruct (step st) eqn:Est; [|done| |].
  - cbn [plus]. destruct (turn_dec st) as [[st' Ht]|Hn]; [|by apply handle_end].
    rewrite (handle_turn st st') by done. destruct (none_turn st st' Hp Est Ht) as (Hp' & [Hs'|Hq] & Hb).
    + apply (wait_returns st' (1 + fuel)); [done..|by rewrite Hb].
    + by rewrite quiet_returns.
  - by apply (vote_returns st (1 + fuel)).
  - by apply (wait_returns st (2 + fuel)).
Qed.

(** ** A leader that waits for its own message *)

(** The leader waits for cross-shard messages and its own shard's, which only
    [CrossShardCommunicate] produces, is missing. *)
Record waiting (st : St) : Prop := {
  wt_step : step st = STEP_LEADER_WAIT;
  wt_proposer : isProposer st = true;
  wt_own : chain_id st ∈ dom (lastHash (block_data st));
  wt_finished : dom (finished (block_data st)) ⊆ dom (lastHash (block_data st));
  wt_missing : chain_id st ∉ dom (finished (block_data st))
}.

Lemma waiting_incomplete (st : St) : waiting st → isCrossShardMessageComplete (block_data st) = false.
Proof.
  intros [_ _ Ho Hf Hm]. unfold isCrossShardMessageComplete. apply Z.eqb_neq.
  rewrite <- !(size_dom (D := gset string)).
  assert (dom (finished (block_data st)) ⊂ dom (lastHash (block_data st))) as Hs by set_solver.
  apply subset_size in Hs. lia.
Qed.

Lemma addPart_exchange bd p bd' e : addPart bd p = Ret (bd', e) → finished bd' = finished bd ∧ lastHash bd' = lastHash bd.
Proof.
  unfold addPart, append_part. destruct (old bd _ _); [by intros [= <- _]|].
  destruct (get2 _ _ _); [|by intros [= <- _]]. intros ([ps err] & _ & [= <- _])%outcome_bind_Ret. done.
Qed.
Lemma replay_exchange parts : ∀ bd bd', replay bd parts = Ret bd' → finished bd' = finished bd ∧ lastHash bd' = lastHash bd.
Proof.
  induction parts as [|p parts IH]; intros bd bd'; [by intros [= <-]|]. rewrite replay_cons.
  intros ([bd1 e] & E1 & E)%outcome_bind_Ret. apply addPart_exchange in E1 as [? ?]. cbn [fst] in E. apply IH in E as [? ?].
  split; congruence.
Qed.
Lemma addPartSetHeader_exchange bd h hash bd' e : addPartSetHeader bd h hash = Ret (bd', e) →
  finished bd' = finished bd ∧ lastHash bd' = lastHash bd.
Proof.
  unfold addPartSetHeader. destruct (old bd _ _); [by intros [= <- _]|].
  destruct (get2 _ _ _); [by intros [= <- _]|].
  intros (ps & _ & (bd1 & E & [= <- _])%outcome_bind_Ret)%outcome_bind_Ret. by apply replay_exchange in E.
Qed.

Lemma AddVote_view hs v hs' e : AddVote hs v = Ret (hs', e) → sView hs' = sView hs ∧ sRound hs' = sRound hs.
Proof.
  unfold AddVote. destruct (heightDatas hs) as [hd|]; [|done]. destruct (addVote hd v) as [r|]; [|done].
  cbn. by intros [= <- _].
Qed.

(** The messages that do not claim to come from the leader's own shard. *)
Definition foreign (st : St) (msg : Message) : Prop :=
  match msg with GotCSM m => SourceChain m ≠ chain_id st | _ => True end.

Lemma accept_waiting (st st' : St) msg e : waiting st → foreign st msg → accept st msg = Ret (st', e) →
  waiting st' ∧ ident st' = ident st ∧ view_of st' = view_of st ∧ sent st' = sent st.
Proof.
  intros Hw Hf. assert (∀ bd, finished bd = finished (block_data st) → lastHash bd = lastHash (block_data st) →
    waiting (set_data st bd)) as Hdata by (intros bd E1 E2; destruct Hw; constructor; cbn; rewrite ?E1, ?E2; done).
  destruct msg as [p|p|m|v]; cbn [accept foreign] in *.
  - destruct (bool_decide _); [by intros [= <- _]|]. intros ([bd err] & E & [= <- _])%outcome_bind_Ret.
    apply addPart_exchange in E as [E1 E2]. split_and!; try done. by apply Hdata.
  - destruct (bool_decide _); [by intros [= <- _]|]. intros (bz & _ & (ok & _ & E)%outcome_bind_Ret)%outcome_bind_Ret.
    destruct (negb ok); [by injection E as <- _|]. apply outcome_bind_Ret in E as ([bd err] & E & [= <- _]).
    apply addPartSetHeader_exchange in E as [E1 E2]. split_and!; try done. by apply Hdata.
  - unfold accept_csm. intros (last & _ & E)%outcome_bind_Ret. destruct (Shards _ !! _); [|by injection E as <- _].
    destruct (PrefixStore.HasSpecial _ _) as [[]|]; [by injection E as <- _| |by injection E as <- _].
    apply outcome_bind_Ret in E as (bz & _ & E). destruct (PrefixStore.SetSpecial _ _ _) as [db [er|]];
      [injection E as <- _; split_and!; try done; destruct Hw; by constructor|].
    cbn [block_data set_store] in E.
    destruct (finished _ !! _); [injection E as <- _; split_and!; try done; destruct Hw; by constructor|].
    destruct (bytes_Equal _ _); [|injection E as <- _; split_and!; try done; destruct Hw; by constructor].
    apply outcome_bind_Ret in E as (st1 & E & [= <- _]). apply extendHash_frame in E as (v & _ & ->).
    split_and!; try done. destruct Hw as [? ? Ho Hfin Hmiss]. constructor; try done; cbn; rewrite ?dom_insert; [set_solver..|].
    rewrite not_elem_of_union, not_elem_of_singleton. by split.
  - intros ([hs err] & E & [= <- _])%outcome_bind_Ret. apply AddVote_view in E as [E _].
    split_and!; try done. destruct Hw. by constructor.
Qed.

(** A node that processes messages one after the other; errors are ignored. *)
Definition run (fuel : nat) (st : St) (msgs : list Message) : outcome St :=
  foldM (λ st m, r ← doMessage now range fuel st m; match r with Some (st', _) => Ret st' | None => Panic end) msgs st.

Lemma doMessage_waiting (st st' : St) fuel msg e : waiting st → foreign st msg →
  doMessage now range (Datatypes.S fuel) st msg = Ret (Some (st', e)) →
  waiting st' ∧ ident st' = ident st ∧ view_of st' = view_of st ∧ sent st' = sent st.
Proof.
  intros Hw Hf. unfold doMessage. intros ([st1 e1] & E1 & E)%outcome_bind_Ret.
  destruct (accept_waiting st st1 msg e1 Hw Hf E1) as (Hw1 & Hi & Hv & Hs). destruct e1 as [e1|]; [by injection E as <- _|].
  rewrite quiet_returns in E; [by injection E as <- _|].
  left. split; [apply Hw1|by apply waiting_incomplete].
Qed.

Lemma run_waiting fuel msgs : ∀ st st' : St, waiting st → (∀ m, m ∈ msgs → foreign st m) →
  run (Datatypes.S fuel) st msgs = Ret st' → waiting st' ∧ view_of st' = view_of st ∧ sent st' = sent st.
Proof.
  induction msgs as [|m msgs IH]; intros st st' Hw Hf; unfold run; cbn [foldM]; [by intros [= <-]|].
  destruct (doMessage now range (Datatypes.S fuel) st m) as [[[st1 e]|]|] eqn:E; cbn [mbind outcome_bind]; try done.
  destruct (doMessage_waiting st st1 fuel m e Hw ltac:(apply Hf; by left) E) as (Hw1 & Hi & Hv & Hs).
  intros E'. destruct (IH st1 st' Hw1) as (? & ? & ?); [|done|split_and!; congruence].
  intros m' Hm'. assert (foreign st m') as Hfm by (apply Hf; by right). destruct m'; try done. cbn in *.
  assert (chain_id st1 = chain_id st) as -> by (unfold ident in Hi; congruence). done.
Qed.

(** A leader whose own vote already is a quorum never gets past its second
    proposal: after proposing it waits for the messages of all shards, its own
    included, but sends and records its own only when it passes through the
    voting step, which it skips.  No sequence of messages brings it further,
    unless one claims to come from the leader's own shard. *)
Theorem leader_stalls (st st1 st2 : St) fuel msgs
  (Hp : isProposer st = true) (Hs : step st = STEP_LEADER_WAIT)
  (Hown : chain_id st ∈ dom (lastHash (block_data st)))
  (Ht : turn st st1) (Hq : IsQuorum (HotStuffState st1) = Ret true)
  (Hf : ∀ m, m ∈ msgs → foreign st1 m) (Hr : run (Datatypes.S fuel) st1 msgs = Ret st2) :
  step st2 = STEP_LEADER_WAIT ∧ view_of st2 = view_of st1 ∧ sent st2 = sent st1 ∧
  view_of st1 = int64 (view_of st + 1).
Proof.
  assert (lastHash (block_data st) ≠ ∅) as Hl by (intros E; rewrite E, dom_empty in Hown; by apply not_elem_of_empty in Hown).
  destruct (wait_turn st st1 Hp Hs Hl Ht) as (Hp1 & Hquiet & Hv).
  assert (waiting st1) as Hw.
  { destruct Hquiet as [[Hs1 _]|[_ Hq']]; [|congruence].
    unfold turn, transition in Ht. rewrite Hs in Ht. destruct (isCrossShardMessageComplete _); [|done].
    apply outcome_bind_Ret in Ht as ([sta r] & Ea & Ht). apply outcome_bind_Ret in Ea as ([stb eb] & Eb & Ea).
    injection Ea as <- <-. destruct (doPropose_frame st stb eb Eb) as (Hi & He & _). destruct eb; [done|].
    apply leader_next in Ht as (_ & q & Hq' & ->); [|by rewrite (isProposer_ident st)].
    unfold exchange in He. apply pair_equal_spec in He as [Hfin Hlast]. constructor; try done; cbn; rewrite ?Hfin, ?Hlast.
    - assert (chain_id stb = chain_id st) as -> by (unfold ident in Hi; congruence). done.
    - rewrite dom_empty. set_solver.
    - rewrite dom_empty. set_solver. }
  destruct (run_waiting fuel msgs st1 st2 Hw Hf Hr) as (Hw2 & Hv2 & Hs2). split_and!; try done. apply Hw2.
Qed.

(** ** The invariant *)

Lemma count_held_some l : count_held (map Some l) = zlen l.
Proof. induction l as [|p l IH]; [done|]. rewrite zlen_cons. cbn. by rewrite IH. Qed.

(** The part set a proposer makes of its block. *)
Lemma PartSetFromBlock_ok b round b1 ps : PartSetFromBlock b max_part_size round = Ret (Some (b1, ps)) →
  set_ok ps ∧ pshView (psHeader ps) = hdView (bHeader b) ∧ pshRound (psHeader ps) = round ∧
  hdView (bHeader b1) = hdView (bHeader b) ∧ cached b1.
Proof.
  unfold PartSetFromBlock. intros ([b' bz] & Eb & E)%outcome_bind_Ret.
  assert (hdView (bHeader b') = hdView (bHeader b)) as Hv'.
  { unfold Block_ProtoBytes in Eb. apply outcome_bind_Ret in Eb as ([b2 pb] & Et & Eb).
    apply outcome_bind_Ret in Eb as (z & _ & [= <- _]). unfold Block_ToProto in Et.
    apply outcome_bind_Ret in Et as (b3 & Ef & (pf & _ & (cc & _ & [= <- _])%outcome_bind_Ret)%outcome_bind_Ret).
    by apply fillInHeader_filled, fl_view in Ef. }
  apply outcome_bind_Ret in E as ([chunks|] & _ & E); [|done].
  destruct (proofs_spec chunks) as (hs & proofs & Ep & Er & Hlen & Hpr). rewrite Ep in E. cbn [mbind outcome_bind] in E.
  destruct (make_parts_spec (ChainID (bHeader b')) (hdView (bHeader b')) round proofs chunks 0) as (l & El & Hb & Hl); [lia|].
  change 0 with (Z.of_nat 0) in E. rewrite El in E. cbn [mbind outcome_bind] in E.
  apply outcome_bind_Ret in E as ([b2 hash] & Eh & E).
  destruct (Block_Hash_caches _ _ _ Eh) as [Hc _]. destruct (Block_Hash_keeps _ _ _ Eh) as (Hv2 & Hch2 & _).
  apply (f_equal (λ o, match o with Ret (Some (x, y)) => (x, y) | _ => (b1, ps) end)) in E. cbn in E. injection E as <- <-.
  cbn [psHeader pshView pshRound]. split_and!; try congruence. constructor; [|by eapply root_size].
  constructor; cbn [psHeader pshTotal Parts psCount].
  - done.
  - by rewrite count_held_some; unfold zlen; rewrite length_map.
  - intros i p Hp. rewrite list_lookup_fmap in Hp. destruct (l !! i) as [q|] eqn:Hq; [|done]. injection Hp as <-.
    destruct (Hl i q Hq) as (H1 & H2 & H3 & H4). simpl in H4.
    assert (chunks !! i = Some (ptBytes q)) as Hck by (rewrite <- Hb, list_lookup_fmap, Hq; done).
    destruct (Hpr i _ Hck) as (sp & Hsp & Ht & Hx & V & _). rewrite H4 in Hsp. injection Hsp as <-.
    constructor; cbn; [exact Hx| |congruence..|exact V]. rewrite Ht. unfold zlen. by rewrite length_map, <- Hb, length_map.
Qed.

Abbreviation vw := (λ b : Block, hdView (bHeader b)).

Record cs_inv (st : St) : Prop := {
  ci_step : match step st with
            | STEP_NONE => True | STEP_VALIDATOR => isProposer st = false | _ => isProposer st = true end;
  ci_view : 0 ≤ view_of st;
  ci_pool : Forall cached (block_pool st);
  ci_len : (length (block_pool st) ≤ 7)%nat;
  ci_views : ∀ i j b c, (i < j)%nat → block_pool st !! i = Some b → block_pool st !! j = Some c → vw b < vw c;
  ci_last : ∀ b, b ∈ block_pool st → vw b ≤ view_of st ∧ (isProposer st = false → vw b < view_of st);
  ci_data : bd_inv (block_data st);
  ci_retain : retainView (block_data st) = view_of st ∧ retainRound (block_data st) = round_of st
}.

(** The pool part of the invariant, for a view. *)
Record pool_inv (pool : list Block) (strict : bool) (view : Z) : Prop := {
  pi_cached : Forall cached pool;
  pi_len : (length pool ≤ 7)%nat;
  pi_views : ∀ i j b c, (i < j)%nat → pool !! i = Some b → pool !! j = Some c → vw b < vw c;
  pi_last : ∀ b, b ∈ pool → vw b ≤ view ∧ (strict = true → vw b < view)
}.

Lemma cs_pool (st : St) : cs_inv st → pool_inv (block_pool st) (negb (isProposer st)) (view_of st).
Proof.
  intros I. constructor; [apply I..|]. intros b Hb. destruct (ci_last _ I b Hb) as [Hle Hs]. split; [exact Hle|].
  intros Hn. by apply Hs, negb_true_iff.
Qed.

Lemma pool_similar p1 p2 strict view : Forall2 similar p1 p2 → pool_inv p1 strict view → pool_inv p2 strict view.
Proof.
  intros Hs [Hc Hl Hv Hlast]. pose proof (Forall2_length Hs) as Hlen.
  assert (∀ i c, p2 !! i = Some c → ∃ b, p1 !! i = Some b ∧ similar b c) as Hb.
  { intros i c Hi. destruct (Forall2_lookup_r _ _ _ _ _ Hs Hi) as (b & ? & ?). by exists b. }
  constructor; [| by rewrite <- Hlen| |].
  - apply Forall_lookup. intros i c Hi. destruct (Hb i c Hi) as (b & Hi' & _ & Hcb). apply Hcb. by eapply Forall_lookup_1 in Hi'.
  - intros i j b c Hij Hi Hj. destruct (Hb i b Hi) as (b' & Hi' & -> & _). destruct (Hb j c Hj) as (c' & Hj' & -> & _).
    by apply (Hv i j).
  - intros c [i Hi]%list_elem_of_lookup. destruct (Hb i c Hi) as (b & Hi' & -> & _). apply Hlast.
    by eapply list_elem_of_lookup_2.
Qed.

Lemma pool_later pool strict view : pool_inv pool strict view → pool_inv pool true (view + 1).
Proof.
  intros [Hc Hl Hv Hlast]. constructor; try done. intros b Hb. destruct (Hlast b Hb) as [? _]. cbn in *. lia.
Qed.

(** Appending a block later than all others. *)
Lemma pool_append pool b view strict : pool_inv pool true view → cached b → vw b = view →
  pool_inv (trimmed pool b) false view ∧ pool_inv (trimmed pool b) strict (view + 1).
Proof.
  intros [Hc Hl Hv Hlast] Hb Hvb.
  set (front := if zlen pool =? 7 then drop 1 pool else pool).
  assert (∃ k, front = drop k pool) as [k Hk] by (unfold front; destruct (_ =? 7); [by exists 1%nat|by exists O]).
  assert (length front ≤ 6)%nat as Hlf.
  { unfold front. destruct (Z.eqb_spec (zlen pool) 7); rewrite ?length_drop; unfold zlen in *; lia. }
  assert (∀ c, c ∈ front → vw c < view) as Hfl.
  { intros c Hin. apply Hlast; [|done]. rewrite Hk in Hin. eapply elem_of_submseteq; [exact Hin|].
    apply sublist_submseteq, sublist_drop. }
  assert (∀ i j x y, (i < j)%nat → trimmed pool b !! i = Some x → trimmed pool b !! j = Some y → vw x < vw y) as Hord.
  { intros i j x y Hij Hx Hy. change (trimmed pool b) with (front ++ [b]) in Hx, Hy.
    apply lookup_app_Some in Hx as [Hx|[Hge Hx]].
    - apply lookup_app_Some in Hy as [Hy|[_ Hy]].
      + rewrite Hk, lookup_drop in Hx, Hy. apply (Hv (k + i)%nat (k + j)%nat); [lia|done..].
      + apply list_lookup_singleton_Some in Hy as [_ <-]. rewrite Hvb. apply Hfl. by eapply list_elem_of_lookup_2.
    - apply lookup_lt_Some in Hy. rewrite length_app in Hy. cbn in Hy. lia. }
  assert (∀ c, c ∈ trimmed pool b → vw c ≤ view) as Hle.
  { intros c [Hin| ->%list_elem_of_singleton]%elem_of_app; [apply Hfl in Hin; cbn in *; lia|cbn in *; lia]. }
  split; (constructor; [by apply trimmed_cached|change (trimmed pool b) with (front ++ [b]); rewrite length_app; cbn; lia|exact Hord|]);
    intros c Hin; specialize (Hle c Hin); cbn in *; (split; [lia|done || lia]).
Qed.

Lemma cs_intro (st : St) : match step st with
    | STEP_NONE => True | STEP_VALIDATOR => isProposer st = false | _ => isProposer st = true end →
  0 ≤ view_of st → pool_inv (block_pool st) (negb (isProposer st)) (view_of st) → bd_inv (block_data st) →
  retainView (block_data st) = view_of st ∧ retainRound (block_data st) = round_of st → cs_inv st.
Proof.
  intros Hs Hv [Hc Hl Ho Hlast] Hb Hr. constructor; try done. intros b Hin. destruct (Hlast b Hin) as [? Hst].
  split; [done|]. intros E. apply Hst. by rewrite E.
Qed.

(** *** Messages *)

Definition msg_ok (msg : Message) : Prop :=
  match msg with
  | GotPart p => Part_ValidateBasic p = None
  | GotProposal p => Proposal_ValidateBasic p = None
  | _ => True
  end.

Lemma accept_message_inv (st st' : St) msg e : cs_inv st → msg_ok msg → accept st msg = Ret (st', e) →
  cs_inv st' ∧ view_of st' = view_of st ∧ ident st' = ident st ∧ sent st' = sent st.
Proof.
  intros I Hok.
  assert (∀ bd, bd_inv bd → retainView bd = retainView (block_data st) → retainRound bd = retainRound (block_data st) →
    cs_inv (set_data st bd)) as Hdata.
  { intros bd Ib Ev Er. destruct I. constructor; try done. cbn. by rewrite Ev, Er. }
  destruct msg as [p|p|m|v]; cbn [accept msg_ok] in *.
  - destruct (bool_decide _); [by intros [= <- _]|]. intros ([bd err] & E & [= <- _])%outcome_bind_Ret.
    destruct (addPart_inv (block_data st) p (ci_data _ I) Hok) as (bd' & err' & E' & I' & V' & R').
    rewrite E in E'. injection E' as <- <-. split_and!; try done. by apply Hdata.
  - destruct (bool_decide _); [by intros [= <- _]|]. intros (bz & _ & (ok & _ & E)%outcome_bind_Ret)%outcome_bind_Ret.
    destruct (negb ok); [by injection E as <- _|]. apply outcome_bind_Ret in E as ([bd err] & E & [= <- _]).
    assert (PSH_ValidateBasic (prHeader p) = None) as Hh.
    { unfold Proposal_ValidateBasic in Hok. destruct (_ <? 0); [done|]. destruct (negb _); [done|].
      by destruct (PSH_ValidateBasic (prHeader p)). }
    destruct (addPartSetHeader_inv (block_data st) (prHeader p) (prBlockHeaderHash p) (ci_data _ I) Hh)
      as (bd' & err' & E' & I' & V' & R').
    rewrite E in E'. injection E' as <- <-. split_and!; try done. by apply Hdata.
  - unfold accept_csm. intros (last & _ & E)%outcome_bind_Ret. destruct (Shards _ !! _); [|by injection E as <- _].
    destruct (PrefixStore.HasSpecial _ _) as [[]|]; [by injection E as <- _| |by injection E as <- _].
    apply outcome_bind_Ret in E as (bz & _ & E). destruct (PrefixStore.SetSpecial _ _ _) as [db er].
    assert (cs_inv (set_store st db)) as Is by (destruct I; by constructor).
    destruct er as [er|]; [by injection E as <- _|].
    destruct (finished _ !! _); [by injection E as <- _|]. destruct (bytes_Equal _ _); [|by injection E as <- _].
    apply outcome_bind_Ret in E as (st1 & E & [= <- _]). apply extendHash_frame in E as (v & _ & ->).
    split_and!; try done. destruct I as [? ? ? ? ? ? [I1 I2] ?]. constructor; try done.
  - intros ([hs err] & E & [= <- _])%outcome_bind_Ret. apply AddVote_view in E as [Ev Er].
    split; [|done]. destruct I as [? Iv ? ? ? Il ? Ir]. unfold view_of, round_of in *.
    constructor; try done; unfold view_of, round_of; cbn; rewrite ?Ev, ?Er; done.
Qed.

(** *** Turns *)

(** The state but for its step. *)
Record cs_core (st : St) : Prop := {
  cc_view : 0 ≤ view_of st;
  cc_pool : pool_inv (block_pool st) (negb (isProposer st)) (view_of st);
  cc_data : bd_inv (block_data st);
  cc_retain : retainView (block_data st) = view_of st ∧ retainRound (block_data st) = round_of st
}.
Lemma cs_to_core (st : St) : cs_inv st → cs_core st.
Proof. intros I. constructor; [apply I|by apply cs_pool|apply I..]. Qed.
Lemma core_to_cs (st : St) : match step st with
    | STEP_NONE => True | STEP_VALIDATOR => isProposer st = false | _ => isProposer st = true end →
  cs_core st → cs_inv st.
Proof. intros Hs [? ? ? ?]. by apply cs_intro. Qed.

Lemma set_outputs_inv bd o : bd_inv bd → bd_inv (set_outputs bd o).
Proof. intros [I1 I2]. by constructor. Qed.

Lemma AddVote_core (st : St) hs v hs' e : cs_core (set_hotstuff st hs) → AddVote hs v = Ret (hs', e) →
  cs_core (set_hotstuff st hs').
Proof.
  intros [Hv Hp Hd Hr] E. apply AddVote_view in E as [Ev Er].
  constructor; unfold view_of, round_of in *; cbn in *; try done; by rewrite Ev, ?Er.
Qed.

Lemma append_core (st : St) b : cs_core st → isProposer st = true → cached b → vw b = view_of st →
  pool_inv (block_pool st) true (view_of st) → cs_core (append_block st b).
Proof.
  intros [Hv Hp Hd Hr] Hpr Hc Hvb Hpool. destruct (append_block_frame st b) as (Fh & Fd & _ & _ & Fp & Fi & _ & _).
  assert (view_of (append_block st b) = view_of st) as Ev by (unfold view_of; by rewrite Fh).
  assert (isProposer (append_block st b) = isProposer st) as Ep by (unfold isProposer; by rewrite Fp, Fi).
  constructor; rewrite ?Ev, ?Ep, ?Fd, ?append_block_pool; try done; [|by unfold round_of; rewrite Fh].
  rewrite Hpr. cbn [negb]. by apply (pool_append (block_pool st) b (view_of st) false).
Qed.

(** A leader in its new view, before its block is in the pool. *)
Lemma make_block_core (st st1 : St) opts b : cs_core st → isProposer st = true → view_of st < 2 ^ 63 - 1 →
  make_block now (enterNextView st) opts = Ret (st1, b) →
  cs_core st1 ∧ isProposer st1 = true ∧ cached b ∧ vw b = view_of st1 ∧ view_of st1 = view_of st + 1 ∧
  pool_inv (block_pool st1) true (view_of st1).
Proof.
  intros [Hv Hp Hd Hr] Hpr Hb Em.
  assert (int64 (view_of st + 1) = view_of st + 1) as Hw by (apply (wrapS_small 64); lia).
  destruct (make_block_frame _ _ _ _ Em) as (Ei & _ & Eh & Eb & Er & Err & Erp & Evb & Hc & (stf & h & Ef & Epool)).
  rewrite fetch_hash_cached in Ef by (lia || (cbn; apply Hp)). injection Ef as <- _.
  assert (view_of st1 = view_of st + 1) as Ev by (unfold view_of; rewrite Eh; unfold view_of in Hw; cbn; done).
  assert (isProposer st1 = true) as Hp1 by (by rewrite (isProposer_ident (enterNextView st))).
  assert (pool_inv (block_pool st1) true (view_of st1)) as Hpool.
  { rewrite Epool, Ev. cbn. by eapply pool_later. }
  split_and!; try done; [|by rewrite Evb, Ev; unfold view_of in *; cbn].
  constructor.
  - rewrite Ev. lia.
  - rewrite Hp1. cbn [negb]. destruct Hpool as [? ? ? Hl]. constructor; try done. intros c Hin. by split; [apply Hl|].
  - pose proof (next_inv (block_data st) (int64 (view_of st + 1)) 0 Hd) as [I1 I2].
    constructor; intros v r x; unfold old; rewrite ?Eb, ?Erp, Er, Err; [apply I1|apply I2].
  - rewrite Er, Err. cbn. rewrite Ev. unfold view_of, round_of in *. rewrite Eh. cbn. by rewrite Hw.
Qed.

Lemma doPropose_inv (st st' : St) e : cs_core st → isProposer st = true → view_of st < 2 ^ 63 - 1 →
  doPropose now st = Ret (st', e) → cs_core st' ∧ view_of st' = view_of st + 1.
Proof.
  intros C Hpr Hb E. split.
  2:{ destruct (doPropose_frame st st' e E) as (_ & _ & ->). apply (wrapS_small 64); [lia|]. pose proof (cc_view _ C). lia. }
  unfold doPropose in E. apply outcome_bind_Ret in E as ([st0 opts] & Ec & E). apply commit_frame in Ec.
  assert (cs_core st0) as C0 by (rewrite Ec; destruct C; by constructor).
  assert (isProposer st0 = true ∧ view_of st0 < 2 ^ 63 - 1) as [Hpr0 Hb0] by (by rewrite Ec).
  apply outcome_bind_Ret in E as ([st1 b] & Em & E).
  destruct (make_block_core st0 st1 opts b C0 Hpr0 Hb0 Em) as (C1 & Hp1 & Hc & Hvb & _ & Hpool). clear Em Ec C0 C Hb0 Hb.
  unfold addBlock in E. apply outcome_bind_Ret in E as (added & Ea & E).
  apply outcome_bind_Ret in Ea as ([[b1 ps]|] & Epb & Ea); [|by injection Ea as <-].
  destruct (PartSetFromBlock_ok _ _ _ _ Epb) as (Hset & _ & _ & Hv1 & Hc1).
  destruct (addPartSet (block_data st1) ps) as [bd er] eqn:Eadd. injection Ea as <-.
  assert (cs_core (set_data st1 bd)) as C2.
  { destruct C1 as [Hv Hp Hd Hr]. pose proof (addPartSet_inv (block_data st1) ps Hd Hset) as Hd'. rewrite Eadd in Hd'.
    constructor; try done. unfold addPartSet in Eadd. destruct (old _ _ _); [by injection Eadd as <- _|].
    by destruct (get2 _ _ _); injection Eadd as <- _. }
  destruct er as [er|]; [by injection E as <- _|].
  apply outcome_bind_Ret in E as ([b2 hash] & Eh & E).
  destruct (Block_Hash_caches _ _ _ Eh) as [Hc2 _]. destruct (Block_Hash_keeps _ _ _ Eh) as (Hv2 & _).
  apply outcome_bind_Ret in E as (msg & _ & E). apply outcome_bind_Ret in E as (pbz & _ & E).
  apply outcome_bind_Ret in E as (parts & _ & E). apply outcome_bind_Ret in E as ([b3 v] & Eg & E).
  apply outcome_bind_Ret in E as ([hs er] & Ev & E).
  match type of Ev with AddVote (HotStuffState ?s) v = _ => set (s2 := s) in * end.
  assert (cs_core (set_hotstuff s2 (HotStuffState s2))) as C3 by (destruct C2; by constructor).
  pose proof (AddVote_core s2 (HotStuffState s2) v hs er C3 Ev) as C4.
  destruct er as [er|]; [by injection E as <- _|].
  destruct (generate_vote_spec s2 b2 (HashPointer (bHeader b2)) true Hc2) as [(v' & Eg' & _)|Eg']; rewrite Eg in Eg'; [|done].
  injection Eg' as -> ->. apply AddVote_view in Ev as [Evw _].
  assert (cs_core (append_block (set_hotstuff s2 hs) b2)) as C5.
  { assert (view_of (set_hotstuff s2 hs) = view_of st1) as Evs by (unfold view_of; cbn; rewrite Evw; done).
    apply append_core; [done|done|done| |]; rewrite Evs; [cbn in *; congruence|done]. }
  apply outcome_bind_Ret in E as (mp & _ & (cmp & _ & [= <- _])%outcome_bind_Ret). destruct C5. by constructor.
Qed.

(** The end of a turn keeps the core and sets a step that fits the role. *)
Lemma turn_end (st st' : St) r : cs_core st →
  (s ← next_step st; (if isProposer (set_step st s) && ((EnablePipelineFlag (set_step st s) && (100 <? view_of (set_step st s))) ||
     (600 <? view_of (set_step st s))) then Panic else Ret (set_step st s, @None (option cs_error)))) = Ret (st', r) →
  cs_inv st' ∧ view_of st' = view_of st.
Proof.
  intros C (s & Es & E)%outcome_bind_Ret. destruct (_ && _); [done|]. injection E as <- _. split; [|done].
  unfold next_step in Es. destruct (isProposer st) eqn:Hp; cbn [negb] in Es.
  - apply outcome_bind_Ret in Es as (q & _ & [= <-]). apply core_to_cs; [by destruct q|]. destruct C. by constructor.
  - injection Es as <-. apply core_to_cs; [done|]. destruct C. by constructor.
Qed.

Lemma getBlock_ok (st : St) b : cs_core st →
  getBlock (block_data st) (view_of st) (round_of st) = Ret (Some b, None) → cached b ∧ vw b = view_of st.
Proof.
  intros C Hg. unfold getBlock in Hg. destruct (get2 _ _ _) as [ps|] eqn:Eps; [|done].
  destruct (IsComplete ps); [|done]. apply outcome_bind_Ret in Hg as ([ob er] & Eg & Hg). destruct er; [done|].
  injection Hg as ->. destruct (GenBlock_ok ps b Eg) as (Hv & _ & _ & b0 & _ & Eh).
  destruct (bi_blocks _ (cc_data _ C) _ _ _ Eps) as (Hv' & _). split; [by apply Block_Hash_caches in Eh as [? _]|].
  cbn. congruence.
Qed.

Lemma doValidate_core (st st' : St) b : cs_core st → isProposer st = false → view_of st < 2 ^ 63 - 1 →
  cached b → vw b = view_of st → doValidate st b = Ret st' →
  cs_core st' ∧ view_of st ≤ view_of st' ≤ view_of st + 1.
Proof.
  intros C Hpr Hb Hc Hvb Ed.
  assert (int64 (view_of st + 1) = view_of st + 1) as Hw by (pose proof (cc_view _ C); apply (wrapS_small 64); lia).
  destruct (doValidate_spec st b st' (pi_cached _ _ _ (cc_pool _ C)) Hc Ed) as (v & bz & _ & _ & _ & _ & _ & F3 & F4 & _ & Hok & Hbad).
  destruct (decide (block_ok st b = None)) as [Eb|Eb].
  - destruct (Hok Eb) as (Eh & Ebd & Epool).
    assert (view_of st' = view_of st + 1) as Ev by (unfold view_of in *; rewrite Eh; cbn; done).
    split; [|lia]. assert (isProposer st' = false) as Hpr' by (unfold isProposer in *; congruence).
    constructor.
    + pose proof (cc_view _ C). lia.
    + rewrite Hpr', Ev, Epool. destruct C as [_ Hp _ _]. rewrite Hpr in Hp. by apply (pool_append (block_pool st) b (view_of st) true).
    + rewrite Ebd. apply next_inv, C.
    + rewrite Ebd. cbn. unfold view_of, round_of in *. rewrite Eh. done.
  - rewrite (Hbad Eb). split; [|unfold view_of; cbn; lia]. destruct C. by constructor.
Qed.

Lemma transition_inv (st st' : St) r : cs_inv st → view_of st < 2 ^ 63 - 1 → transition now range st = Ret (st', r) →
  cs_inv st' ∧ view_of st ≤ view_of st' ≤ view_of st + 1.
Proof.
  intros I Hb. pose proof (cs_to_core st I) as C. pose proof (ci_step _ I) as Hs. unfold transition.
  intros ([st1 res] & E1 & E)%outcome_bind_Ret.
  assert (match res with
          | Some _ => cs_inv st1 ∧ view_of st ≤ view_of st1 ≤ view_of st + 1
          | None => cs_core st1 ∧ view_of st ≤ view_of st1 ≤ view_of st + 1 end) as Hmain.
  { destruct (step st) eqn:Est.
    - injection E1 as <- <-. split; [done|lia].
    - destruct (isComplete _ _ _); [|injection E1 as <- <-; split; [done|lia]].
      apply outcome_bind_Ret in E1 as ([ob er] & Eg & E1). destruct er as [er|]; [injection E1 as <- <-; split; [done|lia]|].
      apply outcome_bind_Ret in E1 as (b & ->%deref_Ret & (st2 & Ed & [= <- <-])%outcome_bind_Ret).
      destruct (getBlock_ok st b C Eg) as [Hc Hvb]. by eapply doValidate_core.
    - destruct (IsQuorum (HotStuffState st)) as [q|]; [|done]. cbn [mbind outcome_bind] in E1.
      destruct q; [|injection E1 as <- <-; split; [done|lia]].
      apply outcome_bind_Ret in E1 as ([st2 er] & Ec & [= <- <-]).
      destruct (communicate_frame st st2 er Ec) as (Sm & Ev & Er & _).
      assert (cs_core st2 ∧ view_of st2 = view_of st) as [C2 V2].
      { destruct Sm as [Hi _ _ Hd [Hr1 Hr2] Hp]. destruct C as [Cv Cp Cd [Cr1 Cr2]].
        assert (isProposer st2 = isProposer st) as Hpr by (by apply (isProposer_ident st)).
        split; [|done]. cbn in Hr1, Hr2. constructor.
        - unfold view_of at 1. rewrite Ev. done.
        - rewrite Hpr. unfold view_of at 1. rewrite Ev. by eapply pool_similar.
        - by apply Hd.
        - unfold view_of, round_of in *. rewrite Hr1, Hr2, Ev, Er. done. }
      destruct er as [er|]; (split; [|lia]); [|done]. apply core_to_cs; [|done].
      assert (step st2 = step st ∧ isProposer st2 = isProposer st) as [Es2 Hp2].
      { destruct Sm as [Hi _ _ _ _ _]. split; [unfold ident in Hi; cbn in Hi; congruence|by apply (isProposer_ident st)]. }
      by rewrite Es2, Est, Hp2.
    - destruct (isCrossShardMessageComplete _); [|injection E1 as <- <-; split; [done|lia]].
      apply outcome_bind_Ret in E1 as ([st2 er] & Ed & [= <- <-]).
      destruct (doPropose_inv st st2 er C Hs Hb Ed) as [C2 V2]. destruct (doPropose_frame st st2 er Ed) as (Hi & _).
      destruct er as [er|]; (split; [|lia]); [|done]. apply core_to_cs; [|done].
      assert (step st2 = step st) as -> by (unfold ident in Hi; congruence). rewrite Est. by rewrite (isProposer_ident st). }
  destruct res as [r'|]; [by injection E as <- _|]. destruct Hmain as [C1 Hv]. apply turn_end in E as [I' V']; [|done].
  split; [done|]. by rewrite V'.
Qed.

(** One step of a node: a received message is taken in, or the handler turns. *)
Inductive cs_step (st st' : St) : Prop :=
| step_message msg e : msg_ok msg → accept st msg = Ret (st', e) → cs_step st st'
| step_turn r : transition now range st = Ret (st', r) → cs_step st st'.

(** C4. The invariant of the consensus state, over every message received and every
    turn of the handler, errors included, in whatever order: the node is in a
    step of its role, its view never decreases and moves one at a time, it
    keeps at most seven blocks, all hashed, with strictly increasing views none
    of which exceeds its view (for a validator: reaches it), and the block data
    is in the view's position and keeps its own invariant. *)
Theorem consensus_invariant (st st' : St)
  (I : cs_inv st) (Hb : view_of st < 2 ^ 63 - 1) (Hstep : cs_step st st') :
  cs_inv st' ∧ view_of st ≤ view_of st' ≤ view_of st + 1.
Proof.
  destruct Hstep as [msg e Hok E|r E]; [|by eapply transition_inv].
  destruct (accept_message_inv st st' msg e I Hok E) as (I' & -> & _). split; [done|lia].
Qed.

(** The state a node starts from. *)
Lemma NewState_inv (sg : Signer) index info chain mp cmp (app : X) (db : S) maxb maxc st :
  NewState 0 0 sg index info chain mp cmp app db maxb maxc = Ret (Some st) → cs_inv st.
Proof.
  unfold NewState. intros (shard & _ & E)%outcome_bind_Ret. destruct (NewVerifier _); [|done].
  apply (f_equal (λ o, match o with Ret (Some s) => s | _ => st end)) in E. cbn in E. subst st.
  constructor; try done; cbn; [lia|by intros b Hb%not_elem_of_nil].
Qed.

End ConsensusProofs.
