(* ===== verification/ConsensusDemo.v ===== *)
(** * Concrete consensus runs

    A one-shard system on the instances of [UrdDemo]: a leader that is its
    shard's only validator, and a validator that holds the complete parts of a
    block it cannot link to its pool. *)

From stdpp Require Import base list gmap strings numbers.
From Stdlib Require Import ZArith Lia.
From S2P Require Import Prelude Convert BitVector Hash Merkle Wire Signer HotStuff HotStuffProofs Store UrdTypes BlockProofs CrossShard ShardInfo BlockWire BlockPart BlockData UrdDemo CList Mempool Consensus ConsensusProofs.

#[local] Existing Instance demo_urd_wire.
#[local] Existing Instance demo_part_wire.
#[local] Existing Instance cheap_hash.
#[local] Existing Instance LinearBLS.linear_BLS.
#[local] Existing Instance map_store.

(** An application without state that outputs nothing. *)
#[local] Instance idle : ABCIConn unit := λ x _ _ _, Ret (x, [[]]).

Abbreviation DemoState := (State (S := gmap bytes bytes) (X := unit)).
Definition noon : nat → GoTime := λ _, {| unix := 1700000000; nsec := 0 |}.
Definition keys_of (m : gmap string bytes) : list string := map fst (map_to_list m).

Definition peer_of (sk : Z) : Peer := NewPeer "10.0.0.1" ∅ (LinearBLS.ser sk) 1.
Definition info_of (sks : list Z) : ShardInfo :=
  {| Shards := {["s1" := {| PeerList := map peer_of sks; TotalVotes := zlen sks; LeaderIndex := 0;
                            KeyRange := "a,z"; verifier := None |}]};
     ShardIDList := ["s1"] |}.
Definition signer_of (sk : Z) : Signer := @Build_Signer LinearBLS.linear_BLS sk.

Definition node (view : Z) (sks : list Z) (index : Z) (sk : Z) : DemoState :=
  match NewState (X := unit) view 0 (signer_of sk) index (info_of sks) "s1" (NewMempool false) (NewMempool true)
          tt (∅ : gmap bytes bytes) 4096 4096 with
  | Ret (Some st) => st
  | _ =>
    {| EnablePipelineFlag := false; HotStuffState := HotStuff.NewState 0 0 0 (@Build_Verifier LinearBLS.linear_BLS []) [];
       mempool := NewMempool false; cross_shard_mempool := NewMempool true; abci := tt; store := ∅; step := STEP_NONE;
       signer := signer_of 1; signerIndex := 0; proposerIndex := 0; sverifier := @Build_Verifier LinearBLS.linear_BLS [];
       block_data := NewBlockData 0 0 ∅ ∅; shard_info := info_of []; chain_id := "s1"; block_pool := [];
       max_bytes := 0; max_cross_shard_bytes := 0; sent := []; ticks := O |}
  end.

Definition is_ret_some {A} (m : outcome (option A)) : bool := match m with Ret (Some _) => true | _ => false end.
Lemma node_inv sks index sk : is_ret_some (NewState (X := unit) 0 0 (signer_of sk) index (info_of sks) "s1"
    (NewMempool false) (NewMempool true) tt (∅ : gmap bytes bytes) 4096 4096) = true → cs_inv (node 0 sks index sk).
Proof.
  unfold node. destruct (NewState _ _ _ _ _ _ _ _ _ _ _ _) as [[st|]|] eqn:E; cbn [is_ret_some]; [|done|done].
  intros _. by eapply NewState_inv.
Qed.

(** ** A shard with one validator *)

Definition alone0 : DemoState := node 0 [3] 0 3.
Definition alone1 : DemoState :=
  match Start noon keys_of 4 alone0 with Ret (Some st) => st | _ => alone0 end.

Example alone1_proposed : view_of alone1 = 1 ∧ step alone1 = STEP_LEADER_VOTE ∧ zlen (sent alone1) = 2 ∧
  isProposer alone1 = true.
Proof. vm_compute. done. Qed.

(** The first turn exchanges messages, the second proposes again. *)
Definition turned (st : DemoState) : DemoState :=
  match transition noon keys_of st with Ret (st', None) => st' | _ => st end.
Definition has_turn (st : DemoState) : bool :=
  match transition noon keys_of st with Ret (_, None) => true | _ => false end.
Lemma has_turn_eq (st : DemoState) : has_turn st = true → turn noon keys_of st (turned st).
Proof. unfold has_turn, turn, turned. by destruct (transition noon keys_of st) as [[st' [r|]]|]. Qed.

Definition alone2 : DemoState := turned alone1.
Definition alone3 : DemoState := turned alone2.
Lemma alone1_turn : turn noon keys_of alone1 alone2.
Proof. apply has_turn_eq. vm_compute. reflexivity. Qed.
Lemma alone2_turn : turn noon keys_of alone2 alone3.
Proof. apply has_turn_eq. vm_compute. reflexivity. Qed.

Definition some_vote : Message := GotVote (NewVote 2 0 [] [] 0).
Definition received (st : DemoState) (m : Message) : DemoState :=
  match run noon keys_of 1 st [m] with Ret st' => st' | Panic => st end.
Definition receives (st : DemoState) (m : Message) : bool :=
  match run noon keys_of 1 st [m] with Ret _ => true | Panic => false end.
Lemma receives_eq (st : DemoState) m : receives st m = true → run noon keys_of 1 st [m] = Ret (received st m).
Proof. unfold receives, received. by destruct (run noon keys_of 1 st [m]). Qed.
Definition after_vote : DemoState := received alone3 some_vote.
Lemma after_vote_eq : run noon keys_of 1 alone3 [some_vote] = Ret after_vote.
Proof. apply receives_eq. vm_compute. reflexivity. Qed.

Lemma own_shard : chain_id alone2 ∈ dom (lastHash (block_data alone2)).
Proof. apply elem_of_dom. apply (bool_decide_eq_true_1 (is_Some _)). vm_compute. reflexivity. Qed.

Lemma leader_stalls_witness : step after_vote = STEP_LEADER_WAIT ∧ view_of after_vote = view_of alone3.
Proof.
  destruct (leader_stalls noon keys_of alone2 alone3 after_vote 0 [some_vote]) as (H1 & H2 & _).
  - vm_compute. reflexivity.
  - vm_compute. reflexivity.
  - exact own_shard.
  - exact alone2_turn.
  - vm_compute. reflexivity.
  - intros m Hm. apply list_elem_of_singleton in Hm as ->. exact I.
  - exact after_vote_eq.
  - split; [exact H1|exact H2].
Defined.

Lemma leader_terminates_witness : isProposer alone1 = true ∧ handle_state_transition noon keys_of 4 alone1 ≠ Ret None.
Proof.
  split; [vm_compute; reflexivity|].
  apply (leader_terminates noon keys_of alone1 0).
  - vm_compute. reflexivity.
  - vm_compute. discriminate.
  - intros E. assert (base.size (lastHash (block_data alone1)) = 1%nat) as Hz by (vm_compute; reflexivity).
    rewrite E in Hz. vm_compute in Hz. discriminate.
Defined.

Lemma alone0_inv : cs_inv alone0.
Proof. apply node_inv. vm_compute. reflexivity. Qed.
Definition follower0 : DemoState := node 0 [3; 5; 7] 1 5.
Lemma consensus_invariant_witness : cs_inv (turned follower0) ∧ step (turned follower0) = STEP_VALIDATOR.
Proof.
  split; [|vm_compute; reflexivity].
  refine (proj1 (consensus_invariant noon keys_of follower0 (turned follower0) _ _ _)).
  - apply node_inv. vm_compute. reflexivity.
  - vm_compute. reflexivity.
  - apply (step_turn noon keys_of _ _ None). apply has_turn_eq. vm_compute. reflexivity.
Defined.

(** ** A validator with a block it cannot accept *)

Definition follower6 : DemoState :=
  let st := node 6 [3; 5] 1 5 in
  set_step (set_data st (fst (addPartSet (block_data st) set6))) STEP_VALIDATOR.

Definition gen_ok (m : outcome (option Block * option bd_error)) : bool :=
  match m with Ret (Some b, None) => negb (zlen (hd_hash (bHeader b)) =? 0) | _ => false end.
Lemma gen_ok_eq m : gen_ok m = true → ∃ b, m = Ret (Some b, None) ∧ cached b.
Proof.
  destruct m as [[[b|] [e|]]|]; cbn; try done. intros Hz. exists b. split; [done|]. intros E. by rewrite E in Hz.
Qed.

Lemma follower6_stuck : stuck follower6.
Proof.
  constructor; [vm_compute; reflexivity..|vm_compute; constructor|].
  destruct (gen_ok_eq (getBlock (block_data follower6) (view_of follower6) (round_of follower6))) as (b & Eb & Hc);
    [vm_compute; reflexivity|].
  exists b. split; [done|]. split; [vm_compute; reflexivity|]. split; [done|].
  assert (match getBlock (block_data follower6) (view_of follower6) (round_of follower6) with
          | Ret (Some b, None) => bool_decide (block_ok follower6 b ≠ None) | _ => false end = true) as Hk
    by (vm_compute; reflexivity).
  rewrite Eb in Hk. by apply bool_decide_eq_true in Hk.
Qed.

Lemma demo_votes_marshal : votes_marshal.
Proof. intros m _. eexists. reflexivity. Qed.

Lemma follower6_validator : validator follower6.
Proof. constructor; [vm_compute; reflexivity..|vm_compute; constructor|vm_compute; split; [discriminate|reflexivity]]. Qed.

Lemma validator_diverges_iff_witness : validator follower6 ∧
  ∀ fuel, handle_state_transition noon keys_of fuel follower6 = Ret None.
Proof.
  split; [exact follower6_validator|].
  apply (proj1 (validator_diverges_iff noon keys_of follower6 follower6_validator demo_votes_marshal)).
  exists follower6. split; [apply rtc_refl|apply follower6_stuck].
Defined.

Definition runs (m : outcome DemoState) : bool := match m with Ret _ => true | Panic => false end.
Lemma validator_vote_witness : ∃ b st' v bz, doValidate follower6 b = Ret st' ∧
  sent st' = sent follower6 ++ [ToPeer "s1" 0 bz MVote] ∧ Vote_ProtoBytes v = Ret bz.
Proof.
  destruct (Block_Hash block6) as [[b h]|] eqn:Eh; [|exfalso; vm_compute in Eh; discriminate].
  destruct (Block_Hash_caches block6 b h Eh) as [Hc _].
  destruct (doValidate follower6 b) as [st'|] eqn:Ed.
  - destruct (validator_vote follower6 b st') as (v & bz & ok & _ & Hbz & Hs & _);
      [vm_compute; constructor|exact Hc|exact Ed|].
    exists b, st', v, bz. split; [exact Ed|]. split; [exact Hs|exact Hbz].
  - exfalso. assert (match Block_Hash block6 with Ret (b, _) => runs (doValidate follower6 b) | Panic => false end = true) as Hr
      by (vm_compute; reflexivity).
    rewrite Eh, Ed in Hr. discriminate.
Defined.

(** ** Parts before their proposal *)

Definition data0 : BlockData := NewBlockData 6 0 ∅ ∅.
Definition valid_parts (l : list Part) : bool := forallb (λ p, bool_decide (Part_ValidateBasic p = None)
  && (ptView p =? 6) && (ptRound p =? 0)) l.
Lemma valid_parts_ok l p : valid_parts l = true → p ∈ l → ptView p = 6 ∧ ptRound p = 0 ∧ Part_ValidateBasic p = None.
Proof.
  unfold valid_parts. rewrite forallb_forall. intros Hv Hp%list_elem_of_In%Hv.
  apply andb_true_iff in Hp as [[Hb Hv6]%andb_true_iff Hr].
  apply bool_decide_eq_true in Hb. apply Z.eqb_eq in Hv6, Hr. done.
Qed.
Lemma valid_ops l op : valid_parts l = true → op ∈ map OpPart l → op_ok op.
Proof.
  intros Hv Hop%list_elem_of_In. apply in_map_iff in Hop as (p & <- & Hp%list_elem_of_In). by apply (valid_parts_ok l).
Qed.
Lemma parts6_valid : valid_parts parts6 = true.
Proof. vm_compute. reflexivity. Qed.
Lemma set6_header : pshView (psHeader set6) = 6 ∧ pshRound (psHeader set6) = 0.
Proof. vm_compute. done. Qed.

Lemma proposal_order_irrelevant_witness :
  ∃ bd1 bd2, replay data0 parts6 = Ret bd1 ∧ addPartSetHeader bd1 (psHeader set6) hash5 = Ret (bd2, None).
Proof.
  destruct set6_header as [Hv Hr].
  destruct (proposal_order_irrelevant data0 (psHeader set6) hash5 parts6 []) as (bd1 & bd2 & _ & _ & _ & _ & E1 & E2 & _).
  - apply NewBlockData_inv.
  - vm_compute. reflexivity.
  - vm_compute. reflexivity.
  - vm_compute. reflexivity.
  - intros p. rewrite app_nil_r, Hv, Hr. exact (valid_parts_ok parts6 p parts6_valid).
  - exists bd1, bd2. split; [exact E1|exact E2].
Defined.

Lemma BlockData_invariant_witness :
  ∃ bd, foldM bd_run (OpHeader (psHeader set6) hash5 :: map OpPart parts6 ++ [OpNext 7 0]) data0 = Ret bd ∧ bd_inv bd.
Proof.
  destruct (BlockData_invariant 6 0 ∅ ∅ (OpHeader (psHeader set6) hash5 :: map OpPart parts6 ++ [OpNext 7 0]))
    as (bd & E & I & _).
  - intros op Hop. apply elem_of_cons in Hop as [->|Hop]; [vm_compute; reflexivity|].
    apply elem_of_app in Hop as [Hop|Hop]; [|apply list_elem_of_singleton in Hop as ->; exact I].
    exact (valid_ops parts6 op parts6_valid Hop).
  - exists bd. split; [exact E|exact I].
Defined.
