(* ===== verification/Latency.v ===== *)
(** * The latency report of Urd

    Models the loop of [source/urd/abci/minibank/main/main.go]: over the periods
    the log reports ([BlockLog.v]) it reads every block and its successor from
    the node's database, and adds up the times from the creation of a
    transaction to the block after its own.  The loop over the heights serves
    Pyramid's report too.  The averages printed at the end are floating-point
    quotients of these sums and are left out. *)

From stdpp Require Import base list gmap strings numbers pretty.
From Stdlib Require Import ZArith Lia.
From S2P Require Import Prelude Convert Hash Merkle Wire RangeList Text Signer BlockLog HotStuff Store Receipt UrdTypes Bank BankTheorems UrdDemo.

(** ** The report *)

(** [t.Sub(u)]: the nanoseconds between two times, at most the largest and at
    least the smallest duration. *)
Definition time_Sub (t u : GoTime) : Z :=
  Z.max (- 2 ^ 63) (Z.min (2 ^ 63 - 1) ((unix t - unix u) * 10 ^ 9 + (nsec t - nsec u))).

Record latency := { innerShardTxCount : Z; crossShardTxCount : Z; innerShardLatencyCount : Z; crossShardLatencyCount : Z }.
Definition no_latency : latency := {| innerShardTxCount := 0; crossShardTxCount := 0; innerShardLatencyCount := 0; crossShardLatencyCount := 0 |}.

(** ** The heights visited

    The report of Urd and that of Pyramid ([PyrLatency.v]) differ in what they add
    for a height. *)
Section Visit.
Context (height_step : latency → Z → outcome latency).

(** The two loops over the periods: [blockRangeB[i]] panics when there are more
    starts than ends. *)
Definition period_latency (starts ends : list Z) (acc : latency) (i : Z) : outcome latency :=
  start ← idx starts i;
  end_ ← idx ends i;
  foldM height_step (seqZ start (end_ - start + 1)) acc.
Definition measure (starts ends : list Z) : outcome latency :=
  foldM (period_latency starts ends) (seqZ 0 (zlen starts)) no_latency.
(** The report on the events of a log: what [height_step] adds for every height of
    its periods. *)
Definition visit (events : list ConsensusEvent) : outcome latency :=
  '(blockRangeA, blockRangeB) ← NoneZeroPeriods events;
  measure blockRangeA blockRangeB.

Definition busy_heights (h0 : Z) (totals : list Z) : list Z :=
  map fst (List.filter (λ ht, negb (snd ht =? 0)) (zip (seqZ h0 (zlen totals)) totals)).
Definition heights_of (starts ends : list Z) : list Z := concat (zip_with (λ s e, seqZ s (e - s + 1)) starts ends).
Lemma heights_snoc starts ends s e : length starts = length ends →
  heights_of (starts ++ [s]) (ends ++ [e]) = heights_of starts ends ++ seqZ s (e - s + 1).
Proof. intros Hl. unfold heights_of. rewrite zip_with_app by done. rewrite concat_app. cbn. by rewrite app_nil_r. Qed.
Lemma seqZ_one x : seqZ x 1 = [x].
Proof. rewrite seqZ_cons by lia. done. Qed.
Lemma zip_seq_snoc h0 totals (t : Z) : zip (seqZ h0 (zlen (totals ++ [t]))) (totals ++ [t]) = zip (seqZ h0 (zlen totals)) totals ++ [(h0 + zlen totals, t)].
Proof.
  rewrite zlen_app. change (zlen [t]) with 1. pose proof (zlen_nonneg totals). rewrite seqZ_app by lia.
  rewrite zip_with_app by (rewrite length_seqZ; unfold zlen; lia). done.
Qed.
Lemma busy_heights_snoc h0 totals t : busy_heights h0 (totals ++ [t]) = busy_heights h0 totals ++ if t =? 0 then [] else [h0 + zlen totals].
Proof.
  unfold busy_heights. rewrite zip_seq_snoc, List.filter_app, map_app. cbn. by destruct (t =? 0).
Qed.
Lemma busy_heights_elem h0 totals h : h ∈ busy_heights h0 totals ↔ busy h0 totals h.
Proof.
  induction totals as [|t totals IH] using rev_ind; [split; [by intros ?%elem_of_nil|by intros (k & t & Hk & _)]|].
  rewrite busy_heights_snoc, elem_of_app, IH, busy_snoc. destruct (Z.eqb_spec t 0) as [->|Ht].
  - rewrite elem_of_nil. naive_solver.
  - rewrite list_elem_of_singleton. naive_solver.
Qed.
Lemma busy_heights_NoDup h0 totals : base.NoDup (busy_heights h0 totals).
Proof.
  induction totals as [|t totals IH] using rev_ind; [apply NoDup_nil_2|]. rewrite busy_heights_snoc. apply list.NoDup_app. split; [done|].
  destruct (t =? 0); [split; [by intros ???%elem_of_nil|apply NoDup_nil_2]|]. split; [|apply NoDup_singleton].
  intros h Hh%busy_heights_elem%busy_range ->%list_elem_of_singleton. lia.
Qed.
(** The closed periods and the open one up to now. *)
Definition visited_ok (h0 : Z) (totals : list Z) (acc : list Z * list Z * bool) : Prop :=
  let '(starts, ends, stateMachine) := acc in
  if stateMachine : bool then
    ∃ s0 s, starts = s0 ++ [s] ∧ length s0 = length ends ∧ s < h0 + zlen totals ∧
      busy_heights h0 totals = heights_of s0 ends ++ seqZ s (h0 + zlen totals - s)
  else length starts = length ends ∧ busy_heights h0 totals = heights_of starts ends.
Lemma visited_step h0 totals t acc : visited_ok h0 totals acc → visited_ok h0 (totals ++ [t]) (pstep acc (h0 + zlen totals, t)).
Proof.
  destruct acc as [[starts ends] [|]]; unfold visited_ok, pstep; cbn [andb negb fst snd]; rewrite busy_heights_snoc.
  - intros (s0 & s & -> & Hl & Hs & Hb). rewrite Hb. destruct (Z.eqb_spec t 0) as [->|Ht].
    + rewrite !length_app, Hl. split; [done|]. rewrite heights_snoc by done. rewrite app_nil_r. do 2 f_equal. lia.
    + exists s0, s. rewrite zlen_app. change (zlen [t]) with 1. split_and!; [done|done|lia|]. rewrite <- app_assoc. f_equal.
      replace (h0 + (zlen totals + 1) - s) with ((h0 + zlen totals - s) + 1) by lia. rewrite seqZ_app by lia. f_equal. rewrite seqZ_one. f_equal. lia.
  - intros (Hl & Hb). rewrite Hb. destruct (Z.eqb_spec t 0) as [->|Ht]; cbn [negb]; [by rewrite app_nil_r|].
    exists starts, (h0 + zlen totals). rewrite zlen_app. change (zlen [t]) with 1. split_and!; [done|done|lia|]. f_equal.
    replace (h0 + (zlen totals + 1) - (h0 + zlen totals)) with 1 by lia. by rewrite seqZ_one.
Qed.
Lemma visited_all h0 totals : visited_ok h0 totals (foldl pstep ([], [], false) (zip (seqZ h0 (zlen totals)) totals)).
Proof.
  induction totals as [|t totals IH] using rev_ind; [done|]. rewrite zip_seq_snoc, foldl_app. cbn. by apply visited_step.
Qed.

Lemma measure_heights starts ends : length starts = length ends →
  measure starts ends = foldM height_step (heights_of starts ends) no_latency.
Proof.
  intros Hl. unfold measure, heights_of. generalize no_latency. revert ends Hl.
  assert (∀ pre pre' ends, length pre = length pre' → length starts = length ends → ∀ acc,
    foldM (period_latency (pre ++ starts) (pre' ++ ends)) (seqZ (zlen pre) (zlen starts)) acc =
    foldM height_step (concat (zip_with (λ s e, seqZ s (e - s + 1)) starts ends)) acc) as Hall.
  { induction starts as [|s starts IH]; intros pre pre' [|e ends] Hp Hl acc; try done. rewrite zlen_cons, seqZ_cons by (pose proof (zlen_nonneg starts); lia).
    cbn [foldM zip_with concat]. rewrite foldM_app. unfold period_latency at 1. rewrite idx_app_mid. replace (zlen pre) with (zlen pre') by (unfold zlen; lia).
    rewrite idx_app_mid. cbn [mbind outcome_bind]. destruct (foldM _ (seqZ s (e - s + 1)) acc) as [acc'|]; [|done]. cbn [mbind outcome_bind].
    change (s :: starts) with ([s] ++ starts). change (e :: ends) with ([e] ++ ends). rewrite !app_assoc.
    replace (Z.succ (zlen pre')) with (zlen (pre ++ [s])) by (rewrite zlen_app; change (zlen [s]) with 1; unfold zlen; lia).
    replace (Z.pred (1 + zlen starts)) with (zlen starts) by lia. rewrite IH; [done|rewrite !length_app; cbn; lia|cbn in Hl; lia]. }
  intros ends Hl acc. by apply (Hall [] [] ends).
Qed.
(** The report visits exactly the heights with transactions, each once and in
    order. *)
Lemma visit_heights events h0 totals l : log_heights events h0 totals l →
  visit events = foldM height_step (busy_heights h0 totals) no_latency.
Proof.
  intros Hlog. unfold visit. rewrite (NoneZeroPeriods_eq events h0 totals l Hlog). cbn [mbind outcome_bind]. pose proof (visited_all h0 totals) as Hok.
  destruct (foldl _ _ _) as [[starts ends] [|]]; unfold visited_ok in Hok.
  - destruct Hok as (s0 & s & -> & Hl & Hs & ->). rewrite measure_heights by (rewrite !length_app, Hl; done). rewrite heights_snoc by done. do 3 f_equal. lia.
  - destruct Hok as [Hl ->]. by apply measure_heights.
Qed.

End Visit.

(** ** Urd *)

Section Report.
Context {S : Type} {KV : KVStore S} {W : UrdWire} {C : BankCodec}.

(** One transaction: the sum and the number so far. *)
Definition tx_latency (commitTime : GoTime) (acc : Z * Z) (txBytes : bytes) : outcome (Z * Z) :=
  r ← NewTransferTxFromBytes txBytes;
  match r with
  | inr _ => Ret acc
  | inl tx =>
      let created := ThirdPartyUnmarshalTime (Some {| Seconds := fst (Bank.Time tx); Nanos := snd (Bank.Time tx) |}) in
      Ret (int64 (fst acc + time_Sub commitTime created), int64 (snd acc + 1))
  end.
(** The block of a height.  A block that is not stored is read from no bytes;
    [Ret None] skips the height. *)
Definition block_at (db : S) (height : Z) (chain_id : string) : outcome (option Block) :=
  match PrefixStore.GetBlockByHeight db height chain_id with
  | inr _ => Ret None
  | inl bz => NewBlockFromBytes (sbytes bz)
  end.
(** The successor is skipped when it is not stored. *)
Definition next_block_at (db : S) (height : Z) (chain_id : string) : outcome (option Block) :=
  match PrefixStore.GetBlockByHeight db height chain_id with
  | inr _ | inl None => Ret None
  | inl (Some bz) => NewBlockFromBytes bz
  end.
Definition height_latency (db : S) (chain_id : string) (acc : latency) (j : Z) : outcome latency :=
  b ← block_at db j chain_id;
  match b with
  | None => Ret acc
  | Some block =>
      n ← next_block_at db (j + 1) chain_id;
      match n with
      | None => Ret acc
      | Some blockNext =>
          let commitTime := hdTime (bHeader blockNext) in
          '(l1, n1) ← foldM (tx_latency commitTime) (txs_list (PTXS block)) (innerShardLatencyCount acc, innerShardTxCount acc);
          '(l2, n2) ← foldM (tx_latency commitTime) (txs_list (CrossShardTxs block)) (crossShardLatencyCount acc, crossShardTxCount acc);
          Ret {| innerShardTxCount := n1; crossShardTxCount := n2; innerShardLatencyCount := l1; crossShardLatencyCount := l2 |}
      end
  end.
(** The report on the events of a log. *)
Definition report (db : S) (chain_id : string) (events : list ConsensusEvent) : outcome latency := visit (height_latency db chain_id) events.

(** ** Sums *)

Definition sum_Z (l : list Z) : Z := foldr Z.add 0 l.
Lemma sum_Z_cons x l : sum_Z (x :: l) = x + sum_Z l.
Proof. done. Qed.
(** Whether the transaction can be read, and how long it took then. *)
Definition counted (txBytes : bytes) : Z := match NewTransferTxFromBytes txBytes with Ret (inl _) => 1 | _ => 0 end.
Definition took (commitTime : GoTime) (txBytes : bytes) : Z :=
  match NewTransferTxFromBytes txBytes with
  | Ret (inl tx) => time_Sub commitTime (ThirdPartyUnmarshalTime (Some {| Seconds := fst (Bank.Time tx); Nanos := snd (Bank.Time tx) |}))
  | _ => 0
  end.
Lemma txs_latency commitTime l : (∀ tx, tx ∈ l → (4 ≤ length tx)%nat) → ∀ a n,
  foldM (tx_latency commitTime) l (int64 a, int64 n) = Ret (int64 (a + sum_Z (map (took commitTime) l)), int64 (n + sum_Z (map counted l))).
Proof.
  induction l as [|tx l IH]; intros Hl a n; [change (sum_Z (map _ [])) with 0; by rewrite !Z.add_0_r|].
  cbn [foldM map]. rewrite !sum_Z_cons.
  assert (∃ r, NewTransferTxFromBytes tx = Ret r) as [r Er].
  { unfold NewTransferTxFromBytes. rewrite slice_from_in_range by (assert (4 ≤ length tx)%nat by (apply Hl; by left); unfold zlen; lia). by eexists. }
  unfold tx_latency at 1, took at 1, counted at 1. rewrite Er. cbn [mbind outcome_bind].
  destruct r as [t|e]; cbn [fst snd].
  - rewrite !wrapS_add_l, IH by (intros; apply Hl; by right). by rewrite !Z.add_assoc.
  - rewrite IH by (intros; apply Hl; by right). by rewrite !Z.add_0_l.
Qed.

(** The blocks of the visited heights and of their successors are stored, and
    hold no transaction shorter than its type. *)
Definition stored (db : S) (chain_id : string) (blocks : Z → Block) (h : Z) : Prop :=
  block_at db h chain_id = Ret (Some (blocks h)) ∧ next_block_at db (h + 1) chain_id = Ret (Some (blocks (h + 1))) ∧
  ∀ tx, tx ∈ txs_list (PTXS (blocks h)) ++ txs_list (CrossShardTxs (blocks h)) → (4 ≤ length tx)%nat.
(** What a list of the block adds: transactions and their times. *)
Definition txs_counted (f : Block → Txs) (blocks : Z → Block) (h : Z) : Z := sum_Z (map counted (txs_list (f (blocks h)))).
Definition txs_took (f : Block → Txs) (blocks : Z → Block) (h : Z) : Z :=
  sum_Z (map (took (hdTime (bHeader (blocks (h + 1))))) (txs_list (f (blocks h)))).
Definition total_of (hs : list Z) (f : Z → Z) (start : Z) : Z := int64 (start + sum_Z (map f hs)).
Lemma heights_latency db chain_id blocks hs : (∀ h, h ∈ hs → stored db chain_id blocks h) → ∀ n1 n2 l1 l2,
  foldM (height_latency db chain_id) hs {| innerShardTxCount := int64 n1; crossShardTxCount := int64 n2;
                                           innerShardLatencyCount := int64 l1; crossShardLatencyCount := int64 l2 |} =
  Ret {| innerShardTxCount := total_of hs (txs_counted PTXS blocks) n1; crossShardTxCount := total_of hs (txs_counted CrossShardTxs blocks) n2;
         innerShardLatencyCount := total_of hs (txs_took PTXS blocks) l1; crossShardLatencyCount := total_of hs (txs_took CrossShardTxs blocks) l2 |}.
Proof.
  induction hs as [|h hs IH]; intros Hst n1 n2 l1 l2; [unfold total_of; cbn; by rewrite !Z.add_0_r|].
  destruct (Hst h) as (Eb & En & Htx); [by left|]. cbn [foldM]. unfold height_latency at 1. rewrite Eb. cbn [mbind outcome_bind]. rewrite En. cbn [mbind outcome_bind].
  cbn [innerShardLatencyCount innerShardTxCount crossShardLatencyCount crossShardTxCount].
  rewrite !txs_latency by (intros; apply Htx, elem_of_app; by (left + right)). cbn [mbind outcome_bind].
  rewrite IH by (intros; apply Hst; by right). unfold total_of. cbn [map]. rewrite !sum_Z_cons, !Z.add_assoc. done.
Qed.

(** The report of a run whose blocks are stored counts every readable
    transaction of every height with transactions, and of no other height, once:
    the numbers and the sums of latencies, of the transactions of one shard and
    of the shared ones, are those of these heights, as machine integers. *)
Theorem report_correct (db : S) (chain_id : string) (events : list ConsensusEvent) (h0 : Z) (totals : list Z) (l : ConsensusEvent) (blocks : Z → Block)
    (Hlog : log_heights events h0 totals l) (Hst : ∀ h, busy h0 totals h → stored db chain_id blocks h) :
  ∃ hs, base.NoDup hs ∧ (∀ h, h ∈ hs ↔ busy h0 totals h) ∧
    report db chain_id events = Ret
      {| innerShardTxCount := int64 (sum_Z (map (txs_counted PTXS blocks) hs));
         crossShardTxCount := int64 (sum_Z (map (txs_counted CrossShardTxs blocks) hs));
         innerShardLatencyCount := int64 (sum_Z (map (txs_took PTXS blocks) hs));
         crossShardLatencyCount := int64 (sum_Z (map (txs_took CrossShardTxs blocks) hs)) |}.
Proof.
  assert (∀ h, h ∈ busy_heights h0 totals ↔ busy h0 totals h) as Hb by (intros h; apply busy_heights_elem).
  exists (busy_heights h0 totals). split; [apply busy_heights_NoDup|]. split; [done|]. unfold report; rewrite (visit_heights (height_latency db chain_id) events h0 totals l Hlog).
  apply (heights_latency db chain_id blocks (busy_heights h0 totals)) with (n1 := 0) (n2 := 0) (l1 := 0) (l2 := 0). intros h Hh. by apply Hst, Hb.
Qed.

(** ** Blocks that are not stored *)

Lemma foldM_panic {A A'} (f : A' → A → outcome A') l x : x ∈ l → (∀ acc, f acc x = Panic) → ∀ acc, foldM f l acc = Panic.
Proof.
  intros Hx Hf. induction l as [|y l IH]; [by apply elem_of_nil in Hx|]. intros acc. cbn [foldM]. apply elem_of_cons in Hx as [<-|Hx]; [by rewrite Hf|].
  destruct (f acc y); [by apply IH|done].
Qed.
(** The successor of a block is skipped when it is not stored, the block itself
    is not: its empty bytes are an empty message, which has no header.  One such
    height stops the report. *)
Theorem missing_block_panics (db : S) (chain_id : string) (events : list ConsensusEvent) (h0 : Z) (totals : list Z) (l : ConsensusEvent) (h : Z)
    (p : PBlock) (Hlog : log_heights events h0 totals l) (Hbusy : busy h0 totals h)
    (Hmissing : PrefixStore.GetBlockByHeight db h chain_id = inl None) (Hempty : unmarshal [] = Some p) (Hheader : pbHeader p = None) :
  report db chain_id events = Panic.
Proof.
  unfold report; rewrite (visit_heights (height_latency db chain_id) events h0 totals l Hlog). apply foldM_panic with h; [by apply busy_heights_elem|]. intros acc.
  unfold height_latency, block_at. rewrite Hmissing. cbn [sbytes default id]. unfold NewBlockFromBytes. rewrite Hempty. unfold NewBlockFromProto.
  destruct (mapM_out _ (pbCTXSProof p)); [|done]. cbn [mbind outcome_bind]. by rewrite Hheader.
Qed.
End Report.

(** ** A report, run *)
Module LatencyDemo.
Import LogDemo BankTheorems.Demo.
#[local] Existing Instance map_store.
#[local] Existing Instance demo_urd_wire.
#[local] Existing Instance demo_codec.
#[local] Existing Instance cheap_hash.

(** A transfer made ten seconds before the block. *)
Definition late_tx : bytes :=
  [0; 0; 0; 0] ++ ser {| From := ["a"]; To := ["b"]; FromMoney := [1]; ToMoney := [1]; Buffer := []; Bank.Time := (1699999990, 5); Shards := ["s1"] |}.
Definition busy_block : Block :=
  {| bHeader := header_of 5 [1]; PTXS := Some [late_tx; [9; 9; 9; 9]]; CrossShardTxs := Some [late_tx]; OPT := []; AggSigVote := None;
     CI := Some ci5; CC := []; CTXS := []; CTXSProof := [] |}.
Definition block_bytes : bytes := snd (get (busy_block, []) (Block_ProtoBytes busy_block)).
Definition read_block : Block := match NewBlockFromBytes block_bytes with Ret (Some b) => b | _ => busy_block end.
(** The heights 2 to 4 are stored, under one hash. *)
Definition demo_db : gmap bytes bytes :=
  <[PrefixStore.toStateKey (PrefixStore.height_key 2 "s1") := [1]]> (<[PrefixStore.toStateKey (PrefixStore.height_key 3 "s1") := [1]]>
    (<[PrefixStore.toStateKey (PrefixStore.height_key 4 "s1") := [1]]> {[PrefixStore.toDataKey [1] := block_bytes]})).

Lemma demo_log : log_heights events 1 [0; 7; 4; 0] (ev 5 true true "START").
Proof. split_and!; [repeat (constructor; [vm_compute; reflexivity|]); constructor|vm_compute; reflexivity|reflexivity|reflexivity|lia|vm_compute; discriminate]. Qed.
Example demo_report : report demo_db "s1" events =
  Ret {| innerShardTxCount := 2; crossShardTxCount := 2; innerShardLatencyCount := 20 * 10 ^ 9; crossShardLatencyCount := 20 * 10 ^ 9 |}.
Proof. vm_compute. reflexivity. Qed.
Lemma demo_stored h : busy 1 [0; 7; 4; 0] h → stored demo_db "s1" (λ _, read_block) h.
Proof.
  intros Hb%busy_heights_elem. change (busy_heights 1 [0; 7; 4; 0]) with [2; 3] in Hb.
  assert (forallb (λ tx, (4 <=? length tx)%nat) (txs_list (PTXS read_block) ++ txs_list (CrossShardTxs read_block)) = true) as Hl by (vm_compute; reflexivity).
  apply elem_of_cons in Hb as [Hb|Hb%list_elem_of_singleton]; subst h; (split; [vm_compute; reflexivity|split; [vm_compute; reflexivity|]]);
    intros tx Htx; apply list_elem_of_In in Htx; apply Nat.leb_le; exact (proj1 (forallb_forall _ _) Hl tx Htx).
Qed.
Lemma report_correct_witness : ∃ hs, base.NoDup hs ∧ (∀ h, h ∈ hs ↔ busy 1 [0; 7; 4; 0] h) ∧ ∃ r, report demo_db "s1" events = Ret r ∧
  innerShardTxCount r = int64 (sum_Z (map (txs_counted PTXS (λ _, read_block)) hs)).
Proof.
  destruct (report_correct demo_db "s1" events 1 [0; 7; 4; 0] (ev 5 true true "START") (λ _, read_block) demo_log demo_stored) as (hs & Hnd & Hin & E).
  exists hs. split; [exact Hnd|]. split; [exact Hin|]. eexists. split; [exact E|]. reflexivity.
Defined.
End LatencyDemo.
