(* ===== verification/PyrLatency.v ===== *)
(** * The latency report of Pyramid

    Models the loop of [source/pyramid/abci/minibank/main/main.go].  It visits the
    heights of the log like Urd's report ([Latency.v]); an inner-shard block
    counts its own transactions, the commit block of a B shard those of the
    cross-shard block it commits, if every shard accepted it. *)

From stdpp Require Import base list gmap strings numbers.
From Stdlib Require Import ZArith Lia.
From S2P Require Import Prelude Convert Hash Merkle Wire RangeList Text Signer BlockLog Latency Store PyrTypes PyrVotes PyrBank PyrDemo.

Section PyrReport.
Context {S : Type} {KV : KVStore S} {W : PyrWire} {VW : PyrVoteWire} {BW : PyrBankWire}.

(** ** The report *)

(** One transaction; [scale] is what is done to its time. *)
Definition pyr_tx_latency (scale : Z → Z) (commitTime : GoTime) (acc : Z * Z) (txBytes : bytes) : outcome (Z * Z) :=
  r ← NewTransferTxFromBytes txBytes;
  match r with
  | inr _ => Ret acc
  | inl tx => Ret (int64 (fst acc + scale (time_Sub commitTime (ThirdPartyUnmarshalTime (txTime tx)))), int64 (snd acc + 1))
  end.
(** [d * time.Duration(4) / time.Duration(3)]. *)
Definition four_thirds (d : Z) : Z := Z.quot (int64 (d * 4)) 3.
Definition pyr_block_at (db : S) (height : Z) (chain_id : string) : outcome (option Block) :=
  match PrefixStore.GetBlockByHeight db height chain_id with
  | inr _ => Ret None
  | inl bz => NewBlockFromBytes (sbytes bz)
  end.
Definition pyr_next_block_at (db : S) (height : Z) (chain_id : string) : outcome (option Block) :=
  match PrefixStore.GetBlockByHeight db height chain_id with
  | inr _ | inl None => Ret None
  | inl (Some bz) => NewBlockFromBytes bz
  end.
Definition add_inner (commitTime : GoTime) (txs : list bytes) (acc : latency) : outcome latency :=
  '(l, n) ← foldM (pyr_tx_latency id commitTime) txs (innerShardLatencyCount acc, innerShardTxCount acc);
  Ret {| innerShardTxCount := n; crossShardTxCount := crossShardTxCount acc; innerShardLatencyCount := l;
         crossShardLatencyCount := crossShardLatencyCount acc |}.
Definition add_cross (commitTime : GoTime) (txs : list bytes) (acc : latency) : outcome latency :=
  '(l, n) ← foldM (pyr_tx_latency four_thirds commitTime) txs (crossShardLatencyCount acc, crossShardTxCount acc);
  Ret {| innerShardTxCount := innerShardTxCount acc; crossShardTxCount := n; innerShardLatencyCount := innerShardLatencyCount acc;
         crossShardLatencyCount := l |}.
(** The commit block of a B shard holds the answers of the related shards. *)
Definition commit_latency (db : S) (commitTime : GoTime) (block : Block) (acc : latency) : outcome latency :=
  bz ← idx (BodyTxs (bBody block)) 0;
  set ← NewMessageAcceptSetFromBytes bz;
  cmt ← deref set;
  if forallb (λ ma, PA_IsOK (maSignatures ma)) (Accepts cmt) then
    match PrefixStore.GetBlockByHash db (masBlockHash cmt) with
    | inr _ => Panic
    | inl ublockBz =>
        b ← NewBlockFromBytes (sbytes ublockBz);
        ublock ← deref b;
        add_cross commitTime (CrossShardTxs (bCross ublock)) acc
    end
  else Ret acc.
Definition pyr_height_latency (db : S) (chain_id : string) (acc : latency) (j : Z) : outcome latency :=
  b ← pyr_block_at db j chain_id;
  match b with
  | None => Ret acc
  | Some block =>
      n ← pyr_next_block_at db (j + 1) chain_id;
      match n with
      | None => Ret acc
      | Some blockNext =>
          let commitTime := Time (bHeader blockNext) in
          if BlockType (bHeader block) =? BLOCKTYPE_InnerShard then add_inner commitTime (BodyTxs (bBody block)) acc
          else if BlockType (bHeader block) =? BLOCKTYPE_BCommitBlock then commit_latency db commitTime block acc
          else Ret acc
      end
  end.
Definition pyr_report (db : S) (chain_id : string) (events : list ConsensusEvent) : outcome latency := visit (pyr_height_latency db chain_id) events.

(** ** Sums *)

Definition pyr_counted (txBytes : bytes) : Z := match NewTransferTxFromBytes txBytes with Ret (inl _) => 1 | _ => 0 end.
Definition pyr_took (scale : Z → Z) (commitTime : GoTime) (txBytes : bytes) : Z :=
  match NewTransferTxFromBytes txBytes with
  | Ret (inl tx) => scale (time_Sub commitTime (ThirdPartyUnmarshalTime (txTime tx)))
  | _ => 0
  end.
Lemma pyr_txs_latency scale commitTime l : (∀ tx, tx ∈ l → (4 ≤ length tx)%nat) → ∀ a n,
  foldM (pyr_tx_latency scale commitTime) l (int64 a, int64 n) =
    Ret (int64 (a + sum_Z (map (pyr_took scale commitTime) l)), int64 (n + sum_Z (map pyr_counted l))).
Proof.
  induction l as [|tx l IH]; intros Hl a n; [change (sum_Z (map _ [])) with 0; by rewrite !Z.add_0_r|].
  cbn [foldM map]. rewrite !sum_Z_cons.
  assert (∃ r, NewTransferTxFromBytes tx = Ret r) as [r Er].
  { unfold NewTransferTxFromBytes. rewrite slice_from_in_range by (assert (4 ≤ length tx)%nat by (apply Hl; by left); unfold zlen; lia). by eexists. }
  unfold pyr_tx_latency at 1, pyr_took at 1, pyr_counted at 1. rewrite Er. cbn [mbind outcome_bind].
  destruct r as [t|e]; cbn [fst snd].
  - rewrite !wrapS_add_l, IH by (intros; apply Hl; by right). by rewrite !Z.add_assoc.
  - rewrite IH by (intros; apply Hl; by right). by rewrite !Z.add_0_l.
Qed.

(** What a height contributes: transactions of the shard, and committed
    cross-shard ones. *)
Record pyr_height := { phInner : list bytes; phCross : list bytes; phTime : GoTime }.
Inductive pyr_stored (db : S) (chain_id : string) (h : Z) : pyr_height → Prop :=
| stored_inner block next : pyr_block_at db h chain_id = Ret (Some block) → pyr_next_block_at db (h + 1) chain_id = Ret (Some next) →
    BlockType (bHeader block) = BLOCKTYPE_InnerShard → (∀ tx, tx ∈ BodyTxs (bBody block) → (4 ≤ length tx)%nat) →
    pyr_stored db chain_id h {| phInner := BodyTxs (bBody block); phCross := []; phTime := Time (bHeader next) |}
| stored_commit block next bz rest cmt ubz ublock : pyr_block_at db h chain_id = Ret (Some block) → pyr_next_block_at db (h + 1) chain_id = Ret (Some next) →
    BlockType (bHeader block) = BLOCKTYPE_BCommitBlock → BodyTxs (bBody block) = bz :: rest →
    NewMessageAcceptSetFromBytes bz = Ret (Some cmt) → (∀ ma, ma ∈ Accepts cmt → PA_IsOK (maSignatures ma) = true) →
    PrefixStore.GetBlockByHash db (masBlockHash cmt) = inl (Some ubz) → NewBlockFromBytes ubz = Ret (Some ublock) →
    (∀ tx, tx ∈ CrossShardTxs (bCross ublock) → (4 ≤ length tx)%nat) →
    pyr_stored db chain_id h {| phInner := []; phCross := CrossShardTxs (bCross ublock); phTime := Time (bHeader next) |}
| stored_abort block next bz rest cmt ma : pyr_block_at db h chain_id = Ret (Some block) → pyr_next_block_at db (h + 1) chain_id = Ret (Some next) →
    BlockType (bHeader block) = BLOCKTYPE_BCommitBlock → BodyTxs (bBody block) = bz :: rest →
    NewMessageAcceptSetFromBytes bz = Ret (Some cmt) → ma ∈ Accepts cmt → PA_IsOK (maSignatures ma) = false →
    pyr_stored db chain_id h {| phInner := []; phCross := []; phTime := Time (bHeader next) |}
| stored_other block next : pyr_block_at db h chain_id = Ret (Some block) → pyr_next_block_at db (h + 1) chain_id = Ret (Some next) →
    BlockType (bHeader block) ≠ BLOCKTYPE_InnerShard → BlockType (bHeader block) ≠ BLOCKTYPE_BCommitBlock →
    pyr_stored db chain_id h {| phInner := []; phCross := []; phTime := Time (bHeader next) |}.

Definition inner_counted (c : pyr_height) : Z := sum_Z (map pyr_counted (phInner c)).
Definition cross_counted (c : pyr_height) : Z := sum_Z (map pyr_counted (phCross c)).
Definition inner_took (c : pyr_height) : Z := sum_Z (map (pyr_took id (phTime c)) (phInner c)).
Definition cross_took (c : pyr_height) : Z := sum_Z (map (pyr_took four_thirds (phTime c)) (phCross c)).
(** Four sums as machine integers. *)
Definition sums (n1 n2 l1 l2 : Z) : latency :=
  {| innerShardTxCount := int64 n1; crossShardTxCount := int64 n2; innerShardLatencyCount := int64 l1; crossShardLatencyCount := int64 l2 |}.
Lemma pyr_height_spec db chain_id h c n1 n2 l1 l2 : pyr_stored db chain_id h c →
  pyr_height_latency db chain_id (sums n1 n2 l1 l2) h =
    Ret (sums (n1 + inner_counted c) (n2 + cross_counted c) (l1 + inner_took c) (l2 + cross_took c)).
Proof.
  unfold pyr_height_latency, inner_counted, cross_counted, inner_took, cross_took. intros Hst. destruct Hst as
    [block next Eb En Et Htx|block next bz rest cmt ubz ublock Eb En Et Ebt Ec Hok Eu Eub Htx|block next bz rest cmt ma Eb En Et Ebt Ec Hma Hno|block next Eb En Ht1 Ht2];
    rewrite Eb; cbn [mbind outcome_bind]; rewrite En; cbn [mbind outcome_bind phInner phCross phTime map]; change (sum_Z []) with 0; rewrite ?Z.add_0_r.
  - rewrite Et, Z.eqb_refl. unfold add_inner. cbn [innerShardLatencyCount innerShardTxCount sums]. by rewrite pyr_txs_latency.
  - rewrite Et. change (BLOCKTYPE_BCommitBlock =? BLOCKTYPE_InnerShard) with false. rewrite Z.eqb_refl. unfold commit_latency. rewrite Ebt.
    change (idx (bz :: rest) 0) with (Ret bz). cbn [mbind outcome_bind]. rewrite Ec. cbn [mbind outcome_bind deref].
    rewrite (proj2 (forallb_forall _ _)) by (intros ma Hin%list_elem_of_In; by apply Hok). rewrite Eu. cbn [sbytes default id]. rewrite Eub.
    cbn [mbind outcome_bind deref]. unfold add_cross. cbn [crossShardLatencyCount crossShardTxCount sums]. by rewrite pyr_txs_latency.
  - rewrite Et. change (BLOCKTYPE_BCommitBlock =? BLOCKTYPE_InnerShard) with false. rewrite Z.eqb_refl. unfold commit_latency. rewrite Ebt.
    change (idx (bz :: rest) 0) with (Ret bz). cbn [mbind outcome_bind]. rewrite Ec. cbn [mbind outcome_bind deref].
    destruct (forallb _ (Accepts cmt)) eqn:Ef; [|done]. rewrite forallb_forall in Ef. rewrite Ef in Hno; [done|by apply list_elem_of_In].
  - rewrite !(proj2 (Z.eqb_neq _ _)) by done. done.
Qed.

(** The report of a Pyramid run whose blocks are stored counts every readable
    transaction of the inner-shard blocks, and of the cross-shard blocks that
    every related shard accepted, of exactly the heights with transactions, each
    once; the times of the cross-shard ones count four thirds. *)
Theorem pyr_report_correct (db : S) (chain_id : string) (events : list ConsensusEvent) (h0 : Z) (totals : list Z) (l : ConsensusEvent)
    (contribution : Z → pyr_height)
    (Hlog : log_heights events h0 totals l) (Hst : ∀ h, busy h0 totals h → pyr_stored db chain_id h (contribution h)) :
  ∃ hs, base.NoDup hs ∧ (∀ h, h ∈ hs ↔ busy h0 totals h) ∧
    pyr_report db chain_id events = Ret
      (sums (sum_Z (map (λ h, inner_counted (contribution h)) hs)) (sum_Z (map (λ h, cross_counted (contribution h)) hs))
            (sum_Z (map (λ h, inner_took (contribution h)) hs)) (sum_Z (map (λ h, cross_took (contribution h)) hs))).
Proof.
  exists (busy_heights h0 totals). split; [apply busy_heights_NoDup|]. split; [intros h; apply busy_heights_elem|].
  unfold pyr_report. rewrite (visit_heights (pyr_height_latency db chain_id) events h0 totals l Hlog).
  assert (∀ h, h ∈ busy_heights h0 totals → pyr_stored db chain_id h (contribution h)) as Hall by (intros h Hh; by apply Hst, busy_heights_elem).
  revert Hall. generalize (busy_heights h0 totals). intros hs Hall. change no_latency with (sums 0 0 0 0).
  assert (∀ n1 n2 l1 l2, foldM (pyr_height_latency db chain_id) hs (sums n1 n2 l1 l2) = Ret (sums
    (n1 + sum_Z (map (λ h, inner_counted (contribution h)) hs)) (n2 + sum_Z (map (λ h, cross_counted (contribution h)) hs))
    (l1 + sum_Z (map (λ h, inner_took (contribution h)) hs)) (l2 + sum_Z (map (λ h, cross_took (contribution h)) hs)))) as Hs; [|by rewrite Hs].
  induction hs as [|h hs IH]; intros n1 n2 l1 l2; [change (sum_Z (map _ [])) with 0; by rewrite !Z.add_0_r|].
  cbn [foldM map]. rewrite (pyr_height_spec db chain_id h (contribution h)) by (apply Hall; by left).
  rewrite IH by (intros; apply Hall; by right). by rewrite !sum_Z_cons, !Z.add_assoc.
Qed.
End PyrReport.

(** ** A report, run *)
Module PyrLatencyDemo.
Import LogDemo.
#[local] Existing Instance map_store.
#[local] Existing Instance pyr_wire.
#[local] Existing Instance pyr_vote_wire.
#[local] Existing Instance pyr_bank_wire.

(** The heights 2 to 4 hold one inner-shard block. *)
Definition inner_bytes : bytes := match Block_ProtoBytes inner3 with Ret bz => bz | Panic => [] end.
Definition read_inner : Block := match NewBlockFromBytes inner_bytes with Ret (Some b) => b | _ => inner3 end.
Definition pyr_demo_db : gmap bytes bytes :=
  <[PrefixStore.toStateKey (PrefixStore.height_key 2 "i1") := [1]]> (<[PrefixStore.toStateKey (PrefixStore.height_key 3 "i1") := [1]]>
    (<[PrefixStore.toStateKey (PrefixStore.height_key 4 "i1") := [1]]> {[PrefixStore.toDataKey [1] := inner_bytes]})).
Definition inner_contribution : pyr_height := {| phInner := BodyTxs (bBody read_inner); phCross := []; phTime := Time (bHeader read_inner) |}.

Lemma pyr_demo_stored h : busy 1 [0; 7; 4; 0] h → pyr_stored pyr_demo_db "i1" h inner_contribution.
Proof.
  intros Hb%busy_heights_elem. change (busy_heights 1 [0; 7; 4; 0]) with [2; 3] in Hb.
  assert (forallb (λ tx, (4 <=? length tx)%nat) (BodyTxs (bBody read_inner)) = true) as Hl by (vm_compute; reflexivity).
  apply elem_of_cons in Hb as [Hb|Hb%list_elem_of_singleton]; subst h;
    (apply stored_inner; [vm_compute; reflexivity|vm_compute; reflexivity|vm_compute; reflexivity|]);
    intros tx Htx; apply list_elem_of_In in Htx; apply Nat.leb_le; exact (proj1 (forallb_forall _ _) Hl tx Htx).
Qed.
Lemma pyr_report_correct_witness : ∃ hs, base.NoDup hs ∧ (∀ h, h ∈ hs ↔ busy 1 [0; 7; 4; 0] h) ∧ ∃ r, pyr_report pyr_demo_db "i1" events = Ret r ∧
  innerShardTxCount r = int64 (sum_Z (map (λ _, inner_counted inner_contribution) hs)).
Proof.
  destruct (pyr_report_correct pyr_demo_db "i1" events 1 [0; 7; 4; 0] (ev 5 true true "START") (λ _, inner_contribution) LatencyDemo.demo_log pyr_demo_stored)
    as (hs & Hnd & Hin & E).
  exists hs. split; [exact Hnd|]. split; [exact Hin|]. eexists. split; [exact E|]. reflexivity.
Defined.
End PyrLatencyDemo.
