(* ===== verification/ImporterDemo.v ===== *)
(** * Generated and imported files, run

    Concrete runs of [Importer]: ten transactions generated for two shards and
    imported by one of them, and the witnesses of the theorems. *)

From stdpp Require Import base list gmap strings numbers pretty.
From Stdlib Require Import ZArith Lia.
From S2P Require Import Prelude Convert BitVector Hash Signer RangeList Store Receipt ShardInfo Bank BankTheorems Importer.

Import BankTheorems.Demo.

(** A codec that refuses what is not bytes. *)
Definition byteb (b : Z) : bool := (0 <=? b) && (b <? 256).
Definition checked_codec : ProtoCodec TransferTx.
Proof.
  refine {| marshal := λ tx, bz ← marshal (ProtoCodec := ser_codec TransferTx) tx; if forallb byteb bz then Some bz else None;
            unmarshal := unmarshal (ProtoCodec := ser_codec TransferTx) |}.
  intros tx bz. destruct (marshal tx) as [bz'|] eqn:E; [|done]. cbn [mbind option_bind]. destruct (forallb byteb bz'); [|done].
  intros [= <-]. by apply unmarshal_marshal.
Defined.
Definition import_codec : BankCodec :=
  {| transfer_codec := checked_codec; insert_codec := insert_codec (BankCodec := demo_codec);
     relay_codec := relay_codec (BankCodec := demo_codec);
     set_marshal := set_marshal (BankCodec := demo_codec); set_unmarshal := set_unmarshal (BankCodec := demo_codec);
     set_unmarshal_marshal := set_unmarshal_marshal (BankCodec := demo_codec);
     list_marshal := list_marshal (BankCodec := demo_codec); list_unmarshal := list_unmarshal (BankCodec := demo_codec);
     list_unmarshal_marshal := list_unmarshal_marshal (BankCodec := demo_codec) |}.
#[local] Existing Instance import_codec.
Lemma import_codec_bytes (tx : TransferTx) bz : marshal tx = Some bz → wf_bytes bz.
Proof.
  change (marshal tx) with (bz ← marshal (ProtoCodec := ser_codec TransferTx) tx; if forallb byteb bz then Some bz else None).
  destruct (marshal (ProtoCodec := ser_codec TransferTx) tx) as [bz'|]; [|done]. cbn [mbind option_bind].
  destruct (forallb byteb bz') eqn:E; [|done]. intros [= <-]. apply list.Forall_forall. intros b Hb.
  rewrite forallb_forall in E. specialize (E b ltac:(by apply list_elem_of_In)). unfold byteb in E. unfold is_byte. lia.
Qed.

(** A source that draws well-spread numbers. *)
Definition demo_Intn (k : nat) (n : Z) : Z := (7919 * Z.of_nat k + 13 * (Z.of_nat k / 3)) mod n.
Lemma demo_Intn_range k n : 0 < n → 0 ≤ demo_Intn k n < n.
Proof. intros Hn. by apply Z.mod_pos_bound. Qed.
Definition demo_cross (i : nat) : bool := Nat.even (i / 2).
Definition demo_clock (i : nat) : Z * Z := (Z.of_nat i, 0).
Definition demo_ranges : gmap string RangeList := <["s1" := range1]> {["s2" := range2]}.
Lemma gen_ranges_wf : map_Forall (λ _ rl, rl_wf rl) demo_ranges.
Proof.
  intros k rl. unfold demo_ranges. intros [[<- <-]|[_ [<- <-]%lookup_singleton_Some]]%lookup_insert_Some; [apply range1_wf|apply range2_wf].
Qed.
(** A mempool that keeps every transaction. *)
Definition list_AddTx (m : list bytes) (tx : bytes) : outcome (list bytes * bool) := Ret (m ++ [tx], true).

Definition demo_file : outcome (option (list string * nat)) :=
  generate_txs demo_Intn demo_cross demo_clock 10 8 demo_ranges ["a"; "m"] 0 0.
Definition demo_lines : list string := match demo_file with Ret (Some (l, _)) => l | _ => [] end.
Definition demo_draws : nat := match demo_file with Ret (Some (_, r)) => r | _ => O end.
Lemma demo_file_eq : demo_file = Ret (Some (demo_lines, demo_draws)).
Proof. vm_compute. reflexivity. Qed.

Lemma generated_file_routed_witness : ∃ ps, Forall2 line_holds demo_lines ps ∧ Forall (λ p, random_transfer demo_ranges (snd p)) ps ∧
  ∀ im m c, enabled im = true →
    feed list_AddTx (mempool im) (local_txs (myChain im) ps) = Ret (m, true) →
    feed list_AddTx (cross_shard_mempool im) (cross_txs (myChain im) ps) = Ret (c, true) →
    Importor_Start list_AddTx im (Some demo_lines) =
      Ret ({| is_pool := m; is_cross := c; useless := zlen (foreign_txs (myChain im) ps) |}, None).
Proof.
  destruct (generated_file_routed demo_Intn demo_cross demo_clock list_AddTx import_codec_bytes demo_Intn_range 10 8 0 demo_draws
    demo_ranges ["a"; "m"] demo_lines gen_ranges_wf demo_file_eq ltac:(lia)) as [_ Hps]. exact Hps.
Defined.

Definition demo_importer (chain : string) : Importor (M := list bytes) :=
  {| mempool := []; cross_shard_mempool := []; rangeLists := demo_ranges; myChain := chain; enabled := true; all_prefixes := ["a"; "m"] |}.
Definition counts (chain : string) : option (nat * nat * Z) :=
  match Importor_Start list_AddTx (demo_importer chain) (Some demo_lines) with
  | Ret (st, None) => Some (length (is_pool st), length (is_cross st), useless st)
  | _ => None
  end.
(** Of the ten transactions both shards import those across them, and each its
    own. *)
Example demo_counts : (counts "s1", counts "s2") = (Some (2%nat, 6%nat, 2), Some (2%nat, 6%nat, 2)).
Proof. vm_compute. reflexivity. Qed.

(** The first line of the file and its transaction. *)
Definition first_line : string := default EmptyString (demo_lines !! 0%nat).
Definition first_tx : bytes * TransferTx :=
  let bz := default [] (DecodeString first_line) in
  (bz, match NewTransferTxFromBytes bz with Ret (inl tx) => tx | _ => NewTransferTx [] [] [] [] [] (0, 0) end).
Definition after_first : import_state :=
  match import_tx list_AddTx "s1" (snd first_tx) (fst first_tx) {| is_pool := []; is_cross := []; useless := 0 |} with
  | Ret (st, _) => st
  | Panic => {| is_pool := []; is_cross := []; useless := 0 |}
  end.
Lemma short_file_panics_witness : Importor_Start list_AddTx (demo_importer "s1") (Some [first_line]) = Panic.
Proof.
  apply (short_file_panics list_AddTx (demo_importer "s1") first_line [] first_tx after_first); [reflexivity|cbn; lia| |vm_compute; reflexivity].
  split; vm_compute; reflexivity.
Defined.

(** A source that alternates between two numbers, and the two accounts of a
    prefix. *)
Definition alternating (k : nat) (n : Z) : Z := (Z.of_nat k / 2) mod n.
Lemma alternating_range k n : 0 < n → 0 ≤ alternating k n < n.
Proof. intros Hn. by apply Z.mod_pos_bound. Qed.
Definition two_accounts : list string := account_names ["a"] 2.
Lemma alternating_draw r i : Z.of_nat (S r) / 2 mod 2 = i → i = 0 ∨ i = 1 →
  ∃ a, nth_error two_accounts (Z.to_nat i) = Some a ∧ draw_account alternating ["a"] 2 r = Ret (a, S (S r)).
Proof.
  intros E Hi. unfold draw_account, rand_below, alternating. change (zlen ["a"]) with 1. cbn [Z.leb Z.compare]. rewrite Z.mod_1_r.
  cbn [mbind outcome_bind]. rewrite E. destruct Hi as [-> | ->]; eexists; (split; [|vm_compute]; reflexivity).
Qed.
Lemma alternating_fair : fair alternating 2 ["a"] 2 two_accounts.
Proof.
  intros r a Ha. assert (∃ i, (i = 0 ∨ i = 1) ∧ nth_error two_accounts (Z.to_nat i) = Some a) as (i & Hi & Ei).
  { unfold two_accounts in *. vm_compute in Ha. repeat (apply elem_of_cons in Ha as [->|Ha]; [first [by exists 0; split; [left|] | by exists 1; split; [right|]]|]).
    by apply elem_of_nil in Ha. }
  pose proof (Z.mod_pos_bound (Z.of_nat (S r) / 2) 2 ltac:(lia)).
  assert (Z.of_nat (S (r + 2)) / 2 = Z.of_nat (S r) / 2 + 1) as Enext.
  { rewrite <- Z.div_add by lia. f_equal. lia. }
  assert ((Z.of_nat (S r) / 2) mod 2 = i ∨ (Z.of_nat (S r) / 2 + 1) mod 2 = i) as [E|E].
  { rewrite Z.add_mod by lia. assert ((Z.of_nat (S r) / 2) mod 2 = 0 ∨ (Z.of_nat (S r) / 2) mod 2 = 1) as [-> | ->] by lia; destruct Hi as [-> | ->]; vm_compute; tauto. }
  - exists 0%nat. split; [lia|]. destruct (alternating_draw r i E Hi) as (b & Eb & Ed). replace (r + 2 * 0)%nat with r by lia.
    assert (b = a) as -> by congruence. eauto.
  - exists 1%nat. split; [lia|]. rewrite <- Enext in E. destruct (alternating_draw (r + 2) i E Hi) as (b & Eb & Ed). replace (r + 2 * 1)%nat with (r + 2)%nat by lia.
    assert (b = a) as -> by congruence. eauto.
Qed.
Lemma names_fit_a : names_fit ["a"] 2.
Proof.
  split_and!; [done|done|]. intros p i Hp Hi. apply list_elem_of_singleton in Hp as ->.
  assert (i = 1 ∨ i = 2) as [-> | ->] by lia; vm_compute; lia.
Qed.
Lemma generateAccounts_correct_witness :
  (∃ accs r', generateAccounts alternating 2 ["a"] 2 2 5 = Ret (Some (accs, r')) ∧ NoDup accs) ∧
  ∀ fuel accs r', generateAccounts alternating fuel ["a"] 2 3 5 ≠ Ret (Some (accs, r')).
Proof.
  assert (NoDup two_accounts) as Hnd by (apply (bool_decide_unpack _); vm_compute; reflexivity). split.
  - destruct (generateAccounts_correct alternating alternating_range 2 ["a"] two_accounts 2 2 5 names_fit_a Hnd alternating_fair ltac:(lia)) as [Hex _].
    destruct Hex as (accs & r' & E & _ & Hn & _); [vm_compute; discriminate|]. eauto.
  - apply (generateAccounts_correct alternating alternating_range 2 ["a"] two_accounts 2 3 5 names_fit_a Hnd alternating_fair); [lia|].
    vm_compute. reflexivity.
Defined.
