(* ===== verification/PyrImporter.v ===== *)
(** * The transaction generator of the Pyramid bank

    Models [source/pyramid/abci/minibank/importer.go]: pools of random
    transfers, inside a shard and across shards, and their broadcast.  Each
    pool is drained by a goroutine of its own, which adds a transaction to the
    mempool and sends it to the shard; the two share nothing but the sender.
    [generateAccounts] is that of [Importer].  The rates are floating-point
    products in the code; here they are the rounded integers. *)

From stdpp Require Import base list gmap strings numbers pretty.
From Stdlib Require Import ZArith Lia.
From S2P Require Import Prelude Convert BitVector Hash Merkle Wire Signer RangeList RangeTree Store Batch PyrTypes ShardInfo PyrBank Network Importer.

(** [batch]. *)
Definition batch : nat := 1.

Section Importer.
Context {BW : PyrBankWire} (Intn : nat → Z → Z) (now : nat → GoTime).
Context {M Conn : Type} (AddTx : M → bytes → outcome (M * bool)).

(** A nil mempool or sender is [None]. *)
Record Importor := {
  mempool : option M; cross_shard_mempool : option M;
  transferSize : Z; mustLen : Z; accountNumPerShard : Z;
  txPool : list TransferTx; cross_shard_txPool : list TransferTx;
  isI : bool; MyRangeTree : RangeTree; AllRelatedRangeTree : list RangeTree;
  p2pConn : option (Sender (Conn := Conn)); myChain : string
}.
Definition NewImportor (mmp cmmp : option M) (transferSize mustLen accountNumPerShard : Z) (isI : bool) (myRangeTree : RangeTree)
    (KeyRangeTree : list RangeTree) (p2pConn : option (Sender (Conn := Conn))) (chain : string) : Importor :=
  {| mempool := mmp; cross_shard_mempool := cmmp; transferSize := transferSize; mustLen := mustLen;
     accountNumPerShard := accountNumPerShard; txPool := []; cross_shard_txPool := []; isI := isI;
     MyRangeTree := myRangeTree; AllRelatedRangeTree := KeyRangeTree; p2pConn := p2pConn; myChain := chain |}.

(** ** Generating *)

Definition transferMoney (transferSize : Z) : list Z := replicate (Z.to_nat transferSize) 1.
(** The [i]-th transfer: half of the accounts pay the other half. *)
Definition random_tx (fuel : nat) (prefixes : list string) (im : Importor) (i r : nat) : outcome (option (TransferTx * nat)) :=
  let inputSize := Z.quot (transferSize im) 2 in
  o ← generateAccounts Intn fuel prefixes (accountNumPerShard im) (transferSize im) r;
  match o with
  | None => Ret None
  | Some (accounts, r) =>
      from ← slice_to accounts inputSize; fromMoney ← slice_to (transferMoney (transferSize im)) inputSize;
      to ← slice_from accounts inputSize; toMoney ← slice_from (transferMoney (transferSize im)) inputSize;
      tx ← NewTransferTxMustLen from fromMoney to toMoney (mustLen im) (now i);
      Ret (Some (tx, r))
  end.
Fixpoint random_txs (n fuel : nat) (prefixes : list string) (im : Importor) (i r : nat) : outcome (option (list TransferTx * nat)) :=
  match n with
  | O => Ret (Some ([], r))
  | S n =>
      o ← random_tx fuel prefixes im i r;
      match o with
      | None => Ret None
      | Some (tx, r) =>
          o ← random_txs n fuel prefixes im (S i) r;
          Ret (option_map (λ lr, (tx :: fst lr, snd lr)) o)
      end
  end.
Definition set_txPool (im : Importor) (l : list TransferTx) : Importor :=
  {| mempool := mempool im; cross_shard_mempool := cross_shard_mempool im; transferSize := transferSize im; mustLen := mustLen im;
     accountNumPerShard := accountNumPerShard im; txPool := l; cross_shard_txPool := cross_shard_txPool im; isI := isI im;
     MyRangeTree := MyRangeTree im; AllRelatedRangeTree := AllRelatedRangeTree im; p2pConn := p2pConn im; myChain := myChain im |}.
Definition set_cross_txPool (im : Importor) (l : list TransferTx) : Importor :=
  {| mempool := mempool im; cross_shard_mempool := cross_shard_mempool im; transferSize := transferSize im; mustLen := mustLen im;
     accountNumPerShard := accountNumPerShard im; txPool := txPool im; cross_shard_txPool := l; isI := isI im;
     MyRangeTree := MyRangeTree im; AllRelatedRangeTree := AllRelatedRangeTree im; p2pConn := p2pConn im; myChain := myChain im |}.
(** [make] panics on a negative number of transactions. *)
Definition RandomGenerateTx (fuel : nat) (im : Importor) (n : Z) (r : nat) : outcome (option (Importor * nat)) :=
  let myPrefix := map fst (RT_Range (MyRangeTree im)) in
  if n <? 0 then Panic else
  o ← random_txs (Z.to_nat n) fuel myPrefix im 0 r;
  Ret (option_map (λ lr, (set_txPool im (fst lr), snd lr)) o).
(** The first range of every related shard. *)
Definition RandomGenerateCrossShardTx (fuel : nat) (im : Importor) (n : Z) (r : nat) : outcome (option (Importor * nat)) :=
  myPrefix ← mapM_out (λ prerange, rg ← idx (RT_Range prerange) 0; Ret (fst rg)) (AllRelatedRangeTree im);
  if n <? 0 then Panic else
  o ← random_txs (Z.to_nat n) fuel myPrefix im 0 r;
  Ret (option_map (λ lr, (set_cross_txPool im (fst lr), snd lr)) o).

(** ** Broadcasting *)

Definition stamp (tx : TransferTx) (t : GoTime) : TransferTx :=
  {| From := From tx; To := To tx; FromMoney := FromMoney tx; ToMoney := ToMoney tx; Buffer := Buffer tx;
     txTime := Some (ThirdPartyProtoTime t) |}.
Definition sends (im : Importor) (channel : Z) (btx : bytes) : list Call :=
  match p2pConn im with None => [] | Some s => SendToShard s (myChain im) channel btx TxTransfer end.
(** One transaction: the error of [AddTx] is dropped. *)
Definition broadcast_tx (im : Importor) (channel : Z) (st : M * list Call * nat) (tx : TransferTx) : outcome (M * list Call * nat) :=
  let '(m, calls, i) := st in
  btx ← TransferBytes (stamp tx (now i));
  '(m, _) ← AddTx m btx;
  Ret (m, calls ++ sends im channel btx, S i).
(** The loop of a goroutine; a pool of [fuel] transactions or fewer is drained. *)
Fixpoint broadcast (fuel : nat) (im : Importor) (channel : Z) (pool : list TransferTx) (st : M * list Call * nat)
    : outcome (list TransferTx * (M * list Call * nat)) :=
  match pool with
  | [] => Ret ([], st)
  | _ =>
      match fuel with
      | O => Ret (pool, st)
      | S fuel =>
          let dst := if Nat.ltb (length pool) batch then length pool else batch in
          st ← foldM (broadcast_tx im channel) (take dst pool) st;
          broadcast fuel im channel (drop dst pool) st
      end
  end.
Definition run_broadcast (im : Importor) (channel : Z) (m : M) (pool : list TransferTx)
    : outcome (list TransferTx * (M * list Call * nat)) :=
  broadcast (length pool) im channel pool (m, [], O).

(** What [StartMempool] starts: a goroutine per pool that has a positive
    rate, given by its channel, mempool and pool. *)
Definition StartMempool (im : Importor) (rate rate1 rate2 : Z) : list (Z * M * list TransferTx) :=
  if isI im then
    match mempool im with
    | None => []
    | Some m => if 0 <? rate then [(ChannelIDMempool, m, txPool im)] else []
    end
  else match mempool im, cross_shard_mempool im with
       | Some m, Some c =>
           (if 0 <? rate1 then [(ChannelIDMempool, m, txPool im)] else []) ++
           (if 0 <? rate2 then [(ChannelIDCrossShardMempool, c, cross_shard_txPool im)] else [])
       | _, _ => []
       end.

(** ** What is generated and sent *)

Context (Hrand : ∀ k n, 0 < n → 0 ≤ Intn k n < n).

(** A transfer of [size] different accounts of the prefixes. *)
Record random_transfer (prefixes : list string) (n size : Z) (tx : TransferTx) : Prop := {
  rt_size : zlen (From tx) = size / 2 ∧ zlen (To tx) = size - size / 2;
  rt_distinct : NoDup (From tx ++ To tx);
  rt_accounts a : a ∈ From tx ++ To tx → is_account prefixes n a;
  rt_valid : ValidateTransferTx tx = None ↔ 2 ≤ size ∧ Z.even size = true
}.
Lemma sum_ones n : Z.of_nat n < 2 ^ 32 → sum_uint32 (replicate n 1) = Z.of_nat n.
Proof.
  unfold sum_uint32. assert (∀ acc, 0 ≤ acc → acc + Z.of_nat n < 2 ^ 32 →
    foldl (λ acc money, uint32 (acc + money)) acc (replicate n 1) = acc + Z.of_nat n) as Hall.
  { induction n as [|n IH]; intros acc Ha Hb; [cbn; lia|]. cbn [replicate foldl].
    unfold uint32. rewrite Z.mod_small by lia. rewrite IH by lia. lia. }
  intros Hn. by rewrite Hall.
Qed.
Lemma random_tx_spec fuel prefixes im i r tx r' : transferSize im < 2 ^ 32 →
  random_tx fuel prefixes im i r = Ret (Some (tx, r')) → random_transfer prefixes (accountNumPerShard im) (transferSize im) tx.
Proof using Hrand.
  intros Hsz. unfold random_tx. set (size := transferSize im) in *. intros ([[accs r1]|] & E & F)%outcome_bind_Ret; [|done].
  apply generateAccounts_spec in E as (Hlen & Hnd & Hacc & _); [|done]. pose proof (zlen_nonneg accs).
  pose proof (Z.div_mod size 2 ltac:(lia)). pose proof (Z.mod_pos_bound size 2 ltac:(lia)).
  rewrite Z.quot_div_nonneg in F by lia. assert (zlen (transferMoney size) = size) as Hm by (unfold zlen, transferMoney; rewrite length_replicate; lia).
  rewrite !slice_to_in_range, !slice_from_in_range in F by lia. cbn [mbind outcome_bind] in F.
  apply outcome_bind_Ret in F as (tx' & Et & [= <- <-]). unfold NewTransferTxMustLen in Et. apply outcome_bind_Ret in Et as (sz & _ & [= <-]).
  assert (∀ tx, From tx = take (Z.to_nat (size / 2)) accs → To tx = drop (Z.to_nat (size / 2)) accs →
    FromMoney tx = take (Z.to_nat (size / 2)) (transferMoney size) → ToMoney tx = drop (Z.to_nat (size / 2)) (transferMoney size) →
    random_transfer prefixes (accountNumPerShard im) size tx) as Hall; [|by destruct (0 <? mustLen im - sz); apply Hall].
  clear - Hlen Hnd Hacc Hm Hsz H H0 H1. intros tx Hf Ht Hfm Htm. unfold zlen in *.
  split; rewrite ?Hf, ?Ht, ?take_drop; [|done|by intros a Ha; apply Hacc|].
  - unfold zlen. rewrite length_take, length_drop. lia.
  - unfold ValidateTransferTx. rewrite Hf, Ht, Hfm, Htm. unfold zlen, transferMoney. rewrite take_replicate, drop_replicate, !length_take, !length_drop, !length_replicate.
    rewrite !sum_ones by lia. rewrite Zeven_mod.
    repeat match goal with |- context [Z.eqb ?a ?b] => destruct (Z.eqb_spec a b) end; cbn; split; intros; try done; lia.
Qed.

(** Every transfer has an encoding. *)
Context (Hencode : ∀ tx : TransferTx, ∃ bz, TransferBytes tx = Ret bz).
Lemma random_tx_total fuel prefixes pool im i r : names_fit prefixes (accountNumPerShard im) → NoDup pool →
  fair Intn fuel prefixes (accountNumPerShard im) pool → 0 ≤ transferSize im ≤ zlen pool →
  ∃ tx r', random_tx fuel prefixes im i r = Ret (Some (tx, r')).
Proof using Hrand Hencode.
  intros Hfit Hnd Hfair Hsz. unfold random_tx, generateAccounts. destruct (Z.ltb_spec (transferSize im) 0); [lia|].
  destruct (generate_loop_total Intn Hrand fuel prefixes _ pool Hfit Hnd Hfair (Z.to_nat (transferSize im)) ∅ r) as (accs & r' & E).
  { rewrite size_empty. unfold zlen in *. lia. }
  rewrite E. cbn [mbind outcome_bind]. apply generate_loop_spec in E as (Hlen & _); [|done].
  pose proof (Z.div_mod (transferSize im) 2 ltac:(lia)). pose proof (Z.mod_pos_bound (transferSize im) 2 ltac:(lia)).
  rewrite Z.quot_div_nonneg by lia.
  rewrite !slice_to_in_range, !slice_from_in_range by (unfold zlen, transferMoney; rewrite ?length_replicate; lia). cbn [mbind outcome_bind].
  unfold NewTransferTxMustLen, TransferTxSize. match goal with |- context [TransferBytes ?t] => destruct (Hencode t) as [bz ->] end.
  cbn [mbind outcome_bind]. eauto.
Qed.
Lemma random_txs_correct fuel prefixes pool im : names_fit prefixes (accountNumPerShard im) → NoDup pool →
  fair Intn fuel prefixes (accountNumPerShard im) pool → 0 ≤ transferSize im ≤ zlen pool → transferSize im < 2 ^ 32 → ∀ n i r,
  ∃ txs r', random_txs n fuel prefixes im i r = Ret (Some (txs, r')) ∧ length txs = n ∧
    Forall (random_transfer prefixes (accountNumPerShard im) (transferSize im)) txs.
Proof using Hrand Hencode.
  intros Hfit Hnd Hfair Hsz Hw. induction n as [|n IH]; intros i r; cbn [random_txs]; [by exists [], r|].
  destruct (random_tx_total fuel prefixes pool im i r Hfit Hnd Hfair Hsz) as (tx & r1 & E). rewrite E. cbn [mbind outcome_bind].
  destruct (IH (S i) r1) as (txs & r2 & -> & Hl & Hall). cbn. exists (tx :: txs), r2. split; [done|]. split; [by cbn; rewrite Hl|].
  constructor; [by eapply random_tx_spec|done].
Qed.

(** Generating the pool of transfers inside the shard: [n] transfers between
    different accounts of the ranges of the shard are made, of [transferSize]
    accounts each, the first half of which pay.  The bank accepts them exactly
    when [transferSize] is even and positive: an odd one makes payers and
    payees differ in number and so in their total. *)
Theorem RandomGenerateTx_correct (fuel : nat) (pool : list string) (im : Importor) (n : Z) (r : nat)
    (Hfit : names_fit (map fst (RT_Range (MyRangeTree im))) (accountNumPerShard im)) (Hnd : NoDup pool)
    (Hfair : fair Intn fuel (map fst (RT_Range (MyRangeTree im))) (accountNumPerShard im) pool)
    (Hsz : 0 ≤ transferSize im ≤ zlen pool) (Hw : transferSize im < 2 ^ 32) (Hn : 0 ≤ n) :
  ∃ txs r', RandomGenerateTx fuel im n r = Ret (Some (set_txPool im txs, r')) ∧ zlen txs = n ∧
    Forall (λ tx, random_transfer (map fst (RT_Range (MyRangeTree im))) (accountNumPerShard im) (transferSize im) tx ∧
      (ValidateTransferTx tx = None ↔ 2 ≤ transferSize im ∧ Z.even (transferSize im) = true)) txs.
Proof using Hrand Hencode.
  unfold RandomGenerateTx. destruct (Z.ltb_spec n 0); [lia|].
  destruct (random_txs_correct fuel _ pool im Hfit Hnd Hfair Hsz Hw (Z.to_nat n) 0 r) as (txs & r' & -> & Hl & Hall). cbn.
  exists txs, r'. split; [done|]. split; [unfold zlen; lia|]. eapply list.Forall_impl; [exact Hall|]. intros tx Htx. split; [done|]. apply Htx.
Qed.

(** Adding transactions to a mempool in order, whatever it answers. *)
Definition add_all (m : M) (btxs : list bytes) : outcome M := foldM (λ m btx, '(m, _) ← AddTx m btx; Ret m) btxs m.
Lemma broadcast_spec im channel (HAdd : ∀ m btx, ∃ res, AddTx m btx = Ret res) : ∀ pool fuel m calls i, (length pool ≤ fuel)%nat →
  ∃ btxs m', broadcast fuel im channel pool (m, calls, i) =
      Ret ([], (m', calls ++ concat (map (sends im channel) btxs), (i + length pool)%nat)) ∧
    add_all m btxs = Ret m' ∧ length btxs = length pool ∧
    ∀ j tx, pool !! j = Some tx → ∃ btx, btxs !! j = Some btx ∧ TransferBytes (stamp tx (now (i + j))) = Ret btx.
Proof using Hencode.
  clear Hrand. induction pool as [|tx pool IH]; intros fuel m calls i Hf.
  { destruct fuel; cbn [broadcast]; exists [], m; cbn; rewrite app_nil_r, Nat.add_0_r; done. }
  destruct fuel as [|fuel]; [cbn in Hf; lia|]. cbn [broadcast]. unfold batch. cbn [length Nat.ltb Nat.leb take drop foldM].
  unfold broadcast_tx at 1. destruct (Hencode (stamp tx (now i))) as [btx Eb]. rewrite Eb. cbn [mbind outcome_bind].
  destruct (HAdd m btx) as [[m1 ok] Ea]. rewrite Ea. cbn [mbind outcome_bind]. cbn [length] in Hf.
  destruct (IH fuel m1 (calls ++ sends im channel btx) (S i) ltac:(lia)) as (btxs & m' & E & Hadd & Hl & Hall).
  exists (btx :: btxs), m'. split_and!.
  - change (broadcast fuel im channel pool (m1, calls ++ sends im channel btx, S i) =
      Ret ([], (m', calls ++ sends im channel btx ++ concat (map (sends im channel) btxs), (i + S (length pool))%nat))).
    rewrite E, <- (assoc_L (++)). by replace (S i + length pool)%nat with (i + S (length pool))%nat by lia.
  - unfold add_all in *. cbn [foldM]. by rewrite Ea.
  - cbn. lia.
  - intros [|j] tx' Hj; cbn in Hj; [simplify_eq; exists btx; by rewrite Nat.add_0_r|].
    destruct (Hall j tx' Hj) as (b & ? & ?). exists b. by replace (i + S j)%nat with (S i + j)%nat by lia.
Qed.

(** Every goroutine that [StartMempool] starts ends with its pool empty: each
    transaction of the pool, stamped with the time of its turn, is added once
    to the mempool of the goroutine and sent once to every peer of the shard
    on the channel of that mempool, in the order of the pool. *)
Theorem StartMempool_drains (im : Importor) (rate rate1 rate2 : Z) (channel : Z) (m : M) (pool : list TransferTx)
    (HAdd : ∀ m btx, ∃ res, AddTx m btx = Ret res)
    (Hin : (channel, m, pool) ∈ StartMempool im rate rate1 rate2) :
  (channel = ChannelIDMempool ∧ mempool im = Some m ∧ pool = txPool im ∨
   channel = ChannelIDCrossShardMempool ∧ cross_shard_mempool im = Some m ∧ pool = cross_shard_txPool im ∧ isI im = false) ∧
  ∃ btxs m', run_broadcast im channel m pool = Ret ([], (m', concat (map (sends im channel) btxs), length pool)) ∧
    add_all m btxs = Ret m' ∧ length btxs = length pool ∧
    ∀ j tx, pool !! j = Some tx → ∃ btx, btxs !! j = Some btx ∧ TransferBytes (stamp tx (now j)) = Ret btx.
Proof using Hencode.
  clear Hrand. split.
  - revert Hin. unfold StartMempool. destruct (isI im), (mempool im) as [m0|], (cross_shard_mempool im) as [c|];
      destruct (0 <? rate), (0 <? rate1), (0 <? rate2); cbn; rewrite ?elem_of_cons, ?elem_of_nil; naive_solver.
  - destruct (broadcast_spec im channel HAdd pool (length pool) m [] 0 ltac:(lia)) as (btxs & m' & E & Ha & Hl & Hall). eauto 10.
Qed.
End Importer.
