(* ===== verification/PyrImporterDemo.v ===== *)
(** * The transaction generator of the Pyramid bank, run

    Witnesses of [PyrImporter]: a shard of one range with two accounts, whose
    transfers are generated and then broadcast to one peer. *)

From stdpp Require Import base list gmap strings numbers pretty.
From Stdlib Require Import ZArith Lia.
From S2P Require Import Prelude Convert BitVector Hash Wire Signer RangeTree PyrTypes ShardInfo PyrBank Network Importer ImporterDemo PyrDemo PyrImporter.

#[local] Existing Instance pyr_bank_wire.
Lemma pyr_bank_encodes (tx : TransferTx) : ∃ bz, TransferBytes tx = Ret bz.
Proof. by eexists. Qed.

Definition gen_tree : RangeTree := {| start := "a"; end_ := "b"; root := Some (Leaf "b" 0) |}.
Definition gen_clock (i : nat) : GoTime := {| unix := 100 + Z.of_nat i; nsec := 0 |}.
(** A mempool that keeps every transaction. *)
Definition keep_AddTx (m : list bytes) (tx : bytes) : outcome (list bytes * bool) := Ret (m ++ [tx], true).
Definition gen_importer : Importor (M := list bytes) (Conn := nat) :=
  NewImportor (Some []) (Some []) 2 64 2 false gen_tree [gen_tree] (Some Link.sender) "b1".

Lemma RandomGenerateTx_correct_witness : ∃ txs r', RandomGenerateTx alternating gen_clock 2 gen_importer 3 0 = Ret (Some (set_txPool gen_importer txs, r')) ∧
  zlen txs = 3 ∧ Forall (λ tx, ValidateTransferTx tx = None) txs.
Proof.
  destruct (RandomGenerateTx_correct alternating gen_clock alternating_range pyr_bank_encodes 2 two_accounts gen_importer 3 0)
    as (txs & r' & E & Hl & Hall).
  - exact names_fit_a.
  - apply (bool_decide_unpack _). vm_compute. reflexivity.
  - exact alternating_fair.
  - vm_compute. split; discriminate.
  - reflexivity.
  - lia.
  - exists txs, r'. split; [done|]. split; [done|]. eapply list.Forall_impl; [exact Hall|]. intros tx [_ Hv]. apply Hv.
    split; [vm_compute; discriminate|reflexivity].
Defined.

Definition filled : Importor (M := list bytes) (Conn := nat) :=
  match RandomGenerateTx alternating gen_clock 2 gen_importer 3 0 with Ret (Some (im, _)) => im | _ => gen_importer end.
Lemma StartMempool_drains_witness : length (txPool filled) = 3%nat ∧
  ∃ btxs m', run_broadcast gen_clock keep_AddTx filled ChannelIDMempool [] (txPool filled) =
      Ret ([], (m', concat (map (sends filled ChannelIDMempool) btxs), 3%nat)) ∧
    add_all keep_AddTx [] btxs = Ret m' ∧ length btxs = 3%nat.
Proof.
  split; [vm_compute; reflexivity|].
  destruct (StartMempool_drains gen_clock keep_AddTx pyr_bank_encodes filled 0 5 5 ChannelIDMempool [] (txPool filled))
    as [_ (btxs & m' & E & Ha & Hl & _)].
  - intros m btx. by eexists.
  - left.
  - exists btxs, m'. split; [exact E|]. split; [exact Ha|exact Hl].
Defined.
